(* ===== verification/_CoqProject ===== *)
-Q . S2P
Prelude.v
CString.v
Version.v
AlpmList.v
ListHeap.v
Util.v
Package.v
PkgHash.v
PkgSet.v
Handle.v
Deps.v
SortDeps.v
RecurseDeps.v
ResolveDeps.v
FileList.v
Conflict.v
Remove.v
Db.v
Sync.v
FileOps.v
DiskSpace.v
LocalDb.v
LocalDir.v
Options.v
ArchiveIO.v
Base64.v
Signing.v
PkgFile.v
SyncDb.v
Download.v
Fetch.v
Ini.v
Conf.v
ChildIO.v
Hook.v
Commit.v
Trans.v
Args.v
Protocol.v
TransHooks.v
EndToEnd.v
