(* ===== verification/Prelude.v ===== *)
(** * Verification of the dulge package manager

    dulge installs, upgrades and removes binary packages. Its core is the library
    libalpm (src/lib/libalpm); a command line front end (src/src/dulge) drives it.
    This development models the library: the state it keeps, the algorithms that
    decide what a transaction does, and the operations that carry it out; and of the
    front end the configuration file and the command line.

    ** How the program works, and where it is modelled

    A front end holds a handle ([Handle.alpm_handle_t]) with one local database,
    several sync databases, options, and at most one transaction. It calls
    alpm_trans_init, adds targets (alpm_add_pkg, alpm_remove_pkg,
    alpm_sync_sysupgrade), then alpm_trans_prepare, alpm_trans_commit and
    alpm_trans_release.

    - Prelude: C strings as lists of bytes, machine integers as [Z] with their
      wrap-around, tactics, hint databases, lemmas on lists and options.
      CString: the functions of ctype.h and string.h that the program uses.
    - Version (version.c): comparison of versions.
    - AlpmList, ListHeap (alpm_list.c): the list operations as functions on
      sequences, and the same operations as pointer programs on a heap of
      doubly linked nodes.
    - Util (util.c, rawstr.c, util-common.c): hashing, splitting and parsing of
      strings, paths.
    - Package (package.c, backup.c): the package record. A package is a C object,
      so the record carries its address; pointer comparison compares addresses.
    - PkgHash (pkghash.c): the open addressing hash table of a package cache;
      PkgSet: facts on lists of packages that the clients share.
    - Handle (handle.h, db.h, trans.h): the records of handle, database and
      transaction, and the class [PkgCache], which says what a package cache
      promises to its clients.
    - Deps, SortDeps, RecurseDeps, ResolveDeps (deps.c): dependency matching,
      text form and alpm_checkdeps; the order of the targets; the dependencies
      that a removal makes superfluous; the resolver.
    - FileList (filelist.c), Conflict (conflict.c): file lists; conflicts between
      packages and between files.
    - Remove (remove.c): targets and preparation of a removal.
    - Db (db.c, group.c, be_sync.c): registration of databases, package and group
      caches, search.
    - Sync (add.c, sync.c): targets of an installation, the system upgrade, and
      _alpm_sync_prepare.
    - FileOps (remove.c, add.c): removal and extraction of files on a tree of
      paths, with .pacsave and .pacnew files. DiskSpace (diskspace.c): the mount
      points, and whether a transaction or a download fits on them.
    - LocalDb, LocalDir (be_local.c): reading and writing the entry of a package
      in the local database, its lazy accessors; the database directory.
    - Options (handle.c, alpm.c): alpm_initialize and the options of the handle.
    - ArchiveIO (util.c), SyncDb (be_sync.c), PkgFile (be_package.c): lines of an
      archive entry; loading a sync database; validating and loading a package
      file, with its .PKGINFO and .MTREE.
    - Base64 (base64.c), Signing (signing.c): text form of signatures; the issuers
      of a signature, trust in the results of GPGME, import of keys.
    - Download, Fetch (dload.c, util.c): which servers a file is requested from, the
      loop over parallel transfers, partial files and signatures; cache directories
      and the temporary directory of the sandbox.
    - Ini (ini.c, util-common.c), ChildIO (util.c), Hook (hook.c): configuration
      text and word splitting; talking to a child process, with the class
      [ChildIO.StdinCb] for callbacks that produce its input; transaction hooks.
    - Commit (remove.c, add.c, sync.c): removal and installation of packages.
    - Trans (trans.c, handle.c, sync.c): the lock, the states of a transaction,
      download, validation and loading of package files, prepare and commit.
    - Conf (src/dulge/conf.c), Args (src/dulge/dulge.c): the directives of the
      configuration file, included files, defaults, and the options of the handle
      that follow; the command line and the rights it needs.
    - Protocol: sequences of calls of a front end. TransHooks: a commit with the
      hooks of Hook.
    - EndToEnd: a whole transaction, from its preparation to the new database.

    Fallible functions return an option, a sum, or the handle with pm_errno and
    the return code of the C function. Functions that change the handle take and
    return it. [None] as the result of a function that is total in C stands for
    undefined behaviour (a NULL pointer is used) or exhausted fuel; the theorems
    on these functions show that it does not occur.

    ** What the theorems show

    - Transactions. [EndToEnd.transaction_preserves_consistency]: a transaction
      that is prepared and committed takes a system whose dependencies hold and
      which has no conflicts to such a system.
      [Protocol.transaction_protocol]: lock, states and frame of every transaction
      call, of alpm_unlock and of alpm_pkg_set_reason, for all sequences of them. [Sync.sync_prepare_correct],
      [Remove.remove_prepare_correct], [Commit.sync_commit_correct]: preparation
      and commit on their own, failures included.
    - Deciding. [Deps.checkdeps_exact], [ResolveDeps.resolvedeps_correct],
      [SortDeps.sortbydeps_order] (with [sortbydeps_permutation]),
      [RecurseDeps.recursedeps_exact], [Remove.cascade_correct] and
      [keep_needed_correct], [Sync.sysupgrade_correct], [Conflict.fileconflicts_safe].
    - Files. [FileOps.extraction_safe], [removal_saves_config] (for names without
      special characters of regular expressions);
      [DiskSpace.check_diskspace_exact] and [check_downloadspace_exact].
    - The local database. [LocalDb.local_db_roundtrip]: what is written is what is
      read; [LocalDir.entry_lifecycle], [local_db_populate_correct].
    - Packages on offer. [SyncDb.sync_db_populate_correct] and
      [sync_db_populate_safe]: the packages of a repository archive, and what holds
      for any archive (the first needs blocks that hold their longest line, see
      [dependency_list_stale_pointer]); [ArchiveIO.archive_lines]. [PkgFile.pkg_load_correct] and
      [pkg_validate_sound]: what a loaded and a validated package file are.
    - Downloads. [Download.download_complete]: a download ends, and unless it reports an
      error the required files were received or had no newer version; [finished_download_safe]: only complete files get the name of a
      package; [Fetch.fetch_pkgurl_correct].
    - Signatures. [Signing.extract_keyid_issuers], [extract_keyid_safe],
      [no_import_without_consent], [Base64.decode_signature_correct].
    - Options. [Options.options_invariant]; [Conf.parseconfigfile_total]: reading the
      configuration ends, included files that include each other too;
      [Conf.repo_siglevel_correct] and [setup_reflects_config]: what the library gets.
      [Args.transaction_flags_correct]: the flags of a transaction from the options;
      [Args.unprivileged_cannot_commit]: what users without the rights of root can do.
    - Hooks. [Hook.hook_triggered_correct], [hook_override], [hook_run_correct]: which
      hooks run, where they come from, and in which order they run and stop;
      [TransHooks.invalid_hook_stops_commit]; [ChildIO.child_stdin_delivered].
    - Data structures. [PkgHash.pkghash_refines_map], [ListHeap.heap_msort_correct]
      (refinements), [Db.db_cache_invariant], [FileList.filelist_intersection_correct].
    - Versions and text. [Version.rpmvercmp_reference], [Deps.dep_string_roundtrip].
    - Defects, as statements about the code: [Signing.extract_keyid_endless],
      [FileOps.pacsave_overwritten], [LocalDb.local_db_long_description], and
      examples such as [PkgFile.stale_files_size], [Download.complete_part_not_renamed]
      and [signature_not_started], [Fetch.second_part_not_resumed] and
      [Protocol.commit_after_unlock].

    ** Bounds and fuel

    rpmvercmp: the length of both strings. Hash table probes: the number of
    buckets, which is enough because a table always has an empty one; the tables
    grow at least up to 414,054 packages by the list of primes, which is where the
    bound on the number of packages in Commit and EndToEnd comes from. SortDeps:
    twice the number of vertices. Worklists and cascade loops: the number of
    installed packages or of targets. Resolver: the number of packages on offer.
    Buffers have the lengths of the source: 1024 bytes for a line of an entry, LINE_MAX
    (2048) and PIPE_BUF (4096) for a child, PATH_MAX (4096) for a path; loops over
    bytes have the number of bytes as fuel. Configuration files nest ten deep, the limit
    of process_include, so that a fuel of eleven reads any of them. The loop
    of a download has no bound of its own: [Download.curl_download_internal] takes the
    number of rounds that are followed, and [download_complete] shows that some number
    is enough when libcurl lets no transfer run forever. Each file proves that its
    bound is enough.

    ** Not modelled

    Memory exhaustion; log messages, events and progress callbacks (questions to
    the user are functions in [alpm_env]). Sandboxing and the execution of
    scriptlets are input and output: what the modelled code needs of them is a
    parameter ([alpm_env], [Db.db_env], [FileOps.os], [Commit.commit_env],
    [Trans.trans_env], in which a download is one too), and so are libcurl
    ([Download.dl_env]), GPGME ([Signing.gpg_env]),
    libarchive (archives are lists of entries, entries lists of blocks), the mount
    table and what a child process does ([ChildIO.chroot_sys]). The rest of the
    front end (sync.c, query.c, callback.c, most of util.c) prints tables, progress
    bars and questions around calls of the library, and the tools in src/util are
    small programs around single functions of it.
    Symbolic links and path names that denote the same file are not distinguished,
    and paths are looked up in a tree whose directories all exist. *)
From Stdlib Require Export Ascii ZArith Lia Permutation Sorted.
From stdpp Require Export base tactics option list list_monad gmap fin_maps sorting strings.
#[global] Open Scope nat_scope.
#[global] Open Scope list_scope.

(** ** C strings

    A C string is the list of its bytes before the terminating NUL; the byte
    read at the end of the list is NUL ([hd_chr]). *)
Abbreviation cstr := (list ascii).

(** A literal, e.g. [str "usr/lib"]. *)
Definition str (s : String.string) : cstr := String.list_ascii_of_string s.
Arguments str s%_string_scope.

Definition NUL : ascii := Ascii.zero.

(** [*p] for a pointer into a string: NUL at its end. *)
Definition hd_chr (s : cstr) : ascii :=
  match s with [] => NUL | c :: _ => c end.

(** The value of an [unsigned char]. *)
Definition uchr (c : ascii) : Z := Z.of_N (N_of_ascii c).

(** The value of a plain [char], signed on the x86 targets of the program. *)
Definition schr (c : ascii) : Z :=
  if (uchr c <? 128)%Z then uchr c else (uchr c - 256)%Z.

(** ** Scans: [while(p(c)) s++] *)
Fixpoint take_while {A} (p : A → bool) (l : list A) : list A :=
  match l with
  | [] => []
  | x :: l' => if p x then x :: take_while p l' else []
  end.

Fixpoint drop_while {A} (p : A → bool) (l : list A) : list A :=
  match l with
  | [] => []
  | x :: l' => if p x then drop_while p l' else l
  end.

(** First element that satisfies a test: [for(i = l; i; i = i->next) if(p) return]. *)
Fixpoint find_first {A} (p : A → bool) (l : list A) : option A :=
  match l with
  | [] => None
  | x :: l' => if p x then Some x else find_first p l'
  end.

(** Three-way sign of an [int] result. *)
Definition sgn (z : Z) : Z := Z.sgn z.

(** ** Unsigned machine arithmetic *)
Definition wrap32 (z : Z) : Z := (z mod 2 ^ 32)%Z.
Definition wrap64 (z : Z) : Z := (z mod 2 ^ 64)%Z.

#[global] Arguments Nat.div : simpl never.
#[global] Arguments Nat.modulo : simpl never.
#[global] Arguments Z.pow : simpl never.
#[global] Arguments wrap32 : simpl never.
#[global] Arguments wrap64 : simpl never.

(** ** Tactics of the development *)
Create HintDb alpm discriminated.
Create HintDb alpm_simpl discriminated.

(** Case analysis on the scrutinee of an [if] or [match] of the goal. *)
Ltac case_if :=
  match goal with
  | |- context [if ?b then _ else _] => destruct b eqn:?
  | |- context [match ?b with _ => _ end] => destruct b eqn:?
  end.

(** Turn boolean tests in the context into propositions. *)
Ltac bool_prop :=
  repeat match goal with
  | H : negb _ = true |- _ => apply negb_true_iff in H
  | H : negb _ = false |- _ => apply negb_false_iff in H
  | H : andb _ _ = true |- _ => apply andb_true_iff in H; destruct H
  | H : orb _ _ = false |- _ => apply orb_false_iff in H; destruct H
  | H : orb _ _ = true |- _ => apply orb_true_iff in H
  | H : andb _ _ = false |- _ => apply andb_false_iff in H
  | H : (_ =? _)%Z = true |- _ => apply Z.eqb_eq in H
  | H : (_ =? _)%Z = false |- _ => apply Z.eqb_neq in H
  | H : (_ <? _)%Z = true |- _ => apply Z.ltb_lt in H
  | H : (_ <? _)%Z = false |- _ => apply Z.ltb_ge in H
  | H : (_ <=? _)%Z = true |- _ => apply Z.leb_le in H
  | H : (_ <=? _)%Z = false |- _ => apply Z.leb_gt in H
  | H : (_ =? _)%nat = true |- _ => apply Nat.eqb_eq in H
  | H : (_ =? _)%nat = false |- _ => apply Nat.eqb_neq in H
  | H : (_ <? _)%nat = true |- _ => apply Nat.ltb_lt in H
  | H : (_ <? _)%nat = false |- _ => apply Nat.ltb_ge in H
  | H : (_ <=? _)%nat = true |- _ => apply Nat.leb_le in H
  | H : (_ <=? _)%nat = false |- _ => apply Nat.leb_gt in H
  | H : bool_decide _ = true |- _ => apply bool_decide_eq_true in H
  | H : bool_decide _ = false |- _ => apply bool_decide_eq_false in H
  end.

(** Decide a closed statement about one byte by evaluating all 256 of them. *)
Ltac by_byte c :=
  destruct c as [[] [] [] [] [] [] [] []]; vm_compute; done.

(** ** Lemmas on scans *)
Section scans.
Context {A : Type}.
Implicit Types (p : A → bool) (l : list A).

Lemma take_drop_while p l : take_while p l ++ drop_while p l = l.
Proof. induction l as [|x l IH]; simpl; [done|]. destruct (p x); simpl; congruence. Qed.

Lemma length_take_drop_while p l :
  length (take_while p l) + length (drop_while p l) = length l.
Proof. by rewrite <-length_app, take_drop_while. Qed.

Lemma take_while_Forall p l : Forall (λ x, p x = true) (take_while p l).
Proof. induction l as [|x l IH]; simpl; [constructor|]. destruct (p x) eqn:?; by constructor. Qed.

Lemma drop_while_head p l x l' : drop_while p l = x :: l' → p x = false.
Proof.
  induction l as [|y l IH]; simpl; [done|].
  destruct (p y) eqn:?; [done|]. by intros [= <- <-].
Qed.

Lemma take_while_app p l1 l2 :
  Forall (λ x, p x = true) l1 →
  (∀ x l, l2 = x :: l → p x = false) →
  take_while p (l1 ++ l2) = l1.
Proof.
  induction 1 as [|x l1 Hx _ IH]; simpl; intros Hl2.
  - destruct l2 as [|y l2]; [done|]. simpl. by rewrite (Hl2 y l2).
  - rewrite Hx. by rewrite IH.
Qed.

Lemma drop_while_app p l1 l2 :
  Forall (λ x, p x = true) l1 →
  (∀ x l, l2 = x :: l → p x = false) →
  drop_while p (l1 ++ l2) = l2.
Proof.
  induction 1 as [|x l1 Hx _ IH]; simpl; intros Hl2.
  - destruct l2 as [|y l2]; [done|]. simpl. by rewrite (Hl2 y l2).
  - rewrite Hx. by rewrite IH.
Qed.

Lemma take_while_all p l : Forall (λ x, p x = true) l → take_while p l = l.
Proof.
  intros H. rewrite <-(app_nil_r l) at 1. by apply take_while_app.
Qed.

Lemma drop_while_all p l : Forall (λ x, p x = true) l → drop_while p l = [].
Proof.
  intros H. rewrite <-(app_nil_r l). by apply drop_while_app.
Qed.

Lemma find_first_Some p l x :
  find_first p l = Some x → x ∈ l ∧ p x = true.
Proof.
  induction l as [|y l IH]; simpl; [done|].
  destruct (p y) eqn:?.
  - intros [= ->]. split; [set_solver|done].
  - intros ?%IH. set_solver.
Qed.

Lemma find_first_None p l :
  find_first p l = None ↔ ∀ x, x ∈ l → p x = false.
Proof.
  induction l as [|y l IH]; simpl.
  - split; [set_solver|done].
  - destruct (p y) eqn:?; [|set_solver].
    split; [done|]. intros H. rewrite (H y) in Heqb by set_solver. done.
Qed.

Lemma find_first_is_Some p l :
  is_Some (find_first p l) ↔ ∃ x, x ∈ l ∧ p x = true.
Proof.
  split.
  - intros [x ?%find_first_Some]. eauto.
  - intros (x & Hx & Hp). destruct (find_first p l) eqn:E; [eauto|].
    rewrite find_first_None in E. rewrite (E x) in Hp by done. done.
Qed.

End scans.

Lemma filter_split_perm {A} (f : A → bool) l :
  List.filter f l ++ List.filter (λ q, negb (f q)) l ≡ₚ l.
Proof.
  induction l as [|x l IH]; simpl; [done|]. destruct (f x); simpl; [by rewrite IH|].
  by rewrite <-Permutation_middle, IH.
Qed.

Lemma elem_of_bfilter {A} (f : A → bool) l x : x ∈ List.filter f l ↔ x ∈ l ∧ f x = true.
Proof. by rewrite !list_elem_of_In, filter_In. Qed.

Lemma bfilter_length_lt {A} (f g : A → bool) l x :
  (∀ y, f y = true → g y = true) → x ∈ l → g x = true → f x = false →
  (length (List.filter f l) < length (List.filter g l))%nat.
Proof.
  intros Hfg Hx Hgx Hfx.
  assert (∀ k, length (List.filter f k) ≤ length (List.filter g k))%nat as Hle.
  { induction k as [|y k IH]; simpl; [done|]. specialize (Hfg y).
    destruct (f y), (g y); simpl; lia || by discriminate Hfg. }
  apply list_elem_of_split in Hx as (l1 & l2 & ->).
  rewrite !List.filter_app, !length_app. simpl. rewrite Hgx, Hfx. simpl.
  specialize (Hle l1) as H1. specialize (Hle l2) as H2. lia.
Qed.

(** Two elements with the same image under a duplicate-free map are equal. *)
Lemma NoDup_map_inj {A B} (f : A → B) l x y :
  NoDup (map f l) → x ∈ l → y ∈ l → f x = f y → x = y.
Proof.
  intros Hnd (i & Hi)%list_elem_of_lookup (j & Hj)%list_elem_of_lookup E.
  assert (i = j) as ->; [|congruence].
  eapply (NoDup_lookup (map f l)); [done| |].
  - rewrite list_lookup_fmap, Hi. done.
  - rewrite list_lookup_fmap, Hj, E. done.
Qed.

Lemma filter_none {A} (P : A → Prop) `{!∀ x, Decision (P x)} (l : list A) :
  (∀ x, x ∈ l → ¬ P x) → base.filter P l = [].
Proof.
  induction l as [|x l IH]; intros Hl; [done|].
  rewrite filter_cons_False by (apply Hl; set_solver). apply IH. set_solver.
Qed.

Lemma filter_all {A} (P : A → Prop) `{!∀ x, Decision (P x)} (l : list A) :
  (∀ x, x ∈ l → P x) → base.filter P l = l.
Proof.
  induction l as [|x l IH]; intros Hl; [done|].
  rewrite filter_cons_True by (apply Hl; set_solver). f_equal. apply IH. set_solver.
Qed.

#[export] Hint Resolve take_while_Forall : alpm.

(** ** Bytes *)
Lemma uchr_range c : (0 <= uchr c < 256)%Z.
Proof. by_byte c. Qed.

Lemma uchr_inj c d : uchr c = uchr d → c = d.
Proof.
  intros H. apply (f_equal Z.to_N) in H. unfold uchr in H.
  rewrite !N2Z.id in H. apply (f_equal ascii_of_N) in H.
  by rewrite !ascii_N_embedding in H.
Qed.
