(* ===== verification/CString.v ===== *)
(** * The C library functions on strings that the program calls

    [ctype.h] in the C locale and the [string.h] functions, on strings given
    as the list of bytes before the terminating NUL.  Search functions return
    the text before and after the byte found instead of a pointer to it. *)
From S2P Require Import Prelude.

(** ** ctype.h, C locale *)
Definition in_range (lo hi : Z) (c : ascii) : bool :=
  ((lo <=? uchr c) && (uchr c <=? hi))%Z.

Definition isdigit (c : ascii) : bool := in_range 48 57 c.
Definition isupper (c : ascii) : bool := in_range 65 90 c.
Definition islower (c : ascii) : bool := in_range 97 122 c.
Definition isalpha (c : ascii) : bool := isupper c || islower c.
Definition isalnum (c : ascii) : bool := isalpha c || isdigit c.
Definition isspace (c : ascii) : bool := in_range 9 13 c || (uchr c =? 32)%Z.

(** ** string.h

    The standard fixes only the sign of the result of [strcmp]; the model
    returns -1, 0 or 1. Bytes are compared as [unsigned char]. *)
Fixpoint strcmp (a b : cstr) : Z :=
  match a, b with
  | [], [] => 0
  | [], _ :: _ => -1
  | _ :: _, [] => 1
  | c :: a', d :: b' =>
      if (uchr c <? uchr d)%Z then -1
      else if (uchr d <? uchr c)%Z then 1
      else strcmp a' b'
  end%Z.

Definition streq (a b : cstr) : bool := (strcmp a b =? 0)%Z.

Definition strncmp (a b : cstr) (n : nat) : Z := strcmp (take n a) (take n b).

(** [strchr]: what precedes and what follows the first [c]. *)
Fixpoint split_first (c : ascii) (s : cstr) : option (cstr * cstr) :=
  match s with
  | [] => None
  | d :: s' =>
      if Ascii.eqb d c then Some ([], s')
      else '(pre, post) ← split_first c s'; Some (d :: pre, post)
  end.

(** [strrchr]: what precedes and what follows the last [c]. *)
Fixpoint split_last (c : ascii) (s : cstr) : option (cstr * cstr) :=
  match s with
  | [] => None
  | d :: s' =>
      match split_last c s' with
      | Some (pre, post) => Some (d :: pre, post)
      | None => if Ascii.eqb d c then Some ([], s') else None
      end
  end.

(** [strstr(s, needle)] for a non-empty needle: text before and after it. *)
Fixpoint is_prefix (p s : cstr) : bool :=
  match p, s with
  | [], _ => true
  | _ :: _, [] => false
  | c :: p', d :: s' => Ascii.eqb c d && is_prefix p' s'
  end.

Fixpoint split_substr (needle s : cstr) : option (cstr * cstr) :=
  if is_prefix needle s then Some ([], drop (length needle) s)
  else match s with
       | [] => None
       | d :: s' => '(pre, post) ← split_substr needle s'; Some (d :: pre, post)
       end.

(** Numeric value of a run of decimal digits. *)
Definition digit_val (c : ascii) : Z := (uchr c - 48)%Z.
Definition digits_val (s : cstr) : Z :=
  fold_left (λ acc c, (acc * 10 + digit_val c)%Z) s 0%Z.

(** ** Facts about bytes *)
Lemma isdigit_isalnum c : isdigit c = true → isalnum c = true.
Proof. unfold isalnum. intros ->. apply orb_true_r. Qed.

Lemma isalpha_isalnum c : isalpha c = true → isalnum c = true.
Proof. unfold isalnum. by intros ->. Qed.

Lemma isdigit_not_isalpha c : isdigit c = true → isalpha c = false.
Proof. by_byte c. Qed.

Lemma isalnum_cases c :
  isalnum c = true → isdigit c = true ∨ (isdigit c = false ∧ isalpha c = true).
Proof. unfold isalnum. destruct (isdigit c), (isalpha c); naive_solver. Qed.

Lemma digit_val_range c : isdigit c = true → (0 <= digit_val c <= 9)%Z.
Proof. unfold isdigit, in_range, digit_val. intros. bool_prop. lia. Qed.

Lemma eqb_uchr c d : Ascii.eqb c d = (uchr c =? uchr d)%Z.
Proof.
  destruct (Ascii.eqb_spec c d) as [->|Hne]; [by rewrite Z.eqb_refl|].
  symmetry. apply Z.eqb_neq. by intros ?%uchr_inj.
Qed.

#[export] Hint Resolve isdigit_isalnum isalpha_isalnum isdigit_not_isalpha : alpm.

(** ** Order on strings *)
Lemma strcmp_refl a : strcmp a a = 0%Z.
Proof. induction a as [|c a IH]; simpl; [done|]. by rewrite Z.ltb_irrefl. Qed.

Lemma strcmp_eq a b : strcmp a b = 0%Z ↔ a = b.
Proof.
  split; [|intros ->; apply strcmp_refl].
  revert b. induction a as [|c a IH]; intros [|d b]; simpl; try done.
  repeat case_if; try done. bool_prop.
  intros ->%IH. f_equal. apply uchr_inj. lia.
Qed.

Lemma strcmp_range a b : strcmp a b = (-1)%Z ∨ strcmp a b = 0%Z ∨ strcmp a b = 1%Z.
Proof.
  revert b. induction a as [|c a IH]; intros [|d b]; simpl; auto.
  repeat case_if; auto.
Qed.

Lemma strcmp_antisym a b : strcmp b a = (- strcmp a b)%Z.
Proof.
  revert b. induction a as [|c a IH]; intros [|d b]; simpl; try done.
  destruct (Z.ltb_spec (uchr c) (uchr d)), (Z.ltb_spec (uchr d) (uchr c));
    try done; lia.
Qed.

Lemma strcmp_trans a b c :
  (strcmp a b <= 0)%Z → (strcmp b c <= 0)%Z → (strcmp a c <= 0)%Z.
Proof.
  revert b c. induction a as [|x a IH]; intros [|y b] [|z c]; simpl; try done.
  destruct (Z.ltb_spec (uchr x) (uchr y)), (Z.ltb_spec (uchr y) (uchr x)),
    (Z.ltb_spec (uchr y) (uchr z)), (Z.ltb_spec (uchr z) (uchr y)),
    (Z.ltb_spec (uchr x) (uchr z)), (Z.ltb_spec (uchr z) (uchr x));
    try lia; eauto.
Qed.

Lemma streq_true a b : streq a b = true ↔ a = b.
Proof. unfold streq. by rewrite Z.eqb_eq, strcmp_eq. Qed.

Lemma streq_false a b : streq a b = false ↔ a ≠ b.
Proof. unfold streq. by rewrite Z.eqb_neq, strcmp_eq. Qed.

Lemma streq_refl a : streq a a = true.
Proof. by apply streq_true. Qed.

Lemma streq_sym a b : streq a b = streq b a.
Proof. unfold streq. rewrite (strcmp_antisym a b). destruct (strcmp_range a b) as [H|[H|H]]; by rewrite H. Qed.

#[export] Hint Rewrite strcmp_refl streq_refl : alpm_simpl.

Ltac streq_prop :=
  repeat match goal with
  | H : streq _ _ = true |- _ => apply streq_true in H
  | H : streq _ _ = false |- _ => apply streq_false in H
  end.

(** ** Splitting *)
Lemma split_first_Some c s pre post :
  split_first c s = Some (pre, post) ↔ s = pre ++ c :: post ∧ c ∉ pre.
Proof.
  revert pre post. induction s as [|d s IH]; intros pre post; simpl.
  - split; [done|]. intros [H _]. by destruct pre.
  - destruct (Ascii.eqb_spec d c) as [->|Hne].
    + split; [intros [= <- <-]; split; [done|set_solver]|].
      intros [H Hn]. destruct pre as [|e pre]; simplify_eq/=; [done|]. set_solver.
    + destruct (split_first c s) as [[p q]|] eqn:E; simpl.
      * split.
        -- intros [= <- <-]. destruct (proj1 (IH p q) eq_refl) as [-> ?].
           split; [done|set_solver].
        -- intros [H Hn]. destruct pre as [|e pre]; simplify_eq/=.
           assert (Some (p, q) = Some (pre, post)) as [= -> ->]; [|done].
           apply IH. set_solver.
      * split; [done|]. intros [H Hn]. destruct pre as [|e pre]; simplify_eq/=.
        assert (None = Some (pre, post)) as [=]. apply IH. set_solver.
Qed.

Lemma split_first_None c s : split_first c s = None ↔ c ∉ s.
Proof.
  induction s as [|d s IH]; simpl.
  - split; [set_solver|done].
  - destruct (Ascii.eqb_spec d c) as [->|Hne].
    + split; [done|]. set_solver.
    + destruct (split_first c s) as [[p q]|]; simpl.
      * split; [done|]. intros H. assert (Some (p, q) = None) by (apply IH; set_solver). done.
      * split; [|done]. intros _. apply not_elem_of_cons. split; [done|by apply IH].
Qed.

Lemma split_last_Some c s pre post :
  split_last c s = Some (pre, post) ↔ s = pre ++ c :: post ∧ c ∉ post.
Proof.
  revert pre post. induction s as [|d s IH]; intros pre post; simpl.
  - split; [done|]. intros [H _]. by destruct pre.
  - destruct (split_last c s) as [[p q]|] eqn:E.
    + destruct (proj1 (IH p q) eq_refl) as [-> Hq]. split.
      * intros [= <- <-]. done.
      * intros [H Hn]. destruct pre as [|e pre]; simplify_eq/=; [set_solver|].
        assert (Some (p, q) = Some (pre, post)) as [= -> ->]; [|done]. by apply IH.
    + assert (c ∉ s) as Hns.
      { intros (l1 & l2 & -> & Hl)%list_elem_of_split_r.
        assert (None = Some (l1, l2)) as [=]. by apply IH. }
      destruct (Ascii.eqb_spec d c) as [->|Hne].
      * split; [intros [= <- <-]; done|].
        intros [H Hn]. destruct pre as [|e pre]; simplify_eq/=; [done|].
        set_solver.
      * split; [done|]. intros [H Hn]. destruct pre as [|e pre]; simplify_eq/=.
        set_solver.
Qed.

Lemma split_last_None c s : split_last c s = None ↔ c ∉ s.
Proof.
  split.
  - intros H (l1 & l2 & -> & Hl)%list_elem_of_split_r.
    assert (None = Some (l1, l2)) as [=]. rewrite <-H. by apply split_last_Some.
  - intros Hn. destruct (split_last c s) as [[p q]|] eqn:E; [|done].
    apply split_last_Some in E as [-> _]. set_solver.
Qed.

Lemma is_prefix_spec p s : is_prefix p s = true ↔ ∃ t, s = p ++ t.
Proof.
  revert s. induction p as [|c p IH]; intros s; simpl.
  - split; eauto.
  - destruct s as [|d s].
    + split; [done|]. by intros [t ?].
    + rewrite andb_true_iff, Ascii.eqb_eq, IH. split.
      * intros [-> [t ->]]. eauto.
      * intros [t [= -> ->]]. eauto.
Qed.

Lemma split_substr_Some_app needle s pre post :
  split_substr needle s = Some (pre, post) → s = pre ++ needle ++ post.
Proof.
  revert pre post. induction s as [|d s IH]; intros pre post; simpl.
  - destruct (is_prefix needle []) eqn:E; [|done].
    apply is_prefix_spec in E as [t Ht]. intros [= <- <-].
    symmetry in Ht. apply app_nil in Ht as [-> ->]. done.
  - destruct (is_prefix needle (d :: s)) eqn:E.
    + apply is_prefix_spec in E as [t Ht]. intros [= <- <-].
      rewrite Ht. simpl. by rewrite drop_app_length.
    + destruct (split_substr needle s) as [[p q]|]; simpl; [|done].
      intros [= <- <-]. simpl. f_equal. by apply IH.
Qed.

(** ** Decimal values *)
Lemma digits_val_app s t :
  digits_val (s ++ t) = (digits_val s * 10 ^ Z.of_nat (length t) + digits_val t)%Z.
Proof.
  unfold digits_val. rewrite fold_left_app.
  generalize (fold_left (λ acc c, (acc * 10 + digit_val c)%Z) s 0%Z) as k.
  induction t as [|c t IH] using rev_ind; intros k; simpl.
  - lia.
  - rewrite !fold_left_app, IH, length_app, Nat2Z.inj_add, Z.pow_add_r by lia. simpl. lia.
Qed.

Lemma digits_val_cons c t :
  digits_val (c :: t) = (digit_val c * 10 ^ Z.of_nat (length t) + digits_val t)%Z.
Proof. change (c :: t) with ([c] ++ t). rewrite digits_val_app. done. Qed.

Lemma digits_val_bound s :
  Forall (λ c, isdigit c = true) s →
  (0 <= digits_val s < 10 ^ Z.of_nat (length s))%Z.
Proof.
  induction 1 as [|c s Hc Hs IH]; [done|].
  rewrite digits_val_cons. simpl length. rewrite Nat2Z.inj_succ, Z.pow_succ_r by lia.
  apply digit_val_range in Hc. nia.
Qed.
