(* ===== verification/Version.v ===== *)
(** * Version comparison (lib/libalpm/version.c)

    [parseEVR], [rpmvercmp] and [alpm_pkg_vercmp], and a reference definition
    that compares version strings token by token, numbers by their value.
    [rpmvercmp] is shown to compute the reference; range, reflexivity,
    antisymmetry and transitivity are then properties of the reference. *)
From S2P Require Import Prelude CString.

(** ** The code *)

(** parseEVR: epoch, version, and release when there is one. The C function
    writes terminators into [evr] and returns pointers into it. *)
Definition parseEVR (evr : cstr) : cstr * cstr * option cstr :=
  let pre := take_while isdigit evr in
  let s := drop_while isdigit evr in
  let '(s0, release) :=
    match split_last "-"%char s with
    | Some (s0, r) => (s0, Some r)
    | None => (s, None)
    end in
  match s with
  | ":"%char :: _ =>
      ((if pre is [] then str "0" else pre), tail s0, release)
  | _ => (str "0", pre ++ s0, release)
  end.

(** One pass of the body of the [while] loop of rpmvercmp. *)
Inductive iter_result :=
  | IterRet (ret : Z)
  | IterBreak (one two : cstr)
  | IterNext (one two : cstr).

Definition is_sep (c : ascii) : bool := negb (isalnum c).
Definition is_zero (c : ascii) : bool := Ascii.eqb c "0"%char.

Definition rpmvercmp_iter (one two : cstr) : iter_result :=
  let sep1 := take_while is_sep one in
  let sep2 := take_while is_sep two in
  let one := drop_while is_sep one in
  let two := drop_while is_sep two in
  match one, two with
  | c1 :: _, _ :: _ =>
      if negb (length sep1 =? length sep2)
      then IterRet (if length sep1 <? length sep2 then (-1)%Z else 1%Z)
      else
        let isnum := isdigit c1 in
        let cls := if isnum then isdigit else isalpha in
        let seg1 := take_while cls one in
        let seg2 := take_while cls two in
        let ptr1 := drop_while cls one in
        let ptr2 := drop_while cls two in
        if bool_decide (seg1 = []) then IterRet (-1)
        else if bool_decide (seg2 = []) then IterRet (if isnum then 1%Z else (-1)%Z)
        else
          let seg1 := if isnum then drop_while is_zero seg1 else seg1 in
          let seg2 := if isnum then drop_while is_zero seg2 else seg2 in
          if isnum && (length seg2 <? length seg1) then IterRet 1
          else if isnum && (length seg1 <? length seg2) then IterRet (-1)
          else
            let rc := strcmp seg1 seg2 in
            if negb (rc =? 0)%Z then IterRet (if (rc <? 1)%Z then (-1)%Z else 1%Z)
            else IterNext ptr1 ptr2
  | _, _ => IterBreak one two
  end.

(** The code after the loop ("the final showdown"). *)
Definition rpmvercmp_final (one two : cstr) : Z :=
  if bool_decide (one = []) && bool_decide (two = []) then 0
  else if (bool_decide (one = []) && negb (isalpha (hd_chr two))) || isalpha (hd_chr one)
  then -1 else 1.

Fixpoint rpmvercmp_loop (fuel : nat) (one two : cstr) : Z :=
  match fuel with
  | O => 0
  | S fuel =>
      match one, two with
      | _ :: _, _ :: _ =>
          match rpmvercmp_iter one two with
          | IterRet ret => ret
          | IterBreak one two => rpmvercmp_final one two
          | IterNext one two => rpmvercmp_loop fuel one two
          end
      | _, _ => rpmvercmp_final one two
      end
  end.

(** Each pass consumes a byte of [one], so its length bounds the passes. *)
Definition rpmvercmp (a b : cstr) : Z :=
  if streq a b then 0 else rpmvercmp_loop (S (length a)) a b.

Definition alpm_pkg_vercmp (a b : option cstr) : Z :=
  match a, b with
  | None, None => 0
  | None, Some _ => -1
  | Some _, None => 1
  | Some a, Some b =>
      if streq a b then 0
      else
        let '(epoch1, ver1, rel1) := parseEVR a in
        let '(epoch2, ver2, rel2) := parseEVR b in
        let ret := rpmvercmp epoch1 epoch2 in
        if (ret =? 0)%Z then
          let ret := rpmvercmp ver1 ver2 in
          match rel1, rel2 with
          | Some rel1, Some rel2 =>
              if (ret =? 0)%Z then rpmvercmp rel1 rel2 else ret
          | _, _ => ret
          end
        else ret
  end.

(** ** The reference *)

(** A version string is a list of segments, each with the number of separator
    bytes before it, and whether separators trail the last segment. *)
Inductive segment := SNum (digits : cstr) | SAlpha (letters : cstr).

Fixpoint tokens (fuel : nat) (s : cstr) : list (nat * segment) * bool :=
  match fuel with
  | O => ([], false)
  | S fuel =>
      let sep := take_while is_sep s in
      match drop_while is_sep s with
      | [] => ([], negb (length sep =? 0))
      | (c :: _) as s' =>
          let '(cls, mk) := if isdigit c then (isdigit, SNum) else (isalpha, SAlpha) in
          let '(ts, trail) := tokens fuel (drop_while cls s') in
          ((length sep, mk (take_while cls s')) :: ts, trail)
      end
  end.

Definition version_tokens (s : cstr) := tokens (S (length s)) s.

Definition zcmp (a b : Z) : Z :=
  match (a ?= b)%Z with Lt => -1 | Eq => 0 | Gt => 1 end.

Definition seg_cmp (s t : segment) : Z :=
  match s, t with
  | SNum a, SNum b => zcmp (digits_val a) (digits_val b)
  | SNum _, SAlpha _ => 1
  | SAlpha _, SNum _ => -1
  | SAlpha a, SAlpha b => strcmp a b
  end.

Definition tok_cmp1 (t u : nat * segment) : Z :=
  let c := zcmp (Z.of_nat t.1) (Z.of_nat u.1) in
  if (c =? 0)%Z then seg_cmp t.2 u.2 else c.

(** The end of one string against a segment of the other: letters glued to
    the last segment ("1.0rc1") make a version older than its stem, anything
    else makes it newer; after trailing separators letters are always older. *)
Definition end_cmp (trail : bool) (t : nat * segment) : Z :=
  match t.2 with
  | SNum _ => -1
  | SAlpha _ => if trail || (t.1 =? 0) then 1 else -1
  end.

Fixpoint tok_cmp (ts : list (nat * segment)) (t1 : bool)
    (us : list (nat * segment)) (t2 : bool) : Z :=
  match ts, us with
  | [], [] => zcmp (Z.b2z t1) (Z.b2z t2)
  | [], u :: _ => end_cmp t1 u
  | t :: _, [] => - end_cmp t2 t
  | t :: ts, u :: us =>
      let c := tok_cmp1 t u in
      if (c =? 0)%Z then tok_cmp ts t1 us t2 else c
  end.

Definition version_cmp (a b : cstr) : Z :=
  let '(ts, t1) := version_tokens a in
  let '(us, t2) := version_tokens b in
  tok_cmp ts t1 us t2.

(** No separator at the end: every version a package is built with. *)
Definition no_trailing_sep (s : cstr) : bool := negb (version_tokens s).2.

(** ** Comparisons of numbers *)
Lemma zcmp_refl a : zcmp a a = 0%Z.
Proof. unfold zcmp. by rewrite Z.compare_refl. Qed.

Lemma zcmp_antisym a b : zcmp b a = (- zcmp a b)%Z.
Proof. unfold zcmp. rewrite (Z.compare_antisym a b). by destruct (a ?= b)%Z. Qed.

Lemma zcmp_cases a b :
  ((a < b)%Z ∧ zcmp a b = (-1)%Z) ∨ (a = b ∧ zcmp a b = 0%Z) ∨ ((b < a)%Z ∧ zcmp a b = 1%Z).
Proof. unfold zcmp. destruct (Z.compare_spec a b); auto. Qed.

Ltac zcmp_case a b :=
  let H := fresh "Hz" in
  destruct (zcmp_cases a b) as [[? H]|[[? H]|[? H]]]; rewrite ?H in *.

Abbreviation all_digits := (Forall (λ c, isdigit c = true)).

Lemma strcmp_digits a b :
  all_digits a → all_digits b → length a = length b →
  strcmp a b = zcmp (digits_val a) (digits_val b).
Proof.
  intros Ha. revert b. induction Ha as [|c a Hc Ha IH]; intros [|d b] Hb Hlen;
    try done; simpl in *.
  inversion Hb as [|?? Hd Hb']; subst. injection Hlen as Hlen.
  rewrite !digits_val_cons, <-Hlen, IH by done.
  pose proof (digits_val_bound _ Ha) as Ba. pose proof (digits_val_bound _ Hb') as Bb.
  rewrite <-Hlen in Bb. set (P := (10 ^ Z.of_nat (length a))%Z) in *.
  unfold digit_val.
  destruct (Z.ltb_spec (uchr c) (uchr d)), (Z.ltb_spec (uchr d) (uchr c)); try lia.
  - zcmp_case ((uchr c - 48) * P + digits_val a)%Z ((uchr d - 48) * P + digits_val b)%Z; nia.
  - zcmp_case ((uchr c - 48) * P + digits_val a)%Z ((uchr d - 48) * P + digits_val b)%Z; nia.
  - replace (uchr d) with (uchr c) by lia.
    zcmp_case (digits_val a) (digits_val b);
      zcmp_case ((uchr c - 48) * P + digits_val a)%Z ((uchr c - 48) * P + digits_val b)%Z;
      lia.
Qed.

Lemma strip_zeros_digits a : all_digits a → all_digits (drop_while is_zero a).
Proof.
  induction 1 as [|c a Hc Ha IH]; simpl; [constructor|].
  destruct (is_zero c); [done|]. by constructor.
Qed.

Lemma strip_zeros_val a : digits_val (drop_while is_zero a) = digits_val a.
Proof.
  induction a as [|c a IH]; simpl; [done|].
  destruct (is_zero c) eqn:E; [|done].
  rewrite IH, digits_val_cons. unfold is_zero in E. apply Ascii.eqb_eq in E as ->.
  change (digit_val "0"%char) with 0%Z. lia.
Qed.

Lemma strip_zeros_lower a :
  all_digits a → drop_while is_zero a ≠ [] →
  (10 ^ Z.of_nat (length (drop_while is_zero a) - 1) <= digits_val a)%Z.
Proof.
  intros Ha. rewrite <-(strip_zeros_val a).
  destruct (drop_while is_zero a) as [|c t] eqn:E; [done|]. intros _.
  pose proof (drop_while_head _ _ _ _ E) as Hz.
  pose proof (strip_zeros_digits _ Ha) as Hd. rewrite E in Hd.
  inversion Hd as [|?? Hc Ht]; subst.
  rewrite digits_val_cons. simpl. rewrite Nat.sub_0_r.
  pose proof (digits_val_bound _ Ht) as Bt.
  assert (1 <= digit_val c)%Z; [|nia].
  apply digit_val_range in Hc. unfold is_zero in Hz. rewrite eqb_uchr in Hz.
  apply Z.eqb_neq in Hz. unfold digit_val in *. change (uchr "0"%char) with 48%Z in Hz. lia.
Qed.

Lemma longer_number_bigger a b :
  all_digits a → all_digits b →
  length (drop_while is_zero b) < length (drop_while is_zero a) →
  (digits_val b < digits_val a)%Z.
Proof.
  intros Ha Hb Hlen.
  pose proof (strip_zeros_lower _ Ha) as La.
  pose proof (digits_val_bound _ (strip_zeros_digits _ Hb)) as Ub.
  rewrite strip_zeros_val in Ub.
  eapply Z.lt_le_trans; [apply Ub|]. etrans; [|apply La].
  - apply Z.pow_le_mono_r; lia.
  - intros H. rewrite H in Hlen. simpl in Hlen. lia.
Qed.

(** ** Tokens as a grammar *)
Definition seg_chars (s : segment) : cstr :=
  match s with SNum d => d | SAlpha l => l end.

Definition seg_class (s : segment) : ascii → bool :=
  match s with SNum _ => isdigit | SAlpha _ => isalpha end.

Definition head_not (p : ascii → bool) (s : cstr) : Prop :=
  ∀ c t, s = c :: t → p c = false.

Definition seg_ok (s : segment) : Prop :=
  seg_chars s ≠ [] ∧ Forall (λ c, seg_class s c = true) (seg_chars s).

Inductive is_tokens : cstr → list (nat * segment) → bool → Prop :=
  | tok_end sep :
      Forall (λ c, is_sep c = true) sep →
      is_tokens sep [] (negb (length sep =? 0))
  | tok_seg sep sg rest ts trail :
      Forall (λ c, is_sep c = true) sep → seg_ok sg →
      head_not (seg_class sg) rest → is_tokens rest ts trail →
      is_tokens (sep ++ seg_chars sg ++ rest) ((length sep, sg) :: ts) trail.

Lemma seg_class_alnum s c : seg_class s c = true → is_sep c = false.
Proof.
  unfold is_sep. rewrite negb_false_iff. destruct s; simpl; eauto with alpm.
Qed.

Lemma seg_ok_head s : seg_ok s → ∃ c t, seg_chars s = c :: t ∧ seg_class s c = true.
Proof.
  intros [Hne Hall]. destruct (seg_chars s) as [|c t]; [done|].
  exists c, t. split; [done|]. by inversion Hall.
Qed.

Lemma head_not_seg s r : seg_ok s → head_not is_sep (seg_chars s ++ r).
Proof.
  intros (c & t & Hs & Hc)%seg_ok_head. rewrite Hs. intros d u [= <- <-].
  by apply seg_class_alnum in Hc.
Qed.

Lemma scan_sep sep s r :
  Forall (λ c, is_sep c = true) sep → seg_ok s →
  take_while is_sep (sep ++ seg_chars s ++ r) = sep ∧
  drop_while is_sep (sep ++ seg_chars s ++ r) = seg_chars s ++ r.
Proof.
  intros Hsep Hs. split; [apply take_while_app|apply drop_while_app]; auto;
    by apply head_not_seg.
Qed.

Lemma scan_seg s r :
  seg_ok s → head_not (seg_class s) r →
  take_while (seg_class s) (seg_chars s ++ r) = seg_chars s ∧
  drop_while (seg_class s) (seg_chars s ++ r) = r.
Proof. intros [_ Hs] Hr. split; [by apply take_while_app|by apply drop_while_app]. Qed.

Lemma seg_num_head s c t :
  seg_ok s → seg_chars s = c :: t → isdigit c = true ↔ ∃ d, s = SNum d.
Proof.
  intros (c' & t' & Hs & Hc)%seg_ok_head Hs'. rewrite Hs in Hs'. simplify_eq.
  destruct s as [d|l]; simpl in Hc; split; eauto.
  - intros Hd%isdigit_not_isalpha. congruence.
  - intros [d ?]. done.
Qed.

Lemma tokens_cons n s c s' :
  drop_while is_sep s = c :: s' →
  tokens (S n) s =
    let sep := take_while is_sep s in
    let cls := if isdigit c then isdigit else isalpha in
    let mk := if isdigit c then SNum else SAlpha in
    let r := tokens n (drop_while cls (c :: s')) in
    ((length sep, mk (take_while cls (c :: s'))) :: r.1, r.2).
Proof.
  intros E. cbn [tokens]. rewrite E. cbv zeta.
  destruct (isdigit c); cbv beta iota zeta; by destruct (tokens n _).
Qed.

Lemma tokens_sound n s :
  length s < n → is_tokens s (tokens n s).1 (tokens n s).2.
Proof.
  revert s. induction n as [|n IH]; intros s Hlen; [lia|].
  destruct (drop_while is_sep s) as [|c s'] eqn:E.
  - simpl. rewrite E. simpl.
    assert (take_while is_sep s = s) as ->.
    { rewrite <-(take_drop_while is_sep s) at 2. by rewrite E, app_nil_r. }
    apply tok_end. rewrite <-(take_drop_while is_sep s), E, app_nil_r.
    apply take_while_Forall.
  - rewrite (tokens_cons _ _ _ _ E). cbv zeta. cbn [fst snd].
    set (cls := if isdigit c then isdigit else isalpha).
    set (sg := (if isdigit c then SNum else SAlpha) (take_while cls (c :: s'))).
    assert (seg_class sg = cls ∧ seg_chars sg = take_while cls (c :: s')) as [Hcl Hch]
      by (unfold sg, cls; by destruct (isdigit c)).
    assert (cls c = true) as Hc.
    { unfold cls. pose proof (drop_while_head _ _ _ _ E) as Hs.
      unfold is_sep in Hs. apply negb_false_iff in Hs.
      destruct (isalnum_cases _ Hs) as [H|[H ?]]; by rewrite H. }
    assert (s = take_while is_sep s ++ seg_chars sg ++ drop_while cls (c :: s')) as Hsplit.
    { rewrite Hch, take_drop_while, <-E. symmetry. apply take_drop_while. }
    pose proof (length_take_drop_while is_sep s) as Hl1. rewrite E in Hl1. simpl in Hl1.
    pose proof (length_take_drop_while cls s') as Hl2.
    rewrite Hsplit at 1. apply tok_seg.
    + apply take_while_Forall.
    + split; rewrite Hch, ?Hcl; [simpl; by rewrite Hc|apply take_while_Forall].
    + intros d t Hd. rewrite Hcl. by eapply drop_while_head.
    + apply IH. simpl. rewrite Hc. lia.
Qed.

(** ** rpmvercmp computes the reference *)
Lemma rpmvercmp_iter_seg sep1 s1 r1 sep2 s2 r2 :
  Forall (λ c, is_sep c = true) sep1 → seg_ok s1 → head_not (seg_class s1) r1 →
  Forall (λ c, is_sep c = true) sep2 → seg_ok s2 → head_not (seg_class s2) r2 →
  rpmvercmp_iter (sep1 ++ seg_chars s1 ++ r1) (sep2 ++ seg_chars s2 ++ r2) =
    let c := tok_cmp1 (length sep1, s1) (length sep2, s2) in
    if (c =? 0)%Z then IterNext r1 r2 else IterRet c.
Proof.
  intros Hsep1 Hok1 Hr1 Hsep2 Hok2 Hr2. unfold rpmvercmp_iter.
  destruct (scan_sep sep1 s1 r1) as [-> ->]; [done..|].
  destruct (scan_sep sep2 s2 r2) as [-> ->]; [done..|].
  destruct (seg_ok_head _ Hok1) as (c1 & t1 & E1 & Hc1).
  destruct (seg_ok_head _ Hok2) as (c2 & t2 & E2 & Hc2).
  rewrite E1, E2. cbn [app]. unfold tok_cmp1. cbn [fst snd].
  destruct (Nat.eqb_spec (length sep1) (length sep2)) as [Heq|Hne]; cbn [negb].
  2:{ zcmp_case (Z.of_nat (length sep1)) (Z.of_nat (length sep2)); [|lia|];
      simpl; destruct (Nat.ltb_spec (length sep1) (length sep2)); [done|lia|lia|done]. }
  rewrite Heq, zcmp_refl. cbn [Z.eqb].
  change (c1 :: t1 ++ r1) with ((c1 :: t1) ++ r1). change (c2 :: t2 ++ r2) with ((c2 :: t2) ++ r2).
  rewrite <-E1, <-E2.
  assert ((if isdigit c1 then isdigit else isalpha) = seg_class s1) as ->.
  { destruct s1; simpl in Hc1 |- *; [by rewrite Hc1|].
    destruct (isdigit c1) eqn:Hd; [|done]. apply isdigit_not_isalpha in Hd. congruence. }
  destruct (scan_seg s1 r1) as [-> ->]; [done..|].
  rewrite bool_decide_eq_false_2 by apply Hok1.
  destruct s1 as [a|a], s2 as [b|b]; simpl seg_class in *; simpl seg_chars in *.
  - destruct (scan_seg (SNum b) r2) as [H1 H2]; [done..|]. simpl in H1, H2. rewrite H1, H2.
    rewrite bool_decide_eq_false_2 by apply Hok2. rewrite Hc1. cbn [andb].
    destruct Hok1 as [_ Ha], Hok2 as [_ Hb]; simpl in *.
    destruct (Nat.ltb_spec (length (drop_while is_zero b)) (length (drop_while is_zero a))) as [Hl|Hl].
    { apply longer_number_bigger in Hl; [|done..]. zcmp_case (digits_val a) (digits_val b); [lia|lia|done]. }
    destruct (Nat.ltb_spec (length (drop_while is_zero a)) (length (drop_while is_zero b))) as [Hl'|Hl'].
    { apply longer_number_bigger in Hl'; [|done..]. zcmp_case (digits_val a) (digits_val b); [done|lia|lia]. }
    rewrite strcmp_digits, !strip_zeros_val by (auto using strip_zeros_digits || lia).
    zcmp_case (digits_val a) (digits_val b); done.
  - assert (take_while isdigit (b ++ r2) = []) as ->.
    { rewrite E2. simpl. destruct (isdigit c2) eqn:Hd; [|done].
      apply isdigit_not_isalpha in Hd. congruence. }
    rewrite bool_decide_eq_true_2 by done. by rewrite Hc1.
  - assert (take_while isalpha (b ++ r2) = []) as ->.
    { rewrite E2. simpl. by rewrite (isdigit_not_isalpha _ Hc2). }
    rewrite bool_decide_eq_true_2 by done.
    destruct (isdigit c1) eqn:Hd; [|done]. apply isdigit_not_isalpha in Hd. congruence.
  - destruct (scan_seg (SAlpha b) r2) as [H1 H2]; [done..|]. simpl in H1, H2. rewrite H1, H2.
    rewrite bool_decide_eq_false_2 by apply Hok2.
    destruct (isdigit c1) eqn:Hd; [apply isdigit_not_isalpha in Hd; congruence|].
    cbn [andb seg_cmp]. destruct (strcmp_range a b) as [H|[H|H]]; rewrite H; done.
Qed.

Lemma seg_head_alpha s c t :
  seg_ok s → seg_chars s = c :: t →
  isalpha c = (match s with SNum _ => false | SAlpha _ => true end).
Proof.
  intros (c' & t' & Hs & Hc)%seg_ok_head Hs'. rewrite Hs in Hs'. simplify_eq.
  destruct s; simpl in Hc; [by apply isdigit_not_isalpha|done].
Qed.

Lemma is_sep_not_alpha c : is_sep c = true → isalpha c = false.
Proof.
  unfold is_sep, isalnum. rewrite negb_true_iff. by intros [? _]%orb_false_iff.
Qed.

(** The loop at the end of one of the strings. *)
Lemma rpmvercmp_final_tokens sep1 sep2 s2 r2 :
  Forall (λ c, is_sep c = true) sep1 →
  Forall (λ c, is_sep c = true) sep2 → seg_ok s2 →
  rpmvercmp_final [] (seg_chars s2 ++ r2) = end_cmp true (length sep2, s2) ∧
  rpmvercmp_final (seg_chars s2 ++ r2) [] = (- end_cmp true (length sep2, s2))%Z ∧
  rpmvercmp_final [] (sep2 ++ seg_chars s2 ++ r2) = end_cmp false (length sep2, s2) ∧
  rpmvercmp_final (sep2 ++ seg_chars s2 ++ r2) [] = (- end_cmp false (length sep2, s2))%Z.
Proof.
  intros Hsep1 Hsep2 Hok.
  destruct (seg_ok_head _ Hok) as (c & t & Hc & _). rewrite Hc. simpl app.
  pose proof (seg_head_alpha _ _ _ Hok Hc) as Ha.
  unfold rpmvercmp_final, end_cmp.
  destruct sep2 as [|d sep2]; simpl; rewrite ?Ha; [by destruct s2|].
  inversion Hsep2 as [|?? Hd _]; subst. rewrite (is_sep_not_alpha _ Hd).
  by destruct s2.
Qed.

Lemma rpmvercmp_loop_spec n one ts t1 two us t2 :
  length one < n →
  is_tokens one ts t1 → is_tokens two us t2 →
  rpmvercmp_loop n one two = tok_cmp ts t1 us t2.
Proof.
  revert one ts two us. induction n as [|n IH]; intros one ts two us Hlen H1 H2; [lia|].
  destruct H1 as [sep1 Hsep1|sep1 s1 r1 ts t1 Hsep1 Hok1 Hr1 H1];
    destruct H2 as [sep2 Hsep2|sep2 s2 r2 us t2 Hsep2 Hok2 Hr2 H2].
  - destruct sep1 as [|c1 sep1], sep2 as [|c2 sep2]; simpl rpmvercmp_loop.
    + done.
    + inversion Hsep2 as [|?? Hd _]; subst. unfold rpmvercmp_final. simpl.
      by rewrite (is_sep_not_alpha _ Hd).
    + inversion Hsep1 as [|?? Hd _]; subst. unfold rpmvercmp_final. simpl.
      by rewrite (is_sep_not_alpha _ Hd).
    + unfold rpmvercmp_iter. rewrite !drop_while_all by done. done.
  - destruct (rpmvercmp_final_tokens sep1 sep2 s2 r2) as (F1 & _ & F3 & _); [done..|].
    destruct sep1 as [|c1 sep1]; [simpl rpmvercmp_loop; by rewrite F3|].
    destruct (scan_sep sep2 s2 r2) as [_ D2]; [done..|].
    simpl rpmvercmp_loop. destruct (sep2 ++ seg_chars s2 ++ r2) eqn:E.
    { exfalso. destruct Hok2 as [Hne _]. destruct sep2, (seg_chars s2); done. }
    unfold rpmvercmp_iter. rewrite (drop_while_all is_sep (c1 :: sep1)) by done.
    rewrite D2. by rewrite F1.
  - destruct (rpmvercmp_final_tokens sep2 sep1 s1 r1) as (_ & F2 & _ & F4); [done..|].
    destruct (scan_sep sep1 s1 r1) as [_ D1]; [done..|].
    simpl rpmvercmp_loop. destruct (sep1 ++ seg_chars s1 ++ r1) eqn:E.
    { exfalso. destruct Hok1 as [Hne _]. destruct sep1, (seg_chars s1); done. }
    destruct sep2 as [|c2 sep2]; [by rewrite F4|].
    unfold rpmvercmp_iter. rewrite (drop_while_all is_sep (c2 :: sep2)) by done.
    rewrite D1. destruct (seg_ok_head _ Hok1) as (c & t & Hc & _). rewrite Hc in F2 |- *.
    exact F2.
  - pose proof (rpmvercmp_iter_seg _ _ _ _ _ _ Hsep1 Hok1 Hr1 Hsep2 Hok2 Hr2) as Hit.
    simpl rpmvercmp_loop. rewrite Hit. cbv zeta.
    destruct (seg_ok_head _ Hok1) as (c & t & Hc & _).
    rewrite !length_app, Hc in Hlen. simpl in Hlen.
    destruct (sep1 ++ seg_chars s1 ++ r1) eqn:E1.
    { exfalso. destruct Hok1 as [Hne _]. destruct sep1, (seg_chars s1); done. }
    destruct (sep2 ++ seg_chars s2 ++ r2) eqn:E2.
    { exfalso. destruct Hok2 as [Hne _]. destruct sep2, (seg_chars s2); done. }
    simpl tok_cmp. destruct (_ =? 0)%Z; [|done]. apply IH; [lia|done|done].
Qed.

Lemma rpmvercmp_loop_version_cmp a b :
  rpmvercmp_loop (S (length a)) a b = version_cmp a b.
Proof.
  unfold version_cmp, version_tokens.
  pose proof (tokens_sound (S (length a)) a ltac:(lia)) as Ha.
  pose proof (tokens_sound (S (length b)) b ltac:(lia)) as Hb.
  destruct (tokens _ a) as [ts t1], (tokens _ b) as [us t2]. simpl in Ha, Hb.
  by apply rpmvercmp_loop_spec; [lia|..].
Qed.

(** ** The reference is an order *)
Lemma seg_cmp_refl s : seg_cmp s s = 0%Z.
Proof. destruct s; simpl; [apply zcmp_refl|apply strcmp_refl]. Qed.

Lemma seg_cmp_antisym s t : seg_cmp t s = (- seg_cmp s t)%Z.
Proof. destruct s, t; simpl; auto using zcmp_antisym, strcmp_antisym. Qed.

Lemma tok_cmp1_refl t : tok_cmp1 t t = 0%Z.
Proof. unfold tok_cmp1. rewrite zcmp_refl. apply seg_cmp_refl. Qed.

Lemma tok_cmp1_antisym t u : tok_cmp1 u t = (- tok_cmp1 t u)%Z.
Proof.
  unfold tok_cmp1. rewrite (seg_cmp_antisym t.2).
  rewrite (zcmp_antisym (Z.of_nat t.1)).
  by zcmp_case (Z.of_nat t.1) (Z.of_nat u.1).
Qed.

Lemma zcmp_range a b : zcmp a b ∈ [(-1)%Z; 0%Z; 1%Z].
Proof. unfold zcmp. destruct (a ?= b)%Z; set_solver. Qed.

Lemma tok_cmp_refl ts t : tok_cmp ts t ts t = 0%Z.
Proof.
  induction ts as [|u ts IH]; simpl; [apply zcmp_refl|]. by rewrite tok_cmp1_refl.
Qed.

Lemma tok_cmp_antisym ts t1 us t2 : tok_cmp us t2 ts t1 = (- tok_cmp ts t1 us t2)%Z.
Proof.
  revert us. induction ts as [|t ts IH]; intros [|u us]; simpl; try lia.
  - apply zcmp_antisym.
  - rewrite (tok_cmp1_antisym t u).
    replace (- tok_cmp1 t u =? 0)%Z with (tok_cmp1 t u =? 0)%Z by (destruct (tok_cmp1 t u); done).
    by destruct (_ =? 0)%Z.
Qed.

Lemma tok_cmp_range ts t1 us t2 : tok_cmp ts t1 us t2 ∈ [(-1)%Z; 0%Z; 1%Z].
Proof.
  assert (∀ x, x ∈ [(-1)%Z; 0%Z; 1%Z] ↔ x = (-1)%Z ∨ x = 0%Z ∨ x = 1%Z) as Hr by set_solver.
  revert us. induction ts as [|t ts IH]; intros [|u us]; simpl.
  - apply zcmp_range.
  - unfold end_cmp. repeat case_if; set_solver.
  - unfold end_cmp. repeat case_if; set_solver.
  - destruct (_ =? 0)%Z; [apply IH|]. unfold tok_cmp1.
    destruct (_ =? 0)%Z; [|apply zcmp_range].
    destruct t.2, u.2; simpl; try apply zcmp_range; rewrite Hr; auto using strcmp_range.
Qed.

Lemma seg_cmp_trans s t u :
  (seg_cmp s t <= 0)%Z → (seg_cmp t u <= 0)%Z → (seg_cmp s u <= 0)%Z.
Proof.
  destruct s as [a|a], t as [b|b], u as [c|c]; simpl; try lia; [|apply strcmp_trans].
  zcmp_case (digits_val a) (digits_val b); zcmp_case (digits_val b) (digits_val c);
    zcmp_case (digits_val a) (digits_val c); lia.
Qed.

Lemma tok_cmp1_trans t u v :
  (tok_cmp1 t u <= 0)%Z → (tok_cmp1 u v <= 0)%Z → (tok_cmp1 t v <= 0)%Z.
Proof.
  destruct t as [i s], u as [j s'], v as [k s'']. unfold tok_cmp1; simpl.
  pose proof (seg_cmp_trans s s' s'').
  zcmp_case (Z.of_nat i) (Z.of_nat j); zcmp_case (Z.of_nat j) (Z.of_nat k);
    zcmp_case (Z.of_nat i) (Z.of_nat k); simpl in *; lia.
Qed.

Lemma tok_cmp1_eq_compat t u v :
  tok_cmp1 t u = 0%Z → tok_cmp1 t v = tok_cmp1 u v.
Proof.
  intros H. pose proof (tok_cmp1_antisym t u). pose proof (tok_cmp1_antisym t v).
  pose proof (tok_cmp1_antisym u v).
  pose proof (tok_cmp1_trans t u v). pose proof (tok_cmp1_trans u t v).
  pose proof (tok_cmp1_trans v t u). pose proof (tok_cmp1_trans v u t).
  assert (∀ x y, tok_cmp1 x y = (-1)%Z ∨ tok_cmp1 x y = 0%Z ∨ tok_cmp1 x y = 1%Z) as Hr.
  { intros [i s] [j s']. unfold tok_cmp1; simpl.
    zcmp_case (Z.of_nat i) (Z.of_nat j); simpl; auto.
    destruct s as [a|a], s' as [b|b]; simpl; auto using strcmp_range.
    zcmp_case (digits_val a) (digits_val b); auto. }
  destruct (Hr t v) as [?|[?|?]], (Hr u v) as [?|[?|?]]; lia.
Qed.

Lemma end_cmp_mono t u :
  (tok_cmp1 t u <= 0)%Z → (end_cmp false t <= 0)%Z → (end_cmp false u <= 0)%Z.
Proof.
  destruct t as [i [a|a]], u as [j [b|b]]; unfold tok_cmp1, end_cmp; simpl; try lia;
    zcmp_case (Z.of_nat i) (Z.of_nat j); destruct (Nat.eqb_spec i 0), (Nat.eqb_spec j 0);
    simpl; lia.
Qed.

Lemma end_cmp_nonzero b t : end_cmp b t ≠ 0%Z.
Proof. unfold end_cmp. repeat case_if; lia. Qed.

Lemma tok_cmp_trans ts us vs :
  (tok_cmp ts false us false <= 0)%Z → (tok_cmp us false vs false <= 0)%Z →
  (tok_cmp ts false vs false <= 0)%Z.
Proof.
  revert us vs. induction ts as [|t ts IH]; intros [|u us] [|v vs]; simpl; try done.
  - intros Ht. destruct (Z.eqb_spec (tok_cmp1 u v) 0) as [E|E]; intros Hu.
    + apply (end_cmp_mono u v); lia.
    + by apply (end_cmp_mono u v).
  - intros Ht Hv. destruct (Z.eqb_spec (tok_cmp1 t v) 0) as [E|E].
    + exfalso. pose proof (end_cmp_nonzero false t). pose proof (end_cmp_nonzero false v).
      pose proof (tok_cmp1_antisym t v). pose proof (end_cmp_mono v t). lia.
    + destruct (Z.le_gt_cases (tok_cmp1 t v) 0); [done|]. exfalso.
      pose proof (end_cmp_nonzero false t).
      pose proof (tok_cmp1_antisym t v). pose proof (end_cmp_mono v t). lia.
  - intros Ht Hu. pose proof (end_cmp_nonzero false u). pose proof (end_cmp_nonzero false t).
    destruct (Z.le_gt_cases (end_cmp false t) 0); [|lia]. exfalso.
    pose proof (end_cmp_mono t u).
    destruct (Z.eqb_spec (tok_cmp1 t u) 0); lia.
  - intros Ht Hu.
    destruct (Z.eqb_spec (tok_cmp1 t u) 0) as [E|E].
    + rewrite (tok_cmp1_eq_compat _ _ v E). destruct (_ =? 0)%Z; [by eapply IH|done].
    + destruct (Z.eqb_spec (tok_cmp1 u v) 0) as [E'|E'].
      * pose proof (tok_cmp1_antisym u v). pose proof (tok_cmp1_antisym t v).
        pose proof (tok_cmp1_antisym t u).
        rewrite <-(Z.opp_involutive (tok_cmp1 t v)), <-(tok_cmp1_antisym t v).
        rewrite <-(tok_cmp1_eq_compat u v t E'), (tok_cmp1_antisym t u).
        rewrite Z.opp_involutive. destruct (Z.eqb_spec (tok_cmp1 t u) 0); [done|lia].
      * pose proof (tok_cmp1_trans t u v Ht Hu).
        destruct (Z.eqb_spec (tok_cmp1 t v) 0) as [E''|]; [|done]. exfalso.
        rewrite (tok_cmp1_eq_compat _ _ u E''), (tok_cmp1_antisym u v) in Ht. lia.
Qed.

Lemma version_cmp_refl a : version_cmp a a = 0%Z.
Proof. unfold version_cmp. destruct (version_tokens a). apply tok_cmp_refl. Qed.

Lemma version_cmp_antisym a b : version_cmp b a = (- version_cmp a b)%Z.
Proof.
  unfold version_cmp. destruct (version_tokens a), (version_tokens b). apply tok_cmp_antisym.
Qed.

Lemma rpmvercmp_spec a b : rpmvercmp a b = version_cmp a b.
Proof.
  unfold rpmvercmp. destruct (streq a b) eqn:E.
  - apply streq_true in E as ->. by rewrite version_cmp_refl.
  - apply rpmvercmp_loop_version_cmp.
Qed.

Lemma rpmvercmp_antisym a b : rpmvercmp b a = (- rpmvercmp a b)%Z.
Proof. rewrite !rpmvercmp_spec. apply version_cmp_antisym. Qed.

Lemma rpmvercmp_refl a : rpmvercmp a a = 0%Z.
Proof. rewrite rpmvercmp_spec. apply version_cmp_refl. Qed.

Lemma rpmvercmp_trans a b c :
  no_trailing_sep a = true → no_trailing_sep b = true → no_trailing_sep c = true →
  (rpmvercmp a b <= 0)%Z → (rpmvercmp b c <= 0)%Z → (rpmvercmp a c <= 0)%Z.
Proof.
  rewrite !rpmvercmp_spec. unfold no_trailing_sep, version_cmp.
  destruct (version_tokens a) as [ts []], (version_tokens b) as [us []],
    (version_tokens c) as [vs []]; try done.
  intros _ _ _. apply tok_cmp_trans.
Qed.

(** ** alpm_pkg_vercmp *)
Lemma pkg_vercmp_parts a b :
  alpm_pkg_vercmp (Some a) (Some b) =
    let '(e1, v1, r1) := parseEVR a in
    let '(e2, v2, r2) := parseEVR b in
    if (rpmvercmp e1 e2 =? 0)%Z then
      if (rpmvercmp v1 v2 =? 0)%Z then
        match r1, r2 with Some r1, Some r2 => rpmvercmp r1 r2 | _, _ => 0%Z end
      else rpmvercmp v1 v2
    else rpmvercmp e1 e2.
Proof.
  simpl. destruct (streq a b) eqn:E.
  - apply streq_true in E as ->. destruct (parseEVR b) as [[e v] r].
    rewrite !rpmvercmp_refl. simpl. destruct r; [by rewrite rpmvercmp_refl|done].
  - destruct (parseEVR a) as [[e1 v1] r1], (parseEVR b) as [[e2 v2] r2].
    destruct (_ =? 0)%Z; [|done].
    destruct (Z.eqb_spec (rpmvercmp v1 v2) 0) as [->|]; destruct r1, r2; done.
Qed.

(** Epoch, version and release all end in a segment, and there is a release:
    the shape of the versions of built packages. *)
Definition full_version (s : cstr) : bool :=
  match parseEVR s with
  | (e, v, Some r) => no_trailing_sep e && no_trailing_sep v && no_trailing_sep r
  | _ => false
  end.

Lemma zsign_opp_eqb z : (- z =? 0)%Z = (z =? 0)%Z.
Proof. by destruct z. Qed.

(** Three components compared in order compose to a transitive comparison. *)
Lemma lex_trans (x y z x' y' z' : Z) (P Q R : Z) :
  (if (x =? 0)%Z then P else x) = x' →
  (if (y =? 0)%Z then Q else y) = y' →
  (if (z =? 0)%Z then R else z) = z' →
  ((x <= 0)%Z → (y <= 0)%Z → (z <= 0)%Z) →
  ((x <= 0)%Z → (y <= 0)%Z → z = 0%Z → x = 0%Z ∧ y = 0%Z) →
  ((P <= 0)%Z → (Q <= 0)%Z → (R <= 0)%Z) →
  (x' <= 0)%Z → (y' <= 0)%Z → (z' <= 0)%Z.
Proof.
  intros <- <- <- Hle Heq Hrec.
  destruct (Z.eqb_spec x 0), (Z.eqb_spec y 0), (Z.eqb_spec z 0); lia.
Qed.

Lemma rpmvercmp_eq_back a b c :
  no_trailing_sep a = true → no_trailing_sep b = true → no_trailing_sep c = true →
  (rpmvercmp a b <= 0)%Z → (rpmvercmp b c <= 0)%Z → rpmvercmp a c = 0%Z →
  rpmvercmp a b = 0%Z ∧ rpmvercmp b c = 0%Z.
Proof.
  intros Ha Hb Hc Hab Hbc Hac.
  pose proof (rpmvercmp_antisym a b). pose proof (rpmvercmp_antisym b c).
  pose proof (rpmvercmp_antisym a c).
  pose proof (rpmvercmp_trans b c a Hb Hc Ha). pose proof (rpmvercmp_trans c a b Hc Ha Hb). lia.
Qed.

(** Examples from the version comparison test suite of the repository. *)
Example vercmp_examples :
  map (λ '(a, b), alpm_pkg_vercmp (Some (str a)) (Some (str b)))
    [("1.5.0", "1.5.0"); ("1.5.1", "1.5.0"); ("1.5.1", "1.5"); ("1.5", "1.5b");
     ("1.5", "1.5rc"); ("1.5.a", "1.5"); ("2.0", "2_0"); ("2.0.", "2.0");
     ("1:1.0", "2.0"); ("1.5.0-1", "1.5.0-2"); ("1.5-1", "1.5"); ("1.1..a", "1.1.a")]%string
  = [0; 1; 1; 1; 1; 1; 0; 1; 1; -1; 0; 1]%Z.
Proof. vm_compute. reflexivity. Qed.

(** C17. rpmvercmp, with its in-place scanning, leading-zero stripping and
    length comparison of digit runs, computes the token-by-token reference in
    which numeric segments are compared by their numeric value, for all
    strings (and so terminates with an answer on all of them). *)
Theorem rpmvercmp_reference a b : rpmvercmp a b = version_cmp a b.
Proof. apply rpmvercmp_spec. Qed.

(** alpm_pkg_vercmp returns -1, 0 or 1, returns 0 on equal arguments, and
    is antisymmetric: swapping its arguments negates the result (NULL
    arguments included). *)
Theorem pkg_vercmp_antisymmetric a b :
  alpm_pkg_vercmp a b ∈ [(-1)%Z; 0%Z; 1%Z] ∧
  alpm_pkg_vercmp a a = 0%Z ∧
  alpm_pkg_vercmp b a = (- alpm_pkg_vercmp a b)%Z.
Proof.
  assert (∀ x y, rpmvercmp x y ∈ [(-1)%Z; 0%Z; 1%Z]) as Hr.
  { intros x y. rewrite rpmvercmp_spec. unfold version_cmp.
    destruct (version_tokens x), (version_tokens y). apply tok_cmp_range. }
  assert (0%Z ∈ [(-1)%Z; 0%Z; 1%Z]) by set_solver.
  split_and!.
  - destruct a as [a|], b as [b|]; [|simpl; set_solver..].
    rewrite pkg_vercmp_parts. destruct (parseEVR a) as [[e1 v1] r1], (parseEVR b) as [[e2 v2] r2].
    repeat case_if; auto.
  - destruct a as [a|]; [|done]. simpl. by rewrite streq_refl.
  - destruct a as [a|], b as [b|]; [|done..]. rewrite !pkg_vercmp_parts.
    destruct (parseEVR a) as [[e1 v1] r1], (parseEVR b) as [[e2 v2] r2].
    rewrite (rpmvercmp_antisym e1 e2), (rpmvercmp_antisym v1 v2), !zsign_opp_eqb.
    destruct (_ =? 0)%Z; [|done]. destruct (_ =? 0)%Z; [|done].
    destruct r1, r2; auto using rpmvercmp_antisym.
Qed.

(** On full versions (epoch, version and release that do not end in a
    separator, release present) "not newer than" is transitive, so the
    comparison is a total preorder on the versions packages are built with. *)
Theorem pkg_vercmp_transitive a b c :
  full_version a = true → full_version b = true → full_version c = true →
  (alpm_pkg_vercmp (Some a) (Some b) <= 0)%Z →
  (alpm_pkg_vercmp (Some b) (Some c) <= 0)%Z →
  (alpm_pkg_vercmp (Some a) (Some c) <= 0)%Z.
Proof.
  unfold full_version. rewrite !pkg_vercmp_parts.
  destruct (parseEVR a) as [[e1 v1] [r1|]], (parseEVR b) as [[e2 v2] [r2|]],
    (parseEVR c) as [[e3 v3] [r3|]]; try done.
  intros Ha Hb Hc. bool_prop.
  eapply lex_trans; [reflexivity..| | |].
  { by apply (rpmvercmp_trans e1 e2 e3). }
  { by apply (rpmvercmp_eq_back e1 e2 e3). }
  eapply lex_trans; [reflexivity..| | |].
  - by apply (rpmvercmp_trans v1 v2 v3).
  - by apply (rpmvercmp_eq_back v1 v2 v3).
  - by apply (rpmvercmp_trans r1 r2 r3).
Qed.

Lemma pkg_vercmp_transitive_witness :
  (alpm_pkg_vercmp (Some (str "1.0rc1-1")) (Some (str "1:0.9-1")) <= 0)%Z.
Proof.
  apply (pkg_vercmp_transitive (str "1.0rc1-1") (str "1.0-1") (str "1:0.9-1"));
    vm_compute; done.
Defined.

(** With trailing separators the comparison is not transitive: "1." is
    older than "1.1", "1.1" older than "1.....a", and "1.....a" older than
    "1.", so three versions can each be an upgrade of the next. *)
Theorem pkg_vercmp_cycle :
  let v s := Some (str s) in
  alpm_pkg_vercmp (v "1."%string) (v "1.1"%string) = (-1)%Z ∧
  alpm_pkg_vercmp (v "1.1"%string) (v "1.....a"%string) = (-1)%Z ∧
  alpm_pkg_vercmp (v "1.....a"%string) (v "1."%string) = (-1)%Z.
Proof. vm_compute. done. Qed.

(** parseEVR inverts the composition of a version string: digits as
    epoch, a release without '-', and any version text (which may contain
    ':' and '-') are recovered exactly. *)
Theorem parseEVR_compose epoch ver rel :
  all_digits epoch → epoch ≠ [] → "-"%char ∉ rel →
  parseEVR (epoch ++ ":"%char :: ver ++ "-"%char :: rel) = (epoch, ver, Some rel).
Proof.
  intros He Hne Hrel. unfold parseEVR.
  rewrite take_while_app, drop_while_app by (done || by intros ?? [= <- <-]).
  rewrite app_comm_cons.
  rewrite (proj2 (split_last_Some _ _ (":"%char :: ver) rel)) by done.
  by destruct epoch.
Qed.

Lemma parseEVR_compose_witness :
  parseEVR (str "12:4.0-rc1-2") = (str "12", str "4.0-rc1", Some (str "2")).
Proof.
  apply (parseEVR_compose (str "12") (str "4.0-rc1") (str "2"));
    [repeat constructor|done|].
  by apply (bool_decide_unpack _).
Defined.
