(* ===== verification/AlpmList.v ===== *)
(** * Lists of values (lib/libalpm/alpm_list.c), as functions on lists

    The operations of [alpm_list_t] as the rest of the library uses them:
    functions from the sequence of data pointers to a new sequence. The file
    ListHeap shows that the pointer code computes these functions. The theorems
    here are about the algorithms: merge sort, the sorted difference, the
    unordered comparison. *)
From S2P Require Import Prelude CString.

(** A comparison function of type [alpm_list_fn_cmp] that orders its
    arguments: what [strcmp] and the helpers built on it promise to the list
    functions that sort. *)
Class CmpOrder {A} (fn : A → A → Z) : Prop := {
  cmp_refl x : fn x x = 0%Z;
  cmp_sym x y : (fn x y <= 0)%Z ↔ (0 <= fn y x)%Z;
  cmp_trans x y z : (fn x y <= 0)%Z → (fn y z <= 0)%Z → (fn x z <= 0)%Z;
}.

Section alpm_list.
Context {A : Type} (fn : A → A → Z).
Implicit Types (x y : A) (l left right : list A).

(** The [while(next)] scan of alpm_list_add_sorted and the insertion. *)
Fixpoint alpm_list_add_sorted (l : list A) (data : A) : list A :=
  match l with
  | [] => [data]
  | y :: l' => if (fn data y <=? 0)%Z then data :: l else y :: alpm_list_add_sorted l' data
  end.

Fixpoint alpm_list_mmerge (left right : list A) : list A :=
  match left with
  | [] => right
  | x :: left' =>
      (fix merge_right (right : list A) : list A :=
         match right with
         | [] => left
         | y :: right' =>
             if (fn x y <=? 0)%Z then x :: alpm_list_mmerge left' right
             else y :: merge_right right'
         end) right
  end.

(** [n] is the length the caller states; it halves at each level. *)
Fixpoint msort_rec (fuel : nat) (l : list A) (n : nat) : list A :=
  match fuel with
  | O => l
  | S fuel =>
      if 1 <? n then
        let half := n / 2 in
        alpm_list_mmerge (msort_rec fuel (take half l) half)
                         (msort_rec fuel (drop half l) (n - half))
      else l
  end.

Definition alpm_list_msort (l : list A) (n : nat) : list A := msort_rec n l n.

(** alpm_list_remove: the list without the first element that compares equal
    to the needle, and that element. *)
Fixpoint alpm_list_remove (haystack : list A) (needle : A) : list A * option A :=
  match haystack with
  | [] => ([], None)
  | x :: l =>
      if (fn x needle =? 0)%Z then (l, Some x)
      else let '(l', data) := alpm_list_remove l needle in (x :: l', data)
  end.

Definition alpm_list_find (haystack : list A) (needle : A) : option A :=
  find_first (λ x, (fn x needle =? 0)%Z) haystack.

(** The main loop of alpm_list_diff_sorted and its two trailing loops. *)
Fixpoint alpm_list_diff_sorted (left right : list A) : list A * list A :=
  match left with
  | [] => ([], right)
  | l :: left' =>
      (fix diff_right (right : list A) : list A * list A :=
         match right with
         | [] => (left, [])
         | r :: right' =>
             let cmp := fn l r in
             if (cmp <? 0)%Z then
               let '(ol, or) := alpm_list_diff_sorted left' right in (l :: ol, or)
             else if (0 <? cmp)%Z then
               let '(ol, or) := diff_right right' in (ol, r :: or)
             else alpm_list_diff_sorted left' right'
         end) right
  end.

Definition alpm_list_diff (lhs rhs : list A) : list A :=
  let left := alpm_list_msort lhs (length lhs) in
  let right := alpm_list_msort rhs (length rhs) in
  (alpm_list_diff_sorted left right).1.

(** The inner loop of alpm_list_cmp_unsorted over [right] and [matched]. *)
Fixpoint match_one (x : A) (right : list A) (matched : list bool) : option (list bool) :=
  match right, matched with
  | r :: right', m :: matched' =>
      if negb m && (fn x r =? 0)%Z then Some (true :: matched')
      else matched'' ← match_one x right' matched'; Some (m :: matched'')
  | _, _ => None
  end.

Fixpoint match_all (left right : list A) (matched : list bool) : bool :=
  match left with
  | [] => true
  | x :: left' =>
      match match_one x right matched with
      | Some matched' => match_all left' right matched'
      | None => false
      end
  end.

(** The scan that skips the common prefix. *)
Fixpoint skip_equal (left right : list A) : list A * list A :=
  match left, right with
  | x :: left', y :: right' =>
      if (fn x y =? 0)%Z then skip_equal left' right' else (left, right)
  | _, _ => (left, right)
  end.

(** Result 1 or 0; the -1 of a failed [calloc] is not part of this model. *)
Definition alpm_list_cmp_unsorted (left right : list A) : bool :=
  if negb (length left =? length right) then false
  else
    let '(l, r) := skip_equal left right in
    match l with
    | [] => true
    | _ => match_all l r (replicate (length r) false)
    end.

End alpm_list.

(** alpm_list_remove_dupes on pointers: [alpm_list_find_ptr] compares them. *)
Fixpoint remove_dupes_loop {A} `{EqDecision A} (lp newlist : list A) : list A :=
  match lp with
  | [] => newlist
  | x :: lp =>
      remove_dupes_loop lp (if bool_decide (x ∈ newlist) then newlist else newlist ++ [x])
  end.

Definition alpm_list_remove_dupes {A} `{EqDecision A} (l : list A) : list A :=
  remove_dupes_loop l [].

Definition alpm_list_remove_str := alpm_list_remove strcmp.
Definition alpm_list_find_str := alpm_list_find strcmp.

#[export] Instance strcmp_order : CmpOrder strcmp.
Proof.
  split; [apply strcmp_refl| |apply strcmp_trans].
  intros x y. rewrite (strcmp_antisym x y). lia.
Qed.

(** A comparison through a key is ordered when the one on keys is. *)
Lemma cmp_order_on {A B} (f : B → A) (fn : A → A → Z) :
  CmpOrder fn → CmpOrder (λ x y, fn (f x) (f y)).
Proof.
  intros [Hr Hs Ht]. split; intros; [apply Hr|apply Hs|by eapply Ht].
Qed.

(** ** Merge sort *)
Section sorting.
Context {A : Type} (fn : A → A → Z).
Implicit Types (x y : A) (l : list A).

Definition cmp_le x y : Prop := (fn x y <= 0)%Z.

(** The elements of [l] that compare equal to [x], in order. *)
Definition same_key x l : list A := base.filter (λ y, fn x y = 0%Z) l.

Lemma mmerge_nil_r l : alpm_list_mmerge fn l [] = l.
Proof. by destruct l. Qed.

Lemma mmerge_cons x l y r :
  alpm_list_mmerge fn (x :: l) (y :: r) =
    if (fn x y <=? 0)%Z then x :: alpm_list_mmerge fn l (y :: r)
    else y :: alpm_list_mmerge fn (x :: l) r.
Proof. done. Qed.

Lemma mmerge_perm l r : alpm_list_mmerge fn l r ≡ₚ l ++ r.
Proof.
  revert r. induction l as [|x l IHl]; intros r; [done|].
  induction r as [|y r IHr]; [by rewrite mmerge_nil_r, app_nil_r|].
  rewrite mmerge_cons. destruct (_ <=? 0)%Z.
  - by rewrite IHl.
  - rewrite IHr. by rewrite <-Permutation_middle.
Qed.

Lemma msort_rec_perm fuel l n : length l = n → n <= fuel → msort_rec fn fuel l n ≡ₚ l.
Proof.
  revert l n. induction fuel as [|fuel IH]; intros l n Hl Hn; simpl; [done|].
  destruct (Nat.ltb_spec 1 n) as [H1|]; [|done].
  assert (n / 2 < n) by (apply Nat.div_lt; lia).
  assert (1 <= n / 2) by (apply Nat.div_le_lower_bound; lia).
  rewrite mmerge_perm, (IH (take _ l)), (IH (drop _ l)), take_drop;
    [done|rewrite ?length_take, ?length_drop; lia..].
Qed.

Context `{!CmpOrder fn}.

Lemma cmp_gt_le x y : (0 < fn x y)%Z → cmp_le y x.
Proof. intros H. apply cmp_sym. lia. Qed.

Lemma mmerge_sorted l r :
  StronglySorted cmp_le l → StronglySorted cmp_le r →
  StronglySorted cmp_le (alpm_list_mmerge fn l r).
Proof.
  intros Hl. revert r. induction Hl as [|x l Hl IHl Hx]; intros r Hr; [done|].
  induction Hr as [|y r Hr IHr Hy]; [by constructor|].
  rewrite mmerge_cons. destruct (Z.leb_spec (fn x y) 0).
  - constructor; [apply IHl; by constructor|].
    rewrite mmerge_perm. apply Forall_app; split; [done|].
    constructor; [done|]. eapply Forall_impl; [exact Hy|]. intros z Hz. simpl in Hz.
    by eapply cmp_trans.
  - constructor; [done|]. rewrite mmerge_perm. apply Forall_app; split; [|done].
    assert (cmp_le y x) by by apply cmp_gt_le.
    constructor; [done|]. eapply Forall_impl; [exact Hx|]. intros z Hz. simpl in Hz.
    by eapply cmp_trans.
Qed.

Lemma msort_rec_sorted fuel l n :
  length l = n → n <= fuel → StronglySorted cmp_le (msort_rec fn fuel l n).
Proof.
  revert l n. induction fuel as [|fuel IH]; intros l n Hl Hn; simpl.
  - destruct l; [constructor|simpl in *; lia].
  - destruct (Nat.ltb_spec 1 n) as [H1|].
    + assert (n / 2 < n) by (apply Nat.div_lt; lia).
      assert (1 <= n / 2) by (apply Nat.div_le_lower_bound; lia).
      apply mmerge_sorted; apply IH; rewrite ?length_take, ?length_drop; lia.
    + destruct l as [|x [|y l]]; simpl in *; [constructor|repeat constructor|lia].
Qed.

Lemma same_key_app x l r : same_key x (l ++ r) = same_key x l ++ same_key x r.
Proof. apply filter_app. Qed.

Lemma same_key_mmerge x l r :
  StronglySorted cmp_le l → StronglySorted cmp_le r →
  same_key x (alpm_list_mmerge fn l r) = same_key x l ++ same_key x r.
Proof.
  intros Hl. revert r. induction Hl as [|a l Hl IHl Ha]; intros r Hr; [done|].
  induction Hr as [|b r Hr IHr Hb]; [by rewrite mmerge_nil_r, app_nil_r|].
  rewrite mmerge_cons. destruct (Z.leb_spec (fn a b) 0).
  - unfold same_key in *. rewrite !filter_cons. case_decide; rewrite IHl by (by constructor); done.
  - assert (same_key x (b :: alpm_list_mmerge fn (a :: l) r) =
      same_key x (a :: l) ++ same_key x (b :: r)) as ->; [|done].
    unfold same_key. rewrite (filter_cons _ b), (filter_cons _ b r). fold (same_key x).
    change (base.filter _ (alpm_list_mmerge fn (a :: l) r)) with (same_key x (alpm_list_mmerge fn (a :: l) r)).
    rewrite IHr. unfold same_key. case_decide as Hxb; [|done].
    (* nothing in [a :: l] has the key of [b] *)
    replace (base.filter (λ y, fn x y = 0%Z) (a :: l)) with (@nil A); [done|].
    symmetry. apply filter_none. intros z Hz Hxz.
    assert (cmp_le a z) as Haz.
    { apply elem_of_cons in Hz as [->|Hz]; [unfold cmp_le; by rewrite cmp_refl|].
      rewrite Forall_forall in Ha. by apply Ha. }
    assert (cmp_le z x) as Hzx by (apply cmp_sym; lia).
    assert (cmp_le x b) as Hxb' by (unfold cmp_le; lia).
    pose proof (cmp_trans _ _ _ Haz (cmp_trans _ _ _ Hzx Hxb')) as H'. lia.
Qed.

Lemma same_key_msort_rec x fuel l n :
  length l = n → n <= fuel → same_key x (msort_rec fn fuel l n) = same_key x l.
Proof.
  revert l n. induction fuel as [|fuel IH]; intros l n Hl Hn; simpl; [done|].
  destruct (Nat.ltb_spec 1 n) as [H1|]; [|done].
  assert (n / 2 < n) by (apply Nat.div_lt; lia).
  assert (1 <= n / 2) by (apply Nat.div_le_lower_bound; lia).
  rewrite same_key_mmerge;
    [|apply msort_rec_sorted; rewrite ?length_take, ?length_drop; lia..].
  rewrite (IH (take _ l)), (IH (drop _ l)), <-same_key_app, take_drop;
    [done|rewrite ?length_take, ?length_drop; lia..].
Qed.

End sorting.

(** ** Differences *)
Section difference.
Context {A : Type} (fn : A → A → Z) `{!CmpOrder fn}.
Implicit Types (x y : A) (l r : list A).

Definition cmp_lt x y : Prop := (fn x y < 0)%Z.

(** No two positions of the list hold elements that compare equal. *)
Definition distinct_keys l : Prop :=
  ∀ i j x y, l !! i = Some x → l !! j = Some y → fn x y = 0%Z → i = j.

Lemma cmp_lt_le_trans x y z : cmp_lt x y → cmp_le fn y z → cmp_lt x z.
Proof.
  unfold cmp_lt, cmp_le. intros Hxy Hyz.
  destruct (Z.lt_ge_cases (fn x z) 0) as [|Hxz]; [done|]. exfalso.
  apply cmp_sym in Hxz. pose proof (cmp_trans _ _ _ Hyz Hxz) as H.
  apply cmp_sym in H. lia.
Qed.

Lemma cmp_le_lt_trans x y z : cmp_le fn x y → cmp_lt y z → cmp_lt x z.
Proof.
  unfold cmp_lt, cmp_le. intros Hxy Hyz.
  destruct (Z.lt_ge_cases (fn x z) 0) as [|Hxz]; [done|]. exfalso.
  apply cmp_sym in Hxz. pose proof (cmp_trans _ _ _ Hxz Hxy) as H.
  apply cmp_sym in H. lia.
Qed.

Lemma cmp_eq_sym x y : fn x y = 0%Z → fn y x = 0%Z.
Proof.
  intros H. assert (cmp_le fn y x) as H1 by (apply cmp_sym; lia).
  assert (0 <= fn y x)%Z by (apply cmp_sym; unfold cmp_le in *; lia).
  unfold cmp_le in H1. lia.
Qed.

Lemma diff_sorted_nil_r l : alpm_list_diff_sorted fn l [] = (l, []).
Proof. by destruct l. Qed.

Lemma diff_sorted_cons (l : A) (left : list A) (r : A) (right : list A) :
  alpm_list_diff_sorted fn (l :: left) (r :: right) =
    if (fn l r <? 0)%Z then
      let d := alpm_list_diff_sorted fn left (r :: right) in (l :: d.1, d.2)
    else if (0 <? fn l r)%Z then
      let d := alpm_list_diff_sorted fn (l :: left) right in (d.1, r :: d.2)
    else alpm_list_diff_sorted fn left right.
Proof.
  transitivity
    (if (fn l r <? 0)%Z then
      let '(ol, or) := alpm_list_diff_sorted fn left (r :: right) in (l :: ol, or)
    else if (0 <? fn l r)%Z then
      let '(ol, or) := alpm_list_diff_sorted fn (l :: left) right in (ol, r :: or)
    else alpm_list_diff_sorted fn left right); [done|].
  by repeat case_if.
Qed.

Lemma elem_of_diff_sorted l r x :
  StronglySorted cmp_lt l → StronglySorted (cmp_le fn) r →
  x ∈ (alpm_list_diff_sorted fn l r).1 ↔ x ∈ l ∧ ∀ y, y ∈ r → fn x y ≠ 0%Z.
Proof.
  intros Hl. revert r. induction Hl as [|a l Hl IHl Ha]; intros r Hr; [set_solver|].
  induction Hr as [|b r Hr IHr Hb]; [rewrite diff_sorted_nil_r; set_solver|].
  rewrite diff_sorted_cons. rewrite Forall_forall in Ha, Hb.
  destruct (Z.ltb_spec (fn a b) 0) as [Hab|Hab]; [|destruct (Z.ltb_spec 0 (fn a b)) as [Hba|Hba]].
  - simpl fst. rewrite elem_of_cons, IHl by (by constructor; [|rewrite Forall_forall]).
    split; [|set_solver]. intros [->|[? ?]]; [|set_solver].
    split; [set_solver|]. intros y [->|Hy]%elem_of_cons; [lia|].
    pose proof (cmp_lt_le_trans _ _ _ Hab (Hb y Hy)). unfold cmp_lt in *. lia.
  - simpl fst. rewrite IHr. split; [|set_solver]. intros [Hx Hn]. split; [done|].
    intros y [->|Hy]%elem_of_cons; [|by apply Hn].
    assert (cmp_le fn b a) by (apply cmp_sym; lia).
    apply elem_of_cons in Hx as [->|Hx]; [lia|].
    pose proof (cmp_le_lt_trans _ _ _ H (Ha x Hx)) as H1. unfold cmp_lt in H1.
    intros H2%cmp_eq_sym. lia.
  - assert (fn a b = 0%Z) as Heq by lia. rewrite IHl by done. split.
    + intros [Hx Hn]. split; [set_solver|]. intros y [->|Hy]%elem_of_cons; [|by apply Hn].
      intros H2%cmp_eq_sym. pose proof (Ha x Hx).
      assert (cmp_le fn b a) by (apply cmp_sym; lia).
      pose proof (cmp_le_lt_trans b a x) as H3. unfold cmp_lt in *. pose proof (H3 H0 H). lia.
    + intros [Hx Hn]. split; [|set_solver].
      apply elem_of_cons in Hx as [->|Hx]; [|done]. exfalso. by apply (Hn b); [set_solver|].
Qed.

Lemma diff_sorted_sublist l r : (alpm_list_diff_sorted fn l r).1 `sublist_of` l.
Proof.
  revert r. induction l as [|a l IHl]; intros r; [constructor|].
  induction r as [|b r IHr]; [by rewrite diff_sorted_nil_r|].
  rewrite diff_sorted_cons. repeat case_if; simpl; [by constructor|done|by constructor].
Qed.

Lemma distinct_keys_perm l l' : l ≡ₚ l' → distinct_keys l → distinct_keys l'.
Proof.
  intros Hp%symmetry Hd i j x y Hi Hj Hxy.
  apply Permutation_inj in Hp as [Hlen (f & Hf & Hl')].
  rewrite Hl' in Hi. rewrite Hl' in Hj.
  apply Hf. by apply (Hd _ _ _ _ Hi Hj).
Qed.

Lemma sorted_distinct_strict l :
  StronglySorted (cmp_le fn) l → distinct_keys l → StronglySorted cmp_lt l.
Proof.
  induction 1 as [|x l Hl IH Hx]; intros Hd; constructor.
  - apply IH. intros i j a b Hi Hj Hab.
    assert (S i = S j) by (by apply (Hd (S i) (S j) a b)). lia.
  - rewrite Forall_forall in Hx |- *. intros y Hy. unfold cmp_lt.
    pose proof (Hx y Hy) as Hle. unfold cmp_le in Hle.
    destruct (decide (fn x y = 0%Z)) as [H0|]; [|lia]. exfalso.
    apply list_elem_of_lookup in Hy as [i Hi].
    assert (0 = S i) by by apply (Hd 0 (S i) x y). lia.
Qed.

Lemma msort_perm l : alpm_list_msort fn l (length l) ≡ₚ l.
Proof. by apply msort_rec_perm. Qed.

Lemma elem_of_diff lhs rhs x :
  distinct_keys lhs →
  x ∈ alpm_list_diff fn lhs rhs ↔ x ∈ lhs ∧ ∀ y, y ∈ rhs → fn x y ≠ 0%Z.
Proof.
  intros Hd. unfold alpm_list_diff. rewrite elem_of_diff_sorted.
  - setoid_rewrite msort_perm. done.
  - apply sorted_distinct_strict; [by apply msort_rec_sorted|].
    eapply distinct_keys_perm; [|done]. symmetry. apply msort_perm.
  - by apply msort_rec_sorted.
Qed.

Lemma diff_subset lhs rhs x : x ∈ alpm_list_diff fn lhs rhs → x ∈ lhs.
Proof.
  unfold alpm_list_diff. intros Hp.
  assert (x ∈ alpm_list_msort fn lhs (length lhs)) as H.
  { eapply elem_of_submseteq; [exact Hp|]. apply sublist_submseteq, diff_sorted_sublist. }
  by rewrite msort_perm in H.
Qed.

End difference.

(** ** Comparison without order *)
Section unsorted.
Context {A : Type} (fn : A → A → Z).
Local Notation alike := (λ x y, fn x y = 0%Z).

(** The elements of [right] that are not matched yet. *)
Fixpoint unmatched (right : list A) (matched : list bool) : list A :=
  match right, matched with
  | r :: right', m :: matched' => if m then unmatched right' matched' else r :: unmatched right' matched'
  | _, _ => []
  end.

Lemma unmatched_all right : unmatched right (replicate (length right) false) = right.
Proof. induction right as [|r right IH]; simpl; [done|by rewrite IH]. Qed.

Lemma match_one_spec x right matched matched' :
  match_one fn x right matched = Some matched' →
  ∃ y, fn x y = 0%Z ∧ unmatched right matched ≡ₚ y :: unmatched right matched'.
Proof.
  revert matched matched'. induction right as [|r right IH]; intros [|m matched] matched'; simpl; [done..|].
  destruct m; simpl.
  - destruct (match_one fn x right matched) as [l|] eqn:E; simpl; [|done]. intros [= <-].
    by apply IH in E.
  - destruct (Z.eqb_spec (fn x r) 0) as [E0|E0]; [intros [= <-]; by exists r|].
    destruct (match_one fn x right matched) as [l|] eqn:E; simpl; [|done]. intros [= <-].
    apply IH in E as (y & Hy & Hp). exists y. split; [done|]. rewrite Hp. apply Permutation_swap.
Qed.

Lemma match_all_spec left right matched :
  match_all fn left right matched = true →
  ∃ sel rest, Forall2 alike left sel ∧ unmatched right matched ≡ₚ sel ++ rest.
Proof.
  revert matched. induction left as [|x left IH]; intros matched; simpl.
  { intros _. exists [], (unmatched right matched). split; [constructor|done]. }
  destruct (match_one fn x right matched) as [m'|] eqn:E; [|done].
  apply match_one_spec in E as (y & Hy & Hp). intros (sel & rest & Hs & Hr)%IH.
  exists (y :: sel), rest. split; [by constructor|]. by rewrite Hp, Hr.
Qed.

Lemma skip_equal_spec left right l r :
  skip_equal fn left right = (l, r) →
  ∃ p q, left = p ++ l ∧ right = q ++ r ∧ Forall2 alike p q.
Proof.
  revert right. induction left as [|x left IH]; intros right; simpl.
  { intros [= <- <-]. exists [], []. by split_and!. }
  destruct right as [|y right]; [intros [= <- <-]; exists [], []; by split_and!|].
  destruct (Z.eqb_spec (fn x y) 0) as [E|E]; [|intros [= <- <-]; exists [], []; by split_and!].
  intros (p & q & -> & -> & Hpq)%IH. exists (x :: p), (y :: q). split_and!; [done..|by constructor].
Qed.

(** Lists that compare equal are equal up to order and the comparison. *)
Lemma list_cmp_unsorted_sound left right :
  alpm_list_cmp_unsorted fn left right = true →
  ∃ right', right ≡ₚ right' ∧ Forall2 alike left right'.
Proof.
  unfold alpm_list_cmp_unsorted. destruct (Nat.eqb_spec (length left) (length right)) as [El|]; [|done].
  simpl. destruct (skip_equal fn left right) as [l r] eqn:E.
  destruct (skip_equal_spec _ _ _ _ E) as (p & q & -> & -> & Hpq).
  pose proof (Forall2_length _ _ _ Hpq) as Hlen. rewrite !length_app in El.
  assert (match_all fn l r (replicate (length r) false) = true →
          ∃ right', q ++ r ≡ₚ right' ∧ Forall2 alike (p ++ l) right') as Hm.
  { intros (sel & rest & Hs & Hp)%match_all_spec. rewrite unmatched_all in Hp.
    assert (rest = []) as ->.
    { apply Permutation_length in Hp. rewrite length_app in Hp.
      apply Forall2_length in Hs. destruct rest; [done|simpl in Hp; lia]. }
    rewrite app_nil_r in Hp. exists (q ++ sel). split; [by rewrite Hp|by apply Forall2_app]. }
  destruct l as [|x l]; [|exact Hm]. intros _. apply Hm. done.
Qed.
End unsorted.

(** ** Removal *)
Section removal.
Context {A : Type} (fn : A → A → Z).
Implicit Types (x : A) (l : list A).

Lemma list_remove_spec l needle :
  match alpm_list_remove fn l needle with
  | (l', None) => l' = l ∧ ∀ x, x ∈ l → fn x needle ≠ 0%Z
  | (l', Some x) => ∃ l1 l2, l = l1 ++ x :: l2 ∧ l' = l1 ++ l2 ∧ fn x needle = 0%Z ∧
      ∀ y, y ∈ l1 → fn y needle ≠ 0%Z
  end.
Proof.
  induction l as [|x l IH]; simpl; [split; [done|set_solver]|].
  destruct (Z.eqb_spec (fn x needle) 0) as [E|E].
  - exists [], l. split_and!; [done..|set_solver].
  - destruct (alpm_list_remove fn l needle) as [l' [y|]].
    + destruct IH as (l1 & l2 & -> & -> & Hy & Hl1). exists (x :: l1), l2.
      split_and!; [done..|set_solver].
    + destruct IH as [-> IH]. split; [done|set_solver].
Qed.

Lemma list_remove_sublist l needle : (alpm_list_remove fn l needle).1 `sublist_of` l.
Proof.
  pose proof (list_remove_spec l needle) as H.
  destruct (alpm_list_remove fn l needle) as [l' [x|]]; simpl.
  - destruct H as (l1 & l2 & -> & -> & _). apply sublist_app; [done|by constructor].
  - by destruct H as [-> _].
Qed.

End removal.

(** alpm_list_msort, called with the length of the list, returns a sorted
    permutation of it that keeps elements comparing equal in their order
    (stable), for every comparison function that is an order. *)
Theorem msort_correct {A} (fn : A → A → Z) (Hfn : CmpOrder fn) (l : list A) :
  let s := alpm_list_msort fn l (length l) in
  StronglySorted (cmp_le fn) s ∧ s ≡ₚ l ∧ ∀ x, same_key fn x s = same_key fn x l.
Proof.
  split_and!.
  - by apply msort_rec_sorted.
  - apply msort_perm.
  - intros x. by apply same_key_msort_rec.
Qed.

Definition strs (l : list String.string) : list cstr := map str l.

Lemma msort_correct_witness :
  StronglySorted (cmp_le strcmp)
    (alpm_list_msort strcmp (strs ["usr/"; "etc/"; "bin"; "etc/"]) 4).
Proof.
  apply (msort_correct strcmp strcmp_order (strs ["usr/"; "etc/"; "bin"; "etc/"])).
Defined.

(** alpm_list_diff(lhs, rhs), which sorts copies of both lists and walks
    them in parallel, contains exactly the elements of lhs that compare equal
    to no element of rhs, when no two elements of lhs compare equal (as for
    the packages of a database, whose names are distinct). *)
Theorem list_diff_correct {A} (fn : A → A → Z) (Hfn : CmpOrder fn) (lhs rhs : list A) x :
  distinct_keys fn lhs →
  x ∈ alpm_list_diff fn lhs rhs ↔ x ∈ lhs ∧ ∀ y, y ∈ rhs → fn x y ≠ 0%Z.
Proof. apply elem_of_diff. done. Qed.

Lemma list_diff_correct_witness :
  str "b" ∈ alpm_list_diff strcmp (strs ["c"; "b"; "a"]) (strs ["a"; "c"]) ↔
  str "b" ∈ strs ["c"; "b"; "a"] ∧
    ∀ y, y ∈ strs ["a"; "c"] → strcmp (str "b") y ≠ 0%Z.
Proof.
  apply (list_diff_correct strcmp strcmp_order).
  intros [|[|[|i]]] [|[|[|j]]] x y Hi Hj Hxy; simpl in *; simplify_eq; done.
Defined.
