(* ===== verification/ListHeap.v ===== *)
(** * The pointer code of lib/libalpm/alpm_list.c

    [alpm_list_t] nodes live in a heap of cells; a list is doubly linked, its
    head's [prev] field points at the tail and the tail's [next] is NULL. The
    operations are translated statement by statement in a state monad in which
    a NULL or dangling dereference has no result. [malloc] draws its outcome
    from a list of decisions, so every pattern of failures is covered.

    The theorems show that each operation, started on well-formed lists,
    terminates without such a fault, leaves all other cells alone, and
    computes the function on sequences of the file AlpmList. *)
From S2P Require Import Prelude CString AlpmList.

Abbreviation loc := positive.

(** struct _alpm_list_t *)
Record node (D : Type) := Node { n_data : D; n_prev : option loc; n_next : option loc }.
Arguments Node {D} _ _ _.
Arguments n_data {D} _.
Arguments n_prev {D} _.
Arguments n_next {D} _.

(** The heap, and the outcomes of the coming calls of [malloc]: [true] means
    that the call fails; when the list is used up calls succeed. *)
Record mem (D : Type) := Mem { cells : gmap loc (node D); oom : list bool }.
Arguments Mem {D} _ _.
Arguments cells {D} _.
Arguments oom {D} _.

Definition M (D A : Type) : Type := mem D → option (A * mem D).

#[export] Instance M_ret D : MRet (M D) := λ A x m, Some (x, m).
#[export] Instance M_bind D : MBind (M D) := λ A B f x m,
  match x m with Some (a, m') => f a m' | None => None end.

Section heap_ops.
Context {D : Type}.
Implicit Types (l : loc) (p q : option loc) (m : mem D).

(** [*p]; no result when [p] is NULL or dangling. *)
Definition deref p : M D (node D) := λ m,
  l ← p; n ← cells m !! l; Some (n, m).

(** A store through [p]. *)
Definition store p (n : node D) : M D () := λ m,
  l ← p; _ ← cells m !! l; Some ((), Mem (<[l := n]> (cells m)) (oom m)).

Definition set_next p q : M D () :=
  n ← deref p; store p (Node (n_data n) (n_prev n) q).
Definition set_prev p q : M D () :=
  n ← deref p; store p (Node (n_data n) q (n_next n)).

(** [malloc(sizeof(alpm_list_t))] followed by the stores to the new node. *)
Definition malloc_node (n : node D) : M D (option loc) := λ m,
  match oom m with
  | true :: o => Some (None, Mem (cells m) o)
  | o => let l := fresh (dom (cells m)) in
         Some (Some l, Mem (<[l := n]> (cells m)) (tail o))
  end.

Definition free p : M D () := λ m,
  match p with
  | None => Some ((), m)
  | Some l => _ ← cells m !! l; Some ((), Mem (delete l (cells m)) (oom m))
  end.

(** alpm_list_last: O(1) through the head's [prev]. *)
Definition alpm_list_last p : M D (option loc) :=
  match p with
  | None => mret None
  | Some _ => n ← deref p; mret (n_prev n)
  end.

Definition alpm_list_next p : M D (option loc) :=
  match p with
  | None => mret None
  | Some _ => n ← deref p; mret (n_next n)
  end.

Definition alpm_list_previous p : M D (option loc) :=
  match p with
  | None => mret None
  | Some _ =>
      n ← deref p; pn ← deref (n_prev n);
      mret (match n_next pn with Some _ => n_prev n | None => None end)
  end.

(** alpm_list_append: returns the new head ( *list ) and the new node. *)
Definition alpm_list_append (list : option loc) (data : D) : M D (option loc * option loc) :=
  ptr ← malloc_node (Node data None None);
  match ptr with
  | None => mret (list, None)
  | Some _ =>
      match list with
      | None => _ ← set_prev ptr ptr; mret (ptr, ptr)
      | Some _ =>
          lp ← alpm_list_last list;
          _ ← set_next lp ptr;
          _ ← set_prev ptr lp;
          _ ← set_prev list ptr;
          mret (list, ptr)
      end
  end.

Definition alpm_list_add (list : option loc) (data : D) : M D (option loc) :=
  '(list, _) ← alpm_list_append list data; mret list.

Definition alpm_list_join (first second : option loc) : M D (option loc) :=
  match first, second with
  | None, _ => mret second
  | _, None => mret first
  | Some _, Some _ =>
      f ← deref first;
      let tmp := n_prev f in
      _ ← set_next tmp second;
      s ← deref second;
      _ ← set_prev first (n_prev s);
      _ ← set_prev second tmp;
      mret first
  end.

(** alpm_list_free: fuel bounds the walk. *)
Fixpoint alpm_list_free (fuel : nat) (it : option loc) : M D () :=
  match fuel, it with
  | _, None => mret ()
  | O, _ => λ _, None
  | S fuel, Some _ =>
      n ← deref it; _ ← free it; alpm_list_free fuel (n_next n)
  end.

Fixpoint alpm_list_count (fuel : nat) (lp : option loc) : M D nat :=
  match fuel, lp with
  | _, None => mret 0
  | O, _ => λ _, None
  | S fuel, Some _ => n ← deref lp; c ← alpm_list_count fuel (n_next n); mret (S c)
  end.

Fixpoint alpm_list_nth (lp : option loc) (n : nat) : M D (option loc) :=
  match n with
  | O => mret lp
  | S n => nd ← deref lp; alpm_list_nth (n_next nd) n
  end.

(** alpm_list_remove_item, its three cases. *)
Definition alpm_list_remove_item (haystack item : option loc) : M D (option loc) :=
  match haystack, item with
  | None, _ | _, None => mret haystack
  | Some h, Some i =>
      if bool_decide (i = h) then
        n ← deref item;
        _ ← (match n_next n with
             | Some _ => set_prev (n_next n) (n_prev n)
             | None => mret ()
             end);
        _ ← set_prev item None;
        mret (n_next n)
      else
        hn ← deref haystack;
        if bool_decide (item = n_prev hn) then
          n ← deref item;
          match n_prev n with
          | Some _ =>
              _ ← set_next (n_prev n) (n_next n);
              _ ← set_prev haystack (n_prev n);
              _ ← set_prev item None;
              mret haystack
          | None => mret haystack
          end
        else
          n ← deref item;
          _ ← (match n_next n with
               | Some _ => set_prev (n_next n) (n_prev n)
               | None => mret ()
               end);
          _ ← (match n_prev n with
               | Some _ => set_next (n_prev n) (n_next n)
               | None => mret ()
               end);
          mret haystack
  end.

Section with_fn.
Context (fn : D → D → Z).

(** The search loop of alpm_list_add_sorted: ends with [prev] and [next]. *)
Fixpoint find_insertion (fuel : nat) (data : D) (prev next : option loc) :
    M D (option loc * option loc) :=
  match fuel, next with
  | _, None => mret (prev, next)
  | O, _ => λ _, None
  | S fuel, Some _ =>
      n ← deref next;
      if (fn data (n_data n) <=? 0)%Z then mret (prev, next)
      else find_insertion fuel data next (n_next n)
  end.

Definition alpm_list_add_sorted (fuel : nat) (list : option loc) (data : D) :
    M D (option loc) :=
  match list with
  | None => alpm_list_add list data
  | Some _ =>
      add ← malloc_node (Node data None None);
      match add with
      | None => mret list
      | Some _ =>
          '(prev, next) ← find_insertion fuel data None list;
          match prev, next with
          | None, _ =>
              n ← deref list;
              _ ← set_prev add (n_prev n);
              _ ← set_next add list;
              _ ← set_prev list add;
              mret add
          | Some _, None =>
              _ ← set_prev add prev;
              _ ← set_next add None;
              _ ← set_next prev add;
              _ ← set_prev list add;
              mret list
          | Some _, Some _ =>
              _ ← set_prev add prev;
              _ ← set_next add next;
              _ ← set_prev next add;
              _ ← set_next prev add;
              mret list
          end
      end
  end.

(** The merge loop of alpm_list_mmerge: [lp] is the last merged node. *)
Fixpoint mmerge_loop (fuel : nat) (lp left right : option loc) :
    M D (option loc * option loc * option loc) :=
  match fuel, left, right with
  | S fuel, Some _, Some _ =>
      ln ← deref left; rn ← deref right;
      if (fn (n_data ln) (n_data rn) <=? 0)%Z then
        _ ← set_next lp left; _ ← set_prev left lp;
        ln' ← deref left;
        _ ← set_next left None;
        mmerge_loop fuel left (n_next ln') right
      else
        _ ← set_next lp right; _ ← set_prev right lp;
        rn' ← deref right;
        _ ← set_next right None;
        mmerge_loop fuel right left (n_next rn')
  | O, Some _, Some _ => λ _, None
  | _, _, _ => mret (lp, left, right)
  end.

Definition alpm_list_mmerge (fuel : nat) (left right : option loc) : M D (option loc) :=
  match left, right with
  | None, _ => mret right
  | _, None => mret left
  | Some _, Some _ =>
      ln ← deref left; rn ← deref right;
      let left_tail_ptr := n_prev ln in
      let right_tail_ptr := n_prev rn in
      let '(newlist, l, r) :=
        if (fn (n_data ln) (n_data rn) <=? 0)%Z then (left, n_next ln, right)
        else (right, left, n_next rn) in
      _ ← set_prev newlist None;
      _ ← set_next newlist None;
      '(lp, l, r) ← mmerge_loop fuel newlist l r;
      tail_ptr ←
        match l, r with
        | Some _, _ =>
            _ ← set_next lp l; _ ← set_prev l lp; mret left_tail_ptr
        | None, Some _ =>
            _ ← set_next lp r; _ ← set_prev r lp; mret right_tail_ptr
        | None, None => mret lp
        end;
      _ ← set_prev newlist tail_ptr;
      mret newlist
  end.

(** alpm_list_msort; the recursion halves [n], [fuel] bounds its depth and
    the merge loops. *)
Fixpoint alpm_list_msort (fuel : nat) (list : option loc) (n : nat) : M D (option loc) :=
  match fuel with
  | O => mret list
  | S fuel' =>
      if 1 <? n then
        let half := n / 2 in
        lastleft ← alpm_list_nth list (half - 1);
        lln ← deref lastleft;
        let right := n_next lln in
        _ ← set_next lastleft None;
        ln ← deref list;
        _ ← set_prev right (n_prev ln);
        _ ← set_prev list lastleft;
        left ← alpm_list_msort fuel' list half;
        right ← alpm_list_msort fuel' right (n - half);
        alpm_list_mmerge n left right
      else mret list
  end.

End with_fn.

(** alpm_list_copy: on a failed append the partial copy is freed. *)
Fixpoint copy_loop (fuel0 fuel : nat) (lp newlist : option loc) : M D (option loc) :=
  match fuel, lp with
  | _, None => mret newlist
  | O, _ => λ _, None
  | S fuel, Some _ =>
      n ← deref lp;
      '(newlist, ptr) ← alpm_list_append newlist (n_data n);
      match ptr with
      | None => _ ← alpm_list_free fuel0 newlist; mret None
      | Some _ => copy_loop fuel0 fuel (n_next n) newlist
      end
  end.

Definition alpm_list_copy (fuel : nat) (list : option loc) : M D (option loc) :=
  copy_loop fuel fuel list None.

(** The loop of alpm_list_reverse, towards the head along [prev]. *)
Fixpoint reverse_loop (fuel0 fuel : nat) (list backup lp newlist : option loc) :
    M D (option loc) :=
  match fuel, lp with
  | _, None => _ ← set_prev list backup; mret newlist
  | O, _ => λ _, None
  | S fuel, Some _ =>
      n ← deref lp;
      '(newlist, ptr) ← alpm_list_append newlist (n_data n);
      match ptr with
      | None =>
          _ ← alpm_list_free fuel0 newlist; _ ← set_prev list backup; mret None
      | Some _ => n ← deref lp; reverse_loop fuel0 fuel list backup (n_prev n) newlist
      end
  end.

Definition alpm_list_reverse (fuel : nat) (list : option loc) : M D (option loc) :=
  match list with
  | None => mret None
  | Some _ =>
      lp ← alpm_list_last list;
      n ← deref list;
      let backup := n_prev n in
      _ ← set_prev list None;
      reverse_loop fuel fuel list backup lp None
  end.

End heap_ops.

(** ** Representation of a list in the heap *)
Section representation.
Context {D : Type}.
Implicit Types (c : gmap loc (node D)) (ns : list (loc * D)) (m : mem D).

(** The nodes of a list with their data, in order. *)
Definition head_loc ns (nxt : option loc) : option loc :=
  match ns with [] => nxt | (l, _) :: _ => Some l end.

Definition last_loc ns (prv : option loc) : option loc :=
  match last ns with Some (l, _) => Some l | None => prv end.

(** A run of nodes linked in both directions; [prv] is the [prev] field of
    its first node and [nxt] the [next] field of its last one. *)
Fixpoint seg c ns (prv nxt : option loc) : Prop :=
  match ns with
  | [] => True
  | (l, x) :: ns' =>
      c !! l = Some (Node x prv (head_loc ns' nxt)) ∧ seg c ns' (Some l) nxt
  end.

(** A well-formed list with the nodes [ns] whose head pointer is [p]. *)
Definition is_list c (p : option loc) ns : Prop :=
  NoDup ns.*1 ∧ p = head_loc ns None ∧ seg c ns (last_loc ns None) None.

(** Cells outside [L] are the same in both heaps. *)
Definition same_except (L : list loc) c c' : Prop :=
  ∀ l, l ∉ L → c' !! l = c !! l.

Lemma same_except_refl L c : same_except L c c.
Proof. done. Qed.

Lemma same_except_trans L c1 c2 c3 :
  same_except L c1 c2 → same_except L c2 c3 → same_except L c1 c3.
Proof. intros H1 H2 l Hl. by rewrite H2, H1. Qed.

Lemma same_except_mono L L' c c' :
  L ⊆ L' → same_except L c c' → same_except L' c c'.
Proof. intros HL H l Hl. apply H. set_solver. Qed.

Lemma same_except_insert L c l n : l ∈ L → same_except L c (<[l := n]> c).
Proof. intros Hl l' Hl'. rewrite lookup_insert_ne; [done|]. by intros ->. Qed.

Lemma last_loc_cons l x ns prv : last_loc ((l, x) :: ns) prv = last_loc ns (Some l).
Proof. unfold last_loc. by destruct ns using rev_ind; [|rewrite app_comm_cons, !last_snoc]. Qed.

Lemma last_loc_app ns1 ns2 prv : last_loc (ns1 ++ ns2) prv = last_loc ns2 (last_loc ns1 prv).
Proof.
  unfold last_loc. rewrite last_app. by destruct (last ns2).
Qed.

Lemma last_loc_snoc ns l x prv : last_loc (ns ++ [(l, x)]) prv = Some l.
Proof. unfold last_loc. by rewrite last_snoc. Qed.

Lemma last_loc_nonempty ns prv prv' : ns ≠ [] → last_loc ns prv = last_loc ns prv'.
Proof. destruct ns as [|[l x] ns] using rev_ind; [done|]. by rewrite !last_loc_snoc. Qed.

Lemma head_loc_app ns1 ns2 nxt : head_loc (ns1 ++ ns2) nxt = head_loc ns1 (head_loc ns2 nxt).
Proof. by destruct ns1 as [|[]]. Qed.

Lemma head_loc_nonempty ns nxt nxt' : ns ≠ [] → head_loc ns nxt = head_loc ns nxt'.
Proof. by destruct ns as [|[]]. Qed.

Lemma seg_frame c c' ns prv nxt :
  (∀ l, l ∈ ns.*1 → c' !! l = c !! l) → seg c ns prv nxt → seg c' ns prv nxt.
Proof.
  revert prv. induction ns as [|[l x] ns IH]; intros prv Hc; simpl; [done|].
  intros [Hl Hs]. rewrite Hc by (simpl; set_solver). split; [done|].
  apply IH; [|done]. intros. apply Hc. simpl. set_solver.
Qed.

Lemma seg_same_except c c' L ns prv nxt :
  same_except L c c' → ns.*1 ## L → seg c ns prv nxt → seg c' ns prv nxt.
Proof. intros Hc Hd. apply seg_frame. intros l Hl. apply Hc. set_solver. Qed.

Lemma seg_app c ns1 ns2 prv nxt :
  seg c (ns1 ++ ns2) prv nxt ↔
  seg c ns1 prv (head_loc ns2 nxt) ∧ seg c ns2 (last_loc ns1 prv) nxt.
Proof.
  revert prv. induction ns1 as [|[l x] ns1 IH]; intros prv; simpl.
  - unfold last_loc; simpl. naive_solver.
  - rewrite IH, last_loc_cons, head_loc_app. naive_solver.
Qed.

Lemma seg_singleton c l x prv nxt :
  seg c [(l, x)] prv nxt ↔ c !! l = Some (Node x prv nxt).
Proof. simpl. naive_solver. Qed.

Lemma seg_lookup c ns prv nxt l x :
  (l, x) ∈ ns → seg c ns prv nxt → ∃ p q, c !! l = Some (Node x p q).
Proof.
  revert prv. induction ns as [|[l' x'] ns IH]; intros prv; [set_solver|].
  intros [[= -> ->]|Hin]%elem_of_cons [Hl Hs]; eauto.
Qed.

(** ** Steps of the monad *)
Lemma M_bind_Some {A B} (k : A → M D B) (x : M D A) m a m' :
  x m = Some (a, m') → (x ≫= k) m = k a m'.
Proof. intros H. unfold mbind, M_bind. by rewrite H. Qed.

Lemma deref_Some m l n : cells m !! l = Some n → deref (Some l) m = Some (n, m).
Proof. intros H. unfold deref. simpl. by rewrite H. Qed.

Lemma set_prev_step m l n q :
  cells m !! l = Some n →
  set_prev (Some l) q m =
    Some ((), Mem (<[l := Node (n_data n) q (n_next n)]> (cells m)) (oom m)).
Proof.
  intros H. unfold set_prev. rewrite (M_bind_Some _ _ _ _ _ (deref_Some _ _ _ H)).
  unfold store. simpl. by rewrite H.
Qed.

Lemma set_next_step m l n q :
  cells m !! l = Some n →
  set_next (Some l) q m =
    Some ((), Mem (<[l := Node (n_data n) (n_prev n) q]> (cells m)) (oom m)).
Proof.
  intros H. unfold set_next. rewrite (M_bind_Some _ _ _ _ _ (deref_Some _ _ _ H)).
  unfold store. simpl. by rewrite H.
Qed.

(** The store [l->prev = prv'] to the first node of a run. *)
Lemma set_prev_head m l x ns prv nxt prv' :
  seg (cells m) ((l, x) :: ns) prv nxt → l ∉ ns.*1 →
  ∃ m', set_prev (Some l) prv' m = Some ((), m') ∧ oom m' = oom m ∧
    same_except [l] (cells m) (cells m') ∧ seg (cells m') ((l, x) :: ns) prv' nxt.
Proof.
  intros [Hl Hs] Hn. eexists. split; [by apply set_prev_step|]. simpl.
  split_and!; [done|apply same_except_insert; set_solver|by rewrite lookup_insert_eq|].
  eapply seg_frame; [|done]. intros l' Hl'. rewrite lookup_insert_ne; [done|set_solver].
Qed.

(** The store [l->next = nxt'] to the last node of a run. *)
Lemma set_next_last m l x ns prv nxt nxt' :
  seg (cells m) (ns ++ [(l, x)]) prv nxt → l ∉ ns.*1 →
  ∃ m', set_next (Some l) nxt' m = Some ((), m') ∧ oom m' = oom m ∧
    same_except [l] (cells m) (cells m') ∧ seg (cells m') (ns ++ [(l, x)]) prv nxt'.
Proof.
  rewrite seg_app. intros [Hs Hl] Hn. rewrite seg_singleton in Hl.
  eexists. split; [by apply set_next_step|]. simpl.
  split_and!; [done|apply same_except_insert; set_solver|].
  apply seg_app. split; [|by rewrite seg_singleton, lookup_insert_eq].
  eapply seg_frame; [|done]. intros l' Hl'. rewrite lookup_insert_ne; [done|set_solver].
Qed.

Lemma is_list_last m p ns :
  is_list (cells m) p ns → alpm_list_last p m = Some (last_loc ns None, m).
Proof.
  intros (Hnd & -> & Hs). destruct ns as [|[l x] ns]; [done|]. simpl in *.
  destruct Hs as [Hl _]. unfold alpm_list_last.
  by rewrite (M_bind_Some _ _ _ _ _ (deref_Some _ _ _ Hl)).
Qed.

Lemma is_list_frame L c c' p ns :
  same_except L c c' → ns.*1 ## L → is_list c p ns → is_list c' p ns.
Proof. intros Hc Hd (? & ? & Hs). split_and!; [done..|]. by eapply seg_same_except. Qed.

End representation.

#[export] Hint Resolve same_except_refl : alpm.

(** ** Straight-line operations *)
Section straight_line.
Context {D : Type}.
Implicit Types (c : gmap loc (node D)) (ns : list (loc * D)) (m : mem D).

Lemma is_list_fresh c p ns l : is_list c p ns → c !! l = None → l ∉ ns.*1.
Proof.
  intros (_ & _ & Hs) Hl Hin. apply list_elem_of_fmap in Hin as [[l' x] [-> Hin]].
  destruct (seg_lookup _ _ _ _ _ _ Hin Hs) as (q1 & q2 & ?). simpl in *. congruence.
Qed.

(** [malloc] either fails and changes nothing or returns an unused cell. *)
Lemma malloc_cases m (n : node D) :
  (malloc_node n m = Some (None, Mem (cells m) (tail (oom m))) ∧ head (oom m) = Some true) ∨
  ∃ l, cells m !! l = None ∧ head (oom m) ≠ Some true ∧
    malloc_node n m = Some (Some l, Mem (<[l := n]> (cells m)) (tail (oom m))).
Proof.
  unfold malloc_node. destruct (oom m) as [|[] o]; simpl; [right|by left|right];
    (exists (fresh (dom (cells m))); split_and!; [|done|done];
     apply not_elem_of_dom, is_fresh).
Qed.

(** The stores to the ends of a run, through its head and tail pointers. *)
Lemma run_set_prev m ns prv nxt nxt0 prv' :
  ns ≠ [] → NoDup ns.*1 → seg (cells m) ns prv nxt →
  ∃ m', set_prev (head_loc ns nxt0) prv' m = Some ((), m') ∧ oom m' = oom m ∧
    same_except ns.*1 (cells m) (cells m') ∧ seg (cells m') ns prv' nxt.
Proof.
  destruct ns as [|[l x] ns]; [done|]. simpl. intros _ [Hl Hnd]%NoDup_cons Hs.
  destruct (set_prev_head m l x ns prv nxt prv') as (m' & E & O & F & Hs'); [done..|].
  exists m'. split_and!; [done..| |apply Hs'|apply Hs'].
  eapply same_except_mono; [|done]. set_solver.
Qed.

Lemma run_set_next m ns prv nxt prv0 nxt' :
  ns ≠ [] → NoDup ns.*1 → seg (cells m) ns prv nxt →
  ∃ m', set_next (last_loc ns prv0) nxt' m = Some ((), m') ∧ oom m' = oom m ∧
    same_except ns.*1 (cells m) (cells m') ∧ seg (cells m') ns prv nxt'.
Proof.
  destruct ns as [|[l x] ns _] using rev_ind; [done|]. rewrite last_loc_snoc, fmap_app.
  intros _ (Hnd & Hd & _)%NoDup_app Hs. simpl in Hd.
  destruct (set_next_last m l x ns prv nxt nxt') as (m' & E & O & F & Hs'); [done|set_solver|].
  exists m'. split_and!; [done..| |done].
  eapply same_except_mono; [|done]. simpl. set_solver.
Qed.

Lemma run_deref_head m ns prv nxt nxt0 :
  ns ≠ [] → seg (cells m) ns prv nxt →
  ∃ x, ns.*2 !! 0 = Some x ∧ deref (head_loc ns nxt0) m =
    Some (Node x prv (head_loc (tail ns) nxt), m).
Proof.
  destruct ns as [|[l x] ns]; [done|]. intros _ [Hl _]. exists x.
  split; [done|]. by apply deref_Some.
Qed.

Lemma NoDup_app_disjoint (l1 l2 : list loc) :
  NoDup (l1 ++ l2) ↔ NoDup l1 ∧ NoDup l2 ∧ l1 ## l2.
Proof. rewrite NoDup_app. set_solver. Qed.

End straight_line.

(** Run one statement of the monad whose effect is known. *)
Ltac mstep H := rewrite (M_bind_Some _ _ _ _ _ H); cbv beta iota.

(** Carry a run or a list over stores elsewhere. *)
Ltac frame_by F H := eapply seg_same_except; [exact F| |exact H]; set_solver.

(** Compose the frames of successive stores. *)
Ltac frames :=
  lazymatch goal with
  | |- same_except _ ?c ?c => apply same_except_refl
  | F : same_except _ ?c1 ?c' |- same_except _ ?c ?c' =>
      apply (same_except_trans _ _ c1);
      [clear F; frames | eapply same_except_mono; [|exact F]; set_solver]
  end.

Section append_join_remove.
Context {D : Type}.
Implicit Types (c : gmap loc (node D)) (ns : list (loc * D)) (m : mem D).

Lemma append_ok m p ns x :
  is_list (cells m) p ns → head (oom m) ≠ Some true →
  ∃ m' p' l, alpm_list_append p x m = Some ((p', Some l), m') ∧
    cells m !! l = None ∧ is_list (cells m') p' (ns ++ [(l, x)]) ∧
    same_except (l :: ns.*1) (cells m) (cells m') ∧ oom m' = tail (oom m).
Proof.
  intros Hl Hoom. destruct (malloc_cases m (Node x None None)) as [[_ ?]|(l & Hfr & _ & Hm)]; [done|].
  pose proof (is_list_fresh _ _ _ _ Hl Hfr) as Hln.
  unfold alpm_list_append. mstep Hm.
  set (m1 := Mem (<[l := Node x None None]> (cells m)) (tail (oom m))).
  assert (same_except [l] (cells m) (cells m1)) as F1 by (apply same_except_insert; set_solver).
  assert (seg (cells m1) [(l, x)] None None) as Hn1
    by (apply seg_singleton; simpl; by rewrite lookup_insert_eq).
  assert (is_list (cells m1) p ns) as Hl1
    by (eapply is_list_frame; [exact F1|set_solver|exact Hl]).
  destruct (decide (ns = [])) as [->|Hne].
  - destruct Hl as (_ & -> & _). cbn [head_loc].
    destruct (run_set_prev m1 [(l, x)] None None None (Some l)) as (m2 & E2 & O2 & F2 & Hn2);
      [done|apply NoDup_singleton|done|].
    cbn [head_loc] in E2. mstep E2. eexists _, _, _. split; [reflexivity|].
    split_and!; [done|split_and!; [apply NoDup_singleton|done|done]| |by rewrite O2].
    frames.
  - pose proof (is_list_last _ _ _ Hl1) as El.
    destruct Hl1 as (Hnd & -> & Hs1).
    destruct (head_loc ns None) as [lh|] eqn:Eh; [|by destruct ns as [|[]]]. mstep El.
    destruct (run_set_next m1 ns _ _ None (Some l) Hne Hnd Hs1) as (m2 & E2 & O2 & F2 & Hs2).
    mstep E2.
    assert (seg (cells m2) [(l, x)] None None) as Hn2 by frame_by F2 Hn1.
    destruct (run_set_prev m2 [(l, x)] None None None (last_loc ns None)) as (m3 & E3 & O3 & F3 & Hn3);
      [done|apply NoDup_singleton|done|]. cbn [head_loc] in E3. mstep E3.
    assert (seg (cells m3) ns (last_loc ns None) (Some l)) as Hs3 by frame_by F3 Hs2.
    destruct (run_set_prev m3 ns _ _ None (Some l) Hne Hnd Hs3) as (m4 & E4 & O4 & F4 & Hs4).
    rewrite Eh in E4. mstep E4.
    eexists _, _, _. split; [reflexivity|]. split_and!; [done| | |by rewrite O4, O3, O2].
    + split_and!.
      * rewrite fmap_app. apply NoDup_app_disjoint. simpl. split_and!; [done|apply NoDup_singleton|set_solver].
      * rewrite head_loc_app. by rewrite (head_loc_nonempty _ _ None Hne), Eh.
      * rewrite last_loc_snoc. apply seg_app. split; [done|].
        rewrite (last_loc_nonempty _ _ None Hne). frame_by F4 Hn3.
    + frames.
Qed.

Lemma append_oom m p ns (x : D) :
  is_list (cells m) p ns → head (oom m) = Some true →
  alpm_list_append p x m = Some ((p, None), Mem (cells m) (tail (oom m))).
Proof.
  intros Hl Hoom. destruct (malloc_cases m (Node x None None)) as [[Hm _]|(l & _ & ? & _)]; [|done].
  unfold alpm_list_append. by mstep Hm.
Qed.

Lemma join_ok m p q ns1 ns2 :
  is_list (cells m) p ns1 → is_list (cells m) q ns2 → ns1.*1 ## ns2.*1 →
  ∃ m' r, alpm_list_join p q m = Some (r, m') ∧ is_list (cells m') r (ns1 ++ ns2) ∧
    same_except (ns1 ++ ns2).*1 (cells m) (cells m') ∧ oom m' = oom m.
Proof.
  intros Hl1 Hl2 Hd. unfold alpm_list_join.
  destruct (decide (ns1 = [])) as [->|Hne1].
  { destruct Hl1 as (_ & -> & _). simpl. eexists _, _. split_and!; eauto with alpm. }
  destruct (decide (ns2 = [])) as [->|Hne2].
  { destruct Hl2 as (_ & -> & _). simpl. rewrite app_nil_r.
    eexists _, _. split; [destruct p; reflexivity|]. split_and!; eauto with alpm. }
  destruct Hl1 as (Hnd1 & -> & Hs1), Hl2 as (Hnd2 & -> & Hs2).
  destruct (head_loc ns1 None) as [h1|] eqn:Eh1; [|by destruct ns1 as [|[]]].
  destruct (head_loc ns2 None) as [h2|] eqn:Eh2; [|by destruct ns2 as [|[]]].
  destruct (run_deref_head m ns1 _ _ None Hne1 Hs1) as (x1 & _ & Ed1). rewrite Eh1 in Ed1. mstep Ed1.
  cbn [n_prev].
  destruct (run_set_next m ns1 _ _ None (Some h2) Hne1 Hnd1 Hs1) as (m1 & E1 & O1 & F1 & Hs1').
  mstep E1.
  assert (seg (cells m1) ns2 (last_loc ns2 None) None) as Hs2' by frame_by F1 Hs2.
  destruct (run_deref_head m1 ns2 _ _ None Hne2 Hs2') as (x2 & _ & Ed2). rewrite Eh2 in Ed2. mstep Ed2.
  destruct (run_set_prev m1 ns1 _ _ None (last_loc ns2 None) Hne1 Hnd1 Hs1') as (m2 & E2 & O2 & F2 & Hs1'').
  cbn [n_prev]. rewrite Eh1 in E2. mstep E2.
  assert (seg (cells m2) ns2 (last_loc ns2 None) None) as Hs2'' by frame_by F2 Hs2'.
  destruct (run_set_prev m2 ns2 _ _ None (last_loc ns1 None) Hne2 Hnd2 Hs2'') as (m3 & E3 & O3 & F3 & Hs2''').
  rewrite Eh2 in E3. mstep E3.
  eexists _, _. split; [reflexivity|]. split_and!; [|rewrite fmap_app|by rewrite O3, O2, O1].
  - split_and!; [rewrite fmap_app; by apply NoDup_app_disjoint| |].
    + by rewrite head_loc_app, (head_loc_nonempty _ _ None Hne1), Eh1.
    + rewrite last_loc_app, (last_loc_nonempty ns2 _ None Hne2). apply seg_app.
      rewrite Eh2, (last_loc_nonempty ns1 _ None Hne1). split; [frame_by F3 Hs1''|done].
  - frames.
Qed.

Lemma head_loc_Some ns nxt : ns ≠ [] → ∃ h, head_loc ns nxt = Some h ∧ h ∈ ns.*1.
Proof. destruct ns as [|[h x] ns]; [done|]. intros _. exists h. simpl. set_solver. Qed.

Lemma last_loc_Some ns prv : ns ≠ [] → ∃ t, last_loc ns prv = Some t ∧ t ∈ ns.*1.
Proof.
  destruct ns as [|[t x] ns _] using rev_ind; [done|]. intros _. exists t.
  rewrite last_loc_snoc, fmap_app. simpl. set_solver.
Qed.

(** Removing the head node. *)
Lemma remove_item_head m l x ns :
  is_list (cells m) (Some l) ((l, x) :: ns) →
  ∃ m', alpm_list_remove_item (Some l) (Some l) m = Some (head_loc ns None, m') ∧
    is_list (cells m') (head_loc ns None) ns ∧
    same_except (l :: ns.*1) (cells m) (cells m') ∧ oom m' = oom m ∧
    is_Some (cells m' !! l).
Proof.
  intros (Hnd & _ & Hs). rewrite last_loc_cons in Hs. simpl in Hnd.
  apply NoDup_cons in Hnd as [Hl Hnd]. destruct Hs as [El Hs].
  unfold alpm_list_remove_item. rewrite bool_decide_eq_true_2 by done.
  mstep (deref_Some _ _ _ El). cbn [n_next n_prev].
  assert (∃ m1, (match head_loc ns None with
     | Some _ => set_prev (head_loc ns None) (last_loc ns (Some l))
     | None => mret () end) m = Some ((), m1) ∧ oom m1 = oom m ∧
     same_except ns.*1 (cells m) (cells m1) ∧ seg (cells m1) ns (last_loc ns None) None)
    as (m1 & E1 & O1 & F1 & Hs1).
  { destruct (decide (ns = [])) as [->|Hne]; [by exists m|].
    destruct (run_set_prev m ns _ _ None (last_loc ns (Some l)) Hne Hnd Hs) as (m1 & E1 & ?).
    exists m1. destruct (head_loc_Some ns None Hne) as (h & Eh & _). rewrite Eh in E1 |- *.
    split; [done|]. by rewrite (last_loc_nonempty _ None (Some l) Hne). }
  mstep E1.
  assert (cells m1 !! l = Some (Node x (last_loc ns (Some l)) (head_loc ns None))) as El1
    by by rewrite F1.
  mstep (set_prev_step _ _ _ None El1).
  eexists. split; [reflexivity|]. cbn [cells oom n_data n_next]. split_and!.
  - split_and!; [done..|]. eapply seg_frame; [|done]. intros l' Hl'.
    rewrite lookup_insert_ne; [done|set_solver].
  - apply (same_except_trans _ _ (cells m1)); [frames|apply same_except_insert; set_solver].
  - done.
  - rewrite lookup_insert_eq. done.
Qed.

(** Removing the tail node of a list of two or more. *)
Lemma remove_item_tail m p ns l x :
  ns ≠ [] → is_list (cells m) p (ns ++ [(l, x)]) →
  ∃ m', alpm_list_remove_item p (Some l) m = Some (p, m') ∧
    is_list (cells m') p ns ∧
    same_except (l :: ns.*1) (cells m) (cells m') ∧ oom m' = oom m ∧
    is_Some (cells m' !! l).
Proof.
  intros Hne (Hnd & -> & Hs). rewrite last_loc_snoc in Hs.
  rewrite fmap_app in Hnd. apply NoDup_app_disjoint in Hnd as (Hnd & _ & Hd). simpl in Hd.
  rewrite head_loc_app. cbn [head_loc]. rewrite (head_loc_nonempty ns _ None Hne).
  apply seg_app in Hs as [Hs Hl]. rewrite seg_singleton in Hl. cbn [head_loc] in Hs.
  destruct (head_loc_Some ns None Hne) as (h & Eh & Hh).
  destruct (last_loc_Some ns None Hne) as (t & Et & Ht).
  rewrite Eh. unfold alpm_list_remove_item. rewrite bool_decide_eq_false_2 by set_solver.
  destruct (run_deref_head m ns _ _ None Hne Hs) as (xh & _ & Ed). rewrite Eh in Ed.
  mstep Ed. cbn [n_prev]. rewrite bool_decide_eq_true_2 by done.
  mstep (deref_Some _ _ _ Hl). cbn [n_prev n_next].
  rewrite (last_loc_nonempty _ _ None Hne), Et.
  destruct (run_set_next m ns _ _ None None Hne Hnd Hs) as (m1 & E1 & O1 & F1 & Hs1).
  rewrite Et in E1. mstep E1.
  destruct (run_set_prev m1 ns _ _ None (Some t) Hne Hnd Hs1) as (m2 & E2 & O2 & F2 & Hs2).
  rewrite Eh in E2. mstep E2.
  assert (is_Some (cells m2 !! l)) as [nl Hl2].
  { rewrite F2, F1 by set_solver. eauto. }
  mstep (set_prev_step _ _ _ None Hl2).
  eexists. split; [reflexivity|]. cbn [cells oom]. split_and!.
  - split_and!; [done..|]. rewrite Et. eapply seg_frame; [|done]. intros l' Hl'.
    rewrite lookup_insert_ne; [done|set_solver].
  - apply (same_except_trans _ _ (cells m2)); [frames|apply same_except_insert; set_solver].
  - by rewrite O2.
  - rewrite lookup_insert_eq. done.
Qed.

(** Removing a node with neighbours on both sides. *)
Lemma remove_item_middle m p ns1 l x ns2 :
  ns1 ≠ [] → ns2 ≠ [] → is_list (cells m) p (ns1 ++ (l, x) :: ns2) →
  ∃ m', alpm_list_remove_item p (Some l) m = Some (p, m') ∧
    is_list (cells m') p (ns1 ++ ns2) ∧
    same_except (ns1.*1 ++ ns2.*1) (cells m) (cells m') ∧ oom m' = oom m ∧
    is_Some (cells m' !! l).
Proof.
  intros Hne1 Hne2 (Hnd & -> & Hs). rewrite fmap_app in Hnd. simpl in Hnd.
  apply NoDup_app_disjoint in Hnd as (Hnd1 & Hnd2 & Hd).
  apply NoDup_cons in Hnd2 as [Hl2 Hnd2].
  rewrite last_loc_app, last_loc_cons, (last_loc_nonempty ns2 _ None Hne2) in Hs.
  rewrite head_loc_app, (head_loc_nonempty ns1 _ None Hne1).
  apply seg_app in Hs as [Hs1 [Hl Hs2]].
  destruct (head_loc_Some ns1 None Hne1) as (h & Eh & Hh).
  destruct (last_loc_Some ns1 None Hne1) as (t & Et & Ht).
  destruct (head_loc_Some ns2 None Hne2) as (h2 & Eh2 & Hh2).
  destruct (last_loc_Some ns2 None Hne2) as (t2 & Et2 & Ht2).
  rewrite Et2 in *. rewrite Eh. unfold alpm_list_remove_item.
  rewrite bool_decide_eq_false_2 by set_solver.
  destruct (run_deref_head m ns1 _ _ None Hne1 Hs1) as (xh & _ & Ed). rewrite Eh in Ed.
  mstep Ed. cbn [n_prev]. rewrite bool_decide_eq_false_2 by set_solver.
  mstep (deref_Some _ _ _ Hl). cbn [n_prev n_next].
  rewrite (last_loc_nonempty ns1 _ None Hne1), Et, Eh2.
  destruct (run_set_prev m ns2 _ _ None (Some t) Hne2 Hnd2 Hs2) as (m1 & E1 & O1 & F1 & Hs2').
  rewrite Eh2 in E1. mstep E1.
  assert (seg (cells m1) ns1 (Some t2) (head_loc ((l, x) :: ns2) None)) as Hs1' by frame_by F1 Hs1.
  destruct (run_set_next m1 ns1 _ _ None (Some h2) Hne1 Hnd1 Hs1') as (m2 & E2 & O2 & F2 & Hs1'').
  rewrite Et in E2. mstep E2.
  eexists. split; [reflexivity|]. split_and!; [|frames|by rewrite O2|].
  - split_and!.
    + rewrite fmap_app. apply NoDup_app_disjoint. split_and!; [done..|set_solver].
    + by rewrite head_loc_app, (head_loc_nonempty ns1 _ None Hne1), Eh.
    + rewrite last_loc_app, (last_loc_nonempty ns2 _ None Hne2), Et2. apply seg_app.
      rewrite Eh2, (last_loc_nonempty ns1 _ None Hne1), Et. split; [done|frame_by F2 Hs2'].
  - rewrite F2, F1 by set_solver. eauto.
Qed.

Lemma remove_item_ok m p ns1 l x ns2 :
  is_list (cells m) p (ns1 ++ (l, x) :: ns2) →
  ∃ m' p', alpm_list_remove_item p (Some l) m = Some (p', m') ∧
    is_list (cells m') p' (ns1 ++ ns2) ∧
    same_except (ns1 ++ (l, x) :: ns2).*1 (cells m) (cells m') ∧ oom m' = oom m ∧
    is_Some (cells m' !! l).
Proof.
  intros Hl. rewrite fmap_app. simpl.
  destruct (decide (ns1 = [])) as [->|Hne1].
  { assert (p = Some l) as -> by apply Hl.
    destruct (remove_item_head m l x ns2 Hl) as (m' & ? & ? & ? & ? & ?). eauto 10. }
  destruct (decide (ns2 = [])) as [->|Hne2].
  - destruct (remove_item_tail m p ns1 l x Hne1 Hl) as (m' & ? & ? & F & ? & ?).
    rewrite app_nil_r. exists m', p. split_and!; [done..|frames|done|done].
  - destruct (remove_item_middle m p ns1 l x ns2 Hne1 Hne2 Hl) as (m' & ? & ? & F & ? & ?).
    exists m', p. split_and!; [done..|frames|done|done].
Qed.

End append_join_remove.

(** ** Merging and sorting *)
Section merging.
Context {D : Type} (fn : D → D → Z).
Implicit Types (c : gmap loc (node D)) (ns acc ls rs : list (loc * D)) (m : mem D).

(** The comparison of nodes by their data. *)
Definition fn2 (a b : loc * D) : Z := fn a.2 b.2.

(** One step of the merge loop: the first node of [ls] moves to the end of
    the merged run [acc]. *)
Lemma move_node {B} m acc l x ls pl (k : option loc → M D B) :
  acc ≠ [] → NoDup (acc.*1 ++ l :: ls.*1) →
  seg (cells m) acc None None → seg (cells m) ((l, x) :: ls) pl None →
  ∃ m', (_ ← set_next (last_loc acc None) (Some l);
         _ ← set_prev (Some l) (last_loc acc None);
         n ← deref (Some l);
         _ ← set_next (Some l) None; k (n_next n)) m = k (head_loc ls None) m' ∧
    oom m' = oom m ∧ same_except (l :: acc.*1) (cells m) (cells m') ∧
    seg (cells m') (acc ++ [(l, x)]) None None ∧ seg (cells m') ls (Some l) None.
Proof.
  intros Hne Hnd Ha Hl. apply NoDup_app_disjoint in Hnd as (Hnda & Hndl & Hd).
  apply NoDup_cons in Hndl as [Hll Hndl].
  destruct (run_set_next m acc _ _ None (Some l) Hne Hnda Ha) as (m1 & E1 & O1 & F1 & Ha1).
  mstep E1.
  assert (seg (cells m1) ((l, x) :: ls) pl None) as Hl1.
  { eapply seg_same_except; [exact F1| |exact Hl]. simpl. set_solver. }
  destruct (set_prev_head m1 l x ls _ _ (last_loc acc None) Hl1 Hll) as (m2 & E2 & O2 & F2 & Hl2).
  mstep E2. destruct Hl2 as [El Hl2].
  mstep (deref_Some _ _ _ El). cbn [n_next]. mstep (set_next_step _ _ _ None El). cbn [n_data n_prev].
  eexists. split; [reflexivity|]. cbn [cells oom]. rewrite O2, O1.
  assert (same_except [l] (cells m2)
    (<[l := Node x (last_loc acc None) None]> (cells m2))) as F3
    by (apply same_except_insert; set_solver).
  split_and!; [done|frames| |frame_by F3 Hl2].
  apply seg_app. split.
  - eapply seg_same_except; [exact F3|set_solver|]. frame_by F2 Ha1.
  - apply seg_singleton. by rewrite lookup_insert_eq.
Qed.

Lemma NoDup_app3 (A B C : list loc) :
  NoDup (A ++ B ++ C) ↔
  NoDup A ∧ NoDup B ∧ NoDup C ∧ A ## B ∧ A ## C ∧ B ## C.
Proof. rewrite !NoDup_app_disjoint. set_solver. Qed.

Lemma NoDup_move_l (A B C : list loc) l :
  NoDup (A ++ (l :: B) ++ C) → NoDup ((A ++ [l]) ++ B ++ C).
Proof. by rewrite <-(assoc_L (++)). Qed.

Lemma NoDup_move_r (A B C : list loc) l :
  NoDup (A ++ B ++ l :: C) → NoDup ((A ++ [l]) ++ B ++ C).
Proof.
  rewrite <-(assoc_L (++)). simpl. by rewrite (Permutation_middle B).
Qed.

(** What the merge loop leaves when one side is used up. *)
Definition merged m acc ls rs
    (res : option ((option loc * option loc * option loc) * mem D)) : Prop :=
  ∃ m' acc' ls' rs' pl' pr',
    res = Some ((last_loc acc' None, head_loc ls' None, head_loc rs' None), m') ∧
    (ls' = [] ∨ rs' = []) ∧
    acc ++ AlpmList.alpm_list_mmerge fn2 ls rs = acc' ++ ls' ++ rs' ∧
    acc `prefix_of` acc' ∧ ls' `suffix_of` ls ∧ rs' `suffix_of` rs ∧
    NoDup (acc'.*1 ++ ls'.*1 ++ rs'.*1) ∧
    seg (cells m') acc' None None ∧ seg (cells m') ls' pl' None ∧ seg (cells m') rs' pr' None ∧
    same_except (acc.*1 ++ ls.*1 ++ rs.*1) (cells m) (cells m') ∧ oom m' = oom m.

Lemma merged_step_l m m1 acc l x ls r y rs res :
  (fn x y <= 0)%Z → same_except (l :: acc.*1) (cells m) (cells m1) → oom m1 = oom m →
  merged m1 (acc ++ [(l, x)]) ls ((r, y) :: rs) res →
  merged m acc ((l, x) :: ls) ((r, y) :: rs) res.
Proof.
  intros Hxy F1 O1 (m' & acc' & ls' & rs' & pl' & pr' & -> & Hend & Heq & Hpre & Hsl & Hsr & Hnd & Ha & Hl & Hr & F & O).
  exists m', acc', ls', rs', pl', pr'. split_and!; try done.
  - rewrite mmerge_cons. change (fn2 (l, x) (r, y)) with (fn x y).
    rewrite (proj2 (Z.leb_le _ _) Hxy), <-Heq. by rewrite <-(assoc_L (++)).
  - by eapply prefix_app_l.
  - by apply suffix_cons_r.
  - rewrite fmap_app in F. simpl in F |- *. frames.
  - by rewrite O.
Qed.

Lemma merged_step_r m m1 acc l x ls r y rs res :
  (0 < fn x y)%Z → same_except (r :: acc.*1) (cells m) (cells m1) → oom m1 = oom m →
  merged m1 (acc ++ [(r, y)]) ((l, x) :: ls) rs res →
  merged m acc ((l, x) :: ls) ((r, y) :: rs) res.
Proof.
  intros Hxy F1 O1 (m' & acc' & ls' & rs' & pl' & pr' & -> & Hend & Heq & Hpre & Hsl & Hsr & Hnd & Ha & Hl & Hr & F & O).
  exists m', acc', ls', rs', pl', pr'. split_and!; try done.
  - rewrite mmerge_cons. change (fn2 (l, x) (r, y)) with (fn x y).
    rewrite (proj2 (Z.leb_gt _ _) Hxy), <-Heq. by rewrite <-(assoc_L (++)).
  - by eapply prefix_app_l.
  - by apply suffix_cons_r.
  - rewrite fmap_app in F. simpl in F |- *. frames.
  - by rewrite O.
Qed.

Lemma mmerge_loop_ok fuel m acc ls rs pl pr :
  acc ≠ [] → NoDup (acc.*1 ++ ls.*1 ++ rs.*1) → length ls + length rs <= fuel →
  seg (cells m) acc None None → seg (cells m) ls pl None → seg (cells m) rs pr None →
  merged m acc ls rs
    (mmerge_loop fn fuel (last_loc acc None) (head_loc ls None) (head_loc rs None) m).
Proof.
  revert m acc ls rs pl pr.
  induction fuel as [|fuel IH]; intros m acc ls rs pl pr Hne Hnd Hfuel Ha Hl Hr.
  { destruct ls, rs; simpl in *; try lia.
    eexists m, acc, [], [], pl, pr. split_and!; eauto with alpm. }
  destruct ls as [|[l x] ls].
  { exists m, acc, [], rs, pl, pr. split_and!; eauto with alpm. }
  destruct rs as [|[r y] rs].
  { exists m, acc, ((l, x) :: ls), [], pl, pr.
    rewrite mmerge_nil_r, app_nil_r. split_and!; eauto with alpm. }
  cbn [mmerge_loop head_loc].
  mstep (deref_Some _ _ _ (proj1 Hl)). mstep (deref_Some _ _ _ (proj1 Hr)). cbn [n_data].
  simpl length in Hfuel. pose proof Hnd as Hnd0. apply NoDup_app3 in Hnd0 as (Hnda & Hndl & Hndr & Hal & Har & Hlr).
  destruct (Z.leb_spec (fn x y) 0) as [Hxy|Hxy].
  - destruct (move_node m acc l x ls pl
      (λ q, mmerge_loop fn fuel (Some l) q (Some r))) as (m1 & -> & O1 & F1 & Ha1 & Hl1);
      [done|by apply NoDup_app_disjoint|done..|].
    eapply merged_step_l; [done..|]. rewrite <-(last_loc_snoc acc l x None).
    eapply (IH _ _ _ ((r, y) :: rs)); [by destruct acc| |simpl; lia|done..|].
    + rewrite fmap_app. by apply NoDup_move_l.
    + eapply seg_same_except; [exact F1| |exact Hr]. simpl in Hlr, Har |- *. set_solver.
  - destruct (move_node m acc r y rs pr
      (λ q, mmerge_loop fn fuel (Some r) (Some l) q)) as (m1 & -> & O1 & F1 & Ha1 & Hr1);
      [done|by apply NoDup_app_disjoint|done..|].
    eapply merged_step_r; [done..|]. rewrite <-(last_loc_snoc acc r y None).
    eapply (IH _ _ ((l, x) :: ls)); [by destruct acc| |simpl; lia|done| |done].
    + rewrite fmap_app. by apply (NoDup_move_r _ ((l, x) :: ls).*1).
    + eapply seg_same_except; [exact F1| |exact Hl]. simpl in Hlr, Hal |- *. set_solver.
Qed.

Lemma last_loc_suffix ns ns' prv prv' :
  ns' `suffix_of` ns → ns' ≠ [] → last_loc ns prv = last_loc ns' prv'.
Proof.
  intros [k ->] Hne. rewrite last_loc_app. by apply last_loc_nonempty.
Qed.

Lemma link_tail {B} m acc ws pw (k : M D B) :
  acc ≠ [] → ws ≠ [] → NoDup (acc.*1 ++ ws.*1) →
  seg (cells m) acc None None → seg (cells m) ws pw None →
  ∃ m', (_ ← set_next (last_loc acc None) (head_loc ws None);
         _ ← set_prev (head_loc ws None) (last_loc acc None); k) m = k m' ∧
    oom m' = oom m ∧ same_except (acc.*1 ++ ws.*1) (cells m) (cells m') ∧
    seg (cells m') (acc ++ ws) None None.
Proof.
  intros Hna Hnw (Hnda & Hndw & Hd)%NoDup_app_disjoint Ha Hw.
  destruct (run_set_next m acc _ _ None (head_loc ws None) Hna Hnda Ha) as (m1 & E1 & O1 & F1 & Ha1).
  mstep E1. assert (seg (cells m1) ws pw None) as Hw1 by frame_by F1 Hw.
  destruct (run_set_prev m1 ws _ _ None (last_loc acc None) Hnw Hndw Hw1) as (m2 & E2 & O2 & F2 & Hw2).
  mstep E2. exists m2. split_and!; [done|by rewrite O2|frames|].
  apply seg_app. split; [frame_by F2 Ha1|done].
Qed.

(** The end of alpm_list_mmerge after its loop. *)
Lemma mmerge_finish m acc ls rs loop lt rt :
  acc ≠ [] →
  merged m acc ls rs (loop m) →
  (ls ≠ [] → lt = last_loc ls None) → (rs ≠ [] → rt = last_loc rs None) →
  ∃ m', (loop ≫= λ '(lp, l, r),
       tail_ptr ←
        match l, r with
        | Some _, _ => _ ← set_next lp l; _ ← set_prev l lp; mret lt
        | None, Some _ => _ ← set_next lp r; _ ← set_prev r lp; mret rt
        | None, None => mret lp
        end;
       _ ← set_prev (head_loc acc None) tail_ptr; mret (head_loc acc None)) m
      = Some (head_loc acc None, m') ∧
    is_list (cells m') (head_loc acc None) (acc ++ AlpmList.alpm_list_mmerge fn2 ls rs) ∧
    same_except (acc.*1 ++ ls.*1 ++ rs.*1) (cells m) (cells m') ∧ oom m' = oom m.
Proof.
  intros Hna (m1 & acc' & ls' & rs' & pl & pr & Eloop & Hend & Heq & [ext ->] & Hsl & Hsr & Hnd & Ha & Hl & Hr & F & O) Hlt Hrt.
  mstep Eloop. rewrite Heq. set (acc' := acc ++ ext) in *.
  assert (acc' ≠ []) as Hna' by (unfold acc'; by destruct acc).
  assert (∃ m2 tp ws,
    (match head_loc ls' None, head_loc rs' None with
     | Some _, _ => _ ← set_next (last_loc acc' None) (head_loc ls' None);
                    _ ← set_prev (head_loc ls' None) (last_loc acc' None); mret lt
     | None, Some _ => _ ← set_next (last_loc acc' None) (head_loc rs' None);
                    _ ← set_prev (head_loc rs' None) (last_loc acc' None); mret rt
     | None, None => mret (last_loc acc' None)
     end) m1 = Some (tp, m2) ∧ ws = ls' ++ rs' ∧ tp = last_loc (acc' ++ ws) None ∧
    oom m2 = oom m1 ∧ same_except (acc'.*1 ++ ls'.*1 ++ rs'.*1) (cells m1) (cells m2) ∧
    seg (cells m2) (acc' ++ ws) None None) as (m2 & tp & ws & E2 & -> & Htp & O2 & F2 & Hs2).
  { destruct (decide (ls' = [])) as [->|Hnl].
    - destruct (decide (rs' = [])) as [->|Hnr].
      + exists m1, (last_loc acc' None), []. rewrite !app_nil_r. split_and!; eauto with alpm.
      + destruct (link_tail m1 acc' rs' pr (mret rt)) as (m2 & E2 & O2 & F2 & Hs2); [done..|].
        destruct (head_loc_Some rs' None Hnr) as (h & Eh & _). rewrite Eh in E2 |- *. simpl.
        exists m2, rt, rs'. split_and!; try done.
        rewrite last_loc_app, Hrt by (intros ->; by apply suffix_nil_inv in Hsr).
        by apply last_loc_suffix.
    - assert (rs' = []) as -> by (by destruct Hend).
      rewrite !app_nil_r in *.
      destruct (link_tail m1 acc' ls' pl (mret lt)) as (m2 & E2 & O2 & F2 & Hs2); [done..|].
      destruct (head_loc_Some ls' None Hnl) as (h & Eh & _). rewrite Eh in E2 |- *. simpl.
      exists m2, lt, ls'. split_and!; try done.
      rewrite last_loc_app, Hlt by (intros ->; by apply suffix_nil_inv in Hsl).
      by apply last_loc_suffix. }
  mstep E2. rewrite <-!fmap_app in F2.
  destruct (run_set_prev m2 (acc' ++ ls' ++ rs') None None None tp) as (m3 & E3 & O3 & F3 & Hs3);
    [by destruct acc'|by rewrite !fmap_app|done|].
  assert (head_loc (acc' ++ ls' ++ rs') None = head_loc acc None) as Eh.
  { unfold acc'. rewrite <-(assoc_L (++)), head_loc_app. by apply head_loc_nonempty. }
  rewrite Eh in E3. mstep E3. exists m3. split_and!; [done| | |by rewrite O3, O2].
  - split_and!; [by rewrite !fmap_app|done|by rewrite <-Htp].
  - assert (∀ l, l ∈ (acc' ++ ls' ++ rs').*1 → l ∈ acc.*1 ++ ls.*1 ++ rs.*1) as Hsub.
    { intros l. rewrite <-Heq, !fmap_app, !elem_of_app.
      intros [?|Hin]; [by left|]. right. rewrite <-elem_of_app, <-fmap_app.
      by rewrite <-mmerge_perm. }
    apply (same_except_trans _ _ (cells m1)); [done|].
    apply (same_except_trans _ _ (cells m2)); eapply same_except_mono; eauto.
Qed.

(** [newlist->prev = NULL; newlist->next = NULL] on the node taken first. *)
Lemma detach_first m l x ns pl :
  l ∉ ns.*1 → seg (cells m) ((l, x) :: ns) pl None →
  ∃ m', (∀ B (k : M D B),
      (_ ← set_prev (Some l) None; _ ← set_next (Some l) None; k) m = k m') ∧
    oom m' = oom m ∧ same_except [l] (cells m) (cells m') ∧
    seg (cells m') [(l, x)] None None ∧ seg (cells m') ns (Some l) None.
Proof.
  intros Hn Hs.
  destruct (set_prev_head m l x ns pl None None Hs Hn) as (m1 & E1 & O1 & F1 & [El Hs1]).
  eexists. split.
  { intros B k. mstep E1. mstep (set_next_step _ _ _ None El). reflexivity. }
  cbn [cells oom n_data n_prev]. rewrite O1.
  assert (same_except [l] (cells m1) (<[l := Node x None None]> (cells m1))) as F2
    by (apply same_except_insert; set_solver).
  split_and!; [done|frames|apply seg_singleton; by rewrite lookup_insert_eq|].
  frame_by F2 Hs1.
Qed.

Lemma mmerge_ok fuel m p q ls rs :
  is_list (cells m) p ls → is_list (cells m) q rs → ls.*1 ## rs.*1 →
  length ls + length rs <= fuel →
  ∃ m' r, alpm_list_mmerge fn fuel p q m = Some (r, m') ∧
    is_list (cells m') r (AlpmList.alpm_list_mmerge fn2 ls rs) ∧
    same_except (ls.*1 ++ rs.*1) (cells m) (cells m') ∧ oom m' = oom m.
Proof.
  intros Hl Hr Hd Hfuel. unfold alpm_list_mmerge.
  destruct ls as [|[l x] ls].
  { destruct Hl as (_ & -> & _). exists m, q. by split_and!; eauto with alpm. }
  destruct rs as [|[r y] rs].
  { destruct Hl as (? & -> & ?), Hr as (_ & -> & _). exists m, (Some l).
    rewrite mmerge_nil_r. split_and!; eauto with alpm. by split_and!. }
  destruct Hl as (Hndl & -> & Hl), Hr as (Hndr & -> & Hr). cbn [head_loc].
  mstep (deref_Some _ _ _ (proj1 Hl)). mstep (deref_Some _ _ _ (proj1 Hr)). cbn [n_data n_prev n_next].
  rewrite mmerge_cons. change (fn2 (l, x) (r, y)) with (fn x y). simpl length in Hfuel.
  rewrite fmap_cons in Hndl, Hndr. rewrite !fmap_cons in Hd. cbn [fst] in Hndl, Hndr, Hd.
  pose proof Hndl as [Hll Hndl']%NoDup_cons.
  pose proof Hndr as [Hrr Hndr']%NoDup_cons.
  destruct (fn x y <=? 0)%Z.
  - destruct (detach_first m l x ls _ Hll Hl) as (m1 & E1 & O1 & F1 & Ha & Hl1). rewrite E1.
    assert (seg (cells m1) ((r, y) :: rs) (last_loc ((r, y) :: rs) None) None) as Hr1.
    { eapply seg_same_except; [exact F1| |exact Hr]. simpl. set_solver. }
    pose proof (mmerge_loop_ok fuel m1 [(l, x)] ls ((r, y) :: rs) _ _ ltac:(done)
      (proj2 (NoDup_app_disjoint (l :: ls.*1) (r :: rs.*1)) (conj Hndl (conj Hndr Hd)))
      ltac:(simpl; lia) Ha Hl1 Hr1) as Hloop.
    destruct (mmerge_finish m1 [(l, x)] ls ((r, y) :: rs)
      (mmerge_loop fn fuel (Some l) (head_loc ls None) (Some r))
      (last_loc ((l, x) :: ls) None) (last_loc ((r, y) :: rs) None)) as (m' & E & Hlist & F & O);
      [done|exact Hloop|intros; apply last_loc_suffix; [by apply suffix_cons_r|done]|done|].
    exists m', (Some l). split_and!; [exact E|exact Hlist| |by rewrite O]. frames.
  - destruct (detach_first m r y rs _ Hrr Hr) as (m1 & E1 & O1 & F1 & Ha & Hr1). rewrite E1.
    assert (seg (cells m1) ((l, x) :: ls) (last_loc ((l, x) :: ls) None) None) as Hl1.
    { eapply seg_same_except; [exact F1| |exact Hl]. simpl. set_solver. }
    assert (NoDup ([(r, y)].*1 ++ ((l, x) :: ls).*1 ++ rs.*1)) as Hnd.
    { apply (NoDup_move_r []). simpl. apply (NoDup_app_disjoint (l :: ls.*1) (r :: rs.*1)). done. }
    pose proof (mmerge_loop_ok fuel m1 [(r, y)] ((l, x) :: ls) rs _ _ ltac:(done)
      Hnd ltac:(simpl; lia) Ha Hl1 Hr1) as Hloop.
    destruct (mmerge_finish m1 [(r, y)] ((l, x) :: ls) rs
      (mmerge_loop fn fuel (Some r) (Some l) (head_loc rs None))
      (last_loc ((l, x) :: ls) None) (last_loc ((r, y) :: rs) None)) as (m' & E & Hlist & F & O);
      [done|exact Hloop|done|intros; apply last_loc_suffix; [by apply suffix_cons_r|done]|].
    exists m', (Some r). split_and!; [exact E|exact Hlist| |by rewrite O]. frames.
Qed.

Lemma nth_ok m p ns prv nxt n :
  n < length ns → p = head_loc ns None → seg (cells m) ns prv nxt →
  alpm_list_nth p n m = Some (fst <$> ns !! n, m).
Proof.
  revert p ns prv. induction n as [|n IH]; intros p [|[l x] ns] prv Hn -> Hs; simpl in *; try lia.
  - done.
  - mstep (deref_Some _ _ _ (proj1 Hs)). cbn [n_next].
    rewrite (head_loc_nonempty _ _ None) by (destruct ns; simpl in *; [lia|done]).
    eapply IH; [lia|done|apply Hs].
Qed.

Lemma msort_ok fuel m p ns n :
  is_list (cells m) p ns → length ns = n → n <= fuel →
  ∃ m' r, alpm_list_msort fn fuel p n m = Some (r, m') ∧
    is_list (cells m') r (msort_rec fn2 fuel ns n) ∧
    same_except ns.*1 (cells m) (cells m') ∧ oom m' = oom m.
Proof.
  revert m p ns n. induction fuel as [|fuel IH]; intros m p ns n Hl Hlen Hfuel.
  { simpl. exists m, p. by split_and!; eauto with alpm. }
  simpl. destruct (Nat.ltb_spec 1 n) as [H1|]; [|exists m, p; by split_and!; eauto with alpm].
  assert (n / 2 < n) by (apply Nat.div_lt; lia).
  assert (1 <= n / 2) by (apply Nat.div_le_lower_bound; lia).
  set (half := n / 2) in *. set (L := take half ns). set (R := drop half ns).
  assert (ns = L ++ R) as Hns by (symmetry; apply take_drop).
  assert (length L = half ∧ length R = n - half) as [HL HR]
    by (unfold L, R; rewrite length_take, length_drop; lia).
  assert (L ≠ [] ∧ R ≠ []) as [HneL HneR].
  { split; intros E; rewrite E in *; simpl in *; lia. }
  destruct Hl as (Hnd & -> & Hs).
  erewrite M_bind_Some; [|eapply nth_ok; [|reflexivity|exact Hs]; lia]. cbv beta.
  rewrite Hns in Hnd, Hs |- *. rewrite fmap_app in Hnd |- *.
  pose proof Hnd as (HndL & HndR & Hd)%NoDup_app_disjoint.
  assert (fst <$> (L ++ R) !! (half - 1) = last_loc L None) as ->.
  { rewrite lookup_app_l by lia. unfold last_loc. rewrite last_lookup, HL.
    replace (pred half) with (half - 1) by lia. by destruct (L !! _) as [[]|]. }
  rewrite last_loc_app, (last_loc_nonempty R _ None HneR) in Hs.
  rewrite head_loc_app, (head_loc_nonempty L _ None HneL).
  apply seg_app in Hs as [HsL HsR]. rewrite (last_loc_nonempty L _ None HneL) in HsR.
  assert (∃ x pv, deref (last_loc L None) m = Some (Node x pv (head_loc R None), m)) as (x & pv & Ed).
  { destruct L as [|[t xt] L0 _] using rev_ind; [done|]. rewrite last_loc_snoc.
    apply seg_app in HsL as [_ HsL]. rewrite seg_singleton in HsL. eauto using deref_Some. }
  mstep Ed. cbn [n_next].
  destruct (run_set_next m L _ _ None None HneL HndL HsL) as (m1 & E1 & O1 & F1 & HsL1). mstep E1.
  destruct (run_deref_head m1 L _ _ None HneL HsL1) as (xh & _ & Ed1). mstep Ed1. cbn [n_prev].
  assert (seg (cells m1) R (last_loc L None) None) as HsR1 by frame_by F1 HsR.
  destruct (run_set_prev m1 R _ _ None (last_loc R None) HneR HndR HsR1) as (m2 & E2 & O2 & F2 & HsR2).
  mstep E2. assert (seg (cells m2) L (last_loc R None) None) as HsL2 by frame_by F2 HsL1.
  destruct (run_set_prev m2 L _ _ None (last_loc L None) HneL HndL HsL2) as (m3 & E3 & O3 & F3 & HsL3).
  mstep E3. assert (seg (cells m3) R (last_loc R None) None) as HsR3 by frame_by F3 HsR2.
  destruct (IH m3 (head_loc L None) L half) as (m4 & p4 & E4 & HL4 & F4 & O4); [by split_and!|done|lia|].
  mstep E4.
  destruct (IH m4 (head_loc R None) R (n - half)) as (m5 & p5 & E5 & HL5 & F5 & O5);
    [split_and!; [done..|frame_by F4 HsR3]|done|lia|].
  mstep E5.
  pose proof (msort_rec_perm fn2 fuel L half HL ltac:(lia)) as PL.
  pose proof (msort_rec_perm fn2 fuel R (n - half) HR ltac:(lia)) as PR.
  apply (fmap_Permutation fst) in PL, PR.
  destruct (mmerge_ok n m5 p4 p5 (msort_rec fn2 fuel L half) (msort_rec fn2 fuel R (n - half)))
    as (m6 & r & E6 & HL6 & F6 & O6).
  { eapply is_list_frame; [exact F5| |exact HL4]. intros l Hl. rewrite PL in Hl. by apply Hd. }
  { done. }
  { intros l Hl Hr. rewrite PL in Hl. rewrite PR in Hr. by apply (Hd l). }
  { rewrite (msort_rec_perm fn2 fuel L half HL), (msort_rec_perm fn2 fuel R (n - half) HR); lia. }
  exists m6, r.
  split_and!; [done|done| |by rewrite O6, O5, O4, O3, O2].
  apply (same_except_trans _ _ (cells m5)); [clear F6; frames|].
  eapply same_except_mono; [|exact F6]. intros l. by rewrite PL, PR.
Qed.

End merging.

(** ** Walks: count, free, copy, reverse, sorted insertion *)
Section walks.
Context {D : Type}.
Implicit Types (c : gmap loc (node D)) (ns acc : list (loc * D)) (m : mem D).

Lemma count_ok fuel m ns prv :
  length ns <= fuel → seg (cells m) ns prv None →
  alpm_list_count fuel (head_loc ns None) m = Some (length ns, m).
Proof.
  revert ns prv. induction fuel as [|fuel IH]; intros [|[l x] ns] prv Hf Hs; simpl in Hf;
    try done; try lia.
  cbn [head_loc alpm_list_count]. mstep (deref_Some _ _ _ (proj1 Hs)). cbn [n_next].
  erewrite M_bind_Some; [reflexivity|]. eapply IH; [lia|apply Hs].
Qed.

(** Freeing removes exactly the nodes of the list from the heap. *)
Lemma free_ok fuel m ns prv :
  length ns <= fuel → NoDup ns.*1 → seg (cells m) ns prv None →
  ∃ m', alpm_list_free fuel (head_loc ns None) m = Some ((), m') ∧ oom m' = oom m ∧
    ∀ l, cells m' !! l = if bool_decide (l ∈ ns.*1) then None else cells m !! l.
Proof.
  revert m ns prv. induction fuel as [|fuel IH]; intros m [|[l x] ns] prv Hf Hnd Hs;
    simpl in Hf; try lia; try (exists m; split_and!; [done..|]; intros; by rewrite bool_decide_eq_false_2 by set_solver).
  cbn [head_loc alpm_list_free]. destruct Hs as [Hl Hs].
  rewrite fmap_cons in Hnd |- *. cbn [fst] in *. apply NoDup_cons in Hnd as [Hln Hnd].
  mstep (deref_Some _ _ _ Hl). cbn [n_next].
  assert (free (Some l) m = Some ((), Mem (delete l (cells m)) (oom m))) as Ef
    by (unfold free; rewrite Hl; done).
  mstep Ef.
  destruct (IH (Mem (delete l (cells m)) (oom m)) ns (Some l)) as (m' & E & O & Hm'); [lia|done| |].
  { eapply seg_frame; [|exact Hs]. intros l' Hl'. simpl. rewrite lookup_delete_ne; [done|set_solver]. }
  exists m'. split_and!; [done|by rewrite O|]. intros l'. rewrite Hm'. simpl.
  destruct (decide (l' = l)) as [->|Hne].
  - rewrite bool_decide_eq_false_2, bool_decide_eq_true_2 by set_solver. by rewrite lookup_delete_eq.
  - rewrite lookup_delete_ne by done. by rewrite (bool_decide_ext _ (l' ∈ l :: ns.*1)) by set_solver.
Qed.

(** A copy in progress: [acc] is what has been appended to [newlist]; its
    cells were unused in the heap [c0] the copy started from. *)
Definition copying c0 m newlist acc : Prop :=
  is_list (cells m) newlist acc ∧ same_except acc.*1 c0 (cells m) ∧
  ∀ l, l ∈ acc.*1 → c0 !! l = None.

Lemma copying_append c0 m newlist acc x :
  copying c0 m newlist acc → head (oom m) ≠ Some true →
  ∃ m' newlist' l, alpm_list_append newlist x m = Some ((newlist', Some l), m') ∧
    copying c0 m' newlist' (acc ++ [(l, x)]) ∧ oom m' = tail (oom m).
Proof.
  intros (Hl & F0 & Hfresh) Hoom.
  destruct (append_ok m newlist acc x Hl Hoom) as (m' & p' & l & E & Hn & Hl' & F & O).
  pose proof (is_list_fresh _ _ _ _ Hl Hn) as Hla.
  exists m', p', l. split_and!; [done| |done]. split_and!; [done| |].
  - rewrite fmap_app. simpl. frames.
  - rewrite fmap_app. simpl. intros l' [Hl0| ->%list_elem_of_singleton]%elem_of_app; [by apply Hfresh|].
    by rewrite <-F0.
Qed.

(** A failed append frees the partial copy and restores the heap. *)
Lemma copying_abort c0 m newlist acc x fuel0 :
  copying c0 m newlist acc → head (oom m) = Some true → length acc <= fuel0 →
  ∃ m1 m', alpm_list_append newlist x m = Some ((newlist, None), m1) ∧
    alpm_list_free fuel0 newlist m1 = Some ((), m') ∧ cells m' = c0.
Proof.
  intros (Hl & F0 & Hfresh) Hoom Hlen.
  exists (Mem (cells m) (tail (oom m))).
  pose proof Hl as (Hnd & -> & Hs).
  destruct (free_ok fuel0 (Mem (cells m) (tail (oom m))) acc _ Hlen Hnd Hs) as (m' & E & _ & Hm').
  exists m'. split_and!; [by eapply append_oom|done|].
  apply map_eq. intros l. rewrite Hm'. case_bool_decide as Hin.
  - symmetry. by apply Hfresh.
  - simpl. by rewrite F0.
Qed.

(** The source list is not touched by a copy in progress. *)
Lemma copying_source c0 m newlist acc ns prv nxt :
  copying c0 m newlist acc → seg c0 ns prv nxt → seg (cells m) ns prv nxt.
Proof.
  intros (_ & F0 & Hfresh) Hs. eapply seg_same_except; [exact F0| |exact Hs].
  intros l Hl Hacc. apply list_elem_of_fmap in Hl as [[l' x] [-> Hin]].
  destruct (seg_lookup _ _ _ _ _ _ Hin Hs) as (? & ? & E). rewrite Hfresh in E by done. done.
Qed.

Lemma copy_loop_ok c0 fuel0 fuel m newlist acc ns prv :
  copying c0 m newlist acc → seg c0 ns prv None →
  length ns <= fuel → length acc + length ns <= fuel0 →
  ∃ m' r, copy_loop fuel0 fuel (head_loc ns None) newlist m = Some (r, m') ∧
    ((cells m' = c0 ∧ r = None ∧ ns ≠ []) ∨
     ∃ acc', copying c0 m' r acc' ∧ acc'.*2 = acc.*2 ++ ns.*2).
Proof.
  revert m newlist acc ns prv. induction fuel as [|fuel IH];
    intros m newlist acc [|[l x] ns] prv Hc Hs Hf Hf0; simpl in Hf, Hf0; try lia;
    try (exists m, newlist; split; [done|]; right; exists acc; simpl; rewrite app_nil_r; done).
  cbn [head_loc copy_loop].
  pose proof (copying_source _ _ _ _ _ _ _ Hc Hs) as Hs'.
  mstep (deref_Some _ _ _ (proj1 Hs')). cbn [n_data n_next].
  destruct (decide (head (oom m) = Some true)) as [Hoom|Hoom].
  - destruct (copying_abort c0 m newlist acc x fuel0) as (m1 & m' & E1 & E2 & Hm'); [done..|lia|].
    mstep E1. mstep E2. eexists _, _. split; [reflexivity|]. by left.
  - destruct (copying_append c0 m newlist acc x Hc Hoom) as (m' & p' & l' & E & Hc' & _).
    mstep E. edestruct (IH m' p' (acc ++ [(l', x)]) ns (Some l)) as (m2 & r & E2 & H2);
      [done|apply Hs|lia|rewrite length_app; simpl; lia|].
    exists m2, r. split; [done|]. destruct H2 as [(? & ? & ?)|(acc' & ? & Hacc)]; [by left|].
    right. exists acc'. split; [done|]. rewrite Hacc, fmap_app, <-(assoc_L (++)). done.
Qed.

(** The part of the list that alpm_list_reverse has yet to visit ends at [lp]. *)
Lemma reverse_loop_ok c0 fuel0 fuel m newlist acc ns rest l0 x0 backup :
  copying c0 m newlist acc → seg c0 (ns ++ rest) None None →
  head_loc (ns ++ rest) None = Some l0 → c0 !! l0 = Some x0 →
  length ns <= fuel → length acc + length ns <= fuel0 →
  ∃ m' r, reverse_loop fuel0 fuel (Some l0) backup (last_loc ns None) newlist m = Some (r, m') ∧
    ((cells m' = <[l0 := Node (n_data x0) backup (n_next x0)]> c0 ∧ r = None ∧ ns ≠ []) ∨
     ∃ m1 acc', copying c0 m1 r acc' ∧ acc'.*2 = acc.*2 ++ reverse ns.*2 ∧
       cells m' = <[l0 := Node (n_data x0) backup (n_next x0)]> (cells m1)).
Proof.
  intros Hc Hs Hhd Hx0. revert m newlist acc ns rest Hc Hs Hhd.
  induction fuel as [|fuel IH]; intros m newlist acc ns rest Hc Hs Hhd Hf Hf0.
  all: assert (∀ m1 q acc1, copying c0 m1 q acc1 → cells m1 !! l0 = Some x0) as Hl0
    by (intros m1 q acc1 (_ & F & Hfr); rewrite F; [done|]; intros Hin;
        rewrite Hfr in Hx0 by done; done).
  all: destruct ns as [|[l x] ns _] using rev_ind;
    [|rewrite length_app in Hf, Hf0; simpl in Hf, Hf0; try lia].
  1,2: unfold last_loc; simpl; mstep (set_prev_step _ _ _ backup (Hl0 _ _ _ Hc));
    eexists _, _; split; [reflexivity|]; right; exists m, acc; rewrite app_nil_r; done.
  rewrite last_loc_snoc. cbn [reverse_loop].
  pose proof (copying_source _ _ _ _ _ _ _ Hc Hs) as Hs'.
  rewrite <-(assoc_L (++)) in Hs'. apply seg_app in Hs' as [_ [El _]].
  mstep (deref_Some _ _ _ El). cbn [n_data].
  destruct (decide (head (oom m) = Some true)) as [Hoom|Hoom].
  - destruct (copying_abort c0 m newlist acc x fuel0) as (m1 & m' & E1 & E2 & Hm'); [done..|lia|].
    mstep E1. mstep E2. assert (cells m' !! l0 = Some x0) as Hl by by rewrite Hm'.
    mstep (set_prev_step _ _ _ backup Hl).
    eexists _, _. split; [reflexivity|]. left. simpl. rewrite Hm'. split_and!; [done..|].
    by destruct ns.
  - destruct (copying_append c0 m newlist acc x Hc Hoom) as (m' & p' & l' & E & Hc' & _).
    mstep E. pose proof (copying_source _ _ _ _ _ _ _ Hc' Hs) as Hs''.
    rewrite <-(assoc_L (++)) in Hs''. apply seg_app in Hs'' as [_ [El' _]].
    mstep (deref_Some _ _ _ El'). cbn [n_prev].
    destruct (IH m' p' (acc ++ [(l', x)]) ns ([(l, x)] ++ rest)) as (m2 & r & E2 & H2);
      [done|by rewrite (assoc_L (++))|by rewrite (assoc_L (++))|lia|rewrite length_app; simpl; lia|].
    exists m2, r. split; [done|]. destruct H2 as [(? & ? & ?)|(m1 & acc' & ? & Hacc & ?)].
    + left. split_and!; [done..|]. by destruct ns.
    + right. exists m1, acc'. split_and!; [done| |done].
      rewrite Hacc, !fmap_app, reverse_app, <-(assoc_L (++)). done.
Qed.

Lemma copy_ok fuel m p ns :
  is_list (cells m) p ns → length ns <= fuel →
  ∃ m' r, alpm_list_copy fuel p m = Some (r, m') ∧
    ((cells m' = cells m ∧ r = None ∧ ns ≠ []) ∨
     ∃ cs, is_list (cells m') r cs ∧ cs.*2 = ns.*2 ∧
       same_except cs.*1 (cells m) (cells m') ∧ ∀ l, l ∈ cs.*1 → cells m !! l = None).
Proof.
  intros (Hnd & -> & Hs) Hf. unfold alpm_list_copy.
  destruct (copy_loop_ok (cells m) fuel fuel m None [] ns (last_loc ns None)) as (m' & r & E & H).
  - split_and!; [split_and!; [apply NoDup_nil_2|done|done]|done|set_solver].
  - exact Hs.
  - done.
  - done.
  - exists m', r. split; [done|]. destruct H as [?|(cs & (Hl & F & Hfr) & Hcs)]; [by left|].
    right. exists cs. by split_and!.
Qed.

Lemma reverse_ok fuel m p ns :
  is_list (cells m) p ns → length ns <= fuel →
  ∃ m' r, alpm_list_reverse fuel p m = Some (r, m') ∧
    ((cells m' = cells m ∧ r = None ∧ ns ≠ []) ∨
     ∃ rs, is_list (cells m') r rs ∧ rs.*2 = reverse ns.*2 ∧
       same_except rs.*1 (cells m) (cells m') ∧ ∀ l, l ∈ rs.*1 → cells m !! l = None).
Proof.
  intros Hl Hf. pose proof (is_list_last _ _ _ Hl) as Elast.
  destruct Hl as (Hnd & -> & Hs). unfold alpm_list_reverse.
  destruct ns as [|[l0 x] ns].
  { exists m, None. split; [done|]. right. exists []. split_and!; [|done..|set_solver].
    split_and!; [apply NoDup_nil_2|done..]. }
  cbn [head_loc] in *. rewrite fmap_cons in Hnd. cbn [fst] in Hnd.
  pose proof Hnd as [Hl0 Hnd']%NoDup_cons. pose proof Hs as [El0 _].
  mstep Elast. mstep (deref_Some _ _ _ El0). cbn [n_prev].
  destruct (set_prev_head m l0 x ns _ _ None Hs Hl0) as (m0 & E0 & O0 & F0 & Hs0). mstep E0.
  set (back := last_loc ((l0, x) :: ns) None) in *.
  pose proof Hs0 as [El0' _].
  assert (<[l0 := Node x back (head_loc ns None)]> (cells m0) = cells m) as Hrest.
  { apply map_eq. intros l. destruct (decide (l = l0)) as [->|Hne].
    - by rewrite lookup_insert_eq.
    - rewrite lookup_insert_ne by done. apply F0. set_solver. }
  destruct (reverse_loop_ok (cells m0) fuel fuel m0 None [] ((l0, x) :: ns) [] l0
    (Node x None (head_loc ns None)) back) as (m' & r & E & H).
  - split_and!; [split_and!; [apply NoDup_nil_2|done|done]|done|set_solver].
  - by rewrite app_nil_r.
  - done.
  - exact El0'.
  - done.
  - done.
  - exists m', r. split; [exact E|].
    cbn [n_data n_next] in H. rewrite Hrest in H.
    destruct H as [?|(m1 & rs & (Hr & F & Hfr) & Hrs & Hm')]; [by left|]. right. exists rs.
    assert (l0 ∉ rs.*1) as Hl0r by (intros Hin; rewrite Hfr in El0' by done; done).
    split_and!.
    + rewrite Hm'. eapply is_list_frame; [apply (same_except_insert [l0]); set_solver|set_solver|done].
    + done.
    + intros l Hl. rewrite Hm', <-Hrest. rewrite !lookup_insert. case_decide; [done|]. by apply F.
    + intros l Hl. rewrite <-Hrest, lookup_insert_ne by set_solver. by apply Hfr.
Qed.

(** The scan for the insertion point of alpm_list_add_sorted. *)
Lemma find_insertion_ok (fn : D → D → Z) fuel m data l ns1 ns2 prv :
  length ns2 <= fuel → seg (cells m) ns2 (last_loc ns1 prv) None →
  ∃ a b, ns2 = a ++ b ∧
    find_insertion fn fuel data (last_loc ns1 None) (head_loc ns2 None) m =
      Some ((last_loc (ns1 ++ a) None, head_loc b None), m) ∧
    AlpmList.alpm_list_add_sorted (fn2 fn) ns2 (l, data) = a ++ (l, data) :: b.
Proof.
  revert ns1 ns2 prv. induction fuel as [|fuel IH]; intros ns1 [|[l' x] ns2] prv Hf Hs; simpl in Hf;
    try lia; try (exists [], []; by rewrite !app_nil_r).
  cbn [head_loc find_insertion]. mstep (deref_Some _ _ _ (proj1 Hs)). cbn [n_data n_next].
  cbn [AlpmList.alpm_list_add_sorted]. change (fn2 fn (l, data) (l', x)) with (fn data x).
  destruct (fn data x <=? 0)%Z.
  - exists [], ((l', x) :: ns2). by rewrite !app_nil_r.
  - destruct (IH (ns1 ++ [(l', x)]) ns2 None) as (a & b & -> & E & Ha); [lia| |].
    { rewrite last_loc_snoc. apply Hs. }
    exists ((l', x) :: a), b. rewrite last_loc_snoc in E.
    split_and!; [done|by rewrite E, <-(assoc_L (++))|]. simpl. by rewrite Ha.
Qed.

(** [add->prev = p; add->next = q] on the new node. *)
Lemma set_ends m l (data : D) p q :
  seg (cells m) [(l, data)] None None →
  ∃ m', (∀ B (k : M D B),
      (_ ← set_prev (Some l) p; _ ← set_next (Some l) q; k) m = k m') ∧
    same_except [l] (cells m) (cells m') ∧ seg (cells m') [(l, data)] p q.
Proof.
  intros Hn.
  destruct (run_set_prev m [(l, data)] _ _ None p ltac:(done) (NoDup_singleton _) Hn)
    as (m2 & E2 & O2 & F2 & Hn2).
  destruct (run_set_next m2 [(l, data)] _ _ None q ltac:(done) (NoDup_singleton _) Hn2)
    as (m3 & E3 & O3 & F3 & Hn3).
  exists m3. split_and!; [|frames|done].
  intros B k. cbn [head_loc] in E2. mstep E2.
  change (last_loc [(l, data)] None) with (Some l) in E3. by mstep E3.
Qed.

(** The three ways alpm_list_add_sorted links the new node. *)
Lemma insert_first m ns l data :
  ns ≠ [] → NoDup ns.*1 → l ∉ ns.*1 →
  seg (cells m) ns (last_loc ns None) None → seg (cells m) [(l, data)] None None →
  ∃ m', (n ← deref (head_loc ns None);
         _ ← set_prev (Some l) (n_prev n);
         _ ← set_next (Some l) (head_loc ns None);
         _ ← set_prev (head_loc ns None) (Some l); mret (Some l)) m = Some (Some l, m') ∧
    is_list (cells m') (Some l) ((l, data) :: ns) ∧
    same_except (l :: ns.*1) (cells m) (cells m').
Proof.
  intros Hne Hnd Hln Hs Hn.
  destruct (run_deref_head m ns _ _ None Hne Hs) as (xh & _ & Ed). mstep Ed. cbn [n_prev].
  destruct (set_ends m l data (last_loc ns None) (head_loc ns None) Hn) as (m1 & E1 & F1 & Hn1).
  rewrite E1. assert (seg (cells m1) ns (last_loc ns None) None) as Hs1 by frame_by F1 Hs.
  destruct (run_set_prev m1 ns _ _ None (Some l) Hne Hnd Hs1) as (m2 & E2 & O2 & F2 & Hs2).
  mstep E2. eexists. split_and!; [reflexivity| |frames]. split_and!.
  - rewrite fmap_cons. by apply NoDup_cons.
  - done.
  - rewrite last_loc_cons, (last_loc_nonempty ns _ None Hne). split; [|done].
    apply (proj1 (seg_singleton _ _ _ _ _)). frame_by F2 Hn1.
Qed.

Lemma insert_last m ns l data :
  ns ≠ [] → NoDup ns.*1 → l ∉ ns.*1 →
  seg (cells m) ns (last_loc ns None) None → seg (cells m) [(l, data)] None None →
  ∃ m', (_ ← set_prev (Some l) (last_loc ns None);
         _ ← set_next (Some l) None;
         _ ← set_next (last_loc ns None) (Some l);
         _ ← set_prev (head_loc ns None) (Some l); mret (head_loc ns None)) m =
           Some (head_loc ns None, m') ∧
    is_list (cells m') (head_loc ns None) (ns ++ [(l, data)]) ∧
    same_except (l :: ns.*1) (cells m) (cells m').
Proof.
  intros Hne Hnd Hln Hs Hn.
  destruct (set_ends m l data (last_loc ns None) None Hn) as (m1 & E1 & F1 & Hn1). rewrite E1.
  assert (seg (cells m1) ns (last_loc ns None) None) as Hs1 by frame_by F1 Hs.
  destruct (run_set_next m1 ns _ _ None (Some l) Hne Hnd Hs1) as (m2 & E2 & O2 & F2 & Hs2).
  mstep E2.
  destruct (run_set_prev m2 ns _ _ None (Some l) Hne Hnd Hs2) as (m3 & E3 & O3 & F3 & Hs3).
  mstep E3. eexists. split_and!; [reflexivity| |frames]. split_and!.
  - rewrite fmap_app. apply NoDup_app_disjoint. split_and!; [done|apply NoDup_singleton|set_solver].
  - rewrite head_loc_app. by apply head_loc_nonempty.
  - rewrite last_loc_snoc. apply seg_app. split; [done|].
    rewrite (last_loc_nonempty ns _ None Hne).
    eapply seg_same_except; [exact F3|set_solver|]. frame_by F2 Hn1.
Qed.

Lemma insert_between m a b l data :
  a ≠ [] → b ≠ [] → NoDup (a.*1 ++ b.*1) → l ∉ a.*1 ++ b.*1 →
  seg (cells m) (a ++ b) (last_loc b None) None → seg (cells m) [(l, data)] None None →
  ∃ m', (_ ← set_prev (Some l) (last_loc a None);
         _ ← set_next (Some l) (head_loc b None);
         _ ← set_prev (head_loc b None) (Some l);
         _ ← set_next (last_loc a None) (Some l); mret (head_loc a None)) m =
           Some (head_loc a None, m') ∧
    is_list (cells m') (head_loc a None) (a ++ (l, data) :: b) ∧
    same_except (l :: a.*1 ++ b.*1) (cells m) (cells m').
Proof.
  intros Hna Hnb (Hnda & Hndb & Hd)%NoDup_app_disjoint Hln Hs Hn.
  destruct (set_ends m l data (last_loc a None) (head_loc b None) Hn) as (m1 & E1 & F1 & Hn1).
  rewrite E1. apply seg_app in Hs as [Ha Hb].
  assert (seg (cells m1) a (last_loc b None) (head_loc b None)) as Ha1 by frame_by F1 Ha.
  assert (seg (cells m1) b (last_loc a (last_loc b None)) None) as Hb1 by frame_by F1 Hb.
  destruct (run_set_prev m1 b _ _ None (Some l) Hnb Hndb Hb1) as (m2 & E2 & O2 & F2 & Hb2).
  mstep E2.
  assert (seg (cells m2) a (last_loc b None) (head_loc b None)) as Ha2 by frame_by F2 Ha1.
  destruct (run_set_next m2 a _ _ None (Some l) Hna Hnda Ha2) as (m3 & E3 & O3 & F3 & Ha3).
  mstep E3. eexists. split_and!; [reflexivity| |frames]. split_and!.
  - rewrite fmap_app, fmap_cons. apply (NoDup_app3 a.*1 [l] b.*1).
    split_and!; [done|apply NoDup_singleton|done|set_solver|done|set_solver].
  - rewrite head_loc_app. by apply head_loc_nonempty.
  - rewrite last_loc_app, last_loc_cons, (last_loc_nonempty b _ None Hnb).
    apply seg_app. split; [done|]. rewrite (last_loc_nonempty a _ None Hna). split.
    + apply (proj1 (seg_singleton _ _ _ _ _)).
      eapply seg_same_except; [exact F3|set_solver|]. frame_by F2 Hn1.
    + frame_by F3 Hb2.
Qed.

Lemma add_sorted_ok (fn : D → D → Z) fuel m p ns data :
  is_list (cells m) p ns → ns ≠ [] → length ns <= fuel → head (oom m) ≠ Some true →
  ∃ m' p' l, alpm_list_add_sorted fn fuel p data m = Some (p', m') ∧
    cells m !! l = None ∧
    is_list (cells m') p' (AlpmList.alpm_list_add_sorted (fn2 fn) ns (l, data)) ∧
    same_except (l :: ns.*1) (cells m) (cells m').
Proof.
  intros Hl Hne Hf Hoom.
  destruct (malloc_cases m (Node data None None)) as [[_ ?]|(l & Hfr & _ & Hm)]; [done|].
  pose proof (is_list_fresh _ _ _ _ Hl Hfr) as Hln.
  set (m1 := Mem (<[l := Node data None None]> (cells m)) (tail (oom m))) in *.
  assert (same_except [l] (cells m) (cells m1)) as F1 by (apply same_except_insert; set_solver).
  assert (seg (cells m1) [(l, data)] None None) as Hn1
    by (apply seg_singleton; simpl; by rewrite lookup_insert_eq).
  destruct Hl as (Hnd & -> & Hs).
  assert (seg (cells m1) ns (last_loc ns None) None) as Hs1 by frame_by F1 Hs.
  destruct (head_loc_Some ns None Hne) as (h & Eh & Hh).
  destruct (find_insertion_ok fn fuel m1 data l [] ns (last_loc ns None)) as (a & b & Hns & Efi & Hadd);
    [done|done|]. cbn [app] in Efi. change (last_loc [] None) with (@None loc) in Efi.
  unfold alpm_list_add_sorted. rewrite Eh in Efi |- *. mstep Hm. mstep Efi.
  destruct (decide (a = [])) as [->|Hna]; [|destruct (decide (b = [])) as [->|Hnb]].
  - simpl in Hns. subst b. change (last_loc [] None) with (@None loc). cbv iota.
    destruct (insert_first m1 ns l data) as (m2 & E2 & Hl2 & F2); [done..|].
    rewrite Eh in E2. exists m2, (Some l), l. rewrite Hadd. split_and!; [exact E2|done|exact Hl2|frames].
  - rewrite app_nil_r in Hns. subst a. cbn [head_loc].
    destruct (insert_last m1 ns l data) as (m2 & E2 & Hl2 & F2); [done..|].
    destruct (last_loc_Some ns None Hne) as (t & Et & _). rewrite Eh, Et in *.
    exists m2, (Some h), l. rewrite Hadd. split_and!; [exact E2|done|exact Hl2|frames].
  - subst ns. rewrite fmap_app in Hnd, Hln |- *.
    rewrite last_loc_app, (last_loc_nonempty b _ None Hnb) in Hs1.
    destruct (insert_between m1 a b l data) as (m2 & E2 & Hl2 & F2); [done..|].
    rewrite head_loc_app, (head_loc_nonempty a _ None Hna) in Eh.
    destruct (last_loc_Some a None Hna) as (t & Et & _).
    destruct (head_loc_Some b None Hnb) as (h2 & Eh2 & _). rewrite Eh, Et, Eh2 in *.
    exists m2, (Some h), l. rewrite Hadd. split_and!; [exact E2|done|exact Hl2|frames].
Qed.

End walks.

(** ** From nodes to data *)
Lemma mmerge_data {D} (fn : D → D → Z) (l r : list (loc * D)) :
  (AlpmList.alpm_list_mmerge (fn2 fn) l r).*2 = AlpmList.alpm_list_mmerge fn l.*2 r.*2.
Proof.
  revert r. induction l as [|a l IHl]; intros r; [done|].
  induction r as [|b r IHr]; [by rewrite mmerge_nil_r|].
  rewrite !fmap_cons in *. rewrite !mmerge_cons. unfold fn2 at 1.
  destruct (fn a.2 b.2 <=? 0)%Z; rewrite fmap_cons; [by rewrite IHl|by rewrite IHr].
Qed.

Lemma msort_rec_data {D} (fn : D → D → Z) fuel (l : list (loc * D)) n :
  (msort_rec (fn2 fn) fuel l n).*2 = msort_rec fn fuel l.*2 n.
Proof.
  revert l n. induction fuel as [|fuel IH]; intros l n; simpl; [done|].
  destruct (1 <? n); [|done]. by rewrite mmerge_data, !IH, fmap_take, fmap_drop.
Qed.

(** ** A concrete heap for the witnesses: the list 30, 10, 20 *)
Definition heap3 : mem Z :=
  Mem (<[1%positive := Node 30%Z (Some 3%positive) (Some 2%positive)]>
      (<[2%positive := Node 10%Z (Some 1%positive) (Some 3%positive)]>
      (<[3%positive := Node 20%Z (Some 2%positive) None]> ∅))) [].

Definition nodes3 : list (loc * Z) := [(1%positive, 30%Z); (2%positive, 10%Z); (3%positive, 20%Z)].

Lemma heap3_list : is_list (cells heap3) (Some 1%positive) nodes3.
Proof.
  split_and!; [|done|done]. apply (bool_decide_unpack (NoDup nodes3.*1)). by vm_compute.
Defined.

(** alpm_list_append never faults on a well-formed list. When malloc
    succeeds the result is a well-formed list with one new, previously unused
    node at its end (found in O(1) through the head's back pointer), and no
    cell outside the list changes; when malloc fails the list and the heap are
    unchanged and NULL is returned. *)
Theorem heap_append_correct {D} (m : mem D) p ns (x : D) :
  is_list (cells m) p ns →
  ∃ m' p' ptr, alpm_list_append p x m = Some ((p', ptr), m') ∧
    match ptr with
    | Some l => cells m !! l = None ∧ is_list (cells m') p' (ns ++ [(l, x)]) ∧
                same_except (l :: ns.*1) (cells m) (cells m')
    | None => head (oom m) = Some true ∧ p' = p ∧ cells m' = cells m
    end.
Proof.
  intros Hl. destruct (decide (head (oom m) = Some true)) as [Hoom|Hoom].
  - eexists _, _, _. split; [by eapply append_oom|]. done.
  - destruct (append_ok m p ns x Hl Hoom) as (m' & p' & l & ? & ? & ? & ? & ?).
    by exists m', p', (Some l).
Qed.

Lemma heap_append_correct_witness :
  ∃ m' p' ptr, alpm_list_append (Some 1%positive) 40%Z heap3 = Some ((p', ptr), m') ∧
    match ptr with
    | Some l => cells heap3 !! l = None ∧ is_list (cells m') p' (nodes3 ++ [(l, 40%Z)]) ∧
                same_except (l :: nodes3.*1) (cells heap3) (cells m')
    | None => head (oom heap3) = Some true ∧ p' = Some 1%positive ∧ cells m' = cells heap3
    end.
Proof. exact (heap_append_correct heap3 _ _ 40%Z heap3_list). Defined.

(** alpm_list_remove_item unlinks any node of a well-formed list (head,
    tail or inner node): what remains is the well-formed list of the other
    nodes in their order, the item itself stays allocated for the caller to
    free, and cells of other lists are untouched. *)
Theorem heap_remove_item_correct {D} (m : mem D) p ns1 l (x : D) ns2 :
  is_list (cells m) p (ns1 ++ (l, x) :: ns2) →
  ∃ m' p', alpm_list_remove_item p (Some l) m = Some (p', m') ∧
    is_list (cells m') p' (ns1 ++ ns2) ∧
    same_except (ns1 ++ (l, x) :: ns2).*1 (cells m) (cells m') ∧
    is_Some (cells m' !! l).
Proof.
  intros (m' & p' & ? & ? & ? & ? & ?)%remove_item_ok. by exists m', p'.
Qed.

Lemma heap_remove_item_correct_witness :
  ∃ m' p', alpm_list_remove_item (Some 1%positive) (Some 2%positive) heap3 = Some (p', m') ∧
    is_list (cells m') p' [(1%positive, 30%Z); (3%positive, 20%Z)] ∧
    same_except nodes3.*1 (cells heap3) (cells m') ∧ is_Some (cells m' !! 2%positive).
Proof.
  exact (heap_remove_item_correct heap3 _ [(1%positive, 30%Z)] _ 10%Z _ heap3_list).
Defined.

(** C36. The pointer merge sort terminates on every well-formed list, relinks
    its nodes in place (no cell outside the list changes, nothing is
    allocated) into a well-formed list, and the data read off the result is
    the stable merge sort of the data of the input. *)
Theorem heap_msort_correct {D} (fn : D → D → Z) (m : mem D) p ns :
  is_list (cells m) p ns →
  ∃ m' r ns', alpm_list_msort fn (length ns) p (length ns) m = Some (r, m') ∧
    is_list (cells m') r ns' ∧ ns' ≡ₚ ns ∧
    ns'.*2 = AlpmList.alpm_list_msort fn ns.*2 (length ns) ∧
    same_except ns.*1 (cells m) (cells m').
Proof.
  intros Hl. destruct (msort_ok fn (length ns) m p ns (length ns)) as (m' & r & ? & ? & ? & ?); [done..|].
  exists m', r, (msort_rec (fn2 fn) (length ns) ns (length ns)).
  split_and!; [done|done|by apply msort_rec_perm|apply msort_rec_data|done].
Qed.

Lemma heap_msort_correct_witness :
  ∃ m' r ns', alpm_list_msort Z.sub 3 (Some 1%positive) 3 heap3 = Some (r, m') ∧
    is_list (cells m') r ns' ∧ ns' ≡ₚ nodes3 ∧
    ns'.*2 = AlpmList.alpm_list_msort Z.sub nodes3.*2 3 ∧
    same_except nodes3.*1 (cells heap3) (cells m').
Proof. exact (heap_msort_correct Z.sub heap3 _ _ heap3_list). Defined.

(** alpm_list_copy and alpm_list_reverse build a new list of the same
    data (in order, or reversed) out of unused cells and leave every existing
    cell as it was, the source list included although reverse cuts its back
    pointer on the way; if an allocation fails at any point they return NULL
    with the heap exactly restored: nothing leaks and the source is intact. *)
Theorem heap_copy_reverse_correct {D} (m : mem D) p ns :
  is_list (cells m) p ns →
  let ok r m' xs := ∃ cs, is_list (cells m') r cs ∧ cs.*2 = xs ∧
    same_except cs.*1 (cells m) (cells m') ∧ ∀ l, l ∈ cs.*1 → cells m !! l = None in
  (∃ m' r, alpm_list_copy (length ns) p m = Some (r, m') ∧
    ((cells m' = cells m ∧ r = None ∧ ns ≠ []) ∨ ok r m' ns.*2)) ∧
  (∃ m' r, alpm_list_reverse (length ns) p m = Some (r, m') ∧
    ((cells m' = cells m ∧ r = None ∧ ns ≠ []) ∨ ok r m' (reverse ns.*2))).
Proof. intros Hl. split; [by apply copy_ok|by apply reverse_ok]. Qed.

Lemma heap_copy_reverse_correct_witness :
  ∃ m' r, alpm_list_reverse 3 (Some 1%positive) heap3 = Some (r, m') ∧
    ((cells m' = cells heap3 ∧ r = None ∧ nodes3 ≠ []) ∨
     ∃ cs, is_list (cells m') r cs ∧ cs.*2 = [20; 10; 30]%Z ∧
       same_except cs.*1 (cells heap3) (cells m') ∧ ∀ l, l ∈ cs.*1 → cells heap3 !! l = None).
Proof. exact (proj2 (heap_copy_reverse_correct heap3 _ _ heap3_list)). Defined.

(** alpm_list_add_sorted, on a non-empty well-formed list and with memory
    available, links a new node before the first element that is not smaller,
    in each of its three cases (front, back, between), keeping the list
    well-formed and everything else unchanged. *)
Theorem heap_add_sorted_correct {D} (fn : D → D → Z) (m : mem D) p ns data :
  is_list (cells m) p ns → ns ≠ [] → head (oom m) ≠ Some true →
  ∃ m' p' l, alpm_list_add_sorted fn (length ns) p data m = Some (p', m') ∧
    cells m !! l = None ∧
    is_list (cells m') p' (AlpmList.alpm_list_add_sorted (fn2 fn) ns (l, data)) ∧
    same_except (l :: ns.*1) (cells m) (cells m').
Proof. intros Hl Hne Hoom. by apply add_sorted_ok. Qed.

Lemma heap_add_sorted_correct_witness :
  ∃ m' p' l, alpm_list_add_sorted Z.sub 3 (Some 1%positive) 25%Z heap3 = Some (p', m') ∧
    cells heap3 !! l = None ∧
    is_list (cells m') p' (AlpmList.alpm_list_add_sorted (fn2 Z.sub) nodes3 (l, 25%Z)) ∧
    same_except (l :: nodes3.*1) (cells heap3) (cells m').
Proof.
  apply (heap_add_sorted_correct Z.sub heap3 (Some 1%positive) nodes3 25%Z heap3_list); done.
Defined.
