(* ===== verification/Util.v ===== *)
(** * String and number helpers

    lib/libalpm/util.c, lib/libalpm/rawstr.c and src/common/util-common.c: the
    helpers the other components call. Functions that modify a buffer in place
    return its new contents. *)
From S2P Require Import Prelude CString.

(** ** rawstr.c *)
(** The cases of the switch of raw_toupper. *)
Definition toupper_cases : list (ascii * ascii) :=
  zip (str "abcdefghijklmnopqrstuvwxyz") (str "ABCDEFGHIJKLMNOPQRSTUVWXYZ").

Definition raw_toupper (c : ascii) : ascii :=
  match find_first (λ arm, Ascii.eqb c arm.1) toupper_cases with
  | Some arm => arm.2
  | None => c
  end.

#[global] Arguments raw_toupper : simpl never.

(** The loop stops at the end of either string or at the first difference;
    the result is the difference of the bytes there, as plain [char]s. *)
Fixpoint alpm_raw_cmp (first second : cstr) : Z :=
  match first, second with
  | c :: first', d :: second' =>
      if Ascii.eqb (raw_toupper c) (raw_toupper d) then alpm_raw_cmp first' second'
      else schr (raw_toupper c) - schr (raw_toupper d)
  | _, _ => schr (raw_toupper (hd_chr first)) - schr (raw_toupper (hd_chr second))
  end%Z.

Fixpoint alpm_raw_ncmp (first second : cstr) (max : nat) : Z :=
  match max with
  | O => 0
  | S max' =>
      match first, second with
      | c :: first', d :: second' =>
          if Ascii.eqb (raw_toupper c) (raw_toupper d) then alpm_raw_ncmp first' second' max'
          else schr (raw_toupper c) - schr (raw_toupper d)
      | _, _ => schr (raw_toupper (hd_chr first)) - schr (raw_toupper (hd_chr second))
      end
  end%Z.

(** ** util.c *)

(** _alpm_hash_sdbm: [hash = c + hash * 65599] in 64-bit unsigned arithmetic,
    [c] a sign-extended [char]; NULL hashes to 0. *)
Definition sdbm_step (hash : Z) (c : ascii) : Z := wrap64 (schr c + hash * 65599).
Definition alpm_hash_sdbm (s : cstr) : Z := fold_left sdbm_step s 0%Z.

(** _alpm_splitname. The version is found by walking back from the end with no
    check for the beginning of the string: when there are fewer than two
    hyphens to find, the code reads before the string ([SplitUB]). *)
Inductive split_result :=
  | SplitUB
  | SplitErr
  | SplitOk (name version : cstr) (name_hash : Z).

Definition alpm_splitname (target : cstr) : split_result :=
  let entry := match split_first "/"%char target with
               | Some (pre, _) => pre | None => target end in
  match split_last "-"%char entry with
  | None => SplitUB
  | Some (front, rel) =>
      match split_last "-"%char front with
      | None => SplitUB
      | Some ([], _) => SplitErr
      | Some (name, ver) =>
          SplitOk name (ver ++ "-"%char :: rel) (alpm_hash_sdbm name)
      end
  end.

(** _alpm_strtoofft: strtoull on a string that starts with a digit, then the
    conversion of the unsigned result to the signed 64-bit off_t. *)
Definition to_off_t (z : Z) : Z := if (z <? 2 ^ 63)%Z then z else (z - 2 ^ 64)%Z.

Definition alpm_strtoofft (line : cstr) : Z :=
  if negb (isdigit (hd_chr line)) then -1
  else
    let digits := take_while isdigit line in
    let rest := drop_while isdigit line in
    let result := digits_val digits in
    if (2 ^ 64 <=? result)%Z then -1
    else match rest with [] => to_off_t result | _ => -1 end.

(** _alpm_strip_newline with len = 0: the trimmed string. *)
Definition drop_while_end {A} (p : A → bool) (l : list A) : list A :=
  reverse (drop_while p (reverse l)).

Definition is_newline (c : ascii) : bool := Ascii.eqb c "010"%char.
Definition alpm_strip_newline (s : cstr) : cstr := drop_while_end is_newline s.

(** _alpm_fnmatch_patterns: the patterns from last to first; a leading '!'
    inverts a match, a leading backslash protects a literal first byte.
    [fnmatch] is the POSIX function, [true] for a match. *)
Fixpoint fnmatch_scan (fnmatch : cstr → cstr → bool) (rev_patterns : list cstr)
    (s : cstr) : Z :=
  match rev_patterns with
  | [] => -1
  | pattern :: rest =>
      let inverted := Ascii.eqb (hd_chr pattern) "!"%char in
      let pattern := if inverted || Ascii.eqb (hd_chr pattern) "\"%char
                     then tail pattern else pattern in
      if fnmatch pattern s then (if inverted then 1%Z else 0%Z)
      else fnmatch_scan fnmatch rest s
  end.

Definition alpm_fnmatch_patterns fnmatch (patterns : list cstr) (s : cstr) : Z :=
  fnmatch_scan fnmatch (reverse patterns) s.

(** _alpm_greedy_grow: [Some n] is the new size (the old one when the buffer
    is large enough), [None] the NULL result; sizes are size_t. *)
Definition alpm_greedy_grow (current required : Z) : option Z :=
  if (required <=? current)%Z then Some current
  else
    let newsize := if (current =? 0)%Z then required else wrap64 (current * 2) in
    if (newsize <? required)%Z then None else Some newsize.

(** ** util-common.c *)

(** strtrim: the buffer after the call. *)
Definition strtrim (s : cstr) : cstr :=
  drop_while_end isspace (drop_while isspace s).

Definition mbasename (path : cstr) : cstr :=
  match split_last "/"%char path with Some (_, base) => base | None => path end.

Definition mdirname (path : option cstr) : cstr :=
  match path with
  | None | Some [] => str "."
  | Some p =>
      match split_last "/"%char p with
      | Some ([], _) => str "/"
      | Some (dir, _) => dir
      | None => str "."
      end
  end.

Definition hex_digits : cstr := str "0123456789abcdef".
Definition hex_digit (n : Z) : ascii := nth (Z.to_nat n) hex_digits NUL.

Definition hex_representation (bytes : list ascii) : cstr :=
  flat_map (λ b, [hex_digit (Z.shiftr (uchr b) 4); hex_digit (Z.land (uchr b) 15)]) bytes.

(** The path llstat passes to lstat: trailing slashes cut, one byte kept. *)
Definition is_slash (c : ascii) : bool := Ascii.eqb c "/"%char.

Definition llstat_path (path : cstr) : cstr :=
  match path with
  | [] => []
  | c :: path' => c :: drop_while_end is_slash path'
  end.

(** ** Facts *)
Lemma raw_toupper_idem c : raw_toupper (raw_toupper c) = raw_toupper c.
Proof. by_byte c. Qed.

Lemma schr_inj c d : schr c = schr d → c = d.
Proof.
  unfold schr. pose proof (uchr_range c). pose proof (uchr_range d).
  intros H1. apply uchr_inj. revert H1.
  destruct (Z.ltb_spec (uchr c) 128), (Z.ltb_spec (uchr d) 128); lia.
Qed.

Lemma raw_toupper_NUL c : raw_toupper c = NUL ↔ c = NUL.
Proof. split; [|by intros ->]. by_byte c. Qed.

Lemma raw_toupper_end : schr (raw_toupper NUL) = 0%Z.
Proof. reflexivity. Qed.

Lemma raw_cmp_refl s : alpm_raw_cmp s s = 0%Z.
Proof. induction s as [|c s IH]; simpl; [lia|]. by rewrite Ascii.eqb_refl. Qed.

Lemma raw_cmp_eq a b :
  NUL ∉ a → NUL ∉ b →
  alpm_raw_cmp a b = 0%Z ↔ map raw_toupper a = map raw_toupper b.
Proof.
  pose proof raw_toupper_end as Hend. revert b. induction a as [|c a IH]; intros [|d b] Ha Hb; simpl.
  - done.
  - split; [|done]. intros H. exfalso.
    assert (raw_toupper d = NUL) as H1 by (apply schr_inj; change (schr NUL) with 0%Z; lia).
    apply raw_toupper_NUL in H1 as ->. by apply Hb; left.
  - split; [|done]. intros H. exfalso.
    assert (raw_toupper c = NUL) as H1 by (apply schr_inj; change (schr NUL) with 0%Z; lia).
    apply raw_toupper_NUL in H1 as ->. by apply Ha; left.
  - destruct (Ascii.eqb_spec (raw_toupper c) (raw_toupper d)) as [E|E].
    + rewrite not_elem_of_cons in Ha, Hb. rewrite IH by tauto. rewrite E. split; [by intros ->|by intros [= ->]].
    + split; [|by intros [= ? ?]]. intros H. exfalso. apply E, schr_inj. lia.
Qed.

Lemma raw_cmp_antisym a b : alpm_raw_cmp b a = (- alpm_raw_cmp a b)%Z.
Proof.
  revert b. induction a as [|c a IH]; intros [|d b]; simpl; try lia.
  rewrite Ascii.eqb_sym. destruct (Ascii.eqb _ _); [apply IH|lia].
Qed.

Lemma drop_while_end_snoc {A} (p : A → bool) l x :
  drop_while_end p (l ++ [x]) = if p x then drop_while_end p l else l ++ [x].
Proof.
  unfold drop_while_end. rewrite reverse_app. simpl.
  destruct (p x); [done|]. simpl. by rewrite reverse_cons, reverse_involutive.
Qed.

Lemma drop_while_end_prefix {A} (p : A → bool) l :
  ∃ t, l = drop_while_end p l ++ t ∧ Forall (λ x, p x = true) t.
Proof.
  unfold drop_while_end. exists (reverse (take_while p (reverse l))).
  rewrite <-reverse_app, take_drop_while, reverse_involutive. split; [done|].
  apply Forall_reverse, take_while_Forall.
Qed.

Lemma hash_range s : (0 <= alpm_hash_sdbm s < 2 ^ 64)%Z.
Proof.
  unfold alpm_hash_sdbm. destruct s as [|c s _] using rev_ind; [done|].
  rewrite fold_left_app. simpl. unfold sdbm_step, wrap64. apply Z.mod_pos_bound. done.
Qed.

(** The entry name before the first slash, which is where _alpm_splitname
    starts walking back. *)
Lemma entry_of_path entry rest :
  "/"%char ∉ entry → rest = [] ∨ hd_chr rest = "/"%char →
  match split_first "/"%char (entry ++ rest) with
  | Some (pre, _) => pre | None => entry ++ rest end = entry.
Proof.
  intros Ht [->|Hr].
  - rewrite app_nil_r. by rewrite (proj2 (split_first_None _ _)).
  - destruct rest as [|c rest]; [done|]. simpl in Hr. subst c.
    by rewrite (proj2 (split_first_Some _ _ entry rest)).
Qed.

Lemma split_last_app c pre post :
  c ∉ post → split_last c (pre ++ c :: post) = Some (pre, post).
Proof. intros. by apply split_last_Some. Qed.

Lemma digits_then (s t : cstr) :
  Forall (λ c, isdigit c = true) s → isdigit (hd_chr t) = false →
  take_while isdigit (s ++ t) = s ∧ drop_while isdigit (s ++ t) = t.
Proof.
  intros Hs Ht. induction Hs as [|c s Hc Hs [IH1 IH2]]; simpl.
  - destruct t; [done|]. simpl in *. by rewrite Ht.
  - rewrite Hc. by rewrite IH1, IH2.
Qed.

(** ** Properties *)

(** _alpm_splitname inverts the naming of database entries: on
    [name-version-release], alone or followed by a slash and any path, it
    returns the name, the full version and the hash of the name; the name may
    itself contain hyphens. *)
Theorem splitname_roundtrip name ver rel rest :
  name ≠ [] →
  "-"%char ∉ ver → "-"%char ∉ rel →
  "/"%char ∉ name → "/"%char ∉ ver → "/"%char ∉ rel →
  rest = [] ∨ hd_chr rest = "/"%char →
  alpm_splitname (name ++ "-"%char :: ver ++ "-"%char :: rel ++ rest) =
  SplitOk name (ver ++ "-"%char :: rel) (alpm_hash_sdbm name).
Proof.
  intros Hn Hv Hr Sn Sv Sr Hrest.
  assert (name ++ "-"%char :: ver ++ "-"%char :: rel ++ rest =
          ((name ++ "-"%char :: ver) ++ "-"%char :: rel) ++ rest) as ->
    by by rewrite <-!app_assoc.
  unfold alpm_splitname. rewrite entry_of_path; [|set_solver|done].
  rewrite split_last_app, split_last_app by done. by destruct name.
Qed.

Lemma splitname_roundtrip_witness :
  alpm_splitname (str "gcc-libs" ++ "-"%char :: str "1:13.2" ++ "-"%char :: str "4" ++ str "/desc")
  = SplitOk (str "gcc-libs") (str "1:13.2-4") (alpm_hash_sdbm (str "gcc-libs")).
Proof.
  apply (splitname_roundtrip (str "gcc-libs") (str "1:13.2") (str "4") (str "/desc"));
    try (vm_compute; set_solver).
Defined.

(** _alpm_strtoofft on a string of decimal digits: the value below 2^63,
    the wrapped (negative) value from there to 2^64, and -1 beyond; any
    trailing byte and any leading non-digit, sign and white space included,
    gives -1. *)
Theorem strtoofft_decimal (ds : cstr) :
  ds ≠ [] → Forall (λ c, isdigit c = true) ds →
  alpm_strtoofft ds =
    (if digits_val ds <? 2 ^ 63 then digits_val ds
     else if digits_val ds <? 2 ^ 64 then digits_val ds - 2 ^ 64 else -1)%Z ∧
  (∀ c t, isdigit c = false → alpm_strtoofft (ds ++ c :: t) = (-1)%Z) ∧
  (∀ c t, isdigit c = false → alpm_strtoofft (c :: t) = (-1)%Z).
Proof.
  intros Hne Hd. assert (isdigit (hd_chr ds) = true) as Hh
    by (by destruct Hd).
  split_and!.
  - destruct (digits_then ds [] Hd) as [H1 H2]; [done|]. rewrite app_nil_r in H1, H2.
    unfold alpm_strtoofft. rewrite Hh, H1, H2. simpl negb. unfold to_off_t.
    destruct (Z.leb_spec (2 ^ 64) (digits_val ds)), (Z.ltb_spec (digits_val ds) (2 ^ 64)),
      (Z.ltb_spec (digits_val ds) (2 ^ 63)); try lia; done.
  - intros c t Hc. destruct (digits_then ds (c :: t) Hd) as [H1 H2]; [done|].
    unfold alpm_strtoofft. rewrite H1, H2.
    assert (hd_chr (ds ++ c :: t) = hd_chr ds) as -> by (by destruct ds).
    rewrite Hh. cbn [negb]. cbv zeta. by destruct (_ <=? _)%Z.
  - intros c t Hc. unfold alpm_strtoofft. simpl. by rewrite Hc.
Qed.

Lemma strtoofft_decimal_witness :
  alpm_strtoofft (str "9223372036854775808") = (- 2 ^ 63)%Z ∧
  alpm_strtoofft (str "18446744073709551616") = (-1)%Z.
Proof.
  split.
  - rewrite (proj1 (strtoofft_decimal (str "9223372036854775808") ltac:(done)
      ltac:(repeat constructor))). reflexivity.
  - rewrite (proj1 (strtoofft_decimal (str "18446744073709551616") ltac:(done)
      ltac:(repeat constructor))). reflexivity.
Defined.

(** alpm's case-insensitive comparison is 0 exactly on strings equal up
    to ASCII case, and swapping its arguments negates it. *)
Theorem raw_cmp_correct a b :
  NUL ∉ a → NUL ∉ b →
  (alpm_raw_cmp a b = 0%Z ↔ map raw_toupper a = map raw_toupper b) ∧
  alpm_raw_cmp b a = (- alpm_raw_cmp a b)%Z.
Proof. intros. split; [by apply raw_cmp_eq|apply raw_cmp_antisym]. Qed.

Lemma raw_cmp_correct_witness :
  alpm_raw_cmp (str "NEVER") (str "never") = 0%Z.
Proof. apply raw_cmp_correct; vm_compute; set_solver. Defined.
