(* ===== verification/Package.v ===== *)
(** * Packages and dependencies

    lib/libalpm/package.h, package.c, backup.c: the package record, duplication,
    comparison, search, metadata checks. A package is a C object with an
    identity, so the record carries its address [pkg_addr]; two list nodes hold
    the same package when the addresses agree. The file list, backup list and
    dependency lists are plain lists. Memory exhaustion is not modelled. *)
From S2P Require Import Prelude CString Version AlpmList Util.

(** ** Data *)

(** alpm_depmod_t, with the numbering of alpm.h. *)
Inductive alpm_depmod_t :=
  | ALPM_DEP_MOD_ANY | ALPM_DEP_MOD_EQ | ALPM_DEP_MOD_GE
  | ALPM_DEP_MOD_LE | ALPM_DEP_MOD_GT | ALPM_DEP_MOD_LT.

#[export] Instance depmod_eq_dec : EqDecision alpm_depmod_t.
Proof. solve_decision. Defined.

Record alpm_depend_t := mk_depend {
  dep_name : cstr;
  dep_version : option cstr;
  dep_desc : option cstr;
  dep_name_hash : Z;
  dep_mod : alpm_depmod_t
}.

#[export] Instance depend_eq_dec : EqDecision alpm_depend_t.
Proof. solve_decision. Defined.

Record alpm_file_t := mk_file { file_name : cstr; file_size : Z; file_mode : Z }.

Record alpm_backup_t := mk_backup { backup_name : cstr; backup_hash : option cstr }.

Record alpm_pkg_xdata_t := mk_xdata { xdata_name : cstr; xdata_value : cstr }.

Inductive alpm_pkgreason_t :=
  | ALPM_PKG_REASON_EXPLICIT | ALPM_PKG_REASON_DEPEND | ALPM_PKG_REASON_UNKNOWN.

#[export] Instance reason_eq_dec : EqDecision alpm_pkgreason_t.
Proof. solve_decision. Defined.

(** [origin] and the union [origin_data]: the file, or the database by its
    treename. *)
Inductive alpm_pkgfrom_t :=
  | ALPM_PKG_FROM_FILE (file : option cstr)
  | ALPM_PKG_FROM_LOCALDB (db : cstr)
  | ALPM_PKG_FROM_SYNCDB (db : cstr).

#[export] Instance pkgfrom_eq_dec : EqDecision alpm_pkgfrom_t.
Proof. solve_decision. Defined.

(** struct _alpm_pkg_t. [removes] and [oldpkg] are set in transaction targets
    only. *)
#[warnings="-register-all"]
Inductive alpm_pkg_t := mk_pkg {
  pkg_addr : nat;
  pkg_name_hash : Z;
  pkg_filename : option cstr;
  pkg_base : option cstr;
  pkg_name : cstr;
  pkg_version : cstr;
  pkg_desc : option cstr;
  pkg_url : option cstr;
  pkg_packager : option cstr;
  pkg_sha256sum : option cstr;
  pkg_base64_sig : option cstr;
  pkg_arch : option cstr;
  pkg_builddate : Z;
  pkg_installdate : Z;
  pkg_size : Z;
  pkg_isize : Z;
  pkg_download_size : Z;
  pkg_licenses : list cstr;
  pkg_replaces : list alpm_depend_t;
  pkg_groups : list cstr;
  pkg_backup : list alpm_backup_t;
  pkg_depends : list alpm_depend_t;
  pkg_optdepends : list alpm_depend_t;
  pkg_checkdepends : list alpm_depend_t;
  pkg_makedepends : list alpm_depend_t;
  pkg_conflicts : list alpm_depend_t;
  pkg_provides : list alpm_depend_t;
  pkg_removes : list alpm_pkg_t;
  pkg_oldpkg : option alpm_pkg_t;
  pkg_files : list alpm_file_t;
  pkg_origin : alpm_pkgfrom_t;
  pkg_reason : alpm_pkgreason_t;
  pkg_scriptlet : Z;
  pkg_xdata : list alpm_pkg_xdata_t;
  pkg_infolevel : Z;
  pkg_validation : Z
}.

(** _alpm_pkg_new: calloc. *)
Definition alpm_pkg_new (addr : nat) : alpm_pkg_t :=
  {| pkg_addr := addr; pkg_name_hash := 0; pkg_filename := None; pkg_base := None;
     pkg_name := []; pkg_version := []; pkg_desc := None; pkg_url := None;
     pkg_packager := None; pkg_sha256sum := None; pkg_base64_sig := None;
     pkg_arch := None; pkg_builddate := 0; pkg_installdate := 0; pkg_size := 0;
     pkg_isize := 0; pkg_download_size := 0; pkg_licenses := []; pkg_replaces := [];
     pkg_groups := []; pkg_backup := []; pkg_depends := []; pkg_optdepends := [];
     pkg_checkdepends := []; pkg_makedepends := []; pkg_conflicts := [];
     pkg_provides := []; pkg_removes := []; pkg_oldpkg := None; pkg_files := [];
     pkg_origin := ALPM_PKG_FROM_FILE None; pkg_reason := ALPM_PKG_REASON_EXPLICIT;
     pkg_scriptlet := 0; pkg_xdata := []; pkg_infolevel := 0; pkg_validation := 0 |}.

(** A package with the fields dependency resolution looks at, used in the
    examples. *)
Definition simple_pkg (addr : nat) (name version : cstr)
    (depends provides conflicts : list alpm_depend_t) (reason : alpm_pkgreason_t)
    : alpm_pkg_t :=
  mk_pkg addr (alpm_hash_sdbm name) None None name version None None None None None None
    0 0 0 0 0 [] [] [] [] depends [] [] [] conflicts provides [] None []
    (ALPM_PKG_FROM_LOCALDB (str "local")) reason 0 [] 0 0.

(** Pointer comparison. *)
Definition ptr_eq (p q : alpm_pkg_t) : bool := Nat.eqb (pkg_addr p) (pkg_addr q).

Definition alpm_list_find_ptr (l : list alpm_pkg_t) (p : alpm_pkg_t) : bool :=
  existsb (ptr_eq p) l.

(** ** Operations of package.c *)

Definition alpm_pkg_cmp (p1 p2 : alpm_pkg_t) : Z := strcmp (pkg_name p1) (pkg_name p2).

Definition alpm_pkg_compare_versions (spkg localpkg : alpm_pkg_t) : Z :=
  alpm_pkg_vercmp (Some (pkg_version spkg)) (Some (pkg_version localpkg)).

Definition name_match (name_hash : Z) (name : cstr) (info : alpm_pkg_t) : bool :=
  (pkg_name_hash info =? name_hash)%Z && streq (pkg_name info) name.

(** alpm_pkg_find: the first package with the hash and the name. *)
Fixpoint alpm_pkg_find (haystack : list alpm_pkg_t) (needle : cstr) : option alpm_pkg_t :=
  match haystack with
  | [] => None
  | info :: rest =>
      if negb (pkg_name_hash info =? alpm_hash_sdbm needle)%Z then alpm_pkg_find rest needle
      else if streq (pkg_name info) needle then Some info
      else alpm_pkg_find rest needle
  end.

(** alpm_pkg_should_ignore. alpm_list_find(patterns, s, _alpm_fnmatch) calls
    _alpm_fnmatch(pattern, s) for each pattern; [fnmatch pat s] is [true] for a
    match. *)
Definition alpm_pkg_should_ignore (fnmatch : cstr → cstr → bool)
    (ignorepkg ignoregroup : list cstr) (pkg : alpm_pkg_t) : bool :=
  existsb (λ pat, fnmatch pat (pkg_name pkg)) ignorepkg
  || existsb (λ grp, existsb (λ pat, fnmatch pat grp) ignoregroup) (pkg_groups pkg).

Definition count_char (c : ascii) (s : cstr) : nat :=
  length (filter (λ d, d = c) s).

Definition NAME_MAX : nat := 255.

(** _alpm_pkg_check_meta: 0 when the metadata is acceptable, else -1. The name
    is the pattern of the _alpm_fnmatch call and the bracket expression the
    string, as the call is written. *)
Definition alpm_pkg_check_meta (fnmatch : cstr → cstr → bool)
    (name version : option cstr) : Z :=
  match name, version with
  | Some ((n0 :: _) as name), Some ((v0 :: _) as version) =>
      if (Ascii.eqb n0 "-" || Ascii.eqb n0 ".")%char
         || fnmatch name (str "[![:alnum:]+_.@-]")
         || match split_first "-"%char version with
            | Some (_, c) => match split_first "-"%char c with Some _ => true | None => false end
            | None => false
            end
         || match split_first "/"%char version with Some _ => true | None => false end
         || Nat.ltb NAME_MAX (length name + length version + 1)
      then -1 else 0
  | _, _ => -1
  end%Z.

(** _alpm_pkg_parse_xdata *)
Definition alpm_pkg_parse_xdata (string : option cstr) : option alpm_pkg_xdata_t :=
  match string with
  | None => None
  | Some s =>
      match split_first "="%char s with
      | Some (n, v) => Some (mk_xdata n v)
      | None => None
      end
  end.

Definition xdata_string (x : alpm_pkg_xdata_t) : cstr :=
  xdata_name x ++ "="%char :: xdata_value x.

(** _alpm_dep_dup, list_depdup *)
Definition alpm_dep_dup (dep : alpm_depend_t) : alpm_depend_t :=
  {| dep_name := dep_name dep; dep_version := dep_version dep; dep_desc := dep_desc dep;
     dep_name_hash := dep_name_hash dep; dep_mod := dep_mod dep |}.

Definition list_depdup (old : list alpm_depend_t) : list alpm_depend_t :=
  map alpm_dep_dup old.

Definition alpm_file_copy (src : alpm_file_t) : alpm_file_t :=
  mk_file (file_name src) (file_size src) (file_mode src).

Definition alpm_backup_dup (b : alpm_backup_t) : alpm_backup_t :=
  mk_backup (backup_name b) (backup_hash b).

(** _alpm_pkg_dup of a package whose metadata is loaded, at a fresh address:
    the fields the function assigns, over a calloc'd record. *)
Definition alpm_pkg_dup (addr : nat) (pkg : alpm_pkg_t) : alpm_pkg_t :=
  let z := alpm_pkg_new addr in
  {| pkg_addr := addr;
     pkg_name_hash := pkg_name_hash pkg;
     pkg_filename := pkg_filename pkg;
     pkg_base := pkg_base pkg;
     pkg_name := pkg_name pkg;
     pkg_version := pkg_version pkg;
     pkg_desc := pkg_desc pkg;
     pkg_url := pkg_url pkg;
     pkg_packager := pkg_packager pkg;
     pkg_sha256sum := pkg_sha256sum pkg;
     pkg_base64_sig := pkg_base64_sig z;
     pkg_arch := pkg_arch pkg;
     pkg_builddate := pkg_builddate pkg;
     pkg_installdate := pkg_installdate pkg;
     pkg_size := pkg_size pkg;
     pkg_isize := pkg_isize pkg;
     pkg_download_size := pkg_download_size z;
     pkg_licenses := pkg_licenses pkg;
     pkg_replaces := list_depdup (pkg_replaces pkg);
     pkg_groups := pkg_groups pkg;
     pkg_backup := map alpm_backup_dup (pkg_backup pkg);
     pkg_depends := list_depdup (pkg_depends pkg);
     pkg_optdepends := list_depdup (pkg_optdepends pkg);
     pkg_checkdepends := pkg_checkdepends z;
     pkg_makedepends := pkg_makedepends z;
     pkg_conflicts := list_depdup (pkg_conflicts pkg);
     pkg_provides := list_depdup (pkg_provides pkg);
     pkg_removes := pkg_removes z;
     pkg_oldpkg := pkg_oldpkg z;
     pkg_files := map alpm_file_copy (pkg_files pkg);
     pkg_origin := pkg_origin pkg;
     pkg_reason := pkg_reason pkg;
     pkg_scriptlet := pkg_scriptlet pkg;
     pkg_xdata := pkg_xdata z;
     pkg_infolevel := pkg_infolevel pkg;
     pkg_validation := pkg_validation pkg |}.

(** ** backup.c *)

(** _alpm_split_backup *)
Definition alpm_split_backup (string : cstr) : alpm_backup_t :=
  match split_first "009"%char string with
  | None => mk_backup string None
  | Some (file, hash) => mk_backup file (Some hash)
  end.

Definition backup_string (b : alpm_backup_t) : cstr :=
  backup_name b ++ match backup_hash b with
                   | None => [] | Some h => "009"%char :: h end.

(** _alpm_needbackup *)
Definition alpm_needbackup (file : cstr) (pkg : alpm_pkg_t) : option alpm_backup_t :=
  find (λ b, streq file (backup_name b)) (pkg_backup pkg).

(** ** Well-formedness *)

(** The hash stored with a name is the hash of that name. *)
Definition pkg_hash_ok (p : alpm_pkg_t) : Prop :=
  pkg_name_hash p = alpm_hash_sdbm (pkg_name p).
Definition dep_hash_ok (d : alpm_depend_t) : Prop :=
  dep_name_hash d = alpm_hash_sdbm (dep_name d).

Definition hashes_ok (l : list alpm_pkg_t) : Prop := Forall pkg_hash_ok l.

(** A set of package pointers, where each address holds one package. *)
Definition coherent (l : list alpm_pkg_t) : Prop :=
  ∀ p q, p ∈ l → q ∈ l → pkg_addr p = pkg_addr q → p = q.

Definition same_name (n : cstr) (p : alpm_pkg_t) : bool := streq (pkg_name p) n.

(** ** Facts *)
Lemma dep_dup_id d : alpm_dep_dup d = d.
Proof. by destruct d. Qed.
Lemma list_depdup_id l : list_depdup l = l.
Proof. unfold list_depdup. induction l as [|d l IH]; simpl; [done|]. by rewrite dep_dup_id, IH. Qed.

#[export] Hint Rewrite dep_dup_id list_depdup_id : alpm_simpl.

Lemma name_match_ok n p :
  pkg_hash_ok p → name_match (alpm_hash_sdbm n) n p = same_name n p.
Proof.
  intros Hp. unfold name_match, same_name. rewrite Hp.
  destruct (streq (pkg_name p) n) eqn:E; [|by rewrite andb_false_r].
  apply streq_true in E as ->. by rewrite Z.eqb_refl.
Qed.

Lemma pkg_find_match l n :
  alpm_pkg_find l n = find_first (name_match (alpm_hash_sdbm n) n) l.
Proof.
  induction l as [|p l IH]; simpl; [done|]. unfold name_match at 1.
  destruct (_ =? _)%Z; simpl; [|done]. by destruct (streq _ _).
Qed.

(** On lists with correct hashes, the hash test is only a short cut. *)
Lemma pkg_find_name l n :
  hashes_ok l → alpm_pkg_find l n = find_first (same_name n) l.
Proof.
  rewrite pkg_find_match. induction 1 as [|p l Hp Hl IH]; simpl; [done|].
  by rewrite name_match_ok, IH.
Qed.

Lemma pkg_find_Some l n p :
  alpm_pkg_find l n = Some p → p ∈ l ∧ pkg_name p = n.
Proof.
  rewrite pkg_find_match. intros [Hin H]%find_first_Some. split; [done|].
  unfold name_match in H. bool_prop. by apply streq_true.
Qed.

Lemma pkg_find_None l n :
  hashes_ok l → alpm_pkg_find l n = None ↔ n ∉ map pkg_name l.
Proof.
  intros Hl. rewrite pkg_find_name by done. rewrite find_first_None. split.
  - intros H (p & -> & Hp)%list_elem_of_fmap. specialize (H p Hp).
    unfold same_name in H. by rewrite streq_refl in H.
  - intros H p Hp. unfold same_name. apply streq_false. intros <-.
    apply H, list_elem_of_fmap. eauto.
Qed.

Lemma pkg_find_is_Some l n :
  hashes_ok l → is_Some (alpm_pkg_find l n) ↔ n ∈ map pkg_name l.
Proof.
  intros Hl. pose proof (pkg_find_None l n Hl) as HN.
  destruct (alpm_pkg_find l n) as [p|] eqn:E.
  - split; [|by eauto]. intros _. apply pkg_find_Some in E as [Hp <-].
    by apply list_elem_of_fmap_2.
  - split; [by intros [? ?]|]. intros H. by apply HN in H.
Qed.

Lemma find_ptr_spec l p :
  alpm_list_find_ptr l p = true ↔ ∃ q, q ∈ l ∧ pkg_addr q = pkg_addr p.
Proof.
  unfold alpm_list_find_ptr. rewrite existsb_exists. split.
  - intros (q & Hq%list_elem_of_In & H). exists q. split; [done|].
    unfold ptr_eq in H. by apply Nat.eqb_eq in H.
  - intros (q & Hq & H). exists q. split; [by apply list_elem_of_In|].
    unfold ptr_eq. by apply Nat.eqb_eq.
Qed.

#[export] Instance pkg_cmp_order : CmpOrder alpm_pkg_cmp.
Proof. apply (cmp_order_on pkg_name strcmp), _. Qed.

Lemma split_first_hyphen s :
  split_first "-"%char s = None ∨
  ∃ a b, s = a ++ "-"%char :: b ∧ "-"%char ∉ a ∧ split_first "-"%char s = Some (a, b).
Proof.
  destruct (split_first _ s) as [[a b]|] eqn:E; [right|by left].
  exists a, b. apply split_first_Some in E as E'. naive_solver.
Qed.

(** What an accepted version looks like: at most one hyphen, no slash. *)
Lemma check_meta_ok fnmatch name version :
  alpm_pkg_check_meta fnmatch (Some name) (Some version) = 0%Z →
  name ≠ [] ∧ hd_chr name ≠ "-"%char ∧ hd_chr name ≠ "."%char ∧ "/"%char ∉ version ∧
  (length name + length version + 1 <= NAME_MAX) ∧
  ("-"%char ∉ version ∨
   ∃ ver rel, version = ver ++ "-"%char :: rel ∧ "-"%char ∉ ver ∧ "-"%char ∉ rel).
Proof.
  unfold alpm_pkg_check_meta.
  destruct name as [|n0 name]; [done|]. destruct version as [|v0 version]; [done|].
  match goal with |- context [if ?b then _ else _] => destruct b eqn:E end; [done|].
  intros _. bool_prop.
  assert ("/"%char ∉ v0 :: version) as Hs.
  { apply split_first_None. by destruct (split_first "/"%char _). }
  split_and!; try done.
  - simpl. intros ->. by rewrite Ascii.eqb_refl in *.
  - simpl. intros ->. by rewrite Ascii.eqb_refl in *.
  - destruct (split_first_hyphen (v0 :: version)) as [Hn|(a & b & Heq & Ha & Hab)].
    + left. by apply split_first_None.
    + right. exists a, b. split_and!; [done..|]. apply split_first_None.
      match goal with H : match split_first "-"%char _ with _ => _ end = false |- _ =>
        rewrite Hab in H; by destruct (split_first _ b) end.
Qed.

(** ** Properties *)

(** Names of local database entries can be read back: for a package
    whose metadata _alpm_pkg_check_meta accepts, whose version has the usual
    version-release form and whose name has no slash, _alpm_splitname recovers
    name, version and name hash from the entry <name>-<version>, and the entry
    fits in NAME_MAX bytes. *)
Theorem checked_entry_roundtrip fnmatch name version :
  alpm_pkg_check_meta fnmatch (Some name) (Some version) = 0%Z →
  "-"%char ∈ version → "/"%char ∉ name →
  alpm_splitname (name ++ "-"%char :: version) =
    SplitOk name version (alpm_hash_sdbm name) ∧
  length (name ++ "-"%char :: version) <= NAME_MAX.
Proof.
  intros (Hn & _ & _ & Hs & Hlen & [H|(ver & rel & -> & Hv & Hr)])%check_meta_ok Hh Hsn;
    [done|].
  split.
  - pose proof (entry_of_path (name ++ "-"%char :: ver ++ "-"%char :: rel) []) as He.
    rewrite app_nil_r in He. unfold alpm_splitname. rewrite He; [|set_solver|by left].
    assert (name ++ "-"%char :: ver ++ "-"%char :: rel =
            (name ++ "-"%char :: ver) ++ "-"%char :: rel) as -> by by rewrite <-app_assoc.
    rewrite !split_last_app by done. by destruct name.
  - rewrite length_app. simpl. lia.
Qed.

Lemma checked_entry_roundtrip_witness :
  alpm_splitname (str "gcc-libs" ++ "-"%char :: str "13.2-4") =
    SplitOk (str "gcc-libs") (str "13.2-4") (alpm_hash_sdbm (str "gcc-libs")).
Proof.
  apply (checked_entry_roundtrip (λ _ _, false) (str "gcc-libs") (str "13.2-4")).
  - reflexivity.
  - vm_compute. set_solver.
  - vm_compute. set_solver.
Defined.

(** The bytes that give a pattern of POSIX fnmatch a special meaning. *)
Definition fnmatch_special (c : ascii) : bool :=
  existsb (Ascii.eqb c) (str "*?[\").

(** The check for invalid characters passes the name as the pattern and
    the character class as the string: for every fnmatch in which a pattern
    without special bytes matches only itself, any name free of special bytes
    is accepted, slashes, blanks and control bytes included. *)
Theorem check_meta_accepts_invalid fnmatch name version :
  (∀ pat s, Forall (λ c, fnmatch_special c = false) pat →
            fnmatch pat s = true → pat = s) →
  name ≠ [] → hd_chr name ≠ "-"%char → hd_chr name ≠ "."%char →
  Forall (λ c, fnmatch_special c = false) name →
  version ≠ [] → "-"%char ∉ version → "/"%char ∉ version →
  length name + length version + 1 <= NAME_MAX →
  alpm_pkg_check_meta fnmatch (Some name) (Some version) = 0%Z.
Proof.
  intros Hfn Hn H1 H2 Hsp Hv Hv1 Hv2 Hlen. unfold alpm_pkg_check_meta.
  destruct name as [|n0 name]; [done|]. destruct version as [|v0 version]; [done|].
  simpl in H1, H2.
  rewrite (proj2 (Ascii.eqb_neq _ _) H1), (proj2 (Ascii.eqb_neq _ _) H2).
  rewrite (proj2 (split_first_None _ _) Hv1), (proj2 (split_first_None _ _) Hv2).
  rewrite (proj2 (Nat.ltb_ge _ _)) by done.
  destruct (fnmatch _ _) eqn:E; [|done]. exfalso.
  rewrite (Hfn _ _ Hsp E) in Hsp. inversion Hsp as [|? ? H _]. done.
Qed.

Lemma check_meta_accepts_invalid_witness :
  alpm_pkg_check_meta streq (Some (str "a b/../c")) (Some (str "1")) = 0%Z.
Proof.
  apply (check_meta_accepts_invalid streq).
  - intros pat s _ H. by apply streq_true.
  - done.
  - done.
  - done.
  - repeat constructor.
  - done.
  - vm_compute. set_solver.
  - vm_compute. set_solver.
  - vm_compute. lia.
Defined.

(** alpm_pkg_find: with correct name hashes the result is the first
    package of the list with the given name, and NULL exactly when no package
    has it; the hash test changes nothing. *)
Theorem pkg_find_correct l n :
  hashes_ok l →
  alpm_pkg_find l n = find_first (same_name n) l ∧
  (alpm_pkg_find l n = None ↔ n ∉ map pkg_name l).
Proof. intros Hl. split; [by apply pkg_find_name|by apply pkg_find_None]. Qed.

(** Splitting a backup entry and an xdata entry inverts their printing:
    file TAB hash, and name=value. *)
Theorem backup_xdata_roundtrip b x :
  "009"%char ∉ backup_name b → "="%char ∉ xdata_name x →
  alpm_split_backup (backup_string b) = b ∧
  alpm_pkg_parse_xdata (Some (xdata_string x)) = Some x.
Proof.
  intros Hb Hx. destruct b as [f h], x as [n v]. simpl in *. split.
  - unfold alpm_split_backup, backup_string. simpl. destruct h as [h|].
    + by rewrite (proj2 (split_first_Some _ _ f h)).
    + rewrite app_nil_r. by rewrite (proj2 (split_first_None _ _)).
  - unfold xdata_string. simpl. by rewrite (proj2 (split_first_Some _ _ n v)).
Qed.

Lemma backup_xdata_roundtrip_witness :
  alpm_split_backup (backup_string (mk_backup (str "etc/fstab") (Some (str "d41d"))))
    = mk_backup (str "etc/fstab") (Some (str "d41d")).
Proof.
  apply (backup_xdata_roundtrip _ (mk_xdata (str "pkgtype") (str "pkg")));
    vm_compute; set_solver.
Defined.

(** _alpm_pkg_dup yields a package with its own address that agrees with
    the original on every field but the signature, the download size, the
    check- and make-dependencies, the extended data and the transaction
    fields, which start empty. *)
Theorem pkg_dup_correct addr p :
  let q := alpm_pkg_dup addr p in
  pkg_addr q = addr ∧
  pkg_name q = pkg_name p ∧ pkg_name_hash q = pkg_name_hash p ∧
  pkg_version q = pkg_version p ∧ pkg_reason q = pkg_reason p ∧
  pkg_depends q = pkg_depends p ∧ pkg_optdepends q = pkg_optdepends p ∧
  pkg_conflicts q = pkg_conflicts p ∧ pkg_provides q = pkg_provides p ∧
  pkg_replaces q = pkg_replaces p ∧ pkg_backup q = pkg_backup p ∧
  pkg_files q = pkg_files p ∧ pkg_origin q = pkg_origin p ∧
  pkg_groups q = pkg_groups p ∧
  pkg_base64_sig q = None ∧ pkg_download_size q = 0%Z ∧
  pkg_checkdepends q = [] ∧ pkg_makedepends q = [] ∧ pkg_xdata q = [] ∧
  pkg_removes q = [] ∧ pkg_oldpkg q = None.
Proof.
  unfold alpm_pkg_dup. simpl. rewrite !list_depdup_id.
  split_and!; try done.
  - rewrite <-(map_id (pkg_backup p)) at 2. apply map_ext. by intros [].
  - rewrite <-(map_id (pkg_files p)) at 2. apply map_ext. by intros [].
Qed.
