(* ===== verification/PkgHash.v ===== *)
(** * The package hash table

    lib/libalpm/pkghash.c: an open-addressing table with linear probing, whose
    buckets point into a list of the same packages. A list node is identified
    with the package it holds, since every node of the cache holds a different
    one. Sizes are computed in binary64, as the code does ([SpecFloat]). The
    probe loops take the number of buckets as fuel: a loop that has visited
    every bucket without stopping never stops, and gives [None]. *)
From Stdlib Require Import SpecFloat.
From S2P Require Import Prelude CString AlpmList Util Package.

(** ** Sizes *)
Local Open Scope Z_scope.

Definition prime_list : list Z :=
  [11; 13; 17; 19; 23; 29; 31; 37; 41; 43; 47;
   53; 59; 61; 67; 71; 73; 79; 83; 89; 97; 103;
   109; 113; 127; 137; 139; 149; 157; 167; 179; 193;
   199; 211; 227; 241; 257; 277; 293; 313; 337; 359;
   383; 409; 439; 467; 503; 541; 577; 619; 661; 709;
   761; 823; 887; 953; 1031; 1109; 1193; 1289; 1381;
   1493; 1613; 1741; 1879; 2029; 2179; 2357; 2549;
   2753; 2971; 3209; 3469; 3739; 4027; 4349; 4703;
   5087; 5503; 5953; 6427; 6949; 7517; 8123; 8783;
   9497; 10273; 11113; 12011; 12983; 14033; 15173;
   16411; 17749; 19183; 20753; 22447; 24281; 26267;
   28411; 30727; 33223; 35933; 38873; 42043; 45481;
   49201; 53201; 57557; 62233; 67307; 72817; 78779;
   85229; 92203; 99733; 107897; 116731; 126271; 136607;
   147793; 159871; 172933; 187091; 202409; 218971; 236897;
   256279; 277261; 299951; 324503; 351061; 379787; 410857;
   444487; 480881; 520241; 562841; 608903; 658753; 712697;
   771049; 834181; 902483; 976369].

(** The literals 0.58 and 0.68 as doubles, conversions from and to unsigned
    (the latter truncates). *)
Definition of_uint (z : Z) : spec_float := binary_normalize 53 1024 z 0 false.
Definition to_uint (f : spec_float) : Z :=
  match f with
  | S754_finite false m e =>
      if 0 <=? e then Z.pos m * 2 ^ e else Z.pos m / 2 ^ (- e)
  | _ => 0
  end.

Definition initial_hash_load : spec_float := S754_finite false 5224175567749775 (-53).
Definition max_hash_load : spec_float := S754_finite false 6124895493223875 (-53).

Definition limit_of (buckets : Z) : Z :=
  to_uint (SFmul 53 1024 (of_uint buckets) max_hash_load).
Definition padded_size (size : Z) : Z :=
  to_uint (SFadd 53 1024 (SFdiv 53 1024 (of_uint size) initial_hash_load) (of_uint 1)).

(** ** The table *)
Record alpm_pkghash_t := mk_pkghash {
  hash_table : list (option alpm_pkg_t);
  hash_list : list alpm_pkg_t;
  buckets : Z;
  entries : Z;
  limit : Z
}.

Definition alpm_pkghash_create (size : Z) : option alpm_pkghash_t :=
  let size := padded_size size in
  match find_first (λ p, size <? p) prime_list with
  | None => None
  | Some b =>
      Some {| hash_table := replicate (Z.to_nat b) None; hash_list := [];
              buckets := b; entries := 0; limit := limit_of b |}
  end.

Definition slot (t : list (option alpm_pkg_t)) (i : Z) : option alpm_pkg_t :=
  match t !! Z.to_nat i with Some o => o | None => None end.
Definition set_slot (t : list (option alpm_pkg_t)) (i : Z) (o : option alpm_pkg_t) :=
  <[Z.to_nat i := o]> t.

(** [position += stride; while(position >= buckets) position -= buckets;] *)
Definition next_pos (b pos : Z) : Z := if b <=? pos + 1 then pos + 1 - b else pos + 1.

(** The probe loops: the first position from [pos] on at which [stop] holds. *)
Fixpoint probe (stop : Z → option alpm_pkg_t → bool) (fuel : nat)
    (t : list (option alpm_pkg_t)) (b pos : Z) : option Z :=
  match fuel with
  | O => None
  | S fuel' => if stop pos (slot t pos) then Some pos
               else probe stop fuel' t b (next_pos b pos)
  end.

Definition is_free (_ : Z) (o : option alpm_pkg_t) : bool :=
  match o with None => true | Some _ => false end.

Definition get_hash_position (name_hash : Z) (t : list (option alpm_pkg_t)) (b : Z)
    : option Z :=
  probe is_free (Z.to_nat b) t b (name_hash mod b).

(** The size rehash asks for. *)
Definition rehash_size (b : Z) : Z :=
  if b <? 500 then b * 2
  else if b <? 2000 then b * 3 / 2
  else if b <? 5000 then b * 4 / 3
  else b + 1.

(** One iteration of the loop that rebins the old buckets. *)
Definition rebin (b : Z) (acc : option (list (option alpm_pkg_t)))
    (o : option alpm_pkg_t) : option (list (option alpm_pkg_t)) :=
  match acc, o with
  | Some t, Some p =>
      match get_hash_position (pkg_name_hash p) t b with
      | Some pos => Some (set_slot t pos (Some p))
      | None => None
      end
  | _, _ => acc
  end.

Definition rehash (old : alpm_pkghash_t) : option alpm_pkghash_t :=
  match alpm_pkghash_create (rehash_size (buckets old)) with
  | None => None
  | Some new =>
      match fold_left (rebin (buckets new)) (hash_table old) (Some (hash_table new)) with
      | None => None
      | Some t => Some {| hash_table := t; hash_list := hash_list old;
                          buckets := buckets new; entries := entries old;
                          limit := limit new |}
      end
  end.

Definition pkghash_add_pkg (hash : alpm_pkghash_t) (pkg : alpm_pkg_t) (sorted : bool)
    : option alpm_pkghash_t :=
  match (if limit hash <=? entries hash then rehash hash else Some hash) with
  | None => None
  | Some hash =>
      match get_hash_position (pkg_name_hash pkg) (hash_table hash) (buckets hash) with
      | None => None
      | Some position =>
          Some {| hash_table := set_slot (hash_table hash) position (Some pkg);
                  hash_list := if sorted then alpm_list_mmerge alpm_pkg_cmp (hash_list hash) [pkg]
                               else hash_list hash ++ [pkg];
                  buckets := buckets hash; entries := entries hash + 1;
                  limit := limit hash |}
      end
  end.

Definition alpm_pkghash_add hash pkg := pkghash_add_pkg hash pkg false.
Definition alpm_pkghash_add_sorted hash pkg := pkghash_add_pkg hash pkg true.

(** move_one_entry: the table and the place where the iteration stopped. *)
Fixpoint move_one_entry (fuel : nat) (t : list (option alpm_pkg_t)) (b start end_ : Z)
    : option (list (option alpm_pkg_t) * Z) :=
  if end_ =? start then Some (t, end_)
  else
    match fuel, slot t end_ with
    | S fuel', Some info =>
        match get_hash_position (pkg_name_hash info) t b with
        | None => None
        | Some new_position =>
            if new_position =? start
            then Some (set_slot (set_slot t start (Some info)) end_ None, end_)
            else move_one_entry fuel' t b start ((b + end_ - 1) mod b)
        end
    | _, _ => None
    end.

(** [while((prev = move_one_entry(hash, position, stop)) != position)] *)
Fixpoint plug_holes (fuel : nat) (t : list (option alpm_pkg_t)) (b position stop : Z)
    : option (list (option alpm_pkg_t)) :=
  match fuel with
  | O => None
  | S fuel' =>
      match move_one_entry (Z.to_nat b) t b position stop with
      | None => None
      | Some (t', prev) =>
          if prev =? position then Some t' else plug_holes fuel' t' b prev stop
      end
  end.

Definition stop_at (name_hash : Z) (name : cstr) (_ : Z) (o : option alpm_pkg_t) : bool :=
  match o with None => true | Some info => name_match name_hash name info end.

(** _alpm_pkghash_remove: the table and the removed package. *)
Definition alpm_pkghash_remove (hash : alpm_pkghash_t) (pkg : alpm_pkg_t)
    : option (alpm_pkghash_t * option alpm_pkg_t) :=
  let b := buckets hash in
  let t := hash_table hash in
  match probe (stop_at (pkg_name_hash pkg) (pkg_name pkg)) (Z.to_nat b) t b
          (pkg_name_hash pkg mod b) with
  | None => None
  | Some position =>
      match slot t position with
      | None => Some (hash, None)
      | Some info =>
          let t := set_slot t position None in
          match probe (λ pos o, is_free pos o || (pos =? position)) (Z.to_nat b) t b
                  (next_pos b position) with
          | None => None
          | Some stop =>
              let stop := (b + stop - 1) mod b in
              match plug_holes (Z.to_nat b) t b position stop with
              | None => None
              | Some t =>
                  Some ({| hash_table := t;
                           hash_list := filter (λ p, pkg_addr p ≠ pkg_addr info) (hash_list hash);
                           buckets := b; entries := entries hash - 1;
                           limit := limit hash |}, Some info)
              end
          end
      end
  end.

(** _alpm_pkghash_find; [None] as a loop that does not end. *)
Definition alpm_pkghash_find (hash : alpm_pkghash_t) (name : cstr)
    : option (option alpm_pkg_t) :=
  let h := alpm_hash_sdbm name in
  match probe (stop_at h name) (Z.to_nat (buckets hash)) (hash_table hash) (buckets hash)
          (h mod buckets hash) with
  | None => None
  | Some pos => Some (slot (hash_table hash) pos)
  end.

(** ** The invariant *)
Definition home (b : Z) (p : alpm_pkg_t) : Z := pkg_name_hash p mod b.

(** From its home bucket, every package is reached over occupied buckets only;
    [hole] is exempt while a removal is under way. *)
Definition chain_ok_but (hole : Z → Prop) (b : Z) (t : list (option alpm_pkg_t)) : Prop :=
  ∀ i p, 0 <= i < b → slot t i = Some p →
  ∃ d, 0 <= d < b ∧ i = (home b p + d) mod b ∧
       ∀ k, 0 <= k < d → slot t ((home b p + k) mod b) ≠ None ∨ hole ((home b p + k) mod b).
Definition chain_ok := chain_ok_but (λ _, False).

Definition contents (t : list (option alpm_pkg_t)) : list alpm_pkg_t := omap id t.

Record table_ok (b : Z) (t : list (option alpm_pkg_t)) : Prop := {
  ok_pos : 0 < b;
  ok_len : length t = Z.to_nat b;
  ok_chain : chain_ok b t
}.

Record pkghash_inv (h : alpm_pkghash_t) : Prop := {
  inv_table : table_ok (buckets h) (hash_table h);
  inv_prime : buckets h ∈ prime_list;
  inv_limit : limit h = limit_of (buckets h);
  inv_contents : contents (hash_table h) ≡ₚ hash_list h;
  inv_entries : entries h = Z.of_nat (length (hash_list h));
  inv_load : entries h <= limit h;
  inv_hashes : hashes_ok (hash_list h);
  inv_names : NoDup (map pkg_name (hash_list h));
  inv_addrs : NoDup (map pkg_addr (hash_list h))
}.

(** ** Slots *)
Lemma slot_set_eq t i o :
  0 <= i < Z.of_nat (length t) → slot (set_slot t i o) i = o.
Proof.
  intros Hi. unfold slot, set_slot. rewrite list_lookup_insert_eq; [done|lia].
Qed.

Lemma slot_set_ne t i j o : 0 <= i → 0 <= j → i ≠ j → slot (set_slot t i o) j = slot t j.
Proof.
  intros Hi Hj Hne. unfold slot, set_slot. rewrite list_lookup_insert_ne; [done|].
  intros H. apply Hne. lia.
Qed.

Lemma length_set_slot t i o : length (set_slot t i o) = length t.
Proof. apply length_insert. Qed.

Lemma slot_Some t i p :
  slot t i = Some p → t !! Z.to_nat i = Some (Some p).
Proof. unfold slot. destruct (t !! _) as [[]|]; naive_solver. Qed.

Lemma slot_None t i :
  0 <= i < Z.of_nat (length t) → slot t i = None → t !! Z.to_nat i = Some None.
Proof.
  intros Hi. unfold slot. destruct (t !! _) as [[]|] eqn:E; try done.
  apply lookup_ge_None in E. lia.
Qed.

(** ** Positions *)
Lemma next_pos_mod b pos : 0 <= pos < b → next_pos b pos = (pos + 1) mod b.
Proof.
  intros H. unfold next_pos. destruct (Z.leb_spec b (pos + 1)).
  - replace (pos + 1) with b by lia. rewrite Z.sub_diag, Z.mod_same; lia.
  - symmetry. apply Z.mod_small. lia.
Qed.

Lemma mod_step b a k : 0 < b → ((a mod b) + k) mod b = (a + k) mod b.
Proof. intros. by rewrite Zplus_mod_idemp_l. Qed.

Lemma mod_inj b a j k :
  0 < b → 0 <= j < b → 0 <= k < b → (a + j) mod b = (a + k) mod b → j = k.
Proof.
  intros Hb Hj Hk H.
  assert ((j - k) mod b = 0) as H0.
  { replace (j - k) with ((a + j) - (a + k)) by lia.
    rewrite Zminus_mod, H, Z.sub_diag. by apply Z.mod_0_l; lia. }
  apply Z.mod_divide in H0 as [q Hq]; [|lia]. assert (q = 0) by nia. lia.
Qed.

Lemma offset_ne b i j : 0 <= i < b → 0 < j < b → (i + j) mod b ≠ i.
Proof.
  intros Hi Hj E. assert ((i + j) mod b = (i + 0) mod b) as E'
    by (rewrite E, Z.add_0_r; symmetry; apply Z.mod_small; lia).
  apply mod_inj in E'; lia.
Qed.

(** Any position is at some distance from any other. *)
Lemma mod_offset b a i :
  0 < b → 0 <= i < b → ∃ d, 0 <= d < b ∧ i = (a + d) mod b.
Proof.
  intros Hb Hi. exists ((i - a) mod b). split; [apply Z.mod_pos_bound; lia|].
  rewrite Zplus_mod_idemp_r. replace (a + (i - a)) with i by lia.
  symmetry. by apply Z.mod_small.
Qed.

(** The probe stops at the nearest position where it can. *)
Lemma probe_spec stop t b n pos d :
  0 < b → 0 <= pos < b → 0 <= d < Z.of_nat n →
  stop ((pos + d) mod b) (slot t ((pos + d) mod b)) = true →
  (∀ k, 0 <= k < d → stop ((pos + k) mod b) (slot t ((pos + k) mod b)) = false) →
  probe stop n t b pos = Some ((pos + d) mod b).
Proof.
  intros Hb. revert pos d. induction n as [|n IH]; intros pos d Hpos Hd Hs Hbefore; [lia|].
  simpl. destruct (Z.eq_dec d 0) as [->|Hne].
  - rewrite Z.add_0_r, Z.mod_small in Hs |- * by lia. by rewrite Hs.
  - pose proof (Hbefore 0 ltac:(lia)) as H0. rewrite Z.add_0_r, Z.mod_small in H0 by lia.
    rewrite H0, next_pos_mod by lia.
    assert (∀ k, ((pos + 1) mod b + k) mod b = (pos + (1 + k)) mod b) as Hk.
    { intros k. rewrite mod_step by done. f_equal. lia. }
    rewrite (IH _ (d - 1)).
    + rewrite Hk. do 2 f_equal. lia.
    + apply Z.mod_pos_bound; lia.
    + lia.
    + rewrite Hk. by replace (1 + (d - 1)) with d by lia.
    + intros k Hk'. rewrite Hk. apply Hbefore. lia.
Qed.

(** The nearest place where a decidable property holds. *)
Lemma nearest (P : Z → bool) d :
  0 <= d → P d = true →
  ∃ e, 0 <= e <= d ∧ P e = true ∧ ∀ k, 0 <= k < e → P k = false.
Proof.
  intros Hd HP. revert HP. pattern d. apply Zlt_lower_bound_ind with (z := 0); [|done].
  clear d Hd. intros d IH Hd HP.
  destruct (existsb P (map Z.of_nat (seq 0 (Z.to_nat d)))) eqn:E.
  - apply existsb_exists in E as (k & Hk & HPk).
    apply in_map_iff in Hk as (n & <- & [_ Hn]%in_seq).
    destruct (IH (Z.of_nat n)) as (e & ? & ? & ?); [lia|done|].
    exists e. split_and!; [lia|lia|done|done].
  - exists d. split_and!; [lia|lia|done|]. intros k Hk.
    destruct (P k) eqn:Ek; [|done]. exfalso.
    assert (existsb P (map Z.of_nat (seq 0 (Z.to_nat d))) = true) as H; [|congruence].
    apply existsb_exists. exists k. split; [|done]. apply in_map_iff.
    exists (Z.to_nat k). split; [lia|]. apply in_seq. lia.
Qed.

(** ** Contents *)
Lemma contents_set_Some t i p :
  0 <= i < Z.of_nat (length t) → slot t i = None →
  contents (set_slot t i (Some p)) ≡ₚ p :: contents t.
Proof.
  intros Hi Hs. apply slot_None in Hs; [|done]. unfold contents, set_slot.
  rewrite insert_take_drop by lia. rewrite <-(take_drop_middle t _ _ Hs) at 3.
  rewrite !omap_app. simpl. symmetry. apply Permutation_middle.
Qed.

Lemma contents_set_None t i p :
  slot t i = Some p → p :: contents (set_slot t i None) ≡ₚ contents t.
Proof.
  intros Hs%slot_Some. unfold contents, set_slot.
  pose proof (lookup_lt_Some _ _ _ Hs). rewrite insert_take_drop by done.
  rewrite <-(take_drop_middle t _ _ Hs) at 3. rewrite !omap_app. simpl.
  apply Permutation_middle.
Qed.

Lemma elem_of_contents t p :
  p ∈ contents t ↔ ∃ i, 0 <= i < Z.of_nat (length t) ∧ slot t i = Some p.
Proof.
  unfold contents. rewrite list_elem_of_omap. split.
  - intros (o & Ho & Hid). simpl in Hid. subst o.
    apply list_elem_of_lookup in Ho as [n Hn]. exists (Z.of_nat n).
    pose proof (lookup_lt_Some _ _ _ Hn). split; [lia|].
    unfold slot. by rewrite Nat2Z.id, Hn.
  - intros (i & Hi & Hs%slot_Some). exists (Some p). split; [|done].
    by eapply list_elem_of_lookup_2.
Qed.

Lemma free_exists t :
  (length (contents t) < length t)%nat →
  ∃ i, 0 <= i < Z.of_nat (length t) ∧ slot t i = None.
Proof.
  intros Hlt. cut (∃ n : nat, t !! n = Some None).
  { intros [n Hn]. exists (Z.of_nat n). pose proof (lookup_lt_Some _ _ _ Hn).
    split; [lia|]. unfold slot. by rewrite Nat2Z.id, Hn. }
  unfold contents in *. induction t as [|[p|] t IH]; csimpl in *; [lia| |by exists O].
  destruct IH as [n Hn]; [lia|]. by exists (S n).
Qed.

(** Different buckets hold different packages when the contents have no
    duplicate name. *)
Lemma slot_name_unique t i j p q :
  NoDup (map pkg_name (contents t)) → 0 <= i → 0 <= j →
  slot t i = Some p → slot t j = Some q → pkg_name p = pkg_name q → i = j.
Proof.
  intros Hnd Hi Hj Hp Hq Hn. destruct (Z.eq_dec i j) as [|Hne]; [done|]. exfalso.
  assert (slot (set_slot t i None) j = Some q) as Hq' by by rewrite slot_set_ne.
  pose proof (contents_set_None t i p Hp) as HP.
  assert (q ∈ contents (set_slot t i None)) as Hin.
  { apply slot_Some in Hq'. unfold contents. apply list_elem_of_omap.
    exists (Some q). split; [|done]. by eapply list_elem_of_lookup_2. }
  assert (NoDup (map pkg_name (p :: contents (set_slot t i None)))) as Hnd'
    by (eapply NoDup_Permutation_proper; [by apply Permutation_map|done]).
  simpl in Hnd'. apply NoDup_cons in Hnd' as [Hnot _]. apply Hnot.
  rewrite Hn. by apply list_elem_of_fmap_2.
Qed.

Lemma is_free_true k o : is_free k o = true ↔ o = None.
Proof. by destruct o. Qed.
Lemma is_free_false k o : is_free k o = false ↔ o ≠ None.
Proof. by destruct o. Qed.

(** ** Insertion *)
Lemma position_spec b t nh :
  0 < b → length t = Z.to_nat b → (length (contents t) < length t)%nat →
  ∃ d, 0 <= d < b ∧
    get_hash_position nh t b = Some ((nh mod b + d) mod b) ∧
    slot t ((nh mod b + d) mod b) = None ∧
    ∀ k, 0 <= k < d → slot t ((nh mod b + k) mod b) ≠ None.
Proof.
  intros Hb Hlen (i & Hi & Hs)%free_exists.
  pose proof (Z.mod_pos_bound nh b Hb) as Hm.
  destruct (mod_offset b (nh mod b) i) as (d & Hd & ->); [lia..|].
  destruct (nearest (λ k, is_free 0 (slot t ((nh mod b + k) mod b))) d)
    as (e & He & Hfree & Hocc); [lia|by rewrite Hs|].
  exists e. split_and!; [lia|lia| | |].
  - apply probe_spec; [lia..| |].
    + done.
    + intros k Hk. by apply Hocc.
  - by apply is_free_true in Hfree.
  - intros k Hk. specialize (Hocc k Hk). by apply is_free_false in Hocc.
Qed.

Lemma table_insert b t p :
  table_ok b t → (length (contents t) < length t)%nat →
  ∃ pos, get_hash_position (pkg_name_hash p) t b = Some pos ∧
    table_ok b (set_slot t pos (Some p)) ∧
    contents (set_slot t pos (Some p)) ≡ₚ p :: contents t.
Proof.
  intros [Hb Hlen Hch] Hroom.
  destruct (position_spec b t (pkg_name_hash p) Hb Hlen Hroom) as (d & Hd & Hpos & Hfree & Hocc).
  set (pos := (pkg_name_hash p mod b + d) mod b) in *.
  assert (0 <= pos < b) as Hpb by (apply Z.mod_pos_bound; lia).
  exists pos. split; [done|]. split; [|apply contents_set_Some; [lia|done]].
  split; [done|by rewrite length_set_slot|]. intros i q Hi Hq.
  destruct (Z.eq_dec i pos) as [->|Hne].
  - rewrite slot_set_eq in Hq by lia. injection Hq as <-. exists d. split_and!; [lia|lia|done|].
    intros k Hk. left. fold (home b p) in Hocc. pose proof (Hocc k Hk) as Ho.
    rewrite slot_set_ne; [done|lia| |].
    + apply Z.mod_pos_bound; lia.
    + intros E. apply Ho. rewrite <-E. done.
  - rewrite slot_set_ne in Hq by lia. destruct (Hch i q Hi Hq) as (e & He & Hie & Hc).
    exists e. split_and!; [lia|lia|done|]. intros k Hk. left.
    destruct (Hc k Hk) as [Ho|[]].
    destruct (Z.eq_dec pos ((home b q + k) mod b)) as [E|E].
    + rewrite <-E, slot_set_eq by lia. done.
    + rewrite slot_set_ne; [done|lia| |done]. apply Z.mod_pos_bound; lia.
Qed.

(** An empty table. *)
Lemma slot_replicate n i : slot (replicate n None) i = None.
Proof.
  unfold slot. destruct (decide (Z.to_nat i < n)%nat).
  - by rewrite lookup_replicate_2.
  - rewrite lookup_ge_None_2; [done|]. rewrite length_replicate. lia.
Qed.

Lemma contents_replicate n : contents (replicate n None) = [].
Proof. unfold contents. by induction n. Qed.

Lemma table_ok_empty b : 0 < b → table_ok b (replicate (Z.to_nat b) None).
Proof.
  intros Hb. split; [done|by rewrite length_replicate|].
  intros i p _ H. by rewrite slot_replicate in H.
Qed.

(** ** Rebinning *)
Lemma rebin_ok b ts t :
  table_ok b t → (length (contents t) + length (contents ts) < length t)%nat →
  ∃ t', fold_left (rebin b) ts (Some t) = Some t' ∧ table_ok b t' ∧
    contents t' ≡ₚ contents t ++ contents ts.
Proof.
  revert t. induction ts as [|[p|] ts IH]; intros t Hok Hroom; simpl.
  - exists t. by rewrite app_nil_r.
  - simpl in Hroom. destruct (table_insert b t p Hok) as (pos & Hpos & Hok' & Hc); [lia|].
    rewrite Hpos. destruct (IH (set_slot t pos (Some p))) as (t' & Ht' & Hok'' & Hc'); [done| |].
    + rewrite length_set_slot, Hc. simpl. fold (contents ts). lia.
    + exists t'. split_and!; [done|done|]. rewrite Hc', Hc. simpl. apply Permutation_middle.
  - by apply IH.
Qed.

(** The sizes: a finite check over the primes. *)
Definition size_check (b : Z) : bool :=
  (0 <? b) && (0 <? limit_of b) && (limit_of b <? b) &&
  match alpm_pkghash_create (rehash_size b) with
  | None => 414054 <=? limit_of b
  | Some h => (b <? buckets h) && (limit_of b <? limit_of (buckets h))
  end.

Lemma size_check_all : forallb size_check prime_list = true.
Proof. vm_compute. reflexivity. Qed.

Lemma prime_sizes b :
  b ∈ prime_list → 0 < b ∧ 0 < limit_of b < b ∧
  (∀ h, alpm_pkghash_create (rehash_size b) = Some h →
        limit_of b < limit_of (buckets h)) ∧
  (alpm_pkghash_create (rehash_size b) = None → 414054 <= limit_of b).
Proof.
  intros Hb. pose proof size_check_all as H. rewrite forallb_forall in H.
  apply list_elem_of_In, H in Hb. unfold size_check in Hb. bool_prop.
  split_and!; [lia..| |].
  - intros h Hh. rewrite Hh in *. bool_prop. lia.
  - intros Hn. rewrite Hn in *. lia.
Qed.

Lemma create_inv size h :
  alpm_pkghash_create size = Some h →
  pkghash_inv h ∧ hash_list h = [] ∧ padded_size size < buckets h.
Proof.
  unfold alpm_pkghash_create. destruct (find_first _ _) as [b|] eqn:E; [|done].
  intros [= <-]. apply find_first_Some in E as [Hin Hlt%Z.ltb_lt].
  destruct (prime_sizes b Hin) as (Hb & Hl & _).
  split; [|done]. split; simpl; try done.
  - by apply table_ok_empty.
  - by rewrite contents_replicate.
  - lia.
  - constructor.
  - constructor.
  - constructor.
Qed.

Lemma inv_room h :
  pkghash_inv h → (length (contents (hash_table h)) < length (hash_table h))%nat.
Proof.
  intros [[Hb Hlen Hch] Hp Hlim Hc He Hload _ _ _]. rewrite Hc, Hlen.
  destruct (prime_sizes _ Hp) as (_ & Hl & _). lia.
Qed.

(** The rebinning itself never fails; the new table has a larger limit. *)
Lemma rehash_spec h :
  pkghash_inv h →
  match rehash h with
  | Some h' => pkghash_inv h' ∧ hash_list h' = hash_list h ∧ limit h < limit h'
  | None => alpm_pkghash_create (rehash_size (buckets h)) = None
  end.
Proof.
  intros Hinv. unfold rehash. destruct (alpm_pkghash_create _) as [new|] eqn:En; [|done].
  destruct (prime_sizes _ (inv_prime h Hinv)) as (_ & Hlim & Hnew & _). specialize (Hnew _ En).
  destruct (create_inv _ _ En) as (Hi & Hnil & _).
  assert (contents (hash_table new) = []) as Hcn.
  { apply Permutation_nil. rewrite (inv_contents new Hi), Hnil. done. }
  destruct (rebin_ok (buckets new) (hash_table h) (hash_table new)) as (t' & Ht & Hok & Hc).
  { apply Hi. }
  { destruct (prime_sizes _ (inv_prime new Hi)) as (_ & Hlim' & _).
    rewrite Hcn, (inv_contents h Hinv), (ok_len _ _ (inv_table new Hi)). simpl.
    pose proof (inv_entries h Hinv). pose proof (inv_load h Hinv).
    pose proof (inv_limit h Hinv). lia. }
  rewrite Ht. simpl. rewrite (inv_limit new Hi), (inv_limit h Hinv).
  split_and!; [|done|done]. split; simpl; try apply Hinv; try apply Hi; try done.
  - rewrite Hc, Hcn. simpl. apply Hinv.
  - pose proof (inv_load h Hinv) as Hl. rewrite (inv_limit h Hinv) in Hl. lia.
Qed.

Lemma add_list_perm (sorted : bool) l p :
  (if sorted then alpm_list_mmerge alpm_pkg_cmp l [p] else l ++ [p]) ≡ₚ p :: l.
Proof.
  destruct sorted.
  - rewrite mmerge_perm. by rewrite Permutation_app_comm.
  - by rewrite Permutation_app_comm.
Qed.

Lemma add_spec h p sorted :
  pkghash_inv h → pkg_hash_ok p →
  pkg_name p ∉ map pkg_name (hash_list h) → pkg_addr p ∉ map pkg_addr (hash_list h) →
  match pkghash_add_pkg h p sorted with
  | Some h' =>
      pkghash_inv h' ∧
      hash_list h' = if sorted then alpm_list_mmerge alpm_pkg_cmp (hash_list h) [p]
                     else hash_list h ++ [p]
  | None => limit h <= entries h ∧ alpm_pkghash_create (rehash_size (buckets h)) = None
  end.
Proof.
  intros Hinv Hp Hn Ha. unfold pkghash_add_pkg.
  assert (match (if limit h <=? entries h then rehash h else Some h) with
          | Some h1 => pkghash_inv h1 ∧ hash_list h1 = hash_list h ∧ entries h1 < limit h1
          | None => limit h <= entries h ∧ alpm_pkghash_create (rehash_size (buckets h)) = None
          end) as H1.
  { destruct (Z.leb_spec (limit h) (entries h)) as [Hle|Hlt].
    - pose proof (rehash_spec h Hinv) as Hr. destruct (rehash h) as [h1|]; [|done].
      destruct Hr as (Hi1 & Hl1 & Hlim). split_and!; [done|done|].
      rewrite (inv_entries h1 Hi1), Hl1, <-(inv_entries h Hinv).
      pose proof (inv_load h Hinv). lia.
    - done. }
  destruct (if limit h <=? entries h then rehash h else Some h) as [h1|]; [|done].
  destruct H1 as (Hi1 & Hl1 & Hroom).
  destruct (table_insert _ _ p (inv_table h1 Hi1) (inv_room h1 Hi1)) as (pos & -> & Hok & Hc).
  simpl. rewrite Hl1. split; [|done].
  pose proof (add_list_perm sorted (hash_list h) p) as HP.
  split; simpl; try apply Hi1; try done.
  - rewrite HP, Hc. f_equiv. rewrite <-Hl1. apply Hi1.
  - rewrite HP, (inv_entries h1 Hi1), Hl1. simpl. lia.
  - lia.
  - unfold hashes_ok. rewrite HP. constructor; [done|apply Hinv].
  - rewrite HP. simpl. constructor; [done|apply Hinv].
  - rewrite HP. simpl. constructor; [done|apply Hinv].
Qed.

(** ** Lookup *)
Lemma pkg_find_unique l p :
  hashes_ok l → NoDup (map pkg_name l) → p ∈ l → alpm_pkg_find l (pkg_name p) = Some p.
Proof.
  intros Hl Hnd Hp. rewrite pkg_find_name by done.
  induction l as [|q l IH]; [set_solver|]. apply Forall_cons in Hl as [Hq Hl].
  simpl in Hnd. apply NoDup_cons in Hnd as [Hn Hnd]. simpl.
  unfold same_name at 1. destruct (streq (pkg_name q) (pkg_name p)) eqn:E.
  - apply streq_true in E. apply elem_of_cons in Hp as [->|Hp]; [done|].
    exfalso. apply Hn. rewrite E. by apply list_elem_of_fmap_2.
  - apply elem_of_cons in Hp as [->|Hp]; [|by apply IH].
    by rewrite streq_refl in E.
Qed.

Lemma contents_hashes h p :
  pkghash_inv h → p ∈ contents (hash_table h) → pkg_hash_ok p.
Proof.
  intros Hinv Hp. rewrite (inv_contents h Hinv) in Hp.
  pose proof (inv_hashes h Hinv) as Hh. unfold hashes_ok in Hh. rewrite Forall_forall in Hh.
  by apply Hh.
Qed.

Lemma slot_contents h i p :
  pkghash_inv h → 0 <= i < buckets h → slot (hash_table h) i = Some p → p ∈ hash_list h.
Proof.
  intros Hinv Hi Hs. rewrite <-(inv_contents h Hinv). apply elem_of_contents.
  exists i. rewrite (ok_len _ _ (inv_table h Hinv)). split; [lia|done].
Qed.

(** Probing for a name ends, at the package of that name or at a free bucket
    when there is none. *)
Lemma probe_name h n :
  pkghash_inv h →
  ∃ pos, probe (stop_at (alpm_hash_sdbm n) n) (Z.to_nat (buckets h)) (hash_table h)
           (buckets h) (alpm_hash_sdbm n mod buckets h) = Some pos ∧
    0 <= pos < buckets h ∧
    match slot (hash_table h) pos with
    | Some p => pkg_name p = n | None => n ∉ map pkg_name (hash_list h) end.
Proof.
  intros Hinv. destruct (inv_table h Hinv) as [Hb Hlen Hch].
  set (b := buckets h) in *. set (t := hash_table h) in *.
  set (nh := alpm_hash_sdbm n) in *. set (hm := nh mod b).
  assert (0 <= hm < b) as Hhm by (apply Z.mod_pos_bound; lia).
  assert (∀ d, 0 <= d < b → stop_at nh n 0 (slot t ((hm + d) mod b)) = true →
    ∃ e, 0 <= e <= d ∧ stop_at nh n 0 (slot t ((hm + e) mod b)) = true ∧
      probe (stop_at nh n) (Z.to_nat b) t b hm = Some ((hm + e) mod b)) as Hprobe.
  { intros d Hd Hs. destruct (nearest (λ k, stop_at nh n 0 (slot t ((hm + k) mod b))) d)
      as (e & He & Hse & Hbe); [lia|done|].
    exists e. split_and!; [lia|lia|done|].
    apply probe_spec; [lia..|done|]. intros k Hk. by apply Hbe. }
  assert (∀ i q, slot t i = Some q → 0 <= i < b → name_match nh n q = true → pkg_name q = n)
    as Hname.
  { intros i q _ _ Hm. unfold name_match in Hm. bool_prop. by apply streq_true. }
  destruct (decide (n ∈ map pkg_name (hash_list h))) as [Hin|Hnin].
  - apply list_elem_of_fmap in Hin as (p & -> & Hp).
    pose proof Hp as Hp'. rewrite <-(inv_contents h Hinv) in Hp'.
    pose proof (contents_hashes h p Hinv Hp') as Hok.
    apply elem_of_contents in Hp' as (i & Hi & Hs). fold t in Hi, Hs. rewrite Hlen in Hi.
    destruct (Hch i p ltac:(lia) Hs) as (d & Hd & -> & Hc).
    assert (home b p = hm) as Hhome by (unfold home; by rewrite Hok). rewrite Hhome in *.
    assert (name_match nh (pkg_name p) p = true) as Hself.
    { unfold nh. rewrite name_match_ok by done. apply streq_refl. }
    destruct (Hprobe d Hd) as (e & He & Hse & Hpr); [by rewrite Hs|].
    eexists. split; [exact Hpr|]. assert (0 <= (hm + e) mod b < b)
      by (apply Z.mod_pos_bound; lia). split; [done|].
    destruct (slot t ((hm + e) mod b)) as [q|] eqn:Eq; [by eapply Hname|].
    exfalso. destruct (Z.eq_dec e d) as [->|Hne]; [congruence|].
    destruct (Hc e ltac:(lia)) as [?|[]]. done.
  - destruct (free_exists t) as (i & Hi & Hs); [by apply inv_room|]. rewrite Hlen in Hi.
    destruct (mod_offset b hm i) as (d & Hd & ->); [lia..|].
    destruct (Hprobe d Hd) as (e & He & Hse & Hpr); [by rewrite Hs|].
    eexists. split; [exact Hpr|]. assert (0 <= (hm + e) mod b < b)
      by (apply Z.mod_pos_bound; lia). split; [done|].
    destruct (slot t ((hm + e) mod b)) as [q|] eqn:Eq; [|done]. by eapply Hname.
Qed.

Lemma find_spec h n :
  pkghash_inv h → alpm_pkghash_find h n = Some (alpm_pkg_find (hash_list h) n).
Proof.
  intros Hinv. unfold alpm_pkghash_find.
  destruct (probe_name h n Hinv) as (pos & -> & Hpos & Hs). f_equal.
  destruct (slot (hash_table h) pos) as [p|] eqn:E.
  - subst n. symmetry. apply pkg_find_unique; [apply Hinv..|]. by eapply slot_contents.
  - symmetry. apply pkg_find_None; [apply Hinv|done].
Qed.

(** ** Removal *)

(** The state of the table while holes are plugged: a hole at [hole], occupied
    buckets behind it up to [hole + m], a free bucket at [hole + m + 1], and
    every chain complete except for the hole. *)
Record hole_ok (b : Z) (t : list (option alpm_pkg_t)) (hole m : Z) : Prop := {
  hk_b : 0 < b;
  hk_len : length t = Z.to_nat b;
  hk_hole : 0 <= hole < b;
  hk_m : 0 <= m < b - 1;
  hk_free : slot t hole = None;
  hk_run : ∀ k, 1 <= k <= m → slot t ((hole + k) mod b) ≠ None;
  hk_stop : slot t ((hole + m + 1) mod b) = None;
  hk_chain : chain_ok_but (λ i, i = hole) b t
}.

(** The chain of the package at distance [o] behind the hole either avoids the
    hole, and then its first free bucket is not the hole, or it passes through
    it, and then the hole is its first free bucket. *)
Lemma hole_position b t hole m o p :
  hole_ok b t hole m → 1 <= o <= m → slot t ((hole + o) mod b) = Some p →
  ∃ pos, get_hash_position (pkg_name_hash p) t b = Some pos ∧
    ((pos = hole ∧ ∃ k, 0 <= k < b ∧ hole = (home b p + k) mod b ∧
        ∀ j, 0 <= j < k → slot t ((home b p + j) mod b) ≠ None ∧
                           (home b p + j) mod b ≠ (hole + o) mod b) ∨
     (pos ≠ hole ∧ ∃ d, 0 <= d < b ∧ (hole + o) mod b = (home b p + d) mod b ∧
        ∀ k, 0 <= k < d → slot t ((home b p + k) mod b) ≠ None)).
Proof.
  intros [Hb Hlen Hh Hm Hfree Hrun Hstop Hch] Ho Hs.
  assert (0 <= home b p < b) as Hhome by (apply Z.mod_pos_bound; lia).
  destruct (Hch _ p ltac:(apply Z.mod_pos_bound; lia) Hs) as (d & Hd & Hod & Hc).
  destruct (mod_offset b (home b p) hole) as (kh & Hkh & Hhole); [lia..|].
  destruct (Z.lt_ge_cases kh d) as [Hlt|Hge].
  - (* through the hole *)
    exists hole. split.
    + rewrite Hhole. unfold get_hash_position. fold (home b p).
      apply probe_spec; [lia..| |].
      * rewrite <-Hhole. by rewrite Hfree.
      * intros k Hk. apply is_free_false. destruct (Hc k ltac:(lia)) as [?|E]; [done|].
        rewrite Hhole in E. apply mod_inj in E; lia.
    + left. split; [done|]. exists kh. split_and!; [lia|lia|done|]. intros j Hj. split.
      * destruct (Hc j ltac:(lia)) as [?|E]; [done|].
        rewrite Hhole in E. apply mod_inj in E; lia.
      * rewrite Hod. intros E. apply mod_inj in E; lia.
  - (* not through the hole *)
    assert (∀ k, 0 <= k < d → slot t ((home b p + k) mod b) ≠ None) as Hc'.
    { intros k Hk. destruct (Hc k Hk) as [?|E]; [done|].
      rewrite Hhole in E. apply mod_inj in E; lia. }
    assert (∀ k, ((home b p + (d + k)) mod b) = (hole + (o + k)) mod b) as Hshift.
    { intros k. replace (home b p + (d + k)) with (home b p + d + k) by lia.
      rewrite <-mod_step by done. rewrite <-Hod, mod_step by done. f_equal. lia. }
    assert (d + (m + 1 - o) < b) as Hfar.
    { destruct (Z.lt_ge_cases (d + (m + 1 - o)) b) as [?|Hwrap]; [done|]. exfalso.
      (* going once around would meet the free bucket or the hole too early *)
      assert ((home b p + (d + (m + 1 - o) - b)) mod b = (hole + m + 1) mod b) as E.
      { replace (home b p + (d + (m + 1 - o) - b)) with
          (home b p + (d + (m + 1 - o)) + (-1) * b) by lia.
        rewrite Z.mod_add by lia. rewrite Hshift. f_equal. lia. }
      apply (Hc' (d + (m + 1 - o) - b)); [lia|]. by rewrite E. }
    exists ((home b p + (d + (m + 1 - o))) mod b). split.
    + unfold get_hash_position. fold (home b p). apply probe_spec; [lia..| |].
      * apply is_free_true. rewrite Hshift. rewrite <-Hstop. do 2 f_equal. lia.
      * intros k Hk. apply is_free_false. destruct (Z.lt_ge_cases k d); [by apply Hc'; lia|].
        replace k with (d + (k - d)) by lia. rewrite Hshift. apply Hrun. lia.
    + right. split.
      * rewrite Hshift. apply offset_ne; lia.
      * exists d. done.
Qed.

Definition complete (b : Z) (t : list (option alpm_pkg_t)) (i : Z) (p : alpm_pkg_t) : Prop :=
  ∃ d, 0 <= d < b ∧ i = (home b p + d) mod b ∧
       ∀ k, 0 <= k < d → slot t ((home b p + k) mod b) ≠ None.

(** When no chain of the run behind the hole passes through it, no chain does. *)
Lemma hole_closed b t hole m :
  hole_ok b t hole m →
  (∀ o p, 1 <= o <= m → slot t ((hole + o) mod b) = Some p → complete b t ((hole + o) mod b) p) →
  chain_ok b t.
Proof.
  intros [Hb Hlen Hh Hm Hfree Hrun Hstop Hch] Hall i p Hi Hs.
  destruct (Hch i p Hi Hs) as (d & Hd & -> & Hc).
  destruct (mod_offset b (home b p) hole) as (kh & Hkh & Hhole); [lia..|].
  assert (∀ j, (home b p + (kh + j)) mod b = (hole + j) mod b) as Hshift.
  { intros j. replace (home b p + (kh + j)) with (home b p + kh + j) by lia.
    rewrite <-mod_step by done. by rewrite <-Hhole. }
  destruct (Z.lt_ge_cases kh d) as [Hlt|Hge].
  - assert (d - kh <= m) as Hom.
    { destruct (Z.le_gt_cases (d - kh) m) as [?|Hgt]; [done|]. exfalso.
      assert (slot t ((home b p + (kh + (m + 1))) mod b) = None) as Hn
        by (rewrite Hshift, <-Hstop; do 2 f_equal; lia).
      destruct (Z.eq_dec (kh + (m + 1)) d) as [E|E]; [rewrite E in Hn; congruence|].
      destruct (Hc (kh + (m + 1)) ltac:(lia)) as [?|E']; [done|].
      rewrite Hhole in E'. apply mod_inj in E'; lia. }
    assert ((home b p + d) mod b = (hole + (d - kh)) mod b) as Ed
      by (rewrite <-Hshift; do 2 f_equal; lia).
    rewrite Ed in Hs. destruct (Hall (d - kh) p ltac:(lia) Hs) as (d' & Hd' & Ed' & Hc').
    exists d'. rewrite Ed. split_and!; [lia|lia|done|]. intros k Hk. left. by apply Hc'.
  - exists d. split_and!; [lia|lia|done|]. intros k Hk. left.
    destruct (Hc k Hk) as [?|E]; [done|]. rewrite Hhole in E. apply mod_inj in E; lia.
Qed.

(** Moving the package at distance [o] into the hole moves the hole there. *)
Lemma hole_move b t hole m o p :
  hole_ok b t hole m → 1 <= o <= m → slot t ((hole + o) mod b) = Some p →
  (∃ k, 0 <= k < b ∧ hole = (home b p + k) mod b ∧
     ∀ j, 0 <= j < k → slot t ((home b p + j) mod b) ≠ None ∧
                        (home b p + j) mod b ≠ (hole + o) mod b) →
  let t' := set_slot (set_slot t hole (Some p)) ((hole + o) mod b) None in
  hole_ok b t' ((hole + o) mod b) (m - o) ∧ contents t' ≡ₚ contents t.
Proof.
  intros [Hb Hlen Hh Hm Hfree Hrun Hstop Hch] Ho Hs (k & Hk & Hhole & Hkc) t'.
  set (e := (hole + o) mod b) in *.
  assert (0 <= e < b) as He by (apply Z.mod_pos_bound; lia).
  assert (∀ j, (e + j) mod b = (hole + (o + j)) mod b) as Hshift.
  { intros j. unfold e. rewrite mod_step by done. f_equal. lia. }
  assert (∀ j, 0 < j < b → (hole + j) mod b ≠ hole) as Hnh
    by (intros; by apply offset_ne).
  assert (∀ i, 0 <= i < b → i ≠ hole → i ≠ e → slot t' i = slot t i) as Hother.
  { intros i Hi Hi1 Hi2. unfold t'. rewrite !slot_set_ne; lia || done. }
  assert (slot t' e = None) as Hte.
  { unfold t'. apply slot_set_eq. rewrite length_set_slot. lia. }
  assert (e ≠ hole) as Heh by (apply Hnh; lia).
  assert (slot t' hole = Some p) as Hth.
  { unfold t'. rewrite slot_set_ne by lia. apply slot_set_eq. lia. }
  assert (∀ j, 0 <= j < b → o < j → (hole + j) mod b ≠ e) as Hne.
  { intros j Hj Hoj E. unfold e in E. apply mod_inj in E; lia. }
  split; [split|].
  - done.
  - unfold t'. by rewrite !length_set_slot.
  - done.
  - lia.
  - done.
  - intros j Hj. rewrite Hshift, Hother.
    + apply Hrun. lia.
    + apply Z.mod_pos_bound; lia.
    + apply Hnh. lia.
    + apply Hne; lia.
  - replace (e + (m - o) + 1) with (e + (m - o + 1)) by lia. rewrite Hshift.
    replace (o + (m - o + 1)) with (m + 1) by lia. rewrite Hother.
    + rewrite <-Hstop. do 2 f_equal. lia.
    + apply Z.mod_pos_bound; lia.
    + apply Hnh. lia.
    + apply Hne; lia.
  - intros i q Hi Hq. destruct (Z.eq_dec i e) as [->|Hie]; [congruence|].
    destruct (Z.eq_dec i hole) as [->|Hih].
    + rewrite Hth in Hq. injection Hq as <-. exists k. split_and!; [lia|lia|done|].
      intros j Hj. left. destruct (Hkc j Hj) as [H1 H2]. rewrite Hother; [done| | |done].
      * apply Z.mod_pos_bound; lia.
      * intros E. rewrite Hhole in E. apply mod_inj in E; lia.
    + rewrite Hother in Hq by done. destruct (Hch i q Hi Hq) as (d & Hd & Hid & Hc).
      exists d. split_and!; [lia|lia|done|]. intros j Hj.
      set (x := (home b q + j) mod b). assert (0 <= x < b) by (apply Z.mod_pos_bound; lia).
      destruct (Z.eq_dec x e) as [->|]; [by right|]. left.
      destruct (Z.eq_dec x hole) as [->|]; [by rewrite Hth|].
      rewrite Hother by done. by destruct (Hc j Hj).
  - unfold t'. apply (Permutation_cons_inv (a := p)). rewrite contents_set_None.
    + apply contents_set_Some; [lia|done].
    + rewrite slot_set_ne by lia. done.
Qed.

Lemma move_spec b t hole m fuel o :
  hole_ok b t hole m → 0 <= o <= m → o <= Z.of_nat fuel →
  (∀ j p, o < j <= m → slot t ((hole + j) mod b) = Some p → complete b t ((hole + j) mod b) p) →
  ∃ t' e, move_one_entry fuel t b hole ((hole + o) mod b) = Some (t', e) ∧
    ((e = hole ∧ t' = t ∧ chain_ok b t) ∨
     ∃ o', 1 <= o' <= m ∧ e = (hole + o') mod b ∧ hole_ok b t' e (m - o') ∧
           contents t' ≡ₚ contents t).
Proof.
  intros Hok. pose proof Hok as [Hb Hlen Hh Hm Hfree Hrun Hstop Hch].
  revert o. induction fuel as [|fuel IH]; intros o Ho Hf Hdone;
    (destruct (Z.eq_dec o 0) as [->|Hne];
      [exists t, hole; rewrite Z.add_0_r, Z.mod_small by lia; cbn [move_one_entry];
       rewrite Z.eqb_refl; split; [done|left; split_and!; [done..|]];
       eapply hole_closed; [done|]; intros j p Hj; apply Hdone; lia|]); [lia|].
  assert ((hole + o) mod b ≠ hole) as Hneq by (apply offset_ne; lia).
  simpl. rewrite (proj2 (Z.eqb_neq _ _) Hneq).
  destruct (slot t ((hole + o) mod b)) as [p|] eqn:Hs; [|by destruct (Hrun o); [lia|]].
  destruct (hole_position b t hole m o p Hok ltac:(lia) Hs) as (pos & -> & [[-> Hk]|[Hpos Hd]]).
  - rewrite Z.eqb_refl. destruct (hole_move b t hole m o p Hok ltac:(lia) Hs Hk) as [H1 H2].
    eexists _, _. split; [done|]. right. exists o. split_and!; [lia|lia|done|done|done].
  - rewrite (proj2 (Z.eqb_neq _ _) Hpos).
    assert ((b + (hole + o) mod b - 1) mod b = (hole + (o - 1)) mod b) as ->.
    { replace (b + (hole + o) mod b - 1) with ((hole + o) mod b + (-1) + 1 * b) by lia.
      rewrite Z.mod_add by lia. rewrite mod_step by done. f_equal. lia. }
    apply IH; [lia..|]. intros j q Hj Hq. destruct (Z.eq_dec j o) as [->|].
    + rewrite Hs in Hq. injection Hq as <-. exact Hd.
    + apply Hdone; [lia|done].
Qed.

Lemma plug_spec b fuel t hole m :
  hole_ok b t hole m → m < Z.of_nat fuel →
  ∃ t', plug_holes fuel t b hole ((hole + m) mod b) = Some t' ∧
        table_ok b t' ∧ contents t' ≡ₚ contents t.
Proof.
  revert t hole m. induction fuel as [|fuel IH]; intros t hole m Hok Hf;
    pose proof Hok as [Hb Hlen Hh Hm Hfree Hrun Hstop Hch]; [lia|]. simpl.
  destruct (move_spec b t hole m (Z.to_nat b) m Hok) as (t' & e & -> & H); [lia..| |].
  { intros. lia. }
  destruct H as [(-> & -> & Hc)|(o & Ho & -> & Hok' & HP)].
  - rewrite Z.eqb_refl. exists t. split_and!; [done| |done]. by split.
  - assert ((hole + o) mod b ≠ hole) as Hneq by (apply offset_ne; lia).
    rewrite (proj2 (Z.eqb_neq _ _) Hneq).
    destruct (IH _ _ _ Hok') as (t'' & Ht & Hok'' & HP'); [lia|].
    exists t''. rewrite mod_step in Ht by done.
    replace (hole + o + (m - o)) with (hole + m) in Ht by lia.
    split_and!; [done|done|]. by rewrite HP', HP.
Qed.

(** The run of occupied buckets behind a removed entry. *)
Lemma run_behind b t pos :
  0 < b → length t = Z.to_nat b → 0 <= pos < b → slot t pos = None →
  (∃ i, 0 <= i < b ∧ i ≠ pos ∧ slot t i = None) →
  ∃ m, 0 <= m < b - 1 ∧
    probe (λ q o, is_free q o || (q =? pos)) (Z.to_nat b) t b (next_pos b pos)
      = Some ((pos + m + 1) mod b) ∧
    slot t ((pos + m + 1) mod b) = None ∧
    ∀ k, 1 <= k <= m → slot t ((pos + k) mod b) ≠ None.
Proof.
  intros Hb Hlen Hpos Hfree (i & Hi & Hne & Hs).
  destruct (mod_offset b (pos + 1) i) as (d & Hd & Hid); [lia..|].
  assert (d < b - 1) as Hd'.
  { destruct (Z.eq_dec d (b - 1)) as [->|]; [|lia]. exfalso. apply Hne. rewrite Hid.
    replace (pos + 1 + (b - 1)) with (pos + 1 * b) by lia.
    rewrite Z.mod_add by lia. apply Z.mod_small. lia. }
  destruct (nearest (λ k, is_free 0 (slot t ((pos + 1 + k) mod b))) d)
    as (m & Hm & Hmf & Hmo); [lia|apply is_free_true; by rewrite <-Hid|].
  apply is_free_true in Hmf. exists m.
  assert (∀ k, ((pos + 1) mod b + k) mod b = (pos + 1 + k) mod b) as Hsh
    by (intros; by apply mod_step).
  split_and!; [lia|lia| | |].
  - rewrite next_pos_mod by done. replace (pos + m + 1) with (pos + 1 + m) by lia.
    rewrite <-Hsh. apply probe_spec; [lia| |lia| |].
    + apply Z.mod_pos_bound; lia.
    + rewrite Hsh, Hmf. done.
    + intros k Hk. rewrite Hsh. pose proof (Hmo k Hk) as Ho. apply is_free_false in Ho.
      rewrite (proj2 (is_free_false _ _) Ho). simpl. apply Z.eqb_neq.
      replace (pos + 1 + k) with (pos + (1 + k)) by lia. apply offset_ne; lia.
  - by replace (pos + m + 1) with (pos + 1 + m) by lia.
  - intros k Hk. replace (pos + k) with (pos + 1 + (k - 1)) by lia.
    apply (is_free_false 0). apply Hmo. lia.
Qed.

Lemma filter_addr_perm l r p :
  NoDup (map pkg_addr l) → l ≡ₚ p :: r →
  filter (λ q, pkg_addr q ≠ pkg_addr p) l ≡ₚ r.
Proof.
  intros Hnd HP. rewrite HP in Hnd. simpl in Hnd. apply NoDup_cons in Hnd as [Hn Hnd].
  rewrite HP. rewrite filter_cons_False by naive_solver.
  rewrite filter_all; [done|]. intros q Hq E.
  apply Hn. rewrite <-E. by apply list_elem_of_fmap_2.
Qed.

Lemma remove_spec h p :
  pkghash_inv h → pkg_hash_ok p →
  ∃ h', alpm_pkghash_remove h p = Some (h', alpm_pkg_find (hash_list h) (pkg_name p)) ∧
    pkghash_inv h' ∧
    match alpm_pkg_find (hash_list h) (pkg_name p) with
    | None => h' = h
    | Some info => hash_list h' = filter (λ q, pkg_addr q ≠ pkg_addr info) (hash_list h) ∧
                   hash_list h ≡ₚ info :: hash_list h'
    end.
Proof.
  intros Hinv Hp. unfold alpm_pkghash_remove. rewrite Hp.
  destruct (probe_name h (pkg_name p) Hinv) as (pos & -> & Hpos & Hs).
  destruct (slot (hash_table h) pos) as [info|] eqn:Hslot.
  2:{ rewrite (proj2 (pkg_find_None _ _ (inv_hashes h Hinv)) Hs). by exists h. }
  pose proof (slot_contents h pos info Hinv Hpos Hslot) as Hin.
  assert (alpm_pkg_find (hash_list h) (pkg_name p) = Some info) as Hf.
  { rewrite <-Hs. apply pkg_find_unique; [apply Hinv..|done]. }
  rewrite Hf. destruct (inv_table h Hinv) as [Hb Hlen Hch].
  set (b := buckets h) in *. set (t := hash_table h) in *.
  set (t1 := set_slot t pos None).
  assert (length t1 = Z.to_nat b) as Hlen1 by (unfold t1; by rewrite length_set_slot).
  assert (slot t1 pos = None) as Hfree by (apply slot_set_eq; lia).
  destruct (run_behind b t1 pos) as (m & Hm & -> & Hstop & Hrun); [done..| |].
  { destruct (free_exists t) as (i & Hi & Hsi); [by apply inv_room|]. exists i.
    assert (i ≠ pos) by congruence. unfold t1. rewrite slot_set_ne by lia.
    split_and!; [lia|lia|done|done]. }
  assert (hole_ok b t1 pos m) as Hhole.
  { split; try done. intros i q Hi Hq.
    destruct (Z.eq_dec i pos) as [->|Hne]; [congruence|].
    unfold t1 in Hq. rewrite slot_set_ne in Hq by lia.
    destruct (Hch i q Hi Hq) as (d & Hd & Hid & Hc). exists d. split_and!; [lia|lia|done|].
    intros k Hk. destruct (Z.eq_dec ((home b q + k) mod b) pos) as [E|E]; [by right|].
    left. unfold t1. rewrite slot_set_ne; [|lia| |done].
    - by destruct (Hc k Hk).
    - apply Z.mod_pos_bound; lia. }
  assert ((b + (pos + m + 1) mod b - 1) mod b = (pos + m) mod b) as ->.
  { replace (b + (pos + m + 1) mod b - 1) with ((pos + m + 1) mod b + (-1) + 1 * b) by lia.
    rewrite Z.mod_add by lia. rewrite mod_step by done. f_equal. lia. }
  destruct (plug_spec b (Z.to_nat b) t1 pos m Hhole) as (t' & -> & Hok' & HP); [lia|].
  assert (hash_list h ≡ₚ info :: contents t1) as HL.
  { rewrite <-(inv_contents h Hinv). symmetry. by apply contents_set_None. }
  pose proof (filter_addr_perm _ _ _ (inv_addrs h Hinv) HL) as HF.
  eexists. split; [done|]. simpl. split; [|split; [done|by rewrite HF]].
  pose proof (inv_names h Hinv) as Hnn. pose proof (inv_addrs h Hinv) as Hna.
  pose proof (inv_hashes h Hinv) as Hh. unfold hashes_ok in Hh.
  rewrite HL in Hnn, Hna, Hh. simpl in Hnn, Hna.
  apply NoDup_cons in Hnn as [_ Hnn]. apply NoDup_cons in Hna as [_ Hna].
  apply Forall_cons in Hh as [_ Hh].
  split; simpl; try apply Hinv; try done.
  - by rewrite HP, HF.
  - rewrite HF, (inv_entries h Hinv), HL. simpl. lia.
  - pose proof (inv_load h Hinv). lia.
  - unfold hashes_ok. by rewrite HF.
  - by rewrite HF.
  - by rewrite HF.
Qed.

(** ** The abstract map *)

(** What the table promises its users: a finite map from names to packages. *)
Inductive hash_op :=
  | OpAdd (p : alpm_pkg_t) | OpAddSorted (p : alpm_pkg_t) | OpRemove (p : alpm_pkg_t).

Definition run_op (h : alpm_pkghash_t) (o : hash_op) : option alpm_pkghash_t :=
  match o with
  | OpAdd p => alpm_pkghash_add h p
  | OpAddSorted p => alpm_pkghash_add_sorted h p
  | OpRemove p => fst <$> alpm_pkghash_remove h p
  end.

Fixpoint run_ops (h : alpm_pkghash_t) (os : list hash_op) : option alpm_pkghash_t :=
  match os with
  | [] => Some h
  | o :: os' => match run_op h o with Some h' => run_ops h' os' | None => None end
  end.

Definition spec_op (m : gmap cstr alpm_pkg_t) (o : hash_op) : gmap cstr alpm_pkg_t :=
  match o with
  | OpAdd p | OpAddSorted p => <[pkg_name p := p]> m
  | OpRemove p => delete (pkg_name p) m
  end.

(** The callers add packages under new names, at new addresses. *)
Definition op_ok (m : gmap cstr alpm_pkg_t) (o : hash_op) : Prop :=
  match o with
  | OpAdd p | OpAddSorted p =>
      pkg_hash_ok p ∧ m !! pkg_name p = None ∧
      map_Forall (λ _ q, pkg_addr q ≠ pkg_addr p) m
  | OpRemove p => pkg_hash_ok p
  end.

Fixpoint ops_ok (m : gmap cstr alpm_pkg_t) (os : list hash_op) : Prop :=
  match os with
  | [] => True
  | o :: os' => op_ok m o ∧ ops_ok (spec_op m o) os'
  end.

Definition represents (h : alpm_pkghash_t) (m : gmap cstr alpm_pkg_t) : Prop :=
  pkghash_inv h ∧ ∀ n, alpm_pkg_find (hash_list h) n = m !! n.

Lemma represents_names h m n :
  represents h m → m !! n = None ↔ n ∉ map pkg_name (hash_list h).
Proof. intros [Hinv Hm]. rewrite <-Hm. apply pkg_find_None, Hinv. Qed.

Lemma represents_elem h m p :
  represents h m → p ∈ hash_list h ↔ m !! pkg_name p = Some p.
Proof.
  intros [Hinv Hm]. rewrite <-Hm. split.
  - intros Hp. apply pkg_find_unique; [apply Hinv..|done].
  - intros [Hp _]%pkg_find_Some. done.
Qed.

Lemma represents_add h m p sorted h' :
  represents h m → op_ok m (OpAdd p) → pkghash_add_pkg h p sorted = Some h' →
  represents h' (<[pkg_name p := p]> m).
Proof.
  intros Hr (Hp & Hn & Ha) Hadd. pose proof Hr as [Hinv Hm].
  pose proof (add_spec h p sorted Hinv Hp) as H. rewrite Hadd in H.
  destruct H as [Hinv' Hl].
  { by apply (represents_names h m). }
  { intros (q & E & Hq)%list_elem_of_fmap. apply (represents_elem h m q Hr) in Hq.
    by apply (Ha _ _ Hq). }
  split; [done|]. intros n.
  assert (hash_list h' ≡ₚ p :: hash_list h) as HP
    by (rewrite Hl; apply add_list_perm).
  destruct (decide (n = pkg_name p)) as [->|Hne].
  - rewrite lookup_insert_eq. apply pkg_find_unique; [apply Hinv'..|]. rewrite HP. set_solver.
  - rewrite lookup_insert_ne by done. rewrite <-Hm.
    destruct (alpm_pkg_find (hash_list h) n) as [q|] eqn:E.
    + apply pkg_find_Some in E as [Hq <-]. apply pkg_find_unique; [apply Hinv'..|].
      rewrite HP. set_solver.
    + apply pkg_find_None; [apply Hinv'|]. apply pkg_find_None in E; [|apply Hinv].
      rewrite HP. simpl. set_solver.
Qed.

Lemma represents_remove h m p :
  represents h m → pkg_hash_ok p →
  ∃ h', alpm_pkghash_remove h p = Some (h', m !! pkg_name p) ∧
        represents h' (delete (pkg_name p) m).
Proof.
  intros [Hinv Hm] Hp. destruct (remove_spec h p Hinv Hp) as (h' & Hrem & Hinv' & H).
  rewrite Hm in Hrem, H. exists h'. split; [done|]. split; [done|]. intros n.
  destruct (m !! pkg_name p) as [info|] eqn:E.
  - destruct H as [_ HP]. rewrite <-Hm in E. apply pkg_find_Some in E as [Hin Hname].
    pose proof (inv_names h Hinv) as Hnd. rewrite HP in Hnd. simpl in Hnd.
    apply NoDup_cons in Hnd as [Hnot _].
    destruct (decide (n = pkg_name p)) as [->|Hne].
    + rewrite lookup_delete_eq. apply pkg_find_None; [apply Hinv'|]. by rewrite <-Hname.
    + rewrite lookup_delete_ne by done. rewrite <-Hm.
      destruct (alpm_pkg_find (hash_list h) n) as [q|] eqn:Eq.
      * apply pkg_find_Some in Eq as [Hq Hqn]. rewrite <-Hqn.
        apply pkg_find_unique; [apply Hinv'..|]. rewrite HP in Hq.
        apply elem_of_cons in Hq as [->|Hq]; [congruence|done].
      * apply pkg_find_None; [apply Hinv'|]. apply pkg_find_None in Eq; [|apply Hinv].
        rewrite HP in Eq. simpl in Eq. set_solver.
  - subst h'. by rewrite delete_id, Hm.
Qed.

Lemma represents_size h m :
  represents h m → length (hash_list h) = size m.
Proof.
  intros Hr. pose proof Hr as [Hinv Hm].
  assert (list_to_set (map pkg_name (hash_list h)) = (dom m : gset cstr)) as E.
  { apply set_eq. intros n. rewrite elem_of_list_to_set, elem_of_dom, <-Hm.
    symmetry. apply pkg_find_is_Some, Hinv. }
  rewrite <-(length_map pkg_name). rewrite <-size_dom, <-E.
  symmetry. apply size_list_to_set, Hinv.
Qed.

(** An operation fails only when the largest tables are full. *)
Lemma run_op_spec h m o :
  represents h m → op_ok m o →
  match run_op h o with
  | Some h' => represents h' (spec_op m o)
  | None => 414054 <= Z.of_nat (size m)
  end.
Proof.
  assert (∀ p sorted, represents h m → op_ok m (OpAdd p) →
    match pkghash_add_pkg h p sorted with
    | Some h' => represents h' (<[pkg_name p := p]> m)
    | None => 414054 <= Z.of_nat (size m) end) as Hadd.
  { intros p sorted Hr Hok. destruct (pkghash_add_pkg h p sorted) as [h'|] eqn:E;
      [by eapply represents_add|].
    pose proof Hr as [Hinv Hm]. destruct Hok as (Hp & Hn & Ha).
    pose proof (add_spec h p sorted Hinv Hp) as H. rewrite E in H.
    destruct H as [Hfull Hc].
    { by apply (represents_names h m). }
    { intros (q & Eq & Hq)%list_elem_of_fmap. apply (represents_elem h m q Hr) in Hq.
      by apply (Ha _ _ Hq). }
    destruct (prime_sizes _ (inv_prime h Hinv)) as (_ & _ & _ & Hmax).
    specialize (Hmax Hc). rewrite <-(represents_size h m Hr).
    rewrite (inv_entries h Hinv), (inv_limit h Hinv) in Hfull. lia. }
  intros Hr Hok. destruct o as [p|p|p]; simpl.
  - by apply Hadd.
  - by apply Hadd.
  - destruct (represents_remove h m p Hr Hok) as (h' & -> & Hr'). done.
Qed.

(** ** Properties *)

(** C5. The package cache refines a finite map. From a fresh table, any
    sequence of additions (of new names, with the right hash) and removals
    succeeds as long as the map stays below 414054 packages, and afterwards
    lookup by name terminates and returns exactly what the map holds. *)
Theorem pkghash_refines_map size0 h os :
  alpm_pkghash_create size0 = Some h →
  ops_ok ∅ os →
  (∀ n, Z.of_nat (size (foldl spec_op ∅ (take n os))) < 414054) →
  ∃ h', run_ops h os = Some h' ∧ pkghash_inv h' ∧
        ∀ name, alpm_pkghash_find h' name = Some (foldl spec_op ∅ os !! name).
Proof.
  intros Hc. assert (represents h ∅) as Hr.
  { destruct (create_inv _ _ Hc) as (Hi & Hn & _). split; [done|]. intros n.
    by rewrite Hn, lookup_empty. }
  clear Hc. revert h Hr. generalize (∅ : gmap cstr alpm_pkg_t) as m.
  induction os as [|o os IH]; intros m h Hr Hok Hsize; simpl in *.
  - exists h. destruct Hr as [Hi Hm]. split_and!; [done|done|]. intros n.
    by rewrite find_spec, Hm.
  - destruct Hok as [Ho Hok]. pose proof (run_op_spec h m o Hr Ho) as Hop.
    destruct (run_op h o) as [h1|].
    + apply IH; [done|done|]. intros n. apply (Hsize (S n)).
    + specialize (Hsize O). simpl in Hsize. lia.
Qed.

Definition wit_pkg (addr : nat) (n : cstr) : alpm_pkg_t :=
  simple_pkg addr n (str "1-1") [] [] [] ALPM_PKG_REASON_EXPLICIT.

Definition wit_ops : list hash_op :=
  [OpAddSorted (wit_pkg 1 (str "glibc")); OpAddSorted (wit_pkg 2 (str "bash"));
   OpRemove (wit_pkg 3 (str "glibc"))].

Lemma pkghash_refines_map_witness :
  ∃ h h', alpm_pkghash_create 5 = Some h ∧ run_ops h wit_ops = Some h' ∧
    alpm_pkghash_find h' (str "glibc") = Some None ∧
    alpm_pkghash_find h' (str "bash") = Some (Some (wit_pkg 2 (str "bash"))).
Proof.
  destruct (alpm_pkghash_create 5) as [h|] eqn:E; [|by vm_compute in E].
  destruct (pkghash_refines_map 5 h wit_ops E) as (h' & Hrun & _ & Hfind).
  - unfold wit_ops. cbn [ops_ok op_ok spec_op].
    split; [split; [|split]|split; [split; [|split]|split]].
    + reflexivity.
    + reflexivity.
    + apply map_Forall_empty.
    + reflexivity.
    + reflexivity.
    + rewrite insert_empty. by apply map_Forall_singleton.
    + reflexivity.
    + exact I.
  - intros n. do 4 (destruct n as [|n]; [vm_compute; done|]). vm_compute; done.
  - exists h, h'. split_and!; [done|done| |]; rewrite Hfind; vm_compute; done.
Defined.

(** Looking a name up in the hash table gives the same package as the
    linear search alpm_pkg_find over the list of the cache. *)
Theorem pkghash_find_equiv h n :
  pkghash_inv h → alpm_pkghash_find h n = Some (alpm_pkg_find (hash_list h) n).
Proof. apply find_spec. Qed.

Lemma pkghash_find_equiv_witness :
  ∃ h, alpm_pkghash_create 5 = Some h ∧ alpm_pkghash_find h (str "x") = Some None.
Proof.
  destruct (alpm_pkghash_create 5) as [h|] eqn:E; [|by vm_compute in E].
  exists h. split; [done|]. destruct (create_inv _ _ E) as (Hi & Hn & _).
  rewrite (pkghash_find_equiv h (str "x") Hi), Hn. reflexivity.
Defined.
