(* ===== verification/PkgSet.v ===== *)
(** * Assignments to the fields of a package

    The back ends build packages field by field (info->desc = ..., info->groups =
    alpm_list_add(info->groups, ...)): one assignment function per field. *)
From S2P Require Import Prelude CString Package.

Section fields.
Context (p : alpm_pkg_t).

Definition set_name_hash (x : Z) : alpm_pkg_t :=
  mk_pkg (pkg_addr p) x (pkg_filename p) (pkg_base p) (pkg_name p) (pkg_version p) (pkg_desc
    p) (pkg_url p) (pkg_packager p) (pkg_sha256sum p) (pkg_base64_sig p) (pkg_arch p)
    (pkg_builddate p) (pkg_installdate p) (pkg_size p) (pkg_isize p) (pkg_download_size p)
    (pkg_licenses p) (pkg_replaces p) (pkg_groups p) (pkg_backup p) (pkg_depends p)
    (pkg_optdepends p) (pkg_checkdepends p) (pkg_makedepends p) (pkg_conflicts p)
    (pkg_provides p) (pkg_removes p) (pkg_oldpkg p) (pkg_files p) (pkg_origin p) (pkg_reason
    p) (pkg_scriptlet p) (pkg_xdata p) (pkg_infolevel p) (pkg_validation p).
Definition set_filename (x : option cstr) : alpm_pkg_t :=
  mk_pkg (pkg_addr p) (pkg_name_hash p) x (pkg_base p) (pkg_name p) (pkg_version p)
    (pkg_desc p) (pkg_url p) (pkg_packager p) (pkg_sha256sum p) (pkg_base64_sig p) (pkg_arch
    p) (pkg_builddate p) (pkg_installdate p) (pkg_size p) (pkg_isize p) (pkg_download_size
    p) (pkg_licenses p) (pkg_replaces p) (pkg_groups p) (pkg_backup p) (pkg_depends p)
    (pkg_optdepends p) (pkg_checkdepends p) (pkg_makedepends p) (pkg_conflicts p)
    (pkg_provides p) (pkg_removes p) (pkg_oldpkg p) (pkg_files p) (pkg_origin p) (pkg_reason
    p) (pkg_scriptlet p) (pkg_xdata p) (pkg_infolevel p) (pkg_validation p).
Definition set_base (x : option cstr) : alpm_pkg_t :=
  mk_pkg (pkg_addr p) (pkg_name_hash p) (pkg_filename p) x (pkg_name p) (pkg_version p)
    (pkg_desc p) (pkg_url p) (pkg_packager p) (pkg_sha256sum p) (pkg_base64_sig p) (pkg_arch
    p) (pkg_builddate p) (pkg_installdate p) (pkg_size p) (pkg_isize p) (pkg_download_size
    p) (pkg_licenses p) (pkg_replaces p) (pkg_groups p) (pkg_backup p) (pkg_depends p)
    (pkg_optdepends p) (pkg_checkdepends p) (pkg_makedepends p) (pkg_conflicts p)
    (pkg_provides p) (pkg_removes p) (pkg_oldpkg p) (pkg_files p) (pkg_origin p) (pkg_reason
    p) (pkg_scriptlet p) (pkg_xdata p) (pkg_infolevel p) (pkg_validation p).
Definition set_name (x : cstr) : alpm_pkg_t :=
  mk_pkg (pkg_addr p) (pkg_name_hash p) (pkg_filename p) (pkg_base p) x (pkg_version p)
    (pkg_desc p) (pkg_url p) (pkg_packager p) (pkg_sha256sum p) (pkg_base64_sig p) (pkg_arch
    p) (pkg_builddate p) (pkg_installdate p) (pkg_size p) (pkg_isize p) (pkg_download_size
    p) (pkg_licenses p) (pkg_replaces p) (pkg_groups p) (pkg_backup p) (pkg_depends p)
    (pkg_optdepends p) (pkg_checkdepends p) (pkg_makedepends p) (pkg_conflicts p)
    (pkg_provides p) (pkg_removes p) (pkg_oldpkg p) (pkg_files p) (pkg_origin p) (pkg_reason
    p) (pkg_scriptlet p) (pkg_xdata p) (pkg_infolevel p) (pkg_validation p).
Definition set_version (x : cstr) : alpm_pkg_t :=
  mk_pkg (pkg_addr p) (pkg_name_hash p) (pkg_filename p) (pkg_base p) (pkg_name p) x
    (pkg_desc p) (pkg_url p) (pkg_packager p) (pkg_sha256sum p) (pkg_base64_sig p) (pkg_arch
    p) (pkg_builddate p) (pkg_installdate p) (pkg_size p) (pkg_isize p) (pkg_download_size
    p) (pkg_licenses p) (pkg_replaces p) (pkg_groups p) (pkg_backup p) (pkg_depends p)
    (pkg_optdepends p) (pkg_checkdepends p) (pkg_makedepends p) (pkg_conflicts p)
    (pkg_provides p) (pkg_removes p) (pkg_oldpkg p) (pkg_files p) (pkg_origin p) (pkg_reason
    p) (pkg_scriptlet p) (pkg_xdata p) (pkg_infolevel p) (pkg_validation p).
Definition set_desc (x : option cstr) : alpm_pkg_t :=
  mk_pkg (pkg_addr p) (pkg_name_hash p) (pkg_filename p) (pkg_base p) (pkg_name p)
    (pkg_version p) x (pkg_url p) (pkg_packager p) (pkg_sha256sum p) (pkg_base64_sig p)
    (pkg_arch p) (pkg_builddate p) (pkg_installdate p) (pkg_size p) (pkg_isize p)
    (pkg_download_size p) (pkg_licenses p) (pkg_replaces p) (pkg_groups p) (pkg_backup p)
    (pkg_depends p) (pkg_optdepends p) (pkg_checkdepends p) (pkg_makedepends p)
    (pkg_conflicts p) (pkg_provides p) (pkg_removes p) (pkg_oldpkg p) (pkg_files p)
    (pkg_origin p) (pkg_reason p) (pkg_scriptlet p) (pkg_xdata p) (pkg_infolevel p)
    (pkg_validation p).
Definition set_url (x : option cstr) : alpm_pkg_t :=
  mk_pkg (pkg_addr p) (pkg_name_hash p) (pkg_filename p) (pkg_base p) (pkg_name p)
    (pkg_version p) (pkg_desc p) x (pkg_packager p) (pkg_sha256sum p) (pkg_base64_sig p)
    (pkg_arch p) (pkg_builddate p) (pkg_installdate p) (pkg_size p) (pkg_isize p)
    (pkg_download_size p) (pkg_licenses p) (pkg_replaces p) (pkg_groups p) (pkg_backup p)
    (pkg_depends p) (pkg_optdepends p) (pkg_checkdepends p) (pkg_makedepends p)
    (pkg_conflicts p) (pkg_provides p) (pkg_removes p) (pkg_oldpkg p) (pkg_files p)
    (pkg_origin p) (pkg_reason p) (pkg_scriptlet p) (pkg_xdata p) (pkg_infolevel p)
    (pkg_validation p).
Definition set_packager (x : option cstr) : alpm_pkg_t :=
  mk_pkg (pkg_addr p) (pkg_name_hash p) (pkg_filename p) (pkg_base p) (pkg_name p)
    (pkg_version p) (pkg_desc p) (pkg_url p) x (pkg_sha256sum p) (pkg_base64_sig p)
    (pkg_arch p) (pkg_builddate p) (pkg_installdate p) (pkg_size p) (pkg_isize p)
    (pkg_download_size p) (pkg_licenses p) (pkg_replaces p) (pkg_groups p) (pkg_backup p)
    (pkg_depends p) (pkg_optdepends p) (pkg_checkdepends p) (pkg_makedepends p)
    (pkg_conflicts p) (pkg_provides p) (pkg_removes p) (pkg_oldpkg p) (pkg_files p)
    (pkg_origin p) (pkg_reason p) (pkg_scriptlet p) (pkg_xdata p) (pkg_infolevel p)
    (pkg_validation p).
Definition set_sha256sum (x : option cstr) : alpm_pkg_t :=
  mk_pkg (pkg_addr p) (pkg_name_hash p) (pkg_filename p) (pkg_base p) (pkg_name p)
    (pkg_version p) (pkg_desc p) (pkg_url p) (pkg_packager p) x (pkg_base64_sig p) (pkg_arch
    p) (pkg_builddate p) (pkg_installdate p) (pkg_size p) (pkg_isize p) (pkg_download_size
    p) (pkg_licenses p) (pkg_replaces p) (pkg_groups p) (pkg_backup p) (pkg_depends p)
    (pkg_optdepends p) (pkg_checkdepends p) (pkg_makedepends p) (pkg_conflicts p)
    (pkg_provides p) (pkg_removes p) (pkg_oldpkg p) (pkg_files p) (pkg_origin p) (pkg_reason
    p) (pkg_scriptlet p) (pkg_xdata p) (pkg_infolevel p) (pkg_validation p).
Definition set_base64_sig (x : option cstr) : alpm_pkg_t :=
  mk_pkg (pkg_addr p) (pkg_name_hash p) (pkg_filename p) (pkg_base p) (pkg_name p)
    (pkg_version p) (pkg_desc p) (pkg_url p) (pkg_packager p) (pkg_sha256sum p) x (pkg_arch
    p) (pkg_builddate p) (pkg_installdate p) (pkg_size p) (pkg_isize p) (pkg_download_size
    p) (pkg_licenses p) (pkg_replaces p) (pkg_groups p) (pkg_backup p) (pkg_depends p)
    (pkg_optdepends p) (pkg_checkdepends p) (pkg_makedepends p) (pkg_conflicts p)
    (pkg_provides p) (pkg_removes p) (pkg_oldpkg p) (pkg_files p) (pkg_origin p) (pkg_reason
    p) (pkg_scriptlet p) (pkg_xdata p) (pkg_infolevel p) (pkg_validation p).
Definition set_arch (x : option cstr) : alpm_pkg_t :=
  mk_pkg (pkg_addr p) (pkg_name_hash p) (pkg_filename p) (pkg_base p) (pkg_name p)
    (pkg_version p) (pkg_desc p) (pkg_url p) (pkg_packager p) (pkg_sha256sum p)
    (pkg_base64_sig p) x (pkg_builddate p) (pkg_installdate p) (pkg_size p) (pkg_isize p)
    (pkg_download_size p) (pkg_licenses p) (pkg_replaces p) (pkg_groups p) (pkg_backup p)
    (pkg_depends p) (pkg_optdepends p) (pkg_checkdepends p) (pkg_makedepends p)
    (pkg_conflicts p) (pkg_provides p) (pkg_removes p) (pkg_oldpkg p) (pkg_files p)
    (pkg_origin p) (pkg_reason p) (pkg_scriptlet p) (pkg_xdata p) (pkg_infolevel p)
    (pkg_validation p).
Definition set_builddate (x : Z) : alpm_pkg_t :=
  mk_pkg (pkg_addr p) (pkg_name_hash p) (pkg_filename p) (pkg_base p) (pkg_name p)
    (pkg_version p) (pkg_desc p) (pkg_url p) (pkg_packager p) (pkg_sha256sum p)
    (pkg_base64_sig p) (pkg_arch p) x (pkg_installdate p) (pkg_size p) (pkg_isize p)
    (pkg_download_size p) (pkg_licenses p) (pkg_replaces p) (pkg_groups p) (pkg_backup p)
    (pkg_depends p) (pkg_optdepends p) (pkg_checkdepends p) (pkg_makedepends p)
    (pkg_conflicts p) (pkg_provides p) (pkg_removes p) (pkg_oldpkg p) (pkg_files p)
    (pkg_origin p) (pkg_reason p) (pkg_scriptlet p) (pkg_xdata p) (pkg_infolevel p)
    (pkg_validation p).
Definition set_installdate (x : Z) : alpm_pkg_t :=
  mk_pkg (pkg_addr p) (pkg_name_hash p) (pkg_filename p) (pkg_base p) (pkg_name p)
    (pkg_version p) (pkg_desc p) (pkg_url p) (pkg_packager p) (pkg_sha256sum p)
    (pkg_base64_sig p) (pkg_arch p) (pkg_builddate p) x (pkg_size p) (pkg_isize p)
    (pkg_download_size p) (pkg_licenses p) (pkg_replaces p) (pkg_groups p) (pkg_backup p)
    (pkg_depends p) (pkg_optdepends p) (pkg_checkdepends p) (pkg_makedepends p)
    (pkg_conflicts p) (pkg_provides p) (pkg_removes p) (pkg_oldpkg p) (pkg_files p)
    (pkg_origin p) (pkg_reason p) (pkg_scriptlet p) (pkg_xdata p) (pkg_infolevel p)
    (pkg_validation p).
Definition set_size (x : Z) : alpm_pkg_t :=
  mk_pkg (pkg_addr p) (pkg_name_hash p) (pkg_filename p) (pkg_base p) (pkg_name p)
    (pkg_version p) (pkg_desc p) (pkg_url p) (pkg_packager p) (pkg_sha256sum p)
    (pkg_base64_sig p) (pkg_arch p) (pkg_builddate p) (pkg_installdate p) x (pkg_isize p)
    (pkg_download_size p) (pkg_licenses p) (pkg_replaces p) (pkg_groups p) (pkg_backup p)
    (pkg_depends p) (pkg_optdepends p) (pkg_checkdepends p) (pkg_makedepends p)
    (pkg_conflicts p) (pkg_provides p) (pkg_removes p) (pkg_oldpkg p) (pkg_files p)
    (pkg_origin p) (pkg_reason p) (pkg_scriptlet p) (pkg_xdata p) (pkg_infolevel p)
    (pkg_validation p).
Definition set_isize (x : Z) : alpm_pkg_t :=
  mk_pkg (pkg_addr p) (pkg_name_hash p) (pkg_filename p) (pkg_base p) (pkg_name p)
    (pkg_version p) (pkg_desc p) (pkg_url p) (pkg_packager p) (pkg_sha256sum p)
    (pkg_base64_sig p) (pkg_arch p) (pkg_builddate p) (pkg_installdate p) (pkg_size p) x
    (pkg_download_size p) (pkg_licenses p) (pkg_replaces p) (pkg_groups p) (pkg_backup p)
    (pkg_depends p) (pkg_optdepends p) (pkg_checkdepends p) (pkg_makedepends p)
    (pkg_conflicts p) (pkg_provides p) (pkg_removes p) (pkg_oldpkg p) (pkg_files p)
    (pkg_origin p) (pkg_reason p) (pkg_scriptlet p) (pkg_xdata p) (pkg_infolevel p)
    (pkg_validation p).
Definition set_licenses (x : list cstr) : alpm_pkg_t :=
  mk_pkg (pkg_addr p) (pkg_name_hash p) (pkg_filename p) (pkg_base p) (pkg_name p)
    (pkg_version p) (pkg_desc p) (pkg_url p) (pkg_packager p) (pkg_sha256sum p)
    (pkg_base64_sig p) (pkg_arch p) (pkg_builddate p) (pkg_installdate p) (pkg_size p)
    (pkg_isize p) (pkg_download_size p) x (pkg_replaces p) (pkg_groups p) (pkg_backup p)
    (pkg_depends p) (pkg_optdepends p) (pkg_checkdepends p) (pkg_makedepends p)
    (pkg_conflicts p) (pkg_provides p) (pkg_removes p) (pkg_oldpkg p) (pkg_files p)
    (pkg_origin p) (pkg_reason p) (pkg_scriptlet p) (pkg_xdata p) (pkg_infolevel p)
    (pkg_validation p).
Definition set_replaces (x : list alpm_depend_t) : alpm_pkg_t :=
  mk_pkg (pkg_addr p) (pkg_name_hash p) (pkg_filename p) (pkg_base p) (pkg_name p)
    (pkg_version p) (pkg_desc p) (pkg_url p) (pkg_packager p) (pkg_sha256sum p)
    (pkg_base64_sig p) (pkg_arch p) (pkg_builddate p) (pkg_installdate p) (pkg_size p)
    (pkg_isize p) (pkg_download_size p) (pkg_licenses p) x (pkg_groups p) (pkg_backup p)
    (pkg_depends p) (pkg_optdepends p) (pkg_checkdepends p) (pkg_makedepends p)
    (pkg_conflicts p) (pkg_provides p) (pkg_removes p) (pkg_oldpkg p) (pkg_files p)
    (pkg_origin p) (pkg_reason p) (pkg_scriptlet p) (pkg_xdata p) (pkg_infolevel p)
    (pkg_validation p).
Definition set_groups (x : list cstr) : alpm_pkg_t :=
  mk_pkg (pkg_addr p) (pkg_name_hash p) (pkg_filename p) (pkg_base p) (pkg_name p)
    (pkg_version p) (pkg_desc p) (pkg_url p) (pkg_packager p) (pkg_sha256sum p)
    (pkg_base64_sig p) (pkg_arch p) (pkg_builddate p) (pkg_installdate p) (pkg_size p)
    (pkg_isize p) (pkg_download_size p) (pkg_licenses p) (pkg_replaces p) x (pkg_backup p)
    (pkg_depends p) (pkg_optdepends p) (pkg_checkdepends p) (pkg_makedepends p)
    (pkg_conflicts p) (pkg_provides p) (pkg_removes p) (pkg_oldpkg p) (pkg_files p)
    (pkg_origin p) (pkg_reason p) (pkg_scriptlet p) (pkg_xdata p) (pkg_infolevel p)
    (pkg_validation p).
Definition set_backup (x : list alpm_backup_t) : alpm_pkg_t :=
  mk_pkg (pkg_addr p) (pkg_name_hash p) (pkg_filename p) (pkg_base p) (pkg_name p)
    (pkg_version p) (pkg_desc p) (pkg_url p) (pkg_packager p) (pkg_sha256sum p)
    (pkg_base64_sig p) (pkg_arch p) (pkg_builddate p) (pkg_installdate p) (pkg_size p)
    (pkg_isize p) (pkg_download_size p) (pkg_licenses p) (pkg_replaces p) (pkg_groups p) x
    (pkg_depends p) (pkg_optdepends p) (pkg_checkdepends p) (pkg_makedepends p)
    (pkg_conflicts p) (pkg_provides p) (pkg_removes p) (pkg_oldpkg p) (pkg_files p)
    (pkg_origin p) (pkg_reason p) (pkg_scriptlet p) (pkg_xdata p) (pkg_infolevel p)
    (pkg_validation p).
Definition set_depends (x : list alpm_depend_t) : alpm_pkg_t :=
  mk_pkg (pkg_addr p) (pkg_name_hash p) (pkg_filename p) (pkg_base p) (pkg_name p)
    (pkg_version p) (pkg_desc p) (pkg_url p) (pkg_packager p) (pkg_sha256sum p)
    (pkg_base64_sig p) (pkg_arch p) (pkg_builddate p) (pkg_installdate p) (pkg_size p)
    (pkg_isize p) (pkg_download_size p) (pkg_licenses p) (pkg_replaces p) (pkg_groups p)
    (pkg_backup p) x (pkg_optdepends p) (pkg_checkdepends p) (pkg_makedepends p)
    (pkg_conflicts p) (pkg_provides p) (pkg_removes p) (pkg_oldpkg p) (pkg_files p)
    (pkg_origin p) (pkg_reason p) (pkg_scriptlet p) (pkg_xdata p) (pkg_infolevel p)
    (pkg_validation p).
Definition set_optdepends (x : list alpm_depend_t) : alpm_pkg_t :=
  mk_pkg (pkg_addr p) (pkg_name_hash p) (pkg_filename p) (pkg_base p) (pkg_name p)
    (pkg_version p) (pkg_desc p) (pkg_url p) (pkg_packager p) (pkg_sha256sum p)
    (pkg_base64_sig p) (pkg_arch p) (pkg_builddate p) (pkg_installdate p) (pkg_size p)
    (pkg_isize p) (pkg_download_size p) (pkg_licenses p) (pkg_replaces p) (pkg_groups p)
    (pkg_backup p) (pkg_depends p) x (pkg_checkdepends p) (pkg_makedepends p) (pkg_conflicts
    p) (pkg_provides p) (pkg_removes p) (pkg_oldpkg p) (pkg_files p) (pkg_origin p)
    (pkg_reason p) (pkg_scriptlet p) (pkg_xdata p) (pkg_infolevel p) (pkg_validation p).
Definition set_checkdepends (x : list alpm_depend_t) : alpm_pkg_t :=
  mk_pkg (pkg_addr p) (pkg_name_hash p) (pkg_filename p) (pkg_base p) (pkg_name p)
    (pkg_version p) (pkg_desc p) (pkg_url p) (pkg_packager p) (pkg_sha256sum p)
    (pkg_base64_sig p) (pkg_arch p) (pkg_builddate p) (pkg_installdate p) (pkg_size p)
    (pkg_isize p) (pkg_download_size p) (pkg_licenses p) (pkg_replaces p) (pkg_groups p)
    (pkg_backup p) (pkg_depends p) (pkg_optdepends p) x (pkg_makedepends p) (pkg_conflicts
    p) (pkg_provides p) (pkg_removes p) (pkg_oldpkg p) (pkg_files p) (pkg_origin p)
    (pkg_reason p) (pkg_scriptlet p) (pkg_xdata p) (pkg_infolevel p) (pkg_validation p).
Definition set_makedepends (x : list alpm_depend_t) : alpm_pkg_t :=
  mk_pkg (pkg_addr p) (pkg_name_hash p) (pkg_filename p) (pkg_base p) (pkg_name p)
    (pkg_version p) (pkg_desc p) (pkg_url p) (pkg_packager p) (pkg_sha256sum p)
    (pkg_base64_sig p) (pkg_arch p) (pkg_builddate p) (pkg_installdate p) (pkg_size p)
    (pkg_isize p) (pkg_download_size p) (pkg_licenses p) (pkg_replaces p) (pkg_groups p)
    (pkg_backup p) (pkg_depends p) (pkg_optdepends p) (pkg_checkdepends p) x (pkg_conflicts
    p) (pkg_provides p) (pkg_removes p) (pkg_oldpkg p) (pkg_files p) (pkg_origin p)
    (pkg_reason p) (pkg_scriptlet p) (pkg_xdata p) (pkg_infolevel p) (pkg_validation p).
Definition set_conflicts (x : list alpm_depend_t) : alpm_pkg_t :=
  mk_pkg (pkg_addr p) (pkg_name_hash p) (pkg_filename p) (pkg_base p) (pkg_name p)
    (pkg_version p) (pkg_desc p) (pkg_url p) (pkg_packager p) (pkg_sha256sum p)
    (pkg_base64_sig p) (pkg_arch p) (pkg_builddate p) (pkg_installdate p) (pkg_size p)
    (pkg_isize p) (pkg_download_size p) (pkg_licenses p) (pkg_replaces p) (pkg_groups p)
    (pkg_backup p) (pkg_depends p) (pkg_optdepends p) (pkg_checkdepends p) (pkg_makedepends
    p) x (pkg_provides p) (pkg_removes p) (pkg_oldpkg p) (pkg_files p) (pkg_origin p)
    (pkg_reason p) (pkg_scriptlet p) (pkg_xdata p) (pkg_infolevel p) (pkg_validation p).
Definition set_provides (x : list alpm_depend_t) : alpm_pkg_t :=
  mk_pkg (pkg_addr p) (pkg_name_hash p) (pkg_filename p) (pkg_base p) (pkg_name p)
    (pkg_version p) (pkg_desc p) (pkg_url p) (pkg_packager p) (pkg_sha256sum p)
    (pkg_base64_sig p) (pkg_arch p) (pkg_builddate p) (pkg_installdate p) (pkg_size p)
    (pkg_isize p) (pkg_download_size p) (pkg_licenses p) (pkg_replaces p) (pkg_groups p)
    (pkg_backup p) (pkg_depends p) (pkg_optdepends p) (pkg_checkdepends p) (pkg_makedepends
    p) (pkg_conflicts p) x (pkg_removes p) (pkg_oldpkg p) (pkg_files p) (pkg_origin p)
    (pkg_reason p) (pkg_scriptlet p) (pkg_xdata p) (pkg_infolevel p) (pkg_validation p).
Definition set_files (x : list alpm_file_t) : alpm_pkg_t :=
  mk_pkg (pkg_addr p) (pkg_name_hash p) (pkg_filename p) (pkg_base p) (pkg_name p)
    (pkg_version p) (pkg_desc p) (pkg_url p) (pkg_packager p) (pkg_sha256sum p)
    (pkg_base64_sig p) (pkg_arch p) (pkg_builddate p) (pkg_installdate p) (pkg_size p)
    (pkg_isize p) (pkg_download_size p) (pkg_licenses p) (pkg_replaces p) (pkg_groups p)
    (pkg_backup p) (pkg_depends p) (pkg_optdepends p) (pkg_checkdepends p) (pkg_makedepends
    p) (pkg_conflicts p) (pkg_provides p) (pkg_removes p) (pkg_oldpkg p) x (pkg_origin p)
    (pkg_reason p) (pkg_scriptlet p) (pkg_xdata p) (pkg_infolevel p) (pkg_validation p).
Definition set_origin (x : alpm_pkgfrom_t) : alpm_pkg_t :=
  mk_pkg (pkg_addr p) (pkg_name_hash p) (pkg_filename p) (pkg_base p) (pkg_name p)
    (pkg_version p) (pkg_desc p) (pkg_url p) (pkg_packager p) (pkg_sha256sum p)
    (pkg_base64_sig p) (pkg_arch p) (pkg_builddate p) (pkg_installdate p) (pkg_size p)
    (pkg_isize p) (pkg_download_size p) (pkg_licenses p) (pkg_replaces p) (pkg_groups p)
    (pkg_backup p) (pkg_depends p) (pkg_optdepends p) (pkg_checkdepends p) (pkg_makedepends
    p) (pkg_conflicts p) (pkg_provides p) (pkg_removes p) (pkg_oldpkg p) (pkg_files p) x
    (pkg_reason p) (pkg_scriptlet p) (pkg_xdata p) (pkg_infolevel p) (pkg_validation p).
Definition set_reason (x : alpm_pkgreason_t) : alpm_pkg_t :=
  mk_pkg (pkg_addr p) (pkg_name_hash p) (pkg_filename p) (pkg_base p) (pkg_name p)
    (pkg_version p) (pkg_desc p) (pkg_url p) (pkg_packager p) (pkg_sha256sum p)
    (pkg_base64_sig p) (pkg_arch p) (pkg_builddate p) (pkg_installdate p) (pkg_size p)
    (pkg_isize p) (pkg_download_size p) (pkg_licenses p) (pkg_replaces p) (pkg_groups p)
    (pkg_backup p) (pkg_depends p) (pkg_optdepends p) (pkg_checkdepends p) (pkg_makedepends
    p) (pkg_conflicts p) (pkg_provides p) (pkg_removes p) (pkg_oldpkg p) (pkg_files p)
    (pkg_origin p) x (pkg_scriptlet p) (pkg_xdata p) (pkg_infolevel p) (pkg_validation p).
Definition set_scriptlet (x : Z) : alpm_pkg_t :=
  mk_pkg (pkg_addr p) (pkg_name_hash p) (pkg_filename p) (pkg_base p) (pkg_name p)
    (pkg_version p) (pkg_desc p) (pkg_url p) (pkg_packager p) (pkg_sha256sum p)
    (pkg_base64_sig p) (pkg_arch p) (pkg_builddate p) (pkg_installdate p) (pkg_size p)
    (pkg_isize p) (pkg_download_size p) (pkg_licenses p) (pkg_replaces p) (pkg_groups p)
    (pkg_backup p) (pkg_depends p) (pkg_optdepends p) (pkg_checkdepends p) (pkg_makedepends
    p) (pkg_conflicts p) (pkg_provides p) (pkg_removes p) (pkg_oldpkg p) (pkg_files p)
    (pkg_origin p) (pkg_reason p) x (pkg_xdata p) (pkg_infolevel p) (pkg_validation p).
Definition set_xdata (x : list alpm_pkg_xdata_t) : alpm_pkg_t :=
  mk_pkg (pkg_addr p) (pkg_name_hash p) (pkg_filename p) (pkg_base p) (pkg_name p)
    (pkg_version p) (pkg_desc p) (pkg_url p) (pkg_packager p) (pkg_sha256sum p)
    (pkg_base64_sig p) (pkg_arch p) (pkg_builddate p) (pkg_installdate p) (pkg_size p)
    (pkg_isize p) (pkg_download_size p) (pkg_licenses p) (pkg_replaces p) (pkg_groups p)
    (pkg_backup p) (pkg_depends p) (pkg_optdepends p) (pkg_checkdepends p) (pkg_makedepends
    p) (pkg_conflicts p) (pkg_provides p) (pkg_removes p) (pkg_oldpkg p) (pkg_files p)
    (pkg_origin p) (pkg_reason p) (pkg_scriptlet p) x (pkg_infolevel p) (pkg_validation p).
Definition set_infolevel (x : Z) : alpm_pkg_t :=
  mk_pkg (pkg_addr p) (pkg_name_hash p) (pkg_filename p) (pkg_base p) (pkg_name p)
    (pkg_version p) (pkg_desc p) (pkg_url p) (pkg_packager p) (pkg_sha256sum p)
    (pkg_base64_sig p) (pkg_arch p) (pkg_builddate p) (pkg_installdate p) (pkg_size p)
    (pkg_isize p) (pkg_download_size p) (pkg_licenses p) (pkg_replaces p) (pkg_groups p)
    (pkg_backup p) (pkg_depends p) (pkg_optdepends p) (pkg_checkdepends p) (pkg_makedepends
    p) (pkg_conflicts p) (pkg_provides p) (pkg_removes p) (pkg_oldpkg p) (pkg_files p)
    (pkg_origin p) (pkg_reason p) (pkg_scriptlet p) (pkg_xdata p) x (pkg_validation p).
Definition set_validation (x : Z) : alpm_pkg_t :=
  mk_pkg (pkg_addr p) (pkg_name_hash p) (pkg_filename p) (pkg_base p) (pkg_name p)
    (pkg_version p) (pkg_desc p) (pkg_url p) (pkg_packager p) (pkg_sha256sum p)
    (pkg_base64_sig p) (pkg_arch p) (pkg_builddate p) (pkg_installdate p) (pkg_size p)
    (pkg_isize p) (pkg_download_size p) (pkg_licenses p) (pkg_replaces p) (pkg_groups p)
    (pkg_backup p) (pkg_depends p) (pkg_optdepends p) (pkg_checkdepends p) (pkg_makedepends
    p) (pkg_conflicts p) (pkg_provides p) (pkg_removes p) (pkg_oldpkg p) (pkg_files p)
    (pkg_origin p) (pkg_reason p) (pkg_scriptlet p) (pkg_xdata p) (pkg_infolevel p) x.
End fields.
