(* ===== verification/Handle.v ===== *)
(** * The handle, databases and transactions as state

    lib/libalpm/handle.h, db.h, trans.h, group.h and the parts of handle.c and
    db.c that keep this state: the records, the bit fields, the accessors of
    the package cache. [h_next] stands for the allocator: the next free package
    address. *)
From S2P Require Import Prelude CString AlpmList Util Package PkgHash.
Local Open Scope Z_scope.

(** ** Error codes (alpm_errno_t) *)
Inductive alpm_errno_t :=
  | ALPM_ERR_OK | ALPM_ERR_MEMORY | ALPM_ERR_SYSTEM
  | ALPM_ERR_BADPERMS | ALPM_ERR_NOT_A_FILE | ALPM_ERR_NOT_A_DIR
  | ALPM_ERR_WRONG_ARGS | ALPM_ERR_DISK_SPACE | ALPM_ERR_HANDLE_NULL
  | ALPM_ERR_HANDLE_NOT_NULL | ALPM_ERR_HANDLE_LOCK | ALPM_ERR_DB_OPEN
  | ALPM_ERR_DB_CREATE | ALPM_ERR_DB_NULL | ALPM_ERR_DB_NOT_NULL
  | ALPM_ERR_DB_NOT_FOUND | ALPM_ERR_DB_INVALID | ALPM_ERR_DB_INVALID_SIG
  | ALPM_ERR_DB_VERSION | ALPM_ERR_DB_WRITE | ALPM_ERR_DB_REMOVE
  | ALPM_ERR_SERVER_BAD_URL | ALPM_ERR_SERVER_NONE | ALPM_ERR_TRANS_NOT_NULL
  | ALPM_ERR_TRANS_NULL | ALPM_ERR_TRANS_DUP_TARGET | ALPM_ERR_TRANS_DUP_FILENAME
  | ALPM_ERR_TRANS_NOT_INITIALIZED | ALPM_ERR_TRANS_NOT_PREPARED | ALPM_ERR_TRANS_ABORT
  | ALPM_ERR_TRANS_TYPE | ALPM_ERR_TRANS_NOT_LOCKED | ALPM_ERR_TRANS_HOOK_FAILED
  | ALPM_ERR_PKG_NOT_FOUND | ALPM_ERR_PKG_IGNORED | ALPM_ERR_PKG_INVALID
  | ALPM_ERR_PKG_INVALID_CHECKSUM | ALPM_ERR_PKG_INVALID_SIG | ALPM_ERR_PKG_MISSING_SIG
  | ALPM_ERR_PKG_OPEN | ALPM_ERR_PKG_CANT_REMOVE | ALPM_ERR_PKG_INVALID_NAME
  | ALPM_ERR_PKG_INVALID_ARCH | ALPM_ERR_SIG_MISSING | ALPM_ERR_SIG_INVALID
  | ALPM_ERR_UNSATISFIED_DEPS | ALPM_ERR_CONFLICTING_DEPS | ALPM_ERR_FILE_CONFLICTS
  | ALPM_ERR_RETRIEVE_PREPARE | ALPM_ERR_RETRIEVE | ALPM_ERR_INVALID_REGEX
  | ALPM_ERR_LIBARCHIVE | ALPM_ERR_LIBCURL | ALPM_ERR_EXTERNAL_DOWNLOAD
  | ALPM_ERR_GPGME | ALPM_ERR_MISSING_CAPABILITY_SIGNATURES.

#[export] Instance errno_eq_dec : EqDecision alpm_errno_t.
Proof. solve_decision. Defined.

(** ** Bit fields *)
Definition has_flag (bits flag : Z) : bool := negb (Z.land bits flag =? 0).

Definition ALPM_DB_USAGE_SYNC := 1.
Definition ALPM_DB_USAGE_SEARCH := Z.shiftl 1 1.
Definition ALPM_DB_USAGE_INSTALL := Z.shiftl 1 2.
Definition ALPM_DB_USAGE_UPGRADE := Z.shiftl 1 3.
Definition ALPM_DB_USAGE_ALL := Z.shiftl 1 4 - 1.

Definition DB_STATUS_VALID := Z.shiftl 1 0.
Definition DB_STATUS_INVALID := Z.shiftl 1 1.
Definition DB_STATUS_EXISTS := Z.shiftl 1 2.
Definition DB_STATUS_MISSING := Z.shiftl 1 3.
Definition DB_STATUS_LOCAL := Z.shiftl 1 10.
Definition DB_STATUS_PKGCACHE := Z.shiftl 1 11.
Definition DB_STATUS_GRPCACHE := Z.shiftl 1 12.

(** The parts of a package that a back end loads. *)
Definition INFRQ_BASE := Z.shiftl 1 0.
Definition INFRQ_DESC := Z.shiftl 1 1.
Definition INFRQ_FILES := Z.shiftl 1 2.
Definition INFRQ_SCRIPTLET := Z.shiftl 1 3.
Definition INFRQ_DSIZE := Z.shiftl 1 4.
Definition INFRQ_ALL :=
  Z.lor INFRQ_BASE (Z.lor INFRQ_DESC (Z.lor INFRQ_FILES (Z.lor INFRQ_SCRIPTLET INFRQ_DSIZE))).
Definition INFRQ_ERROR := Z.shiftl 1 30.

Definition ALPM_TRANS_FLAG_NODEPS := 1.
Definition ALPM_TRANS_FLAG_NOSAVE := Z.shiftl 1 2.
Definition ALPM_TRANS_FLAG_NODEPVERSION := Z.shiftl 1 3.
Definition ALPM_TRANS_FLAG_CASCADE := Z.shiftl 1 4.
Definition ALPM_TRANS_FLAG_RECURSE := Z.shiftl 1 5.
Definition ALPM_TRANS_FLAG_DBONLY := Z.shiftl 1 6.
Definition ALPM_TRANS_FLAG_NOHOOKS := Z.shiftl 1 7.
Definition ALPM_TRANS_FLAG_ALLDEPS := Z.shiftl 1 8.
Definition ALPM_TRANS_FLAG_DOWNLOADONLY := Z.shiftl 1 9.
Definition ALPM_TRANS_FLAG_NOSCRIPTLET := Z.shiftl 1 10.
Definition ALPM_TRANS_FLAG_NOCONFLICTS := Z.shiftl 1 11.
Definition ALPM_TRANS_FLAG_NEEDED := Z.shiftl 1 13.
Definition ALPM_TRANS_FLAG_ALLEXPLICIT := Z.shiftl 1 14.
Definition ALPM_TRANS_FLAG_UNNEEDED := Z.shiftl 1 15.
Definition ALPM_TRANS_FLAG_RECURSEALL := Z.shiftl 1 16.
Definition ALPM_TRANS_FLAG_NOLOCK := Z.shiftl 1 17.

(** ** Records *)
Record alpm_group_t := mk_group { grp_name : cstr; grp_packages : list alpm_pkg_t }.

Record alpm_db_t := mk_db {
  db_treename : cstr;
  db_pkgcache : option alpm_pkghash_t;
  db_grpcache : list alpm_group_t;
  db_cache_servers : list cstr;
  db_servers : list cstr;
  db_status : Z;
  db_siglevel : Z;
  db_usage : Z
}.

Inductive alpm_transstate_t :=
  | STATE_IDLE | STATE_INITIALIZED | STATE_PREPARED | STATE_DOWNLOADING
  | STATE_COMMITTING | STATE_COMMITTED | STATE_INTERRUPTED.

#[export] Instance transstate_eq_dec : EqDecision alpm_transstate_t.
Proof. solve_decision. Defined.

Record alpm_trans_t := mk_trans {
  t_flags : Z;
  t_state : alpm_transstate_t;
  t_unresolvable : list alpm_pkg_t;
  t_add : list alpm_pkg_t;
  t_remove : list alpm_pkg_t;
  t_skip_remove : list cstr
}.

(** The paths and scalar options of the handle. *)
Record alpm_options_t := mk_options {
  o_root : option cstr;
  o_dbpath : option cstr;
  o_logfile : option cstr;
  o_lockfile : option cstr;
  o_gpgdir : option cstr;
  o_sandboxuser : option cstr;
  o_dbext : option cstr;
  o_usesyslog : Z;
  o_checkspace : Z;
  o_siglevel : Z;
  o_localfilesiglevel : Z;
  o_remotefilesiglevel : Z;
  o_disable_dl_timeout : Z;
  o_disable_sandbox_filesystem : Z;
  o_disable_sandbox_syscalls : Z;
  o_parallel_downloads : Z
}.

Record alpm_handle_t := mk_handle {
  h_db_local : alpm_db_t;
  h_dbs_sync : list alpm_db_t;
  h_trans : option alpm_trans_t;
  h_lockfd : Z;
  h_cachedirs : list cstr;
  h_hookdirs : list cstr;
  h_overwrite_files : list cstr;
  h_noupgrade : list cstr;
  h_noextract : list cstr;
  h_ignorepkg : list cstr;
  h_ignoregroup : list cstr;
  h_assumeinstalled : list alpm_depend_t;
  h_architectures : list cstr;
  h_pm_errno : alpm_errno_t;
  h_options : alpm_options_t;
  h_next : nat
}.

(** A handle with an empty local database and no transaction, for the
    examples. *)
Definition empty_db (treename : cstr) : alpm_db_t :=
  mk_db treename None [] [] [] (Z.lor DB_STATUS_VALID DB_STATUS_PKGCACHE) 0 ALPM_DB_USAGE_ALL.
Definition default_options : alpm_options_t :=
  mk_options (Some (str "/")) (Some (str "/var/lib/dulge/")) None
    (Some (str "/var/lib/dulge/db.lck")) None None (Some (str ".db")) 0 0 0 0 0 0 0 0 1.
Definition empty_handle : alpm_handle_t :=
  mk_handle (empty_db (str "local")) [] None (-1) [] [] [] [] [] [] [] [] [] ALPM_ERR_OK
    default_options 1000.

(** ** Field updates *)
Definition set_errno (e : alpm_errno_t) (h : alpm_handle_t) : alpm_handle_t :=
  mk_handle (h_db_local h) (h_dbs_sync h) (h_trans h) (h_lockfd h) (h_cachedirs h)
    (h_hookdirs h) (h_overwrite_files h) (h_noupgrade h) (h_noextract h) (h_ignorepkg h)
    (h_ignoregroup h) (h_assumeinstalled h) (h_architectures h) e (h_options h) (h_next h).

Definition set_trans (t : option alpm_trans_t) (h : alpm_handle_t) : alpm_handle_t :=
  mk_handle (h_db_local h) (h_dbs_sync h) t (h_lockfd h) (h_cachedirs h) (h_hookdirs h)
    (h_overwrite_files h) (h_noupgrade h) (h_noextract h) (h_ignorepkg h) (h_ignoregroup h)
    (h_assumeinstalled h) (h_architectures h) (h_pm_errno h) (h_options h) (h_next h).

Definition set_lockfd (fd : Z) (h : alpm_handle_t) : alpm_handle_t :=
  mk_handle (h_db_local h) (h_dbs_sync h) (h_trans h) fd (h_cachedirs h) (h_hookdirs h)
    (h_overwrite_files h) (h_noupgrade h) (h_noextract h) (h_ignorepkg h) (h_ignoregroup h)
    (h_assumeinstalled h) (h_architectures h) (h_pm_errno h) (h_options h) (h_next h).

Definition set_next (n : nat) (h : alpm_handle_t) : alpm_handle_t :=
  mk_handle (h_db_local h) (h_dbs_sync h) (h_trans h) (h_lockfd h) (h_cachedirs h)
    (h_hookdirs h) (h_overwrite_files h) (h_noupgrade h) (h_noextract h) (h_ignorepkg h)
    (h_ignoregroup h) (h_assumeinstalled h) (h_architectures h) (h_pm_errno h)
    (h_options h) n.

Definition set_dbs_sync (dbs : list alpm_db_t) (h : alpm_handle_t) : alpm_handle_t :=
  mk_handle (h_db_local h) dbs (h_trans h) (h_lockfd h) (h_cachedirs h) (h_hookdirs h)
    (h_overwrite_files h) (h_noupgrade h) (h_noextract h) (h_ignorepkg h) (h_ignoregroup h)
    (h_assumeinstalled h) (h_architectures h) (h_pm_errno h) (h_options h) (h_next h).

Definition set_db_local (db : alpm_db_t) (h : alpm_handle_t) : alpm_handle_t :=
  mk_handle db (h_dbs_sync h) (h_trans h) (h_lockfd h) (h_cachedirs h) (h_hookdirs h)
    (h_overwrite_files h) (h_noupgrade h) (h_noextract h) (h_ignorepkg h) (h_ignoregroup h)
    (h_assumeinstalled h) (h_architectures h) (h_pm_errno h) (h_options h) (h_next h).

Definition set_options (o : alpm_options_t) (h : alpm_handle_t) : alpm_handle_t :=
  mk_handle (h_db_local h) (h_dbs_sync h) (h_trans h) (h_lockfd h) (h_cachedirs h)
    (h_hookdirs h) (h_overwrite_files h) (h_noupgrade h) (h_noextract h) (h_ignorepkg h)
    (h_ignoregroup h) (h_assumeinstalled h) (h_architectures h) (h_pm_errno h) o (h_next h).

Definition set_cachedirs (l : list cstr) (h : alpm_handle_t) : alpm_handle_t :=
  mk_handle (h_db_local h) (h_dbs_sync h) (h_trans h) (h_lockfd h) l (h_hookdirs h)
    (h_overwrite_files h) (h_noupgrade h) (h_noextract h) (h_ignorepkg h) (h_ignoregroup h)
    (h_assumeinstalled h) (h_architectures h) (h_pm_errno h) (h_options h) (h_next h).

Definition set_hookdirs (l : list cstr) (h : alpm_handle_t) : alpm_handle_t :=
  mk_handle (h_db_local h) (h_dbs_sync h) (h_trans h) (h_lockfd h) (h_cachedirs h) l
    (h_overwrite_files h) (h_noupgrade h) (h_noextract h) (h_ignorepkg h) (h_ignoregroup h)
    (h_assumeinstalled h) (h_architectures h) (h_pm_errno h) (h_options h) (h_next h).

Definition set_overwrite_files (l : list cstr) (h : alpm_handle_t) : alpm_handle_t :=
  mk_handle (h_db_local h) (h_dbs_sync h) (h_trans h) (h_lockfd h) (h_cachedirs h)
    (h_hookdirs h) l (h_noupgrade h) (h_noextract h) (h_ignorepkg h) (h_ignoregroup h)
    (h_assumeinstalled h) (h_architectures h) (h_pm_errno h) (h_options h) (h_next h).

Definition set_noupgrade (l : list cstr) (h : alpm_handle_t) : alpm_handle_t :=
  mk_handle (h_db_local h) (h_dbs_sync h) (h_trans h) (h_lockfd h) (h_cachedirs h)
    (h_hookdirs h) (h_overwrite_files h) l (h_noextract h) (h_ignorepkg h)
    (h_ignoregroup h) (h_assumeinstalled h) (h_architectures h) (h_pm_errno h)
    (h_options h) (h_next h).

Definition set_noextract (l : list cstr) (h : alpm_handle_t) : alpm_handle_t :=
  mk_handle (h_db_local h) (h_dbs_sync h) (h_trans h) (h_lockfd h) (h_cachedirs h)
    (h_hookdirs h) (h_overwrite_files h) (h_noupgrade h) l (h_ignorepkg h)
    (h_ignoregroup h) (h_assumeinstalled h) (h_architectures h) (h_pm_errno h)
    (h_options h) (h_next h).

Definition set_ignorepkg (l : list cstr) (h : alpm_handle_t) : alpm_handle_t :=
  mk_handle (h_db_local h) (h_dbs_sync h) (h_trans h) (h_lockfd h) (h_cachedirs h)
    (h_hookdirs h) (h_overwrite_files h) (h_noupgrade h) (h_noextract h) l
    (h_ignoregroup h) (h_assumeinstalled h) (h_architectures h) (h_pm_errno h)
    (h_options h) (h_next h).

Definition set_ignoregroup (l : list cstr) (h : alpm_handle_t) : alpm_handle_t :=
  mk_handle (h_db_local h) (h_dbs_sync h) (h_trans h) (h_lockfd h) (h_cachedirs h)
    (h_hookdirs h) (h_overwrite_files h) (h_noupgrade h) (h_noextract h) (h_ignorepkg h) l
    (h_assumeinstalled h) (h_architectures h) (h_pm_errno h) (h_options h) (h_next h).

Definition set_architectures (l : list cstr) (h : alpm_handle_t) : alpm_handle_t :=
  mk_handle (h_db_local h) (h_dbs_sync h) (h_trans h) (h_lockfd h) (h_cachedirs h)
    (h_hookdirs h) (h_overwrite_files h) (h_noupgrade h) (h_noextract h) (h_ignorepkg h)
    (h_ignoregroup h) (h_assumeinstalled h) l (h_pm_errno h) (h_options h) (h_next h).

Definition set_assumeinstalled (l : list alpm_depend_t) (h : alpm_handle_t) : alpm_handle_t :=
  mk_handle (h_db_local h) (h_dbs_sync h) (h_trans h) (h_lockfd h) (h_cachedirs h)
    (h_hookdirs h) (h_overwrite_files h) (h_noupgrade h) (h_noextract h) (h_ignorepkg h)
    (h_ignoregroup h) l (h_architectures h) (h_pm_errno h) (h_options h) (h_next h).

(** CHECK_HANDLE on a handle that is not NULL, and RET_ERR(handle, e, -1). *)
Definition check_handle (h : alpm_handle_t) : alpm_handle_t := set_errno ALPM_ERR_OK h.
Definition ret_err (e : alpm_errno_t) (h : alpm_handle_t) : alpm_handle_t * Z :=
  (set_errno e h, -1).

Definition trans_flags (h : alpm_handle_t) : Z :=
  match h_trans h with Some t => t_flags t | None => 0 end.

Definition trans_add (h : alpm_handle_t) : list alpm_pkg_t :=
  match h_trans h with Some t => t_add t | None => [] end.
Definition trans_remove (h : alpm_handle_t) : list alpm_pkg_t :=
  match h_trans h with Some t => t_remove t | None => [] end.

Definition with_add (l : list alpm_pkg_t) (t : alpm_trans_t) : alpm_trans_t :=
  mk_trans (t_flags t) (t_state t) (t_unresolvable t) l (t_remove t) (t_skip_remove t).
Definition with_remove (l : list alpm_pkg_t) (t : alpm_trans_t) : alpm_trans_t :=
  mk_trans (t_flags t) (t_state t) (t_unresolvable t) (t_add t) l (t_skip_remove t).
Definition with_unresolvable (l : list alpm_pkg_t) (t : alpm_trans_t) : alpm_trans_t :=
  mk_trans (t_flags t) (t_state t) l (t_add t) (t_remove t) (t_skip_remove t).
Definition with_state (s : alpm_transstate_t) (t : alpm_trans_t) : alpm_trans_t :=
  mk_trans (t_flags t) s (t_unresolvable t) (t_add t) (t_remove t) (t_skip_remove t).

(** An update of the current transaction. *)
Definition upd_trans (f : alpm_trans_t → alpm_trans_t) (h : alpm_handle_t) : alpm_handle_t :=
  set_trans (f <$> h_trans h) h.

(** _alpm_pkg_dup in the handle's heap. *)
Definition dup_pkg (h : alpm_handle_t) (p : alpm_pkg_t) : alpm_pkg_t * alpm_handle_t :=
  (alpm_pkg_dup (h_next h) p, set_next (S (h_next h)) h).

(** ** Callbacks and library functions

    The answers of the question callback of the front end, as functions of what
    is asked, and POSIX fnmatch ([true] for a match). With no callback the
    answers are those the questions are initialised with. *)
Record alpm_env := mk_env {
  q_install_ignorepkg : alpm_pkg_t → bool;
  q_select_provider : list alpm_pkg_t → alpm_depend_t → Z;
  q_replace_pkg : alpm_pkg_t → alpm_pkg_t → bool;
  q_conflict_pkg : alpm_pkg_t → alpm_pkg_t → bool;
  q_remove_pkgs : list alpm_pkg_t → bool;
  posix_fnmatch : cstr → cstr → bool
}.

Definition no_callback : alpm_env :=
  mk_env (λ _, false) (λ _ _, 0) (λ _ _, false) (λ _ _, false) (λ _, false) streq.

Definition should_ignore (env : alpm_env) (h : alpm_handle_t) (pkg : alpm_pkg_t) : bool :=
  alpm_pkg_should_ignore (posix_fnmatch env) (h_ignorepkg h) (h_ignoregroup h) pkg.

(** ** The package cache of a database *)

(** A database whose cache is loaded and valid. *)
Definition db_loaded (db : alpm_db_t) : bool :=
  has_flag (db_status db) DB_STATUS_VALID && has_flag (db_status db) DB_STATUS_PKGCACHE.

(** _alpm_db_get_pkgcache_hash, _alpm_db_get_pkgcache and
    _alpm_db_get_pkgfromcache of a loaded database; an invalid one gives
    NULL. *)
Definition alpm_db_get_pkgcache_hash (db : alpm_db_t) : option alpm_pkghash_t :=
  if negb (has_flag (db_status db) DB_STATUS_VALID) then None else db_pkgcache db.

Definition alpm_db_get_pkgcache (db : alpm_db_t) : list alpm_pkg_t :=
  match alpm_db_get_pkgcache_hash db with Some hash => hash_list hash | None => [] end.

Definition alpm_db_get_pkgfromcache (db : alpm_db_t) (target : cstr) : option alpm_pkg_t :=
  match alpm_db_get_pkgcache_hash db with
  | Some hash => match alpm_pkghash_find hash target with Some r => r | None => None end
  | None => None
  end.

Definition db_inv (db : alpm_db_t) : Prop :=
  match db_pkgcache db with Some hash => pkghash_inv hash | None => True end.

(** What a database cache promises to the other components: its list has
    correct hashes and distinct names, and lookup by name agrees with it. *)
Class PkgCache (db : alpm_db_t) : Prop := {
  cache_hashes : hashes_ok (alpm_db_get_pkgcache db);
  cache_names : NoDup (map pkg_name (alpm_db_get_pkgcache db));
  cache_addrs : NoDup (map pkg_addr (alpm_db_get_pkgcache db));
  cache_lookup : ∀ n, alpm_db_get_pkgfromcache db n = alpm_pkg_find (alpm_db_get_pkgcache db) n
}.

#[export] Instance db_inv_cache db : db_inv db → PkgCache db.
Proof.
  unfold db_inv. intros Hi.
  assert (alpm_db_get_pkgcache_hash db = None ∨
          ∃ hash, alpm_db_get_pkgcache_hash db = Some hash ∧ pkghash_inv hash) as H.
  { unfold alpm_db_get_pkgcache_hash. destruct (negb _); [by left|].
    destruct (db_pkgcache db) as [hash|]; [right; eauto|by left]. }
  unfold alpm_db_get_pkgcache, alpm_db_get_pkgfromcache.
  split; unfold alpm_db_get_pkgcache, alpm_db_get_pkgfromcache;
    destruct H as [->|(hash & -> & Hh)]; try apply Hh; try constructor; try done.
  intros n. by rewrite find_spec.
Qed.

Lemma cache_lookup_Some db n p :
  PkgCache db → alpm_db_get_pkgfromcache db n = Some p →
  p ∈ alpm_db_get_pkgcache db ∧ pkg_name p = n.
Proof. intros Hc. rewrite cache_lookup. apply pkg_find_Some. Qed.

Lemma cache_lookup_None db n :
  PkgCache db → alpm_db_get_pkgfromcache db n = None ↔ n ∉ map pkg_name (alpm_db_get_pkgcache db).
Proof. intros Hc. rewrite cache_lookup. apply pkg_find_None, cache_hashes. Qed.

Lemma cache_lookup_elem db p :
  PkgCache db → p ∈ alpm_db_get_pkgcache db → alpm_db_get_pkgfromcache db (pkg_name p) = Some p.
Proof. intros Hc Hp. rewrite cache_lookup. by apply pkg_find_unique; try apply Hc. Qed.

(** ** Databases from lists, for the examples *)
Fixpoint add_all (h : alpm_pkghash_t) (l : list alpm_pkg_t) : option alpm_pkghash_t :=
  match l with
  | [] => Some h
  | p :: l' => match alpm_pkghash_add h p with Some h' => add_all h' l' | None => None end
  end.

Definition list_db (treename : cstr) (status : Z) (l : list alpm_pkg_t) : alpm_db_t :=
  mk_db treename (match alpm_pkghash_create 20 with Some h => add_all h l | None => None end)
    [] [] [] (Z.lor status (Z.lor DB_STATUS_VALID DB_STATUS_PKGCACHE)) 0 ALPM_DB_USAGE_ALL.

Lemma add_all_inv h l h' :
  pkghash_inv h → hashes_ok l →
  NoDup (map pkg_name (hash_list h ++ l)) → NoDup (map pkg_addr (hash_list h ++ l)) →
  add_all h l = Some h' → pkghash_inv h'.
Proof.
  revert h. induction l as [|p l IH]; intros h Hi Hh Hn Ha; simpl; [by intros [= <-]|].
  apply Forall_cons in Hh as [Hp Hh]. unfold alpm_pkghash_add.
  assert (pkg_name p ∉ map pkg_name (hash_list h) ∧ pkg_addr p ∉ map pkg_addr (hash_list h))
    as [Hn1 Ha1].
  { rewrite map_app in Hn, Ha. simpl in Hn, Ha. rewrite <-Permutation_middle in Hn, Ha.
    apply NoDup_cons in Hn as [Hn _]. apply NoDup_cons in Ha as [Ha _]. set_solver. }
  pose proof (add_spec h p false Hi Hp Hn1 Ha1) as Hadd.
  destruct (pkghash_add_pkg h p false) as [h1|]; [|done]. destruct Hadd as [Hi1 Hl1].
  apply IH; [done|done|rewrite Hl1, <-app_assoc; done..].
Qed.

Lemma list_db_inv treename status l :
  hashes_ok l → NoDup (map pkg_name l) → NoDup (map pkg_addr l) → db_inv (list_db treename status l).
Proof.
  intros Hh Hn Ha. unfold db_inv, list_db. cbn [db_pkgcache].
  destruct (alpm_pkghash_create 20) as [h|] eqn:Ec; [|exact I].
  destruct (add_all h l) as [h'|] eqn:Eadd; [|exact I].
  destruct (create_inv _ _ Ec) as (Hi & Hnil & _).
  apply (add_all_inv h l); [exact Hi|exact Hh|rewrite Hnil; assumption..|exact Eadd].
Qed.

Lemma list_db_cache treename status l :
  hashes_ok l → NoDup (map pkg_name l) → NoDup (map pkg_addr l) → PkgCache (list_db treename status l).
Proof. intros Hh Hn Ha. by apply db_inv_cache, list_db_inv. Qed.

(** Discharge the conditions of [list_db_cache] on concrete packages. *)
Ltac concrete_cache :=
  apply list_db_cache;
  [repeat constructor|apply (bool_decide_unpack _); vm_compute; exact I..].
