(* ===== verification/Deps.v ===== *)
(** * Dependencies

    lib/libalpm/deps.c: matching a dependency against packages and provisions,
    the textual form of dependencies, and alpm_checkdeps. Sorting by
    dependencies, the recursive selection and the resolver are in SortDeps,
    RecurseDeps and ResolveDeps. *)
From S2P Require Import Prelude CString Version AlpmList Util Package PkgHash Handle.
Local Open Scope Z_scope.

(** ** Matching *)
Definition dep_vercmp (version1 : option cstr) (mod_ : alpm_depmod_t)
    (version2 : option cstr) : bool :=
  match mod_ with
  | ALPM_DEP_MOD_ANY => true
  | _ =>
      let cmp := alpm_pkg_vercmp version1 version2 in
      match mod_ with
      | ALPM_DEP_MOD_EQ => cmp =? 0
      | ALPM_DEP_MOD_GE => 0 <=? cmp
      | ALPM_DEP_MOD_LE => cmp <=? 0
      | ALPM_DEP_MOD_LT => cmp <? 0
      | ALPM_DEP_MOD_GT => 0 <? cmp
      | ALPM_DEP_MOD_ANY => true
      end
  end.

Definition alpm_depcmp_literal (pkg : alpm_pkg_t) (dep : alpm_depend_t) : bool :=
  if negb (pkg_name_hash pkg =? dep_name_hash dep) || negb (streq (pkg_name pkg) (dep_name dep))
  then false
  else dep_vercmp (Some (pkg_version pkg)) (dep_mod dep) (dep_version dep).

(** One iteration of the loop of _alpm_depcmp_provides. *)
Definition provision_satisfies (dep provision : alpm_depend_t) : bool :=
  match dep_mod dep with
  | ALPM_DEP_MOD_ANY =>
      (dep_name_hash provision =? dep_name_hash dep)
      && streq (dep_name provision) (dep_name dep)
  | _ =>
      match dep_mod provision with
      | ALPM_DEP_MOD_EQ =>
          (dep_name_hash provision =? dep_name_hash dep)
          && streq (dep_name provision) (dep_name dep)
          && dep_vercmp (dep_version provision) (dep_mod dep) (dep_version dep)
      | _ => false
      end
  end.

Definition alpm_depcmp_provides (dep : alpm_depend_t) (provisions : list alpm_depend_t) : bool :=
  existsb (provision_satisfies dep) provisions.

Definition alpm_depcmp (pkg : alpm_pkg_t) (dep : alpm_depend_t) : bool :=
  alpm_depcmp_literal pkg dep || alpm_depcmp_provides dep (pkg_provides pkg).

(** pkg2 satisfies a dependency of pkg1 *)
Definition alpm_pkg_depends_on (pkg1 pkg2 : alpm_pkg_t) : bool :=
  existsb (alpm_depcmp pkg2) (pkg_depends pkg1).

Definition find_dep_satisfier (pkgs : list alpm_pkg_t) (dep : alpm_depend_t)
    : option alpm_pkg_t :=
  find_first (λ p, alpm_depcmp p dep) pkgs.

(** ** Text *)

(** [if(ptr[1] == '=')]: the kind of comparator and the version behind it. *)
Definition mod_or_equal (with_eq without : alpm_depmod_t) (rest : cstr)
    : alpm_depmod_t * cstr :=
  match rest with
  | c :: version => if Ascii.eqb c "="%char then (with_eq, version) else (without, rest)
  | [] => (without, rest)
  end.

(** The comparator of a dependency string: the text before it, its kind and
    the version behind it. '<' is looked for first, then '>', then '='. *)
Definition split_mod (body : cstr) : cstr * alpm_depmod_t * option cstr :=
  match split_first "<"%char body with
  | Some (name, rest) =>
      let '(m, version) := mod_or_equal ALPM_DEP_MOD_LE ALPM_DEP_MOD_LT rest in
      (name, m, Some version)
  | None =>
      match split_first ">"%char body with
      | Some (name, rest) =>
          let '(m, version) := mod_or_equal ALPM_DEP_MOD_GE ALPM_DEP_MOD_GT rest in
          (name, m, Some version)
      | None =>
          match split_first "="%char body with
          | Some (name, version) => (name, ALPM_DEP_MOD_EQ, Some version)
          | None => (body, ALPM_DEP_MOD_ANY, None)
          end
      end
  end.

Definition alpm_dep_from_string (depstring : cstr) : alpm_depend_t :=
  let '(body, desc) := match split_substr (str ": ") depstring with
                       | Some (pre, post) => (pre, Some post)
                       | None => (depstring, None)
                       end in
  let '(name, mod_, version) := split_mod body in
  {| dep_name := name; dep_version := version; dep_desc := desc;
     dep_name_hash := alpm_hash_sdbm name; dep_mod := mod_ |}.

Definition mod_string (m : alpm_depmod_t) : cstr :=
  match m with
  | ALPM_DEP_MOD_ANY => []
  | ALPM_DEP_MOD_GE => str ">="
  | ALPM_DEP_MOD_LE => str "<="
  | ALPM_DEP_MOD_EQ => str "="
  | ALPM_DEP_MOD_LT => str "<"
  | ALPM_DEP_MOD_GT => str ">"
  end.

Definition alpm_dep_compute_string (dep : alpm_depend_t) : cstr :=
  let ver := match dep_mod dep, dep_version dep with
             | ALPM_DEP_MOD_ANY, _ => [] | _, Some v => v | _, None => [] end in
  let desc := match dep_desc dep with Some d => str ": " ++ d | None => [] end in
  dep_name dep ++ mod_string (dep_mod dep) ++ ver ++ desc.

Definition alpm_find_satisfier (pkgs : list alpm_pkg_t) (depstring : cstr) : option alpm_pkg_t :=
  find_dep_satisfier pkgs (alpm_dep_from_string depstring).

(** ** alpm_checkdeps *)
Record alpm_depmissing_t := mk_depmissing {
  miss_target : cstr;
  miss_depend : alpm_depend_t;
  miss_causingpkg : option cstr
}.

Definition depmiss_new (target : cstr) (dep : alpm_depend_t) (causingpkg : option cstr) :=
  mk_depmissing target (alpm_dep_dup dep) causingpkg.

Definition no_dep_version (h : alpm_handle_t) : bool :=
  match h_trans h with
  | None => false
  | Some t => has_flag (t_flags t) ALPM_TRANS_FLAG_NODEPVERSION
  end.

(** [depend->mod = ALPM_DEP_MOD_ANY] while the dependency is looked at. *)
Definition relax (nodepversion : bool) (d : alpm_depend_t) : alpm_depend_t :=
  if nodepversion
  then mk_depend (dep_name d) (dep_version d) (dep_desc d) (dep_name_hash d) ALPM_DEP_MOD_ANY
  else d.

Definition is_some {A} (o : option A) : bool :=
  match o with Some _ => true | None => false end.

(** A package of the database the transaction touches: removed or upgraded. *)
Definition is_modified (rem upgrade : list alpm_pkg_t) (pkg : alpm_pkg_t) : bool :=
  is_some (alpm_pkg_find rem (pkg_name pkg)) || is_some (alpm_pkg_find upgrade (pkg_name pkg)).

Definition satisfied (upgrade dblist : list alpm_pkg_t) (assume : list alpm_depend_t)
    (depend : alpm_depend_t) : bool :=
  is_some (find_dep_satisfier upgrade depend)
  || is_some (find_dep_satisfier dblist depend)
  || alpm_depcmp_provides depend assume.

(** The dependencies of a package of the upgrade list that nothing satisfies. *)
Definition check_upgrade nodepversion upgrade dblist assume (tp : alpm_pkg_t)
    : list alpm_depmissing_t :=
  flat_map (λ d, let depend := relax nodepversion d in
                 if negb (satisfied upgrade dblist assume depend)
                 then [depmiss_new (pkg_name tp) depend None] else [])
    (pkg_depends tp).

(** The dependencies of an untouched package that the transaction breaks. *)
Definition check_reverse nodepversion upgrade dblist modified assume (lp : alpm_pkg_t)
    : list alpm_depmissing_t :=
  flat_map (λ d, let depend := relax nodepversion d in
                 match find_dep_satisfier modified depend with
                 | Some causingpkg =>
                     if negb (satisfied upgrade dblist assume depend)
                     then [depmiss_new (pkg_name lp) depend (Some (pkg_name causingpkg))] else []
                 | None => []
                 end)
    (pkg_depends lp).

Definition alpm_checkdeps (h : alpm_handle_t) (pkglist rem upgrade : list alpm_pkg_t)
    (reversedeps : bool) : list alpm_depmissing_t :=
  let modified := List.filter (is_modified rem upgrade) pkglist in
  let dblist := List.filter (λ p, negb (is_modified rem upgrade p)) pkglist in
  let nodepversion := no_dep_version h in
  flat_map (check_upgrade nodepversion upgrade dblist (h_assumeinstalled h)) upgrade ++
  if reversedeps
  then flat_map (check_reverse nodepversion upgrade dblist modified (h_assumeinstalled h)) dblist
  else [].

(** ** Facts *)

(** A set of packages, with the assumed ones, satisfies a dependency. *)
Definition sat (pkgs : list alpm_pkg_t) (assume : list alpm_depend_t) (d : alpm_depend_t) : Prop :=
  (∃ p, p ∈ pkgs ∧ alpm_depcmp p d = true) ∨ alpm_depcmp_provides d assume = true.

Lemma is_some_true {A} (o : option A) : is_some o = true ↔ is_Some o.
Proof. by destruct o. Qed.

Lemma find_dep_satisfier_Some pkgs d p :
  find_dep_satisfier pkgs d = Some p → p ∈ pkgs ∧ alpm_depcmp p d = true.
Proof. apply (find_first_Some (λ p, alpm_depcmp p d)). Qed.

Lemma find_dep_satisfier_is_Some pkgs d :
  is_Some (find_dep_satisfier pkgs d) ↔ ∃ p, p ∈ pkgs ∧ alpm_depcmp p d = true.
Proof. apply (find_first_is_Some (λ p, alpm_depcmp p d)). Qed.

Lemma satisfied_spec upgrade dblist assume d :
  satisfied upgrade dblist assume d = true ↔ sat (upgrade ++ dblist) assume d.
Proof.
  unfold satisfied, sat. rewrite !orb_true_iff, !is_some_true, !find_dep_satisfier_is_Some.
  setoid_rewrite elem_of_app. naive_solver.
Qed.

Lemma sat_perm pkgs pkgs' assume d :
  (∀ p, p ∈ pkgs → p ∈ pkgs') → sat pkgs assume d → sat pkgs' assume d.
Proof. unfold sat. naive_solver. Qed.

Lemma elem_of_flat_map {A B} (f : A → list B) l y :
  y ∈ flat_map f l ↔ ∃ x, x ∈ l ∧ y ∈ f x.
Proof.
  rewrite list_elem_of_In, in_flat_map. setoid_rewrite list_elem_of_In. done.
Qed.

Lemma elem_of_check_upgrade ndv upgrade dblist assume tp m :
  m ∈ check_upgrade ndv upgrade dblist assume tp ↔
  ∃ d, d ∈ pkg_depends tp ∧ ¬ sat (upgrade ++ dblist) assume (relax ndv d) ∧
       m = depmiss_new (pkg_name tp) (relax ndv d) None.
Proof.
  unfold check_upgrade. rewrite elem_of_flat_map. f_equiv. intros d. cbv zeta.
  rewrite <-satisfied_spec. destruct (satisfied _ _ _ _); simpl; set_solver.
Qed.

Lemma elem_of_check_reverse ndv upgrade dblist modified assume lp m :
  m ∈ check_reverse ndv upgrade dblist modified assume lp ↔
  ∃ d c, d ∈ pkg_depends lp ∧ find_dep_satisfier modified (relax ndv d) = Some c ∧
       ¬ sat (upgrade ++ dblist) assume (relax ndv d) ∧
       m = depmiss_new (pkg_name lp) (relax ndv d) (Some (pkg_name c)).
Proof.
  unfold check_reverse. rewrite elem_of_flat_map. f_equiv. intros d. cbv zeta.
  setoid_rewrite <-satisfied_spec. destruct (find_dep_satisfier modified _) as [c|].
  - destruct (satisfied _ _ _ _); simpl; set_solver.
  - set_solver.
Qed.

(** Pieces of the textual form. *)
Lemma is_prefix_two a b s : is_prefix [a; b] s = true ↔ ∃ t, s = a :: b :: t.
Proof.
  rewrite is_prefix_spec. split; intros [t ->]; by exists t.
Qed.

Lemma split_substr_first body post :
  " "%char ∉ body → split_substr (str ": ") (body ++ str ": " ++ post) = Some (body, post).
Proof.
  intros Hb. induction body as [|c body IH]; [done|].
  apply not_elem_of_cons in Hb as [Hc Hb].
  change ((c :: body) ++ str ": " ++ post) with (c :: (body ++ str ": " ++ post)).
  cbn [split_substr].
  destruct (is_prefix (str ": ") (c :: (body ++ str ": " ++ post))) eqn:E.
  - exfalso. apply is_prefix_two in E as [t E]. injection E as _ E.
    destruct body as [|d body]; [done|]. injection E as -> _. set_solver.
  - by rewrite IH.
Qed.

Lemma split_substr_none body : " "%char ∉ body → split_substr (str ": ") body = None.
Proof.
  intros Hb. induction body as [|c body IH]; [done|].
  apply not_elem_of_cons in Hb as [Hc Hb]. cbn [split_substr].
  destruct (is_prefix (str ": ") (c :: body)) eqn:E.
  - exfalso. apply is_prefix_two in E as [t E]. injection E as _ ->. set_solver.
  - by rewrite IH.
Qed.

Lemma split_mod_concat body :
  let '(name, m, v) := split_mod body in
  body = name ++ mod_string m ++ match v with Some v => v | None => [] end ∧
  (m = ALPM_DEP_MOD_ANY ↔ v = None).
Proof.
  unfold split_mod, mod_or_equal.
  destruct (split_first "<"%char body) as [[n r]|] eqn:E1.
  { apply split_first_Some in E1 as [-> _]. destruct r as [|c r]; [done|].
    by destruct (Ascii.eqb_spec c "="%char) as [->|Hne]. }
  destruct (split_first ">"%char body) as [[n r]|] eqn:E2.
  { apply split_first_Some in E2 as [-> _]. destruct r as [|c r]; [done|].
    by destruct (Ascii.eqb_spec c "="%char) as [->|Hne]. }
  destruct (split_first "="%char body) as [[n r]|] eqn:E3.
  { apply split_first_Some in E3 as [-> _]. done. }
  by rewrite app_nil_r.
Qed.

Definition no_mod_char (s : cstr) : Prop :=
  "<"%char ∉ s ∧ ">"%char ∉ s ∧ "="%char ∉ s.

Lemma split_first_app c pre post :
  c ∉ pre → split_first c (pre ++ c :: post) = Some (pre, post).
Proof. intros. by apply split_first_Some. Qed.

Lemma split_first_skip c pre x post :
  c ∉ pre → c ≠ x → c ∉ post → split_first c (pre ++ x :: post) = None.
Proof. intros. apply split_first_None. set_solver. Qed.

Lemma mod_or_equal_plain w wo v : "="%char ∉ v → mod_or_equal w wo v = (wo, v).
Proof.
  destruct v as [|c v]; [done|]. intros H. simpl.
  destruct (Ascii.eqb_spec c "="%char) as [->|]; [set_solver|done].
Qed.

Lemma split_mod_print name m v :
  no_mod_char name → no_mod_char (match v with Some v => v | None => [] end) →
  (m = ALPM_DEP_MOD_ANY ↔ v = None) →
  split_mod (name ++ mod_string m ++ match v with Some v => v | None => [] end) = (name, m, v).
Proof.
  intros (N1 & N2 & N3) (V1 & V2 & V3) Hm. unfold split_mod.
  destruct v as [v|].
  2:{ rewrite (proj2 Hm) by done. simpl. rewrite app_nil_r.
      by rewrite !(proj2 (split_first_None _ name)). }
  destruct m; [discriminate (proj1 Hm eq_refl)|..];
    cbn [mod_string str String.list_ascii_of_string app].
  - rewrite !(split_first_skip _ name "="%char), split_first_app by done. done.
  - rewrite (split_first_skip "<"%char), split_first_app by set_solver. done.
  - by rewrite split_first_app.
  - rewrite (split_first_skip "<"%char), split_first_app by set_solver.
    by rewrite mod_or_equal_plain.
  - rewrite split_first_app by done. by rewrite mod_or_equal_plain.
Qed.

(** The reports of alpm_checkdeps, and what none of them means. *)
Lemma elem_of_checkdeps h pkglist rem upgrade rev m :
  let keep := List.filter (λ p, negb (is_modified rem upgrade p)) pkglist in
  let modified := List.filter (is_modified rem upgrade) pkglist in
  let relaxed := relax (no_dep_version h) in
  m ∈ alpm_checkdeps h pkglist rem upgrade rev ↔
  (∃ p d, p ∈ upgrade ∧ d ∈ pkg_depends p ∧
     ¬ sat (upgrade ++ keep) (h_assumeinstalled h) (relaxed d) ∧
     m = mk_depmissing (pkg_name p) (relaxed d) None) ∨
  (rev = true ∧ ∃ p d c, p ∈ keep ∧ d ∈ pkg_depends p ∧
     find_dep_satisfier modified (relaxed d) = Some c ∧
     ¬ sat (upgrade ++ keep) (h_assumeinstalled h) (relaxed d) ∧
     m = mk_depmissing (pkg_name p) (relaxed d) (Some (pkg_name c))).
Proof.
  intros keep modified relaxed. unfold alpm_checkdeps. cbv zeta.
  fold keep modified. rewrite elem_of_app. f_equiv.
  - rewrite elem_of_flat_map. f_equiv. intros p. rewrite elem_of_check_upgrade.
    unfold depmiss_new. setoid_rewrite dep_dup_id. naive_solver.
  - destruct rev; [|set_solver]. rewrite elem_of_flat_map.
    setoid_rewrite elem_of_check_reverse. unfold depmiss_new. setoid_rewrite dep_dup_id.
    naive_solver.
Qed.

Lemma checkdeps_nil h pkglist rem upgrade rev :
  alpm_checkdeps h pkglist rem upgrade rev = [] →
  let keep := List.filter (λ p, negb (is_modified rem upgrade p)) pkglist in
  let relaxed := relax (no_dep_version h) in
  (∀ p d, p ∈ upgrade → d ∈ pkg_depends p →
          sat (upgrade ++ keep) (h_assumeinstalled h) (relaxed d)) ∧
  (rev = true → ∀ p d, p ∈ keep → d ∈ pkg_depends p →
          sat pkglist (h_assumeinstalled h) (relaxed d) →
          sat (upgrade ++ keep) (h_assumeinstalled h) (relaxed d)).
Proof.
  intros H keep relaxed. unfold alpm_checkdeps in H. cbv zeta in H.
  apply app_eq_nil in H as [H1 H2]. fold keep in H1, H2.
  assert (∀ dd, sat (upgrade ++ keep) (h_assumeinstalled h) dd ∨
                ¬ sat (upgrade ++ keep) (h_assumeinstalled h) dd) as Hdec.
  { intros dd. rewrite <-satisfied_spec. destruct (satisfied _ _ _ _); naive_solver. }
  split.
  - intros p d Hp Hd. destruct (Hdec (relaxed d)) as [?|Hn]; [done|]. exfalso.
    assert (depmiss_new (pkg_name p) (relaxed d) None ∈ []) as Hin; [|by apply elem_of_nil in Hin].
    rewrite <-H1. apply elem_of_flat_map. exists p. split; [done|].
    apply elem_of_check_upgrade. eauto.
  - intros -> p d Hp Hd Hbefore. destruct (Hdec (relaxed d)) as [?|Hn]; [done|]. exfalso.
    destruct Hbefore as [(q & Hq & Hqd)|Has]; [|by apply Hn; right].
    destruct (is_modified rem upgrade q) eqn:Em.
    2:{ apply Hn. left. exists q. split; [|done]. apply elem_of_app. right.
        apply list_elem_of_In, filter_In. split; [by apply list_elem_of_In|by rewrite Em]. }
    destruct (find_dep_satisfier (List.filter (is_modified rem upgrade) pkglist) (relaxed d))
      as [c|] eqn:Ec.
    + assert (depmiss_new (pkg_name p) (relaxed d) (Some (pkg_name c)) ∈ []) as Hin;
        [|by apply elem_of_nil in Hin].
      rewrite <-H2. apply elem_of_flat_map. exists p. split; [done|].
      apply elem_of_check_reverse. exists d, c. done.
    + pose proof (proj2 (find_dep_satisfier_is_Some
        (List.filter (is_modified rem upgrade) pkglist) (relaxed d))) as Hs.
      rewrite Ec in Hs. destruct Hs as [? ?]; [|done]. exists q. split; [|done].
      apply list_elem_of_In, filter_In. split; [by apply list_elem_of_In|done].
Qed.

(** ** Properties *)

(** C39. The textual form of dependencies. Printing what was parsed gives the
    string back, for every string; and parsing what was printed gives the
    dependency back, when its name and version contain no blank and no
    comparator, it has a version exactly if it has a comparator, and its hash
    is that of its name. *)
Theorem dep_string_roundtrip :
  (∀ s, alpm_dep_compute_string (alpm_dep_from_string s) = s) ∧
  (∀ d, dep_hash_ok d →
        (dep_mod d = ALPM_DEP_MOD_ANY ↔ dep_version d = None) →
        no_mod_char (dep_name d) → " "%char ∉ dep_name d →
        no_mod_char (match dep_version d with Some v => v | None => [] end) →
        " "%char ∉ match dep_version d with Some v => v | None => [] end →
        alpm_dep_from_string (alpm_dep_compute_string d) = d).
Proof.
  split.
  - intros s. unfold alpm_dep_from_string.
    destruct (split_substr (str ": ") s) as [[pre post]|] eqn:E.
    + apply split_substr_Some_app in E as ->.
      pose proof (split_mod_concat pre) as H. destruct (split_mod pre) as [[n m] v].
      destruct H as [-> Hm]. unfold alpm_dep_compute_string. simpl.
      rewrite <-!app_assoc. destruct m, v; naive_solver.
    + pose proof (split_mod_concat s) as H. destruct (split_mod s) as [[n m] v].
      destruct H as [-> Hm]. unfold alpm_dep_compute_string. simpl.
      destruct m, v; rewrite ?app_nil_r; naive_solver.
  - intros [n v ds hsh m] Hh Hm Hn Hnb Hv Hvb. unfold dep_hash_ok in Hh. simpl in *.
    assert (alpm_dep_compute_string (mk_depend n v ds hsh m) =
      (n ++ mod_string m ++ match v with Some v => v | None => [] end) ++
      match ds with Some d => str ": " ++ d | None => [] end) as ->.
    { unfold alpm_dep_compute_string. simpl. rewrite <-!app_assoc.
      destruct m, v; naive_solver. }
    assert (" "%char ∉ n ++ mod_string m ++ match v with Some v => v | None => [] end) as Hb.
    { rewrite !elem_of_app. destruct m; simpl; set_solver. }
    unfold alpm_dep_from_string. destruct ds as [ds|].
    + rewrite split_substr_first by done. rewrite split_mod_print by done. by rewrite Hh.
    + rewrite app_nil_r, split_substr_none by done. rewrite split_mod_print by done. by rewrite Hh.
Qed.

Definition all_depends (l : list alpm_pkg_t) : list (alpm_pkg_t * alpm_depend_t) :=
  flat_map (λ p, map (pair p) (pkg_depends p)) l.

(** An empty result of alpm_checkdeps means a consistent system: after
    the transaction (the untouched packages and the upgraded ones), every
    dependency of an upgraded package is satisfied, and, when reverse
    dependencies were checked, every dependency of an untouched package that
    was satisfied before is still satisfied. Dependencies are those the check
    looks at: without their version when NODEPVERSION is set. *)
Theorem checkdeps_sound h pkglist rem upgrade rev :
  alpm_checkdeps h pkglist rem upgrade rev = [] →
  let keep := List.filter (λ p, negb (is_modified rem upgrade p)) pkglist in
  let relaxed := relax (no_dep_version h) in
  (∀ p d, p ∈ upgrade → d ∈ pkg_depends p →
          sat (upgrade ++ keep) (h_assumeinstalled h) (relaxed d)) ∧
  (rev = true → ∀ p d, p ∈ keep → d ∈ pkg_depends p →
          sat pkglist (h_assumeinstalled h) (relaxed d) →
          sat (upgrade ++ keep) (h_assumeinstalled h) (relaxed d)).
Proof. apply checkdeps_nil. Qed.

Definition ex_dep (s : string) : alpm_depend_t := alpm_dep_from_string (str s).
Definition ex_glibc (v : string) : alpm_pkg_t :=
  simple_pkg 1 (str "glibc") (str v) [] [] [] ALPM_PKG_REASON_DEPEND.
Definition ex_bash : alpm_pkg_t :=
  simple_pkg 2 (str "bash") (str "5.2-1") [ex_dep "glibc>=2.36"] [ex_dep "sh"] []
    ALPM_PKG_REASON_EXPLICIT.
Definition ex_script : alpm_pkg_t :=
  simple_pkg 3 (str "script") (str "1-1") [ex_dep "sh"; ex_dep "bash>5"] [] []
    ALPM_PKG_REASON_EXPLICIT.

Lemma checkdeps_sound_witness :
  alpm_checkdeps empty_handle [ex_glibc "2.37-1"; ex_bash] [] [ex_script] true = [] ∧
  sat ([ex_script] ++ [ex_glibc "2.37-1"; ex_bash]) [] (ex_dep "sh").
Proof.
  assert (alpm_checkdeps empty_handle [ex_glibc "2.37-1"; ex_bash] [] [ex_script] true = [])
    as E by (vm_compute; reflexivity).
  split; [exact E|].
  exact (proj1 (checkdeps_sound empty_handle _ _ _ _ E) ex_script (ex_dep "sh")
    (list_elem_of_here _ _) (list_elem_of_here _ _)).
Defined.

(** C13. What alpm_checkdeps reports: exactly the dependencies of upgraded
    packages that nothing satisfies after the transaction, with no cause, and,
    for reverse checks, the dependencies of untouched packages that nothing
    satisfies after the transaction but a removed or upgraded package satisfied
    before, with that package as the cause. *)
Theorem checkdeps_exact h pkglist rem upgrade rev m :
  let keep := List.filter (λ p, negb (is_modified rem upgrade p)) pkglist in
  let modified := List.filter (is_modified rem upgrade) pkglist in
  let relaxed := relax (no_dep_version h) in
  m ∈ alpm_checkdeps h pkglist rem upgrade rev ↔
  (∃ p d, p ∈ upgrade ∧ d ∈ pkg_depends p ∧
     ¬ sat (upgrade ++ keep) (h_assumeinstalled h) (relaxed d) ∧
     m = mk_depmissing (pkg_name p) (relaxed d) None) ∨
  (rev = true ∧ ∃ p d c, p ∈ keep ∧ d ∈ pkg_depends p ∧
     find_dep_satisfier modified (relaxed d) = Some c ∧
     ¬ sat (upgrade ++ keep) (h_assumeinstalled h) (relaxed d) ∧
     m = mk_depmissing (pkg_name p) (relaxed d) (Some (pkg_name c))).
Proof. apply elem_of_checkdeps. Qed.
