(* ===== verification/SortDeps.v ===== *)
(** * Sorting by dependencies

    lib/libalpm/graph.h and deps.c (dep_graph_init, _alpm_sortbydeps): the
    dependency graph over the targets and the installed packages they reach,
    and the depth-first search without recursion that orders the targets. A
    vertex is its index in the list of vertices. The loops take fuel; the
    theorems show that the amounts used are enough. *)
From S2P Require Import Prelude CString AlpmList Util Package PkgHash Handle Deps.

(** ** The graph *)
Inductive vertex_state :=
  | ALPM_GRAPH_STATE_UNPROCESSED | ALPM_GRAPH_STATE_PROCESSING | ALPM_GRAPH_STATE_PROCESSED.

#[export] Instance vertex_state_eq_dec : EqDecision vertex_state.
Proof. solve_decision. Defined.

Record alpm_graph_t := mk_vertex {
  v_data : alpm_pkg_t;
  v_parent : option nat;
  v_children : list nat;
  v_iterator : list nat;
  v_state : vertex_state
}.

(** _alpm_graph_new, with its data. *)
Definition graph_new (p : alpm_pkg_t) : alpm_graph_t :=
  mk_vertex p None [] [] ALPM_GRAPH_STATE_UNPROCESSED.

Definition set_state (s : vertex_state) (v : alpm_graph_t) : alpm_graph_t :=
  mk_vertex (v_data v) (v_parent v) (v_children v) (v_iterator v) s.
Definition set_iterator (l : list nat) (v : alpm_graph_t) : alpm_graph_t :=
  mk_vertex (v_data v) (v_parent v) (v_children v) l (v_state v).
Definition set_parent (u : nat) (v : alpm_graph_t) : alpm_graph_t :=
  mk_vertex (v_data v) (Some u) (v_children v) (v_iterator v) (v_state v).
Definition set_children (l : list nat) (v : alpm_graph_t) : alpm_graph_t :=
  mk_vertex (v_data v) (v_parent v) l l (v_state v).

(** The indices of the packages that [p] depends on, from index [k] on. *)
Fixpoint edges_from (p : alpm_pkg_t) (k : nat) (l : list alpm_pkg_t) : list nat :=
  match l with
  | [] => []
  | q :: l' => if alpm_pkg_depends_on p q then k :: edges_from p (S k) l'
               else edges_from p (S k) l'
  end.

(** One iteration of the edge loop of dep_graph_init: the children among the
    vertices, then the local packages that become vertices. *)
Definition graph_step (i : nat) (vs : list alpm_graph_t) (localpkgs : list alpm_pkg_t)
    : list alpm_graph_t * list alpm_pkg_t :=
  match vs !! i with
  | None => (vs, localpkgs)
  | Some vertex_i =>
      let p_i := v_data vertex_i in
      let new := List.filter (alpm_pkg_depends_on p_i) localpkgs in
      let rest := List.filter (λ q, negb (alpm_pkg_depends_on p_i q)) localpkgs in
      let children := edges_from p_i 0 (map v_data vs)
                      ++ seq (length vs) (length new) in
      (alter (set_children children) i vs ++ map graph_new new, rest)
  end.

Fixpoint graph_loop (fuel i : nat) (vs : list alpm_graph_t) (localpkgs : list alpm_pkg_t)
    : list alpm_graph_t :=
  match fuel with
  | O => vs
  | S fuel' =>
      let '(vs', rest) := graph_step i vs localpkgs in graph_loop fuel' (S i) vs' rest
  end.

Definition dep_graph_init (localcache targets ignore : list alpm_pkg_t) : list alpm_graph_t :=
  let localpkgs := alpm_list_diff alpm_pkg_cmp localcache targets in
  let localpkgs := match ignore with
                   | [] => localpkgs
                   | _ => alpm_list_diff alpm_pkg_cmp localpkgs ignore
                   end in
  graph_loop (length targets + length localpkgs) 0 (map graph_new targets) localpkgs.

(** ** The search *)

(** The inner loop: the first unprocessed child and the iterator behind it. *)
Fixpoint scan_children (vs : list alpm_graph_t) (it : list nat) : option nat * list nat :=
  match it with
  | [] => (None, [])
  | c :: it' =>
      match v_state <$> vs !! c with
      | Some ALPM_GRAPH_STATE_UNPROCESSED => (Some c, it')
      | _ => scan_children vs it'
      end
  end.

(** [for(i = i->next; i; i = i->next)]: the first unprocessed vertex from
    index [k] on. *)
Fixpoint next_unprocessed (k : nat) (vs : list alpm_graph_t) : option nat :=
  match vs with
  | [] => None
  | v :: vs' => if decide (v_state v = ALPM_GRAPH_STATE_UNPROCESSED) then Some k
                else next_unprocessed (S k) vs'
  end.

Record sort_state := mk_sort {
  s_vs : list alpm_graph_t;
  s_newtargs : list alpm_pkg_t;
  s_i : nat;
  s_vertex : nat
}.

(** One iteration of the outer loop; [inr] when [i] has become NULL. *)
Definition sort_step (targets : list alpm_pkg_t) (st : sort_state)
    : sort_state + list alpm_pkg_t :=
  let v := s_vertex st in
  let vs := alter (set_state ALPM_GRAPH_STATE_PROCESSING) v (s_vs st) in
  match vs !! v with
  | None => inr (s_newtargs st)
  | Some vertex =>
      match scan_children vs (v_iterator vertex) with
      | (Some c, it) =>
          inl (mk_sort (alter (set_parent v) c (alter (set_iterator it) v vs))
                 (s_newtargs st) (s_i st) c)
      | (None, it) =>
          let newtargs := if alpm_list_find_ptr targets (v_data vertex)
                          then s_newtargs st ++ [v_data vertex] else s_newtargs st in
          let vs := alter (set_state ALPM_GRAPH_STATE_PROCESSED) v
                      (alter (set_iterator it) v vs) in
          match v_parent vertex with
          | Some p => inl (mk_sort vs newtargs (s_i st) p)
          | None =>
              match next_unprocessed (S (s_i st)) (drop (S (s_i st)) vs) with
              | Some i => inl (mk_sort vs newtargs i i)
              | None => inr newtargs
              end
          end
      end
  end.

Fixpoint sort_loop (fuel : nat) (targets : list alpm_pkg_t) (st : sort_state)
    : option (list alpm_pkg_t) :=
  match fuel with
  | O => None
  | S fuel' =>
      match sort_step targets st with
      | inl st' => sort_loop fuel' targets st'
      | inr newtargs => Some newtargs
      end
  end.

Definition alpm_sortbydeps (localcache targets ignore : list alpm_pkg_t) (rev : bool)
    : option (list alpm_pkg_t) :=
  match targets with
  | [] => Some []
  | _ =>
      let vertices := dep_graph_init localcache targets ignore in
      newtargs ← sort_loop (2 * length vertices) targets (mk_sort vertices [] 0 0);
      Some (if rev then reverse newtargs else newtargs)
  end.

(** ** Facts about the graph *)
Definition data (vs : list alpm_graph_t) : list alpm_pkg_t := map v_data vs.

Lemma elem_of_edges_from p k l j :
  j ∈ edges_from p k l ↔
  k ≤ j ∧ ∃ q, l !! (j - k) = Some q ∧ alpm_pkg_depends_on p q = true.
Proof.
  revert k. induction l as [|q l IH]; intros k; simpl.
  - set_solver.
  - assert (j ∈ edges_from p (S k) l ↔
            k < j ∧ ∃ q', (q :: l) !! (j - k) = Some q' ∧ alpm_pkg_depends_on p q' = true) as IH'.
    { rewrite IH. split; intros (Hle & q' & Hq & Hd).
      - split; [lia|]. exists q'. replace (j - k) with (S (j - S k)) by lia. done.
      - split; [lia|]. exists q'. replace (j - k) with (S (j - S k)) in Hq by lia. done. }
    destruct (alpm_pkg_depends_on p q) eqn:E.
    + rewrite elem_of_cons, IH'. split.
      * intros [->|(? & ?)]; [|split; [lia|done]]. split; [lia|]. exists q.
        by rewrite Nat.sub_diag.
      * intros (Hle & q' & Hq & Hd). destruct (decide (j = k)); [by left|right].
        split; [lia|]. eauto.
    + rewrite IH'. split; intros (Hle & q' & Hq & Hd); (split; [lia|eauto] || idtac).
      split; [|eauto]. destruct (decide (j = k)) as [->|]; [|lia].
      rewrite Nat.sub_diag in Hq. simpl in Hq. congruence.
Qed.

(** The edges out of a vertex, once computed: exactly its dependencies. *)
Definition edges_ok (vs : list alpm_graph_t) (v : alpm_graph_t) : Prop :=
  v_iterator v = v_children v ∧
  ∀ j, j ∈ v_children v ↔
       ∃ q, data vs !! j = Some q ∧ alpm_pkg_depends_on (v_data v) q = true.

Definition fresh (v : alpm_graph_t) : Prop :=
  v_parent v = None ∧ v_state v = ALPM_GRAPH_STATE_UNPROCESSED.

(** The state of dep_graph_init before vertex [i] is looked at. *)
Record graph_inv (targets locals0 : list alpm_pkg_t) (i : nat)
    (vs : list alpm_graph_t) (localpkgs : list alpm_pkg_t) : Prop := {
  g_fresh : Forall fresh vs;
  g_data : ∃ added, data vs = targets ++ added ∧ added ++ localpkgs ≡ₚ locals0;
  g_done : ∀ k v, k < i → vs !! k = Some v →
           edges_ok vs v ∧ ∀ q, q ∈ localpkgs → alpm_pkg_depends_on (v_data v) q = false
}.

Lemma data_lookup vs j q : data vs !! j = Some q ↔ ∃ v, vs !! j = Some v ∧ v_data v = q.
Proof. unfold data. rewrite list_lookup_fmap, fmap_Some. naive_solver. Qed.

Lemma data_alter_children l i vs : data (alter (set_children l) i vs) = data vs.
Proof.
  unfold data. apply list_eq. intros j. rewrite !list_lookup_fmap.
  destruct (decide (i = j)) as [->|Hne].
  - rewrite list_lookup_alter_eq. by destruct (vs !! j).
  - by rewrite list_lookup_alter_ne.
Qed.

Lemma graph_step_inv targets locals0 i vs localpkgs :
  graph_inv targets locals0 i vs localpkgs →
  let '(vs', rest) := graph_step i vs localpkgs in graph_inv targets locals0 (S i) vs' rest.
Proof.
  intros [Hf (added & Hdata & Hperm) Hdone]. unfold graph_step.
  destruct (vs !! i) as [vi|] eqn:Ei.
  2:{ split; [done|eauto|]. intros k v Hk Hv. apply (Hdone k); [|done].
      apply lookup_lt_Some in Hv. apply lookup_ge_None in Ei. lia. }
  set (p := v_data vi). set (new := List.filter (alpm_pkg_depends_on p) localpkgs).
  set (rest := List.filter _ localpkgs).
  set (ch := edges_from p 0 (map v_data vs) ++ seq (length vs) (length new)).
  set (vs' := alter (set_children ch) i vs ++ map graph_new new).
  assert (data vs' = data vs ++ new) as Hd'.
  { unfold vs'. unfold data. rewrite map_app. fold (data (alter (set_children ch) i vs)).
    rewrite data_alter_children. f_equal. rewrite map_map. apply map_id. }
  assert (∀ q, q ∈ rest ↔ q ∈ localpkgs ∧ alpm_pkg_depends_on p q = false) as Hrest.
  { intros q. unfold rest. rewrite !list_elem_of_In, filter_In, negb_true_iff. done. }
  assert (∀ q, q ∈ new ↔ q ∈ localpkgs ∧ alpm_pkg_depends_on p q = true) as Hnew.
  { intros q. unfold new. rewrite !list_elem_of_In, filter_In. done. }
  split.
  - unfold vs'. apply Forall_app. split.
    + apply Forall_alter; [done|]. intros x _ [Hx1 Hx2]. done.
    + apply Forall_forall. intros x (q & -> & _)%list_elem_of_fmap. done.
  - exists (added ++ new). rewrite Hd', Hdata, <-app_assoc. split; [done|].
    rewrite <-app_assoc. unfold new, rest. by rewrite filter_split_perm.
  - intros k v Hk Hv. unfold vs' in Hv.
    assert (k < length vs) as Hlt by (apply lookup_lt_Some in Ei; lia).
    rewrite lookup_app_l in Hv by (rewrite length_alter; lia).
    destruct (decide (k = i)) as [->|Hne].
    + rewrite list_lookup_alter_eq, Ei in Hv. injection Hv as <-. split.
      * split; [done|]. intros j. simpl. fold p. unfold ch. rewrite elem_of_app.
        rewrite elem_of_edges_from, elem_of_seq, Hd', lookup_app. fold (data vs).
        rewrite Nat.sub_0_r.
        assert (length (data vs) = length vs) as Hlen by apply length_map.
        destruct (data vs !! j) as [q|] eqn:Ej.
        -- assert (j < length vs) by (rewrite <-Hlen; by eapply lookup_lt_Some).
           split; [|intros (q' & E & Hq'); left; split; [lia|]; eauto].
           intros [(_ & q' & E & Hq')|Hj]; [eauto|lia].
        -- assert (length vs ≤ j) by (rewrite <-Hlen; by apply lookup_ge_None).
           rewrite Hlen. split.
           ++ intros [(_ & q' & E & Hq')|Hj]; [done|].
              destruct (lookup_lt_is_Some_2 new (j - length vs)) as [q Hq]; [lia|].
              exists q. split; [done|]. apply list_elem_of_lookup_2 in Hq.
              by apply Hnew in Hq as [_ ?].
           ++ intros (q & Hq & _). right. apply lookup_lt_Some in Hq. lia.
      * intros q [_ Hq]%Hrest. done.
    + rewrite list_lookup_alter_ne in Hv by done. destruct (Hdone k v) as [[Hit He] Hl]; [lia|done|].
      split.
      * split; [done|]. intros j. rewrite He. split; intros (q & Hq & Hdq); exists q; (split; [|done]).
        -- rewrite Hd'. by apply lookup_app_l_Some.
        -- rewrite Hd' in Hq. apply lookup_app_Some in Hq as [?|[_ Hq]]; [done|].
           apply list_elem_of_lookup_2, Hnew in Hq as [Hq _]. by rewrite Hl in Hdq.
      * intros q [Hq _]%Hrest. by apply Hl.
Qed.

Lemma graph_loop_inv targets locals0 fuel i vs localpkgs :
  graph_inv targets locals0 i vs localpkgs →
  ∃ rest, graph_inv targets locals0 (i + fuel) (graph_loop fuel i vs localpkgs) rest.
Proof.
  revert i vs localpkgs. induction fuel as [|fuel IH]; intros i vs localpkgs Hg; simpl.
  - exists localpkgs. by rewrite Nat.add_0_r.
  - pose proof (graph_step_inv _ _ _ _ _ Hg) as H. destruct (graph_step i vs localpkgs) as [vs' rest].
    destruct (IH _ _ _ H) as [rest' Hr]. exists rest'. by replace (i + S fuel) with (S i + fuel) by lia.
Qed.

(** The finished graph: the targets first, then local packages, every vertex
    with exactly its dependencies as children. *)
Record graph_final (targets locals : list alpm_pkg_t) (vs : list alpm_graph_t) : Prop := {
  gf_fresh : Forall fresh vs;
  gf_data : ∃ added, data vs = targets ++ added ∧ added ⊆+ locals;
  gf_edges : ∀ k v, vs !! k = Some v → edges_ok vs v
}.

Lemma graph_loop_final targets locals :
  graph_final targets locals
    (graph_loop (length targets + length locals) 0 (map graph_new targets) locals).
Proof.
  destruct (graph_loop_inv targets locals (length targets + length locals) 0
    (map graph_new targets) locals) as [rest [Hf (added & Hd & Hp) Hdone]].
  { split.
    - apply Forall_forall. intros x (q & -> & _)%list_elem_of_fmap. done.
    - exists []. unfold data. rewrite map_map, map_id, app_nil_r. done.
    - intros k v Hk. lia. }
  simpl in Hdone. split; [done| |].
  - exists added. split; [done|]. rewrite <-Hp. by apply submseteq_inserts_r.
  - intros k v Hv. apply (Hdone k); [|done]. apply lookup_lt_Some in Hv.
    rewrite <-(length_map v_data) in Hv. fold (data (graph_loop (length targets + length locals) 0
      (map graph_new targets) locals)) in Hv.
    rewrite Hd, length_app in Hv. apply (f_equal length) in Hd.
    rewrite <-(Permutation_length Hp), length_app. lia.
Qed.

(** ** The search visits every vertex once *)
Definition before {A} (l : list A) (x y : A) : Prop :=
  ∃ l1 l2 l3, l = l1 ++ x :: l2 ++ y :: l3.

Lemma before_app_l {A} (l k : list A) x y : before l x y → before (l ++ k) x y.
Proof.
  intros (l1 & l2 & l3 & ->). exists l1, l2, (l3 ++ k).
  by rewrite <-!app_assoc, <-!app_comm_cons, <-!app_assoc, <-!app_comm_cons.
Qed.

Lemma before_snoc {A} (l : list A) x y : x ∈ l → before (l ++ [y]) x y.
Proof.
  intros (l1 & l2 & ->)%list_elem_of_split. exists l1, l2, [].
  by rewrite <-app_assoc, <-app_comm_cons.
Qed.

Lemma lookup_alter_inv {A} (f : A → A) (i : nat) (l : list A) (j : nat) y :
  alter f i l !! j = Some y →
  ∃ x, l !! j = Some x ∧ y = if decide (i = j) then f x else x.
Proof.
  destruct (decide (i = j)) as [->|Hne].
  - rewrite list_lookup_alter_eq. intros (x & -> & ->)%fmap_Some. eauto.
  - rewrite list_lookup_alter_ne by done. eauto.
Qed.

Lemma scan_children_spec vs it r it' :
  scan_children vs it = (r, it') →
  ∃ skipped,
    match r with
    | Some c => it = skipped ++ c :: it' ∧
                ∃ x, vs !! c = Some x ∧ v_state x = ALPM_GRAPH_STATE_UNPROCESSED
    | None => it = skipped ∧ it' = []
    end ∧
    ∀ w x, w ∈ skipped → vs !! w = Some x → v_state x ≠ ALPM_GRAPH_STATE_UNPROCESSED.
Proof.
  revert r it'. induction it as [|c it IH]; intros r it'; simpl.
  - intros [= <- <-]. exists []. set_solver.
  - assert (scan_children vs it = (r, it') →
            (∀ x, vs !! c = Some x → v_state x ≠ ALPM_GRAPH_STATE_UNPROCESSED) →
            ∃ skipped,
              match r with
              | Some c' => c :: it = skipped ++ c' :: it' ∧
                  ∃ x, vs !! c' = Some x ∧ v_state x = ALPM_GRAPH_STATE_UNPROCESSED
              | None => c :: it = skipped ∧ it' = []
              end ∧
              ∀ w x, w ∈ skipped → vs !! w = Some x →
                     v_state x ≠ ALPM_GRAPH_STATE_UNPROCESSED) as Hskip.
    { intros E Hc. destruct (IH _ _ E) as (sk & Hr & Hsk). exists (c :: sk). split.
      - destruct r as [c'|]; [|by destruct Hr as [-> ->]].
        destruct Hr as [-> Hr]. done.
      - intros w x [->|Hw]%elem_of_cons Hx; [by apply Hc|by eapply Hsk]. }
    destruct (vs !! c) as [x|] eqn:Ec; simpl; [|intros E; apply Hskip; [done|by intros ? [=]]].
    destruct (v_state x) eqn:Es;
      [|intros E; apply Hskip; [done|intros ? [= <-]; congruence]..].
    intros [= <- <-]. exists []. split; [|set_solver]. split; [done|]. eauto.
Qed.

Lemma next_unprocessed_spec k vs :
  match next_unprocessed k vs with
  | Some i => k ≤ i ∧ (∃ x, vs !! (i - k) = Some x ∧ v_state x = ALPM_GRAPH_STATE_UNPROCESSED) ∧
              ∀ j x, k ≤ j < i → vs !! (j - k) = Some x → v_state x ≠ ALPM_GRAPH_STATE_UNPROCESSED
  | None => ∀ j x, k ≤ j → vs !! (j - k) = Some x → v_state x ≠ ALPM_GRAPH_STATE_UNPROCESSED
  end.
Proof.
  revert k. induction vs as [|v vs IH]; intros k; simpl.
  - intros j x _. by rewrite lookup_nil.
  - destruct (decide (v_state v = ALPM_GRAPH_STATE_UNPROCESSED)) as [E|E].
    + split_and!; [lia| |intros; lia]. exists v. by rewrite Nat.sub_diag.
    + specialize (IH (S k)). destruct (next_unprocessed (S k) vs) as [i|].
      * destruct IH as (Hi & (x & Hx & Hs) & Hbefore). split_and!; [lia| |].
        -- exists x. replace (i - k) with (S (i - S k)) by lia. done.
        -- intros j y Hj Hy. destruct (decide (j = k)) as [->|].
           { rewrite Nat.sub_diag in Hy. injection Hy as <-. done. }
           apply (Hbefore j y); [lia|].
           replace (j - k) with (S (j - S k)) in Hy by lia. done.
      * intros j y Hj Hy. destruct (decide (j = k)) as [->|].
        { rewrite Nat.sub_diag in Hy. injection Hy as <-. done. }
        apply (IH j y); [lia|]. replace (j - k) with (S (j - S k)) in Hy by lia. done.
Qed.

Section search.
Context (vs0 : list alpm_graph_t) (targets : list alpm_pkg_t).

Definition kids (u : nat) : list nat := match vs0 !! u with Some v => v_children v | None => [] end.
Definition edge (u w : nat) : Prop := w ∈ kids u.
Definition data_at (u : nat) : option alpm_pkg_t := v_data <$> vs0 !! u.

Context (kids_lt : ∀ u w, edge u w → w < length vs0).

Definition targets_of (order : list nat) : list alpm_pkg_t :=
  List.filter (alpm_list_find_ptr targets) (omap data_at order).

(** The parent pointers spell the stack of the search. *)
Fixpoint linked (vs : list alpm_graph_t) (stack : list nat) : Prop :=
  match stack with
  | [] => True
  | u :: rest =>
      (∀ x, vs !! u = Some x → v_parent x = head rest) ∧
      (∀ p, head rest = Some p → edge p u) ∧ linked vs rest
  end.

Lemma linked_reach vs u rest w : linked vs (u :: rest) → w ∈ u :: rest → rtc edge w u.
Proof.
  revert u w. induction rest as [|p rest IH]; intros u w (H1 & H2 & H3) Hw.
  - apply elem_of_cons in Hw as [->|Hw]; [done|set_solver].
  - apply elem_of_cons in Hw as [->|Hw]; [done|].
    eapply rtc_r; [by apply IH|]. by apply H2.
Qed.

(** Changing the records of other vertices does not matter to the stack. *)
Lemma linked_ext vs vs' stack :
  linked vs stack →
  (∀ u x, u ∈ stack → vs' !! u = Some x → ∃ y, vs !! u = Some y ∧ v_parent y = v_parent x) →
  linked vs' stack.
Proof.
  induction stack as [|u rest IH]; intros Hl Hext; [done|].
  destruct Hl as (H1 & H2 & H3). split_and!.
  - intros x Hx. destruct (Hext u x) as (y & Hy & <-); [set_solver|done|]. by apply H1.
  - done.
  - apply IH; [done|]. intros v x Hv. apply Hext. set_solver.
Qed.

(** Every child of a finished vertex was finished before it, or leads back to
    it. *)
Definition black_ok (order : list nat) : Prop :=
  ∀ u w, u ∈ order → edge u w → before order w u ∨ rtc edge w u.

(** What holds of the vertices, the new target list, the finished vertices in
    their order and the stack. *)
Record score (vs : list alpm_graph_t) (newtargs : list alpm_pkg_t)
    (order stack : list nat) : Prop := {
  si_len : length vs = length vs0;
  si_nodup : NoDup (order ++ stack);
  si_lt : ∀ u, u ∈ order ++ stack → u < length vs0;
  si_data : ∀ u x, vs !! u = Some x →
            data_at u = Some (v_data x) ∧ v_children x = kids u;
  si_order : ∀ u x, vs !! u = Some x → u ∈ order → v_state x = ALPM_GRAPH_STATE_PROCESSED;
  si_anc : ∀ u x, vs !! u = Some x → u ∈ tail stack → v_state x = ALPM_GRAPH_STATE_PROCESSING;
  si_white : ∀ u x, vs !! u = Some x → u ∉ order ++ stack →
             v_state x = ALPM_GRAPH_STATE_UNPROCESSED ∧ v_parent x = None;
  si_link : linked vs stack;
  si_it : ∀ u x, vs !! u = Some x →
          ∃ seen, v_children x = seen ++ v_iterator x ∧ ∀ w, w ∈ seen → w ∈ order ++ stack;
  si_black : black_ok order;
  si_newtargs : newtargs = targets_of order
}.

(** The invariant of the loop: the current vertex is on top of the stack, and
    every vertex up to [i] has been reached. *)
Record sinv (st : sort_state) (order stack : list nat) : Prop := {
  si_core : score (s_vs st) (s_newtargs st) order stack;
  si_head : head stack = Some (s_vertex st);
  si_prefix : ∀ k, k ≤ s_i st → k ∈ order ++ stack
}.

(** The finished search. *)
Definition search_done (newtargs : list alpm_pkg_t) : Prop :=
  ∃ order, newtargs = targets_of order ∧ NoDup order ∧
    (∀ k, k ∈ order ↔ k < length vs0) ∧ black_ok order.

(** The records after one step, in terms of those before: [cs] is the new
    state of the current vertex [v], [it] its new iterator and [ch] the child
    that gets [v] as its parent, if any. *)
Definition stepped (vs vs' : list alpm_graph_t) (v : nat) (cs : vertex_state)
    (it : list nat) (ch : option nat) : Prop :=
  length vs' = length vs ∧
  ∀ u x', vs' !! u = Some x' →
  ∃ x, vs !! u = Some x ∧ v_data x' = v_data x ∧ v_children x' = v_children x ∧
    v_state x' = (if decide (u = v) then cs else v_state x) ∧
    v_iterator x' = (if decide (u = v) then it else v_iterator x) ∧
    v_parent x' = (if decide (Some u = ch) then Some v else v_parent x).

Lemma stepped_descend vs v it c :
  stepped vs (alter (set_parent v) c (alter (set_iterator it) v
    (alter (set_state ALPM_GRAPH_STATE_PROCESSING) v vs))) v
    ALPM_GRAPH_STATE_PROCESSING it (Some c).
Proof.
  split; [by rewrite !length_alter|].
  intros u x' (x1 & (x2 & (x & Hx & ->)%lookup_alter_inv & ->)%lookup_alter_inv & ->)%lookup_alter_inv.
  exists x. repeat case_decide; simplify_eq; done.
Qed.

Lemma stepped_finish vs v it :
  stepped vs (alter (set_state ALPM_GRAPH_STATE_PROCESSED) v (alter (set_iterator it) v
    (alter (set_state ALPM_GRAPH_STATE_PROCESSING) v vs))) v
    ALPM_GRAPH_STATE_PROCESSED it None.
Proof.
  split; [by rewrite !length_alter|].
  intros u x' (x1 & (x2 & (x & Hx & ->)%lookup_alter_inv & ->)%lookup_alter_inv & ->)%lookup_alter_inv.
  exists x. repeat case_decide; simplify_eq; done.
Qed.

(** What the inner loop has looked at is known to the search. *)
Lemma seen_known st order stack v x (skipped : list nat) :
  sinv st order stack → s_vs st !! v = Some x → s_vertex st = v →
  (∀ w y, w ∈ skipped →
     alter (set_state ALPM_GRAPH_STATE_PROCESSING) v (s_vs st) !! w = Some y →
     v_state y ≠ ALPM_GRAPH_STATE_UNPROCESSED) →
  (∀ w, w ∈ skipped → w < length vs0) →
  ∀ w, w ∈ skipped → w ∈ order ++ stack.
Proof.
  intros Hi Hv Hcur Hsk Hlt w Hw.
  destruct (decide (w ∈ order ++ stack)) as [|Hn]; [done|]. exfalso.
  destruct (lookup_lt_is_Some_2 (s_vs st) w) as [y Hy].
  { rewrite (si_len _ _ _ _ (si_core _ _ _ Hi)). by apply Hlt. }
  assert (w ≠ v) as Hne.
  { intros ->. apply Hn. apply elem_of_app. right. pose proof (si_head _ _ _ Hi) as Hh.
    destruct stack as [|a stack]; [done|]. simpl in Hh. injection Hh as ->.
    rewrite Hcur. apply list_elem_of_here. }
  apply (Hsk w y Hw).
  - by rewrite list_lookup_alter_ne.
  - by apply (si_white _ _ _ _ (si_core _ _ _ Hi) w y Hy).
Qed.

Lemma descend_inv st order stack vs' it c x skipped :
  sinv st order stack →
  s_vs st !! s_vertex st = Some x →
  stepped (s_vs st) vs' (s_vertex st) ALPM_GRAPH_STATE_PROCESSING it (Some c) →
  v_iterator x = skipped ++ c :: it →
  (∀ w, w ∈ skipped → w ∈ order ++ stack) →
  c ∉ order ++ stack → c < length vs0 →
  sinv (mk_sort vs' (s_newtargs st) (s_i st) c) order (c :: stack).
Proof.
  intros Hi Hx [Hlen Hst] Hit Hsk Hc Hlt. destruct Hi as [[H1 H3 H4 H5 H6 H7 H8 H9 H10 H11 H13] H2 H12].
  destruct stack as [|v anc]; [done|]. simpl in H2. injection H2 as H2. rewrite <-H2 in *.
  assert (c ≠ v) as Hcv by set_solver.
  split; [split|done|intros k Hk; specialize (H12 k Hk); set_solver]; simpl.
  - by rewrite Hlen.
  - rewrite <-Permutation_middle. by constructor.
  - intros u Hu. rewrite <-Permutation_middle in Hu.
    apply elem_of_cons in Hu as [->|Hu]; [done|by apply H4].
  - intros u y Hy. destruct (Hst u y Hy) as (y0 & Hy0 & Ed & Ec & _).
    rewrite Ed, Ec. by apply H5.
  - intros u y Hy Hu. destruct (Hst u y Hy) as (y0 & Hy0 & _ & _ & Es & _). rewrite Es.
    case_decide as Huv; [|by eapply H6]. subst u. exfalso.
    apply NoDup_app in H3 as (_ & H3 & _). apply (H3 v Hu). apply list_elem_of_here.
  - intros u y Hy Hu. destruct (Hst u y Hy) as (y0 & Hy0 & _ & _ & Es & _). rewrite Es.
    case_decide as Huv; [done|]. apply elem_of_cons in Hu as [?|Hu]; [done|]. by eapply H7.
  - intros u y Hy Hu. destruct (Hst u y Hy) as (y0 & Hy0 & _ & _ & Es & _ & Ep).
    rewrite <-Permutation_middle, not_elem_of_cons in Hu. destruct Hu as [Huc Hu].
    assert (u ≠ v) by set_solver. rewrite Es, Ep, !decide_False by congruence. by eapply H8.
  - change (linked vs' (c :: v :: anc)). split; [|split].
    + intros y Hy. destruct (Hst c y Hy) as (y0 & Hy0 & _ & _ & _ & _ & Ep).
      by rewrite Ep, decide_True.
    + intros p [= <-]. unfold edge. destruct (H5 v x Hx) as [_ <-].
      destruct (H10 v x Hx) as (seen & -> & _). rewrite Hit. set_solver.
    + apply (linked_ext (s_vs st)); [done|]. intros u y Hu Hy.
      destruct (Hst u y Hy) as (y0 & Hy0 & _ & _ & _ & _ & Ep). exists y0. split; [done|].
      rewrite Ep, decide_False; [done|]. intros [= ->]. apply Hc. set_solver.
  - intros u y Hy. destruct (Hst u y Hy) as (y0 & Hy0 & _ & Ec & _ & Ei & _).
    destruct (H10 u y0 Hy0) as (seen & Hseen & Hin).
    rewrite Ec, Ei. case_decide as Huv.
    + subst u. assert (y0 = x) as -> by congruence. exists (seen ++ skipped ++ [c]).
      rewrite Hseen, Hit. split; [by rewrite <-!app_assoc|].
      intros w. rewrite !elem_of_app. intros [Hw|[Hw|Hw]].
      * specialize (Hin w Hw). set_solver.
      * specialize (Hsk w Hw). set_solver.
      * set_solver.
    + exists seen. split; [done|]. intros w Hw. specialize (Hin w Hw). set_solver.
  - done.
  - done.
Qed.

Lemma omap_snoc order v p :
  data_at v = Some p →
  targets_of (order ++ [v]) =
    if alpm_list_find_ptr targets p then targets_of order ++ [p] else targets_of order.
Proof.
  intros Hp. unfold targets_of. rewrite omap_app, List.filter_app. simpl. rewrite Hp. simpl.
  destruct (alpm_list_find_ptr targets p); [done|]. by rewrite app_nil_r.
Qed.

(** Finishing the current vertex. *)
Lemma finish_core st order anc vs' x v :
  sinv st order (v :: anc) → s_vertex st = v →
  s_vs st !! v = Some x →
  stepped (s_vs st) vs' v ALPM_GRAPH_STATE_PROCESSED [] None →
  (∀ w, w ∈ v_iterator x → w ∈ order ++ v :: anc) →
  score vs' (if alpm_list_find_ptr targets (v_data x) then s_newtargs st ++ [v_data x]
             else s_newtargs st) (order ++ [v]) anc.
Proof.
  intros Hi Hcur Hx [Hlen Hst] Hsk. destruct Hi as [[H1 H3 H4 H5 H6 H7 H8 H9 H10 H11 H13] H2 H12].
  assert (∀ u, u ∈ (order ++ [v]) ++ anc ↔ u ∈ order ++ v :: anc) as Hmem
    by (intros u; by rewrite <-app_assoc).
  assert (∀ w, w ∈ kids v → w ∈ order ++ v :: anc) as Hkids.
  { intros w Hw. destruct (H5 v x Hx) as [_ Hk]. rewrite <-Hk in Hw.
    destruct (H10 v x Hx) as (seen & Hseen & Hin). rewrite Hseen, elem_of_app in Hw.
    destruct Hw as [Hw|Hw]; [by apply Hin|by apply Hsk]. }
  assert (v ∉ anc ∧ v ∉ order) as [Hva Hvo].
  { rewrite <-Permutation_middle in H3. apply NoDup_cons in H3 as [H3 _]. set_solver. }
  split.
  - by rewrite Hlen.
  - by rewrite <-app_assoc.
  - intros u Hu%Hmem. by apply H4.
  - intros u y Hy. destruct (Hst u y Hy) as (y0 & Hy0 & Ed & Ec & _). rewrite Ed, Ec. by apply H5.
  - intros u y Hy Hu. destruct (Hst u y Hy) as (y0 & Hy0 & _ & _ & Es & _). rewrite Es.
    case_decide; [done|]. apply (H6 u); [done|]. set_solver.
  - intros u y Hy Hu. destruct (Hst u y Hy) as (y0 & Hy0 & _ & _ & Es & _). rewrite Es.
    assert (u ∈ anc) by (destruct anc; [done|]; by apply list_elem_of_further).
    rewrite decide_False by congruence. by apply (H7 u).
  - intros u y Hy Hu. rewrite Hmem in Hu.
    destruct (Hst u y Hy) as (y0 & Hy0 & _ & _ & Es & _ & Ep).
    assert (u ≠ v) by set_solver. rewrite Es, Ep, !decide_False by congruence. by apply (H8 u).
  - apply (linked_ext (s_vs st)); [by destruct H9 as (_ & _ & ?)|]. intros u y Hu Hy.
    destruct (Hst u y Hy) as (y0 & Hy0 & _ & _ & _ & _ & Ep). exists y0.
    by rewrite Ep, decide_False.
  - intros u y Hy. destruct (Hst u y Hy) as (y0 & Hy0 & _ & Ec & _ & Ei & _).
    setoid_rewrite Hmem. rewrite Ec, Ei. case_decide as Huv.
    + subst u. exists (v_children y0). rewrite app_nil_r. split; [done|].
      intros w Hw. apply Hkids. by destruct (H5 v y0 Hy0) as [_ <-].
    + by apply (H10 u).
  - intros u w Hu Hw. rewrite elem_of_app in Hu. destruct Hu as [Hu|Hu].
    + destruct (H11 u w Hu Hw) as [Hb|Hb]; [left; by apply before_app_l|by right].
    + apply list_elem_of_singleton in Hu as ->. specialize (Hkids w Hw).
      apply elem_of_app in Hkids as [Hwo|Hws]; [left; by apply before_snoc|right].
      by eapply linked_reach.
  - destruct (H5 v x Hx) as [Hd _]. rewrite (omap_snoc order v _ Hd). by rewrite H13.
Qed.

(** Starting a new tree at an unprocessed vertex. *)
Lemma restart_core vs nt order i x :
  score vs nt order [] → vs !! i = Some x → v_state x = ALPM_GRAPH_STATE_UNPROCESSED →
  score vs nt order [i].
Proof.
  intros [H1 H3 H4 H5 H6 H7 H8 H9 H10 H11 H13] Hx Hs. rewrite app_nil_r in *.
  assert (i ∉ order) as Hno by (intros Hi; specialize (H6 i x Hx Hi); congruence).
  assert (i < length vs0) by (rewrite <-H1; by eapply lookup_lt_Some).
  split; try done.
  - rewrite Permutation_app_comm. simpl. by constructor.
  - intros u. rewrite elem_of_app. intros [Hu|Hu]; [by apply H4|].
    by apply list_elem_of_singleton in Hu as ->.
  - intros u y Hy Hu. apply (H8 u); [done|]. set_solver.
  - split_and!; [|done|done]. intros y Hy. by apply (H8 i).
  - intros u y Hy. destruct (H10 u y Hy) as (seen & ? & Hin). exists seen. split; [done|].
    intros w Hw. apply elem_of_app. left. by apply Hin.
Qed.

Lemma sort_step_inv st order stack :
  sinv st order stack →
  match sort_step targets st with
  | inl st' => ∃ order' stack', sinv st' order' stack' ∧
      2 * length order + length stack < 2 * length order' + length stack'
  | inr newtargs => search_done newtargs
  end.
Proof.
  intros Hi. pose proof Hi as [Hcore Hhead Hprefix]. unfold sort_step.
  destruct stack as [|v anc]; [done|]. simpl in Hhead. injection Hhead as Hv. rewrite <-Hv.
  destruct (lookup_lt_is_Some_2 (s_vs st) v) as [x Hx].
  { rewrite (si_len _ _ _ _ Hcore). apply (si_lt _ _ _ _ Hcore). set_solver. }
  rewrite list_lookup_alter_eq, Hx. simpl.
  assert (∀ w, w ∈ v_iterator x → w < length vs0) as Hitlt.
  { intros w Hw. apply (kids_lt v). unfold edge.
    destruct (si_data _ _ _ _ Hcore v x Hx) as [_ <-].
    destruct (si_it _ _ _ _ Hcore v x Hx) as (seen & -> & _). set_solver. }
  destruct (scan_children _ (v_iterator x)) as [[c|] it] eqn:Esc;
    destruct (scan_children_spec _ _ _ _ Esc) as (skipped & Hr & Hskip).
  - destruct Hr as [Hit (y & Hy & Hys)].
    assert (c < length vs0) as Hclt by (apply Hitlt; rewrite Hit; set_solver).
    apply lookup_alter_inv in Hy as (y0 & Hy0 & ->). case_decide as Hvc; [done|].
    assert (c ∉ order ++ v :: anc) as Hcn.
    { rewrite elem_of_app, elem_of_cons. intros [Hc|[Hc|Hc]]; [|done|].
      - by rewrite (si_order _ _ _ _ Hcore c y0 Hy0 Hc) in Hys.
      - by rewrite (si_anc _ _ _ _ Hcore c y0 Hy0 Hc) in Hys. }
    exists order, (c :: v :: anc). split; [|simpl; lia].
    eapply (descend_inv st order (v :: anc) _ it c x skipped); try done.
    + by rewrite <-Hv.
    + rewrite <-Hv. apply stepped_descend.
    + eapply (seen_known st order (v :: anc) v x); [done..|]. intros w Hw.
      apply Hitlt. rewrite Hit. set_solver.
  - destruct Hr as [<- ->].
    assert (∀ w, w ∈ v_iterator x → w ∈ order ++ v :: anc) as Hsk.
    { eapply (seen_known st order (v :: anc) v x); done. }
    pose proof (finish_core st order anc _ x v Hi (eq_sym Hv) Hx (stepped_finish _ v []) Hsk) as Hf.
    set (vs' := alter (set_state ALPM_GRAPH_STATE_PROCESSED) v _) in *. set (nt := if alpm_list_find_ptr _ _ then _ else _) in *.
    destruct (si_link _ _ _ _ Hcore) as (Hpar & _ & _). rewrite (Hpar x Hx).
    destruct anc as [|p anc]; simpl.
    + pose proof (next_unprocessed_spec (S (s_i st)) (drop (S (s_i st)) vs')) as Hn.
      destruct (next_unprocessed _ _) as [i|].
      * destruct Hn as (Hle & (y & Hy & Hys) & Hbefore).
        rewrite lookup_drop in Hy. replace (S (s_i st) + (i - S (s_i st))) with i in Hy by lia.
        exists (order ++ [v]), [i]. rewrite !length_app. simpl. split; [|lia].
        split; [by eapply restart_core|done|]. simpl. intros k Hk.
        destruct (decide (k ≤ s_i st)) as [Hks|Hks]; [specialize (Hprefix k Hks); set_solver|].
        destruct (decide (k = i)) as [->|Hki]; [set_solver|].
        destruct (decide (k ∈ order ++ [v])) as [|Hno]; [set_solver|]. exfalso.
        destruct (lookup_lt_is_Some_2 vs' k) as [z Hz].
        { apply lookup_lt_Some in Hy. lia. }
        apply (Hbefore k z); [lia| |].
        -- rewrite lookup_drop. by replace (S (s_i st) + (k - S (s_i st))) with k by lia.
        -- apply (si_white _ _ _ _ Hf k z Hz). by rewrite app_nil_r.
      * exists (order ++ [v]). destruct Hf as [F1 F3 F4 F5 F6 F7 F8 F9 F10 F11 F13].
        rewrite app_nil_r in F3. split_and!; [done|done| |done].
        intros k. split; [intros Hk; apply F4; by rewrite app_nil_r|]. intros Hk.
        destruct (decide (k ∈ order ++ [v])) as [|Hno]; [done|]. exfalso.
        destruct (decide (k ≤ s_i st)) as [Hks|Hks].
        { specialize (Hprefix k Hks). set_solver. }
        destruct (lookup_lt_is_Some_2 vs' k) as [z Hz]; [lia|].
        apply (Hn k z); [lia| |].
        -- rewrite lookup_drop. by replace (S (s_i st) + (k - S (s_i st))) with k by lia.
        -- apply (F8 k z Hz). by rewrite app_nil_r.
    + exists (order ++ [v]), (p :: anc). rewrite !length_app. simpl. split; [|lia].
      split; [done|done|]. simpl. intros k Hk. specialize (Hprefix k Hk). set_solver.
Qed.

Lemma sinv_measure st order stack :
  sinv st order stack → 2 * length order + length stack ≤ 2 * length vs0.
Proof.
  intros [Hcore _ _].
  assert (length (order ++ stack) ≤ length vs0) as H.
  { transitivity (length (seq 0 (length vs0))); [|by rewrite length_seq].
    apply submseteq_length.
    apply NoDup_submseteq; [apply Hcore|]. intros u Hu. apply elem_of_seq.
    pose proof (si_lt _ _ _ _ Hcore u Hu). lia. }
  rewrite length_app in H. lia.
Qed.

(** The loop ends within its fuel. *)
Lemma sort_loop_done fuel st order stack :
  sinv st order stack →
  2 * length vs0 < fuel + (2 * length order + length stack) →
  ∃ newtargs, sort_loop fuel targets st = Some newtargs ∧ search_done newtargs.
Proof.
  revert st order stack. induction fuel as [|fuel IH]; intros st order stack Hi Hf.
  - pose proof (sinv_measure _ _ _ Hi). lia.
  - simpl. pose proof (sort_step_inv _ _ _ Hi) as H. destruct (sort_step targets st) as [st'|nt].
    + destruct H as (order' & stack' & Hi' & Hlt). eapply IH; [done|]. lia.
    + eauto.
Qed.
End search.

Lemma final_kids_lt targets locals vs u w :
  graph_final targets locals vs → edge vs u w → w < length vs.
Proof.
  intros Hg. unfold edge, kids. destruct (vs !! u) as [v|] eqn:E; [|set_solver].
  destruct (gf_edges _ _ _ Hg u v E) as [_ He]. rewrite He. intros (q & Hq & _).
  apply lookup_lt_Some in Hq. unfold data in Hq. by rewrite length_map in Hq.
Qed.

Lemma sort_init_inv targets locals vs ts :
  graph_final targets locals vs → vs ≠ [] →
  sinv vs ts (mk_sort vs [] 0 0) [] [0].
Proof.
  intros Hg Hne. pose proof (gf_fresh _ _ _ Hg) as Hf. rewrite Forall_lookup in Hf.
  split; [split|done|]; simpl; try done.
  - apply NoDup_singleton.
  - intros u ->%list_elem_of_singleton. destruct vs; [done|]. simpl. lia.
  - intros u x Hx. unfold data_at, kids. by rewrite Hx.
  - intros u x _ Hu. by apply not_elem_of_nil in Hu.
  - intros u x _ Hu. by apply not_elem_of_nil in Hu.
  - intros u x Hx _. destruct (Hf u x Hx). done.
  - split_and!; [|done|done]. intros x Hx. by destruct (Hf 0 x Hx).
  - intros u x Hx. exists []. split; [|set_solver]. simpl. symmetry.
    by destruct (gf_edges _ _ _ Hg u x Hx).
  - intros u w Hu. by apply not_elem_of_nil in Hu.
  - intros k Hk. assert (k = 0) as -> by lia. set_solver.
Qed.

Lemma before_omap {A B} (f : A → option B) l x y a b :
  before l x y → f x = Some a → f y = Some b → before (omap f l) a b.
Proof.
  intros (l1 & l2 & l3 & ->) Hx Hy. exists (omap f l1), (omap f l2), (omap f l3).
  rewrite omap_app. simpl. rewrite Hx, omap_app. simpl. by rewrite Hy.
Qed.

Lemma before_filter {A} (f : A → bool) l x y :
  before l x y → f x = true → f y = true → before (List.filter f l) x y.
Proof.
  intros (l1 & l2 & l3 & ->) Hx Hy.
  exists (List.filter f l1), (List.filter f l2), (List.filter f l3).
  rewrite List.filter_app. simpl. rewrite Hx, List.filter_app. simpl. by rewrite Hy.
Qed.

Lemma before_reverse {A} (l : list A) x y : before l x y → before (reverse l) y x.
Proof.
  intros (l1 & l2 & l3 & ->). exists (reverse l3), (reverse l2), (reverse l1).
  rewrite !reverse_app, !reverse_cons, !reverse_app, !reverse_cons.
  by rewrite <-!app_assoc.
Qed.

Lemma filter_true {A} (f : A → bool) l : (∀ x, x ∈ l → f x = true) → List.filter f l = l.
Proof.
  induction l as [|x l IH]; intros H; simpl; [done|].
  rewrite H by set_solver. f_equal. apply IH. set_solver.
Qed.
Lemma filter_false {A} (f : A → bool) l : (∀ x, x ∈ l → f x = false) → List.filter f l = [].
Proof.
  induction l as [|x l IH]; intros H; simpl; [done|].
  rewrite H by set_solver. apply IH. set_solver.
Qed.

Lemma filter_perm {A} (f : A → bool) l l' : l ≡ₚ l' → List.filter f l ≡ₚ List.filter f l'.
Proof.
  induction 1; simpl; repeat case_match; try done.
  - by constructor.
  - constructor.
  - by etrans.
Qed.

(** Direct dependency within a set of packages. *)
Definition dep_in (U : list alpm_pkg_t) (p q : alpm_pkg_t) : Prop :=
  p ∈ U ∧ q ∈ U ∧ alpm_pkg_depends_on p q = true.

Lemma data_at_data vs u : data_at vs u = data vs !! u.
Proof. unfold data_at, data. by rewrite list_lookup_fmap. Qed.

Lemma edge_dep_in targets locals vs u w p q :
  graph_final targets locals vs → data_at vs u = Some p → data_at vs w = Some q →
  edge vs u w ↔ alpm_pkg_depends_on p q = true.
Proof.
  intros Hg Hp Hq. rewrite data_at_data in Hp, Hq. unfold edge, kids.
  apply data_lookup in Hp as (v & Hv & <-). rewrite Hv.
  destruct (gf_edges _ _ _ Hg u v Hv) as [_ He]. rewrite He. split; [|eauto].
  intros (q' & Hq' & Hd). congruence.
Qed.

Lemma reach_dep_in targets locals vs u w p :
  graph_final targets locals vs → rtc (edge vs) u w → data_at vs u = Some p →
  ∃ q, data_at vs w = Some q ∧ rtc (dep_in (data vs)) p q.
Proof.
  intros Hg Hr. revert p. induction Hr as [u|u m w Hum Hmw IH]; intros p Hp; [by exists p|].
  pose proof (final_kids_lt _ _ _ _ _ Hg Hum) as Hlt.
  destruct (lookup_lt_is_Some_2 (data vs) m) as [r Hr]; [unfold data; by rewrite length_map|].
  rewrite <-data_at_data in Hr. destruct (IH r Hr) as (q & Hq & Hrq). exists q. split; [done|].
  econstructor; [|done]. rewrite data_at_data in Hp, Hr.
  split_and!; [by eapply list_elem_of_lookup_2..|].
  rewrite <-data_at_data in Hp, Hr. by eapply edge_dep_in.
Qed.

(** The local packages that may become vertices. *)
Definition graph_locals (localcache targets ignore : list alpm_pkg_t) : list alpm_pkg_t :=
  match ignore with
  | [] => alpm_list_diff alpm_pkg_cmp localcache targets
  | _ => alpm_list_diff alpm_pkg_cmp (alpm_list_diff alpm_pkg_cmp localcache targets) ignore
  end.

Lemma dep_graph_final localcache targets ignore :
  graph_final targets (graph_locals localcache targets ignore)
    (dep_graph_init localcache targets ignore).
Proof. unfold dep_graph_init, graph_locals. destruct ignore; apply graph_loop_final. Qed.

Lemma distinct_names l : NoDup (map pkg_name l) → distinct_keys alpm_pkg_cmp l.
Proof.
  intros Hnd i j x y Hi Hj Hc. unfold alpm_pkg_cmp in Hc. apply strcmp_eq in Hc.
  eapply (NoDup_lookup _ i j (pkg_name x) Hnd); rewrite list_lookup_fmap.
  - by rewrite Hi.
  - by rewrite Hj, Hc.
Qed.

Lemma graph_locals_spec localcache targets ignore p :
  NoDup (map pkg_name localcache) →
  p ∈ graph_locals localcache targets ignore →
  p ∈ localcache ∧ pkg_name p ∉ map pkg_name targets.
Proof.
  intros Hnd Hp.
  assert (p ∈ alpm_list_diff alpm_pkg_cmp localcache targets) as Hd.
  { unfold graph_locals in Hp. destruct ignore; [done|]. by apply diff_subset in Hp. }
  apply elem_of_diff in Hd as [Hin Hno]; [|apply _|by apply distinct_names]. split; [done|].
  intros (q & E & Hq)%list_elem_of_fmap. apply (Hno q Hq).
  unfold alpm_pkg_cmp. rewrite E. apply strcmp_refl.
Qed.

(** What the callers guarantee: the targets are different objects, the local
    cache has distinct names, and an address stands for one package. *)
Record sort_input (localcache targets : list alpm_pkg_t) : Prop := {
  in_addrs : NoDup (map pkg_addr targets);
  in_names : NoDup (map pkg_name localcache);
  in_coherent : coherent (targets ++ localcache)
}.

Lemma find_ptr_target localcache targets p :
  sort_input localcache targets → p ∈ targets → alpm_list_find_ptr targets p = true.
Proof. intros _ Hp. apply find_ptr_spec. eauto. Qed.

Lemma find_ptr_local localcache targets ignore p :
  sort_input localcache targets → p ∈ graph_locals localcache targets ignore →
  alpm_list_find_ptr targets p = false.
Proof.
  intros Hin Hp. destruct (graph_locals_spec _ _ _ _ (in_names _ _ Hin) Hp) as [Hl Hn].
  apply not_true_iff_false. rewrite find_ptr_spec. intros (q & Hq & Ha).
  assert (p = q) as ->.
  { apply (in_coherent _ _ Hin); [apply elem_of_app; by right|apply elem_of_app; by left|done]. }
  apply Hn. by apply list_elem_of_fmap_2.
Qed.

(** The order the search produces, before the optional reversal. *)
Lemma sort_loop_result localcache targets ignore :
  sort_input localcache targets → targets ≠ [] →
  let vs := dep_graph_init localcache targets ignore in
  ∃ r, sort_loop (2 * length vs) targets (mk_sort vs [] 0 0) = Some r ∧ r ≡ₚ targets ∧
    ∀ p q, p ∈ targets → q ∈ targets → alpm_pkg_depends_on p q = true →
           ¬ rtc (dep_in (data vs)) q p → before r q p.
Proof.
  intros Hin Hne vs. pose proof (dep_graph_final localcache targets ignore) as Hg. fold vs in Hg.
  destruct (gf_data _ _ _ Hg) as (added & Hdata & Hadded).
  assert (vs ≠ []) as Hvs.
  { intros E. rewrite E in Hdata. destruct targets; [done|]. done. }
  destruct (sort_loop_done vs targets (λ u w, final_kids_lt _ _ _ u w Hg) (2 * length vs) _ _ _
    (sort_init_inv _ _ _ targets Hg Hvs)) as (r & Hr & order & -> & Hnd & Hall & Hblack).
  { simpl. lia. }
  exists (targets_of vs targets order). split; [done|].
  assert (omap (data_at vs) order ≡ₚ data vs) as Hperm.
  { assert (order ≡ₚ seq 0 (length vs)) as Ho.
    { apply NoDup_Permutation; [done|apply NoDup_seq|]. intros k. rewrite Hall, elem_of_seq. lia. }
    rewrite Ho. clear. unfold data_at. induction vs as [|v vs IH] using rev_ind; [done|].
    rewrite length_app. simpl. rewrite Nat.add_1_r, seq_S, omap_app. simpl.
    rewrite lookup_app_r, Nat.sub_diag by lia. simpl. unfold data in *. rewrite map_app.
    f_equiv; [|done]. rewrite <-IH. erewrite list_omap_ext; [done|].
    apply Forall_Forall2_diag, Forall_seq. intros k Hk. simpl.
    by rewrite lookup_app_l by lia. }
  split.
  - unfold targets_of. rewrite (filter_perm _ _ _ Hperm), Hdata, List.filter_app.
    rewrite filter_true by (intros; by eapply find_ptr_target).
    rewrite filter_false; [by rewrite app_nil_r|].
    intros x Hx. eapply find_ptr_local; [done|]. by eapply elem_of_submseteq.
  - intros p q Hp Hq Hd Hnr.
    assert (∀ x, x ∈ targets → ∃ u, data_at vs u = Some x ∧ u ∈ order) as Hidx.
    { intros x Hx. assert (x ∈ data vs) as Hx' by (rewrite Hdata; set_solver).
      apply list_elem_of_lookup in Hx' as [u Hu]. exists u. rewrite data_at_data. split; [done|].
      apply Hall. apply lookup_lt_Some in Hu. unfold data in Hu. by rewrite length_map in Hu. }
    destruct (Hidx p Hp) as (u & Hu & Huo). destruct (Hidx q Hq) as (w & Hw & Hwo).
    destruct (Hblack u w Huo) as [Hb|Hb].
    + by eapply edge_dep_in.
    + apply before_filter; [by eapply before_omap|by eapply find_ptr_target..].
    + exfalso. destruct (reach_dep_in _ _ _ _ _ _ Hg Hb Hw) as (p' & Hp' & Hqp).
      assert (p' = p) as -> by congruence. done.
Qed.

(** ** Properties *)

Lemma sortbydeps_spec localcache targets ignore rev :
  sort_input localcache targets →
  ∃ r, alpm_sortbydeps localcache targets ignore rev = Some r ∧ r ≡ₚ targets.
Proof.
  intros Hin. unfold alpm_sortbydeps. destruct targets as [|t ts]; [by exists []|].
  destruct (sort_loop_result localcache (t :: ts) ignore Hin) as (r & Hr & Hp & _); [done|].
  rewrite Hr. simpl. eexists. split; [done|]. destruct rev; [|done]. by rewrite reverse_Permutation.
Qed.

(** _alpm_sortbydeps terminates and returns the same targets in another
    order: the search needs at most twice as many iterations as there are
    vertices, and every target is listed exactly once. *)
Theorem sortbydeps_permutation localcache targets ignore rev :
  sort_input localcache targets →
  ∃ r, alpm_sortbydeps localcache targets ignore rev = Some r ∧ r ≡ₚ targets.
Proof. exact (sortbydeps_spec localcache targets ignore rev). Qed.

(** C14. The order respects dependencies: when target p depends on target q
    (for any version of q that satisfies the dependency, or through what q
    provides), q comes before p, and after it when the order is reversed;
    unless q depends on p in turn, directly or through other packages of the
    graph, so that no order is right. *)
Theorem sortbydeps_order localcache targets ignore rev p q :
  sort_input localcache targets →
  p ∈ targets → q ∈ targets → alpm_pkg_depends_on p q = true →
  ¬ rtc (dep_in (data (dep_graph_init localcache targets ignore))) q p →
  ∃ r, alpm_sortbydeps localcache targets ignore rev = Some r ∧
       if rev then before r p q else before r q p.
Proof.
  intros Hin Hp Hq Hd Hnr. unfold alpm_sortbydeps. destruct targets as [|t ts]; [set_solver|].
  destruct (sort_loop_result localcache (t :: ts) ignore Hin) as (r & Hr & _ & Hb); [done|].
  rewrite Hr. simpl. eexists. split; [done|]. specialize (Hb p q Hp Hq Hd Hnr).
  destruct rev; [by apply before_reverse|done].
Qed.

(** The dependency graph: its vertices are the targets followed by
    installed packages that are neither targets nor ignored, and a vertex is a
    child of another exactly when the latter's package depends on the former's. *)
Theorem dep_graph_correct localcache targets ignore :
  NoDup (map pkg_name localcache) →
  let vs := dep_graph_init localcache targets ignore in
  (∃ added, data vs = targets ++ added ∧
     ∀ p, p ∈ added → p ∈ localcache ∧ pkg_name p ∉ map pkg_name targets) ∧
  ∀ u w p q, data vs !! u = Some p → data vs !! w = Some q →
     edge vs u w ↔ alpm_pkg_depends_on p q = true.
Proof.
  intros Hnd vs. pose proof (dep_graph_final localcache targets ignore) as Hg. fold vs in Hg.
  destruct (gf_data _ _ _ Hg) as (added & Hdata & Hadded). split.
  - exists added. split; [done|]. intros p Hp. eapply graph_locals_spec; [done|].
    by eapply elem_of_submseteq.
  - intros u w p q Hp Hq. rewrite <-data_at_data in Hp, Hq. by eapply edge_dep_in.
Qed.

Definition ex_a : alpm_pkg_t :=
  simple_pkg 1 (str "a") (str "1-1") [ex_dep "c"] [] [] ALPM_PKG_REASON_EXPLICIT.
Definition ex_b : alpm_pkg_t :=
  simple_pkg 2 (str "b") (str "1-1") [ex_dep "a>=1"] [] [] ALPM_PKG_REASON_EXPLICIT.
Definition ex_c : alpm_pkg_t :=
  simple_pkg 3 (str "c") (str "1-1") [] [] [] ALPM_PKG_REASON_EXPLICIT.
Definition ex_d : alpm_pkg_t :=
  simple_pkg 4 (str "d") (str "1-1") [] [] [] ALPM_PKG_REASON_EXPLICIT.

(** The example in the comment of _alpm_sortbydeps. *)
Example sortbydeps_example :
  alpm_sortbydeps [] [ex_a; ex_b; ex_c; ex_d] [] false = Some [ex_c; ex_a; ex_b; ex_d].
Proof. vm_compute. reflexivity. Qed.

Lemma ex_sort_input : sort_input [] [ex_a; ex_b; ex_c; ex_d].
Proof.
  split.
  - simpl. repeat constructor; set_solver.
  - constructor.
  - intros p q Hp Hq. rewrite app_nil_r in Hp, Hq.
    repeat (apply elem_of_cons in Hp as [->|Hp]); try (by apply not_elem_of_nil in Hp);
    repeat (apply elem_of_cons in Hq as [->|Hq]); try (by apply not_elem_of_nil in Hq); done.
Qed.

Lemma sortbydeps_permutation_witness :
  ∃ r, alpm_sortbydeps [] [ex_a; ex_b; ex_c; ex_d] [] true = Some r ∧
       r ≡ₚ [ex_a; ex_b; ex_c; ex_d].
Proof. exact (sortbydeps_permutation [] _ [] true ex_sort_input). Defined.

Lemma sortbydeps_order_witness :
  ∃ r, alpm_sortbydeps [] [ex_a; ex_b; ex_c; ex_d] [] false = Some r ∧ before r ex_a ex_b.
Proof.
  apply (sortbydeps_order [] [ex_a; ex_b; ex_c; ex_d] [] false ex_b ex_a ex_sort_input).
  - apply list_elem_of_further, list_elem_of_here.
  - apply list_elem_of_here.
  - vm_compute. reflexivity.
  - assert (data (dep_graph_init [] [ex_a; ex_b; ex_c; ex_d] []) = [ex_a; ex_b; ex_c; ex_d])
      as -> by (vm_compute; reflexivity).
    intros H. assert (∀ x y, rtc (dep_in [ex_a; ex_b; ex_c; ex_d]) x y → y = ex_b → x = ex_b)
      as Hcl.
    { intros x y Hx Ey. induction Hx as [x|x m z Hxm Hmz IH]; [done|].
      specialize (IH Ey). subst m z. destruct Hxm as (Hx & _ & Hd).
      repeat (apply elem_of_cons in Hx as [->|Hx]); [..|by apply not_elem_of_nil in Hx];
        try done; vm_compute in Hd; discriminate. }
    specialize (Hcl _ _ H eq_refl). discriminate.
Defined.

Lemma dep_graph_correct_witness :
  edge (dep_graph_init [] [ex_a; ex_b; ex_c; ex_d] []) 1 0 ↔
  alpm_pkg_depends_on ex_b ex_a = true.
Proof.
  apply (proj2 (dep_graph_correct [] [ex_a; ex_b; ex_c; ex_d] [] NoDup_nil_2) 1 0 ex_b ex_a);
    vm_compute; reflexivity.
Defined.
