(* ===== verification/RecurseDeps.v ===== *)
(** * Recursive removal of unneeded dependencies

    lib/libalpm/deps.c: _alpm_select_depends and _alpm_recursedeps, which add
    to the removal targets the dependencies that only they need. The two loops
    that run over a list while it grows are [worklist]; the number of packages
    is enough fuel. *)
From S2P Require Import Prelude CString AlpmList Util Package PkgHash Handle Deps.

Definition eligible (explicit : bool) (p : alpm_pkg_t) : bool :=
  explicit || bool_decide (pkg_reason p = ALPM_PKG_REASON_DEPEND).

(** The test of the loop of _alpm_select_depends. *)
Definition selects (explicit : bool) (pkg deppkg : alpm_pkg_t) : bool :=
  eligible explicit deppkg && alpm_pkg_depends_on pkg deppkg.

(** _alpm_select_depends: the lists [from] and [to] afterwards. *)
Definition alpm_select_depends (explicit : bool) (pkg : alpm_pkg_t)
    (from to : list alpm_pkg_t) : list alpm_pkg_t * list alpm_pkg_t :=
  match pkg_depends pkg with
  | [] => (from, to)
  | _ => (List.filter (λ q, negb (selects explicit pkg q)) from,
          to ++ List.filter (selects explicit pkg) from)
  end.

(** [for(i = targs; i; i = i->next)] with [from] and [to] as state. *)
Fixpoint select_all (explicit : bool) (targs from to : list alpm_pkg_t)
    : list alpm_pkg_t * list alpm_pkg_t :=
  match targs with
  | [] => (from, to)
  | t :: targs' =>
      let '(from', to') := alpm_select_depends explicit t from to in
      select_all explicit targs' from' to'
  end.

(** [for(i = to; i; i = i->next)] where the body appends to [to]; with
    [need_from] the loop also ends when [from] is empty. *)
Fixpoint worklist (need_from explicit : bool) (fuel k : nat) (from to : list alpm_pkg_t)
    : list alpm_pkg_t * list alpm_pkg_t :=
  match fuel, to !! k with
  | S fuel', Some p =>
      if need_from && match from with [] => true | _ => false end then (from, to)
      else
        let '(from', to') := alpm_select_depends explicit p from to in
        worklist need_from explicit fuel' (S k) from' to'
  | _, _ => (from, to)
  end.

(** [keep = alpm_list_remove(keep, i->data, _alpm_pkg_cmp, NULL)] for all targets *)
Definition remove_targets (keep targs : list alpm_pkg_t) : list alpm_pkg_t :=
  fold_left (λ keep t, (alpm_list_remove alpm_pkg_cmp keep t).1) targs keep.

(** The packages that stay and the packages to add to the targets. *)
Definition recurse_select (cache targs : list alpm_pkg_t) (include_explicit : bool)
    : list alpm_pkg_t * list alpm_pkg_t :=
  let keep := remove_targets cache targs in
  let fuel := length cache in
  let '(keep, rem) := select_all include_explicit targs keep [] in
  let '(keep, rem) := worklist false include_explicit fuel 0 keep rem in
  let '(rem, keep) := worklist true true fuel 0 rem keep in
  (keep, rem).

(** _alpm_pkg_dup for every selected package, appended to the targets. *)
Fixpoint add_copies (next : nat) (targs rem : list alpm_pkg_t) : list alpm_pkg_t :=
  match rem with
  | [] => targs
  | p :: rem' => add_copies (S next) (targs ++ [alpm_pkg_dup next p]) rem'
  end.

Definition alpm_recursedeps (next : nat) (cache targs : list alpm_pkg_t)
    (include_explicit : bool) : list alpm_pkg_t :=
  add_copies next targs (recurse_select cache targs include_explicit).2.

(** ** Facts *)

(** What a worklist moves: eligible packages of [from] that a package of
    [start], or a package already moved, depends on. *)
Inductive pulled (explicit : bool) (start from : list alpm_pkg_t) : alpm_pkg_t → Prop :=
  | pulled_base p x : p ∈ start → x ∈ from → selects explicit p x = true →
                      pulled explicit start from x
  | pulled_step p x : pulled explicit start from p → x ∈ from → selects explicit p x = true →
                      pulled explicit start from x.

Lemma pulled_from explicit start from x : pulled explicit start from x → x ∈ from.
Proof. by destruct 1. Qed.

(** The effect of a selection from [from0], where [to] has become
    [to0 ++ moved]. *)
Record moving (explicit : bool) (start from0 from to0 to : list alpm_pkg_t)
    (handled : alpm_pkg_t → Prop) : Prop := {
  mv_to : ∃ moved, to = to0 ++ moved ∧ moved ++ from ≡ₚ from0 ∧
          ∀ x, x ∈ moved → pulled explicit start from0 x;
  mv_done : ∀ p x, handled p → x ∈ from → selects explicit p x = false
}.

Lemma select_depends_filter explicit p from to :
  alpm_select_depends explicit p from to =
  (List.filter (λ q, negb (selects explicit p q)) from, to ++ List.filter (selects explicit p) from).
Proof.
  unfold alpm_select_depends. destruct (pkg_depends p) eqn:E; [|done].
  assert (∀ q, selects explicit p q = false) as Hs.
  { intros q. unfold selects, alpm_pkg_depends_on. rewrite E. simpl. apply andb_false_r. }
  f_equal.
  - symmetry. induction from as [|q from IH]; simpl; [done|]. by rewrite Hs, IH.
  - induction from as [|q from IH]; simpl; [by rewrite app_nil_r|]. by rewrite Hs.
Qed.

Lemma select_moving explicit start from0 from to0 to handled p from' to' :
  moving explicit start from0 from to0 to handled →
  p ∈ start ∨ pulled explicit start from0 p →
  alpm_select_depends explicit p from to = (from', to') →
  moving explicit start from0 from' to0 to' (λ q, handled q ∨ q = p).
Proof.
  intros [(moved & -> & Hperm & Hmoved) Hdone] Hp. rewrite select_depends_filter. intros [= <- <-].
  assert (∀ x, x ∈ from → x ∈ from0) as Hsub
    by (intros x Hx; rewrite <-Hperm; set_solver).
  split.
  - exists (moved ++ List.filter (selects explicit p) from). split_and!.
    + by rewrite <-app_assoc.
    + by rewrite <-app_assoc, filter_split_perm.
    + intros x Hx. rewrite elem_of_app in Hx. destruct Hx as [Hx|Hx]; [by apply Hmoved|].
      rewrite elem_of_bfilter in Hx. destruct Hx as [Hx Hs].
      destruct Hp as [Hp|Hp]; [eapply pulled_base|eapply pulled_step]; eauto.
  - intros q x Hq Hx. rewrite elem_of_bfilter in Hx.
    destruct Hx as [Hx Hn]. destruct Hq as [Hq| ->]; [by apply Hdone|].
    by apply negb_true_iff in Hn.
Qed.

Lemma select_all_moving explicit start from0 targs from to0 to handled from' to' :
  moving explicit start from0 from to0 to handled →
  (∀ t, t ∈ targs → t ∈ start) →
  select_all explicit targs from to = (from', to') →
  moving explicit start from0 from' to0 to' (λ q, handled q ∨ q ∈ targs).
Proof.
  revert from to handled. induction targs as [|t targs IH]; intros from to handled Hm Ht; simpl.
  - intros [= <- <-]. destruct Hm as [H1 H2]. split; [done|]. intros p x [Hp|Hp]; [by apply H2|].
    by apply not_elem_of_nil in Hp.
  - destruct (alpm_select_depends explicit t from to) as [f1 t1] eqn:E. intros Hs.
    destruct (IH f1 t1 (λ q, handled q ∨ q = t)) as [H1 H2].
    + eapply select_moving; [done| |done]. left. apply Ht. set_solver.
    + intros x Hx. apply Ht. set_solver.
    + done.
    + split; [done|]. intros p x Hp. apply H2. rewrite elem_of_cons in Hp. tauto.
Qed.

Lemma worklist_moving need explicit start from0 to0 fuel k from to handled from' to' :
  moving explicit start from0 from to0 to handled →
  (∀ p, p ∈ to0 → p ∈ start) →
  (∀ j p, j < k → to !! j = Some p → handled p) →
  length from + length to ≤ fuel + k →
  worklist need explicit fuel k from to = (from', to') →
  moving explicit start from0 from' to0 to' (λ q, handled q ∨ q ∈ to').
Proof.
  revert k from to handled. induction fuel as [|fuel IH]; intros k from to handled Hm Hst Hk Hf Hw.
  - simpl in Hw. injection Hw as <- <-. destruct Hm as [H1 H2]. split; [done|].
    intros p x [Hp|Hp]; [by apply H2|]. apply H2.
    apply list_elem_of_lookup in Hp as [j Hj]. apply (Hk j); [|done].
    apply lookup_lt_Some in Hj. lia.
  - cbn [worklist] in Hw. destruct (to !! k) as [p|] eqn:Ep.
    2:{ injection Hw as <- <-. destruct Hm as [H1 H2]. split; [done|].
        intros q x [Hq|Hq]; [by apply H2|]. apply H2.
        apply list_elem_of_lookup in Hq as [j Hj]. apply (Hk j); [|done].
        apply lookup_lt_Some in Hj. apply lookup_ge_None in Ep. lia. }
    destruct (need && match from with [] => true | _ => false end) eqn:En.
    { injection Hw as <- <-. destruct from; [|by rewrite andb_false_r in En].
      destruct Hm as [H1 H2]. split; [done|]. intros q x _ Hx. by apply not_elem_of_nil in Hx. }
    destruct (alpm_select_depends explicit p from to) as [f1 t1] eqn:E.
    pose proof Hm as [(moved & Hto & Hperm & Hmoved) _].
    assert (p ∈ start ∨ pulled explicit start from0 p) as Hp.
    { apply list_elem_of_lookup_2 in Ep. rewrite Hto, elem_of_app in Ep.
      destruct Ep; [left; by apply Hst|right; by apply Hmoved]. }
    pose proof (select_moving _ _ _ _ _ _ _ _ _ _ Hm Hp E) as Hm1.
    rewrite select_depends_filter in E. injection E as <- <-.
    destruct (IH (S k) _ _ (λ q, handled q ∨ q = p) Hm1 Hst) as [H1 H2].
    + intros j q Hj Hq. destruct (decide (j = k)) as [->|Hne].
      * rewrite lookup_app_l in Hq by (by eapply lookup_lt_Some). right. congruence.
      * left. apply (Hk j); [lia|]. rewrite lookup_app_l in Hq; [done|].
        apply lookup_lt_Some in Ep. lia.
    + pose proof (Permutation_length (filter_split_perm (selects explicit p) from)) as Hl.
      rewrite length_app in Hl. rewrite length_app. lia.
    + done.
    + split; [done|]. intros q x Hq. apply H2. tauto.
Qed.

(** A completed selection moves exactly what is pulled. *)
Lemma moving_exact explicit start from0 from to0 to moved handled :
  moving explicit start from0 from to0 to handled →
  to = to0 ++ moved → moved ++ from ≡ₚ from0 →
  (∀ p, p ∈ start ∨ p ∈ moved → handled p) →
  NoDup from0 →
  ∀ x, x ∈ moved ↔ pulled explicit start from0 x.
Proof.
  intros [(moved' & Hto & Hperm' & Hmoved) Hdone] -> Hperm Hall Hnd x.
  apply app_inv_head in Hto as <-. split; [by apply Hmoved|].
  assert (∀ y, y ∈ from0 → y ∈ moved ∨ y ∈ from) as Hcase
    by (intros y Hy; rewrite <-Hperm in Hy; set_solver).
  induction 1 as [p x Hp Hx Hs|p x Hp IH Hx Hs]; destruct (Hcase x Hx) as [|Hf]; try done.
  - rewrite (Hdone p x) in Hs; [done| |done]. apply Hall. by left.
  - rewrite (Hdone p x) in Hs; [done| |done]. apply Hall. by right.
Qed.

Lemma remove_targets_spec cache targs :
  NoDup (map pkg_name cache) →
  NoDup (map pkg_name (remove_targets cache targs)) ∧
  length (remove_targets cache targs) ≤ length cache ∧
  ∀ x, x ∈ remove_targets cache targs ↔ x ∈ cache ∧ pkg_name x ∉ map pkg_name targs.
Proof.
  unfold remove_targets. revert cache. induction targs as [|t targs IH]; intros cache Hnd; simpl.
  - split_and!; [done|done|]. set_solver.
  - pose proof (list_remove_spec alpm_pkg_cmp cache t) as H.
    pose proof (list_remove_sublist alpm_pkg_cmp cache t) as Hsub.
    destruct (alpm_list_remove alpm_pkg_cmp cache t) as [c' o]. simpl in *.
    destruct (IH c') as (H1 & H2 & H3).
    { eapply sublist_NoDup; [exact Hnd|]. by apply (fmap_sublist pkg_name). }
    apply sublist_length in Hsub. split_and!; [done|lia|]. intros x. rewrite H3.
    assert (x ∈ c' ↔ x ∈ cache ∧ pkg_name x ≠ pkg_name t) as ->.
    { destruct o as [y|].
      - destruct H as (l1 & l2 & -> & -> & Hy & _). unfold alpm_pkg_cmp in Hy.
        apply strcmp_eq in Hy. rewrite map_app in Hnd. simpl in Hnd.
        rewrite <-Permutation_middle in Hnd. apply NoDup_cons in Hnd as [Hn _].
        rewrite <-map_app in Hn. split.
        + intros Hx. split; [set_solver|]. intros E. apply Hn. rewrite Hy, <-E.
          by apply list_elem_of_fmap_2.
        + intros [Hx Hne]. rewrite elem_of_app, elem_of_cons in Hx.
          destruct Hx as [?|[->|?]]; [set_solver|congruence|set_solver].
      - destruct H as [-> Hno]. split; [|by intros []]. intros Hx. split; [done|].
        intros E. apply (Hno x Hx). unfold alpm_pkg_cmp. rewrite E. apply strcmp_refl. }
    rewrite not_elem_of_cons. tauto.
Qed.

(** The closure and the packages that must stay, independently of lists. *)
Inductive needed (U C : alpm_pkg_t → Prop) : alpm_pkg_t → Prop :=
  | needed_base p x : U p → ¬ C p → C x → alpm_pkg_depends_on p x = true → needed U C x
  | needed_step p x : needed U C p → C x → alpm_pkg_depends_on p x = true → needed U C x.

Lemma selects_true p x : selects true p x = alpm_pkg_depends_on p x.
Proof. done. Qed.

(** Both results of the selection. *)
Lemma recurse_select_spec cache targs expl keep rem :
  NoDup (map pkg_name cache) →
  recurse_select cache targs expl = (keep, rem) →
  let U := remove_targets cache targs in
  let C := pulled expl targs U in
  keep ++ rem ≡ₚ U ∧
  (∀ x, x ∈ rem ↔ C x ∧ ¬ needed (λ p, p ∈ U) C x) ∧
  (∀ k r, k ∈ keep → r ∈ rem → alpm_pkg_depends_on k r = false).
Proof.
  intros Hnd Hr U C. unfold recurse_select in Hr. fold U in Hr.
  destruct (remove_targets_spec cache targs Hnd) as (Hnu & Hlen & _). fold U in Hnu, Hlen.
  assert (NoDup U) as HndU by (by eapply NoDup_fmap_1).
  destruct (select_all expl targs U []) as [k1 r1] eqn:E1.
  assert (moving expl targs U U [] [] (λ _, False)) as M0.
  { split; [|done]. exists []. split_and!; [done|done|]. intros x Hx. by apply not_elem_of_nil in Hx. }
  pose proof (select_all_moving _ _ _ _ _ _ _ _ _ _ M0 (λ t Ht, Ht) E1) as M1.
  destruct (worklist false expl (length cache) 0 k1 r1) as [k2 r2] eqn:E2.
  assert (length k1 + length r1 ≤ length cache + 0) as Hf1.
  { destruct M1 as [(moved & -> & Hp & _) _]. apply Permutation_length in Hp.
    rewrite length_app in Hp. simpl. lia. }
  pose proof (worklist_moving false _ _ _ _ (length cache) 0 _ _ _ _ _ M1
    ltac:(intros p Hp; by apply not_elem_of_nil in Hp) ltac:(intros j p Hj; lia) Hf1 E2) as M2.
  pose proof M2 as [(moved2 & Hr2 & Hp2 & _) _]. simpl in Hr2. subst moved2.
  assert (∀ x, x ∈ r2 ↔ C x) as HC.
  { eapply (moving_exact expl targs U k2 [] r2 r2); [exact M2|done|done| |done]. tauto. }
  destruct (worklist true true (length cache) 0 r2 k2) as [r3 k3] eqn:E3.
  injection Hr as <- <-.
  assert (moving true k2 r2 r2 k2 k2 (λ _, False)) as M3.
  { split; [|done]. exists []. rewrite app_nil_r. split_and!; [done|done|].
    intros x Hx. by apply not_elem_of_nil in Hx. }
  assert (length r2 + length k2 ≤ length cache + 0) as Hf2.
  { apply Permutation_length in Hp2. rewrite length_app in Hp2. lia. }
  pose proof (worklist_moving true _ _ _ _ (length cache) 0 _ _ _ _ _ M3
    (λ p Hp, Hp) ltac:(intros j p Hj; lia) Hf2 E3) as M4.
  pose proof M4 as [(moved4 & -> & Hp4 & _) Hdone].
  assert (NoDup (r2 ++ k2)) as Hnd2 by by rewrite Hp2.
  assert (NoDup r2) as HndR by (by apply NoDup_app in Hnd2 as (? & _)).
  assert (∀ x, x ∈ k2 ↔ x ∈ U ∧ ¬ C x) as HK.
  { intros x. rewrite <-Hp2, <-HC, elem_of_app. apply NoDup_app in Hnd2 as (_ & Hd & _).
    split; [|tauto]. intros Hx. split; [by right|]. intros Hx'. by apply (Hd x). }
  assert (∀ x, x ∈ moved4 ↔ needed (λ p, p ∈ U) C x) as HN.
  { intros x. rewrite (moving_exact true k2 r2 r3 k2 (k2 ++ moved4) moved4 _ M4); try done.
    - split; induction 1.
      + eapply needed_base; [by apply HK|by apply HK|by apply HC|done].
      + eapply needed_step; [done|by apply HC|done].
      + eapply pulled_base; [by apply HK|by apply HC|done].
      + eapply pulled_step; [done|by apply HC|done].
    - intros p. rewrite elem_of_app. tauto. }
  assert (NoDup (moved4 ++ r3)) as Hnd4 by by rewrite Hp4.
  apply NoDup_app in Hnd4 as (_ & Hd4 & _).
  split_and!.
  - rewrite <-app_assoc, Hp4. by rewrite Permutation_app_comm.
  - intros x. rewrite <-HC, <-HN. assert (x ∈ r2 ↔ x ∈ moved4 ∨ x ∈ r3) as ->
      by (by rewrite <-Hp4, elem_of_app).
    split; [|tauto]. intros Hx. split; [by right|]. intros Hx'. by apply (Hd4 x).
  - intros k r Hk Hr. rewrite <-selects_true. apply Hdone; [by right|done].
Qed.

Lemma add_copies_spec next targs rem :
  ∃ copies, add_copies next targs rem = targs ++ copies ∧
    length copies = length rem ∧
    ∀ i p, rem !! i = Some p → copies !! i = Some (alpm_pkg_dup (next + i) p).
Proof.
  revert next targs. induction rem as [|p rem IH]; intros next targs; simpl.
  - exists []. by rewrite app_nil_r.
  - destruct (IH (S next) (targs ++ [alpm_pkg_dup next p])) as (copies & -> & Hl & Hc).
    exists (alpm_pkg_dup next p :: copies). rewrite <-app_assoc. simpl.
    split_and!; [done|by rewrite Hl|]. intros [|i] q Hq; simpl in *.
    + injection Hq as <-. by rewrite Nat.add_0_r.
    + rewrite (Hc i q Hq). do 2 f_equal. lia.
Qed.

(** The new targets, and what holds of them. *)
Lemma recursedeps_spec next cache targs expl :
  NoDup (map pkg_name cache) →
  ∃ rem copies,
    alpm_recursedeps next cache targs expl = targs ++ copies ∧
    map pkg_name copies = map pkg_name rem ∧
    (hashes_ok cache → hashes_ok copies) ∧
    (∀ r, r ∈ rem → r ∈ cache ∧ pkg_name r ∉ map pkg_name targs ∧
          (expl = true ∨ pkg_reason r = ALPM_PKG_REASON_DEPEND)) ∧
    (∀ k r, k ∈ cache → pkg_name k ∉ map pkg_name targs → k ∉ rem → r ∈ rem →
            alpm_pkg_depends_on k r = false).
Proof.
  intros Hnd. destruct (recurse_select cache targs expl) as [keep rem] eqn:E.
  destruct (recurse_select_spec _ _ _ _ _ Hnd E) as (Hp & Hrem & Hsafe).
  destruct (remove_targets_spec cache targs Hnd) as (_ & _ & HU).
  destruct (add_copies_spec next targs rem) as (copies & Hc & Hlen & Hcp).
  exists rem, copies. split_and!.
  - unfold alpm_recursedeps. by rewrite E.
  - apply list_eq. intros i. rewrite !list_lookup_fmap. destruct (rem !! i) as [p|] eqn:Ei.
    + by rewrite (Hcp i p Ei).
    + apply lookup_ge_None in Ei. by rewrite lookup_ge_None_2 by lia.
  - unfold hashes_ok. rewrite !Forall_forall. intros Hh c Hc'.
    apply list_elem_of_lookup in Hc' as [i Hi].
    destruct (rem !! i) as [p|] eqn:Ei.
    2:{ apply lookup_ge_None in Ei. apply lookup_lt_Some in Hi. lia. }
    rewrite (Hcp i p Ei) in Hi. injection Hi as <-. apply (Hh p).
    apply list_elem_of_lookup_2 in Ei. apply Hrem in Ei as [Ei _].
    apply pulled_from in Ei. by apply HU in Ei as [? _].
  - intros r Hr. apply Hrem in Hr as [Hr _]. pose proof (pulled_from _ _ _ _ Hr) as HrU.
    apply HU in HrU as [Hc1 Hc2]. split_and!; [done|done|].
    assert (eligible expl r = true) as He.
    { destruct Hr as [p x _ _ Hs|p x _ _ Hs]; unfold selects in Hs; by bool_prop. }
    unfold eligible in He. destruct expl; [by left|right]. by apply bool_decide_eq_true in He.
  - intros k r Hk Hkt Hkr Hr. apply Hsafe; [|done].
    assert (k ∈ keep ++ rem) as Hkk by (rewrite Hp; by apply HU).
    rewrite elem_of_app in Hkk. tauto.
Qed.

(** ** Properties *)

(** Recursive removal is safe: the packages _alpm_recursedeps adds to the
    targets are installed packages that are not targets, each of them was
    installed as a dependency (unless explicit ones were asked for), and no
    package that stays installed depends on any of them. The new target list
    is the old one followed by fresh copies of these packages. *)
Theorem recursedeps_safe next cache targs expl :
  NoDup (map pkg_name cache) →
  ∃ rem copies,
    alpm_recursedeps next cache targs expl = targs ++ copies ∧
    map pkg_name copies = map pkg_name rem ∧
    (∀ r, r ∈ rem → r ∈ cache ∧ pkg_name r ∉ map pkg_name targs ∧
          (expl = true ∨ pkg_reason r = ALPM_PKG_REASON_DEPEND)) ∧
    (∀ k r, k ∈ cache → pkg_name k ∉ map pkg_name targs → k ∉ rem → r ∈ rem →
            alpm_pkg_depends_on k r = false).
Proof.
  intros Hnd. destruct (recursedeps_spec next cache targs expl Hnd)
    as (rem & copies & H1 & H2 & _ & H3). by exists rem, copies.
Qed.

(** C16. Recursive removal is exact: a package is added exactly when it is
    reached from the targets by dependencies through removable packages, and
    neither a package outside that closure nor a chain of dependencies from one
    needs it. *)
Theorem recursedeps_exact cache targs expl x :
  NoDup (map pkg_name cache) →
  let U := remove_targets cache targs in
  let C := pulled expl targs U in
  x ∈ (recurse_select cache targs expl).2 ↔ C x ∧ ¬ needed (λ p, p ∈ U) C x.
Proof.
  intros Hnd U C. destruct (recurse_select cache targs expl) as [keep rem] eqn:E. simpl.
  by destruct (recurse_select_spec _ _ _ _ _ Hnd E) as (_ & Hrem & _).
Qed.

Definition ex_app : alpm_pkg_t :=
  simple_pkg 1 (str "app") (str "1-1") [ex_dep "lib1"; ex_dep "lib2"] [] []
    ALPM_PKG_REASON_EXPLICIT.
Definition ex_lib1 : alpm_pkg_t :=
  simple_pkg 2 (str "lib1") (str "1-1") [ex_dep "lib3"] [] [] ALPM_PKG_REASON_DEPEND.
Definition ex_lib2 : alpm_pkg_t :=
  simple_pkg 3 (str "lib2") (str "1-1") [] [] [] ALPM_PKG_REASON_DEPEND.
Definition ex_lib3 : alpm_pkg_t :=
  simple_pkg 4 (str "lib3") (str "1-1") [] [] [] ALPM_PKG_REASON_DEPEND.
Definition ex_other : alpm_pkg_t :=
  simple_pkg 5 (str "other") (str "1-1") [ex_dep "lib2"] [] [] ALPM_PKG_REASON_EXPLICIT.
Definition ex_cache : list alpm_pkg_t := [ex_app; ex_lib1; ex_lib2; ex_lib3; ex_other].

(** lib2 is kept because [other] needs it. *)
Example recursedeps_example :
  map pkg_name (alpm_recursedeps 100 ex_cache [ex_app] false) =
  [str "app"; str "lib1"; str "lib3"].
Proof. vm_compute. reflexivity. Qed.

Lemma ex_cache_names : NoDup (map pkg_name ex_cache).
Proof. apply (bool_decide_unpack _). vm_compute. exact I. Qed.

Lemma recursedeps_safe_witness :
  ∃ rem copies,
    alpm_recursedeps 100 ex_cache [ex_app] false = [ex_app] ++ copies ∧
    map pkg_name copies = map pkg_name rem ∧
    (∀ r, r ∈ rem → r ∈ ex_cache ∧ pkg_name r ∉ map pkg_name [ex_app] ∧
          (false = true ∨ pkg_reason r = ALPM_PKG_REASON_DEPEND)) ∧
    (∀ k r, k ∈ ex_cache → pkg_name k ∉ map pkg_name [ex_app] → k ∉ rem → r ∈ rem →
            alpm_pkg_depends_on k r = false).
Proof. exact (recursedeps_safe 100 ex_cache [ex_app] false ex_cache_names). Defined.

Lemma recursedeps_exact_witness :
  ex_lib2 ∈ (recurse_select ex_cache [ex_app] false).2 ↔
  pulled false [ex_app] (remove_targets ex_cache [ex_app]) ex_lib2 ∧
  ¬ needed (λ p, p ∈ remove_targets ex_cache [ex_app])
      (pulled false [ex_app] (remove_targets ex_cache [ex_app])) ex_lib2.
Proof. exact (recursedeps_exact ex_cache [ex_app] false ex_lib2 ex_cache_names). Defined.
