(* ===== verification/ResolveDeps.v ===== *)
(** * The dependency resolver

    lib/libalpm/deps.c: resolvedep, which finds a package for a dependency in a
    list of databases, and _alpm_resolvedeps, which pulls in a package with
    everything it needs. The recursion of the latter takes the depth as fuel:
    every nested call has put one more name on the package list, so the number
    of known packages is enough. *)
From S2P Require Import Prelude CString AlpmList Util Package PkgHash Handle Deps.
Local Open Scope Z_scope.

Definition db_usable (db : alpm_db_t) : bool :=
  has_flag (db_usage db) (Z.lor ALPM_DB_USAGE_INSTALL ALPM_DB_USAGE_UPGRADE).

(** The package may be used: not ignored, or the user wants it. *)
Definition ignore_refused (env : alpm_env) (h : alpm_handle_t) (prompt : bool)
    (pkg : alpm_pkg_t) : bool :=
  should_ignore env h pkg && negb (prompt && q_install_ignorepkg env pkg).

(** ** resolvedep *)

(** 1. literals: the package found, or whether one was ignored. *)
Fixpoint resolve_literal env h dep (dbs : list alpm_db_t) (excluding : list alpm_pkg_t)
    (prompt ignored : bool) : option alpm_pkg_t * bool :=
  match dbs with
  | [] => (None, ignored)
  | db :: dbs' =>
      if negb (db_usable db) then resolve_literal env h dep dbs' excluding prompt ignored
      else
        match alpm_db_get_pkgfromcache db (dep_name dep) with
        | Some pkg =>
            if alpm_depcmp_literal pkg dep && negb (is_some (alpm_pkg_find excluding (pkg_name pkg)))
            then if ignore_refused env h prompt pkg
                 then resolve_literal env h dep dbs' excluding prompt true
                 else (Some pkg, ignored)
            else resolve_literal env h dep dbs' excluding prompt ignored
        | None => resolve_literal env h dep dbs' excluding prompt ignored
        end
  end.

(** 2. satisfiers: the scan of one package cache. The first component is a
    provider that is installed already, which ends the search. *)
Fixpoint resolve_provider env h dep (cache excluding : list alpm_pkg_t) (prompt : bool)
    (providers : list alpm_pkg_t) (ignored : bool)
    : option alpm_pkg_t * list alpm_pkg_t * bool :=
  match cache with
  | [] => (None, providers, ignored)
  | pkg :: cache' =>
      if (negb (pkg_name_hash pkg =? dep_name_hash dep) || negb (streq (pkg_name pkg) (dep_name dep)))
         && alpm_depcmp_provides dep (pkg_provides pkg)
         && negb (is_some (alpm_pkg_find excluding (pkg_name pkg)))
      then if ignore_refused env h prompt pkg
           then resolve_provider env h dep cache' excluding prompt providers true
           else if is_some (alpm_db_get_pkgfromcache (h_db_local h) (pkg_name pkg))
                then (Some pkg, providers, ignored)
                else resolve_provider env h dep cache' excluding prompt (providers ++ [pkg]) ignored
      else resolve_provider env h dep cache' excluding prompt providers ignored
  end.

Fixpoint resolve_providers env h dep (dbs : list alpm_db_t) (excluding : list alpm_pkg_t)
    (prompt : bool) (providers : list alpm_pkg_t) (ignored : bool)
    : option alpm_pkg_t * list alpm_pkg_t * bool :=
  match dbs with
  | [] => (None, providers, ignored)
  | db :: dbs' =>
      if negb (db_usable db)
      then resolve_providers env h dep dbs' excluding prompt providers ignored
      else
        match resolve_provider env h dep (alpm_db_get_pkgcache db) excluding prompt
                providers ignored with
        | (Some pkg, providers, ignored) => (Some pkg, providers, ignored)
        | (None, providers, ignored) =>
            resolve_providers env h dep dbs' excluding prompt providers ignored
        end
  end.

(** The choice among several providers. *)
Definition choose_provider env (dep : alpm_depend_t) (providers : list alpm_pkg_t)
    : option alpm_pkg_t :=
  let use_index := if Nat.ltb 1 (length providers) then q_select_provider env providers dep else 0 in
  if (0 <=? use_index) && (use_index <? Z.of_nat (length providers))
  then providers !! Z.to_nat use_index else None.

(** The package, and pm_errno when there is none. *)
Definition resolvedep env h (dep : alpm_depend_t) (dbs : list alpm_db_t)
    (excluding : list alpm_pkg_t) (prompt : bool) : option alpm_pkg_t * alpm_errno_t :=
  match resolve_literal env h dep dbs excluding prompt false with
  | (Some pkg, _) => (Some pkg, h_pm_errno h)
  | (None, ignored) =>
      match resolve_providers env h dep dbs excluding prompt [] ignored with
      | (Some pkg, _, _) => (Some pkg, h_pm_errno h)
      | (None, providers, ignored) =>
          match choose_provider env dep providers with
          | Some pkg => (Some pkg, h_pm_errno h)
          | None => (None, if ignored then ALPM_ERR_PKG_IGNORED else ALPM_ERR_PKG_NOT_FOUND)
          end
      end
  end.

Definition alpm_find_dbs_satisfier env h (dbs : list alpm_db_t) (depstring : cstr)
    : option alpm_pkg_t * alpm_errno_t :=
  match dbs with
  | [] => (None, ALPM_ERR_WRONG_ARGS)
  | _ => resolvedep env (set_errno ALPM_ERR_OK h) (alpm_dep_from_string depstring) dbs [] true
  end.

(** ** Facts about resolvedep *)

(** A package of a usable database. *)
Definition available (dbs : list alpm_db_t) (p : alpm_pkg_t) : Prop :=
  ∃ db, db ∈ dbs ∧ db_usable db = true ∧ p ∈ alpm_db_get_pkgcache db.

(** It may be chosen: neither excluded by name nor ignored. *)
Definition choosable env h (excluding : list alpm_pkg_t) (prompt : bool) (p : alpm_pkg_t) : Prop :=
  alpm_pkg_find excluding (pkg_name p) = None ∧ ignore_refused env h prompt p = false.

Lemma is_some_false {A} (o : option A) : is_some o = false ↔ o = None.
Proof. by destruct o. Qed.

Lemma available_cons db dbs p :
  db_usable db = true → p ∈ alpm_db_get_pkgcache db → available (db :: dbs) p.
Proof. intros. exists db. split_and!; [apply list_elem_of_here|done..]. Qed.
Lemma available_further db dbs p : available dbs p → available (db :: dbs) p.
Proof. intros (d & Hd & ?). exists d. split; [by apply list_elem_of_further|done]. Qed.

Lemma resolve_literal_Some env h dep dbs excl prompt ign p ign' :
  Forall PkgCache dbs →
  resolve_literal env h dep dbs excl prompt ign = (Some p, ign') →
  available dbs p ∧ choosable env h excl prompt p ∧ alpm_depcmp_literal p dep = true.
Proof.
  intros Hc. revert ign. induction Hc as [|db dbs Hdb Hc IH]; intros ign; simpl; [done|].
  assert (∀ ign, resolve_literal env h dep dbs excl prompt ign = (Some p, ign') →
    available (db :: dbs) p ∧ choosable env h excl prompt p ∧ alpm_depcmp_literal p dep = true)
    as IH'.
  { intros i Hi. destruct (IH i Hi) as (H1 & H2). split; [by apply available_further|done]. }
  destruct (db_usable db) eqn:Eu; simpl; [|by apply IH'].
  destruct (alpm_db_get_pkgfromcache db (dep_name dep)) as [q|] eqn:Eq; [|by apply IH'].
  destruct (alpm_depcmp_literal q dep && negb _) eqn:El; [|by apply IH'].
  destruct (ignore_refused env h prompt q) eqn:Ei; [by apply IH'|]. intros [= -> _].
  bool_prop. apply cache_lookup_Some in Eq as [Hq _]; [|done].
  split_and!; [by apply available_cons| |done]. split; [by apply is_some_false|done].
Qed.

Lemma literal_name p dep : alpm_depcmp_literal p dep = true → pkg_name p = dep_name dep.
Proof.
  unfold alpm_depcmp_literal. destruct (negb _ || negb _) eqn:E; [done|]. intros _.
  bool_prop. by apply streq_true.
Qed.

Lemma resolve_literal_None env h dep dbs excl prompt ign ign' :
  Forall PkgCache dbs →
  resolve_literal env h dep dbs excl prompt ign = (None, ign') →
  ∀ p, available dbs p → alpm_depcmp_literal p dep = true → ¬ choosable env h excl prompt p.
Proof.
  intros Hc. revert ign. induction Hc as [|db dbs Hdb Hc IH]; intros ign Hr p Ha Hl Hch.
  { destruct Ha as (d & Hd & _). by apply not_elem_of_nil in Hd. }
  simpl in Hr. destruct Ha as (d & Hd & Hu & Hp).
  apply elem_of_cons in Hd as [->|Hd].
  - rewrite Hu in Hr. simpl in Hr. rewrite <-(literal_name p dep Hl) in Hr.
    rewrite (cache_lookup_elem db p Hdb Hp), Hl in Hr. destruct Hch as [H1 H2].
    rewrite H1, H2 in Hr. done.
  - assert (available dbs p) as Ha by (exists d; done).
    destruct (db_usable db); simpl in Hr; [|by eapply IH].
    destruct (alpm_db_get_pkgfromcache db (dep_name dep)); [|by eapply IH].
    destruct (_ && _); [|by eapply IH].
    destruct (ignore_refused env h prompt _); [by eapply IH|done].
Qed.

Definition provider_for dep (p : alpm_pkg_t) : bool :=
  (negb (pkg_name_hash p =? dep_name_hash dep) || negb (streq (pkg_name p) (dep_name dep)))
  && alpm_depcmp_provides dep (pkg_provides p).

Lemma resolve_provider_spec env h dep cache excl prompt provs ign r provs' ign' :
  resolve_provider env h dep cache excl prompt provs ign = (r, provs', ign') →
  (∀ p, p ∈ provs' → p ∈ provs ∨ p ∈ cache ∧ provider_for dep p = true ∧ choosable env h excl prompt p) ∧
  match r with
  | Some p => p ∈ cache ∧ provider_for dep p = true ∧ choosable env h excl prompt p
  | None => ∀ p, p ∈ provs ∨ p ∈ cache ∧ provider_for dep p = true ∧ choosable env h excl prompt p →
                 p ∈ provs'
  end.
Proof.
  revert provs ign. induction cache as [|q cache IH]; intros provs ign; simpl.
  { intros [= <- <- _]. split; [by left|]. intros p [?|[Hp _]]; [done|]. by apply not_elem_of_nil in Hp. }
  fold (provider_for dep q).
  assert (∀ i, (provider_for dep q = true → ¬ choosable env h excl prompt q) →
    resolve_provider env h dep cache excl prompt provs i = (r, provs', ign') →
    (∀ p, p ∈ provs' → p ∈ provs ∨ p ∈ q :: cache ∧ provider_for dep p = true ∧
       choosable env h excl prompt p) ∧
    match r with
    | Some p => p ∈ q :: cache ∧ provider_for dep p = true ∧ choosable env h excl prompt p
    | None => ∀ p, p ∈ provs ∨ p ∈ q :: cache ∧ provider_for dep p = true ∧
                   choosable env h excl prompt p → p ∈ provs'
    end) as Hskip.
  { intros i Hq Hr. destruct (IH _ _ Hr) as [H1 H2]. setoid_rewrite elem_of_cons. split.
    - intros p Hp. destruct (H1 p Hp) as [?|(? & ?)]; [by left|right]. tauto.
    - destruct r as [p|]; setoid_rewrite elem_of_cons; [destruct H2 as (? & ?); tauto|].
      intros p [Hp|([->|Hp] & Hpf & Hch)].
      + apply H2. by left.
      + by destruct (Hq Hpf).
      + apply H2. tauto. }
  destruct (provider_for dep q) eqn:Epf; simpl; [|by apply Hskip].
  destruct (is_some (alpm_pkg_find excl (pkg_name q))) eqn:Ee; simpl.
  { apply Hskip. intros _ [H _]. by rewrite H in Ee. }
  apply is_some_false in Ee. destruct (ignore_refused env h prompt q) eqn:Ei.
  { apply Hskip. intros _ [_ H]. congruence. }
  destruct (is_some (alpm_db_get_pkgfromcache _ _)).
  - intros [= <- <- _]. split; [by left|]. split_and!; [apply list_elem_of_here|done|by split].
  - intros Hr. destruct (IH _ _ Hr) as [H1 H2]. setoid_rewrite elem_of_cons. split.
    + intros p Hp. destruct (H1 p Hp) as [Hp'|(? & ?)]; [|tauto].
      apply elem_of_app in Hp' as [?|Hp']; [by left|]. apply list_elem_of_singleton in Hp' as ->.
      right. split_and!; [by left|done|by split].
    + destruct r as [p|]; setoid_rewrite elem_of_cons; [destruct H2 as (? & ?); tauto|].
      intros p [Hp|([->|Hp] & Hpf & Hch)]; apply H2; rewrite elem_of_app, list_elem_of_singleton; tauto.
Qed.

Lemma resolve_providers_spec env h dep dbs excl prompt provs ign r provs' ign' :
  resolve_providers env h dep dbs excl prompt provs ign = (r, provs', ign') →
  (∀ p, p ∈ provs' → p ∈ provs ∨ available dbs p ∧ provider_for dep p = true ∧
     choosable env h excl prompt p) ∧
  match r with
  | Some p => available dbs p ∧ provider_for dep p = true ∧ choosable env h excl prompt p
  | None => ∀ p, p ∈ provs ∨ available dbs p ∧ provider_for dep p = true ∧
                 choosable env h excl prompt p → p ∈ provs'
  end.
Proof.
  revert provs ign. induction dbs as [|db dbs IH]; intros provs ign; simpl.
  { intros [= <- <- _]. split; [by left|]. intros p [?|[(d & Hd & _) _]]; [done|].
    by apply not_elem_of_nil in Hd. }
  assert (∀ p, available (db :: dbs) p ↔
    db_usable db = true ∧ p ∈ alpm_db_get_pkgcache db ∨ available dbs p) as Hav.
  { intros p. split.
    - intros (d & [->|Hd]%elem_of_cons & ? & ?); [by left|right; by exists d].
    - intros [[? ?]|?]; [by apply available_cons|by apply available_further]. }
  destruct (db_usable db) eqn:Eu; simpl.
  2:{ intros Hr. destruct (IH _ _ Hr) as [H1 H2]. setoid_rewrite Hav. split.
      - intros p Hp. destruct (H1 p Hp) as [?|(? & ?)]; [by left|tauto].
      - destruct r as [p|]; setoid_rewrite Hav; [destruct H2 as (? & ?); tauto|].
        intros p [Hp|([[? _]|Ha] & ?)]; [apply H2; by left|done|apply H2; tauto]. }
  destruct (resolve_provider env h dep (alpm_db_get_pkgcache db) excl prompt provs ign)
    as [[r1 p1] i1] eqn:E1. destruct (resolve_provider_spec _ _ _ _ _ _ _ _ _ _ _ E1) as [A1 A2].
  destruct r1 as [q|].
  - intros [= <- <- _]. setoid_rewrite Hav. split.
    + intros p Hp. destruct (A1 p Hp) as [?|(? & ?)]; [by left|tauto].
    + destruct A2 as (? & ?). tauto.
  - intros Hr. destruct (IH _ _ Hr) as [H1 H2]. setoid_rewrite Hav. split.
    + intros p Hp. destruct (H1 p Hp) as [Hp'|(? & ?)]; [|tauto].
      destruct (A1 p Hp') as [?|(? & ?)]; [by left|tauto].
    + destruct r as [p|]; setoid_rewrite Hav; [destruct H2 as (? & ?); tauto|].
      intros p [Hp|([[_ Hp]|Ha] & Hpf)]; apply H2; [left; apply A2; by left|left|by right].
      apply A2. tauto.
Qed.

Lemma choose_provider_Some env dep provs p : choose_provider env dep provs = Some p → p ∈ provs.
Proof.
  unfold choose_provider. destruct (_ && _); [|done]. apply list_elem_of_lookup_2.
Qed.

Lemma provider_depcmp dep p : provider_for dep p = true → alpm_depcmp p dep = true.
Proof.
  unfold provider_for, alpm_depcmp. intros H. bool_prop. apply orb_true_iff. by right.
Qed.

Lemma resolvedep_Some env h dep dbs excl prompt p :
  Forall PkgCache dbs → (resolvedep env h dep dbs excl prompt).1 = Some p →
  available dbs p ∧ choosable env h excl prompt p ∧ alpm_depcmp p dep = true.
Proof.
  intros Hc. unfold resolvedep.
  destruct (resolve_literal _ _ _ _ _ _ _) as [[q|] ign] eqn:El.
  { intros [= ->]. destruct (resolve_literal_Some _ _ _ _ _ _ _ _ _ Hc El) as (? & ? & Hl).
    split_and!; [done|done|]. unfold alpm_depcmp. by rewrite Hl. }
  destruct (resolve_providers _ _ _ _ _ _ _ _) as [[r provs] ign'] eqn:Ep.
  destruct (resolve_providers_spec _ _ _ _ _ _ _ _ _ _ _ Ep) as [H1 H2].
  destruct r as [q|].
  { intros [= ->]. destruct H2 as (? & ?%provider_depcmp & ?). done. }
  destruct (choose_provider env dep provs) as [q|] eqn:Ech; [|done]. intros [= ->].
  apply choose_provider_Some in Ech. destruct (H1 p Ech) as [Hn|(? & ?%provider_depcmp & ?)]; [|done].
  by apply not_elem_of_nil in Hn.
Qed.

(** ** _alpm_resolvedeps *)

(** Result of a call: the return value, the package list and the unresolvable
    dependencies reported so far. *)
Record resolve_result := mk_resolve {
  r_ret : Z;
  r_packages : list alpm_pkg_t;
  r_data : list alpm_depmissing_t
}.

Section resolve.
Context (env : alpm_env) (h : alpm_handle_t)
        (localpkgs preferred rem : list alpm_pkg_t).

(** The satisfier looked for outside the package list. *)
Definition find_spkg (missdep : alpm_depend_t) (packages : list alpm_pkg_t) : option alpm_pkg_t :=
  match find_dep_satisfier preferred missdep with
  | Some spkg => Some spkg
  | None => (resolvedep env h missdep (h_dbs_sync h) packages false).1
  end.

Definition local_satisfier (missdep : alpm_depend_t) : option alpm_pkg_t :=
  (resolvedep env h missdep [h_db_local h] rem false).1.

(** The loop over the missing dependencies; [call] is the recursive call. *)
Fixpoint resolve_loop
    (call : alpm_pkg_t → list alpm_pkg_t → list alpm_depmissing_t → option resolve_result)
    (deps : list alpm_depmissing_t) (st : resolve_result) : option resolve_result :=
  match deps with
  | [] => Some st
  | miss :: deps' =>
      let missdep := miss_depend miss in
      if is_some (find_dep_satisfier (r_packages st) missdep) then resolve_loop call deps' st
      else
        let fallback (st : resolve_result) :=
          if is_some (local_satisfier missdep) then resolve_loop call deps' st
          else resolve_loop call deps'
                 (mk_resolve (-1) (r_packages st) (r_data st ++ [miss])) in
        match find_spkg missdep (r_packages st) with
        | None => fallback st
        | Some spkg =>
            match call spkg (r_packages st) (r_data st) with
            | None => None
            | Some res =>
                let st' := mk_resolve (r_ret st) (r_packages res) (r_data res) in
                if r_ret res =? 0 then resolve_loop call deps' st' else fallback st'
            end
        end
  end.

Fixpoint alpm_resolvedeps (depth : nat) (pkg : alpm_pkg_t) (packages : list alpm_pkg_t)
    (data : list alpm_depmissing_t) : option resolve_result :=
  if is_some (alpm_pkg_find packages (pkg_name pkg)) then Some (mk_resolve 0 packages data)
  else
    match depth with
    | O => None
    | S depth' =>
        let deps := alpm_checkdeps h localpkgs rem [pkg] false in
        match resolve_loop (alpm_resolvedeps depth') deps
                (mk_resolve 0 (packages ++ [pkg]) data) with
        | None => None
        | Some st =>
            if r_ret st =? 0 then Some st
            else Some (mk_resolve (r_ret st) packages (r_data st))
        end
    end.

(** ** Facts *)

(** The satisfier of a dependency once the search is over. *)
Definition resolved (packages : list alpm_pkg_t) (d : alpm_depend_t) : Prop :=
  (∃ q, q ∈ packages ∧ alpm_depcmp q d = true) ∨
  (∃ q, q ∈ preferred ∧ alpm_depcmp q d = true ∧ pkg_name q ∈ map pkg_name packages) ∨
  is_Some (local_satisfier d).

Lemma resolved_mono packages new d : resolved packages d → resolved (packages ++ new) d.
Proof.
  intros [(q & Hq & Hd)|[(q & Hq & Hd & Hn)|H]].
  - left. exists q. split; [|done]. apply elem_of_app. by left.
  - right. left. exists q. split_and!; [done|done|]. rewrite map_app. apply elem_of_app. by left.
  - by right; right.
Qed.

(** Every missing dependency of [p] is resolved. *)
Definition closed (packages : list alpm_pkg_t) (p : alpm_pkg_t) : Prop :=
  ∀ m, m ∈ alpm_checkdeps h localpkgs rem [p] false → resolved packages (miss_depend m).

Lemma closed_mono packages new p : closed packages p → closed (packages ++ new) p.
Proof. intros Hc m Hm. by apply resolved_mono, Hc. Qed.

(** What a call promises. *)
Definition call_ok (pkg : alpm_pkg_t) (packages : list alpm_pkg_t)
    (data : list alpm_depmissing_t) (res : resolve_result) : Prop :=
  (∃ more, r_data res = data ++ more ∧ (r_ret res ≠ 0 → more ≠ [])) ∧
  ((r_ret res = 0 ∧ ∃ new, r_packages res = packages ++ new ∧
      pkg_name pkg ∈ map pkg_name (packages ++ new) ∧
      (alpm_pkg_find packages (pkg_name pkg) = None → pkg ∈ new) ∧
      ∀ p, p ∈ new → closed (packages ++ new) p) ∨
   (r_ret res = -1 ∧ r_packages res = packages)).

Definition loop_ok (deps : list alpm_depmissing_t) (st st' : resolve_result) : Prop :=
  (r_ret st = 0 ∨ r_ret st = -1 → r_ret st' = 0 ∨ r_ret st' = -1) ∧
  (∃ more, r_data st' = r_data st ++ more ∧ (r_ret st = 0 → r_ret st' ≠ 0 → more ≠ [])) ∧
  (r_ret st' = 0 → r_ret st = 0) ∧
  ∃ new, r_packages st' = r_packages st ++ new ∧
    (∀ p, p ∈ new → closed (r_packages st ++ new) p) ∧
    (r_ret st' = 0 → ∀ m, m ∈ deps → resolved (r_packages st') (miss_depend m)).

(** A dependency found to be resolved, then the rest of the loop. *)
Lemma loop_ok_cons miss deps st mid st' new more :
  r_packages mid = r_packages st ++ new → r_data mid = r_data st ++ more →
  r_ret mid = r_ret st →
  (∀ p, p ∈ new → closed (r_packages mid) p) →
  resolved (r_packages mid) (miss_depend miss) →
  loop_ok deps mid st' → loop_ok (miss :: deps) st st'.
Proof.
  intros Hp Hd Hr Hnew Hres (L1 & (m2 & D2 & N2) & L3 & n2 & P2 & C2 & R2).
  rewrite Hr in *. split_and!; [done| |done|].
  - exists (more ++ m2). rewrite D2, Hd, app_assoc. split; [done|].
    intros H1 H2 [_ E]%app_eq_nil. by apply N2.
  - exists (new ++ n2). rewrite app_assoc, <-Hp. split_and!; [done| |].
    + intros p [Hpn|Hpn]%elem_of_app; [|by apply C2]. by apply closed_mono, Hnew.
    + intros H0 m [->|Hm]%elem_of_cons; [|by apply R2]. rewrite P2. by apply resolved_mono.
Qed.

(** A dependency that cannot be resolved. *)
Lemma loop_ok_fail miss deps st mid st' new more :
  r_packages mid = r_packages st ++ new → r_data mid = r_data st ++ more → more ≠ [] →
  r_ret mid = -1 →
  (∀ p, p ∈ new → closed (r_packages mid) p) →
  loop_ok deps mid st' → loop_ok (miss :: deps) st st'.
Proof.
  intros Hp Hd Hne Hr Hnew (L1 & (m2 & D2 & N2) & L3 & n2 & P2 & C2 & R2).
  assert (r_ret st' ≠ 0) as Hst' by (intros H0; specialize (L3 H0); lia).
  split_and!.
  - intros _. apply L1. by right.
  - exists (more ++ m2). rewrite D2, Hd, app_assoc. split; [done|].
    intros _ _ [E _]%app_eq_nil. done.
  - done.
  - exists (new ++ n2). rewrite app_assoc, <-Hp. split_and!; [done| |done].
    intros p [Hpn|Hpn]%elem_of_app; [|by apply C2]. by apply closed_mono, Hnew.
Qed.

Lemma find_spkg_spec d packages spkg :
  Forall PkgCache (h_dbs_sync h) → find_spkg d packages = Some spkg →
  alpm_depcmp spkg d = true ∧
  (spkg ∈ preferred ∨ available (h_dbs_sync h) spkg ∧
     alpm_pkg_find packages (pkg_name spkg) = None).
Proof.
  intros Hc. unfold find_spkg. destruct (find_dep_satisfier preferred d) as [q|] eqn:Eq.
  - intros [= ->]. apply find_dep_satisfier_Some in Eq as [? ?]. split; [done|by left].
  - intros Hr. apply resolvedep_Some in Hr as (Ha & [Hn _] & Hd); [|done]. split; [done|by right].
Qed.

Context (Hsync : Forall PkgCache (h_dbs_sync h)).

Lemma resolve_loop_ok call deps st st' :
  (∀ pkg packages data res, call pkg packages data = Some res → call_ok pkg packages data res) →
  resolve_loop call deps st = Some st' → loop_ok deps st st'.
Proof.
  intros Hcall. revert st. induction deps as [|miss deps IH]; intros st; simpl.
  { intros [= <-]. split_and!; [done| |done|].
    - exists []. rewrite app_nil_r. by split.
    - exists []. rewrite app_nil_r. split_and!; [done|set_solver|]. intros _ m Hm.
      by apply not_elem_of_nil in Hm. }
  destruct (is_some (find_dep_satisfier (r_packages st) (miss_depend miss))) eqn:Ef.
  { intros Hr. apply (loop_ok_cons miss deps st st st' [] []);
      [by rewrite app_nil_r..|done|intros p Hp; by apply not_elem_of_nil in Hp| |by apply IH].
    apply is_some_true, find_dep_satisfier_is_Some in Ef. by left. }
  assert (∀ mid new more,
    r_packages mid = r_packages st ++ new → r_data mid = r_data st ++ more →
    r_ret mid = r_ret st → (∀ p, p ∈ new → closed (r_packages mid) p) →
    (if is_some (local_satisfier (miss_depend miss)) then resolve_loop call deps mid
     else resolve_loop call deps (mk_resolve (-1) (r_packages mid) (r_data mid ++ [miss])))
      = Some st' → loop_ok (miss :: deps) st st') as Hfallback.
  { intros mid new more Hp Hd Hr Hn. destruct (is_some (local_satisfier _)) eqn:El; intros Hl.
    - apply (loop_ok_cons miss deps st mid st' new more); try done; [|by apply IH].
      right. right. by apply is_some_true.
    - apply (loop_ok_fail miss deps st
        (mk_resolve (-1) (r_packages mid) (r_data mid ++ [miss])) st' new (more ++ [miss]));
        simpl; try done; [by rewrite Hd, app_assoc|by destruct more|by apply IH]. }
  destruct (find_spkg (miss_depend miss) (r_packages st)) as [spkg|] eqn:Es.
  2:{ apply (Hfallback st [] []); [by rewrite app_nil_r..|done|].
      intros p Hp. by apply not_elem_of_nil in Hp. }
  destruct (call spkg (r_packages st) (r_data st)) as [res|] eqn:Ec; [|done].
  destruct (Hcall _ _ _ _ Ec) as [(more & Hmore & _) Hcase].
  destruct (find_spkg_spec _ _ _ Hsync Es) as [Hdep Hfrom].
  destruct Hcase as [(Hret & new & Hnew & Hname & Hin & Hclosed)|[Hret Hpk]]; rewrite Hret; simpl.
  - intros Hr. apply (loop_ok_cons miss deps st
      (mk_resolve (r_ret st) (r_packages res) (r_data res)) st' new more);
      simpl; try done; [by rewrite Hnew| |by apply IH].
    rewrite Hnew. destruct Hfrom as [Hpref|[_ Hnone]].
    + right. left. exists spkg. done.
    + left. exists spkg. split; [|done]. apply elem_of_app. right. by apply Hin.
  - apply (Hfallback (mk_resolve (r_ret st) (r_packages res) (r_data res)) [] more); simpl.
    + by rewrite app_nil_r.
    + done.
    + done.
    + intros p Hp. by apply not_elem_of_nil in Hp.
Qed.

Lemma resolvedeps_ok depth pkg packages data res :
  alpm_resolvedeps depth pkg packages data = Some res → call_ok pkg packages data res.
Proof.
  revert pkg packages data res.
  assert (∀ pkg packages data, is_some (alpm_pkg_find packages (pkg_name pkg)) = true →
    call_ok pkg packages data (mk_resolve 0 packages data)) as Hfound.
  { intros pkg packages data (q & Hq)%is_some_true. split.
    - exists []. by rewrite app_nil_r.
    - left. split; [done|]. exists []. rewrite !app_nil_r. split_and!; [done| |by rewrite Hq|].
      + apply pkg_find_Some in Hq as [Hq <-]. by apply list_elem_of_fmap_2.
      + intros p Hp. by apply not_elem_of_nil in Hp. }
  induction depth as [|depth IH]; intros pkg packages data res; simpl;
    (destruct (is_some (alpm_pkg_find packages (pkg_name pkg))) eqn:Ef;
     [intros [= <-]; by apply Hfound|]); [done|].
  destruct (resolve_loop _ _ _) as [st|] eqn:El; [|done].
  apply resolve_loop_ok in El; [|done]. simpl in El.
  destruct El as (L1 & (more & Hmore & Hnz) & L3 & new & Hnew & Hc & Hr). simpl in *.
  destruct (Z.eqb_spec (r_ret st) 0) as [E|E]; intros [= <-]; (split; [exists more; simpl; auto|]).
  - left. split; [done|]. exists (pkg :: new). rewrite Hnew, <-app_assoc. simpl. split_and!.
    + done.
    + rewrite map_app. simpl. set_solver.
    + intros _. apply list_elem_of_here.
    + rewrite <-app_assoc in Hc, Hnew. simpl in Hc, Hnew.
      intros p [->|Hp]%elem_of_cons; [|by apply Hc]. intros m Hm. rewrite <-Hnew. by apply Hr.
  - right. simpl. split; [|done]. destruct L1 as [?|?]; [by left|done|done].
Qed.

(** ** What the package list consists of *)

(** A list of packages that satisfy [G], under distinct names. *)
Definition fine (G : alpm_pkg_t → Prop) (l : list alpm_pkg_t) : Prop :=
  Forall G l ∧ NoDup (map pkg_name l).

Lemma resolve_loop_keeps (G : alpm_pkg_t → Prop) call deps st st' :
  (∀ p, p ∈ preferred ∨ available (h_dbs_sync h) p → G p) →
  (∀ pkg packages data res, G pkg → fine G packages →
     call pkg packages data = Some res → fine G (r_packages res)) →
  fine G (r_packages st) → resolve_loop call deps st = Some st' → fine G (r_packages st').
Proof.
  intros HG Hcall. revert st. induction deps as [|miss deps IH]; intros st Hst; simpl.
  { by intros [= <-]. }
  destruct (is_some (find_dep_satisfier _ _)); [by apply IH|].
  assert (∀ mid, fine G (r_packages mid) →
    (if is_some (local_satisfier (miss_depend miss)) then resolve_loop call deps mid
     else resolve_loop call deps (mk_resolve (-1) (r_packages mid) (r_data mid ++ [miss])))
    = Some st' → fine G (r_packages st')) as Hfb.
  { intros mid Hmid. destruct (is_some _); [by apply IH|]. by apply IH. }
  destruct (find_spkg (miss_depend miss) (r_packages st)) as [spkg|] eqn:Es; [|by apply Hfb].
  destruct (call spkg _ _) as [res|] eqn:Ec; [|done].
  assert (fine G (r_packages res)) as Hres.
  { eapply Hcall; [|exact Hst|exact Ec]. apply HG.
    destruct (find_spkg_spec _ _ _ Hsync Es) as [_ [?|[? _]]]; auto. }
  pose (mid := mk_resolve (r_ret st) (r_packages res) (r_data res)).
  destruct (_ =? _); [by apply (IH mid)|by apply (Hfb mid)].
Qed.

Lemma resolvedeps_keeps (G : alpm_pkg_t → Prop) depth pkg packages data res :
  (∀ p, G p → pkg_hash_ok p) →
  (∀ p, p ∈ preferred ∨ available (h_dbs_sync h) p → G p) →
  G pkg → fine G packages →
  alpm_resolvedeps depth pkg packages data = Some res → fine G (r_packages res).
Proof.
  intros Hh HG. revert pkg packages data res.
  induction depth as [|depth IH]; intros pkg packages data res Hp Hf; simpl;
    destruct (alpm_pkg_find packages (pkg_name pkg)) eqn:Ef; simpl; try done;
    try (by intros [= <-]).
  destruct (resolve_loop _ _ _) as [st|] eqn:El; [|done].
  assert (fine G (packages ++ [pkg])) as Hf'.
  { destruct Hf as [H1 H2]. split; [apply Forall_app; split; [done|by repeat constructor]|].
    rewrite map_app. apply NoDup_app. split_and!; [done| |apply NoDup_singleton].
    intros n Hn ->%list_elem_of_singleton. apply pkg_find_None in Ef; [done|].
    eapply Forall_impl; [exact H1|]. done. }
  assert (fine G (r_packages st)) as Hst 
    by (refine (resolve_loop_keeps G _ _ (mk_resolve 0 (packages ++ [pkg]) data) _ HG _ Hf' El); exact IH).
  destruct (_ =? _); intros [= <-]; done.
Qed.

(** ** Termination *)

(** The names of [L] not yet on the package list. *)
Definition fresh_names (L : list cstr) (packages : list alpm_pkg_t) : nat :=
  length (List.filter (λ n, negb (is_some (alpm_pkg_find packages n))) L).

Lemma pkg_find_app l l' n :
  alpm_pkg_find (l ++ l') n = match alpm_pkg_find l n with
                              | Some p => Some p | None => alpm_pkg_find l' n end.
Proof.
  induction l as [|p l IH]; simpl; [done|]. destruct (negb _); [done|]. by destruct (streq _ _).
Qed.

Lemma fresh_names_mono L packages new :
  (fresh_names L (packages ++ new) <= fresh_names L packages)%nat.
Proof.
  unfold fresh_names. induction L as [|n L IH]; simpl; [done|].
  rewrite pkg_find_app. destruct (alpm_pkg_find packages n); simpl; [lia|].
  destruct (alpm_pkg_find new n); simpl; lia.
Qed.

Lemma fresh_names_add L packages p :
  pkg_hash_ok p → pkg_name p ∈ L → alpm_pkg_find packages (pkg_name p) = None →
  (fresh_names L (packages ++ [p]) < fresh_names L packages)%nat.
Proof.
  intros Hp Hin Hn. induction L as [|n L IH]; [set_solver|].
  pose proof (fresh_names_mono L packages [p]) as Hmono.
  unfold fresh_names in *. simpl. rewrite pkg_find_app.
  destruct (decide (n = pkg_name p)) as [->|Hne].
  - rewrite Hn. simpl. rewrite Hp, Z.eqb_refl, streq_refl. simpl. lia.
  - apply elem_of_cons in Hin as [?|Hin]; [done|]. specialize (IH Hin).
    destruct (alpm_pkg_find packages n); simpl; [lia|].
    destruct (negb (pkg_name_hash p =? _)); simpl; [lia|].
    destruct (streq (pkg_name p) n) eqn:Es; simpl; [by apply streq_true in Es as <-|lia].
Qed.

(** A package the resolver may meet, under a name of [L]. *)
Definition known (L : list cstr) (p : alpm_pkg_t) : Prop := pkg_hash_ok p ∧ pkg_name p ∈ L.

Context (L : list cstr)
        (Hpref : Forall (known L) preferred)
        (Havail : ∀ p, available (h_dbs_sync h) p → known L p).

Lemma resolve_loop_total call deps st :
  (∀ pkg packages data, known L pkg →
     (fresh_names L packages <= fresh_names L (r_packages st))%nat →
     is_Some (call pkg packages data)) →
  (∀ pkg packages data res, call pkg packages data = Some res → call_ok pkg packages data res) →
  is_Some (resolve_loop call deps st).
Proof.
  intros Htot Hcall. revert st Htot. induction deps as [|miss deps IH]; intros st Htot; simpl; [done|].
  assert (∀ mid new, r_packages mid = r_packages st ++ new → is_Some (resolve_loop call deps mid))
    as IH'.
  { intros mid new Hmid. apply IH. intros pkg packages data Hk Hle. apply Htot; [done|].
    pose proof (fresh_names_mono L (r_packages st) new). rewrite Hmid in Hle. lia. }
  destruct (is_some (find_dep_satisfier _ _)); [apply (IH' st []); by rewrite app_nil_r|].
  assert (∀ mid new, r_packages mid = r_packages st ++ new →
    is_Some (if is_some (local_satisfier (miss_depend miss)) then resolve_loop call deps mid
      else resolve_loop call deps (mk_resolve (-1) (r_packages mid) (r_data mid ++ [miss]))))
    as Hfb.
  { intros mid new Hmid. destruct (is_some _); [by apply (IH' mid new)|].
    by apply (IH' (mk_resolve (-1) (r_packages mid) (r_data mid ++ [miss])) new). }
  destruct (find_spkg (miss_depend miss) (r_packages st)) as [spkg|] eqn:Es;
    [|apply (Hfb st []); by rewrite app_nil_r].
  assert (known L spkg) as Hk.
  { destruct (find_spkg_spec _ _ _ Hsync Es) as [_ [Hp|[Ha _]]]; [|by apply Havail].
    rewrite Forall_forall in Hpref. by apply Hpref. }
  destruct (Htot spkg (r_packages st) (r_data st) Hk) as [res Hres]; [lia|]. rewrite Hres.
  destruct (Hcall _ _ _ _ Hres) as [_ [(Hret & new & Hnew & _)|[Hret Hnew]]]; rewrite Hret; simpl.
  - by apply (IH' (mk_resolve (r_ret st) (r_packages res) (r_data res)) new).
  - apply (Hfb (mk_resolve (r_ret st) (r_packages res) (r_data res)) []). simpl.
    by rewrite app_nil_r.
Qed.

Lemma resolvedeps_total depth pkg packages data :
  known L pkg → (fresh_names L packages <= depth)%nat →
  is_Some (alpm_resolvedeps depth pkg packages data).
Proof.
  revert pkg packages data.
  induction depth as [|depth IH]; intros pkg packages data [Hh Hin] Hle; simpl;
    destruct (is_some (alpm_pkg_find packages (pkg_name pkg))) eqn:Ef; try done;
    apply is_some_false in Ef; pose proof (fresh_names_add L packages pkg Hh Hin Ef) as Hlt; [lia|].
  destruct (resolve_loop_total (alpm_resolvedeps depth)
    (alpm_checkdeps h localpkgs rem [pkg] false) (mk_resolve 0 (packages ++ [pkg]) data))
    as [st Hst].
  - simpl. intros p pk d Hk Hfr. apply IH; [done|]. lia.
  - apply resolvedeps_ok.
  - rewrite Hst. by destruct (_ =? _).
Qed.
End resolve.

(** ** Properties *)

(** resolvedep returns a package of a usable database that satisfies the
    dependency, is not excluded by name and not ignored; and when it returns
    none although such a package exists, the dependency has no literal match and
    the user chose none of the several providers offered. *)
Theorem resolvedep_correct env h dep dbs excl prompt :
  Forall PkgCache dbs →
  match (resolvedep env h dep dbs excl prompt).1 with
  | Some p => available dbs p ∧ choosable env h excl prompt p ∧ alpm_depcmp p dep = true
  | None => ∀ p, available dbs p → choosable env h excl prompt p → alpm_depcmp p dep = true →
      alpm_depcmp_literal p dep = false ∧
      ((pkg_name_hash p = dep_name_hash dep ∧ pkg_name p = dep_name dep) ∨
       ∃ providers, p ∈ providers ∧ (1 < length providers)%nat ∧
         ¬ (0 <= q_select_provider env providers dep < Z.of_nat (length providers)))
  end.
Proof.
  intros Hc. destruct (resolvedep env h dep dbs excl prompt).1 as [p|] eqn:E;
    [by apply resolvedep_Some|].
  intros p Ha Hch Hd. unfold resolvedep in E.
  destruct (resolve_literal _ _ _ _ _ _ _) as [[q|] ign] eqn:El; [done|].
  destruct (alpm_depcmp_literal p dep) eqn:Elp.
  { by destruct (resolve_literal_None _ _ _ _ _ _ _ _ Hc El p Ha Elp). }
  split; [done|]. unfold alpm_depcmp in Hd. rewrite Elp in Hd. simpl in Hd.
  destruct (resolve_providers _ _ _ _ _ _ _ _) as [[r provs] ign'] eqn:Ep.
  destruct (resolve_providers_spec _ _ _ _ _ _ _ _ _ _ _ Ep) as [H1 H2].
  destruct r as [q|]; [done|].
  destruct (provider_for dep p) eqn:Epf.
  2:{ left. unfold provider_for in Epf. rewrite Hd, andb_true_r in Epf. bool_prop.
      split; [done|by apply streq_true]. }
  right. exists provs. assert (p ∈ provs) as Hp by (apply H2; tauto). split; [done|].
  destruct (choose_provider env dep provs) as [q|] eqn:Ech; [done|].
  unfold choose_provider in Ech. destruct (Nat.ltb_spec 1 (length provs)) as [Hlt|Hge].
  - split; [done|]. intros [Hu1 Hu2].
    rewrite (proj2 (Z.leb_le _ _) Hu1), (proj2 (Z.ltb_lt _ _) Hu2) in Ech. simpl in Ech.
    apply lookup_ge_None in Ech. lia.
  - exfalso. destruct provs as [|a [|b provs]]; [by apply not_elem_of_nil in Hp|done|simpl in Hge; lia].
Qed.

(** With as many levels of recursion as there are names on offer, or more, the
    resolver returns. *)
Lemma resolvedeps_enough env h localpkgs preferred rem pkg packages data L depth :
  Forall PkgCache (h_dbs_sync h) →
  pkg_hash_ok pkg → pkg_name pkg ∈ L →
  Forall (λ p, pkg_hash_ok p ∧ pkg_name p ∈ L) preferred →
  (∀ p, available (h_dbs_sync h) p → pkg_name p ∈ L) → (length L <= depth)%nat →
  is_Some (alpm_resolvedeps env h localpkgs preferred rem depth pkg packages data).
Proof.
  intros Hc Hp Hn Hpref Hav Hd. apply (resolvedeps_total env h localpkgs preferred rem Hc L).
  - done.
  - intros p Ha. split; [|by apply Hav]. destruct Ha as (db & Hdb & _ & Hin).
    rewrite Forall_forall in Hc. pose proof (@cache_hashes db (Hc db Hdb)) as Hh.
    unfold hashes_ok in Hh. rewrite Forall_forall in Hh. by apply Hh.
  - by split.
  - etrans; [|exact Hd]. unfold fresh_names. apply filter_length_le.
Qed.

(** How a dependency of an added package is taken care of: by a package of the
    list, by an installed package that is not removed, or by a preferred package
    of which a namesake, of whatever version, is on the list. *)
Definition taken_care (h : alpm_handle_t) (preferred rem packages : list alpm_pkg_t)
    (d : alpm_depend_t) : Prop :=
  (∃ q, q ∈ packages ∧ alpm_depcmp q d = true) ∨
  (∃ q, q ∈ alpm_db_get_pkgcache (h_db_local h) ∧ alpm_pkg_find rem (pkg_name q) = None ∧
        alpm_depcmp q d = true) ∨
  (∃ q r, q ∈ preferred ∧ alpm_depcmp q d = true ∧ r ∈ packages ∧ pkg_name r = pkg_name q).

Lemma resolved_taken_care env h preferred rem packages d :
  PkgCache (h_db_local h) → resolved env h preferred rem packages d →
  taken_care h preferred rem packages d.
Proof.
  intros Hl [H|[(q & Hq & Hd & (r & Hr & Hin)%list_elem_of_fmap)|[q Hq]]]; [by left|..].
  - right. right. by exists q, r.
  - right. left. unfold local_satisfier in Hq. apply resolvedep_Some in Hq as ((db & Hdb & _ & Hin) & [Hx _] & Hd);
      [|by constructor]. apply list_elem_of_singleton in Hdb as ->. by exists q.
Qed.

(** C15. _alpm_resolvedeps returns, given a recursion depth of at least the
    number of package names on offer (the package's own, the preferred packages'
    and those of the sync databases), and either succeeds or changes nothing. On
    failure the package list is what it was and at least one unresolvable
    dependency was reported. On success the list grew at its end, the package
    itself or one of its name is on it, and every dependency of an added package
    that is missing from the system is satisfied by a package of the list, or by
    an installed package that is not removed, or else by a preferred package of
    which only a namesake need be on the list. *)
Theorem resolvedeps_correct env h localpkgs preferred rem pkg packages data L depth :
  PkgCache (h_db_local h) → Forall PkgCache (h_dbs_sync h) →
  pkg_hash_ok pkg → pkg_name pkg ∈ L →
  Forall (λ p, pkg_hash_ok p ∧ pkg_name p ∈ L) preferred →
  (∀ p, available (h_dbs_sync h) p → pkg_name p ∈ L) → (length L <= depth)%nat →
  ∃ res, alpm_resolvedeps env h localpkgs preferred rem depth pkg packages data = Some res ∧
  (r_ret res = 0 ∧
   (∃ new, r_packages res = packages ++ new ∧
      pkg_name pkg ∈ map pkg_name (packages ++ new) ∧
      ∀ p m, p ∈ new → m ∈ alpm_checkdeps h localpkgs rem [p] false →
             taken_care h preferred rem (packages ++ new) (miss_depend m)) ∨
   r_ret res = -1 ∧ r_packages res = packages ∧ ∃ miss more, r_data res = data ++ miss :: more).
Proof.
  intros Hl Hc Hp Hn Hpref Hav Hd.
  destruct (resolvedeps_enough env h localpkgs preferred rem pkg packages data L depth Hc Hp Hn Hpref Hav Hd)
    as [res Hr]. exists res. split; [done|]. apply resolvedeps_ok in Hr; [|done].
  destruct Hr as [(more & Hmore & Hnz) [(Hret & new & Hnew & Hname & _ & Hclosed)|[Hret Hpk]]].
  - left. split; [done|]. exists new. split_and!; [done|done|]. intros p m Hpn Hm.
    eapply resolved_taken_care; [done|]. by apply (Hclosed p Hpn).
  - right. split_and!; [done|done|]. destruct more as [|miss more].
    + destruct Hnz; [rewrite Hret; lia|done].
    + by exists miss, more.
Qed.

Definition ex_sync : alpm_db_t :=
  list_db (str "core") 0
    [simple_pkg 10 (str "glibc") (str "2.39-1") [] [] [] ALPM_PKG_REASON_DEPEND;
     simple_pkg 11 (str "bash") (str "5.2-1") [ex_dep "glibc>=2.36"] [ex_dep "sh"] []
       ALPM_PKG_REASON_DEPEND;
     simple_pkg 12 (str "dash") (str "0.5-1") [ex_dep "glibc"] [ex_dep "sh"] []
       ALPM_PKG_REASON_DEPEND].

Definition ex_handle : alpm_handle_t := set_dbs_sync [ex_sync] empty_handle.

Lemma ex_sync_caches : Forall PkgCache (h_dbs_sync ex_handle).
Proof. constructor; [concrete_cache|constructor]. Qed.

(** The script needs sh and bash: bash provides sh, and pulls in glibc. *)
Example resolvedeps_example :
  (λ r, (r_ret r, map pkg_name (r_packages r))) <$>
    alpm_resolvedeps no_callback ex_handle [] [] [] 4 ex_script [] [] =
  Some (0, [str "script"; str "bash"; str "glibc"]).
Proof. vm_compute. reflexivity. Qed.

Lemma resolvedep_correct_witness :
  ∃ p, (resolvedep no_callback ex_handle (ex_dep "sh") [ex_sync] [] false).1 = Some p ∧
       available [ex_sync] p.
Proof.
  pose proof (resolvedep_correct no_callback ex_handle (ex_dep "sh") [ex_sync] [] false
    ex_sync_caches) as H.
  destruct (resolvedep no_callback ex_handle (ex_dep "sh") [ex_sync] [] false).1 as [p|] eqn:E.
  - exists p. split; [reflexivity|]. exact (proj1 H).
  - vm_compute in E. discriminate.
Defined.

Lemma resolvedeps_correct_witness :
  ∃ res new, alpm_resolvedeps no_callback ex_handle [] [] [] 4 ex_script [] [] = Some res ∧
    r_ret res = 0 ∧ r_packages res = [] ++ new ∧ pkg_name ex_script ∈ map pkg_name ([] ++ new).
Proof.
  destruct (resolvedeps_correct no_callback ex_handle [] [] [] ex_script [] []
    [str "script"; str "glibc"; str "bash"; str "dash"] 4) as (res & E & [[Hr (new & Hn & Hname & _)]|[Hr _]]).
  - apply db_inv_cache. exact I.
  - exact ex_sync_caches.
  - reflexivity.
  - apply list_elem_of_here.
  - constructor.
  - intros p (db & Hdb & _ & Hp). apply list_elem_of_singleton in Hdb as ->.
    assert (pkg_name p ∈ map pkg_name (alpm_db_get_pkgcache ex_sync)) as Hn
      by (by apply list_elem_of_fmap_2).
    assert (map pkg_name (alpm_db_get_pkgcache ex_sync) = [str "glibc"; str "bash"; str "dash"])
      as E by (vm_compute; reflexivity).
    rewrite E in Hn. apply list_elem_of_further. exact Hn.
  - simpl. lia.
  - exists res, new. split_and!; assumption.
  - assert (r_ret <$> Some res = Some 0) as H by (rewrite <-E; vm_compute; reflexivity).
    injection H as H. rewrite Hr in H. discriminate H.
Defined.
