(* ===== verification/FileList.v ===== *)
(** * File lists

    lib/libalpm/filelist.c: difference, intersection, membership and sorting of
    the sorted file lists of packages. An alpm_filelist_t is a list of
    alpm_file_t; the functions that only look at names take the names. bsearch
    and qsort are the C library's: a binary search and a merge sort. *)
From S2P Require Import Prelude CString AlpmList Util Package.
Local Open Scope Z_scope.

(** _alpm_filelist_difference: both loops. *)
Fixpoint alpm_filelist_difference (filesA filesB : list cstr) : list cstr :=
  match filesA with
  | [] => []
  | strA :: filesA' =>
      (fix inner (filesB : list cstr) : list cstr :=
         match filesB with
         | [] => strA :: filesA'
         | strB :: filesB' =>
             let cmp := strcmp strA strB in
             if cmp <? 0 then strA :: alpm_filelist_difference filesA' filesB
             else if 0 <? cmp then inner filesB'
             else alpm_filelist_difference filesA' filesB'
         end) filesB
  end.

(** _alpm_filelist_pathcmp: after the common part, one trailing slash is
    skipped; the result is a difference of plain chars. *)
Definition pathcmp_tail (p1 p2 : cstr) : Z :=
  let '(p1, p2) :=
    match p1, p2 with
    | [], c2 :: p2' => if Ascii.eqb c2 "/"%char then (p1, p2') else (p1, p2)
    | c1 :: p1', [] => if Ascii.eqb c1 "/"%char then (p1', p2) else (p1, p2)
    | _, _ => (p1, p2)
    end in
  schr (hd_chr p1) - schr (hd_chr p2).

Fixpoint alpm_filelist_pathcmp (p1 p2 : cstr) : Z :=
  match p1, p2 with
  | c1 :: p1', c2 :: p2' =>
      if Ascii.eqb c1 c2 then alpm_filelist_pathcmp p1' p2' else pathcmp_tail p1 p2
  | _, _ => pathcmp_tail p1 p2
  end.

(** [str[strlen(str) - 1] == '/'] *)
Definition is_dir_name (s : cstr) : bool :=
  match last s with Some c => Ascii.eqb c "/"%char | None => false end.

Fixpoint alpm_filelist_intersection (filesA filesB : list cstr) : list cstr :=
  match filesA with
  | [] => []
  | strA :: filesA' =>
      (fix inner (filesB : list cstr) : list cstr :=
         match filesB with
         | [] => []
         | strB :: filesB' =>
             let cmp := alpm_filelist_pathcmp strA strB in
             if cmp <? 0 then alpm_filelist_intersection filesA' filesB
             else if 0 <? cmp then inner filesB'
             else
               let ret := alpm_filelist_intersection filesA' filesB' in
               if negb (is_dir_name strA) || negb (is_dir_name strB) then strA :: ret else ret
         end) filesB
  end.

(** bsearch(3) over an array sorted by strcmp. *)
Fixpoint bsearch (fuel : nat) (files : list alpm_file_t) (key : cstr) (l u : nat)
    : option alpm_file_t :=
  match fuel with
  | O => None
  | S fuel' =>
      if Nat.ltb l u then
        let idx := Nat.div (l + u) 2 in
        match files !! idx with
        | None => None
        | Some f =>
            let cmp := strcmp key (file_name f) in
            if cmp <? 0 then bsearch fuel' files key l idx
            else if 0 <? cmp then bsearch fuel' files key (S idx) u
            else Some f
        end
      else None
  end.

(** alpm_filelist_contains; a NULL list and an empty one give NULL. *)
Definition alpm_filelist_contains (filelist : list alpm_file_t) (path : cstr)
    : option alpm_file_t :=
  bsearch (S (length filelist)) filelist path 0 (length filelist).

Definition alpm_files_cmp (f1 f2 : alpm_file_t) : Z := strcmp (file_name f1) (file_name f2).

(** The scan for an unsorted pair. *)
Fixpoint pre_sorted (files : list alpm_file_t) : bool :=
  match files with
  | f1 :: ((f2 :: _) as rest) => negb (0 <? alpm_files_cmp f1 f2) && pre_sorted rest
  | _ => true
  end.

Definition alpm_filelist_sort (files : list alpm_file_t) : list alpm_file_t :=
  if pre_sorted files then files else alpm_list_msort alpm_files_cmp files (length files).

(** ** Facts *)
Definition sorted_names (l : list cstr) : Prop := StronglySorted (λ a b, strcmp a b < 0) l.

Lemma difference_cons a A b B :
  alpm_filelist_difference (a :: A) (b :: B) =
    if strcmp a b <? 0 then a :: alpm_filelist_difference A (b :: B)
    else if 0 <? strcmp a b then alpm_filelist_difference (a :: A) B
    else alpm_filelist_difference A B.
Proof. done. Qed.

Lemma difference_nil_r A : alpm_filelist_difference A [] = A.
Proof. by destruct A. Qed.

Lemma difference_diff_sorted A B :
  alpm_filelist_difference A B = (alpm_list_diff_sorted strcmp A B).1.
Proof.
  revert B. induction A as [|a A IHA]; intros B; [done|].
  induction B as [|b B IHB]; [done|].
  rewrite difference_cons, diff_sorted_cons, IHA, IHB, IHA. by repeat case_if.
Qed.

Lemma intersection_cons a A b B :
  alpm_filelist_intersection (a :: A) (b :: B) =
    if alpm_filelist_pathcmp a b <? 0 then alpm_filelist_intersection A (b :: B)
    else if 0 <? alpm_filelist_pathcmp a b then alpm_filelist_intersection (a :: A) B
    else if negb (is_dir_name a) || negb (is_dir_name b)
         then a :: alpm_filelist_intersection A B else alpm_filelist_intersection A B.
Proof. done. Qed.

Lemma intersection_nil_r A : alpm_filelist_intersection A [] = [].
Proof. by destruct A. Qed.

(** Paths equal up to one trailing slash. *)
Definition same_path (a b : cstr) : Prop := a = b ∨ a = b ++ ["/"%char] ∨ b = a ++ ["/"%char].

Lemma schr_NUL c : schr c = schr NUL ↔ c = NUL.
Proof. split; [apply schr_inj|by intros ->]. Qed.

Lemma pathcmp_zero a b :
  NUL ∉ a → NUL ∉ b → alpm_filelist_pathcmp a b = 0 ↔ same_path a b.
Proof.
  assert (∀ (s : cstr), NUL ∉ s → schr (hd_chr s) = 0 ↔ s = []) as Hhd.
  { intros [|c s] Hs; simpl; [done|]. split; [|done]. intros Hc. exfalso.
    apply (schr_NUL c) in Hc as ->. apply Hs. apply list_elem_of_here. }
  revert b. induction a as [|c a IH]; intros [|d b] Ha Hb; cbn [alpm_filelist_pathcmp].
  - split; [by left|done].
  - apply not_elem_of_cons in Hb as [Hd Hb]. unfold pathcmp_tail. simpl.
    destruct (Ascii.eqb_spec d "/"%char) as [->|Hne].
    + split.
      * intros H. change (schr (hd_chr [])) with 0 in H. rewrite (proj1 (Hhd b Hb)); [by right; right|lia].
      * intros [?|[?|E]]; [done..|]. injection E as ->. done.
    + split; [|intros [?|[?|E]]; [done..|by injection E]].
      intros H. exfalso. apply Hd. symmetry. apply (schr_NUL d). simpl in H. lia.
  - apply not_elem_of_cons in Ha as [Hc Ha]. unfold pathcmp_tail. simpl.
    destruct (Ascii.eqb_spec c "/"%char) as [->|Hne].
    + split.
      * intros H. change (schr (hd_chr [])) with 0 in H. rewrite (proj1 (Hhd a Ha)); [by right; left|lia].
      * intros [?|[E|?]]; [done| |by destruct a]. by injection E as ->.
    + split; [|intros [?|[E|?]]; [done|by injection E|by destruct a]].
      intros H. exfalso. apply Hc. symmetry. apply (schr_NUL c). simpl in H. lia.
  - apply not_elem_of_cons in Ha as [Hc Ha]. apply not_elem_of_cons in Hb as [Hd Hb].
    destruct (Ascii.eqb_spec c d) as [->|Hne].
    + rewrite IH by done. unfold same_path. simpl. split.
      * intros [->|[->| ->]]; auto.
      * intros [[= ->]|[[= ->]|[= ->]]]; auto.
    + unfold pathcmp_tail. simpl. split.
      * intros H. exfalso. apply Hne, schr_inj. lia.
      * intros [[= ? ?]|[[= ? ?]|[= ? ?]]]; done.
Qed.

Definition ascii_path (s : cstr) : Prop := Forall (λ c, c ≠ NUL ∧ uchr c < 128) s.

Lemma ascii_path_NUL s : ascii_path s → NUL ∉ s.
Proof. unfold ascii_path. rewrite Forall_forall. intros H Hin. by destruct (H _ Hin). Qed.

Lemma schr_ascii c : uchr c < 128 → schr c = uchr c.
Proof. unfold schr. intros H. by rewrite (proj2 (Z.ltb_lt _ _) H). Qed.

Lemma uchr_pos c : c ≠ NUL → 0 < uchr c.
Proof.
  intros H. pose proof (uchr_range c). destruct (Z.eq_dec (uchr c) 0) as [E|]; [|lia].
  exfalso. apply H. by apply uchr_inj.
Qed.

(** On ASCII paths that are not the same up to a trailing slash, pathcmp and
    strcmp agree. *)
Lemma pathcmp_strcmp a b :
  ascii_path a → ascii_path b → ¬ same_path a b →
  (alpm_filelist_pathcmp a b < 0 ↔ strcmp a b < 0) ∧
  (0 < alpm_filelist_pathcmp a b ↔ 0 < strcmp a b).
Proof.
  revert b. induction a as [|c a IH]; intros [|d b] Ha Hb Hn; cbn [alpm_filelist_pathcmp strcmp].
  - destruct Hn. by left.
  - apply Forall_cons in Hb as [[Hd Hd'] Hb]. unfold pathcmp_tail.
    destruct (Ascii.eqb_spec d "/"%char) as [->|Hne].
    + destruct b as [|e b]; [destruct Hn; by right; right|].
      apply Forall_cons in Hb as [[He He'] _]. change (schr (hd_chr [])) with 0. simpl hd_chr.
      rewrite schr_ascii by done. pose proof (uchr_pos e He). lia.
    + change (schr (hd_chr [])) with 0. simpl hd_chr. rewrite schr_ascii by done.
      pose proof (uchr_pos d Hd). lia.
  - apply Forall_cons in Ha as [[Hc Hc'] Ha]. unfold pathcmp_tail.
    destruct (Ascii.eqb_spec c "/"%char) as [->|Hne].
    + destruct a as [|e a]; [destruct Hn; by right; left|].
      apply Forall_cons in Ha as [[He He'] _]. change (schr (hd_chr [])) with 0. simpl hd_chr.
      rewrite schr_ascii by done. pose proof (uchr_pos e He). lia.
    + change (schr (hd_chr [])) with 0. simpl hd_chr. rewrite schr_ascii by done.
      pose proof (uchr_pos c Hc). lia.
  - apply Forall_cons in Ha as [[Hc Hc'] Ha]. apply Forall_cons in Hb as [[Hd Hd'] Hb].
    destruct (Ascii.eqb_spec c d) as [->|Hne].
    + rewrite ?Z.ltb_irrefl. apply IH; [done..|].
      intros [->|[->| ->]]; apply Hn; [by left|by right; left|by right; right].
    + unfold pathcmp_tail. simpl hd_chr. rewrite !schr_ascii by done.
      assert (uchr c ≠ uchr d) by (intros E; by apply Hne, uchr_inj).
      repeat case_if; bool_prop; lia.
Qed.

Lemma sorted_head_le x l e :
  sorted_names (x :: l) → e ∈ x :: l → e = x ∨ strcmp x e < 0.
Proof.
  intros [_ Hx]%StronglySorted_inv [->|He]%elem_of_cons; [by left|right].
  rewrite Forall_forall in Hx. by apply Hx.
Qed.

Lemma slash_longer a : strcmp a (a ++ ["/"%char]) < 0.
Proof. induction a as [|c a IH]; simpl; [lia|]. by rewrite Z.ltb_irrefl. Qed.

Lemma is_dir_name_slash a : is_dir_name (a ++ ["/"%char]) = true.
Proof. unfold is_dir_name. by rewrite last_snoc. Qed.

Lemma intersection_sound A B x :
  Forall (λ s, NUL ∉ s) A → Forall (λ s, NUL ∉ s) B →
  x ∈ alpm_filelist_intersection A B →
  x ∈ A ∧ ∃ b, b ∈ B ∧ same_path x b ∧ (is_dir_name x = false ∨ is_dir_name b = false).
Proof.
  intros HA. revert B. induction HA as [|a A Ha HA IHA]; intros B HB; [set_solver|].
  induction HB as [|b B Hb HB IHB]; [rewrite intersection_nil_r; set_solver|].
  assert (Forall (λ s, NUL ∉ s) (b :: B)) as HB' by by constructor.
  rewrite intersection_cons.
  destruct (Z.ltb_spec (alpm_filelist_pathcmp a b) 0) as [Hlt|Hge].
  { intros Hx. destruct (IHA _ HB' Hx) as (? & ?). split; [set_solver|done]. }
  destruct (Z.ltb_spec 0 (alpm_filelist_pathcmp a b)) as [Hgt|Hle].
  { intros Hx. destruct (IHB Hx) as (? & b' & ? & ?). split; [done|]. exists b'. set_solver. }
  assert (same_path a b) as Hsame by (apply pathcmp_zero; [done..|lia]).
  assert (x ∈ alpm_filelist_intersection A B →
    x ∈ a :: A ∧ ∃ b', b' ∈ b :: B ∧ same_path x b' ∧
      (is_dir_name x = false ∨ is_dir_name b' = false)) as Hrest.
  { intros Hx. destruct (IHA _ HB Hx) as (? & b' & ? & ?). split; [set_solver|].
    exists b'. set_solver. }
  destruct (negb (is_dir_name a) || negb (is_dir_name b)) eqn:E; [|done].
  intros [->|Hx]%elem_of_cons; [|by apply Hrest]. split; [set_solver|].
  exists b. split_and!; [set_solver|done|]. apply orb_true_iff in E as [E|E]; bool_prop; auto.
Qed.

Lemma intersection_complete A B e :
  Forall ascii_path A → Forall ascii_path B → sorted_names A → sorted_names B →
  e ∈ A → e ∈ B → is_dir_name e = false → e ∈ alpm_filelist_intersection A B.
Proof.
  intros HA. revert B. induction HA as [|a A Ha HA IHA]; intros B HB SA SB; [set_solver|].
  induction HB as [|b B Hb HB IHB]; [set_solver|]. intros EA EB Hdir.
  assert (sorted_names A) as SA' by by apply StronglySorted_inv in SA as [? _].
  assert (sorted_names B) as SB' by by apply StronglySorted_inv in SB as [? _].
  pose proof (sorted_head_le _ _ _ SA EA) as HeA. pose proof (sorted_head_le _ _ _ SB EB) as HeB.
  assert (Forall ascii_path (b :: B)) as HB' by by constructor.
  assert (alpm_filelist_pathcmp a b ≠ 0 → ¬ same_path a b) as Hns.
  { intros Hne Hs. apply Hne. apply pathcmp_zero; [by apply ascii_path_NUL..|done]. }
  assert (∀ x y z : cstr, strcmp x y < 0 → z = y ∨ strcmp y z < 0 → z ≠ x) as Hsep.
  { intros x y z Hxy [->|Hyz] ->.
    - rewrite strcmp_refl in Hxy. lia.
    - pose proof (strcmp_antisym x y). lia. }
  rewrite intersection_cons.
  destruct (Z.ltb_spec (alpm_filelist_pathcmp a b) 0) as [Hlt|Hge].
  { apply (proj1 (pathcmp_strcmp a b Ha Hb (Hns ltac:(lia)))) in Hlt.
    apply IHA; [done..| |done|done]. apply elem_of_cons in EA as [E|?]; [|done].
    by destruct (Hsep a b e Hlt HeB). }
  destruct (Z.ltb_spec 0 (alpm_filelist_pathcmp a b)) as [Hgt|Hle].
  { apply (proj2 (pathcmp_strcmp a b Ha Hb (Hns ltac:(lia)))) in Hgt.
    apply IHB; [done|done| |done]. apply elem_of_cons in EB as [E|?]; [|done].
    assert (strcmp b a < 0) as Hba by (rewrite strcmp_antisym; lia).
    by destruct (Hsep b a e Hba HeA). }
  assert (same_path a b) as Hsame.
  { apply pathcmp_zero; [by apply ascii_path_NUL..|lia]. }
  assert (e ≠ a → e ≠ b → e ∈ alpm_filelist_intersection A B) as Hrest.
  { intros Hea Heb. apply IHA; [done..| | |done]; set_solver. }
  destruct (decide (e = a)) as [->|Hea].
  - destruct HeB as [->|Hba]; [rewrite Hdir; apply list_elem_of_here|].
    exfalso. destruct Hsame as [->|[->| ->]].
    + rewrite strcmp_refl in Hba. lia.
    + by rewrite is_dir_name_slash in Hdir.
    + pose proof (slash_longer a). pose proof (strcmp_antisym a (a ++ ["/"%char])). lia.
  - destruct (decide (e = b)) as [->|Heb].
    + exfalso. destruct HeA as [?|Hab]; [done|]. destruct Hsame as [->|[->| ->]].
      * done.
      * pose proof (slash_longer b). pose proof (strcmp_antisym b (b ++ ["/"%char])). lia.
      * by rewrite is_dir_name_slash in Hdir.
    + specialize (Hrest Hea Heb). case_if; [by apply list_elem_of_further|done].
Qed.

(** ** Membership *)
Definition sorted_files (l : list alpm_file_t) : Prop := StronglySorted (cmp_le alpm_files_cmp) l.

Lemma sorted_files_lookup l i j f g :
  sorted_files l → (i <= j)%nat → l !! i = Some f → l !! j = Some g →
  strcmp (file_name f) (file_name g) <= 0.
Proof.
  intros Hs. revert i j. induction Hs as [|x l Hs IH Hx]; intros i j Hij Hi Hj; [done|].
  destruct i as [|i], j as [|j]; simpl in *; try lia.
  - simplify_eq. rewrite strcmp_refl. lia.
  - simplify_eq. rewrite Forall_forall in Hx. apply (Hx g).
    by eapply list_elem_of_lookup_2.
  - apply (IH i j); [lia|done..].
Qed.

Lemma bsearch_Some fuel files key l u f :
  bsearch fuel files key l u = Some f → f ∈ files ∧ file_name f = key.
Proof.
  revert l u. induction fuel as [|fuel IH]; intros l u; simpl; [done|].
  destruct (Nat.ltb l u); [|done]. destruct (files !! _) as [g|] eqn:E; [|done].
  destruct (Z.ltb_spec (strcmp key (file_name g)) 0); [apply IH|].
  destruct (Z.ltb_spec 0 (strcmp key (file_name g))); [apply IH|].
  intros [= <-]. split; [by eapply list_elem_of_lookup_2|].
  symmetry. apply strcmp_eq. lia.
Qed.

Lemma bsearch_None fuel files key l u :
  sorted_files files → (u <= length files)%nat → (u - l < fuel)%nat →
  bsearch fuel files key l u = None →
  ∀ i f, (l <= i < u)%nat → files !! i = Some f → file_name f ≠ key.
Proof.
  intros Hs. revert l u. induction fuel as [|fuel IH]; intros l u Hu Hf Hb i f Hi Hif E; [lia|].
  simpl in Hb. destruct (Nat.ltb_spec l u) as [Hlu|]; [|lia].
  assert (l <= (l + u) / 2 < u)%nat as Hidx.
  { split; [apply Nat.div_le_lower_bound; lia|apply Nat.div_lt_upper_bound; lia]. }
  set (idx := Nat.div (l + u) 2) in *.
  destruct (files !! idx) as [g|] eqn:Eg; [|apply lookup_ge_None in Eg; lia].
  destruct (Z.ltb_spec (strcmp key (file_name g)) 0) as [Hlt|Hge].
  - destruct (decide (i < idx)%nat).
    + eapply (IH l idx); [lia|lia|done| |done|done]. lia.
    + pose proof (sorted_files_lookup _ idx i g f Hs ltac:(lia) Eg Hif) as Hle.
      rewrite E in Hle. pose proof (strcmp_antisym key (file_name g)). lia.
  - destruct (Z.ltb_spec 0 (strcmp key (file_name g))) as [Hgt|Hle]; [|done].
    destruct (decide (idx < i)%nat).
    + eapply (IH (S idx) u); [lia|lia|done| |done|done]. lia.
    + pose proof (sorted_files_lookup _ i idx f g Hs ltac:(lia) Hif Eg) as Hle.
      rewrite E in Hle. lia.
Qed.

Lemma contains_spec files path :
  sorted_files files →
  match alpm_filelist_contains files path with
  | Some f => f ∈ files ∧ file_name f = path
  | None => path ∉ map file_name files
  end.
Proof.
  intros Hs. unfold alpm_filelist_contains.
  destruct (bsearch _ _ _ _ _) as [f|] eqn:E; [by apply bsearch_Some in E|].
  intros (g & -> & Hg)%list_elem_of_fmap. apply list_elem_of_lookup in Hg as [i Hi].
  eapply (bsearch_None (S (length files)) files (file_name g) 0 (length files)); [done|done|lia|done| |done|done].
  split; [lia|]. by eapply lookup_lt_Some.
Qed.

Lemma contains_is_Some files path :
  sorted_files files → is_Some (alpm_filelist_contains files path) ↔ path ∈ map file_name files.
Proof.
  intros Hs. pose proof (contains_spec files path Hs) as H.
  destruct (alpm_filelist_contains files path) as [f|].
  - destruct H as [Hf <-]. split; [|by eauto]. intros _. by apply list_elem_of_fmap_2.
  - split; [by intros [? ?]|done].
Qed.

#[export] Instance files_cmp_order : CmpOrder alpm_files_cmp.
Proof. apply (cmp_order_on file_name strcmp), _. Qed.

Lemma pre_sorted_sorted files : pre_sorted files = true → sorted_files files.
Proof.
  intros H. apply Sorted_StronglySorted.
  { intros x y z. apply cmp_trans. }
  induction files as [|f files IH]; [constructor|]. constructor.
  - apply IH. destruct files; [done|]. simpl in H. by bool_prop.
  - destruct files as [|g files]; [constructor|]. constructor. simpl in H. bool_prop.
    unfold cmp_le. lia.
Qed.

Lemma names_sorted_files files :
  sorted_names (map file_name files) → sorted_files files.
Proof.
  induction files as [|f files IH]; simpl; [constructor|].
  intros [H1 H2]%StronglySorted_inv. constructor; [by apply IH|].
  rewrite Forall_forall in H2. apply Forall_forall. intros g Hg.
  assert (strcmp (file_name f) (file_name g) < 0) by (apply H2; by apply list_elem_of_fmap_2).
  unfold cmp_le, alpm_files_cmp. lia.
Qed.

(** ** Properties *)

(** The difference of two sorted file lists holds exactly the names of
    the first that are not in the second. *)
Theorem filelist_difference_correct A B x :
  sorted_names A → sorted_names B →
  x ∈ alpm_filelist_difference A B ↔ x ∈ A ∧ x ∉ B.
Proof.
  intros SA SB. rewrite difference_diff_sorted.
  rewrite (elem_of_diff_sorted strcmp A B x).
  - split; intros [Hx Hn]; (split; [done|]).
    + intros HB. apply (Hn x HB). apply strcmp_refl.
    + intros y Hy E. apply strcmp_eq in E as ->. done.
  - done.
  - induction SB as [|b B SB IH Hb]; constructor; [done|].
    eapply Forall_impl; [exact Hb|]. unfold cmp_le. simpl. lia.
Qed.


Lemma filelist_difference_correct_witness :
  str "usr/b" ∈ alpm_filelist_difference (strs ["usr/"; "usr/a"; "usr/b"]) (strs ["usr/"; "usr/a"])
  ↔ str "usr/b" ∈ strs ["usr/"; "usr/a"; "usr/b"] ∧ str "usr/b" ∉ strs ["usr/"; "usr/a"].
Proof.
  apply filelist_difference_correct; repeat constructor.
Defined.

(** File conflicts between two packages are found: on ASCII paths sorted
    by strcmp, every non-directory name that is in both lists is in the result
    of _alpm_filelist_intersection; and every name in the result is in the
    first list and, up to a trailing slash, in the second, and not a directory
    in both. *)
Theorem filelist_intersection_correct A B :
  Forall ascii_path A → Forall ascii_path B → sorted_names A → sorted_names B →
  (∀ e, e ∈ A → e ∈ B → is_dir_name e = false → e ∈ alpm_filelist_intersection A B) ∧
  (∀ e, e ∈ alpm_filelist_intersection A B →
        e ∈ A ∧ ∃ b, b ∈ B ∧ same_path e b ∧ (is_dir_name e = false ∨ is_dir_name b = false)).
Proof.
  intros HA HB SA SB. split.
  - intros e. by apply intersection_complete.
  - intros e. apply intersection_sound; (eapply Forall_impl; [eassumption|apply ascii_path_NUL]).
Qed.

Lemma filelist_intersection_correct_witness :
  str "usr/a" ∈ alpm_filelist_intersection (strs ["usr/"; "usr/a"]) (strs ["usr/"; "usr/a"]).
Proof.
  refine (proj1 (filelist_intersection_correct (strs ["usr/"; "usr/a"]) (strs ["usr/"; "usr/a"])
    _ _ _ _) (str "usr/a") _ _ eq_refl);
    try (repeat constructor; done); repeat constructor.
Defined.

(** The intersection has gaps. The lists are sorted with strcmp and
    walked with pathcmp: a file of one package that is a directory of the other
    is missed when a name that continues with a byte below the slash comes in
    between; and names with bytes above 127, which strcmp orders as unsigned
    and pathcmp as signed characters, can make it miss a file that both
    packages contain. *)
Theorem filelist_intersection_gaps :
  (∃ A B, sorted_names A ∧ sorted_names B ∧ Forall ascii_path A ∧ Forall ascii_path B ∧
     (∃ e, e ∈ A ∧ e ++ ["/"%char] ∈ B) ∧ alpm_filelist_intersection A B = []) ∧
  (∃ A B e, sorted_names A ∧ sorted_names B ∧ e ∈ A ∧ e ∈ B ∧ is_dir_name e = false ∧
     alpm_filelist_intersection A B = []).
Proof.
  split.
  - exists (strs ["usr/a"]), (strs ["usr/a-b"; "usr/a/"]). split_and!.
    + repeat constructor.
    + repeat constructor.
    + repeat constructor; done.
    + repeat constructor; done.
    + exists (str "usr/a"). split; [apply list_elem_of_here|].
      apply list_elem_of_further, list_elem_of_here.
    + vm_compute. reflexivity.
  - set (e := [ascii_of_nat 195; ascii_of_nat 169]).
    exists [e], [str "z"; e], e. split_and!.
    + repeat constructor.
    + repeat constructor.
    + apply list_elem_of_here.
    + apply list_elem_of_further, list_elem_of_here.
    + reflexivity.
    + vm_compute. reflexivity.
Qed.

(** _alpm_filelist_sort returns a sorted permutation of the list, and on
    a sorted list alpm_filelist_contains finds a path exactly when a file has
    that name. *)
Theorem filelist_contains_correct files path :
  let s := alpm_filelist_sort files in
  sorted_files s ∧ s ≡ₚ files ∧
  (is_Some (alpm_filelist_contains s path) ↔ path ∈ map file_name files).
Proof.
  intros s. assert (sorted_files s ∧ s ≡ₚ files) as [Hs Hp].
  { unfold s, alpm_filelist_sort. destruct (pre_sorted files) eqn:E.
    - split; [by apply pre_sorted_sorted|done].
    - split; [by apply msort_rec_sorted; [apply _|..]|apply msort_perm]. }
  split_and!; [done|done|]. rewrite contains_is_Some by done. by rewrite Hp.
Qed.
