(* ===== verification/Conflict.v ===== *)
(** * Conflicts

    lib/libalpm/conflict.c: conflicts between packages, and the files a
    transaction would overwrite. The file system is a parameter: lstat tells
    whether a path exists and is a directory, readdir lists a directory. Paths
    are assumed to fit in PATH_MAX. The copies of packages in a conflict are
    never compared by address; 0 stands for theirs. *)
From S2P Require Import Prelude CString AlpmList Util Package PkgHash Handle Deps FileList.
Local Open Scope Z_scope.

(** ** Package conflicts *)
Record alpm_conflict_t := mk_conflict {
  c_package1 : alpm_pkg_t;
  c_package2 : alpm_pkg_t;
  c_reason : alpm_depend_t
}.

Definition conflict_new (pkg1 pkg2 : alpm_pkg_t) (reason : alpm_depend_t) : alpm_conflict_t :=
  mk_conflict (alpm_pkg_dup 0 pkg1) (alpm_pkg_dup 0 pkg2) reason.

Definition conflict_isin (needle : alpm_conflict_t) (haystack : list alpm_conflict_t) : bool :=
  existsb (λ c,
    (pkg_name_hash (c_package1 needle) =? pkg_name_hash (c_package1 c)) &&
    (pkg_name_hash (c_package2 needle) =? pkg_name_hash (c_package2 c)) &&
    streq (pkg_name (c_package1 needle)) (pkg_name (c_package1 c)) &&
    streq (pkg_name (c_package2 needle)) (pkg_name (c_package2 c))) haystack.

Definition add_conflict (baddeps : list alpm_conflict_t) (pkg1 pkg2 : alpm_pkg_t)
    (reason : alpm_depend_t) : list alpm_conflict_t :=
  let conflict := conflict_new pkg1 pkg2 reason in
  if negb (conflict_isin conflict baddeps) then baddeps ++ [conflict] else baddeps.

(** The innermost loop of check_conflict. *)
Definition check_conflict_with (order : Z) (pkg1 : alpm_pkg_t) (conflict : alpm_depend_t)
    (baddeps : list alpm_conflict_t) (pkg2 : alpm_pkg_t) : list alpm_conflict_t :=
  if (pkg_name_hash pkg1 =? pkg_name_hash pkg2) && streq (pkg_name pkg1) (pkg_name pkg2)
  then baddeps
  else if alpm_depcmp pkg2 conflict
       then if 0 <=? order then add_conflict baddeps pkg1 pkg2 conflict
            else add_conflict baddeps pkg2 pkg1 conflict
       else baddeps.

Definition check_conflict (list1 list2 : list alpm_pkg_t) (baddeps : list alpm_conflict_t)
    (order : Z) : list alpm_conflict_t :=
  fold_left (λ baddeps pkg1,
    fold_left (λ baddeps conflict,
      fold_left (check_conflict_with order pkg1 conflict) list2 baddeps)
      (pkg_conflicts pkg1) baddeps) list1 baddeps.

Definition alpm_innerconflicts (packages : list alpm_pkg_t) : list alpm_conflict_t :=
  check_conflict packages packages [] 0.

Definition alpm_outerconflicts (db : alpm_db_t) (packages : list alpm_pkg_t)
    : list alpm_conflict_t :=
  let dblist := alpm_list_diff alpm_pkg_cmp (alpm_db_get_pkgcache db) packages in
  let baddeps := check_conflict packages dblist [] 1 in
  check_conflict dblist packages baddeps (-1).

Definition alpm_checkconflicts (pkglist : list alpm_pkg_t) : list alpm_conflict_t :=
  alpm_innerconflicts pkglist.

(** ** File conflicts *)
Inductive fileconflict_type := ALPM_FILECONFLICT_TARGET | ALPM_FILECONFLICT_FILESYSTEM.

Record alpm_fileconflict_t := mk_fileconflict {
  fc_target : cstr;
  fc_type : fileconflict_type;
  fc_file : cstr;
  fc_ctarget : cstr
}.

(** lstat: [Some d] for an existing path, [d] when it is a directory.
    readdir: the names in a directory that can be opened. *)
Record filesystem := mk_fs {
  fs_lstat : cstr → option bool;
  fs_readdir : cstr → option (list cstr)
}.

Definition add_fileconflict (conflicts : list alpm_fileconflict_t) (filestr : cstr)
    (pkg1 : alpm_pkg_t) (pkg2 : option alpm_pkg_t) : list alpm_fileconflict_t :=
  conflicts ++
  [match pkg2 with
   | None => mk_fileconflict (pkg_name pkg1) ALPM_FILECONFLICT_FILESYSTEM filestr []
   | Some p2 =>
       match pkg_origin p2 with
       | ALPM_PKG_FROM_LOCALDB _ =>
           mk_fileconflict (pkg_name pkg1) ALPM_FILECONFLICT_FILESYSTEM filestr (pkg_name p2)
       | _ => mk_fileconflict (pkg_name pkg1) ALPM_FILECONFLICT_TARGET filestr (pkg_name p2)
       end
   end].

Definition owns (path : cstr) (p : alpm_pkg_t) : bool :=
  is_some (alpm_filelist_contains (pkg_files p) path).

Section fileconflicts.
Context (env : alpm_env) (fs : filesystem) (root : cstr) (h : alpm_handle_t).

(** dir_belongsto_pkgs; the fuel bounds the depth of the directory tree, a
    deeper one counts as not owned. *)
Fixpoint dir_belongsto_pkgs (fuel : nat) (dirpath : cstr) (pkgs : list alpm_pkg_t) : bool :=
  match fuel with
  | O => false
  | S fuel' =>
      match fs_readdir fs (root ++ dirpath) with
      | None => false
      | Some ents =>
          forallb (λ name,
            streq name (str ".") || streq name (str "..") ||
            match fs_lstat fs (root ++ dirpath ++ name) with
            | None => false
            | Some is_dir =>
                let path := dirpath ++ name ++ (if is_dir then str "/" else []) in
                existsb (owns path) pkgs &&
                (if is_dir then dir_belongsto_pkgs fuel' path pkgs else true)
            end) ents
      end
  end.

Definition alpm_db_find_file_owners (path : cstr) : list alpm_pkg_t :=
  List.filter (owns path) (alpm_db_get_pkgcache (h_db_local h)).

Definition alpm_find_file_owner (path : cstr) : option alpm_pkg_t :=
  find_first (owns path) (alpm_db_get_pkgcache (h_db_local h)).

Definition alpm_can_overwrite_file (path rootedpath : cstr) : bool :=
  (alpm_fnmatch_patterns (posix_fnmatch env) (h_overwrite_files h) path =? 0)
  || (alpm_fnmatch_patterns (posix_fnmatch env) (h_overwrite_files h) rootedpath =? 0).

Definition file_names (p : alpm_pkg_t) : list cstr := map file_name (pkg_files p).

(** CHECK 1 for a pair of targets. *)
Definition check_common (conflicts : list alpm_fileconflict_t) (p1 p2 : alpm_pkg_t)
    : list alpm_fileconflict_t :=
  fold_left (λ conflicts filename,
    let path := root ++ filename in
    if alpm_can_overwrite_file filename path && owns filename p2 then conflicts
    else add_fileconflict conflicts path p1 (Some p2))
    (alpm_filelist_intersection (file_names p1) (file_names p2)) conflicts.

(** The files of a target that its installed version does not have. *)
Definition new_files (p1 : alpm_pkg_t) (dbpkg : option alpm_pkg_t) : list cstr :=
  match dbpkg with
  | Some dbpkg => alpm_filelist_difference (file_names p1) (file_names dbpkg)
  | None => file_names p1
  end.

(** The local version of a target other than [p1] that has the file. *)
Definition changed_hands (upgrade : list alpm_pkg_t) (p1 : alpm_pkg_t) (relative_path : cstr)
    : bool :=
  existsb (λ p2, negb (ptr_eq p1 p2) &&
    match alpm_db_get_pkgfromcache (h_db_local h) (pkg_name p2) with
    | Some localp2 => owns relative_path localp2
    | None => false
    end) upgrade.

(** How a possible conflict was resolved: by replacing what is inside a
    directory too ([skip] the files below it), with an entry for the remove
    skip list. *)
Inductive resolution := Unresolved | Resolved (skip_inside add_skip_remove : bool).

Definition resolve_owned (upgrade rem : list alpm_pkg_t) (p1 : alpm_pkg_t)
    (dbpkg : option alpm_pkg_t) (pfile_isdir : bool) (relative_path : cstr) : resolution :=
  if pfile_isdir && match dbpkg with Some d => owns relative_path d | None => false end
  then Resolved true false
  else if existsb (owns relative_path) rem then Resolved pfile_isdir false
  else if changed_hands upgrade p1 relative_path then Resolved pfile_isdir true
  else Unresolved.

(** All files of the directory in the way belong to packages that go away. *)
Definition resolve_directory (fuel : nat) (rem : list alpm_pkg_t) (dbpkg : option alpm_pkg_t)
    (relative_path : cstr) : bool :=
  let dir := relative_path ++ str "/" in
  match alpm_db_find_file_owners dir with
  | [] => false
  | owners =>
      let pkgs := match dbpkg with Some d => d :: rem | None => rem end in
      match alpm_list_diff alpm_pkg_cmp owners pkgs with
      | [] => dir_belongsto_pkgs fuel dir owners
      | _ => false
      end
  end.

Definition resolve_backup (p1 : alpm_pkg_t) (relative_path : cstr) : bool :=
  is_some (alpm_needbackup relative_path p1)
  && negb (existsb (owns relative_path) (alpm_db_get_pkgcache (h_db_local h))).

Record fc_state := mk_fc { fcs_conflicts : list alpm_fileconflict_t; fcs_skip : list cstr }.

(** One iteration of the loop over the new files: the state, and whether the
    files inside the directory are skipped. *)
Definition check_newfile (fuel : nat) (upgrade rem : list alpm_pkg_t) (p1 : alpm_pkg_t)
    (dbpkg : option alpm_pkg_t) (filestr : cstr) (st : fc_state) : fc_state * bool :=
  match fs_lstat fs (llstat_path (root ++ filestr)) with
  | None => (st, false)
  | Some is_dir =>
      let pfile_isdir := is_dir_name (root ++ filestr) in
      if pfile_isdir && is_dir then (st, false)
      else
        let relative_path := if pfile_isdir then removelast filestr else filestr in
        let path := root ++ relative_path in
        let r := resolve_owned upgrade rem p1 dbpkg pfile_isdir relative_path in
        let skip_remove := match r with
                           | Resolved _ true => fcs_skip st ++ [relative_path]
                           | _ => fcs_skip st end in
        let skip := match r with Resolved s _ => s | Unresolved => false end in
        let resolved := match r with Resolved _ _ => true | Unresolved => false end in
        let resolved := resolved || is_dir && resolve_directory fuel rem dbpkg relative_path in
        let resolved := resolved || resolve_backup p1 relative_path in
        let resolved := resolved || negb is_dir && alpm_can_overwrite_file filestr path in
        (mk_fc (if resolved then fcs_conflicts st
                else add_fileconflict (fcs_conflicts st) path p1
                       (alpm_find_file_owner relative_path)) skip_remove, skip)
  end.

(** CHECK 2: the loop over the new files of a target. *)
Fixpoint check_newfiles (n fuel : nat) (upgrade rem : list alpm_pkg_t) (p1 : alpm_pkg_t)
    (dbpkg : option alpm_pkg_t) (newfiles : list cstr) (st : fc_state) : fc_state :=
  match n, newfiles with
  | S n', filestr :: rest =>
      let '(st, skip) := check_newfile fuel upgrade rem p1 dbpkg filestr st in
      let rest := if skip
                  then drop_while (λ filestr2, strncmp filestr filestr2 (length filestr) =? 0) rest
                  else rest in
      check_newfiles n' fuel upgrade rem p1 dbpkg rest st
  | _, _ => st
  end.

Fixpoint fileconflicts_loop (fuel : nat) (upgrade rem i : list alpm_pkg_t) (st : fc_state)
    : fc_state :=
  match i with
  | [] => st
  | p1 :: rest =>
      let conflicts := fold_left (λ c p2, check_common c p1 p2) rest (fcs_conflicts st) in
      let dbpkg := alpm_db_get_pkgfromcache (h_db_local h) (pkg_name p1) in
      let newfiles := new_files p1 dbpkg in
      let st := check_newfiles (length newfiles) fuel upgrade rem p1 dbpkg newfiles
                  (mk_fc conflicts (fcs_skip st)) in
      fileconflicts_loop fuel upgrade rem rest st
  end.

(** _alpm_db_find_fileconflicts: the conflicts and trans->skip_remove. *)
Definition alpm_db_find_fileconflicts (fuel : nat) (upgrade rem : list alpm_pkg_t)
    (skip_remove : list cstr) : list alpm_fileconflict_t * list cstr :=
  let st := fileconflicts_loop fuel upgrade rem upgrade (mk_fc [] skip_remove) in
  (fcs_conflicts st, fcs_skip st).
End fileconflicts.

(** ** Facts *)

(** A left fold that adds, for every element, what [Q] says. *)
Lemma fold_left_adds {A B C} (f : B → A → B) (pr : B → C → Prop) (good : B → Prop)
    (Q : A → C → Prop) l b :
  good b →
  (∀ b a, a ∈ l → good b → good (f b a) ∧ ∀ c, pr (f b a) c ↔ pr b c ∨ Q a c) →
  good (fold_left f l b) ∧ ∀ c, pr (fold_left f l b) c ↔ pr b c ∨ ∃ a, a ∈ l ∧ Q a c.
Proof.
  revert b. induction l as [|a l IH]; intros b Hb Hf; simpl.
  - split; [done|]. set_solver.
  - destruct (Hf b a (list_elem_of_here _ _) Hb) as [Hg Hp].
    destruct (IH (f b a) Hg) as [Hg' Hp'].
    { intros b' a' Ha'. apply Hf. by apply list_elem_of_further. }
    split; [done|]. intros c. rewrite Hp', Hp. setoid_rewrite elem_of_cons. naive_solver.
Qed.

Definition conflict_pair (c : alpm_conflict_t) : cstr * cstr :=
  (pkg_name (c_package1 c), pkg_name (c_package2 c)).
Definition reported (baddeps : list alpm_conflict_t) (x : cstr * cstr) : Prop :=
  x ∈ map conflict_pair baddeps.

(** Conflict lists with correct hashes and no pair twice. *)
Record conflicts_ok (baddeps : list alpm_conflict_t) : Prop := {
  co_hash1 : Forall (λ c, pkg_hash_ok (c_package1 c)) baddeps;
  co_hash2 : Forall (λ c, pkg_hash_ok (c_package2 c)) baddeps;
  co_nodup : NoDup (map conflict_pair baddeps)
}.

Lemma conflict_isin_spec needle l :
  conflicts_ok l → pkg_hash_ok (c_package1 needle) → pkg_hash_ok (c_package2 needle) →
  conflict_isin needle l = true ↔ reported l (conflict_pair needle).
Proof.
  intros [H1 H2 _] N1 N2. unfold conflict_isin, reported. rewrite existsb_exists.
  rewrite Forall_forall in H1, H2. split.
  - intros (c & Hc%list_elem_of_In & E). bool_prop.
    repeat match goal with H : streq _ _ = true |- _ => apply streq_true in H end.
    apply list_elem_of_fmap. exists c. split; [|done]. unfold conflict_pair. congruence.
  - intros (c & E & Hc)%list_elem_of_fmap. exists c. split; [by apply list_elem_of_In|].
    unfold conflict_pair in E. injection E as E1 E2.
    rewrite N1, N2, (H1 c Hc), (H2 c Hc), E1, E2. by rewrite !Z.eqb_refl, !streq_refl.
Qed.

Lemma add_conflict_spec l p1 p2 r :
  conflicts_ok l → pkg_hash_ok p1 → pkg_hash_ok p2 →
  conflicts_ok (add_conflict l p1 p2 r) ∧
  ∀ x, reported (add_conflict l p1 p2 r) x ↔ reported l x ∨ x = (pkg_name p1, pkg_name p2).
Proof.
  intros Hl H1 H2. unfold add_conflict.
  assert (conflict_isin (conflict_new p1 p2 r) l = true ↔ reported l (pkg_name p1, pkg_name p2))
    as Hin by (apply (conflict_isin_spec (conflict_new p1 p2 r)); done).
  destruct (conflict_isin _ _); simpl.
  - split; [done|]. intros x. split; [by left|]. intros [?| ->]; [done|]. by apply Hin.
  - destruct Hl as [L1 L2 L3]. split.
    + split; [apply Forall_app; split; [done|by repeat constructor]..|].
      rewrite map_app. apply NoDup_app. split_and!; [done| |apply NoDup_singleton].
      intros x Hx ->%list_elem_of_singleton. destruct Hin as [_ Hin]. by specialize (Hin Hx).
    + intros x. unfold reported. rewrite map_app, elem_of_app. simpl. by rewrite list_elem_of_singleton.
Qed.

(** [p1] conflicts with [p2]: differently named, and [p2] matches one of the
    conflicts of [p1]. *)
Definition conflicts_with (p1 p2 : alpm_pkg_t) : Prop :=
  pkg_name p1 ≠ pkg_name p2 ∧ ∃ c, c ∈ pkg_conflicts p1 ∧ alpm_depcmp p2 c = true.

Definition oriented (order : Z) (p1 p2 : alpm_pkg_t) : cstr * cstr :=
  if 0 <=? order then (pkg_name p1, pkg_name p2) else (pkg_name p2, pkg_name p1).

Lemma check_conflict_spec list1 list2 l order :
  hashes_ok list1 → hashes_ok list2 → conflicts_ok l →
  conflicts_ok (check_conflict list1 list2 l order) ∧
  ∀ x, reported (check_conflict list1 list2 l order) x ↔
       reported l x ∨
       ∃ p1, p1 ∈ list1 ∧ ∃ p2, p2 ∈ list2 ∧ conflicts_with p1 p2 ∧ x = oriented order p1 p2.
Proof.
  unfold hashes_ok. rewrite !Forall_forall. intros H1 H2 Hl. unfold check_conflict.
  apply (fold_left_adds _ reported conflicts_ok
    (λ p1 x, ∃ p2, p2 ∈ list2 ∧ conflicts_with p1 p2 ∧ x = oriented order p1 p2)); [done|].
  intros b p1 Hp1 Hb.
  destruct (fold_left_adds (λ baddeps conflict,
      fold_left (check_conflict_with order p1 conflict) list2 baddeps) reported conflicts_ok
    (λ c x, ∃ p2, p2 ∈ list2 ∧ pkg_name p1 ≠ pkg_name p2 ∧ alpm_depcmp p2 c = true ∧
                  x = oriented order p1 p2) (pkg_conflicts p1) b Hb) as [Hg Hp].
  { intros b' c _ Hb'.
    apply (fold_left_adds _ reported conflicts_ok
      (λ p2 x, pkg_name p1 ≠ pkg_name p2 ∧ alpm_depcmp p2 c = true ∧ x = oriented order p1 p2));
      [done|].
    intros b2 p2 Hp2 Hb2. unfold check_conflict_with.
    assert ((pkg_name_hash p1 =? pkg_name_hash p2) && streq (pkg_name p1) (pkg_name p2) = true ↔
            pkg_name p1 = pkg_name p2) as Hsame.
    { rewrite (H1 p1 Hp1), (H2 p2 Hp2). split.
      - intros E. bool_prop. by apply streq_true.
      - intros ->. by rewrite Z.eqb_refl, streq_refl. }
    destruct (_ && _).
    { split; [done|]. intros x. split; [by left|]. intros [?|(Hne & _)]; [done|].
      destruct Hne. by apply Hsame. }
    assert (pkg_name p1 ≠ pkg_name p2) as Hne by (intros E; by apply Hsame in E).
    destruct (alpm_depcmp p2 c) eqn:Ed; [|split; [done|]; naive_solver].
    unfold oriented. destruct (0 <=? order).
    - destruct (add_conflict_spec b2 p1 p2 c Hb2 (H1 _ Hp1) (H2 _ Hp2)) as [Ha Hr].
      split; [done|]. intros x. rewrite Hr. naive_solver.
    - destruct (add_conflict_spec b2 p2 p1 c Hb2 (H2 _ Hp2) (H1 _ Hp1)) as [Ha Hr].
      split; [done|]. intros x. rewrite Hr. naive_solver. }
  split; [done|]. intros x. rewrite Hp. f_equiv. unfold conflicts_with. naive_solver.
Qed.

Lemma conflicts_ok_nil : conflicts_ok [].
Proof. split; constructor. Qed.

Lemma diff_hashes l r : hashes_ok l → hashes_ok (alpm_list_diff alpm_pkg_cmp l r).
Proof.
  unfold hashes_ok. rewrite !Forall_forall. intros H p Hp. apply H. by eapply diff_subset.
Qed.

Lemma reported_nil l : conflicts_ok l → l = [] ↔ ∀ x, ¬ reported l x.
Proof.
  intros _. split; [intros -> x; apply not_elem_of_nil|]. destruct l as [|c l]; [done|].
  intros H. destruct (H (conflict_pair c)). apply list_elem_of_here.
Qed.

(** Packages with different names, subtracted by name. *)
Lemma elem_of_diff_pkgs l r p :
  NoDup (map pkg_name l) →
  p ∈ alpm_list_diff alpm_pkg_cmp l r ↔ p ∈ l ∧ pkg_name p ∉ map pkg_name r.
Proof.
  intros Hl. rewrite elem_of_diff; [|apply _|].
  - f_equiv. split.
    + intros Hn (q & E & Hq)%list_elem_of_fmap. apply (Hn q Hq). unfold alpm_pkg_cmp. rewrite E.
      apply strcmp_refl.
    + intros Hn q Hq E. unfold alpm_pkg_cmp in E. apply strcmp_eq in E. apply Hn. rewrite E.
      by apply list_elem_of_fmap_2.
  - intros i j x y Hi Hj E. unfold alpm_pkg_cmp in E. apply strcmp_eq in E.
    eapply (NoDup_lookup _ i j (pkg_name x) Hl); rewrite list_lookup_fmap.
    + by rewrite Hi.
    + by rewrite Hj, E.
Qed.

Lemma NoDup_map_filter {A B} (f : A → B) (P : A → bool) l :
  NoDup (map f l) → NoDup (map f (List.filter P l)).
Proof.
  induction l as [|x l IH]; simpl; [done|]. intros [Hx Hl]%NoDup_cons.
  destruct (P x); [|by apply IH]. simpl. apply NoDup_cons. split; [|by apply IH].
  intros (y & E & Hy)%list_elem_of_fmap. apply Hx. rewrite E. apply list_elem_of_fmap_2.
  apply list_elem_of_In, filter_In in Hy as [Hy _]. by apply list_elem_of_In.
Qed.

(** ** File conflicts *)
Section fileconflict_facts.
Context (env : alpm_env) (fs : filesystem) (root : cstr) (h : alpm_handle_t).
Notation can_overwrite := (alpm_can_overwrite_file env h).

(** Conflicts are only ever added, and none is when everything is fine. *)
Definition grows (c c' : list alpm_fileconflict_t) (fine : Prop) : Prop :=
  ∃ new, c' = c ++ new ∧ (new = [] → fine).

Lemma grows_refl c (P : Prop) : P → grows c c P.
Proof. intros HP. exists []. by rewrite app_nil_r. Qed.

Lemma grows_trans c1 c2 c3 (P Q R : Prop) :
  grows c1 c2 P → grows c2 c3 Q → (P → Q → R) → grows c1 c3 R.
Proof.
  intros (n1 & -> & H1) (n2 & -> & H2) H. exists (n1 ++ n2). rewrite app_assoc. split; [done|].
  intros [E1 E2]%app_eq_nil. auto.
Qed.

Lemma grows_fold {A} (f : list alpm_fileconflict_t → A → list alpm_fileconflict_t)
    (P : A → Prop) l c :
  (∀ c a, a ∈ l → grows c (f c a) (P a)) → grows c (fold_left f l c) (∀ a, a ∈ l → P a).
Proof.
  revert c. induction l as [|a l IH]; intros c Hf; simpl.
  - apply grows_refl. intros a Ha. by apply not_elem_of_nil in Ha.
  - eapply grows_trans; [apply Hf, list_elem_of_here| |].
    + apply IH. intros c' a' Ha'. apply Hf. by apply list_elem_of_further.
    + simpl. intros Ha Hl a' [->|Ha']%elem_of_cons; [done|by apply Hl].
Qed.

Lemma add_fileconflict_grows c path p1 p2 (P : Prop) : grows c (add_fileconflict c path p1 p2) P.
Proof. unfold add_fileconflict. eexists. split; [done|]. intros [=]. Qed.

Lemma check_common_grows c p1 p2 :
  grows c (check_common env root h c p1 p2)
    (∀ f, f ∈ alpm_filelist_intersection (file_names p1) (file_names p2) →
          can_overwrite f (root ++ f) = true ∧ owns f p2 = true).
Proof.
  unfold check_common. apply grows_fold. intros c' f _.
  destruct (can_overwrite f (root ++ f) && owns f p2) eqn:E.
  - apply grows_refl. by apply andb_true_iff in E.
  - apply add_fileconflict_grows.
Qed.

(** The reasons for which a new file [f] is no conflict. *)
Definition relative (f : cstr) : cstr := if is_dir_name (root ++ f) then removelast f else f.

(** What an installed package gives up at [path]: it is the version that [p1]
    replaces (for a directory of [p1]), a package that is removed, or the old
    version of another target. *)
Inductive released (upgrade rem : list alpm_pkg_t) (p1 : alpm_pkg_t) (dbpkg : option alpm_pkg_t)
    (f : cstr) : Prop :=
  | r_old d : dbpkg = Some d → is_dir_name (root ++ f) = true → owns (relative f) d = true →
      released upgrade rem p1 dbpkg f
  | r_removed p : p ∈ rem → owns (relative f) p = true → released upgrade rem p1 dbpkg f
  | r_target p2 l : p2 ∈ upgrade → pkg_addr p2 ≠ pkg_addr p1 →
      alpm_db_get_pkgfromcache (h_db_local h) (pkg_name p2) = Some l →
      owns (relative f) l = true → released upgrade rem p1 dbpkg f.

(** Everything below a directory belongs to one of [pkgs]. *)
Inductive all_owned (pkgs : list alpm_pkg_t) (dir : cstr) : Prop :=
  | ao_dir ents :
      fs_readdir fs (root ++ dir) = Some ents →
      (∀ name, name ∈ ents → name ≠ str "." → name ≠ str ".." →
         ∃ is_dir p, fs_lstat fs (root ++ dir ++ name) = Some is_dir ∧ p ∈ pkgs ∧
           owns (dir ++ name ++ (if is_dir then str "/" else [])) p = true) →
      (∀ name, name ∈ ents → name ≠ str "." → name ≠ str ".." →
         fs_lstat fs (root ++ dir ++ name) = Some true → all_owned pkgs (dir ++ name ++ str "/")) →
      all_owned pkgs dir.

(** A directory on disk that goes away: some installed packages own it, only
    ones that are replaced or removed, and all that is in it is theirs. *)
Definition dir_released (rem : list alpm_pkg_t) (dbpkg : option alpm_pkg_t) (dir : cstr) : Prop :=
  ∃ owners, owners ≠ [] ∧ all_owned owners dir ∧
    ∀ p, p ∈ owners ↔ p ∈ alpm_db_get_pkgcache (h_db_local h) ∧ owns dir p = true ∧
      ∃ q, (dbpkg = Some q ∨ q ∈ rem) ∧ pkg_name q = pkg_name p.

Inductive harmless (upgrade rem : list alpm_pkg_t) (p1 : alpm_pkg_t)
    (dbpkg : option alpm_pkg_t) (f : cstr) : Prop :=
  | h_absent : fs_lstat fs (llstat_path (root ++ f)) = None → harmless upgrade rem p1 dbpkg f
  | h_both_dirs : is_dir_name (root ++ f) = true →
      fs_lstat fs (llstat_path (root ++ f)) = Some true → harmless upgrade rem p1 dbpkg f
  | h_released : released upgrade rem p1 dbpkg f → harmless upgrade rem p1 dbpkg f
  | h_directory : fs_lstat fs (llstat_path (root ++ f)) = Some true →
      dir_released rem dbpkg (relative f ++ str "/") → harmless upgrade rem p1 dbpkg f
  | h_backup : is_Some (alpm_needbackup (relative f) p1) →
      (∀ p, p ∈ alpm_db_get_pkgcache (h_db_local h) → owns (relative f) p = false) →
      harmless upgrade rem p1 dbpkg f
  | h_overwrite : fs_lstat fs (llstat_path (root ++ f)) = Some false →
      can_overwrite f (root ++ relative f) = true → harmless upgrade rem p1 dbpkg f.

Lemma resolve_owned_spec upgrade rem p1 dbpkg f :
  match resolve_owned h upgrade rem p1 dbpkg (is_dir_name (root ++ f)) (relative f) with
  | Resolved s _ => released upgrade rem p1 dbpkg f ∧ (s = true → is_dir_name (root ++ f) = true)
  | Unresolved => True
  end.
Proof.
  unfold resolve_owned.
  destruct (is_dir_name (root ++ f) && _) eqn:E1.
  { apply andb_true_iff in E1 as [E1 E2]. split; [|done]. destruct dbpkg as [d|]; [|done].
    by eapply r_old. }
  destruct (existsb (owns (relative f)) rem) eqn:E2.
  { split; [|done]. apply existsb_exists in E2 as (p & Hp%list_elem_of_In & Ho). by eapply r_removed. }
  destruct (changed_hands h upgrade p1 (relative f)) eqn:E3; [|done]. split; [|done].
  unfold changed_hands in E3. apply existsb_exists in E3 as (p2 & Hp2%list_elem_of_In & H2).
  bool_prop. destruct (alpm_db_get_pkgfromcache _ _) as [l|] eqn:El; [|done].
  eapply r_target; [done| |done|done].
  intros E. unfold ptr_eq in *. rewrite E, Nat.eqb_refl in *. done.
Qed.

Lemma belongsto_owned fuel dir pkgs : dir_belongsto_pkgs fs root fuel dir pkgs = true → all_owned pkgs dir.
Proof.
  revert dir. induction fuel as [|fuel IH]; intros dir; [done|]. cbn [dir_belongsto_pkgs].
  destruct (fs_readdir _ _) as [ents|] eqn:Er; [|done]. rewrite forallb_forall. intros H.
  apply (ao_dir _ _ ents Er); intros name Hn N1 N2;
    specialize (H name (proj1 (list_elem_of_In _ _) Hn));
    rewrite (proj2 (streq_false _ _) N1), (proj2 (streq_false _ _) N2) in H; simpl in H.
  - destruct (fs_lstat _ _) as [is_dir|]; [|done]. apply andb_true_iff in H as [H _].
    apply existsb_exists in H as (p & Hp%list_elem_of_In & Ho). by exists is_dir, p.
  - intros E. rewrite E in H. apply andb_true_iff in H as [_ H]. by apply IH.
Qed.

Lemma resolve_directory_spec fuel rem dbpkg path :
  PkgCache (h_db_local h) → resolve_directory fs root h fuel rem dbpkg path = true →
  dir_released rem dbpkg (path ++ str "/").
Proof.
  intros Hc. unfold resolve_directory, alpm_db_find_file_owners. set (dir := path ++ str "/").
  set (cache := alpm_db_get_pkgcache (h_db_local h)).
  set (pkgs := match dbpkg with Some d => d :: rem | None => rem end).
  assert (∀ p, p ∈ List.filter (owns dir) cache ↔ p ∈ cache ∧ owns dir p = true) as Hf.
  { intros p. by rewrite !list_elem_of_In, filter_In. }
  assert (NoDup (map pkg_name (List.filter (owns dir) cache))) as Hnd
    by apply NoDup_map_filter, cache_names.
  destruct (List.filter (owns dir) cache) as [|o l] eqn:Eo; [done|]. rewrite <-Eo in *.
  destruct (alpm_list_diff _ _ _) eqn:Ed; [|done]. intros Hb%belongsto_owned.
  exists (List.filter (owns dir) cache). split_and!; [by rewrite Eo|done|]. intros p. rewrite Hf.
  split; [|tauto]. intros [Hp Ho]. split_and!; [done..|].
  assert (p ∉ alpm_list_diff alpm_pkg_cmp (List.filter (owns dir) cache) pkgs) as Hn
    by (rewrite Ed; apply not_elem_of_nil).
  rewrite (elem_of_diff_pkgs _ _ _ Hnd), Hf in Hn.
  destruct (decide (pkg_name p ∈ map pkg_name pkgs)) as [(q & E & Hq)%list_elem_of_fmap|Hne]; [|tauto].
  exists q. split; [|done]. unfold pkgs in Hq. destruct dbpkg; [|by right].
  apply elem_of_cons in Hq as [->|?]; auto.
Qed.

(** A directory of the target that takes the place of something else. *)
Definition replaces (upgrade rem : list alpm_pkg_t) (p1 : alpm_pkg_t) (dbpkg : option alpm_pkg_t)
    (g : cstr) : Prop :=
  is_dir_name (root ++ g) = true ∧ fs_lstat fs (llstat_path (root ++ g)) = Some false ∧
  released upgrade rem p1 dbpkg g.

Lemma check_newfile_spec fuel upgrade rem p1 dbpkg f st st' skip :
  PkgCache (h_db_local h) →
  check_newfile env fs root h fuel upgrade rem p1 dbpkg f st = (st', skip) →
  grows (fcs_conflicts st) (fcs_conflicts st') (harmless upgrade rem p1 dbpkg f) ∧
  (skip = true → replaces upgrade rem p1 dbpkg f).
Proof.
  intros Hc. unfold check_newfile. destruct (fs_lstat fs _) as [is_dir|] eqn:El.
  2:{ intros [= <- <-]. split; [|done]. by apply grows_refl, h_absent. }
  destruct (is_dir_name (root ++ f) && is_dir) eqn:Ed.
  { intros [= <- <-]. apply andb_true_iff in Ed as [? ->]. split; [|done].
    by apply grows_refl, h_both_dirs. }
  fold (relative f). pose proof (resolve_owned_spec upgrade rem p1 dbpkg f) as Hr.
  destruct (resolve_owned _ _ _ _ _ _ _) as [|s a]; simpl.
  2:{ intros [= <- <-]. destruct Hr as [Hh Hs]. split; [by apply grows_refl, h_released|].
      intros Hd%Hs. split_and!; [done| |done]. rewrite Hd in Ed. by destruct is_dir. }
  intros [= <- <-]. split; [|done]. simpl.
  destruct (is_dir && resolve_directory fs root h fuel rem dbpkg (relative f)) eqn:E1; simpl.
  { apply andb_true_iff in E1 as [-> E1]. apply grows_refl, h_directory; [done|].
    by eapply resolve_directory_spec. }
  destruct (resolve_backup h p1 (relative f)) eqn:E2; simpl.
  { unfold resolve_backup in E2. apply andb_true_iff in E2 as [E2 E3].
    apply grows_refl, h_backup; [by apply is_some_true|]. intros p Hp.
    apply negb_true_iff in E3. destruct (owns (relative f) p) eqn:Eo; [|done].
    rewrite <-E3. symmetry. apply existsb_exists. exists p. split; [by apply list_elem_of_In|done]. }
  destruct (negb is_dir && _) eqn:E3.
  { apply andb_true_iff in E3 as [E4 E3]. apply grows_refl, h_overwrite; [|done].
    by destruct is_dir. }
  apply add_fileconflict_grows.
Qed.

(** Inside a directory of the target that takes the place of something else. *)
Definition inside_replaced (upgrade rem : list alpm_pkg_t) (p1 : alpm_pkg_t)
    (dbpkg : option alpm_pkg_t) (newfiles : list cstr) (f : cstr) : Prop :=
  ∃ g, g ∈ newfiles ∧ replaces upgrade rem p1 dbpkg g ∧ strncmp g f (length g) = 0.

Lemma check_newfiles_spec fuel upgrade rem p1 dbpkg n newfiles st :
  PkgCache (h_db_local h) → (length newfiles <= n)%nat →
  grows (fcs_conflicts st)
    (fcs_conflicts (check_newfiles env fs root h n fuel upgrade rem p1 dbpkg newfiles st))
    (∀ f, f ∈ newfiles → harmless upgrade rem p1 dbpkg f ∨
                         inside_replaced upgrade rem p1 dbpkg newfiles f).
Proof.
  intros Hc. revert newfiles st. induction n as [|n IH]; intros newfiles st Hn.
  { destruct newfiles; [|simpl in Hn; lia]. apply grows_refl. intros f Hf. by apply not_elem_of_nil in Hf. }
  destruct newfiles as [|f rest].
  { apply grows_refl. intros f Hf. by apply not_elem_of_nil in Hf. }
  cbn [check_newfiles]. destruct (check_newfile _ _ _ _ _ _ _ _ _ _ _) as [st1 skip] eqn:E.
  apply check_newfile_spec in E as [Hg Hskip]; [|done].
  set (rest' := if skip then _ else rest).
  pose proof (take_drop_while (λ g, strncmp f g (length f) =? 0) rest) as Htd.
  pose proof (take_while_Forall (λ g, strncmp f g (length f) =? 0) rest) as Htw.
  eapply grows_trans; [exact Hg|apply (IH rest' st1)|].
  - unfold rest'. destruct skip; [|simpl in Hn; lia].
    apply (f_equal length) in Htd. rewrite length_app in Htd. simpl in Hn. lia.
  - simpl. intros Hf Hrest g [->|Hin]%elem_of_cons; [by left|].
    set (inside := inside_replaced upgrade rem p1 dbpkg).
    assert (∀ x, inside rest' x → inside (f :: rest) x) as Hmono.
    { intros x (d & Hd & Hd'). exists d. split; [|done]. apply list_elem_of_further.
      unfold rest' in Hd. destruct skip; [|done]. rewrite <-Htd. apply elem_of_app. by right. }
    assert (g ∈ rest' → harmless upgrade rem p1 dbpkg g ∨ inside (f :: rest) g) as Hrec.
    { intros Hg'. destruct (Hrest g Hg') as [?|?]; [by left|right; by apply Hmono]. }
    destruct skip; [|by apply Hrec].
    rewrite <-Htd, elem_of_app in Hin. destruct Hin as [Hin|Hin]; [|by apply Hrec].
    right. exists f. split_and!; [apply list_elem_of_here|by apply Hskip|].
    rewrite Forall_forall in Htw. specialize (Htw g Hin). simpl in Htw. by apply Z.eqb_eq.
Qed.

Lemma fileconflicts_loop_spec fuel upgrade rem i st :
  PkgCache (h_db_local h) →
  grows (fcs_conflicts st) (fcs_conflicts (fileconflicts_loop env fs root h fuel upgrade rem i st))
    ((∀ l1 p1 l2 p2 l3, i = l1 ++ p1 :: l2 ++ p2 :: l3 → ∀ f,
        f ∈ alpm_filelist_intersection (file_names p1) (file_names p2) →
        can_overwrite f (root ++ f) = true ∧ owns f p2 = true) ∧
     (∀ p1 f, p1 ∈ i →
        let dbpkg := alpm_db_get_pkgfromcache (h_db_local h) (pkg_name p1) in
        f ∈ new_files p1 dbpkg →
        harmless upgrade rem p1 dbpkg f ∨
        inside_replaced upgrade rem p1 dbpkg (new_files p1 dbpkg) f)).
Proof.
  intros Hcache. revert st. induction i as [|p1 rest IH]; intros st; cbn [fileconflicts_loop].
  { apply grows_refl. split; [by intros [] ? ? ? ?|]. intros p1 f Hp. by apply not_elem_of_nil in Hp. }
  set (dbpkg := alpm_db_get_pkgfromcache _ _). set (newfiles := new_files p1 dbpkg).
  eapply grows_trans; [|eapply grows_trans; [|apply IH|]|].
  - apply (grows_fold (λ c p2, check_common env root h c p1 p2)
      (λ p2, ∀ f, f ∈ alpm_filelist_intersection (file_names p1) (file_names p2) →
             can_overwrite f (root ++ f) = true ∧ owns f p2 = true) rest (fcs_conflicts st)).
    intros c p2 _. apply check_common_grows.
  - apply (check_newfiles_spec fuel upgrade rem p1 dbpkg (length newfiles) newfiles
      (mk_fc _ (fcs_skip st))); done.
  - intros HP HQ. exact (conj HP HQ).
  - intros Hc [Hn [H1 H2]]. split.
    + intros [|q l1] q1 l2 q2 l3 E f Hf.
      * injection E as -> ->. apply (Hc q2); [|done]. apply elem_of_app. right. apply list_elem_of_here.
      * injection E as -> ->. by eapply (H1 l1 q1 l2 q2 l3).
    + intros q f [->|Hq]%elem_of_cons; [apply Hn|by apply H2].
Qed.
End fileconflict_facts.

(** The pairs reported. *)
Lemma innerconflicts_pairs packages :
  hashes_ok packages →
  NoDup (map conflict_pair (alpm_checkconflicts packages)) ∧
  ∀ n1 n2, (n1, n2) ∈ map conflict_pair (alpm_checkconflicts packages) ↔
    ∃ p1 p2, p1 ∈ packages ∧ p2 ∈ packages ∧ conflicts_with p1 p2 ∧
             n1 = pkg_name p1 ∧ n2 = pkg_name p2.
Proof.
  intros Hh. destruct (check_conflict_spec packages packages [] 0 Hh Hh conflicts_ok_nil) as [Hok Hr].
  split; [apply Hok|]. intros n1 n2. etrans; [apply (Hr (n1, n2))|]. unfold oriented. simpl.
  unfold reported. simpl. split.
  - intros [Hn|(p1 & Hp1 & p2 & Hp2 & Hc & [= -> ->])]; [by apply not_elem_of_nil in Hn|].
    exists p1, p2. done.
  - intros (p1 & p2 & Hp1 & Hp2 & Hc & -> & ->). right. exists p1. split; [done|]. by exists p2.
Qed.

Lemma outerconflicts_pairs db packages :
  PkgCache db → hashes_ok packages →
  ∀ n1 n2, (n1, n2) ∈ map conflict_pair (alpm_outerconflicts db packages) ↔
    ∃ t l, t ∈ packages ∧ l ∈ alpm_db_get_pkgcache db ∧ pkg_name l ∉ map pkg_name packages ∧
           (conflicts_with t l ∨ conflicts_with l t) ∧ n1 = pkg_name t ∧ n2 = pkg_name l.
Proof.
  intros Hdb Hh n1 n2. unfold alpm_outerconflicts.
  set (dblist := alpm_list_diff alpm_pkg_cmp (alpm_db_get_pkgcache db) packages).
  assert (hashes_ok dblist) as Hd by (apply diff_hashes, Hdb).
  assert (∀ l, l ∈ dblist ↔ l ∈ alpm_db_get_pkgcache db ∧ pkg_name l ∉ map pkg_name packages) as Hl.
  { intros l. unfold dblist. apply elem_of_diff_pkgs, cache_names. }
  destruct (check_conflict_spec packages dblist [] 1 Hh Hd conflicts_ok_nil) as [Hok1 Hr1].
  destruct (check_conflict_spec dblist packages _ (-1) Hd Hh Hok1) as [_ Hr2].
  etrans; [apply (Hr2 (n1, n2))|]. rewrite Hr1. unfold oriented, reported. simpl. split.
  - intros [[Hn|(t & Ht & l & Hll & Hc & [= -> ->])]|(l & Hll & t & Ht & Hc & [= -> ->])].
    + by apply not_elem_of_nil in Hn.
    + apply Hl in Hll as [? ?]. exists t, l. tauto.
    + apply Hl in Hll as [? ?]. exists t, l. tauto.
  - intros (t & l & Ht & Hc & Hn & [Hw|Hw] & -> & ->).
    + left. right. exists t. split; [done|]. exists l. split; [by apply Hl|done].
    + right. exists l. split; [by apply Hl|]. exists t. done.
Qed.

(** ** Properties *)

(** alpm_checkconflicts reports a pair of package names exactly when two
    packages of the list with these different names conflict: the second, or
    something it provides, matches a conflict of the first. No pair is reported
    twice. *)
Theorem checkconflicts_correct packages :
  hashes_ok packages →
  NoDup (map conflict_pair (alpm_checkconflicts packages)) ∧
  ∀ n1 n2, (n1, n2) ∈ map conflict_pair (alpm_checkconflicts packages) ↔
    ∃ p1 p2, p1 ∈ packages ∧ p2 ∈ packages ∧ conflicts_with p1 p2 ∧
             n1 = pkg_name p1 ∧ n2 = pkg_name p2.
Proof. apply innerconflicts_pairs. Qed.

(** _alpm_outerconflicts reports (target, installed) name pairs, and
    finds every conflict in either direction between a target and an installed
    package that is not itself a target. *)
Theorem outerconflicts_correct db packages :
  PkgCache db → hashes_ok packages →
  ∀ n1 n2, (n1, n2) ∈ map conflict_pair (alpm_outerconflicts db packages) ↔
    ∃ t l, t ∈ packages ∧ l ∈ alpm_db_get_pkgcache db ∧ pkg_name l ∉ map pkg_name packages ∧
           (conflicts_with t l ∨ conflicts_with l t) ∧ n1 = pkg_name t ∧ n2 = pkg_name l.
Proof. apply outerconflicts_pairs. Qed.

(** C9. When _alpm_db_find_fileconflicts reports nothing, the transaction
    overwrites nothing it must not: a non-directory file that two targets
    contain (ASCII names, sorted lists) is one the user allowed to overwrite;
    and every file of a target that its installed version does not have is
    absent from the file system, or a directory on both sides, or given up by
    the package it belongs to (the installed version, a removed package, the
    installed version of another target), or in place of a directory that only
    replaced and removed packages own, with all its contents; or it is an unowned
    file in the backup list; or the user allowed to overwrite it; or it lies
    inside a directory of the target that takes the place of a file which is
    given up in this way. *)
Theorem fileconflicts_safe env fs root h fuel upgrade rem skip skip' :
  PkgCache (h_db_local h) →
  alpm_db_find_fileconflicts env fs root h fuel upgrade rem skip = ([], skip') →
  (∀ l1 p1 l2 p2 l3 f, upgrade = l1 ++ p1 :: l2 ++ p2 :: l3 →
     Forall ascii_path (file_names p1) → Forall ascii_path (file_names p2) →
     sorted_names (file_names p1) → sorted_names (file_names p2) →
     f ∈ file_names p1 → f ∈ file_names p2 → is_dir_name f = false →
     alpm_can_overwrite_file env h f (root ++ f) = true) ∧
  (∀ p1 f, p1 ∈ upgrade →
     let dbpkg := alpm_db_get_pkgfromcache (h_db_local h) (pkg_name p1) in
     f ∈ new_files p1 dbpkg →
     harmless env fs root h upgrade rem p1 dbpkg f ∨
     inside_replaced fs root h upgrade rem p1 dbpkg (new_files p1 dbpkg) f).
Proof.
  unfold alpm_db_find_fileconflicts. intros Hc [= E _].
  destruct (fileconflicts_loop_spec env fs root h fuel upgrade rem upgrade (mk_fc [] skip) Hc)
    as (new & Hnew & Hfine). rewrite E in Hnew. simpl in Hnew. destruct (Hfine (eq_sym Hnew)) as [H1 H2].
  split; [|done]. intros l1 p1 l2 p2 l3 f Hup A1 A2 S1 S2 F1 F2 Hd.
  apply (H1 l1 p1 l2 p2 l3 Hup f). by apply intersection_complete.
Qed.

Definition ex_vi : alpm_pkg_t :=
  simple_pkg 1 (str "vi") (str "1-1") [] [] [ex_dep "vi-clone<2"] ALPM_PKG_REASON_EXPLICIT.
Definition ex_vim : alpm_pkg_t :=
  simple_pkg 2 (str "vim") (str "9-1") [] [ex_dep "vi-clone=1.5"] [] ALPM_PKG_REASON_EXPLICIT.

Lemma ex_conflict_hashes : hashes_ok [ex_vi; ex_vim].
Proof. repeat constructor. Qed.

Lemma checkconflicts_correct_witness :
  (str "vi", str "vim") ∈ map conflict_pair (alpm_checkconflicts [ex_vi; ex_vim]) ↔
    ∃ p1 p2, p1 ∈ [ex_vi; ex_vim] ∧ p2 ∈ [ex_vi; ex_vim] ∧ conflicts_with p1 p2 ∧
             str "vi" = pkg_name p1 ∧ str "vim" = pkg_name p2.
Proof. apply (checkconflicts_correct [ex_vi; ex_vim] ex_conflict_hashes). Defined.

Definition ex_vi_db : alpm_db_t := list_db (str "local") DB_STATUS_LOCAL [ex_vi].

Lemma outerconflicts_correct_witness :
  (str "vim", str "vi") ∈ map conflict_pair (alpm_outerconflicts ex_vi_db [ex_vim]) ↔
    ∃ t l, t ∈ [ex_vim] ∧ l ∈ alpm_db_get_pkgcache ex_vi_db ∧
           pkg_name l ∉ map pkg_name [ex_vim] ∧
           (conflicts_with t l ∨ conflicts_with l t) ∧ str "vim" = pkg_name t ∧ str "vi" = pkg_name l.
Proof.
  apply (outerconflicts_correct ex_vi_db [ex_vim]).
  - unfold ex_vi_db. concrete_cache.
  - repeat constructor.
Defined.

Example outerconflicts_example :
  map conflict_pair (alpm_outerconflicts ex_vi_db [ex_vim]) = [(str "vim", str "vi")].
Proof. vm_compute. reflexivity. Qed.

Definition with_files (p : alpm_pkg_t) (files : list cstr) : alpm_pkg_t :=
  mk_pkg (pkg_addr p) (pkg_name_hash p) None None (pkg_name p) (pkg_version p) None None None
    None None None 0 0 0 0 0 [] [] [] [] (pkg_depends p) [] [] [] (pkg_conflicts p)
    (pkg_provides p) [] None (map (λ f, mk_file f 0 0) files) (pkg_origin p) (pkg_reason p) 0 [] 0 0.

(** vim takes over the file of vi, which is removed; without the removal this is
    a conflict. *)
Definition ex_fs : filesystem :=
  mk_fs (λ p, if streq p (str "/usr") then Some true
              else if streq p (str "/usr/vi") then Some false else None) (λ _, None).
Definition ex_old_vi : alpm_pkg_t := with_files ex_vi (strs ["usr/"; "usr/vi"]).
Definition ex_new_vim : alpm_pkg_t := with_files ex_vim (strs ["usr/"; "usr/vi"]).
Definition ex_vi_handle : alpm_handle_t :=
  set_db_local (list_db (str "local") DB_STATUS_LOCAL [ex_old_vi]) empty_handle.

Example fileconflicts_example :
  map fc_file (alpm_db_find_fileconflicts no_callback ex_fs (str "/") ex_vi_handle 5 [ex_new_vim] [] []).1
  = [str "/usr/vi"].
Proof. vm_compute. reflexivity. Qed.

Lemma fileconflicts_safe_witness :
  alpm_db_find_fileconflicts no_callback ex_fs (str "/") ex_vi_handle 5
    [ex_new_vim] [ex_old_vi] [] = ([], []) ∧
  (harmless no_callback ex_fs (str "/") ex_vi_handle [ex_new_vim] [ex_old_vi] ex_new_vim None (str "usr/vi") ∨
   inside_replaced ex_fs (str "/") ex_vi_handle [ex_new_vim] [ex_old_vi] ex_new_vim None
     (strs ["usr/"; "usr/vi"]) (str "usr/vi")).
Proof.
  assert (alpm_db_find_fileconflicts no_callback ex_fs (str "/") ex_vi_handle 5
    [ex_new_vim] [ex_old_vi] [] = ([], [])) as E by (vm_compute; reflexivity).
  split; [exact E|].
  assert (PkgCache (h_db_local ex_vi_handle)) as Hc
    by (unfold ex_vi_handle; cbn [h_db_local set_db_local]; concrete_cache).
  apply (proj2 (fileconflicts_safe _ _ _ _ _ _ _ _ _ Hc E) ex_new_vim (str "usr/vi")).
  - apply list_elem_of_here.
  - exact (list_elem_of_further (str "usr/vi") (str "usr/") [str "usr/vi"] (list_elem_of_here _ _)).
Defined.
