(* ===== verification/Remove.v ===== *)
(** * Preparing removals

    lib/libalpm/remove.c: alpm_remove_pkg and _alpm_remove_prepare with its two
    repair strategies, which pull in the packages that would break
    ([remove_prepare_cascade]) or keep the ones that are needed
    ([remove_prepare_keep_needed]). Both loops call alpm_checkdeps until it
    reports nothing; [None] stands for a loop that has run out of fuel, which
    the theorems exclude. All packages belong to the one handle of the model,
    so the test [handle == pkg->handle] holds. *)
From S2P Require Import Prelude CString AlpmList Util Package PkgHash Handle Deps RecurseDeps.
Local Open Scope Z_scope.

(** alpm_remove_pkg *)
Definition alpm_remove_pkg (h : alpm_handle_t) (pkg : option alpm_pkg_t) : alpm_handle_t * Z :=
  let h := check_handle h in
  match pkg with
  | None => ret_err ALPM_ERR_WRONG_ARGS h
  | Some pkg =>
      match pkg_origin pkg, h_trans h with
      | ALPM_PKG_FROM_LOCALDB _, None => ret_err ALPM_ERR_TRANS_NULL h
      | ALPM_PKG_FROM_LOCALDB _, Some trans =>
          if negb (bool_decide (t_state trans = STATE_INITIALIZED))
          then ret_err ALPM_ERR_TRANS_NOT_INITIALIZED h
          else if is_some (alpm_pkg_find (t_remove trans) (pkg_name pkg)) then (h, 0)
          else
            let '(copy, h) := dup_pkg h pkg in
            (upd_trans (with_remove (t_remove trans ++ [copy])) h, 0)
      | _, _ => ret_err ALPM_ERR_WRONG_ARGS h
      end
  end.

(** alpm_checkdeps on the local packages and the removal targets, with reverse
    dependencies. *)
Definition removal_check (h : alpm_handle_t) : list alpm_depmissing_t :=
  alpm_checkdeps h (alpm_db_get_pkgcache (h_db_local h)) (trans_remove h) [] true.

(** The body of the inner loop of remove_prepare_cascade. *)
Definition cascade_one (h : alpm_handle_t) (miss : alpm_depmissing_t) : alpm_handle_t :=
  match alpm_db_get_pkgfromcache (h_db_local h) (miss_target miss) with
  | Some info =>
      if is_some (alpm_pkg_find (trans_remove h) (pkg_name info)) then h
      else let '(copy, h) := dup_pkg h info in
           upd_trans (with_remove (trans_remove h ++ [copy])) h
  | None => h
  end.

Fixpoint remove_prepare_cascade (fuel : nat) (h : alpm_handle_t) (lp : list alpm_depmissing_t)
    : option alpm_handle_t :=
  match lp, fuel with
  | [], _ => Some h
  | _, O => None
  | _, S fuel' =>
      let h := fold_left cascade_one lp h in
      remove_prepare_cascade fuel' (check_handle h) (removal_check h)
  end.

(** The body of the inner loop of remove_prepare_keep_needed;
    alpm_pkg_find of a NULL name finds nothing. *)
Definition keep_one (h : alpm_handle_t) (miss : alpm_depmissing_t) : alpm_handle_t :=
  match miss_causingpkg miss with
  | None => h
  | Some name =>
      match alpm_pkg_find (trans_remove h) name with
      | None => h
      | Some pkg =>
          upd_trans (with_remove (alpm_list_remove alpm_pkg_cmp (trans_remove h) pkg).1) h
      end
  end.

Fixpoint remove_prepare_keep_needed (fuel : nat) (h : alpm_handle_t)
    (lp : list alpm_depmissing_t) : option alpm_handle_t :=
  match lp, fuel with
  | [], _ => Some h
  | _, O => None
  | _, S fuel' =>
      let h := fold_left keep_one lp h in
      remove_prepare_keep_needed fuel' (check_handle h) (removal_check h)
  end.

(** remove_notify_needed_optdepends: the ALPM_EVENT_OPTDEP_REMOVAL events. *)
Definition remove_notify_needed_optdepends (h : alpm_handle_t) (lp : list alpm_pkg_t)
    : list (alpm_pkg_t * alpm_depend_t) :=
  flat_map (λ pkg,
    if negb (is_some (alpm_pkg_find lp (pkg_name pkg)))
    then map (pair pkg) (List.filter (λ optdep,
           is_some (alpm_find_satisfier lp (alpm_dep_compute_string optdep))) (pkg_optdepends pkg))
    else []) (alpm_db_get_pkgcache (h_db_local h)).

(** _alpm_recursedeps on the removal targets. *)
Definition recurse_remove (h : alpm_handle_t) : alpm_handle_t :=
  let targs := trans_remove h in
  let targs' := alpm_recursedeps (h_next h) (alpm_db_get_pkgcache (h_db_local h)) targs
                  (has_flag (trans_flags h) ALPM_TRANS_FLAG_RECURSEALL) in
  upd_trans (with_remove targs') (set_next (h_next h + (length targs' - length targs))%nat h).

(** The result of _alpm_remove_prepare: the handle, the return code, what is
    stored through [data], and the optional dependencies announced. *)
Record prepare_result := mk_prepare {
  rp_handle : alpm_handle_t;
  rp_ret : Z;
  rp_data : list alpm_depmissing_t;
  rp_optdeps : list (alpm_pkg_t * alpm_depend_t)
}.

(** The end of _alpm_remove_prepare, after the dependency check. *)
Definition remove_finish (h : alpm_handle_t) : prepare_result :=
  let flags := trans_flags h in
  let h := if has_flag flags ALPM_TRANS_FLAG_CASCADE && has_flag flags ALPM_TRANS_FLAG_RECURSE
           then recurse_remove h else h in
  mk_prepare h 0 []
    (if negb (has_flag flags ALPM_TRANS_FLAG_NODEPS)
     then remove_notify_needed_optdepends h (trans_remove h) else []).

Definition alpm_remove_prepare (h : alpm_handle_t) : option prepare_result :=
  let flags := trans_flags h in
  let h := if has_flag flags ALPM_TRANS_FLAG_RECURSE
              && negb (has_flag flags ALPM_TRANS_FLAG_CASCADE)
           then recurse_remove h else h in
  if negb (has_flag flags ALPM_TRANS_FLAG_NODEPS) then
    let lp := removal_check h in
    let h := check_handle h in
    match lp with
    | [] => Some (remove_finish h)
    | _ =>
        if has_flag flags ALPM_TRANS_FLAG_CASCADE then
          remove_finish <$>
            remove_prepare_cascade (S (length (alpm_db_get_pkgcache (h_db_local h)))) h lp
        else if has_flag flags ALPM_TRANS_FLAG_UNNEEDED then
          remove_finish <$> remove_prepare_keep_needed (S (length (trans_remove h))) h lp
        else
          let '(h, rc) := ret_err ALPM_ERR_UNSATISFIED_DEPS h in
          Some (mk_prepare h rc lp [])
    end
  else Some (remove_finish h).

(** ** Facts *)

(** What the removal operations leave alone. *)
Record same_system (h h' : alpm_handle_t) : Prop := {
  ss_local : h_db_local h' = h_db_local h;
  ss_assume : h_assumeinstalled h' = h_assumeinstalled h;
  ss_flags : trans_flags h' = trans_flags h;
  ss_trans : is_Some (h_trans h) → is_Some (h_trans h')
}.

Lemma same_system_refl h : same_system h h.
Proof. by split. Qed.

Lemma same_system_trans h1 h2 h3 :
  same_system h1 h2 → same_system h2 h3 → same_system h1 h3.
Proof.
  intros [A1 A2 A3 A4] [B1 B2 B3 B4]. split; [congruence..|]. eauto.
Qed.

Lemma same_system_upd f h e n :
  (∀ t, t_flags (f t) = t_flags t) →
  same_system h (upd_trans f h) ∧ same_system h (set_errno e h) ∧ same_system h (set_next n h).
Proof.
  intros Hf. split_and!; split; try done.
  - unfold trans_flags, upd_trans. simpl. destruct (h_trans h); simpl; [apply Hf|done].
  - unfold upd_trans. simpl. by intros [t ->].
Qed.

Lemma no_dep_version_flags h :
  no_dep_version h = has_flag (trans_flags h) ALPM_TRANS_FLAG_NODEPVERSION.
Proof. unfold no_dep_version, trans_flags. by destruct (h_trans h). Qed.

Lemma checkdeps_same h h' l rem up rev :
  same_system h h' → alpm_checkdeps h' l rem up rev = alpm_checkdeps h l rem up rev.
Proof.
  intros [_ Ha Hf _]. unfold alpm_checkdeps. by rewrite !no_dep_version_flags, Ha, Hf.
Qed.

Lemma upd_remove h l : is_Some (h_trans h) → trans_remove (upd_trans (with_remove l) h) = l.
Proof. intros [t Ht]. unfold trans_remove, upd_trans. simpl. by rewrite Ht. Qed.

Lemma dup_pkg_trans h p copy h' :
  dup_pkg h p = (copy, h') →
  same_system h h' ∧ trans_remove h' = trans_remove h ∧ trans_add h' = trans_add h ∧
  pkg_name copy = pkg_name p ∧ (pkg_hash_ok p → pkg_hash_ok copy).
Proof.
  unfold dup_pkg. intros [= <- <-].
  destruct (same_system_upd id h ALPM_ERR_OK (S (h_next h))) as (_ & _ & H); [done|].
  split_and!; done.
Qed.

(** The packages a removal leaves installed. *)
Definition kept (cache rem : list alpm_pkg_t) : list alpm_pkg_t :=
  List.filter (λ p, negb (is_modified rem [] p)) cache.

Lemma is_modified_names rem p :
  hashes_ok rem → is_modified rem [] p = true ↔ pkg_name p ∈ map pkg_name rem.
Proof.
  intros Hr. unfold is_modified. rewrite orb_true_iff, is_some_true, pkg_find_is_Some by done.
  simpl. split; [by intros [?|?]|by left].
Qed.

Lemma elem_of_kept cache rem p :
  hashes_ok rem → p ∈ kept cache rem ↔ p ∈ cache ∧ pkg_name p ∉ map pkg_name rem.
Proof.
  intros Hr. unfold kept. rewrite elem_of_bfilter, negb_true_iff, <-not_true_iff_false.
  by rewrite is_modified_names.
Qed.

(** A report of the removal check: an installed package that stays needs a
    package that goes, and nothing that stays can replace it. *)
Definition breaks (h : alpm_handle_t) (cache rem : list alpm_pkg_t) (p : alpm_pkg_t)
    (d : alpm_depend_t) (c : alpm_pkg_t) : Prop :=
  p ∈ cache ∧ pkg_name p ∉ map pkg_name rem ∧ d ∈ pkg_depends p ∧
  c ∈ cache ∧ pkg_name c ∈ map pkg_name rem ∧
  alpm_depcmp c (relax (no_dep_version h) d) = true ∧
  ¬ sat (kept cache rem) (h_assumeinstalled h) (relax (no_dep_version h) d).

Lemma removal_elem h cache rem m :
  hashes_ok rem → m ∈ alpm_checkdeps h cache rem [] true →
  ∃ p d c, breaks h cache rem p d c ∧ miss_target m = pkg_name p ∧
           miss_causingpkg m = Some (pkg_name c).
Proof.
  intros Hr. rewrite elem_of_checkdeps.
  intros [(p & d & Hp & _)|(_ & p & d & c & Hp & Hd & Hc & Hs & ->)];
    [by apply not_elem_of_nil in Hp|].
  apply elem_of_kept in Hp as [Hp Hpn]; [|done].
  apply find_dep_satisfier_Some in Hc as [Hc Hcd]. apply elem_of_bfilter in Hc as [Hc Hcm].
  apply is_modified_names in Hcm; [|done]. exists p, d, c. done.
Qed.

Lemma breaks_reported h cache rem p d c :
  hashes_ok rem → breaks h cache rem p d c → alpm_checkdeps h cache rem [] true ≠ [].
Proof.
  intros Hr (Hp & Hpn & Hd & Hc & Hcn & Hcd & Hs) E.
  destruct (checkdeps_nil h cache rem [] true E) as [_ H].
  apply Hs. apply (H eq_refl p d); [by apply elem_of_kept|done|].
  left. by exists c.
Qed.

(** Removing more breaks more. *)
Lemma breaks_mono h cache rem rem' p d c :
  hashes_ok rem → hashes_ok rem' →
  (∀ n, n ∈ map pkg_name rem → n ∈ map pkg_name rem') →
  breaks h cache rem p d c → pkg_name p ∉ map pkg_name rem' → breaks h cache rem' p d c.
Proof.
  intros Hr Hr' Hsub (Hp & Hpn & Hd & Hc & Hcn & Hcd & Hs) Hn.
  split_and!; try done; [by apply Hsub|]. intros Hs'. apply Hs.
  eapply sat_perm; [|exact Hs']. intros q. rewrite !elem_of_kept by done.
  intros [Hq Hqn]. split; [done|]. intros Hin. by apply Hqn, Hsub.
Qed.

Lemma hashes_ok_sublist l l' : l `sublist_of` l' → hashes_ok l' → hashes_ok l.
Proof.
  intros Hs. unfold hashes_ok. rewrite !Forall_forall. intros H q Hq.
  apply H. by eapply elem_of_sublist.
Qed.

Lemma hashes_ok_app l l' : hashes_ok (l ++ l') ↔ hashes_ok l ∧ hashes_ok l'.
Proof. apply Forall_app. Qed.

(** The effect of pulling packages into the targets. *)
Record cascaded (S : cstr → Prop) (h h' : alpm_handle_t) : Prop := {
  ca_same : same_system h h';
  ca_added : ∃ added, trans_remove h' = trans_remove h ++ added ∧ hashes_ok added ∧
    ∀ p, p ∈ added → pkg_name p ∈ map pkg_name (alpm_db_get_pkgcache (h_db_local h)) ∧
                     S (pkg_name p)
}.

Lemma cascaded_trans (S1 S2 S3 : cstr → Prop) h1 h2 h3 :
  cascaded S1 h1 h2 → cascaded S2 h2 h3 → (∀ n, S1 n → S3 n) → (∀ n, S2 n → S3 n) →
  cascaded S3 h1 h3.
Proof.
  intros [A1 (l1 & E1 & H1 & P1)] [A2 (l2 & E2 & H2 & P2)] Hs1 Hs2.
  split; [by eapply same_system_trans|]. exists (l1 ++ l2). rewrite E2, E1, app_assoc.
  split_and!; [done|by apply hashes_ok_app|]. rewrite (ss_local _ _ A1) in P2.
  intros p [Hp|Hp]%elem_of_app.
  - destruct (P1 p Hp). auto.
  - destruct (P2 p Hp). auto.
Qed.

Lemma cascade_one_spec h m :
  PkgCache (h_db_local h) → is_Some (h_trans h) → hashes_ok (trans_remove h) →
  cascaded (λ n, n = miss_target m) h (cascade_one h m) ∧
  (miss_target m ∈ map pkg_name (alpm_db_get_pkgcache (h_db_local h)) →
   miss_target m ∈ map pkg_name (trans_remove (cascade_one h m))).
Proof.
  intros Hc Ht Hr. unfold cascade_one.
  destruct (alpm_db_get_pkgfromcache (h_db_local h) (miss_target m)) as [info|] eqn:E.
  2:{ split.
      - split; [apply same_system_refl|]. exists []. rewrite app_nil_r.
        split_and!; [done|constructor|]. intros p Hp. by apply not_elem_of_nil in Hp.
      - apply cache_lookup_None in E; done. }
  apply cache_lookup_Some in E as [Hin Hn]; [|done]. rewrite Hn.
  destruct (alpm_pkg_find (trans_remove h) (miss_target m)) as [q|] eqn:Ef; cbn [is_some].
  - split.
    + split; [apply same_system_refl|]. exists []. rewrite app_nil_r.
      split_and!; [done|constructor|]. intros p Hp. by apply not_elem_of_nil in Hp.
    + intros _. apply pkg_find_is_Some; [done|by rewrite Ef].
  - destruct (dup_pkg h info) as [copy h1] eqn:Ed.
    destruct (dup_pkg_trans _ _ _ _ Ed) as (Hs & Hrem & _ & Hcn & Hch).
    assert (pkg_hash_ok copy) as Hco.
    { apply Hch. pose proof (@cache_hashes _ Hc) as Hh. unfold hashes_ok in Hh.
      rewrite Forall_forall in Hh. by apply Hh. }
    destruct (same_system_upd (with_remove (trans_remove h1 ++ [copy])) h1 ALPM_ERR_OK 0%nat)
      as (Hs' & _); [done|].
    assert (trans_remove (upd_trans (with_remove (trans_remove h1 ++ [copy])) h1) =
            trans_remove h ++ [copy]) as Er.
    { rewrite upd_remove, Hrem; [done|]. by apply (ss_trans _ _ Hs). }
    split.
    + split; [by eapply same_system_trans|]. exists [copy]. rewrite Er.
      split_and!; [done|by repeat constructor|]. intros p ->%list_elem_of_singleton.
      rewrite Hcn, Hn. split; [|done]. rewrite <-Hn. by apply list_elem_of_fmap_2.
    + intros _. rewrite Er, map_app, elem_of_app. right. simpl. rewrite Hcn, Hn.
      apply list_elem_of_here.
Qed.

Lemma cascade_fold_spec lp h :
  PkgCache (h_db_local h) → is_Some (h_trans h) → hashes_ok (trans_remove h) →
  cascaded (λ n, ∃ m, m ∈ lp ∧ n = miss_target m) h (fold_left cascade_one lp h) ∧
  ∀ m, m ∈ lp → miss_target m ∈ map pkg_name (alpm_db_get_pkgcache (h_db_local h)) →
       miss_target m ∈ map pkg_name (trans_remove (fold_left cascade_one lp h)).
Proof.
  revert h. induction lp as [|m lp IH]; intros h Hc Ht Hr; simpl.
  - split.
    + split; [apply same_system_refl|]. exists []. rewrite app_nil_r.
      split_and!; [done|constructor|]. intros p Hp. by apply not_elem_of_nil in Hp.
    + intros m Hm. by apply not_elem_of_nil in Hm.
  - destruct (cascade_one_spec h m Hc Ht Hr) as [H1 H2].
    pose proof H1 as [[Sl Sa Sf St] (l1 & E1 & Hl1 & _)].
    destruct (IH (cascade_one h m)) as [H3 H4].
    + by rewrite Sl.
    + by apply St.
    + rewrite E1. by apply hashes_ok_app.
    + split.
      * eapply cascaded_trans; [exact H1|exact H3|..].
        -- intros n ->. exists m. split; [apply list_elem_of_here|done].
        -- intros n (m' & Hm' & ->). exists m'. split; [by apply list_elem_of_further|done].
      * intros m' Hm' Hin. apply elem_of_cons in Hm' as [->|Hm'].
        -- destruct H3 as [_ (l2 & -> & _)]. rewrite map_app. apply elem_of_app. left. by apply H2.
        -- apply H4; [done|]. by rewrite Sl.
Qed.

Lemma cascade_loop fuel h :
  PkgCache (h_db_local h) → is_Some (h_trans h) → hashes_ok (trans_remove h) →
  let cache := alpm_db_get_pkgcache (h_db_local h) in
  (length (kept cache (trans_remove h)) < fuel)%nat →
  ∃ h', remove_prepare_cascade fuel h (removal_check h) = Some h' ∧
    cascaded (λ _, True) h h' ∧ removal_check h' = [] ∧
    ∀ R, hashes_ok R → (∀ n, n ∈ map pkg_name (trans_remove h) → n ∈ map pkg_name R) →
         alpm_checkdeps h cache R [] true = [] →
         ∀ n, n ∈ map pkg_name (trans_remove h') → n ∈ map pkg_name R.
Proof.
  revert h. induction fuel as [|fuel IH]; intros h Hc Ht Hr cache Hlt; [lia|].
  destruct (removal_check h) as [|m lp] eqn:E; cbn [remove_prepare_cascade].
  { exists h. split_and!; [done| |done|by auto]. split; [apply same_system_refl|].
    exists []. rewrite app_nil_r. split_and!; [done|constructor|].
    intros p Hp. by apply not_elem_of_nil in Hp. }
  rewrite <-E. set (lp0 := removal_check h) in *.
  destruct (cascade_fold_spec lp0 h Hc Ht Hr) as [Hca Htg].
  set (h1 := fold_left cascade_one lp0 h) in *.
  pose proof Hca as [Hs (added & Er & Hadd & Padd)]. destruct (Hs) as [Sl Sa Sf St].
  assert (hashes_ok (trans_remove h1)) as Hr1 by (rewrite Er; by apply hashes_ok_app).
  (* every report names an installed package that is not yet a target *)
  assert (∀ m', m' ∈ lp0 → ∃ p d c, breaks h cache (trans_remove h) p d c ∧
            miss_target m' = pkg_name p) as Hrep.
  { intros m' Hm'. destruct (removal_elem h cache _ m' Hr Hm') as (p & d & c & Hb & ? & _). eauto. }
  destruct (IH (check_handle h1)) as (h' & E' & Hca' & Hnil & Hmin).
  - change (PkgCache (h_db_local h1)). by rewrite Sl.
  - by apply St.
  - done.
  - change (h_db_local (check_handle h1)) with (h_db_local h1). rewrite Sl. fold cache.
    assert (m ∈ lp0) as Hm by (rewrite E; apply list_elem_of_here).
    destruct (Hrep m Hm) as (p & d & c & (Hp & Hpn & _) & Emt).
    eapply Nat.lt_le_trans; [|by apply Nat.lt_succ_r].
    change (trans_remove (check_handle h1)) with (trans_remove h1).
    apply (bfilter_length_lt _ _ cache p).
    + intros y. rewrite !negb_true_iff, <-!not_true_iff_false, !is_modified_names by done.
      rewrite Er, map_app, elem_of_app. tauto.
    + done.
    + rewrite negb_true_iff, <-not_true_iff_false, is_modified_names by done. done.
    + rewrite negb_false_iff, is_modified_names by done. rewrite <-Emt. apply Htg; [done|].
      rewrite Emt. by apply list_elem_of_fmap_2.
  - exists h'. split_and!.
    + exact E'.
    + eapply cascaded_trans; [exact Hca| |by auto..].
      eapply cascaded_trans; [|exact Hca'|by auto..].
      split; [apply same_system_upd with (f := id) (n := 0%nat); done|].
      exists []. rewrite app_nil_r. split_and!; [done|constructor|].
      intros p Hp. by apply not_elem_of_nil in Hp.
    + done.
    + intros R HR Hsub HRnil. apply Hmin; [done| |].
      2:{ change (h_db_local (check_handle h1)) with (h_db_local h1). rewrite Sl.
          rewrite (checkdeps_same h1 (check_handle h1)), (checkdeps_same h h1); [done|done|].
          by apply same_system_upd with (f := id) (n := 0%nat). }
      change (trans_remove (check_handle h1)) with (trans_remove h1).
      intros n. rewrite Er, map_app, elem_of_app. intros [Hn|Hn]; [by apply Hsub|].
      apply list_elem_of_fmap in Hn as (q & -> & Hq).
      destruct (Padd q Hq) as [_ (m' & Hm' & ->)].
      destruct (Hrep m' Hm') as (p & d & c & Hb & ->).
      destruct (decide (pkg_name p ∈ map pkg_name R)) as [?|Hpn]; [done|]. exfalso.
      by eapply breaks_reported; [exact HR|eapply breaks_mono; [exact Hr|exact HR|done..]|].
Qed.

(** The effect of keeping packages: targets are dropped, each for a reason. *)
Record relented (D : cstr → Prop) (h h' : alpm_handle_t) : Prop := {
  re_same : same_system h h';
  re_sub : trans_remove h' `sublist_of` trans_remove h;
  re_dropped : ∀ q, q ∈ trans_remove h → q ∈ trans_remove h' ∨ D (pkg_name q)
}.

Lemma relented_refl D h : relented D h h.
Proof. split; [apply same_system_refl|done|by left]. Qed.

Lemma relented_trans (D1 D2 D3 : cstr → Prop) h1 h2 h3 :
  relented D1 h1 h2 → relented D2 h2 h3 → (∀ n, D1 n → D3 n) → (∀ n, D2 n → D3 n) →
  relented D3 h1 h3.
Proof.
  intros [A1 A2 A3] [B1 B2 B3] H1 H2.
  split; [by eapply same_system_trans|by etrans|]. intros q Hq.
  destruct (A3 q Hq) as [Hq'|]; [|by auto]. destruct (B3 q Hq') as [|]; auto.
Qed.

Lemma relented_errno D e h : relented D h (set_errno e h).
Proof.
  split; [|done|by left]. by apply same_system_upd with (f := id) (n := 0%nat).
Qed.

Lemma keep_one_spec h m :
  is_Some (h_trans h) → hashes_ok (trans_remove h) →
  relented (λ n, miss_causingpkg m = Some n) h (keep_one h m) ∧
  ∀ n, miss_causingpkg m = Some n → n ∈ map pkg_name (trans_remove h) →
       (length (trans_remove (keep_one h m)) < length (trans_remove h))%nat.
Proof.
  intros Ht Hr. unfold keep_one. destruct (miss_causingpkg m) as [name|] eqn:Em.
  2:{ split; [apply relented_refl|done]. }
  destruct (alpm_pkg_find (trans_remove h) name) as [pkg|] eqn:Ef.
  2:{ split; [apply relented_refl|]. intros n [= <-] Hn.
      by apply pkg_find_None in Ef. }
  apply pkg_find_Some in Ef as [Hin Hn].
  pose proof (list_remove_spec alpm_pkg_cmp (trans_remove h) pkg) as H.
  pose proof (list_remove_sublist alpm_pkg_cmp (trans_remove h) pkg) as Hsub.
  destruct (alpm_list_remove alpm_pkg_cmp (trans_remove h) pkg) as [l' [x|]]; cbn [fst] in *.
  2:{ destruct H as [_ H]. destruct (H pkg Hin). unfold alpm_pkg_cmp. apply strcmp_refl. }
  destruct H as (l1 & l2 & El & El' & Hx & _). unfold alpm_pkg_cmp in Hx. apply strcmp_eq in Hx.
  split.
  - split.
    + by apply same_system_upd with (e := ALPM_ERR_OK) (n := 0%nat).
    + by rewrite upd_remove.
    + rewrite upd_remove by done. intros q. rewrite El, El'. rewrite !elem_of_app, elem_of_cons.
      intros [?|[->|?]]; [by auto| |by auto]. right. congruence.
  - intros n [= <-] _. rewrite upd_remove by done. rewrite El, El', !length_app. simpl. lia.
Qed.

Lemma keep_fold_spec lp h :
  is_Some (h_trans h) → hashes_ok (trans_remove h) →
  relented (λ n, ∃ m, m ∈ lp ∧ miss_causingpkg m = Some n) h (fold_left keep_one lp h).
Proof.
  revert h. induction lp as [|m lp IH]; intros h Ht Hr; simpl; [apply relented_refl|].
  destruct (keep_one_spec h m Ht Hr) as [H1 _]. pose proof H1 as [[_ _ _ St] Hsub _].
  eapply relented_trans; [exact H1|apply IH|..].
  - by apply St.
  - by eapply hashes_ok_sublist.
  - intros n Hn. exists m. split; [apply list_elem_of_here|done].
  - intros n (m' & Hm' & Hn). exists m'. split; [by apply list_elem_of_further|done].
Qed.

(** An installed package that stays installed and a dependency of it that an
    installed package of the given name satisfies. *)
Definition needed_by_kept (h h' : alpm_handle_t) (n : cstr) : Prop :=
  ∃ p d c, p ∈ alpm_db_get_pkgcache (h_db_local h) ∧
    pkg_name p ∉ map pkg_name (trans_remove h') ∧ d ∈ pkg_depends p ∧
    c ∈ alpm_db_get_pkgcache (h_db_local h) ∧ pkg_name c = n ∧
    alpm_depcmp c (relax (no_dep_version h) d) = true.

Lemma keep_loop fuel h :
  is_Some (h_trans h) → hashes_ok (trans_remove h) →
  (length (trans_remove h) < fuel)%nat →
  ∃ h', remove_prepare_keep_needed fuel h (removal_check h) = Some h' ∧
    removal_check h' = [] ∧ relented (needed_by_kept h h') h h'.
Proof.
  revert h. induction fuel as [|fuel IH]; intros h Ht Hr Hlt; [lia|].
  destruct (removal_check h) as [|m lp] eqn:E; cbn [remove_prepare_keep_needed].
  { exists h. split_and!; [done|done|apply relented_refl]. }
  rewrite <-E. set (lp0 := removal_check h) in *. set (cache := alpm_db_get_pkgcache (h_db_local h)).
  pose proof (keep_fold_spec lp0 h Ht Hr) as Hre.
  set (h1 := fold_left keep_one lp0 h) in *.
  pose proof Hre as [[Sl Sa Sf St] Hsub Hdr].
  assert (hashes_ok (trans_remove h1)) as Hr1 by (by eapply hashes_ok_sublist).
  assert (∀ m', m' ∈ lp0 → ∃ p d c, breaks h cache (trans_remove h) p d c ∧
            miss_causingpkg m' = Some (pkg_name c)) as Hrep.
  { intros m' Hm'. destruct (removal_elem h cache _ m' Hr Hm') as (p & d & c & Hb & _ & ?). eauto. }
  assert (length (trans_remove h1) < length (trans_remove h))%nat as Hdec.
  { assert (m ∈ lp0) as Hm by (rewrite E; apply list_elem_of_here).
    destruct (Hrep m Hm) as (p & d & c & (_ & _ & _ & _ & Hcn & _) & Emc).
    unfold h1. rewrite E. simpl.
    destruct (keep_one_spec h m Ht Hr) as [[[_ _ _ St'] Hsub' _] Hl].
    specialize (Hl _ Emc Hcn).
    assert (hashes_ok (trans_remove (keep_one h m))) as Hr'
      by (by eapply hashes_ok_sublist).
    destruct (keep_fold_spec lp (keep_one h m) (St' Ht) Hr') as [_ Hs2 _].
    apply sublist_length in Hs2. lia. }
  destruct (IH (check_handle h1)) as (h' & E' & Hnil & Hre').
  - by apply St.
  - done.
  - change (trans_remove (check_handle h1)) with (trans_remove h1). lia.
  - exists h'. split_and!; [exact E'|done|].
    pose proof (re_sub _ _ _ Hre') as Hsub2.
    eapply relented_trans; [exact Hre| |..].
    + eapply relented_trans; [apply relented_errno|exact Hre'| |intros n Hn; exact Hn].
      intros n Hn. exact Hn.
    + intros n (m' & Hm' & Emc). destruct (Hrep m' Hm') as (p & d & c & Hb & Emc').
      destruct Hb as (Hp & Hpn & Hd & Hc & Hcn & Hcd & _).
      exists p, d, c. split_and!; try done; [|congruence].
      intros Hin. apply Hpn. apply list_elem_of_fmap in Hin as (q & -> & Hq).
      apply list_elem_of_fmap_2. eapply elem_of_sublist; [|exact Hsub].
      by eapply elem_of_sublist.
    + intros n (p & d & c & Hp & Hpn & Hd & Hc & Hcn & Hcd).
      change (h_db_local (check_handle h1)) with (h_db_local h1) in *. rewrite Sl in *.
      rewrite no_dep_version_flags in Hcd.
      change (trans_flags (check_handle h1)) with (trans_flags h1) in Hcd. rewrite Sf in Hcd.
      rewrite <-no_dep_version_flags in Hcd. by exists p, d, c.
Qed.

Lemma recurse_remove_spec h :
  PkgCache (h_db_local h) → is_Some (h_trans h) → hashes_ok (trans_remove h) →
  let cache := alpm_db_get_pkgcache (h_db_local h) in
  same_system h (recurse_remove h) ∧
  ∃ copies, trans_remove (recurse_remove h) = trans_remove h ++ copies ∧
    hashes_ok copies ∧
    (∀ n, n ∈ map pkg_name copies → n ∈ map pkg_name cache) ∧
    ∀ k c d, k ∈ cache → pkg_name k ∉ map pkg_name (trans_remove (recurse_remove h)) →
             c ∈ cache → pkg_name c ∈ map pkg_name copies → d ∈ pkg_depends k →
             alpm_depcmp c d = false.
Proof.
  intros Hc Ht Hr cache. unfold recurse_remove. fold cache.
  destruct (recursedeps_spec (h_next h) cache (trans_remove h)
    (has_flag (trans_flags h) ALPM_TRANS_FLAG_RECURSEALL) (@cache_names _ Hc))
    as (rem & copies & E & En & Hh & Hin & Hsafe).
  rewrite E. split.
  { eapply same_system_trans; [apply same_system_upd with (f := id) (e := ALPM_ERR_OK); done|].
    apply same_system_upd with (e := ALPM_ERR_OK) (n := 0%nat). done. }
  exists copies. rewrite upd_remove by done. split_and!.
  - done.
  - apply Hh, cache_hashes.
  - intros n. rewrite En. intros (r & -> & Hr')%list_elem_of_fmap.
    apply list_elem_of_fmap_2. by apply Hin.
  - intros k c d Hk Hkn Hcc Hcn Hd. rewrite map_app, elem_of_app in Hkn.
    rewrite En in Hcn. apply list_elem_of_fmap in Hcn as (r & Ecr & Hr').
    assert (c = r) as ->.
    { apply (NoDup_map_inj pkg_name cache); [apply cache_names|done|by apply Hin|done]. }
    assert (alpm_pkg_depends_on k r = false) as Hf.
    { apply Hsafe; [done|tauto| |done]. intros Hkr. apply Hkn. right. rewrite En.
      by apply list_elem_of_fmap_2. }
    unfold alpm_pkg_depends_on in Hf. rewrite <-not_true_iff_false, existsb_exists in Hf.
    apply not_true_iff_false. intros Hd'. apply Hf. exists d. split; [by apply list_elem_of_In|done].
Qed.

(** Every dependency of a package that stays installed which was satisfied
    before the removal is satisfied after it. *)
Definition intact (h : alpm_handle_t) (rem : list alpm_pkg_t) : Prop :=
  let cache := alpm_db_get_pkgcache (h_db_local h) in
  let relaxed := relax (no_dep_version h) in
  ∀ p d, p ∈ cache → pkg_name p ∉ map pkg_name rem → d ∈ pkg_depends p →
         sat cache (h_assumeinstalled h) (relaxed d) →
         sat (kept cache rem) (h_assumeinstalled h) (relaxed d).

Lemma intact_same h h' rem : same_system h h' → intact h' rem ↔ intact h rem.
Proof.
  intros [Hl Ha Hf _]. unfold intact. by rewrite !no_dep_version_flags, Hl, Ha, Hf.
Qed.

Lemma removal_check_intact h :
  hashes_ok (trans_remove h) → removal_check h = [] → intact h (trans_remove h).
Proof.
  intros Hr Hn p d Hp Hpn Hd Hs. unfold removal_check in Hn.
  destruct (checkdeps_nil _ _ _ _ _ Hn) as [_ H].
  apply (H eq_refl p d); [by apply elem_of_kept|done|done].
Qed.

Lemma relax_false d : relax false d = d.
Proof. done. Qed.

Lemma recurse_intact h :
  PkgCache (h_db_local h) → is_Some (h_trans h) → hashes_ok (trans_remove h) →
  no_dep_version h = false → intact h (trans_remove h) →
  intact (recurse_remove h) (trans_remove (recurse_remove h)).
Proof.
  intros Hc Ht Hr Hv Hi.
  destruct (recurse_remove_spec h Hc Ht Hr) as (Hs & copies & Er & Hh & _ & Hsafe).
  apply (intact_same h); [done|]. intros p d Hp Hpn Hd Hsat. rewrite Er in *.
  assert (pkg_name p ∉ map pkg_name (trans_remove h)) as Hpn1
    by (rewrite map_app, elem_of_app in Hpn; tauto).
  destruct (Hi p d Hp Hpn1 Hd Hsat) as [(q & Hq & Hqd)|?]; [|by right].
  left. exists q. split; [|done]. apply elem_of_kept in Hq as [Hq Hqn]; [|done].
  apply elem_of_kept; [by apply hashes_ok_app|]. split; [done|].
  rewrite map_app, elem_of_app. intros [?|Hqc]; [done|].
  rewrite Hv, relax_false in Hqd. by rewrite (Hsafe p q d) in Hqd.
Qed.

(** All targets are installed. *)
Definition targets_installed (h : alpm_handle_t) : Prop :=
  ∀ n, n ∈ map pkg_name (trans_remove h) →
       n ∈ map pkg_name (alpm_db_get_pkgcache (h_db_local h)).

Lemma recurse_targets h :
  PkgCache (h_db_local h) → is_Some (h_trans h) → hashes_ok (trans_remove h) →
  targets_installed h →
  targets_installed (recurse_remove h) ∧ hashes_ok (trans_remove (recurse_remove h)).
Proof.
  intros Hc Ht Hr Hi.
  destruct (recurse_remove_spec h Hc Ht Hr) as (Hs & copies & Er & Hh & Hn & _).
  split; [|rewrite Er; by apply hashes_ok_app].
  intros n. rewrite Er, (ss_local _ _ Hs), map_app, elem_of_app. intros [?|?]; auto.
Qed.

(** The end of the preparation, for a target list that breaks nothing. *)
Lemma remove_finish_spec h :
  PkgCache (h_db_local h) → is_Some (h_trans h) → hashes_ok (trans_remove h) →
  targets_installed h →
  let r := remove_finish h in
  rp_ret r = 0 ∧ same_system h (rp_handle r) ∧ targets_installed (rp_handle r) ∧
  (intact h (trans_remove h) →
   has_flag (trans_flags h) ALPM_TRANS_FLAG_CASCADE
     && has_flag (trans_flags h) ALPM_TRANS_FLAG_RECURSE = false ∨ no_dep_version h = false →
   intact h (trans_remove (rp_handle r))).
Proof.
  intros Hc Ht Hr Hi r. unfold r, remove_finish.
  destruct (has_flag _ _ && has_flag _ _) eqn:E; cbn [rp_ret rp_handle].
  - destruct (recurse_remove_spec h Hc Ht Hr) as (Hs & _).
    destruct (recurse_targets h Hc Ht Hr Hi) as [? _]. split_and!; try done.
    intros Hin [?|Hv]; [done|]. apply (intact_same h (recurse_remove h)); [done|].
    by apply recurse_intact.
  - split_and!; try done.
Qed.

(** ** Properties *)

(** C35. Cascading removal: with one round per installed package as fuel the
    loop of remove_prepare_cascade ends, the targets are the old ones followed
    by installed packages, alpm_checkdeps reports nothing for them, and they
    are the least such set: every set of packages that contains the old targets
    and breaks no dependency contains the new ones. *)
Theorem cascade_correct h :
  PkgCache (h_db_local h) → is_Some (h_trans h) → hashes_ok (trans_remove h) →
  let cache := alpm_db_get_pkgcache (h_db_local h) in
  ∃ h' added,
    remove_prepare_cascade (S (length cache)) h (removal_check h) = Some h' ∧
    trans_remove h' = trans_remove h ++ added ∧
    (∀ p, p ∈ added → pkg_name p ∈ map pkg_name cache) ∧
    removal_check h' = [] ∧
    ∀ R, hashes_ok R → (∀ n, n ∈ map pkg_name (trans_remove h) → n ∈ map pkg_name R) →
         alpm_checkdeps h cache R [] true = [] →
         ∀ n, n ∈ map pkg_name (trans_remove h') → n ∈ map pkg_name R.
Proof.
  intros Hc Ht Hr cache.
  destruct (cascade_loop (S (length cache)) h Hc Ht Hr) as (h' & E & Hca & Hnil & Hmin).
  { apply Nat.lt_succ_r. apply filter_length_le. }
  destruct Hca as [_ (added & Er & _ & Hadd)]. exists h', added.
  split_and!; try done. intros p Hp. by apply Hadd.
Qed.

(** Keeping needed packages: with one round per target as fuel the loop
    of remove_prepare_keep_needed ends, the targets that remain are some of the
    old ones in the same order, alpm_checkdeps reports nothing for them, and
    every target that was dropped satisfies a dependency of an installed
    package that stays. *)
Theorem keep_needed_correct h :
  is_Some (h_trans h) → hashes_ok (trans_remove h) →
  ∃ h', remove_prepare_keep_needed (S (length (trans_remove h))) h (removal_check h) = Some h' ∧
    trans_remove h' `sublist_of` trans_remove h ∧
    removal_check h' = [] ∧
    ∀ q, q ∈ trans_remove h → q ∉ trans_remove h' → needed_by_kept h h' (pkg_name q).
Proof.
  intros Ht Hr.
  destruct (keep_loop (S (length (trans_remove h))) h Ht Hr) as (h' & E & Hnil & [_ Hsub Hdr]);
    [lia|].
  exists h'. split_and!; try done. intros q Hq Hq'. by destruct (Hdr q Hq).
Qed.

(** The first step of the preparation. *)
Lemma first_recurse_spec h (b : bool) :
  PkgCache (h_db_local h) → is_Some (h_trans h) → hashes_ok (trans_remove h) →
  targets_installed h →
  let h1 := if b then recurse_remove h else h in
  same_system h h1 ∧ hashes_ok (trans_remove h1) ∧ targets_installed h1.
Proof.
  intros Hc Ht Hr Hi. destruct b; simpl; [|by split_and!; [apply same_system_refl|..]].
  destruct (recurse_remove_spec h Hc Ht Hr) as [Hs _].
  destruct (recurse_targets h Hc Ht Hr Hi). done.
Qed.

(** A target list without reports ends well. *)
Definition ends_well (h : alpm_handle_t) (r : prepare_result) : Prop :=
  let flag f := has_flag (trans_flags h) f in
  rp_ret r = 0 ∧
  (flag ALPM_TRANS_FLAG_NODEPS = false →
   flag ALPM_TRANS_FLAG_CASCADE && flag ALPM_TRANS_FLAG_RECURSE
     && flag ALPM_TRANS_FLAG_NODEPVERSION = false →
   intact h (trans_remove (rp_handle r))).

Lemma finish_ends_well h h2 :
  PkgCache (h_db_local h) → is_Some (h_trans h) → same_system h h2 →
  hashes_ok (trans_remove h2) → targets_installed h2 →
  (has_flag (trans_flags h) ALPM_TRANS_FLAG_NODEPS = false → removal_check h2 = []) →
  targets_installed (rp_handle (remove_finish h2)) ∧ ends_well h (remove_finish h2).
Proof.
  intros Hc Ht Hs Hr Hi Hnil.
  destruct (remove_finish_spec h2) as (H1 & H2 & H3 & H4);
    [by rewrite (ss_local _ _ Hs)|by apply (ss_trans _ _ Hs)|done..|].
  split; [done|]. split; [done|]. intros Hnd Hfl. apply (intact_same h h2); [done|].
  apply H4; [by apply removal_check_intact, Hnil|].
  rewrite no_dep_version_flags, (ss_flags _ _ Hs). by apply andb_false_iff.
Qed.

(** The two repairs, from the first report on. *)
Lemma cascade_ends_well h lp :
  PkgCache (h_db_local h) → is_Some (h_trans h) → hashes_ok (trans_remove h) →
  targets_installed h → removal_check h = lp →
  ∃ h', remove_prepare_cascade (S (length (alpm_db_get_pkgcache (h_db_local h)))) h lp = Some h' ∧
    same_system h h' ∧ hashes_ok (trans_remove h') ∧ targets_installed h' ∧ removal_check h' = [].
Proof.
  intros Hc Ht Hr Hi <-.
  destruct (cascade_loop (S (length (alpm_db_get_pkgcache (h_db_local h)))) h Hc Ht Hr)
    as (h' & E' & [Hs' (added & Er & Hha & Hadd)] & Hnil & _);
    [apply Nat.lt_succ_r, filter_length_le|].
  exists h'. split_and!; [done|done| | |done].
  - rewrite Er. by apply hashes_ok_app.
  - intros n. rewrite Er, map_app, elem_of_app, (ss_local _ _ Hs'). intros [?|Hn]; [by apply Hi|].
    apply list_elem_of_fmap in Hn as (p & -> & Hp). by apply Hadd.
Qed.

Lemma keep_ends_well h lp :
  is_Some (h_trans h) → hashes_ok (trans_remove h) → targets_installed h → removal_check h = lp →
  ∃ h', remove_prepare_keep_needed (S (length (trans_remove h))) h lp = Some h' ∧
    same_system h h' ∧ hashes_ok (trans_remove h') ∧ targets_installed h' ∧ removal_check h' = [].
Proof.
  intros Ht Hr Hi <-.
  destruct (keep_loop (S (length (trans_remove h))) h Ht Hr)
    as (h' & E' & Hnil & [Hs' Hsub _]); [lia|].
  exists h'. split_and!; [done|done|by eapply hashes_ok_sublist| |done].
  intros n Hn. rewrite (ss_local _ _ Hs'). apply Hi.
  apply list_elem_of_fmap in Hn as (p & -> & Hp). apply list_elem_of_fmap_2.
  by eapply elem_of_sublist.
Qed.

(** C6. Preparing a removal never gets stuck, and is safe. When it succeeds
    and dependencies were checked, every dependency of a package that stays
    installed that was satisfied before is satisfied afterwards, and only
    installed packages are targets; with cascading and recursive removal
    together this needs dependency versions to be looked at, because the
    recursive step always compares them. When it fails, none of the strategies
    was chosen, the error is ALPM_ERR_UNSATISFIED_DEPS and the report is that
    of alpm_checkdeps. *)
Theorem remove_prepare_correct h :
  PkgCache (h_db_local h) → is_Some (h_trans h) → hashes_ok (trans_remove h) →
  targets_installed h →
  let flag f := has_flag (trans_flags h) f in
  ∃ r, alpm_remove_prepare h = Some r ∧ targets_installed (rp_handle r) ∧
    (ends_well h r ∨
     (rp_ret r = -1 ∧ flag ALPM_TRANS_FLAG_NODEPS = false ∧
      flag ALPM_TRANS_FLAG_CASCADE = false ∧ flag ALPM_TRANS_FLAG_UNNEEDED = false ∧
      h_pm_errno (rp_handle r) = ALPM_ERR_UNSATISFIED_DEPS ∧
      rp_data r = removal_check (rp_handle r) ∧ rp_data r ≠ [])).
Proof.
  intros Hc Ht Hr Hi flag. unfold alpm_remove_prepare. fold (flag ALPM_TRANS_FLAG_RECURSE)
    (flag ALPM_TRANS_FLAG_CASCADE) (flag ALPM_TRANS_FLAG_NODEPS) (flag ALPM_TRANS_FLAG_UNNEEDED).
  generalize (flag ALPM_TRANS_FLAG_RECURSE && negb (flag ALPM_TRANS_FLAG_CASCADE)) as b.
  intros b. destruct (first_recurse_spec h b Hc Ht Hr Hi) as (Hs & Hr1 & Hi1).
  set (h1 := if b then recurse_remove h else h) in *.
  assert (same_system h1 (check_handle h1)) as Hse
    by (by apply same_system_upd with (f := id) (n := 0%nat)).
  assert (same_system h (check_handle h1)) as Hs1 by (by eapply same_system_trans).
  assert (PkgCache (h_db_local (check_handle h1))) as Hc1 by (by rewrite (ss_local _ _ Hs1)).
  pose proof (ss_trans _ _ Hs1 Ht) as Ht1.
  destruct (flag ALPM_TRANS_FLAG_NODEPS) eqn:End; cbn [negb].
  { eexists. split; [done|]. destruct (finish_ends_well h h1); try done; [|by split; [|left]].
    fold (flag ALPM_TRANS_FLAG_NODEPS). congruence. }
  change (removal_check h1) with (removal_check (check_handle h1)).
  destruct (removal_check (check_handle h1)) as [|m lp] eqn:E.
  { eexists. split; [done|]. destruct (finish_ends_well h (check_handle h1)); try done.
    by split; [|left]. }
  destruct (flag ALPM_TRANS_FLAG_CASCADE) eqn:Eca; [|destruct (flag ALPM_TRANS_FLAG_UNNEEDED) eqn:Eun].
  - destruct (cascade_ends_well (check_handle h1) (m :: lp)) as (h' & -> & Hs' & ? & ? & ?); try done.
    eexists. split; [done|]. pose proof (same_system_trans _ _ _ Hs1 Hs').
    destruct (finish_ends_well h h'); try done. by split; [|left].
  - destruct (keep_ends_well (check_handle h1) (m :: lp)) as (h' & -> & Hs' & ? & ? & ?); try done.
    eexists. split; [done|]. pose proof (same_system_trans _ _ _ Hs1 Hs').
    destruct (finish_ends_well h h'); try done. by split; [|left].
  - eexists. split; [done|]. split; [done|]. right. cbn [rp_ret rp_handle rp_data].
    by split_and!.
Qed.

(** ** Examples *)
Definition ex_rm_handle (flags : Z) (targets : list alpm_pkg_t) : alpm_handle_t :=
  set_trans (Some (mk_trans flags STATE_INITIALIZED [] [] targets []))
    (set_db_local (list_db (str "local") DB_STATUS_LOCAL ex_cache) empty_handle).

Lemma ex_rm_cache flags targets : PkgCache (h_db_local (ex_rm_handle flags targets)).
Proof. change (PkgCache (list_db (str "local") DB_STATUS_LOCAL ex_cache)). concrete_cache. Qed.

Lemma ex_rm_hashes : hashes_ok [ex_lib3].
Proof. repeat constructor. Qed.

Lemma ex_rm_installed flags : targets_installed (ex_rm_handle flags [ex_lib3]).
Proof.
  unfold targets_installed. change (trans_remove _) with [ex_lib3].
  assert (map pkg_name (alpm_db_get_pkgcache (h_db_local (ex_rm_handle flags [ex_lib3]))) =
          map pkg_name ex_cache) as -> by (vm_compute; reflexivity).
  intros n Hn. apply list_elem_of_singleton in Hn as ->. apply list_elem_of_fmap_2.
  unfold ex_cache. do 3 apply list_elem_of_further. apply list_elem_of_here.
Qed.

(** Removing lib3 cascades to the packages that need it. *)
Example cascade_example :
  map pkg_name ∘ trans_remove <$>
    remove_prepare_cascade 6 (ex_rm_handle ALPM_TRANS_FLAG_CASCADE [ex_lib3])
      (removal_check (ex_rm_handle ALPM_TRANS_FLAG_CASCADE [ex_lib3])) =
  Some [str "lib3"; str "lib1"; str "app"].
Proof. vm_compute. reflexivity. Qed.

Lemma cascade_correct_witness :
  ∃ h' added,
    remove_prepare_cascade
      (S (length (alpm_db_get_pkgcache
                    (h_db_local (ex_rm_handle ALPM_TRANS_FLAG_CASCADE [ex_lib3])))))
      (ex_rm_handle ALPM_TRANS_FLAG_CASCADE [ex_lib3])
      (removal_check (ex_rm_handle ALPM_TRANS_FLAG_CASCADE [ex_lib3])) = Some h' ∧
    trans_remove h' = [ex_lib3] ++ added ∧ removal_check h' = [].
Proof.
  destruct (cascade_correct (ex_rm_handle ALPM_TRANS_FLAG_CASCADE [ex_lib3])
    (ex_rm_cache _ _) (ltac:(eexists; reflexivity)) ex_rm_hashes)
    as (h' & added & H1 & H2 & _ & H3 & _).
  exists h', added. split; [exact H1|split; [exact H2|exact H3]].
Defined.

(** With UNNEEDED, lib3 is needed and stays. *)
Lemma keep_needed_correct_witness :
  ∃ h', remove_prepare_keep_needed 2 (ex_rm_handle ALPM_TRANS_FLAG_UNNEEDED [ex_lib3])
          (removal_check (ex_rm_handle ALPM_TRANS_FLAG_UNNEEDED [ex_lib3])) = Some h' ∧
    removal_check h' = [].
Proof.
  destruct (keep_needed_correct (ex_rm_handle ALPM_TRANS_FLAG_UNNEEDED [ex_lib3])
    (ltac:(eexists; reflexivity)) ex_rm_hashes) as (h' & H1 & _ & H2 & _).
  exists h'. split; [exact H1|exact H2].
Defined.

Lemma remove_prepare_correct_witness :
  ∃ r, alpm_remove_prepare (ex_rm_handle 0 [ex_lib3]) = Some r ∧
       targets_installed (rp_handle r) ∧
       (rp_ret r = 0 ∨ h_pm_errno (rp_handle r) = ALPM_ERR_UNSATISFIED_DEPS).
Proof.
  destruct (remove_prepare_correct (ex_rm_handle 0 [ex_lib3]) (ex_rm_cache _ _)
    (ltac:(eexists; reflexivity)) ex_rm_hashes (ex_rm_installed _)) as (r & H1 & H2 & H3).
  exists r. split; [exact H1|]. split; [exact H2|].
  destruct H3 as [[H _]|(_ & _ & _ & _ & H & _)]; [left|right]; exact H.
Defined.
