(* ===== verification/Db.v ===== *)
(** * Databases

    lib/libalpm/db.c, group.c and the validation and registration functions of
    be_sync.c: registering and unregistering sync databases, their servers, the
    package cache with its changes, the group cache and searching. The back
    ends' populate function, the existence of the database file, the verdict of
    the signature check and POSIX regular expressions are parameters. A database
    of the model belongs to the handle at hand; the functions that set pm_errno
    take and return the handle. *)
From S2P Require Import Prelude CString AlpmList Util Package PkgHash Handle Deps.
Local Open Scope Z_scope.

(** ** Bits *)
Definition set_bits (bits flag : Z) : Z := Z.lor bits flag.
Definition clear_bits (bits flag : Z) : Z := Z.ldiff bits flag.

(** ** Field updates *)
Definition db_set_caches (pkgs : option alpm_pkghash_t) (grps : list alpm_group_t) (status : Z)
    (db : alpm_db_t) : alpm_db_t :=
  mk_db (db_treename db) pkgs grps (db_cache_servers db) (db_servers db) status
    (db_siglevel db) (db_usage db).
Definition db_set_status (status : Z) (db : alpm_db_t) : alpm_db_t :=
  db_set_caches (db_pkgcache db) (db_grpcache db) status db.
Definition db_set_cache_servers (l : list cstr) (db : alpm_db_t) : alpm_db_t :=
  mk_db (db_treename db) (db_pkgcache db) (db_grpcache db) l (db_servers db) (db_status db)
    (db_siglevel db) (db_usage db).
Definition db_set_servers (l : list cstr) (db : alpm_db_t) : alpm_db_t :=
  mk_db (db_treename db) (db_pkgcache db) (db_grpcache db) (db_cache_servers db) l (db_status db)
    (db_siglevel db) (db_usage db).

(** _alpm_db_new; [siglevel] is assigned by the caller. *)
Definition alpm_db_new (treename : cstr) (is_local : bool) : alpm_db_t :=
  mk_db treename None [] [] []
    (if is_local then set_bits 0 DB_STATUS_LOCAL else clear_bits 0 DB_STATUS_LOCAL) 0
    ALPM_DB_USAGE_ALL.

(** ** Servers *)

(** sanitize_url, for a URL that is not empty. *)
Definition sanitize_url (url : cstr) : cstr :=
  if Ascii.eqb (List.last url NUL) "/"%char then removelast url else url.

Definition alpm_db_add_cache_server (h : alpm_handle_t) (db : alpm_db_t) (url : option cstr)
    : alpm_handle_t * alpm_db_t * Z :=
  match url with
  | None | Some [] => (set_errno ALPM_ERR_WRONG_ARGS h, db, -1)
  | Some url =>
      (check_handle h, db_set_cache_servers (db_cache_servers db ++ [sanitize_url url]) db, 0)
  end.

Definition alpm_db_add_server (h : alpm_handle_t) (db : alpm_db_t) (url : option cstr)
    : alpm_handle_t * alpm_db_t * Z :=
  match url with
  | None | Some [] => (set_errno ALPM_ERR_WRONG_ARGS h, db, -1)
  | Some url => (check_handle h, db_set_servers (db_servers db ++ [sanitize_url url]) db, 0)
  end.

(** The loop of alpm_db_set_cache_servers and alpm_db_set_servers: stop at the
    first URL that is refused. *)
Fixpoint add_urls (add : alpm_handle_t → alpm_db_t → option cstr → alpm_handle_t * alpm_db_t * Z)
    (h : alpm_handle_t) (db : alpm_db_t) (urls : list cstr) : alpm_handle_t * alpm_db_t * Z :=
  match urls with
  | [] => (h, db, 0)
  | url :: urls' =>
      let '(h, db, rc) := add h db (Some url) in
      if negb (rc =? 0) then (h, db, -1) else add_urls add h db urls'
  end.

Definition alpm_db_set_cache_servers (h : alpm_handle_t) (db : alpm_db_t) (urls : list cstr)
    : alpm_handle_t * alpm_db_t * Z :=
  add_urls alpm_db_add_cache_server h (db_set_cache_servers [] db) urls.

Definition alpm_db_set_servers (h : alpm_handle_t) (db : alpm_db_t) (urls : list cstr)
    : alpm_handle_t * alpm_db_t * Z :=
  add_urls alpm_db_add_server h (db_set_servers [] db) urls.

Definition alpm_db_remove_cache_server (h : alpm_handle_t) (db : alpm_db_t) (url : option cstr)
    : alpm_handle_t * alpm_db_t * Z :=
  match url with
  | None | Some [] => (set_errno ALPM_ERR_WRONG_ARGS h, db, -1)
  | Some url =>
      let '(l, vdata) := alpm_list_remove_str (db_cache_servers db) (sanitize_url url) in
      (check_handle h, db_set_cache_servers l db, if is_some vdata then 0 else 1)
  end.

Definition alpm_db_remove_server (h : alpm_handle_t) (db : alpm_db_t) (url : option cstr)
    : alpm_handle_t * alpm_db_t * Z :=
  match url with
  | None | Some [] => (set_errno ALPM_ERR_WRONG_ARGS h, db, -1)
  | Some url =>
      let '(l, vdata) := alpm_list_remove_str (db_servers db) (sanitize_url url) in
      (check_handle h, db_set_servers l db, if is_some vdata then 0 else 1)
  end.

(** ** Options of a database *)
Definition ALPM_SIG_DATABASE := Z.shiftl 1 10.
Definition ALPM_SIG_USE_DEFAULT := Z.shiftl 1 30.

Definition alpm_db_get_siglevel (h : alpm_handle_t) (db : alpm_db_t) : Z :=
  if has_flag (db_siglevel db) ALPM_SIG_USE_DEFAULT then o_siglevel (h_options h)
  else db_siglevel db.

Definition alpm_db_set_usage (db : alpm_db_t) (usage : Z) : alpm_db_t :=
  mk_db (db_treename db) (db_pkgcache db) (db_grpcache db) (db_cache_servers db)
    (db_servers db) (db_status db) (db_siglevel db) usage.

(** _alpm_db_path, computed anew; a sync database needs handle->dbext. *)
Definition alpm_db_path (h : alpm_handle_t) (db : alpm_db_t) : option cstr :=
  match o_dbpath (h_options h) with
  | None => None
  | Some dbpath =>
      if has_flag (db_status db) DB_STATUS_LOCAL
      then Some (dbpath ++ db_treename db ++ str "/")
      else match o_dbext (h_options h) with
           | Some dbext => Some (dbpath ++ str "sync/" ++ db_treename db ++ dbext)
           | None => None
           end
  end.

(** ** Validation and registration of sync databases *)

(** What validation asks of the outside: whether the file is missing (ENOENT),
    and whether the signature check accepts it. *)
Record db_env := mk_db_env {
  db_file_missing : cstr → bool;
  db_signature_ok : cstr → Z → bool
}.

Definition sync_db_validate (env : db_env) (h : alpm_handle_t) (db : alpm_db_t)
    : alpm_handle_t * alpm_db_t * Z :=
  let status := db_status db in
  if has_flag status DB_STATUS_VALID || has_flag status DB_STATUS_MISSING then (h, db, 0)
  else if has_flag status DB_STATUS_INVALID
  then (set_errno ALPM_ERR_DB_INVALID_SIG h, db, -1)
  else
    match alpm_db_path h db with
    | None => (set_errno ALPM_ERR_DB_OPEN h, db, -1)
    | Some dbpath =>
        let valid st := clear_bits (set_bits st DB_STATUS_VALID) DB_STATUS_INVALID in
        if db_file_missing env dbpath then
          let st := set_bits (clear_bits status DB_STATUS_EXISTS) DB_STATUS_MISSING in
          (h, db_set_status (valid st) db, 0)
        else
          let st := clear_bits (set_bits status DB_STATUS_EXISTS) DB_STATUS_MISSING in
          let siglevel := alpm_db_get_siglevel h db in
          if has_flag siglevel ALPM_SIG_DATABASE && negb (db_signature_ok env dbpath siglevel)
          then (set_errno ALPM_ERR_DB_INVALID_SIG h,
                db_set_status (set_bits (clear_bits st DB_STATUS_VALID) DB_STATUS_INVALID) db, 1)
          else (h, db_set_status (valid st) db, 0)
    end.

(** _alpm_db_register_sync, in a build with GPGME. *)
Definition alpm_db_register_sync (env : db_env) (h : alpm_handle_t) (treename : cstr) (level : Z)
    : alpm_handle_t * option alpm_db_t :=
  let db0 := alpm_db_new treename false in
  let db := mk_db (db_treename db0) None [] [] [] (db_status db0) level (db_usage db0) in
  let '(h, db, _) := sync_db_validate env h db in
  (set_dbs_sync (h_dbs_sync h ++ [db]) h, Some db).

Definition alpm_register_syncdb (env : db_env) (h : alpm_handle_t) (treename : option cstr)
    (siglevel : Z) : alpm_handle_t * option alpm_db_t :=
  let h := check_handle h in
  match treename with
  | None | Some [] => (set_errno ALPM_ERR_WRONG_ARGS h, None)
  | Some treename =>
      if is_some (split_first "/"%char treename) then (set_errno ALPM_ERR_WRONG_ARGS h, None)
      else if is_some (h_trans h) then (set_errno ALPM_ERR_TRANS_NOT_NULL h, None)
      else if streq treename (str "local") then (set_errno ALPM_ERR_DB_NOT_NULL h, None)
      else if existsb (λ d, streq treename (db_treename d)) (h_dbs_sync h)
      then (set_errno ALPM_ERR_DB_NOT_NULL h, None)
      else alpm_db_register_sync env h treename siglevel
  end.

Definition alpm_unregister_all_syncdbs (h : alpm_handle_t) : alpm_handle_t * Z :=
  let h := check_handle h in
  if is_some (h_trans h) then ret_err ALPM_ERR_TRANS_NOT_NULL h
  else (set_dbs_sync [] h, 0).

Definition alpm_db_cmp (d1 d2 : alpm_db_t) : Z := strcmp (db_treename d1) (db_treename d2).

(** alpm_db_unregister of a sync database. *)
Definition alpm_db_unregister (h : alpm_handle_t) (db : alpm_db_t) : alpm_handle_t * Z :=
  let h := check_handle h in
  if is_some (h_trans h) then ret_err ALPM_ERR_TRANS_NOT_NULL h
  else
    match alpm_list_remove alpm_db_cmp (h_dbs_sync h) db with
    | (l, Some _) => (set_dbs_sync l h, 0)
    | (l, None) => ret_err ALPM_ERR_DB_NOT_FOUND (set_dbs_sync l h)
    end.

(** ** The caches *)
Definition free_groupcache (db : alpm_db_t) : alpm_db_t :=
  if negb (has_flag (db_status db) DB_STATUS_GRPCACHE) then db
  else db_set_caches (db_pkgcache db) [] (clear_bits (db_status db) DB_STATUS_GRPCACHE) db.

Definition alpm_db_free_pkgcache (db : alpm_db_t) : alpm_db_t :=
  match db_pkgcache db with
  | None => db
  | Some _ =>
      free_groupcache
        (db_set_caches None (db_grpcache db) (clear_bits (db_status db) DB_STATUS_PKGCACHE) db)
  end.

(** load_pkgcache: [populate] is the back end's, the filled table or a failure. *)
Definition load_pkgcache (populate : alpm_db_t → option alpm_pkghash_t) (db : alpm_db_t)
    : alpm_db_t * Z :=
  let db := alpm_db_free_pkgcache db in
  match populate db with
  | None => (db, -1)
  | Some hash =>
      (db_set_caches (Some hash) (db_grpcache db) (set_bits (db_status db) DB_STATUS_PKGCACHE) db, 0)
  end.

(** _alpm_db_get_pkgcache_hash with lazy loading: the database afterwards, the
    table, and whether pm_errno becomes ALPM_ERR_DB_INVALID. *)
Definition get_pkgcache_hash (populate : alpm_db_t → option alpm_pkghash_t) (h : alpm_handle_t)
    (db : alpm_db_t) : alpm_handle_t * alpm_db_t * option alpm_pkghash_t :=
  if negb (has_flag (db_status db) DB_STATUS_VALID) then (set_errno ALPM_ERR_DB_INVALID h, db, None)
  else if negb (has_flag (db_status db) DB_STATUS_PKGCACHE) then
    let '(db, rc) := load_pkgcache populate db in
    if negb (rc =? 0) then (h, db, None) else (h, db, db_pkgcache db)
  else (h, db, db_pkgcache db).

(** The copy that _alpm_db_add_pkgincache puts into the cache. *)
Definition cache_copy (addr : nat) (db : alpm_db_t) (pkg : alpm_pkg_t) : alpm_pkg_t :=
  let p := alpm_pkg_dup addr pkg in
  mk_pkg (pkg_addr p) (pkg_name_hash p) (pkg_filename p) (pkg_base p) (pkg_name p)
    (pkg_version p) (pkg_desc p) (pkg_url p) (pkg_packager p) (pkg_sha256sum p)
    (pkg_base64_sig p) (pkg_arch p) (pkg_builddate p) (pkg_installdate p) (pkg_size p)
    (pkg_isize p) (pkg_download_size p) (pkg_licenses p) (pkg_replaces p) (pkg_groups p)
    (pkg_backup p) (pkg_depends p) (pkg_optdepends p) (pkg_checkdepends p)
    (pkg_makedepends p) (pkg_conflicts p) (pkg_provides p) (pkg_removes p) (pkg_oldpkg p)
    (pkg_files p)
    (if has_flag (db_status db) DB_STATUS_LOCAL then ALPM_PKG_FROM_LOCALDB (db_treename db)
     else ALPM_PKG_FROM_SYNCDB (db_treename db))
    (pkg_reason p) (pkg_scriptlet p) (pkg_xdata p) (pkg_infolevel p) (pkg_validation p).

(** _alpm_db_add_pkgincache; [addr] is the address of the copy. *)
Definition alpm_db_add_pkgincache (h : alpm_handle_t) (db : alpm_db_t) (pkg : alpm_pkg_t)
    : alpm_handle_t * alpm_db_t * Z :=
  if negb (has_flag (db_status db) DB_STATUS_PKGCACHE) then (h, db, -1)
  else
    let newpkg := cache_copy (h_next h) db pkg in
    let h := set_next (S (h_next h)) h in
    match db_pkgcache db with
    | None => (set_errno ALPM_ERR_MEMORY h, db, -1)
    | Some hash =>
        match alpm_pkghash_add_sorted hash newpkg with
        | None => (set_errno ALPM_ERR_MEMORY h, db, -1)
        | Some hash =>
            (h, free_groupcache (db_set_caches (Some hash) (db_grpcache db) (db_status db) db), 0)
        end
    end.

(** _alpm_db_remove_pkgfromcache *)
Definition alpm_db_remove_pkgfromcache (db : alpm_db_t) (pkg : alpm_pkg_t) : alpm_db_t * Z :=
  if negb (has_flag (db_status db) DB_STATUS_PKGCACHE) then (db, -1)
  else
    match db_pkgcache db with
    | None => (db, -1)
    | Some hash =>
        match alpm_pkghash_remove hash pkg with
        | Some (hash, Some _) =>
            (free_groupcache (db_set_caches (Some hash) (db_grpcache db) (db_status db) db), 0)
        | Some (hash, None) =>
            (db_set_caches (Some hash) (db_grpcache db) (db_status db) db, -1)
        | None => (db, -1)
        end
    end.

(** alpm_db_get_pkg of a loaded database. *)
Definition alpm_db_get_pkg (h : alpm_handle_t) (db : alpm_db_t) (name : option cstr)
    : alpm_handle_t * option alpm_pkg_t :=
  match name with
  | None | Some [] => (set_errno ALPM_ERR_WRONG_ARGS h, None)
  | Some name =>
      match alpm_db_get_pkgfromcache db name with
      | Some pkg => (check_handle h, Some pkg)
      | None => (set_errno ALPM_ERR_PKG_NOT_FOUND h, None)
      end
  end.

(** ** Groups *)
Definition alpm_group_new (name : cstr) : alpm_group_t := mk_group name [].

(** The search of load_grpcache: the first group of the name without the
    package gets it; [None] when there is no such group. *)
Fixpoint add_to_group (grpname : cstr) (pkg : alpm_pkg_t) (grps : list alpm_group_t)
    : option (list alpm_group_t) :=
  match grps with
  | [] => None
  | grp :: grps' =>
      if streq (grp_name grp) grpname && negb (alpm_list_find_ptr (grp_packages grp) pkg)
      then Some (mk_group (grp_name grp) (grp_packages grp ++ [pkg]) :: grps')
      else cons grp <$> add_to_group grpname pkg grps'
  end.

Definition load_group (pkg : alpm_pkg_t) (grps : list alpm_group_t) (grpname : cstr)
    : list alpm_group_t :=
  match add_to_group grpname pkg grps with
  | Some grps => grps
  | None => grps ++ [mk_group (grp_name (alpm_group_new grpname))
                       (grp_packages (alpm_group_new grpname) ++ [pkg])]
  end.

(** The loops of load_grpcache. *)
Definition load_groups (pkgs : list alpm_pkg_t) (grps : list alpm_group_t) : list alpm_group_t :=
  fold_left (λ grps pkg, fold_left (load_group pkg) (pkg_groups pkg) grps) pkgs grps.

Definition load_grpcache (populate : alpm_db_t → option alpm_pkghash_t) (h : alpm_handle_t)
    (db : alpm_db_t) : alpm_handle_t * alpm_db_t :=
  let '(h, db, hash) := get_pkgcache_hash populate h db in
  let pkgs := match hash with Some hash => hash_list hash | None => [] end in
  (h, db_set_caches (db_pkgcache db) (load_groups pkgs (db_grpcache db))
        (set_bits (db_status db) DB_STATUS_GRPCACHE) db).

(** _alpm_db_get_groupcache *)
Definition alpm_db_get_groupcache (populate : alpm_db_t → option alpm_pkghash_t)
    (h : alpm_handle_t) (db : alpm_db_t) : alpm_handle_t * alpm_db_t * list alpm_group_t :=
  if negb (has_flag (db_status db) DB_STATUS_VALID) then (set_errno ALPM_ERR_DB_INVALID h, db, [])
  else
    let '(h, db) := if negb (has_flag (db_status db) DB_STATUS_GRPCACHE)
                    then load_grpcache populate h db else (h, db) in
    (h, db, db_grpcache db).

Definition alpm_db_get_groupfromcache (populate : alpm_db_t → option alpm_pkghash_t)
    (h : alpm_handle_t) (db : alpm_db_t) (target : cstr)
    : alpm_handle_t * alpm_db_t * option alpm_group_t :=
  match target with
  | [] => (h, db, None)
  | _ =>
      let '(h, db, grps) := alpm_db_get_groupcache populate h db in
      (h, db, find_first (λ info, streq (grp_name info) target) grps)
  end.

(** ** Search *)

(** POSIX regular expressions: regcomp gives the matcher of a needle, or
    fails. *)
Definition regcomp_t := cstr → option (cstr → bool).

(** Whether a package matches a needle: its name, as regular expression or
    plain text, its description, a provision or a group. *)
Definition search_match (targ : cstr) (reg : cstr → bool) (pkg : alpm_pkg_t) : bool :=
  (reg (pkg_name pkg) || is_some (split_substr targ (pkg_name pkg)))
  || match pkg_desc pkg with Some desc => reg desc | None => false end
  || existsb (λ provide, reg (dep_name provide)) (pkg_provides pkg)
  || existsb reg (pkg_groups pkg).

(** The loop over the needles; the result is *ret. *)
Fixpoint search_needles (regcomp : regcomp_t) (needles : list (option cstr))
    (found ret : list alpm_pkg_t) : alpm_errno_t + list alpm_pkg_t :=
  match needles with
  | [] => inr ret
  | None :: needles' => search_needles regcomp needles' found ret
  | Some targ :: needles' =>
      match regcomp targ with
      | None => inl ALPM_ERR_INVALID_REGEX
      | Some reg =>
          let ret := List.filter (search_match targ reg) found in
          search_needles regcomp needles' ret ret
      end
  end.

Definition alpm_db_search (regcomp : regcomp_t) (db : alpm_db_t) (needles : list (option cstr))
    : alpm_errno_t + list alpm_pkg_t :=
  if negb (has_flag (db_usage db) ALPM_DB_USAGE_SEARCH) then inr []
  else search_needles regcomp needles (alpm_db_get_pkgcache db) [].

(** ** Facts: bits *)
Lemma has_flag_bit s k : 0 <= k → has_flag s (Z.shiftl 1 k) = Z.testbit s k.
Proof.
  intros Hk. unfold has_flag. rewrite Z.shiftl_1_l.
  destruct (Z.testbit s k) eqn:E.
  - apply negb_true_iff, Z.eqb_neq. intros H.
    assert (Z.testbit (Z.land s (2 ^ k)) k = true) as Ht
      by (by rewrite Z.land_spec, E, Z.pow2_bits_true).
    by rewrite H, Z.bits_0 in Ht.
  - apply negb_false_iff, Z.eqb_eq. apply Z.bits_inj. intros i. rewrite Z.land_spec, Z.bits_0.
    destruct (decide (i = k)) as [->|Hne]; [by rewrite E|].
    rewrite Z.pow2_bits_false by done. by rewrite andb_false_r.
Qed.

(** Reading a flag after it, or another flag, was set or cleared. *)
Lemma flag_set s j k :
  0 <= j → 0 <= k →
  has_flag (set_bits s (Z.shiftl 1 j)) (Z.shiftl 1 k) =
  if decide (j = k) then true else has_flag s (Z.shiftl 1 k).
Proof.
  intros Hj Hk. rewrite !has_flag_bit by done. unfold set_bits.
  rewrite Z.lor_spec, Z.shiftl_1_l. destruct (decide (j = k)) as [->|Hne].
  - by rewrite Z.pow2_bits_true, orb_true_r.
  - rewrite Z.pow2_bits_false by done. apply orb_false_r.
Qed.

Lemma flag_clear s j k :
  0 <= j → 0 <= k →
  has_flag (clear_bits s (Z.shiftl 1 j)) (Z.shiftl 1 k) =
  if decide (j = k) then false else has_flag s (Z.shiftl 1 k).
Proof.
  intros Hj Hk. rewrite !has_flag_bit by done. unfold clear_bits.
  rewrite Z.ldiff_spec, Z.shiftl_1_l. destruct (decide (j = k)) as [->|Hne].
  - by rewrite Z.pow2_bits_true, andb_false_r.
  - rewrite Z.pow2_bits_false by done. apply andb_true_r.
Qed.

(** Evaluate a flag of a status built by setting and clearing flags. *)
Ltac flags :=
  unfold DB_STATUS_VALID, DB_STATUS_INVALID, DB_STATUS_EXISTS, DB_STATUS_MISSING,
    DB_STATUS_LOCAL, DB_STATUS_PKGCACHE, DB_STATUS_GRPCACHE in *;
  repeat first [rewrite flag_set by lia | rewrite flag_clear by lia];
  repeat match goal with
  | |- context [decide (?a = ?b)] =>
      first [rewrite (decide_True (P := a = b)) by lia | rewrite (decide_False (P := a = b)) by lia]
  end.

(** ** Facts: the caches *)
Definition db_packages (db : alpm_db_t) : list alpm_pkg_t :=
  match db_pkgcache db with Some hash => hash_list hash | None => [] end.

(** The flags tell what is loaded, and a loaded group cache is that of the
    packages. *)
Record db_ok (db : alpm_db_t) : Prop := {
  dk_hash : db_inv db;
  dk_loaded : has_flag (db_status db) DB_STATUS_PKGCACHE = is_some (db_pkgcache db);
  dk_groups : db_grpcache db =
    if has_flag (db_status db) DB_STATUS_GRPCACHE then load_groups (db_packages db) [] else [];
  dk_both : has_flag (db_status db) DB_STATUS_GRPCACHE = true → is_Some (db_pkgcache db)
}.

Lemma free_groupcache_ok db :
  db_inv db → has_flag (db_status db) DB_STATUS_PKGCACHE = is_some (db_pkgcache db) →
  (has_flag (db_status db) DB_STATUS_GRPCACHE = false → db_grpcache db = []) →
  db_ok (free_groupcache db) ∧ db_packages (free_groupcache db) = db_packages db ∧
  has_flag (db_status (free_groupcache db)) DB_STATUS_GRPCACHE = false.
Proof.
  intros Hi Hp Hg. unfold free_groupcache.
  destruct (has_flag (db_status db) DB_STATUS_GRPCACHE) eqn:E; cbn [negb].
  - split_and!; [|done|cbn; by flags]. split; cbn; [done|by flags|by flags|by flags].
  - split_and!; [|done|done]. split; [done|done|by rewrite E, Hg|by rewrite E].
Qed.

Lemma free_pkgcache_ok db : db_ok db → db_ok (alpm_db_free_pkgcache db).
Proof.
  intros [H1 H2 H3 H4]. unfold alpm_db_free_pkgcache.
  destruct (db_pkgcache db) eqn:E; [|by split; rewrite ?E in *].
  apply free_groupcache_ok; cbn; [done|by flags|]. flags. intros Hf. by rewrite H3; flags; rewrite Hf.
Qed.

Section cache.
Context (populate : alpm_db_t → option alpm_pkghash_t) (base : nat).

(** The back end can load the database, into addresses below [base]. *)
Definition populates : Prop :=
  ∀ db, ∃ hash, populate db = Some hash ∧ pkghash_inv hash ∧
                Forall (λ p, (pkg_addr p < base)%nat) (hash_list hash).

Context (Hpop : populates).

Definition addrs_ok (h : alpm_handle_t) (db : alpm_db_t) : Prop :=
  (base <= h_next h)%nat ∧ Forall (λ p, (pkg_addr p < h_next h)%nat) (db_packages db).

Lemma load_pkgcache_ok h db db' rc :
  db_ok db → (base <= h_next h)%nat → has_flag (db_status db) DB_STATUS_PKGCACHE = false →
  load_pkgcache populate db = (db', rc) → db_ok db' ∧ addrs_ok h db' ∧ rc = 0 ∧
  is_Some (db_pkgcache db').
Proof.
  intros [H1 H2 H3 H4] Hb Hf. unfold load_pkgcache, alpm_db_free_pkgcache.
  rewrite Hf in H2. destruct (db_pkgcache db) eqn:E; [done|].
  destruct (Hpop db) as (hash & -> & Hh & Ha). intros [= <- <-].
  assert (has_flag (db_status db) DB_STATUS_GRPCACHE = false) as Hg.
  { destruct (has_flag _ _) eqn:Eg; [|done]. by destruct (H4 eq_refl). }
  split_and!; [|..|done|by eexists].
  - split; cbn; [done|by flags| |]; flags;
      (unfold DB_STATUS_GRPCACHE in Hg; rewrite Hg); [|done].
    rewrite H3. flags. by rewrite Hg.
  - split; [done|]. unfold db_packages. cbn. eapply Forall_impl; [exact Ha|]. cbn. lia.
Qed.

(** Getting the package cache loads it if needed. *)
Lemma get_pkgcache_hash_ok h db h' db' hash :
  db_ok db → addrs_ok h db → get_pkgcache_hash populate h db = (h', db', hash) →
  db_ok db' ∧ addrs_ok h' db' ∧
  (has_flag (db_status db) DB_STATUS_VALID = true →
   hash = db_pkgcache db' ∧ is_Some (db_pkgcache db')).
Proof.
  intros Hok [Ha1 Ha2]. unfold get_pkgcache_hash.
  destruct (has_flag (db_status db) DB_STATUS_VALID); cbn [negb].
  2:{ intros [= <- <- <-]. split_and!; done. }
  destruct (has_flag (db_status db) DB_STATUS_PKGCACHE) eqn:E; cbn [negb].
  - intros [= <- <- <-]. split_and!; try done. intros _. split; [done|].
    pose proof (dk_loaded _ Hok) as H. rewrite E in H. by apply is_some_true.
  - destruct (load_pkgcache populate db) as [db1 rc] eqn:El.
    destruct (load_pkgcache_ok h db db1 rc Hok Ha1 E El) as (Hok1 & Ha & -> & Hs). simpl.
    intros [= <- <- <-]. done.
Qed.

Lemma get_groupcache_ok h db h' db' grps :
  db_ok db → addrs_ok h db → alpm_db_get_groupcache populate h db = (h', db', grps) →
  db_ok db' ∧ addrs_ok h' db' ∧
  (has_flag (db_status db) DB_STATUS_VALID = true → grps = load_groups (db_packages db') []).
Proof.
  intros Hok Ha. unfold alpm_db_get_groupcache.
  destruct (has_flag (db_status db) DB_STATUS_VALID) eqn:Ev; cbn [negb].
  2:{ intros [= <- <- <-]. split_and!; [done|apply Ha|done]. }
  destruct (has_flag (db_status db) DB_STATUS_GRPCACHE) eqn:Eg; cbn [negb].
  - intros [= <- <- <-]. split_and!; [done|apply Ha|].
    intros _. rewrite (dk_groups _ Hok). by rewrite Eg.
  - unfold load_grpcache. destruct (get_pkgcache_hash populate h db) as [[h1 db1] hash] eqn:E1.
    destruct (get_pkgcache_hash_ok _ _ _ _ _ Hok Ha E1) as (Hok1 & Ha1 & H1).
    destruct (H1 Ev) as [-> Hs]. intros [= <- <- <-].
    assert (db_grpcache db1 = []) as Hg1.
    { pose proof Hok1 as [_ _ H3 _]. rewrite H3.
      destruct (has_flag (db_status db1) DB_STATUS_GRPCACHE) eqn:Eg1; [|done].
      exfalso. revert E1. unfold get_pkgcache_hash. rewrite Ev. cbn [negb].
      destruct (has_flag (db_status db) DB_STATUS_PKGCACHE) eqn:Ep; cbn [negb].
      - intros [= _ <-]. congruence.
      - unfold load_pkgcache, alpm_db_free_pkgcache.
        pose proof (dk_loaded _ Hok) as Hl. rewrite Ep in Hl.
        destruct (db_pkgcache db) eqn:Edb; [done|].
        destruct (Hpop db) as (hash & -> & _). intros [= _ <-]. revert Eg1. cbn. flags.
        unfold DB_STATUS_GRPCACHE in Eg. congruence. }
    fold (db_packages db1). rewrite Hg1. split_and!.
    + destruct Hok1 as [K1 K2 _ _]. split; cbn; [done|by flags|by flags|done].
    + exact Ha1.
    + done.
Qed.

Lemma free_groupcache_inner db hash status :
  db_ok db → status = db_status db → pkghash_inv hash → is_Some (db_pkgcache db) →
  let db1 := db_set_caches (Some hash) (db_grpcache db) status db in
  db_ok (free_groupcache db1) ∧ db_packages (free_groupcache db1) = hash_list hash.
Proof.
  intros [H1 H2 H3 H4] -> Hh Hs db1.
  destruct (free_groupcache_ok db1) as (? & ? & _); [done| |..].
  - cbn. rewrite H2. by destruct Hs as [? ->].
  - cbn. intros Hf. by rewrite H3, Hf.
  - done.
Qed.

Lemma add_pkgincache_ok h db pkg h' db' rc :
  db_ok db → addrs_ok h db → pkg_hash_ok pkg → pkg_name pkg ∉ map pkg_name (db_packages db) →
  alpm_db_add_pkgincache h db pkg = (h', db', rc) →
  db_ok db' ∧ addrs_ok h' db' ∧
  (rc = 0 → map pkg_name (db_packages db') ≡ₚ pkg_name pkg :: map pkg_name (db_packages db)).
Proof.
  intros Hok [Hb Ha] Hp Hn. unfold alpm_db_add_pkgincache.
  destruct (negb _); [by intros [= <- <- <-]|].
  assert (addrs_ok (set_next (S (h_next h)) h) db) as Ha'.
  { split; [cbn; lia|]. eapply Forall_impl; [exact Ha|]. cbn. lia. }
  destruct (db_pkgcache db) as [hash|] eqn:E.
  2:{ intros [= <- <- <-]. split_and!; [done|apply Ha'|done]. }
  assert (db_packages db = hash_list hash) as Ep by (unfold db_packages; by rewrite E).
  rewrite Ep in *. pose proof (dk_hash _ Hok) as Hh. unfold db_inv in Hh. rewrite E in Hh.
  pose proof (add_spec hash (cache_copy (h_next h) db pkg) true Hh Hp Hn) as Hadd.
  unfold alpm_pkghash_add_sorted. destruct (pkghash_add_pkg _ _ _) as [hash'|].
  2:{ intros [= <- <- <-]. split_and!; [done|apply Ha'|done]. }
  destruct Hadd as [Hh' Hl].
  { intros (q & Eq & Hq)%list_elem_of_fmap. rewrite Forall_forall in Ha.
    specialize (Ha q Hq). cbn in Eq. lia. }
  destruct (free_groupcache_inner db hash' _ Hok eq_refl Hh' ltac:(by rewrite E)) as [K1 K2].
  intros [= <- <- <-].
  assert (hash_list hash' ≡ₚ hash_list hash ++ [cache_copy (h_next h) db pkg]) as Hperm
    by (rewrite Hl; apply mmerge_perm).
  split_and!.
  - done.
  - split; [cbn; lia|]. rewrite K2, Hperm. apply Forall_app. split.
    + eapply Forall_impl; [exact Ha|]. cbn. lia.
    + repeat constructor.
  - intros _. rewrite K2, Hperm, map_app. cbn. by rewrite <-Permutation_cons_append.
Qed.

Lemma remove_pkgfromcache_ok h db pkg db' rc :
  db_ok db → addrs_ok h db → pkg_hash_ok pkg →
  alpm_db_remove_pkgfromcache db pkg = (db', rc) →
  db_ok db' ∧ addrs_ok h db' ∧
  (rc = 0 → map pkg_name (db_packages db) ≡ₚ pkg_name pkg :: map pkg_name (db_packages db')) ∧
  (rc ≠ 0 → db_packages db' = db_packages db).
Proof.
  intros Hok [Hb Ha] Hp. unfold alpm_db_remove_pkgfromcache.
  destruct (negb _); [by intros [= <- <-]|].
  destruct (db_pkgcache db) as [hash|] eqn:E; [|by intros [= <- <-]].
  assert (db_packages db = hash_list hash) as Ep by (unfold db_packages; by rewrite E).
  pose proof (dk_hash _ Hok) as Hh. unfold db_inv in Hh. rewrite E in Hh.
  destruct (remove_spec hash pkg Hh Hp) as (hash' & -> & Hh' & Hr).
  destruct (alpm_pkg_find (hash_list hash) (pkg_name pkg)) as [info|] eqn:Ef.
  - destruct (free_groupcache_inner db hash' _ Hok eq_refl Hh' ltac:(by rewrite E)) as [K1 K2].
    intros [= <- <-]. destruct Hr as [Hl Hperm]. rewrite Ep in *.
    split_and!; [done|split; [done|]|..|done].
    + rewrite K2. rewrite Hperm in Ha. by apply Forall_cons in Ha as [_ Ha].
    + intros _. rewrite K2, Hperm. cbn. by apply pkg_find_Some in Ef as [_ ->].
  - subst hash'. intros [= <- <-].
    assert (db_set_caches (Some hash) (db_grpcache db) (db_status db) db = db) as ->
      by (destruct db; cbn in *; by rewrite E).
    split_and!; done.
Qed.
End cache.

(** The packages after a removal, when there was one to remove or not. *)
Lemma remove_perm db pkg db' rc :
  db_ok db → pkg_hash_ok pkg → alpm_db_remove_pkgfromcache db pkg = (db', rc) → rc = 0 →
  ∃ info, pkg_name info = pkg_name pkg ∧ db_packages db ≡ₚ info :: db_packages db'.
Proof.
  intros Hok Hp. unfold alpm_db_remove_pkgfromcache. destruct (negb _); [by intros [= <- <-]|].
  destruct (db_pkgcache db) as [hash|] eqn:E; [|by intros [= <- <-]].
  assert (db_packages db = hash_list hash) as -> by (unfold db_packages; by rewrite E).
  pose proof (dk_hash _ Hok) as Hh. unfold db_inv in Hh. rewrite E in Hh.
  destruct (remove_spec hash pkg Hh Hp) as (hash' & -> & Hh' & Hr).
  destruct (alpm_pkg_find (hash_list hash) (pkg_name pkg)) as [info|] eqn:Ef; [|by intros [= <- <-]].
  destruct (free_groupcache_inner db hash' _ Hok eq_refl Hh' ltac:(by rewrite E)) as [_ K2].
  intros [= <- _] _. exists info. rewrite K2. split; [by apply pkg_find_Some in Ef as [_ ?]|apply Hr].
Qed.

Lemma remove_absent db pkg db' rc :
  db_ok db → is_Some (db_pkgcache db) → pkg_hash_ok pkg →
  alpm_db_remove_pkgfromcache db pkg = (db', rc) → rc ≠ 0 →
  ∀ q, q ∈ db_packages db → pkg_name q ≠ pkg_name pkg.
Proof.
  intros Hok [hash E] Hp. unfold alpm_db_remove_pkgfromcache. rewrite (dk_loaded _ Hok), E. simpl.
  assert (db_packages db = hash_list hash) as -> by (unfold db_packages; by rewrite E).
  pose proof (dk_hash _ Hok) as Hh. unfold db_inv in Hh. rewrite E in Hh.
  destruct (remove_spec hash pkg Hh Hp) as (hash' & -> & _).
  destruct (alpm_pkg_find (hash_list hash) (pkg_name pkg)) as [info|] eqn:Ef; [by intros [= _ <-]|].
  intros _ _ q Hq Eq. apply pkg_find_None in Ef; [|apply Hh]. apply Ef. rewrite <-Eq.
  by apply list_elem_of_fmap_2.
Qed.

(** A loaded cache below the size limit takes a package with a new name. *)
Lemma add_perm h db pkg h' db' rc :
  db_ok db → addrs_ok 0 h db → is_Some (db_pkgcache db) → pkg_hash_ok pkg →
  pkg_name pkg ∉ map pkg_name (db_packages db) → Z.of_nat (length (db_packages db)) < 414054 →
  alpm_db_add_pkgincache h db pkg = (h', db', rc) →
  h' = set_next (S (h_next h)) h ∧ is_Some (db_pkgcache db') ∧
  has_flag (db_status db') DB_STATUS_VALID = has_flag (db_status db) DB_STATUS_VALID ∧
  db_packages db' ≡ₚ cache_copy (h_next h) db pkg :: db_packages db.
Proof.
  intros Hok [Hb Ha] [hash E] Hp Hn Hlen. unfold alpm_db_add_pkgincache.
  rewrite (dk_loaded _ Hok), E. cbn [is_some negb].
  assert (db_packages db = hash_list hash) as Ep by (unfold db_packages; by rewrite E).
  rewrite Ep in *. pose proof (dk_hash _ Hok) as Hh. unfold db_inv in Hh. rewrite E in Hh.
  pose proof (add_spec hash (cache_copy (h_next h) db pkg) true Hh Hp Hn) as Hadd.
  assert (pkg_addr (cache_copy (h_next h) db pkg) ∉ map pkg_addr (hash_list hash)) as Hfresh.
  { intros (q & Eq & Hq)%list_elem_of_fmap. rewrite Forall_forall in Ha.
    specialize (Ha q Hq). cbn in Eq. lia. }
  unfold alpm_pkghash_add_sorted.
  destruct (pkghash_add_pkg hash (cache_copy (h_next h) db pkg) true) as [hash'|].
  2:{ exfalso. destruct (Hadd Hfresh) as [Hfull Hc].
      destruct (prime_sizes _ (inv_prime hash Hh)) as (_ & _ & _ & Hmax). specialize (Hmax Hc).
      rewrite (inv_entries hash Hh), (inv_limit hash Hh) in Hfull. lia. }
  destruct (Hadd Hfresh) as [Hh' Hl].
  destruct (free_groupcache_inner db hash' _ Hok eq_refl Hh' ltac:(by rewrite E)) as [_ K2].
  intros [= <- <- <-]. split; [done|]. rewrite K2, Hl, mmerge_perm, <-Permutation_cons_append.
  unfold free_groupcache. destruct (negb _); [split_and!; [by eexists|done|done]|].
  cbn. flags. split_and!; [by eexists|done|done].
Qed.

(** Operations on the caches of a database, in any order. *)
Inductive db_op :=
  | DbPkgcache | DbGroupcache | DbAdd (pkg : alpm_pkg_t) | DbRemove (pkg : alpm_pkg_t) | DbFree.

Definition run_db_op (populate : alpm_db_t → option alpm_pkghash_t)
    (s : alpm_handle_t * alpm_db_t) (op : db_op) : alpm_handle_t * alpm_db_t :=
  let '(h, db) := s in
  match op with
  | DbPkgcache => (get_pkgcache_hash populate h db).1
  | DbGroupcache => (alpm_db_get_groupcache populate h db).1
  | DbAdd pkg => (alpm_db_add_pkgincache h db pkg).1
  | DbRemove pkg => (h, (alpm_db_remove_pkgfromcache db pkg).1)
  | DbFree => (h, alpm_db_free_pkgcache db)
  end.

(** The callers add packages under new names. *)
Definition db_op_ok (db : alpm_db_t) (op : db_op) : Prop :=
  match op with
  | DbAdd pkg => pkg_hash_ok pkg ∧ pkg_name pkg ∉ map pkg_name (db_packages db)
  | DbRemove pkg => pkg_hash_ok pkg
  | _ => True
  end.

Inductive db_reaches (populate : alpm_db_t → option alpm_pkghash_t)
    : alpm_handle_t * alpm_db_t → alpm_handle_t * alpm_db_t → Prop :=
  | db_reaches_refl s : db_reaches populate s s
  | db_reaches_step s op s' :
      db_op_ok s.2 op → db_reaches populate (run_db_op populate s op) s' → db_reaches populate s s'.

Lemma free_pkgcache_packages db :
  db_packages (alpm_db_free_pkgcache db) = [].
Proof.
  unfold alpm_db_free_pkgcache, db_packages. destruct (db_pkgcache db) eqn:E; [|by rewrite E].
  unfold free_groupcache. by destruct (negb _).
Qed.

Lemma run_db_op_ok populate base s op :
  populates populate base → db_ok s.2 → addrs_ok base s.1 s.2 → db_op_ok s.2 op →
  db_ok (run_db_op populate s op).2 ∧
  addrs_ok base (run_db_op populate s op).1 (run_db_op populate s op).2.
Proof.
  destruct s as [h db]. intros Hpop Hok Ha Hop. destruct op as [| |pkg|pkg|]; simpl in *.
  - destruct (get_pkgcache_hash populate h db) as [[h' db'] hash] eqn:E.
    by destruct (get_pkgcache_hash_ok populate base Hpop _ _ _ _ _ Hok Ha E) as (? & ? & _).
  - destruct (alpm_db_get_groupcache populate h db) as [[h' db'] grps] eqn:E.
    by destruct (get_groupcache_ok populate base Hpop _ _ _ _ _ Hok Ha E) as (? & ? & _).
  - destruct Hop as [H1 H2].
    destruct (alpm_db_add_pkgincache h db pkg) as [[h' db'] rc] eqn:E.
    by destruct (add_pkgincache_ok base _ _ _ _ _ _ Hok Ha H1 H2 E) as (? & ? & _).
  - destruct (alpm_db_remove_pkgfromcache db pkg) as [db' rc] eqn:E.
    by destruct (remove_pkgfromcache_ok base h _ _ _ _ Hok Ha Hop E) as (? & ? & _).
  - split; [by apply free_pkgcache_ok|]. split; [apply Ha|].
    rewrite free_pkgcache_packages. constructor.
Qed.

(** ** Facts: groups *)

(** The memberships of packages in groups, in the order of the loops. *)
Definition memberships (pkgs : list alpm_pkg_t) : list (alpm_pkg_t * cstr) :=
  flat_map (λ p, map (pair p) (pkg_groups p)) pkgs.

Lemma load_groups_memberships pkgs grps :
  load_groups pkgs grps = fold_left (λ grps m, load_group m.1 grps m.2) (memberships pkgs) grps.
Proof.
  unfold load_groups, memberships. revert grps.
  induction pkgs as [|p pkgs IH]; intros grps; simpl; [done|].
  rewrite fold_left_app, IH. f_equal. generalize (pkg_groups p) as l. intros l. revert grps.
  induction l as [|n l IHl]; intros grps; simpl; [done|]. apply IHl.
Qed.

(** The members of a group in a list of memberships. *)
Definition members (ms : list (alpm_pkg_t * cstr)) (n : cstr) : list alpm_pkg_t :=
  map fst (List.filter (λ m, streq m.2 n) ms).

Record groups_ok (ms : list (alpm_pkg_t * cstr)) (grps : list alpm_group_t) : Prop := {
  go_names : NoDup (map grp_name grps);
  go_members : ∀ g, g ∈ grps → grp_packages g = members ms (grp_name g) ∧ grp_packages g ≠ [];
  go_all : ∀ m, m ∈ ms → m.2 ∈ map grp_name grps
}.

Lemma members_app ms ms' n : members (ms ++ ms') n = members ms n ++ members ms' n.
Proof. unfold members. by rewrite List.filter_app, map_app. Qed.

Lemma members_snoc ms p g n :
  members (ms ++ [(p, g)]) n = members ms n ++ if streq g n then [p] else [].
Proof. rewrite members_app. unfold members at 2. simpl. by destruct (streq g n). Qed.

Lemma add_to_group_spec n p grps :
  (∀ g, g ∈ grps → grp_name g = n → ¬ ∃ q, q ∈ grp_packages g ∧ pkg_addr q = pkg_addr p) →
  match add_to_group n p grps with
  | None => n ∉ map grp_name grps
  | Some grps' => ∃ l1 g l2, grps = l1 ++ g :: l2 ∧ grp_name g = n ∧
      grps' = l1 ++ mk_group n (grp_packages g ++ [p]) :: l2
  end.
Proof.
  induction grps as [|g grps IH]; intros Hf; simpl; [set_solver|].
  destruct (streq (grp_name g) n) eqn:E; simpl.
  - apply streq_true in E. destruct (alpm_list_find_ptr (grp_packages g) p) eqn:Ef; simpl.
    + apply find_ptr_spec in Ef. destruct (Hf g (list_elem_of_here _ _) E Ef).
    + exists [], g, grps. rewrite E. done.
  - apply streq_false in E. specialize (IH (λ g' H, Hf g' (list_elem_of_further _ _ _ H))).
    destruct (add_to_group n p grps) as [grps'|]; simpl.
    + destruct IH as (l1 & g1 & l2 & -> & Hn & ->). by exists (g :: l1), g1, l2.
    + apply not_elem_of_cons. split; [congruence|done].
Qed.

Lemma elem_of_members ms n q : q ∈ members ms n ↔ (q, n) ∈ ms.
Proof.
  unfold members. rewrite list_elem_of_fmap. split.
  - intros ([q' n'] & -> & H). apply elem_of_bfilter in H as [H E].
    apply streq_true in E. simpl in *. by subst.
  - intros H. exists (q, n). split; [done|]. apply elem_of_bfilter. simpl.
    by rewrite streq_refl.
Qed.

Lemma load_group_ok ms grps p n :
  groups_ok ms grps → (∀ q, (q, n) ∈ ms → pkg_addr q ≠ pkg_addr p) →
  groups_ok (ms ++ [(p, n)]) (load_group p grps n).
Proof.
  intros [G1 G2 G3] Hnew. unfold load_group.
  pose proof (add_to_group_spec n p grps) as H.
  assert (∀ g, g ∈ grps → grp_name g = n →
            ¬ ∃ q, q ∈ grp_packages g ∧ pkg_addr q = pkg_addr p) as Hf.
  { intros g Hg Hn (q & Hq & Ea). destruct (G2 g Hg) as [Em _]. rewrite Em, Hn in Hq.
    apply elem_of_members in Hq. by apply (Hnew q). }
  specialize (H Hf). destruct (add_to_group n p grps) as [grps'|].
  - destruct H as (l1 & g & l2 & -> & Hn & ->).
    rewrite map_app in G1. simpl in G1.
    assert (∀ g', g' ∈ l1 ++ l2 → grp_name g' ≠ n) as Hoth.
    { intros g' Hg' E. rewrite <-Permutation_middle in G1. apply NoDup_cons in G1 as [G1 _].
      apply G1. rewrite Hn, <-E, <-map_app. by apply list_elem_of_fmap_2. }
    split.
    + rewrite map_app. simpl. by rewrite <-Hn.
    + intros g' Hg'. rewrite members_snoc. rewrite elem_of_app, elem_of_cons in Hg'.
      assert (g' = mk_group n (grp_packages g ++ [p]) ∨ g' ∈ l1 ++ l2) as [->|Hg''].
      { rewrite elem_of_app. tauto. }
      * simpl. rewrite streq_refl. destruct (G2 g) as [-> _]; [set_solver|]. rewrite Hn.
        split; [done|]. by destruct (members ms n).
      * destruct (streq n (grp_name g')) eqn:Es.
        { apply streq_true in Es. by destruct (Hoth g' Hg''). }
        rewrite app_nil_r. apply G2. rewrite elem_of_app in Hg''. set_solver.
    + intros m Hm. rewrite map_app. simpl. rewrite <-Hn.
      apply elem_of_app in Hm as [Hm|Hm%list_elem_of_singleton].
      * specialize (G3 m Hm). by rewrite map_app in G3.
      * subst m. simpl. rewrite Hn, elem_of_app. right. apply list_elem_of_here.
  - split.
    + rewrite map_app. simpl. apply NoDup_app. split_and!; [done| |apply NoDup_singleton].
      intros x Hx ->%list_elem_of_singleton. done.
    + intros g Hg. rewrite members_snoc. apply elem_of_app in Hg as [Hg|Hg%list_elem_of_singleton].
      * destruct (streq n (grp_name g)) eqn:Es.
        { apply streq_true in Es. destruct H. rewrite Es. by apply list_elem_of_fmap_2. }
        rewrite app_nil_r. by apply G2.
      * subst g. simpl. rewrite streq_refl. split; [|done].
        assert (members ms n = []) as ->; [|done].
        destruct (members ms n) as [|q l] eqn:E; [done|]. destruct H. apply (G3 (q, n)).
        apply elem_of_members. rewrite E. apply list_elem_of_here.
    + intros m Hm. rewrite map_app, elem_of_app.
      apply elem_of_app in Hm as [Hm|Hm%list_elem_of_singleton]; [left; by apply G3|].
      subst m. right. apply list_elem_of_here.
Qed.

Lemma load_memberships_ok ms done_ grps :
  groups_ok done_ grps →
  NoDup (map (λ m, (pkg_addr m.1, m.2)) (done_ ++ ms)) →
  groups_ok (done_ ++ ms) (fold_left (λ grps m, load_group m.1 grps m.2) ms grps).
Proof.
  revert done_ grps. induction ms as [|[p n] ms IH]; intros done_ grps Hg Hnd; simpl.
  - by rewrite app_nil_r.
  - rewrite (cons_middle (p, n) done_ ms), app_assoc in *. apply IH; [|done].
    apply load_group_ok; [done|]. intros q Hq E.
    rewrite <-app_assoc, map_app in Hnd. simpl in Hnd.
    rewrite <-Permutation_middle in Hnd. apply NoDup_cons in Hnd as [Hnd _]. apply Hnd.
    apply elem_of_app. left. apply list_elem_of_fmap. exists (q, n). by rewrite <-E.
Qed.

(** The members of a group are the packages that list it, in cache order. *)
Lemma members_memberships pkgs n :
  (∀ p, p ∈ pkgs → NoDup (pkg_groups p)) →
  members (memberships pkgs) n = List.filter (λ p, existsb (streq n) (pkg_groups p)) pkgs.
Proof.
  unfold memberships. induction pkgs as [|p pkgs IH]; intros Hnd; [done|]. simpl.
  rewrite members_app, IH by (intros q Hq; by apply Hnd, list_elem_of_further).
  assert (members (map (pair p) (pkg_groups p)) n =
          if existsb (streq n) (pkg_groups p) then [p] else []) as ->.
  2:{ by destruct (existsb _ _). }
  specialize (Hnd p (list_elem_of_here _ _)). unfold members.
  induction Hnd as [|g l Hg Hl IHl]; simpl; [done|].
  destruct (streq g n) eqn:E.
  - apply streq_true in E as ->. rewrite streq_refl. simpl. rewrite IHl.
    assert (existsb (streq n) l = false) as ->; [|done].
    apply not_true_iff_false. intros (x & Hx%list_elem_of_In & E)%existsb_exists.
    by apply streq_true in E as <-.
  - assert (streq n g = false) as ->
      by (apply streq_false; apply streq_false in E; congruence). simpl. apply IHl.
Qed.

Lemma memberships_nodup pkgs :
  NoDup (map pkg_addr pkgs) → (∀ p, p ∈ pkgs → NoDup (pkg_groups p)) →
  NoDup (map (λ m, (pkg_addr m.1, m.2)) (memberships pkgs)).
Proof.
  unfold memberships. induction pkgs as [|p pkgs IH]; intros Ha Hg; simpl; [constructor|].
  apply NoDup_cons in Ha as [Hp Ha]. rewrite map_app, map_map. simpl. apply NoDup_app. split_and!.
  - apply NoDup_fmap_2; [|by apply Hg, list_elem_of_here]. intros x y. by intros [= ->].
  - intros [a g] H1 H2. apply list_elem_of_fmap in H1 as (n & [= -> ->] & _).
    apply list_elem_of_fmap in H2 as ([q n'] & [= E ->] & Hq).
    apply elem_of_flat_map in Hq as (q' & Hq' & Hin). apply list_elem_of_fmap in Hin as (x & [= -> ->] & _).
    apply Hp. rewrite E. by apply list_elem_of_fmap_2.
  - apply IH; [done|]. intros q Hq. by apply Hg, list_elem_of_further.
Qed.

(** ** Facts: registration *)

(** The names of the sync databases: distinct, not empty, not "local", and
    without a slash, so that their files are distinct. *)
Record dbs_ok (h : alpm_handle_t) : Prop := {
  ds_nodup : NoDup (map db_treename (h_dbs_sync h));
  ds_names : Forall (λ n, n ≠ [] ∧ n ≠ str "local" ∧ "/"%char ∉ n)
               (map db_treename (h_dbs_sync h))
}.

Lemma sync_db_validate_spec env h db h' db' rc :
  sync_db_validate env h db = (h', db', rc) →
  h_dbs_sync h' = h_dbs_sync h ∧ h_trans h' = h_trans h ∧ db_treename db' = db_treename db ∧
  (has_flag (db_status db) DB_STATUS_VALID = false →
   has_flag (db_status db) DB_STATUS_MISSING = false →
   (rc = 0 ↔ has_flag (db_status db') DB_STATUS_VALID = true)).
Proof.
  unfold sync_db_validate.
  destruct (has_flag (db_status db) DB_STATUS_VALID) eqn:Ev; simpl; [by intros [= <- <- <-]|].
  destruct (has_flag (db_status db) DB_STATUS_MISSING) eqn:Em; simpl; [by intros [= <- <- <-]|].
  destruct (has_flag (db_status db) DB_STATUS_INVALID) eqn:Ei; simpl.
  { intros [= <- <- <-]. split_and!; try done. intros _ _. by rewrite Ev. }
  destruct (alpm_db_path h db) as [path|].
  2:{ intros [= <- <- <-]. split_and!; try done. intros _ _. by rewrite Ev. }
  destruct (db_file_missing env path).
  { intros [= <- <- <-]. split_and!; try done. intros _ _. cbn. by flags. }
  destruct (_ && _); intros [= <- <- <-]; split_and!; try done; intros _ _; cbn; by flags.
Qed.

Lemma register_ok env h treename level :
  dbs_ok h →
  (let '(h', r) := alpm_register_syncdb env h treename level in
   dbs_ok h' ∧
   match r with
   | Some new => treename = Some (db_treename new) ∧ h_trans h = None ∧
                 h_dbs_sync h' = h_dbs_sync h ++ [new]
   | None => h_dbs_sync h' = h_dbs_sync h ∧
       (h_pm_errno h' = ALPM_ERR_TRANS_NOT_NULL ∧ is_Some (h_trans h) ∨
        h_pm_errno h' = ALPM_ERR_WRONG_ARGS ∧
          (∀ n, treename = Some n → n = [] ∨ "/"%char ∈ n) ∨
        h_pm_errno h' = ALPM_ERR_DB_NOT_NULL ∧
          (∀ n, treename = Some n → n = str "local" ∨ n ∈ map db_treename (h_dbs_sync h)))
   end).
Proof.
  intros [Hn Hf].
  unfold alpm_register_syncdb. set (h0 := check_handle h).
  assert (∀ e, dbs_ok (set_errno e h0)) as Hsame by (intros e; by split).
  destruct treename as [[|c n]|].
  1:{ split; [done|]. split; [done|]. right. left. split; [done|]. intros n [= <-]. by left. }
  2:{ split; [done|]. split; [done|]. right. left. by split. }
  destruct (split_first "/"%char (c :: n)) as [[a b]|] eqn:Es; cbn [is_some].
  { split; [done|]. split; [done|]. right. left. split; [done|]. intros ? [= <-]. right.
    apply split_first_Some in Es as [-> _]. set_solver. }
  apply split_first_None in Es.
  destruct (h_trans h0) as [t|] eqn:Et; cbn [is_some].
  { split; [done|]. split; [done|]. left. split; [done|]. exists t. exact Et. }
  destruct (streq (c :: n) (str "local")) eqn:El.
  { split; [done|]. split; [done|]. right. right. split; [done|]. intros ? [= <-]. left.
    by apply streq_true. }
  destruct (existsb _ _) eqn:Ex.
  { split; [done|]. split; [done|]. right. right. split; [done|]. intros ? [= <-]. right.
    apply existsb_exists in Ex as (d & Hd%list_elem_of_In & E). apply streq_true in E. rewrite E.
    by apply list_elem_of_fmap_2. }
  unfold alpm_db_register_sync.
  destruct (sync_db_validate env h0 _) as [[h1 new] rc] eqn:Ev.
  apply sync_db_validate_spec in Ev as (E1 & E2 & E3 & _). cbn in E3.
  split; [|by rewrite E3; split_and!; [|exact Et|cbn; rewrite E1]].
  split; cbn; rewrite E1, map_app; cbn; rewrite E3.
  + apply NoDup_app. split_and!; [exact Hn| |apply NoDup_singleton].
    intros x Hx ->%list_elem_of_singleton. apply list_elem_of_fmap in Hx as (d & E & Hd).
    rewrite <-not_true_iff_false, existsb_exists in Ex. apply Ex. exists d.
    split; [by apply list_elem_of_In|]. by apply streq_true.
  + apply Forall_app. split; [exact Hf|]. repeat constructor; try done. by apply streq_false.
Qed.

Lemma unregister_ok h db :
  dbs_ok h →
  (let '(h', rc) := alpm_db_unregister h db in
   dbs_ok h' ∧
   if rc =? 0
   then map db_treename (h_dbs_sync h) ≡ₚ db_treename db :: map db_treename (h_dbs_sync h')
   else h_dbs_sync h' = h_dbs_sync h).
Proof.
  intros [Hn Hf].
  unfold alpm_db_unregister. set (h0 := check_handle h).
  destruct (is_some (h_trans h0)); cbn; [by split|].
  pose proof (list_remove_spec alpm_db_cmp (h_dbs_sync h) db) as H.
  destruct (alpm_list_remove alpm_db_cmp (h_dbs_sync h) db) as [l [x|]]; cbn.
  + destruct H as (l1 & l2 & El & -> & Hx & _). unfold alpm_db_cmp in Hx. apply strcmp_eq in Hx.
    rewrite El, map_app in Hn, Hf. cbn in Hn, Hf. rewrite <-Permutation_middle in Hn, Hf.
    apply NoDup_cons in Hn as [_ Hn]. apply Forall_cons in Hf as [_ Hf].
    split; [by split; cbn; rewrite map_app|]. rewrite El, !map_app. cbn.
    by rewrite <-Permutation_middle, Hx.
  + destruct H as [-> _]. by split.
Qed.

(** Whether a package matches a needle that compiles. *)
Definition needle_match (regcomp : regcomp_t) (pkg : alpm_pkg_t) (targ : cstr) : bool :=
  match regcomp targ with Some reg => search_match targ reg pkg | None => false end.

Lemma search_needles_spec regcomp needles found ret :
  match search_needles regcomp needles found ret with
  | inl e => e = ALPM_ERR_INVALID_REGEX ∧ ∃ t, Some t ∈ needles ∧ regcomp t = None
  | inr l => (∀ t, Some t ∈ needles → is_Some (regcomp t)) ∧
      l = match omap id needles with
          | [] => ret
          | ts => List.filter (λ p, forallb (needle_match regcomp p) ts) found
          end
  end.
Proof.
  revert found ret. induction needles as [|[targ|] needles IH]; intros found ret; simpl.
  - split; [set_solver|done].
  - destruct (regcomp targ) as [reg|] eqn:E.
    2:{ split; [done|]. exists targ. split; [apply list_elem_of_here|done]. }
    specialize (IH (List.filter (search_match targ reg) found)
                   (List.filter (search_match targ reg) found)).
    destruct (search_needles _ _ _ _) as [e|l].
    + destruct IH as (-> & t & Ht & E'). split; [done|]. exists t.
      split; [by apply list_elem_of_further|done].
    + destruct IH as [Hall ->]. split.
      { intros t [[= ->]|Ht]%elem_of_cons; [by rewrite E|by apply Hall]. }
      assert (∀ ts, List.filter (λ p, forallb (needle_match regcomp p) ts)
                      (List.filter (search_match targ reg) found) =
                    List.filter (λ p, forallb (needle_match regcomp p) (targ :: ts)) found) as Hff.
      { intros ts. simpl. unfold needle_match at 2. rewrite E.
        induction found as [|p found IHf]; simpl; [done|].
        destruct (search_match targ reg p); simpl; [|done]. by rewrite IHf. }
      etrans; [|apply (Hff (omap id needles))]. destruct (omap id needles); [|done]. cbn [forallb]. clear Hff.
      induction (List.filter (search_match targ reg) found) as [|p l IHl]; simpl; [done|].
      by f_equal.
  - specialize (IH found ret). destruct (search_needles _ _ _ _) as [e|l].
    + destruct IH as (-> & t & Ht & E'). split; [done|]. exists t.
      split; [by apply list_elem_of_further|done].
    + destruct IH as [Hall ->]. split; [|done].
      intros t [?|Ht]%elem_of_cons; [done|by apply Hall].
Qed.

(** ** Properties *)

(** C33. The caches of a database stay consistent: however they are loaded,
    changed and freed, the package cache satisfies the invariant of the hash
    table, the status flags say what is loaded, and the group cache that the
    next request returns is the one computed from the current packages (it is
    never stale), provided the back end can load the packages. *)
Theorem db_cache_invariant populate base s s' :
  populates populate base → db_ok s.2 → addrs_ok base s.1 s.2 → db_reaches populate s s' →
  db_ok s'.2 ∧
  (has_flag (db_status s'.2) DB_STATUS_VALID = true →
   let '(_, db, grps) := alpm_db_get_groupcache populate s'.1 s'.2 in
   grps = load_groups (db_packages db) []).
Proof.
  intros Hpop Hok Ha Hr. induction Hr as [[h db]|s op s' Hop Hr IH].
  - split; [done|]. intros Hv. simpl in *.
    destruct (alpm_db_get_groupcache populate h db) as [[h' db'] grps] eqn:E.
    destruct (get_groupcache_ok populate base Hpop _ _ _ _ _ Hok Ha E) as (_ & _ & H). by apply H.
  - destruct (run_db_op_ok populate base s op Hpop Hok Ha Hop) as [H1 H2]. by apply IH.
Qed.

(** The group cache: for packages that list no group twice, there is one
    group per name, its packages are those that list it, in the order of the
    cache, and every group some package lists is there. *)
Theorem group_cache_correct pkgs :
  NoDup (map pkg_addr pkgs) → (∀ p, p ∈ pkgs → NoDup (pkg_groups p)) →
  let grps := load_groups pkgs [] in
  NoDup (map grp_name grps) ∧
  (∀ g, g ∈ grps → grp_packages g ≠ [] ∧
     grp_packages g = List.filter (λ p, existsb (streq (grp_name g)) (pkg_groups p)) pkgs) ∧
  (∀ p n, p ∈ pkgs → n ∈ pkg_groups p → n ∈ map grp_name grps).
Proof.
  intros Ha Hg grps. unfold grps. rewrite load_groups_memberships.
  destruct (load_memberships_ok (memberships pkgs) [] []) as [G1 G2 G3].
  - split; [constructor|..]; intros x Hx; by apply not_elem_of_nil in Hx.
  - by apply memberships_nodup.
  - simpl in *. split_and!; [done|..].
    + intros g Hin. destruct (G2 g Hin) as [E Hne]. split; [done|].
      by rewrite E, members_memberships.
    + intros p n Hp Hn. apply (G3 (p, n)). apply elem_of_flat_map. exists p. split; [done|].
      by apply list_elem_of_fmap_2.
Qed.

(** A stale group cache: if the groups are asked for while the packages
    cannot be loaded (a database that has not been downloaded yet), the empty
    group cache counts as loaded, and it survives the loading of the packages
    afterwards, because freeing a package cache that was never loaded does not
    free the group cache. *)
Theorem groupcache_stale (h : alpm_handle_t) (db : alpm_db_t) (hash : alpm_pkghash_t) :
  has_flag (db_status db) DB_STATUS_VALID = true → db_pkgcache db = None → db_grpcache db = [] →
  has_flag (db_status db) DB_STATUS_PKGCACHE = false →
  has_flag (db_status db) DB_STATUS_GRPCACHE = false →
  let '(h1, db1, _) := alpm_db_get_groupcache (λ _, None) h db in
  let db2 := alpm_db_free_pkgcache db1 in
  let '(h3, db3, hash3) := get_pkgcache_hash (λ _, Some hash) h1 db2 in
  let '(_, _, grps) := alpm_db_get_groupcache (λ _, Some hash) h3 db3 in
  hash3 = Some hash ∧ grps = [].
Proof.
  destruct db as [n pc gc cs sv st sl us]. cbn -[has_flag]. intros Hv -> -> Hf Hf2.
  unfold alpm_db_get_groupcache at 1. cbn -[has_flag]. rewrite Hv, Hf2. cbn -[has_flag].
  unfold load_grpcache, get_pkgcache_hash at 1. cbn -[has_flag]. rewrite Hv, Hf. cbn -[has_flag].
  unfold get_pkgcache_hash. cbn -[has_flag]. flags. rewrite Hv, Hf. cbn -[has_flag].
  unfold alpm_db_get_groupcache. cbn -[has_flag]. flags. by rewrite Hv.
Qed.

(** Searching a database returns the packages of the cache, in order,
    that match all the needles; without needles, or when the database is not
    used for searching, nothing; and an error exactly when a needle is not a
    regular expression. *)
Theorem db_search_correct regcomp db needles :
  let ts := omap id needles in
  match alpm_db_search regcomp db needles with
  | inl e => e = ALPM_ERR_INVALID_REGEX ∧ has_flag (db_usage db) ALPM_DB_USAGE_SEARCH = true ∧
             ∃ t, t ∈ ts ∧ regcomp t = None
  | inr l => if has_flag (db_usage db) ALPM_DB_USAGE_SEARCH
             then (∀ t, t ∈ ts → is_Some (regcomp t)) ∧
                  l = (if decide (ts = []) then []
                       else List.filter (λ p, forallb (needle_match regcomp p) ts)
                              (alpm_db_get_pkgcache db))
             else l = []
  end.
Proof.
  cbv zeta. unfold alpm_db_search. destruct (has_flag _ _) eqn:Eu; cbn [negb]; [|done].
  pose proof (search_needles_spec regcomp needles (alpm_db_get_pkgcache db) []) as H.
  assert (∀ t, Some t ∈ needles ↔ t ∈ omap id needles) as Ht.
  { intros t. rewrite list_elem_of_omap. split; [intros; by exists (Some t)|]. intros (o & Ho & E). by rewrite <-E. }
  destruct (search_needles _ _ _ _) as [e|l].
  - destruct H as (-> & t & Hin & E). split_and!; [done..|]. exists t. split; [by apply Ht|done].
  - destruct H as [H1 H2]. split; [intros t Hin; by apply H1, Ht|].
    rewrite H2. by destruct (omap id needles).
Qed.

(** The names of the sync databases stay distinct and well formed:
    registering refuses exactly the names that are empty, have a slash, are
    "local" or are in use, or a registration during a transaction, and
    otherwise appends the new database; unregistering removes exactly the
    database of that name. *)
Theorem registration_correct env h treename level db :
  dbs_ok h →
  (let '(h', r) := alpm_register_syncdb env h treename level in
   dbs_ok h' ∧
   match r with
   | Some new => treename = Some (db_treename new) ∧ h_trans h = None ∧
                 h_dbs_sync h' = h_dbs_sync h ++ [new]
   | None => h_dbs_sync h' = h_dbs_sync h ∧
       (h_pm_errno h' = ALPM_ERR_TRANS_NOT_NULL ∧ is_Some (h_trans h) ∨
        h_pm_errno h' = ALPM_ERR_WRONG_ARGS ∧
          (∀ n, treename = Some n → n = [] ∨ "/"%char ∈ n) ∨
        h_pm_errno h' = ALPM_ERR_DB_NOT_NULL ∧
          (∀ n, treename = Some n → n = str "local" ∨ n ∈ map db_treename (h_dbs_sync h)))
   end) ∧
  (let '(h', rc) := alpm_db_unregister h db in
   dbs_ok h' ∧
   if rc =? 0
   then map db_treename (h_dbs_sync h) ≡ₚ db_treename db :: map db_treename (h_dbs_sync h')
   else h_dbs_sync h' = h_dbs_sync h).
Proof. intros H. split; [by apply register_ok|by apply unregister_ok]. Qed.

(** ** Examples *)
Definition in_groups (groups : list cstr) (p : alpm_pkg_t) : alpm_pkg_t :=
  mk_pkg (pkg_addr p) (pkg_name_hash p) None None (pkg_name p) (pkg_version p) None None None
    None None None 0 0 0 0 0 [] [] groups [] (pkg_depends p) [] [] [] (pkg_conflicts p)
    (pkg_provides p) [] None [] (pkg_origin p) (pkg_reason p) 0 [] 0 0.

Definition ex_grp_pkgs : list alpm_pkg_t :=
  [in_groups [str "base"] (ex_glibc "2.39-1"); in_groups [str "base"; str "shells"] ex_bash].

Definition ex_grp_hash : option alpm_pkghash_t := db_pkgcache (list_db (str "core") 0 ex_grp_pkgs).
Definition ex_unloaded : alpm_db_t := db_set_status DB_STATUS_VALID (alpm_db_new (str "core") false).

Lemma ex_grp_hash_ne : ex_grp_hash ≠ None.
Proof. vm_compute. discriminate. Qed.

Lemma ex_grp_populates hash : ex_grp_hash = Some hash → populates (λ _, Some hash) 10.
Proof.
  intros E db. exists hash. split; [done|]. split.
  - assert (db_inv (list_db (str "core") 0 ex_grp_pkgs)) as Hi.
    { unfold db_inv. fold ex_grp_hash. rewrite E. unfold ex_grp_hash, list_db in E. cbn [db_pkgcache] in E.
      destruct (alpm_pkghash_create 20) as [h0|] eqn:Ec; [|done].
      destruct (create_inv _ _ Ec) as (Hi & Hnil & _).
      apply (add_all_inv h0 ex_grp_pkgs); [done|by repeat constructor| | |done]; rewrite Hnil;
        apply (bool_decide_unpack _); vm_compute; exact I. }
    unfold db_inv in Hi. fold ex_grp_hash in Hi. by rewrite E in Hi.
  - assert (Forall (λ p, (pkg_addr p < 10)%nat)
      (match ex_grp_hash with Some hash => hash_list hash | None => [] end)) as H
      by (apply (bool_decide_unpack _); vm_compute; exact I).
    by rewrite E in H.
Qed.

Lemma ex_unloaded_ok : db_ok ex_unloaded.
Proof. by split. Qed.

(** The empty database that is loaded, asked for its groups and then changed. *)
Lemma db_cache_invariant_witness :
  ∃ hash, ex_grp_hash = Some hash ∧
    db_ok (run_db_op (λ _, Some hash) (run_db_op (λ _, Some hash)
             (set_next 20 empty_handle, ex_unloaded) DbGroupcache) (DbRemove ex_bash)).2.
Proof.
  destruct ex_grp_hash as [hash|] eqn:E; [|contradiction (ex_grp_hash_ne E)].
  exists hash. split; [reflexivity|].
  refine (proj1 (db_cache_invariant (λ _, Some hash) 10 (set_next 20 empty_handle, ex_unloaded) _
    (ex_grp_populates hash E) ex_unloaded_ok _ _)).
  - split; [apply (bool_decide_unpack _); vm_compute; exact I|constructor].
  - eapply (db_reaches_step _ _ DbGroupcache); [exact I|].
    eapply (db_reaches_step _ _ (DbRemove ex_bash)); [reflexivity|]. apply db_reaches_refl.
Defined.

Lemma group_cache_correct_witness :
  NoDup (map grp_name (load_groups ex_grp_pkgs [])) ∧
  map grp_name (load_groups ex_grp_pkgs []) = [str "base"; str "shells"].
Proof.
  split; [|reflexivity].
  apply (group_cache_correct ex_grp_pkgs).
  - apply (bool_decide_unpack _). vm_compute. exact I.
  - intros p Hp. unfold ex_grp_pkgs in Hp.
    apply elem_of_cons in Hp as [->|Hp]; [apply (bool_decide_unpack _); vm_compute; exact I|].
    apply list_elem_of_singleton in Hp as ->. apply (bool_decide_unpack _). vm_compute. exact I.
Defined.

Lemma groupcache_stale_witness :
  match ex_grp_hash with
  | Some hash =>
      let '(h1, db1, _) := alpm_db_get_groupcache (λ _, None) empty_handle ex_unloaded in
      let '(h3, db3, hash3) :=
        get_pkgcache_hash (λ _, Some hash) h1 (alpm_db_free_pkgcache db1) in
      let '(_, _, grps) := alpm_db_get_groupcache (λ _, Some hash) h3 db3 in
      hash3 = Some hash ∧ grps = []
  | None => False
  end.
Proof.
  destruct ex_grp_hash as [hash|] eqn:E; [|contradiction (ex_grp_hash_ne E)].
  exact (groupcache_stale empty_handle ex_unloaded hash eq_refl eq_refl eq_refl eq_refl eq_refl).
Defined.

Lemma registration_correct_witness :
  let env := mk_db_env (λ _, true) (λ _ _, true) in
  let '(h', r) := alpm_register_syncdb env empty_handle (Some (str "core")) 0 in
  dbs_ok h' ∧ map db_treename (h_dbs_sync h') = [str "core"].
Proof.
  assert (dbs_ok empty_handle) as Hok by (split; constructor).
  pose proof (proj1 (registration_correct (mk_db_env (λ _, true) (λ _ _, true)) empty_handle
    (Some (str "core")) 0 (empty_db (str "core")) Hok)) as H.
  split; [exact (proj1 H)|reflexivity].
Defined.
