(* ===== verification/Sync.v ===== *)
(** * Targets, system upgrades and preparing a sync transaction

    lib/libalpm/add.c (alpm_add_pkg) and sync.c: version queries, the system
    upgrade, group members, and _alpm_sync_prepare, which resolves
    dependencies, settles conflicts, collects the removals and checks the
    result. The program updates target packages in place; here the updated
    package is stored in the transaction's list, under the same address, and
    the fields concerned (reason, removes, oldpkg, download size) are only read
    from there. All packages belong to the one handle of the model. *)
From S2P Require Import Prelude CString Version AlpmList Util Package PkgHash Handle Deps ResolveDeps.
From S2P Require Import FileList Conflict Remove Db.
Local Open Scope Z_scope.

(** ** Updates of a target package *)
Definition upd_target (reason : alpm_pkgreason_t) (removes : list alpm_pkg_t)
    (oldpkg : option alpm_pkg_t) (infolevel dsize : Z) (p : alpm_pkg_t) : alpm_pkg_t :=
  mk_pkg (pkg_addr p) (pkg_name_hash p) (pkg_filename p) (pkg_base p) (pkg_name p)
    (pkg_version p) (pkg_desc p) (pkg_url p) (pkg_packager p) (pkg_sha256sum p)
    (pkg_base64_sig p) (pkg_arch p) (pkg_builddate p) (pkg_installdate p) (pkg_size p)
    (pkg_isize p) dsize (pkg_licenses p) (pkg_replaces p) (pkg_groups p) (pkg_backup p)
    (pkg_depends p) (pkg_optdepends p) (pkg_checkdepends p) (pkg_makedepends p)
    (pkg_conflicts p) (pkg_provides p) removes oldpkg (pkg_files p) (pkg_origin p) reason
    (pkg_scriptlet p) (pkg_xdata p) infolevel (pkg_validation p).

Definition with_reason (r : alpm_pkgreason_t) (p : alpm_pkg_t) : alpm_pkg_t :=
  upd_target r (pkg_removes p) (pkg_oldpkg p) (pkg_infolevel p) (pkg_download_size p) p.
Definition with_removes (l : list alpm_pkg_t) (p : alpm_pkg_t) : alpm_pkg_t :=
  upd_target (pkg_reason p) l (pkg_oldpkg p) (pkg_infolevel p) (pkg_download_size p) p.
Definition with_oldpkg (o : option alpm_pkg_t) (p : alpm_pkg_t) : alpm_pkg_t :=
  upd_target (pkg_reason p) (pkg_removes p) o (pkg_infolevel p) (pkg_download_size p) p.
Definition with_dsize (infolevel dsize : Z) (p : alpm_pkg_t) : alpm_pkg_t :=
  upd_target (pkg_reason p) (pkg_removes p) (pkg_oldpkg p) infolevel dsize p.

(** Assignment through a pointer to a package of the list. *)
Definition upd_ptr (f : alpm_pkg_t → alpm_pkg_t) (q : alpm_pkg_t) (l : list alpm_pkg_t)
    : list alpm_pkg_t :=
  map (λ p, if ptr_eq p q then f p else p) l.

(** ** alpm_add_pkg *)
Definition alpm_add_pkg (h : alpm_handle_t) (pkg : option alpm_pkg_t) : alpm_handle_t * Z :=
  let h := check_handle h in
  match pkg with
  | None => ret_err ALPM_ERR_WRONG_ARGS h
  | Some pkg =>
      match pkg_origin pkg, h_trans h with
      | ALPM_PKG_FROM_LOCALDB _, _ => ret_err ALPM_ERR_WRONG_ARGS h
      | _, None => ret_err ALPM_ERR_TRANS_NULL h
      | _, Some trans =>
          if negb (bool_decide (t_state trans = STATE_INITIALIZED))
          then ret_err ALPM_ERR_TRANS_NOT_INITIALIZED h
          else
            match alpm_pkg_find (t_add trans) (pkg_name pkg) with
            | Some dup => if ptr_eq dup pkg then (h, 0) else ret_err ALPM_ERR_TRANS_DUP_TARGET h
            | None =>
                let up_to_date :=
                  match alpm_db_get_pkgfromcache (h_db_local h) (pkg_name pkg) with
                  | Some local => alpm_pkg_compare_versions pkg local =? 0
                  | None => false
                  end in
                if up_to_date && has_flag (t_flags trans) ALPM_TRANS_FLAG_NEEDED then (h, 0)
                else (upd_trans (with_add (t_add trans ++
                        [with_reason ALPM_PKG_REASON_EXPLICIT pkg])) h, 0)
            end
      end
  end.

(** ** Version queries and the system upgrade *)

(** alpm_sync_get_new_version *)
Fixpoint find_in_dbs (dbs : list alpm_db_t) (name : cstr) : option alpm_pkg_t :=
  match dbs with
  | [] => None
  | db :: dbs' =>
      match alpm_db_get_pkgfromcache db name with
      | Some spkg => Some spkg
      | None => find_in_dbs dbs' name
      end
  end.

Definition alpm_sync_get_new_version (pkg : alpm_pkg_t) (dbs_sync : list alpm_db_t)
    : option alpm_pkg_t :=
  match find_in_dbs dbs_sync (pkg_name pkg) with
  | None => None
  | Some spkg => if 0 <? alpm_pkg_compare_versions spkg pkg then Some spkg else None
  end.

Section upgrade.
Context (env : alpm_env).

Definition check_literal (h : alpm_handle_t) (lpkg spkg : alpm_pkg_t) (enable_downgrade : bool)
    : bool :=
  let cmp := alpm_pkg_compare_versions spkg lpkg in
  let ignored := should_ignore env h spkg || should_ignore env h lpkg in
  if 0 <? cmp then negb ignored
  else if cmp <? 0 then enable_downgrade && negb ignored
  else false.

(** The body of the loop of check_replacers: trans->add and the replacers. *)
Definition check_replacer (h : alpm_handle_t) (lpkg : alpm_pkg_t) (sdb : alpm_db_t)
    (st : list alpm_pkg_t * list alpm_pkg_t) (spkg : alpm_pkg_t)
    : list alpm_pkg_t * list alpm_pkg_t :=
  let '(add, replacers) := st in
  if negb (existsb (alpm_depcmp_literal lpkg) (pkg_replaces spkg)) then st
  else if should_ignore env h spkg || should_ignore env h lpkg then st
  else if negb (q_replace_pkg env lpkg spkg) then st
  else
    match alpm_pkg_find add (pkg_name spkg) with
    | Some tpkg =>
        if negb (match pkg_origin tpkg with
                 | ALPM_PKG_FROM_SYNCDB n | ALPM_PKG_FROM_LOCALDB n => streq n (db_treename sdb)
                 | ALPM_PKG_FROM_FILE _ => false
                 end) then st
        else
          (upd_ptr (λ t,
             let t := with_removes (pkg_removes t ++ [lpkg]) t in
             if bool_decide (pkg_reason lpkg = ALPM_PKG_REASON_EXPLICIT)
             then with_reason ALPM_PKG_REASON_EXPLICIT t else t) tpkg add, replacers)
    | None =>
        (add, replacers ++ [with_removes [lpkg] (with_reason (pkg_reason lpkg) spkg)])
    end.

Definition check_replacers (h : alpm_handle_t) (lpkg : alpm_pkg_t) (sdb : alpm_db_t)
    (add : list alpm_pkg_t) : list alpm_pkg_t * list alpm_pkg_t :=
  fold_left (check_replacer h lpkg sdb) (alpm_db_get_pkgcache sdb) (add, []).

(** The loop over the sync databases for one local package. *)
Fixpoint upgrade_from (h : alpm_handle_t) (enable_downgrade : bool) (lpkg : alpm_pkg_t)
    (dbs : list alpm_db_t) (add : list alpm_pkg_t) : list alpm_pkg_t :=
  match dbs with
  | [] => add
  | sdb :: dbs' =>
      if negb (has_flag (db_usage sdb) ALPM_DB_USAGE_UPGRADE)
      then upgrade_from h enable_downgrade lpkg dbs' add
      else
        let '(add, replacers) := check_replacers h lpkg sdb add in
        match replacers with
        | _ :: _ => add ++ replacers
        | [] =>
            match alpm_db_get_pkgfromcache sdb (pkg_name lpkg) with
            | Some spkg => if check_literal h lpkg spkg enable_downgrade then add ++ [spkg] else add
            | None => upgrade_from h enable_downgrade lpkg dbs' add
            end
        end
  end.

Definition upgrade_one (h : alpm_handle_t) (enable_downgrade : bool) (add : list alpm_pkg_t)
    (lpkg : alpm_pkg_t) : list alpm_pkg_t :=
  if is_some (alpm_pkg_find (trans_remove h) (pkg_name lpkg)) then add
  else if is_some (alpm_pkg_find add (pkg_name lpkg)) then add
  else upgrade_from h enable_downgrade lpkg (h_dbs_sync h) add.

Definition alpm_sync_sysupgrade (h : alpm_handle_t) (enable_downgrade : bool)
    : alpm_handle_t * Z :=
  let h := check_handle h in
  match h_trans h with
  | None => ret_err ALPM_ERR_TRANS_NULL h
  | Some trans =>
      if negb (bool_decide (t_state trans = STATE_INITIALIZED))
      then ret_err ALPM_ERR_TRANS_NOT_INITIALIZED h
      else
        let add := fold_left (upgrade_one h enable_downgrade)
                     (alpm_db_get_pkgcache (h_db_local h)) (t_add trans) in
        (upd_trans (with_add add) h, 0)
  end.

(** The loop of alpm_find_group_pkgs over the packages of a group, with the
    packages found and the ignore list. *)
Definition group_pkg (h : alpm_handle_t) (st : list alpm_pkg_t * list alpm_pkg_t)
    (pkg : alpm_pkg_t) : list alpm_pkg_t * list alpm_pkg_t :=
  let '(pkgs, ignorelist) := st in
  let take := if is_some (alpm_pkg_find pkgs (pkg_name pkg)) then pkgs else pkgs ++ [pkg] in
  if is_some (alpm_pkg_find ignorelist (pkg_name pkg)) then st
  else
    let up_to_date :=
      match alpm_db_get_pkgfromcache (h_db_local h) (pkg_name pkg) with
      | Some local => alpm_pkg_compare_versions pkg local =? 0
      | None => false
      end in
    if has_flag (trans_flags h) ALPM_TRANS_FLAG_NEEDED && up_to_date
    then (pkgs, ignorelist ++ [pkg])
    else if should_ignore env h pkg then
      (if negb (q_install_ignorepkg env pkg) then pkgs else take, ignorelist ++ [pkg])
    else (take, ignorelist).

Definition alpm_find_group_pkgs (populate : alpm_db_t → option alpm_pkghash_t)
    (h : alpm_handle_t) (dbs : list alpm_db_t) (name : cstr) : list alpm_pkg_t :=
  (fold_left (λ st db,
     match (alpm_db_get_groupfromcache populate h db name).2 with
     | Some grp => fold_left (group_pkg h) (grp_packages grp) st
     | None => st
     end) dbs ([], [])).1.
End upgrade.

(** ** _alpm_sync_prepare *)

(** What is stored through [data]: both kinds of reports go into one list. *)
Inductive sync_datum :=
  | DMissing (miss : alpm_depmissing_t)
  | DConflict (conflict : alpm_conflict_t).

Record sync_result := mk_sync {
  sr_handle : alpm_handle_t;
  sr_ret : Z;
  sr_data : list sync_datum
}.

(** A step of the preparation: [None] is undefined behaviour (a NULL pointer
    is used) or a resolver that runs out of its recursion bound; otherwise the
    function has returned, or goes on. *)
Definition step (A : Type) : Type := option (sync_result + A).
Definition go {A} (a : A) : step A := Some (inr a).
Definition stop {A} (r : sync_result) : step A := Some (inl r).
Definition fail {A} (e : alpm_errno_t) (h : alpm_handle_t) (data : list sync_datum) : step A :=
  stop (mk_sync (set_errno e h) (-1) data).
Definition andthen {A B} (m : step A) (f : A → step B) : step B :=
  match m with
  | None => None
  | Some (inl r) => Some (inl r)
  | Some (inr a) => f a
  end.
Notation "'let*' x := m 'in' k" := (andthen m (λ x, k))
  (at level 200, x pattern, right associativity).

(** The test of the sync databases. *)
Fixpoint check_dbs (from_sync : bool) (dbs : list alpm_db_t) : option alpm_errno_t :=
  match dbs with
  | [] => None
  | db :: dbs' =>
      if has_flag (db_status db) DB_STATUS_INVALID then Some ALPM_ERR_DB_INVALID
      else if from_sync && has_flag (db_status db) DB_STATUS_MISSING
      then Some ALPM_ERR_DB_NOT_FOUND
      else check_dbs from_sync dbs'
  end.

Definition is_from_sync (p : alpm_pkg_t) : bool :=
  match pkg_origin p with ALPM_PKG_FROM_SYNCDB _ => true | _ => false end.

(** Whether two packages of the list have the same file name; strcmp of NULL is
    undefined. *)
Fixpoint same_filename_as (p : alpm_pkg_t) (l : list alpm_pkg_t) : option bool :=
  match l with
  | [] => Some false
  | q :: l' =>
      match pkg_filename p, pkg_filename q with
      | Some f, Some g => orb (streq f g) <$> same_filename_as p l'
      | _, _ => None
      end
  end.

Fixpoint same_filenames (l : list alpm_pkg_t) : option bool :=
  match l with
  | [] => Some false
  | p :: l' =>
      match same_filename_as p l', same_filenames l' with
      | Some b, Some c => Some (b || c)
      | _, _ => None
      end
  end.

Section prepare.
Context (env : alpm_env).

(** The loop that resolves the targets one at a time: the packages, the targets
    that could not be resolved, and the missing dependencies. *)
Fixpoint resolve_targets (h : alpm_handle_t) (localpkgs add rem : list alpm_pkg_t) (depth : nat)
    (targets resolved unresolvable : list alpm_pkg_t) (data : list alpm_depmissing_t)
    : option (list alpm_pkg_t * list alpm_pkg_t * list alpm_depmissing_t) :=
  match targets with
  | [] => Some (resolved, unresolvable, data)
  | pkg :: targets' =>
      match alpm_resolvedeps env h localpkgs add rem depth pkg resolved data with
      | None => None
      | Some res =>
          let unresolvable := if r_ret res =? -1 then unresolvable ++ [pkg] else unresolvable in
          resolve_targets h localpkgs add rem depth targets' (r_packages res) unresolvable
            (r_data res)
      end
  end.

(** The recursion bound: the number of packages on offer. *)
Definition resolve_depth (h : alpm_handle_t) : nat :=
  length (trans_add h) + length (flat_map alpm_db_get_pkgcache (h_dbs_sync h)).

(** Dependency resolution, when NODEPS is not set. *)
Definition sync_resolve (h : alpm_handle_t) : step (alpm_handle_t * list sync_datum) :=
  let add := trans_add h in
  let rem := trans_remove h ++ flat_map pkg_removes add in
  let localpkgs := alpm_list_diff alpm_pkg_cmp (alpm_db_get_pkgcache (h_db_local h)) add in
  match resolve_targets h localpkgs add rem (resolve_depth h) add [] [] [] with
  | None => None
  | Some (resolved, unresolvable, data) =>
      let data := map DMissing data in
      let* (h, data) :=
        match unresolvable with
        | [] => go (h, data)
        | _ => if q_remove_pkgs env unresolvable then go (set_errno ALPM_ERR_OK h, [])
               else fail ALPM_ERR_UNSATISFIED_DEPS h data
        end in
      match same_filenames resolved with
      | None => None
      | Some true => fail ALPM_ERR_TRANS_DUP_FILENAME h data
      | Some false =>
          let resolved := map (λ p, if is_some (alpm_pkg_find add (pkg_name p)) then p
                                    else with_reason ALPM_PKG_REASON_DEPEND p) resolved in
          go (upd_trans (λ t, with_add resolved (with_unresolvable unresolvable t)) h, data)
      end
  end.

(** _alpm_conflict_dup *)
Definition conflict_dup (c : alpm_conflict_t) : alpm_conflict_t :=
  mk_conflict (alpm_pkg_dup 0 (c_package1 c)) (alpm_pkg_dup 0 (c_package2 c))
    (c_reason c).

(** Conflicts between targets. *)
Fixpoint settle_inner (deps : list alpm_conflict_t) (h : alpm_handle_t) (data : list sync_datum)
    : step alpm_handle_t :=
  match deps with
  | [] => go h
  | conflict :: deps' =>
      let name1 := pkg_name (c_package1 conflict) in
      let name2 := pkg_name (c_package2 conflict) in
      match alpm_pkg_find (trans_add h) name1, alpm_pkg_find (trans_add h) name2 with
      | Some sync1, Some sync2 =>
          let drop_ rsync :=
            settle_inner deps'
              (upd_trans (λ t, with_add (alpm_list_remove alpm_pkg_cmp (t_add t) rsync).1
                          (with_unresolvable (t_unresolvable t ++ [rsync]) t)) h) data in
          if alpm_depcmp sync1 (alpm_dep_from_string name2) then drop_ sync2
          else if alpm_depcmp sync2 (alpm_dep_from_string name1) then drop_ sync1
          else fail ALPM_ERR_CONFLICTING_DEPS h (data ++ [DConflict (conflict_dup conflict)])
      | _, _ => settle_inner deps' h data
      end
  end.

(** Conflicts between targets and installed packages. *)
Fixpoint settle_outer (deps : list alpm_conflict_t) (h : alpm_handle_t) (data : list sync_datum)
    : step alpm_handle_t :=
  match deps with
  | [] => go h
  | conflict :: deps' =>
      let name1 := pkg_name (c_package1 conflict) in
      let name2 := pkg_name (c_package2 conflict) in
      if is_some (alpm_pkg_find (trans_remove h) name2)
         || existsb (λ spkg, is_some (alpm_pkg_find (pkg_removes spkg) name2)) (trans_add h)
      then settle_outer deps' h data
      else if q_conflict_pkg env (c_package1 conflict) (c_package2 conflict) then
        match alpm_pkg_find (trans_add h) name1,
              alpm_db_get_pkgfromcache (h_db_local h) name2 with
        | Some sync, Some local =>
            settle_outer deps'
              (upd_trans (λ t, with_add (upd_ptr (λ p, with_removes (pkg_removes p ++ [local]) p)
                                           sync (t_add t)) t) h) data
        | _, _ => None
        end
      else fail ALPM_ERR_CONFLICTING_DEPS h (data ++ [DConflict (conflict_dup conflict)])
  end.

Definition sync_conflicts (h : alpm_handle_t) (data : list sync_datum) : step alpm_handle_t :=
  let* h := settle_inner (alpm_innerconflicts (trans_add h)) h data in
  settle_outer (alpm_outerconflicts (h_db_local h) (trans_add h)) h data.

(** The loops that build trans->remove. *)
Definition elect_removal (h : alpm_handle_t) (rpkg : alpm_pkg_t) : alpm_handle_t :=
  if is_some (alpm_pkg_find (trans_remove h) (pkg_name rpkg)) then h
  else let '(copy, h) := dup_pkg h rpkg in
       upd_trans (λ t, with_remove (t_remove t ++ [copy]) t) h.

Definition build_removals (h : alpm_handle_t) : alpm_handle_t :=
  fold_left elect_removal (flat_map pkg_removes (trans_add h)) h.

(** compute_download_size; [cached] is the size of a file in the cache
    directories. The result is the package and the return code. *)

Definition compute_download_size (cached : cstr → option Z) (h : alpm_handle_t)
    (newpkg : alpm_pkg_t) : alpm_handle_t * alpm_pkg_t * Z :=
  let finish size ret :=
    (h, with_dsize (Z.lor (pkg_infolevel newpkg) INFRQ_DSIZE) size newpkg, ret) in
  if negb (is_from_sync newpkg) then finish 0 0
  else
    match pkg_filename newpkg with
    | None => (set_errno ALPM_ERR_PKG_INVALID_NAME h, newpkg, -1)
    | Some fname =>
        match cached fname with
        | Some _ => finish 0 0
        | None =>
            match cached (fname ++ str ".part") with
            | Some part => let size := pkg_size newpkg - part in
                           finish (if size <? 0 then 0 else size) 1
            | None => finish (pkg_size newpkg) 0
            end
        end
    end.

(** The last loop: the download size and the installed version of every
    target. *)
Fixpoint finish_targets (cached : cstr → option Z) (h : alpm_handle_t)
    (done_ add : list alpm_pkg_t) : alpm_handle_t * list alpm_pkg_t * Z :=
  match add with
  | [] => (h, done_, 0)
  | spkg :: add' =>
      let '(h, lpkg) := alpm_db_get_pkg h (h_db_local h) (Some (pkg_name spkg)) in
      let '(h, spkg, rc) := compute_download_size cached h spkg in
      if rc <? 0 then (h, done_ ++ spkg :: add', -1)
      else
        match lpkg with
        | None => finish_targets cached h (done_ ++ [spkg]) add'
        | Some lpkg =>
            let '(copy, h) := dup_pkg h lpkg in
            finish_targets cached h (done_ ++ [with_oldpkg (Some copy) spkg]) add'
        end
  end.

Definition sync_finish (cached : cstr → option Z) (h : alpm_handle_t) (data : list sync_datum)
    : sync_result :=
  let '(h, add, rc) := finish_targets cached h [] (trans_add h) in
  mk_sync (upd_trans (with_add add) h) rc data.

Definition sync_steps (cached : cstr → option Z) (h : alpm_handle_t) : step sync_result :=
  let flags := trans_flags h in
  let* (h, data) :=
    if negb (has_flag flags ALPM_TRANS_FLAG_NODEPS) then sync_resolve h else go (h, []) in
  let* h :=
    if negb (has_flag flags ALPM_TRANS_FLAG_NOCONFLICTS) then sync_conflicts h data else go h in
  let h := build_removals h in
  let* h :=
    if negb (has_flag flags ALPM_TRANS_FLAG_NODEPS) then
      match alpm_checkdeps h (alpm_db_get_pkgcache (h_db_local h)) (trans_remove h) (trans_add h)
              true with
      | [] => go (check_handle h)
      | deps => fail ALPM_ERR_UNSATISFIED_DEPS h (map DMissing deps)
      end
    else go h in
  go (sync_finish cached h data).

Definition alpm_sync_prepare (cached : cstr → option Z) (h : alpm_handle_t)
    : option sync_result :=
  match check_dbs (existsb is_from_sync (trans_add h)) (h_dbs_sync h) with
  | Some e => Some (mk_sync (set_errno e h) (-1) [])
  | None =>
      match sync_steps cached h with
      | None => None
      | Some (inl r) | Some (inr r) => Some r
      end
  end.
End prepare.

(** ** What the checks see of a package *)

(** The updates of target packages change none of these fields. *)
Record same_deps (p q : alpm_pkg_t) : Prop := {
  sd_name : pkg_name q = pkg_name p;
  sd_hash : pkg_name_hash q = pkg_name_hash p;
  sd_version : pkg_version q = pkg_version p;
  sd_depends : pkg_depends q = pkg_depends p;
  sd_provides : pkg_provides q = pkg_provides p;
  sd_conflicts : pkg_conflicts q = pkg_conflicts p;
  sd_filename : pkg_filename q = pkg_filename p
}.

#[export] Instance same_deps_equivalence : Equivalence same_deps.
Proof.
  split.
  - by split.
  - intros p q []. by split.
  - intros p q r [] []. split; congruence.
Qed.

(** The same object, updated. *)
Definition same_obj (p q : alpm_pkg_t) : Prop := same_deps p q ∧ pkg_addr q = pkg_addr p.

#[export] Instance same_obj_equivalence : Equivalence same_obj.
Proof.
  split.
  - by intros p.
  - intros p q []. by split.
  - intros p q r [] []. split; [by etrans|congruence].
Qed.

Definition same_list := Forall2 same_obj.

Lemma same_list_refl l : same_list l l.
Proof. induction l; by constructor. Qed.

Lemma upd_target_same r l o i d p : same_obj p (upd_target r l o i d p).
Proof. by repeat split. Qed.

Lemma same_depcmp p q d : same_deps p q → alpm_depcmp q d = alpm_depcmp p d.
Proof.
  intros [E1 E2 E3 E4 E5 _ _]. unfold alpm_depcmp, alpm_depcmp_literal.
  by rewrite E1, E2, E3, E5.
Qed.

Lemma same_map f l : (∀ p, p ∈ l → same_obj p (f p)) → same_list l (map f l).
Proof.
  induction l as [|p l IH]; intros H; simpl; constructor.
  - apply H, list_elem_of_here.
  - apply IH. intros q Hq. by apply H, list_elem_of_further.
Qed.

Lemma same_names l l' : same_list l l' → map pkg_name l' = map pkg_name l.
Proof. induction 1 as [|p q l l' [[] _]]; simpl; congruence. Qed.

Lemma same_hashes l l' : same_list l l' → hashes_ok l → hashes_ok l'.
Proof.
  induction 1 as [|p q l l' [[E1 E2 _ _ _ _ _] _] _ IH]; intros Hl; [done|].
  inversion Hl as [|? ? Hp Hl']; subst. constructor; [|by apply IH].
  unfold pkg_hash_ok in *. congruence.
Qed.

Lemma same_find l l' n :
  same_list l l' → is_some (alpm_pkg_find l' n) = is_some (alpm_pkg_find l n).
Proof.
  induction 1 as [|p q l l' [[E1 E2 _ _ _ _ _] _] _ IH]; simpl; [done|]. rewrite E1, E2.
  destruct (negb _); [done|]. by destruct (streq _ _).
Qed.

Lemma same_elem l l' q : same_list l l' → q ∈ l' → ∃ p, p ∈ l ∧ same_obj p q.
Proof.
  intros H (i & Hi)%list_elem_of_lookup. destruct (Forall2_lookup_r _ _ _ _ _ H Hi) as (p & Hp & ?).
  exists p. split; [|done]. by eapply list_elem_of_lookup_2.
Qed.

Lemma same_satisfier l l' d :
  same_list l l' → is_some (find_dep_satisfier l' d) = is_some (find_dep_satisfier l d).
Proof.
  unfold find_dep_satisfier. induction 1 as [|p q l l' [E _] _ IH]; simpl; [done|].
  rewrite (same_depcmp _ _ d E). by destruct (alpm_depcmp p d).
Qed.

Lemma flat_map_same {B} (f : alpm_pkg_t → list B) l l' :
  (∀ p q, same_deps p q → f q = f p) → same_list l l' → flat_map f l' = flat_map f l.
Proof. intros Hf. induction 1 as [|p q l l' [E _] _ IH]; simpl; [done|]. by rewrite IH, (Hf p q E). Qed.

(** The dependency check cannot tell an updated target list from the old one. *)
Lemma checkdeps_same_list h pkglist rem l l' rev :
  same_list l l' → alpm_checkdeps h pkglist rem l' rev = alpm_checkdeps h pkglist rem l rev.
Proof.
  intros H.
  assert (∀ p, is_modified rem l' p = is_modified rem l p) as Hm.
  { intros p. unfold is_modified. by rewrite (same_find l l' _ H). }
  assert (∀ db as_ d, satisfied l' db as_ d = satisfied l db as_ d) as Hs.
  { intros db as_ d. unfold satisfied. by rewrite (same_satisfier l l' _ H). }
  unfold alpm_checkdeps. cbv zeta.
  rewrite (List.filter_ext (λ p, negb (is_modified rem l' p)) (λ p, negb (is_modified rem l p)))
    by (intros p; by rewrite Hm).
  rewrite (List.filter_ext (is_modified rem l') (is_modified rem l)) by done.
  set (db := List.filter _ pkglist). set (md := List.filter (is_modified rem l) pkglist). f_equal.
  - assert (∀ p, check_upgrade (no_dep_version h) l' db (h_assumeinstalled h) p =
                 check_upgrade (no_dep_version h) l db (h_assumeinstalled h) p) as Hc.
    { intros p. unfold check_upgrade. apply flat_map_ext. intros d. by rewrite Hs. }
    rewrite (flat_map_ext _ _ Hc). apply flat_map_same; [|done].
    intros p q [E1 _ _ E4 _ _ _]. unfold check_upgrade. by rewrite E1, E4.
  - destruct rev; [|done]. apply flat_map_ext. intros p. unfold check_reverse.
    apply flat_map_ext. intros d. destruct (find_dep_satisfier md _); [|done]. by rewrite Hs.
Qed.

Lemma same_conflicts p p' q q' :
  same_obj p p' → same_obj q q' → conflicts_with p' q' → conflicts_with p q.
Proof.
  intros [E _] [F _] (Hn & c & Hc & Hd). split.
  - by rewrite <-(sd_name _ _ E), <-(sd_name _ _ F).
  - exists c. rewrite <-(sd_conflicts _ _ E). split; [done|]. by rewrite <-(same_depcmp _ _ c F).
Qed.

(** ** Assumptions and invariant of the preparation *)

(** The packages a preparation may install. *)
Definition offered (h : alpm_handle_t) (p : alpm_pkg_t) : Prop :=
  p ∈ trans_add h ∨ available (h_dbs_sync h) p.

Definition trans_unresolvable (h : alpm_handle_t) : list alpm_pkg_t :=
  match h_trans h with Some t => t_unresolvable t | None => [] end.

Record sync_pre (h : alpm_handle_t) : Prop := {
  sp_local : PkgCache (h_db_local h);
  sp_sync : Forall PkgCache (h_dbs_sync h);
  sp_trans : is_Some (h_trans h);
  sp_hashes : hashes_ok (trans_add h);
  sp_names : NoDup (map pkg_name (trans_add h));
  sp_files : ∀ p, offered h p → is_Some (pkg_filename p)
}.

(** What holds of the transaction at every stage: the targets have distinct
    names and come from the original targets and the databases, no original
    target is lost (it is on the list or among the unresolvable ones), and
    no removal is dropped. *)
Record prepared (h0 h : alpm_handle_t) : Prop := {
  pr_same : same_system h0 h;
  pr_hashes : hashes_ok (trans_add h);
  pr_names : NoDup (map pkg_name (trans_add h));
  pr_offered : ∀ q, q ∈ trans_add h → ∃ p, offered h0 p ∧ same_obj p q;
  pr_targets : ∀ p, p ∈ trans_add h0 →
    pkg_name p ∈ map pkg_name (trans_unresolvable h ++ trans_add h);
  pr_removes : map pkg_name (trans_remove h0) ⊆ map pkg_name (trans_remove h)
}.

Lemma prepared_refl h : sync_pre h → prepared h h.
Proof.
  intros [? ? ? ? ? ?]. split; [apply same_system_refl|done|done| | |done].
  - intros q Hq. exists q. split; [by left|done].
  - intros p Hp. rewrite map_app. apply elem_of_app. right. by apply list_elem_of_fmap_2.
Qed.

Lemma prepared_step h0 h h' l :
  prepared h0 h → same_system h h' → l `sublist_of` trans_add h → same_list l (trans_add h') →
  (∀ n, n ∈ map pkg_name (trans_unresolvable h ++ trans_add h) →
        n ∈ map pkg_name (trans_unresolvable h' ++ trans_add h')) →
  map pkg_name (trans_remove h) ⊆ map pkg_name (trans_remove h') →
  prepared h0 h'.
Proof.
  intros [P1 P2 P3 P4 P5 P6] Hs Hl Hsame Hn Hr. split.
  - by eapply same_system_trans.
  - eapply same_hashes; [exact Hsame|]. by eapply hashes_ok_sublist.
  - rewrite (same_names _ _ Hsame). eapply sublist_NoDup; [exact P3|]. by apply fmap_sublist.
  - intros q Hq. destruct (same_elem _ _ _ Hsame Hq) as (p & Hp & Hpq).
    destruct (P4 p) as (o & Ho & Hop); [by eapply elem_of_sublist|].
    exists o. split; [done|]. by etrans.
  - intros p Hp. by apply Hn, P5.
  - by etrans.
Qed.

(** *** Steps that do not get stuck and explain their failures *)
Definition explained (r : sync_result) : Prop :=
  sr_ret r = -1 ∧
  match h_pm_errno (sr_handle r) with
  | ALPM_ERR_DB_INVALID | ALPM_ERR_DB_NOT_FOUND | ALPM_ERR_TRANS_DUP_FILENAME => True
  | ALPM_ERR_UNSATISFIED_DEPS => ∃ m, DMissing m ∈ sr_data r
  | ALPM_ERR_CONFLICTING_DEPS => ∃ c, DConflict c ∈ sr_data r
  | _ => False
  end.

Definition step_ok {A} (m : step A) (Q : A → Prop) : Prop :=
  match m with
  | None => False
  | Some (inl r) => explained r
  | Some (inr a) => Q a
  end.

Lemma andthen_ok {A B} (m : step A) (f : A → step B) P Q :
  step_ok m P → (∀ a, P a → step_ok (f a) Q) → step_ok (andthen m f) Q.
Proof. destruct m as [[r|a]|]; simpl; [done| |done]. intros Ha Hf. by apply Hf. Qed.

(** *** Resolution *)
Section resolution.
Context (env : alpm_env) (h : alpm_handle_t) (Hpre : sync_pre h).

Definition good (p : alpm_pkg_t) : Prop :=
  pkg_hash_ok p ∧ is_Some (pkg_filename p) ∧ offered h p.

Lemma offered_good p : offered h p → good p.
Proof.
  intros Hp. split_and!; [|by apply Hpre|done]. destruct Hp as [Hp|(db & Hdb & _ & Hp)].
  - pose proof (sp_hashes h Hpre) as Hh. unfold hashes_ok in Hh. rewrite Forall_forall in Hh. auto.
  - pose proof (sp_sync h Hpre) as Hs. rewrite Forall_forall in Hs.
    pose proof (@cache_hashes db (Hs db Hdb)) as Hh. unfold hashes_ok in Hh.
    rewrite Forall_forall in Hh. auto.
Qed.

(** The names on offer, which bound the recursion. *)
Definition offered_names : list cstr :=
  map pkg_name (trans_add h ++ flat_map alpm_db_get_pkgcache (h_dbs_sync h)).

Lemma offered_known p : offered h p → known offered_names p.
Proof.
  intros Hp. split; [by apply offered_good|]. unfold offered_names. apply list_elem_of_fmap_2.
  apply elem_of_app. destruct Hp as [Hp|(db & Hdb & _ & Hp)]; [by left|right].
  apply elem_of_flat_map. eauto.
Qed.

Lemma resolvedeps_runs localpkgs rem pkg packages data :
  pkg ∈ trans_add h → fine good packages →
  ∃ res, alpm_resolvedeps env h localpkgs (trans_add h) rem (resolve_depth h) pkg packages data
           = Some res ∧
    call_ok env h localpkgs (trans_add h) rem pkg packages data res ∧ fine good (r_packages res).
Proof.
  intros Hin Hf.
  destruct (resolvedeps_total env h localpkgs (trans_add h) rem (sp_sync h Hpre) offered_names)
    with (depth := resolve_depth h) (pkg := pkg) (packages := packages) (data := data)
    as [res Hres].
  - apply Forall_forall. intros p Hp. apply offered_known. by left.
  - intros p Hp. apply offered_known. by right.
  - apply offered_known. by left.
  - etrans; [apply List.filter_length_le|]. unfold offered_names, resolve_depth.
    by rewrite length_map, length_app.
  - exists res. split_and!; [done|eapply resolvedeps_ok, Hres; apply Hpre|].
    eapply (resolvedeps_keeps env h localpkgs (trans_add h) rem (sp_sync h Hpre) good);
      [| | |exact Hf|exact Hres].
    + by intros p (? & _).
    + intros p Hp. by apply offered_good.
    + apply offered_good. by left.
Qed.

Lemma resolve_targets_spec localpkgs rem targets resolved unres data :
  (∀ p, p ∈ targets → p ∈ trans_add h) → fine good resolved →
  ∃ resolved' unres' data',
    resolve_targets env h localpkgs (trans_add h) rem (resolve_depth h) targets resolved unres data
      = Some (resolved', unres', data') ∧
    fine good resolved' ∧ map pkg_name resolved ⊆ map pkg_name resolved' ∧ unres ⊆ unres' ∧
    (∃ more, data' = data ++ more ∧ (unres' = unres ∨ more ≠ [])) ∧
    ∀ p, p ∈ targets → p ∈ unres' ∨ pkg_name p ∈ map pkg_name resolved'.
Proof.
  revert resolved unres data. induction targets as [|pkg targets IH];
    intros resolved unres data Hin Hf; simpl.
  { exists resolved, unres, data. split_and!; [done..| |set_solver].
    exists []. rewrite app_nil_r. auto. }
  destruct (resolvedeps_runs localpkgs rem pkg resolved data) as (res & -> & Hok & Hf');
    [apply Hin, list_elem_of_here|done|].
  destruct (IH (r_packages res) (if r_ret res =? -1 then unres ++ [pkg] else unres) (r_data res))
    as (R & U & D & -> & HR & Hsub & Husub & (m2 & HD & Hm2) & Hall);
    [intros p Hp; by apply Hin, list_elem_of_further|done|].
  destruct Hok as [(m1 & Hm1 & Hnz) Hcase].
  assert (map pkg_name resolved ⊆ map pkg_name (r_packages res)) as Hgrow.
  { destruct Hcase as [(_ & new & -> & _)|[_ ->]]; [|done]. rewrite map_app. set_solver. }
  exists R, U, D. split_and!; [done|done|by etrans| | |].
  - etrans; [|exact Husub]. destruct (_ =? _); set_solver.
  - exists (m1 ++ m2). rewrite HD, Hm1, app_assoc. split; [done|].
    destruct (Z.eqb_spec (r_ret res) (-1)) as [E|E].
    + right. intros [E1 _]%app_eq_nil. apply Hnz in E1; [done|lia].
    + destruct Hm2 as [->|Hm2]; [by left|right]. by intros [_ E2]%app_eq_nil.
  - intros p [->|Hp]%elem_of_cons; [|by apply Hall].
    destruct Hcase as [(_ & new & Hnew & Hname & _)|[Hret _]].
    + right. apply Hsub. by rewrite Hnew.
    + left. apply Husub. rewrite Hret. simpl. apply elem_of_app. right. apply list_elem_of_here.
Qed.

Lemma same_filenames_total l :
  Forall (λ p, is_Some (pkg_filename p)) l → is_Some (same_filenames l).
Proof.
  induction 1 as [|p l [f Hp] Hl [b IH]]; simpl; [done|]. rewrite IH.
  assert (is_Some (same_filename_as p l)) as [c ->]; [|done].
  clear IH. induction Hl as [|q l [g Hq] _ [c IH]]; simpl; [done|]. by rewrite Hp, Hq, IH.
Qed.

Lemma sync_resolve_spec : step_ok (sync_resolve env h) (λ '(h', _), prepared h h').
Proof.
  unfold sync_resolve. cbv zeta. set (rem := _ ++ _). set (lp := alpm_list_diff _ _ _).
  destruct (resolve_targets_spec lp rem (trans_add h) [] [] []) as
    (R & U & D & -> & [HG Hnd] & _ & _ & (more & -> & Hmore) & Hall); [done|by split; constructor|].
  apply andthen_ok with (P := λ '(h1, _), ∃ e, h1 = set_errno e h).
  { destruct U as [|u U]; [exists (h_pm_errno h); by destruct h|].
    destruct (q_remove_pkgs env (u :: U)); [by exists ALPM_ERR_OK|].
    split; [done|]. simpl. destruct Hmore as [?|Hne]; [done|].
    destruct more as [|m more]; [done|]. exists m. apply list_elem_of_here. }
  intros [h1 data] (e & ->). destruct (sp_trans h Hpre) as [t Ht].
  destruct (same_filenames_total R) as [dup ->].
  { eapply Forall_impl; [exact HG|]. by intros p (_ & ? & _). }
  destruct dup; [by split|].
  set (f := λ p, if is_some (alpm_pkg_find (trans_add h) (pkg_name p)) then p
                 else with_reason ALPM_PKG_REASON_DEPEND p).
  assert (same_list R (map f R)) as Hsame.
  { apply same_map. intros p _. unfold f. destruct (is_some _); [done|apply upd_target_same]. }
  simpl. split; unfold trans_add, trans_unresolvable, trans_remove; simpl; rewrite ?Ht; simpl.
  - split; [done|done| |]; unfold trans_flags; simpl; by rewrite Ht.
  - eapply same_hashes; [exact Hsame|]. eapply Forall_impl; [exact HG|]. by intros p (? & _).
  - by rewrite (same_names _ _ Hsame).
  - intros q Hq. destruct (same_elem _ _ _ Hsame Hq) as (p & Hp & Hpq). exists p. split; [|done].
    rewrite Forall_forall in HG. by apply HG.
  - intros p Hp. rewrite map_app, (same_names _ _ Hsame). apply elem_of_app.
    destruct (Hall p) as [?|?]; [unfold trans_add; by rewrite Ht|left|by right].
    by apply list_elem_of_fmap_2.
  - done.
Qed.
End resolution.

(** *** Conflicts *)
Section conflicts.
Context (env : alpm_env) (h0 : alpm_handle_t) (Hpre : sync_pre h0).

Lemma prepared_trans h : prepared h0 h → ∃ t, h_trans h = Some t.
Proof. intros [[_ _ _ Ht] _ _ _ _ _]. destruct (Ht (sp_trans _ Hpre)) as [t ->]. eauto. Qed.

(** A target moves to the unresolvable packages. *)
Definition drop_target (rsync : alpm_pkg_t) (h : alpm_handle_t) : alpm_handle_t :=
  upd_trans (λ t, with_add (alpm_list_remove alpm_pkg_cmp (t_add t) rsync).1
               (with_unresolvable (t_unresolvable t ++ [rsync]) t)) h.

Lemma drop_target_spec h r :
  prepared h0 h → r ∈ trans_add h →
  let h' := drop_target r h in
  prepared h0 h' ∧ trans_add h' `sublist_of` trans_add h ∧
  pkg_name r ∉ map pkg_name (trans_add h').
Proof.
  intros Hp Hr h'. destruct (prepared_trans h Hp) as [t Ht].
  assert (trans_add h' = (alpm_list_remove alpm_pkg_cmp (trans_add h) r).1) as Ea.
  { unfold h', drop_target, trans_add, upd_trans. simpl. by rewrite Ht. }
  assert (trans_unresolvable h' = trans_unresolvable h ++ [r]) as Eu.
  { unfold h', drop_target, trans_unresolvable, upd_trans. simpl. by rewrite Ht. }
  assert (trans_remove h' = trans_remove h) as Er.
  { unfold h', drop_target, trans_remove, upd_trans. simpl. by rewrite Ht. }
  pose proof (list_remove_sublist alpm_pkg_cmp (trans_add h) r) as Hsub.
  pose proof (list_remove_spec alpm_pkg_cmp (trans_add h) r) as Hspec.
  pose proof (pr_names _ _ Hp) as Hnd.
  destruct (alpm_list_remove alpm_pkg_cmp (trans_add h) r) as [l' [x|]]; simpl in *.
  2:{ destruct Hspec as [_ Hn]. destruct (Hn r Hr). apply strcmp_refl. }
  destruct Hspec as (l1 & l2 & El & El' & Hx & _). apply strcmp_eq in Hx. rewrite Ea.
  split_and!.
  - apply (prepared_step h0 h h' l' Hp); [|done| | |by rewrite Er].
    + by apply same_system_upd with (e := ALPM_ERR_OK) (n := O).
    + rewrite Ea. apply same_list_refl.
    + intros n. rewrite Eu, Ea, El, El', !map_app, !elem_of_app. simpl.
      rewrite elem_of_cons, Hx. set_solver.
  - done.
  - rewrite El, map_app in Hnd. rewrite El', map_app. simpl in Hnd. rewrite Hx in Hnd.
    apply NoDup_app in Hnd as (_ & N2 & N3). apply NoDup_cons in N3 as [N3 _].
    rewrite elem_of_app. intros [H|H]; [|done]. apply (N2 _ H), list_elem_of_here.
Qed.

Definition pair_gone (h : alpm_handle_t) (c : alpm_conflict_t) : Prop :=
  ¬ (pkg_name (c_package1 c) ∈ map pkg_name (trans_add h) ∧
     pkg_name (c_package2 c) ∈ map pkg_name (trans_add h)).

Lemma sublist_names l l' n :
  l `sublist_of` l' → n ∈ map pkg_name l → n ∈ map pkg_name l'.
Proof.
  intros Hl (p & -> & Hp)%list_elem_of_fmap. apply list_elem_of_fmap_2. by eapply elem_of_sublist.
Qed.

Lemma settle_inner_spec deps h data :
  prepared h0 h →
  step_ok (settle_inner deps h data) (λ h',
    prepared h0 h' ∧ trans_add h' `sublist_of` trans_add h ∧ Forall (pair_gone h') deps).
Proof.
  revert h. induction deps as [|c deps IH]; intros h Hp; simpl; [split_and!; [done..|constructor]|].
  assert (∀ h1, prepared h0 h1 → trans_add h1 `sublist_of` trans_add h → pair_gone h1 c →
    step_ok (settle_inner deps h1 data) (λ h',
      prepared h0 h' ∧ trans_add h' `sublist_of` trans_add h ∧ Forall (pair_gone h') (c :: deps)))
    as Hnext.
  { intros h1 Hp1 Hs1 Hg. specialize (IH h1 Hp1).
    destruct (settle_inner deps h1 data) as [[r|h']|]; simpl in *; [done| |done].
    destruct IH as (Hp' & Hs' & Hg'). split_and!; [done|by etrans|]. constructor; [|done].
    intros [H1 H2]. apply Hg. split; by eapply sublist_names. }
  set (n1 := pkg_name (c_package1 c)). set (n2 := pkg_name (c_package2 c)).
  destruct (alpm_pkg_find (trans_add h) n1) as [s1|] eqn:E1.
  2:{ apply Hnext; [done|done|]. apply pkg_find_None in E1; [|apply Hp]. by intros [? _]. }
  destruct (alpm_pkg_find (trans_add h) n2) as [s2|] eqn:E2.
  2:{ apply Hnext; [done|done|]. apply pkg_find_None in E2; [|apply Hp]. by intros [_ ?]. }
  apply pkg_find_Some in E1 as [Hs1 Hn1]. apply pkg_find_Some in E2 as [Hs2 Hn2].
  destruct (alpm_depcmp s1 _).
  { destruct (drop_target_spec h s2 Hp Hs2) as (? & ? & Hg). rewrite Hn2 in Hg.
    apply (Hnext (drop_target s2 h)); [done|done|]. by intros [_ ?]. }
  destruct (alpm_depcmp s2 _).
  { destruct (drop_target_spec h s1 Hp Hs1) as (? & ? & Hg). rewrite Hn1 in Hg.
    apply (Hnext (drop_target s1 h)); [done|done|]. by intros [? _]. }
  split; [done|]. simpl. eexists. apply elem_of_app. right. apply list_elem_of_here.
Qed.

(** The package named [n] is on the way out. *)
Definition elected (h : alpm_handle_t) (n : cstr) : Prop :=
  n ∈ map pkg_name (trans_remove h) ∨
  ∃ s r, s ∈ trans_add h ∧ r ∈ pkg_removes s ∧ pkg_name r = n.

(** Targets may gain packages to remove. *)
Definition grown (h h' : alpm_handle_t) : Prop :=
  same_list (trans_add h) (trans_add h') ∧ ∀ n, elected h n → elected h' n.

Lemma grown_trans h1 h2 h3 : grown h1 h2 → grown h2 h3 → grown h1 h3.
Proof.
  intros [A1 A2] [B1 B2]. split; [|by auto]. unfold same_list in *. by etrans.
Qed.

(** sync->removes = alpm_list_add(sync->removes, local) *)
Definition elect_local (sync local : alpm_pkg_t) (h : alpm_handle_t) : alpm_handle_t :=
  upd_trans (λ t, with_add (upd_ptr (λ p, with_removes (pkg_removes p ++ [local]) p)
                              sync (t_add t)) t) h.

Lemma elect_local_spec h sync local :
  prepared h0 h → sync ∈ trans_add h →
  let h' := elect_local sync local h in
  prepared h0 h' ∧ grown h h' ∧ elected h' (pkg_name local).
Proof.
  intros Hp Hin h'. destruct (prepared_trans h Hp) as [t Ht].
  set (f := λ p, if ptr_eq p sync then with_removes (pkg_removes p ++ [local]) p else p).
  assert (trans_add h' = map f (trans_add h)) as Ea.
  { unfold h', elect_local, trans_add, upd_trans. simpl. by rewrite Ht. }
  assert (trans_remove h' = trans_remove h ∧ trans_unresolvable h' = trans_unresolvable h) as [Er Eu].
  { unfold h', elect_local, trans_remove, trans_unresolvable, upd_trans. simpl. by rewrite Ht. }
  assert (same_list (trans_add h) (trans_add h')) as Hsame.
  { rewrite Ea. apply same_map. intros p _. unfold f. destruct (ptr_eq _ _); [|done].
    apply upd_target_same. }
  split_and!.
  - apply (prepared_step h0 h h' (trans_add h) Hp); [|done|done| |by rewrite Er].
    + by apply same_system_upd with (e := ALPM_ERR_OK) (n := O).
    + intros n. rewrite Eu, !map_app, (same_names _ _ Hsame). done.
  - split; [done|]. intros n [Hn|(s & r & Hs & Hr & Hn)]; [left; by rewrite Er|right].
    exists (f s), r. rewrite Ea. split_and!; [by apply list_elem_of_fmap_2| |done].
    unfold f. destruct (ptr_eq _ _); [|done]. simpl. apply elem_of_app. by left.
  - right. exists (f sync), local. rewrite Ea. split_and!; [by apply list_elem_of_fmap_2| |done].
    unfold f, ptr_eq. rewrite Nat.eqb_refl. simpl. apply elem_of_app. right. apply list_elem_of_here.
Qed.

Lemma already_elected h n :
  is_some (alpm_pkg_find (trans_remove h) n)
  || existsb (λ spkg, is_some (alpm_pkg_find (pkg_removes spkg) n)) (trans_add h) = true →
  elected h n.
Proof.
  rewrite orb_true_iff, is_some_true, existsb_exists. intros [[p Hp]|(s & Hs & Hf)].
  - apply pkg_find_Some in Hp as [Hp <-]. left. by apply list_elem_of_fmap_2.
  - apply is_some_true in Hf as [r Hr]. apply pkg_find_Some in Hr as [Hr Hn].
    right. exists s, r. split_and!; [by apply list_elem_of_In|done|done].
Qed.

Lemma settle_outer_spec deps h data :
  prepared h0 h →
  Forall (λ c, pkg_name (c_package1 c) ∈ map pkg_name (trans_add h) ∧
    pkg_name (c_package2 c) ∈ map pkg_name (alpm_db_get_pkgcache (h_db_local h0))) deps →
  step_ok (settle_outer env deps h data) (λ h',
    prepared h0 h' ∧ grown h h' ∧ Forall (λ c, elected h' (pkg_name (c_package2 c))) deps).
Proof.
  revert h. induction deps as [|c deps IH]; intros h Hp Hc; simpl.
  { split_and!; [done| |constructor]. split; [apply same_list_refl|done]. }
  inversion Hc as [|? ? [Hc1 Hc2] Hcs]; subst.
  assert (∀ h1, prepared h0 h1 → grown h h1 → elected h1 (pkg_name (c_package2 c)) →
    step_ok (settle_outer env deps h1 data) (λ h', prepared h0 h' ∧ grown h h' ∧
      Forall (λ c, elected h' (pkg_name (c_package2 c))) (c :: deps))) as Hnext.
  { intros h1 Hp1 Hg1 He1.
    assert (Forall (λ c, pkg_name (c_package1 c) ∈ map pkg_name (trans_add h1) ∧
      pkg_name (c_package2 c) ∈ map pkg_name (alpm_db_get_pkgcache (h_db_local h0))) deps) as Hcs1.
    { by rewrite (same_names _ _ (proj1 Hg1)). }
    specialize (IH h1 Hp1 Hcs1).
    destruct (settle_outer env deps h1 data) as [[r|h']|]; simpl in *; [done| |done].
    destruct IH as (Hp' & Hg' & Hall). split_and!; [done|by eapply grown_trans|].
    constructor; [|done]. by apply Hg'. }
  destruct (is_some _ || existsb _ _) eqn:Efound.
  { apply Hnext; [done| |by apply already_elected]. split; [apply same_list_refl|done]. }
  destruct (q_conflict_pkg _ _ _).
  2:{ split; [done|]. simpl. eexists. apply elem_of_app. right. apply list_elem_of_here. }
  apply pkg_find_is_Some in Hc1 as [sync Hs]; [|apply Hp]. rewrite Hs.
  rewrite (ss_local _ _ (pr_same _ _ Hp)).
  destruct (alpm_db_get_pkgfromcache _ _) as [local|] eqn:El.
  2:{ by apply cache_lookup_None in El; [|apply Hpre]. }
  apply cache_lookup_Some in El as [_ Hn]; [|apply Hpre]. apply pkg_find_Some in Hs as [Hs _].
  destruct (elect_local_spec h sync local Hp Hs) as (? & ? & He). rewrite Hn in He.
  by apply (Hnext (elect_local sync local h)).
Qed.

(** No two targets conflict, and the installed packages that conflict with a
    target are on the way out. *)
Definition peaceful (gone : cstr → Prop) (h : alpm_handle_t) : Prop :=
  (∀ p q, p ∈ trans_add h → q ∈ trans_add h → ¬ conflicts_with p q) ∧
  ∀ p q, p ∈ trans_add h → q ∈ alpm_db_get_pkgcache (h_db_local h) →
    pkg_name q ∉ map pkg_name (trans_add h) → conflicts_with p q ∨ conflicts_with q p →
    gone (pkg_name q).

Lemma pair_conflict deps n1 n2 :
  (n1, n2) ∈ map conflict_pair deps →
  ∃ c, c ∈ deps ∧ pkg_name (c_package1 c) = n1 ∧ pkg_name (c_package2 c) = n2.
Proof. intros (c & [= -> ->] & Hc)%list_elem_of_fmap. eauto. Qed.

Lemma sync_conflicts_spec h data :
  prepared h0 h →
  step_ok (sync_conflicts env h data) (λ h', prepared h0 h' ∧ peaceful (elected h') h').
Proof.
  intros Hp. unfold sync_conflicts. eapply andthen_ok; [by apply settle_inner_spec|].
  intros h1 (Hp1 & Hs1 & Hg). pose proof (pr_same _ _ Hp1) as Hss. simpl.
  rewrite (ss_local _ _ Hss).
  pose proof (outerconflicts_pairs (h_db_local h0) (trans_add h1) (sp_local _ Hpre)
                (pr_hashes _ _ Hp1)) as Hout.
  set (deps := alpm_outerconflicts _ _) in *.
  assert (step_ok (settle_outer env deps h1 data) (λ h', prepared h0 h' ∧ grown h1 h' ∧
      Forall (λ c, elected h' (pkg_name (c_package2 c))) deps)) as Ho.
  { apply settle_outer_spec; [done|]. apply Forall_forall. intros c Hc.
    destruct (proj1 (Hout (pkg_name (c_package1 c)) (pkg_name (c_package2 c))))
      as (u & l & Hu & Hl & _ & _ & -> & ->); [by apply (list_elem_of_fmap_2 conflict_pair)|].
    split; by apply list_elem_of_fmap_2. }
  destruct (settle_outer env deps h1 data) as [[r|h']|]; simpl in *; [done| |done].
  destruct Ho as (Hp' & [Hsame _] & He). rewrite Forall_forall in He. split; [done|]. split.
  - intros p q Hin Hin' Hcw.
    destruct (same_elem _ _ _ Hsame Hin) as (p1 & Hp1' & Ep).
    destruct (same_elem _ _ _ Hsame Hin') as (q1 & Hq1 & Eq).
    destruct (innerconflicts_pairs (trans_add h) (pr_hashes _ _ Hp)) as [_ Hinn].
    destruct (pair_conflict (alpm_innerconflicts (trans_add h)) (pkg_name p1) (pkg_name q1))
      as (c & Hc & E1 & E2).
    { apply Hinn. exists p1, q1. split_and!; [by eapply elem_of_sublist|by eapply elem_of_sublist| |done|done].
      by eapply same_conflicts. }
    rewrite Forall_forall in Hg. destruct (Hg c Hc). rewrite E1, E2.
    split; by apply list_elem_of_fmap_2.
  - rewrite (ss_local _ _ (pr_same _ _ Hp')), (same_names _ _ Hsame).
    intros p q Hin Hq Hnq Hcw. destruct (same_elem _ _ _ Hsame Hin) as (p1 & Hp1' & Ep).
    destruct (pair_conflict deps (pkg_name p1) (pkg_name q)) as (c & Hc & _ & E2).
    { apply Hout. exists p1, q. split_and!; [done..| |done|done].
      destruct Hcw as [Hcw|Hcw]; [left|right]; by eapply same_conflicts. }
    rewrite <-E2. by apply He.
Qed.

(** *** Removals and the last steps *)
Lemma elect_removal_spec h r :
  prepared h0 h →
  let h' := elect_removal h r in
  prepared h0 h' ∧ trans_add h' = trans_add h ∧
  map pkg_name (trans_remove h) ⊆ map pkg_name (trans_remove h') ∧
  pkg_name r ∈ map pkg_name (trans_remove h').
Proof.
  intros Hp. simpl. unfold elect_removal.
  destruct (alpm_pkg_find (trans_remove h) (pkg_name r)) as [q|] eqn:Ef; cbn [is_some].
  { apply pkg_find_Some in Ef as [Hq Hn]. split_and!; [done..|].
    rewrite <-Hn. by apply list_elem_of_fmap_2. }
  unfold dup_pkg. set (copy := alpm_pkg_dup (h_next h) r). set (h1 := set_next (S (h_next h)) h).
  set (h' := upd_trans _ h1). destruct (prepared_trans h Hp) as [t Ht].
  assert (trans_add h' = trans_add h ∧ trans_unresolvable h' = trans_unresolvable h ∧
          trans_remove h' = trans_remove h ++ [copy]) as (Ea & Eu & Er).
  { unfold h', h1, trans_add, trans_unresolvable, trans_remove, upd_trans. simpl. by rewrite Ht. }
  assert (map pkg_name (trans_remove h) ⊆ map pkg_name (trans_remove h')) as Hsub.
  { rewrite Er, map_app. intros n Hn. apply elem_of_app. by left. }
  split_and!; [|done|done|].
  - apply (prepared_step h0 h h' (trans_add h) Hp); [|done| | |done].
    + eapply same_system_trans;
        [by apply (same_system_upd id h ALPM_ERR_OK (S (h_next h)))|].
      by apply same_system_upd with (e := ALPM_ERR_OK) (n := O).
    + rewrite Ea. apply same_list_refl.
    + by rewrite Eu, Ea.
  - rewrite Er, map_app. apply elem_of_app. right. apply list_elem_of_here.
Qed.

Lemma elect_removals_spec l h :
  prepared h0 h →
  let h' := fold_left elect_removal l h in
  prepared h0 h' ∧ trans_add h' = trans_add h ∧
  map pkg_name (trans_remove h) ⊆ map pkg_name (trans_remove h') ∧
  map pkg_name l ⊆ map pkg_name (trans_remove h').
Proof.
  revert h. induction l as [|r l IH]; intros h Hp; cbn [fold_left map]; [split_and!; set_solver|].
  destruct (elect_removal_spec h r Hp) as (Hp1 & Ha1 & Hs1 & Hr1).
  destruct (IH (elect_removal h r) Hp1) as (Hp2 & Ha2 & Hs2 & Hr2). simpl in *.
  split_and!; [done|congruence|by etrans|]. intros n [->|Hn]%elem_of_cons; auto.
Qed.

Lemma build_removals_spec h :
  prepared h0 h →
  let h' := build_removals h in
  prepared h0 h' ∧ trans_add h' = trans_add h ∧
  ∀ n, elected h n → n ∈ map pkg_name (trans_remove h').
Proof.
  intros Hp. destruct (elect_removals_spec (flat_map pkg_removes (trans_add h)) h Hp)
    as (Hp' & Ha & Hs & Hr).
  split_and!; [done|done|]. intros n [Hn|(s & r & Hin & Hrs & <-)]; [by apply Hs|].
  apply Hr, list_elem_of_fmap_2, elem_of_flat_map. eauto.
Qed.

(** The target knows the installed version of the package. *)
Definition old_known (h : alpm_handle_t) (q : alpm_pkg_t) : Prop :=
  ∀ l, alpm_db_get_pkgfromcache (h_db_local h) (pkg_name q) = Some l → pkg_name q ≠ [] →
       ∃ addr, pkg_oldpkg q = Some (alpm_pkg_dup addr l).

Lemma finish_targets_spec cached h done_ add :
  (∀ p, p ∈ add → is_Some (pkg_filename p)) →
  ∃ h' add', finish_targets cached h done_ add = (h', done_ ++ add', 0) ∧
    same_list add add' ∧ same_system h h' ∧ h_trans h' = h_trans h ∧ Forall (old_known h) add'.
Proof.
  revert h done_. induction add as [|p add IH]; intros h done_ Hf; cbn [finish_targets].
  { exists h, []. rewrite app_nil_r. split_and!; [done|constructor|apply same_system_refl|done|done]. }
  destruct (alpm_db_get_pkg h (h_db_local h) (Some (pkg_name p))) as [h1 lpkg] eqn:Eg.
  assert ((∃ e, h1 = set_errno e h) ∧ (pkg_name p ≠ [] →
    lpkg = alpm_db_get_pkgfromcache (h_db_local h) (pkg_name p))) as [[e ->] Elp].
  { unfold alpm_db_get_pkg in Eg. destruct (pkg_name p); [injection Eg as <- _; split; [by eexists|done]|].
    destruct (alpm_db_get_pkgfromcache _ _); injection Eg as <- <-; (split; [by eexists|done]). }
  destruct (compute_download_size cached (set_errno e h) p) as [[h2 q] rc] eqn:Ec.
  assert (h2 = set_errno e h ∧ same_obj p q ∧ 0 <= rc) as (-> & Hq & Hrc).
  { destruct (Hf p (list_elem_of_here _ _)) as [fname Hfn]. unfold compute_download_size in Ec.
    rewrite Hfn in Ec. destruct (negb _); [|destruct (cached fname); [|destruct (cached _)]];
      injection Ec as <- <- <-; (split_and!; [done|apply upd_target_same|lia]). }
  destruct (Z.ltb_spec rc 0); [lia|].
  assert (same_system h (set_errno e h)) as Hs by (by apply (same_system_upd id h e O)).
  assert (∀ h3 q', same_obj p q' → same_system h h3 → h_trans h3 = h_trans h → old_known h q' →
    ∃ h' add', finish_targets cached h3 (done_ ++ [q']) add = (h', done_ ++ add', 0) ∧
      same_list (p :: add) add' ∧ same_system h h' ∧ h_trans h' = h_trans h ∧
      Forall (old_known h) add') as Hnext.
  { intros h3 q' Hq' Hs3 Ht3 Hk.
    destruct (IH h3 (done_ ++ [q'])) as (h' & add' & -> & Hl & Hs' & Ht' & Hk').
    { intros r Hr. by apply Hf, list_elem_of_further. }
    exists h', (q' :: add'). rewrite <-app_assoc. split_and!; [done|by constructor| |congruence|].
    - by eapply same_system_trans.
    - constructor; [done|]. eapply Forall_impl; [exact Hk'|]. intros x Hx l. unfold old_known in Hx.
      rewrite (ss_local _ _ Hs3) in Hx. by apply Hx. }
  destruct (Hq) as [[Hqn _ _ _ _ _ _] _]. destruct lpkg as [lpkg|].
  - unfold dup_pkg. apply Hnext; [|done|done|].
    + etrans; [exact Hq|]. apply upd_target_same.
    + intros l El Hne. cbn in El, Hne. rewrite Hqn in El, Hne. rewrite <-Elp in El by done.
      injection El as <-. cbn. by eexists.
  - apply Hnext; [done|done|done|]. intros l El Hne. rewrite Hqn in El, Hne.
    by rewrite <-Elp in El.
Qed.

Lemma sync_finish_spec cached h data :
  prepared h0 h →
  let r := sync_finish cached h data in
  sr_ret r = 0 ∧ prepared h0 (sr_handle r) ∧ same_list (trans_add h) (trans_add (sr_handle r)) ∧
  trans_remove (sr_handle r) = trans_remove h ∧ Forall (old_known h) (trans_add (sr_handle r)).
Proof.
  intros Hp. unfold sync_finish.
  destruct (finish_targets_spec cached h [] (trans_add h)) as (h' & add' & -> & Hl & Hs & Ht & Hk).
  { intros q Hq. destruct (pr_offered _ _ Hp q Hq) as (p & Ho & [Hpq _]).
    rewrite (sd_filename _ _ Hpq). by apply Hpre. }
  simpl. destruct (prepared_trans h Hp) as [t Et]. rewrite Et in Ht.
  assert (trans_add (upd_trans (with_add add') h') = add' ∧
    trans_remove (upd_trans (with_add add') h') = trans_remove h ∧
    trans_unresolvable (upd_trans (with_add add') h') = trans_unresolvable h) as (Ea & Er & Eu).
  { unfold trans_add, trans_remove, trans_unresolvable, upd_trans. simpl. by rewrite Ht, Et. }
  rewrite Ea, Er. split_and!; [done| |done|done|done].
  apply (prepared_step h0 h _ (trans_add h) Hp); [|done|by rewrite Ea| |by rewrite Er].
  - eapply same_system_trans; [exact Hs|]. by apply same_system_upd with (e := ALPM_ERR_OK) (n := O).
  - intros n. by rewrite Ea, Eu, !map_app, (same_names _ _ Hl).
Qed.
End conflicts.

(** ** Properties *)

(** The system after the transaction of [h]: its targets, and the installed
    packages it neither removes nor replaces. *)
Definition system_after (h : alpm_handle_t) : list alpm_pkg_t :=
  trans_add h ++ List.filter (λ p, negb (is_modified (trans_remove h) (trans_add h) p))
                   (alpm_db_get_pkgcache (h_db_local h)).

(** Every dependency of a target is satisfied there, and every dependency of a
    remaining package that was satisfied still is. *)
Definition deps_hold (h : alpm_handle_t) : Prop :=
  let relaxed := relax (no_dep_version h) in
  (∀ p d, p ∈ trans_add h → d ∈ pkg_depends p →
          sat (system_after h) (h_assumeinstalled h) (relaxed d)) ∧
  (∀ p d, p ∈ alpm_db_get_pkgcache (h_db_local h) →
          is_modified (trans_remove h) (trans_add h) p = false → d ∈ pkg_depends p →
          sat (alpm_db_get_pkgcache (h_db_local h)) (h_assumeinstalled h) (relaxed d) →
          sat (system_after h) (h_assumeinstalled h) (relaxed d)).

Lemma deps_hold_intro h :
  alpm_checkdeps h (alpm_db_get_pkgcache (h_db_local h)) (trans_remove h) (trans_add h) true = [] →
  deps_hold h.
Proof.
  intros [H1 H2]%checkdeps_nil. split; [exact H1|]. intros p d Hp Hm. apply H2; [done|].
  apply elem_of_bfilter. by rewrite Hm.
Qed.

Lemma sync_steps_spec env cached h :
  sync_pre h →
  step_ok (sync_steps env cached h) (λ r,
    sr_ret r = 0 ∧ prepared h (sr_handle r) ∧ Forall (old_known h) (trans_add (sr_handle r)) ∧
    (has_flag (trans_flags h) ALPM_TRANS_FLAG_NODEPS = false → deps_hold (sr_handle r)) ∧
    (has_flag (trans_flags h) ALPM_TRANS_FLAG_NOCONFLICTS = false →
     peaceful (λ n, n ∈ map pkg_name (trans_remove (sr_handle r))) (sr_handle r))).
Proof.
  intros Hpre. unfold sync_steps. cbv zeta. set (fl := trans_flags h).
  apply andthen_ok with (P := λ '(h1, _), prepared h h1).
  { destruct (has_flag fl ALPM_TRANS_FLAG_NODEPS); simpl; [by apply prepared_refl|].
    by apply sync_resolve_spec. }
  intros [h1 data] Hp1. apply andthen_ok with (P := λ h2, prepared h h2 ∧
    (has_flag fl ALPM_TRANS_FLAG_NOCONFLICTS = false → peaceful (elected h2) h2)).
  { destruct (has_flag fl ALPM_TRANS_FLAG_NOCONFLICTS); simpl; [done|].
    pose proof (sync_conflicts_spec env h Hpre h1 data Hp1) as Hc.
    destruct (sync_conflicts env h1 data) as [[r|h2]|]; simpl in *; [done| |done].
    by destruct Hc. }
  intros h2 [Hp2 Hpc2]. destruct (build_removals_spec h Hpre h2 Hp2) as (Hp3 & Ea & He).
  set (h3 := build_removals h2) in *.
  apply andthen_ok with (P := λ h4, ∃ e, h4 = set_errno e h3 ∧
    (has_flag fl ALPM_TRANS_FLAG_NODEPS = false →
     alpm_checkdeps h3 (alpm_db_get_pkgcache (h_db_local h3)) (trans_remove h3) (trans_add h3) true
       = [])).
  { destruct (has_flag fl ALPM_TRANS_FLAG_NODEPS); simpl.
    - exists (h_pm_errno h3). split; [by destruct h3|done].
    - destruct (alpm_checkdeps _ _ _ _ _) as [|m l]; simpl; [by eexists|].
      split; [done|]. exists m. apply list_elem_of_here. }
  intros h4 (e & -> & Hck).
  assert (prepared h (set_errno e h3)) as Hp4.
  { apply (prepared_step h h3 _ (trans_add h3) Hp3); [|done|apply same_list_refl|done|done].
    by apply (same_system_upd id h3 e O). }
  destruct (sync_finish_spec h Hpre cached _ data Hp4) as (Hret & Hp5 & Hl & Er & Hk).
  set (r := sync_finish cached (set_errno e h3) data) in *. simpl.
  change (trans_add (set_errno e h3)) with (trans_add h3) in Hl.
  change (trans_remove (set_errno e h3)) with (trans_remove h3) in Er.
  pose proof (pr_same _ _ Hp3) as S3. pose proof (pr_same _ _ Hp5) as S5.
  split_and!; [done|done| | |].
  - eapply Forall_impl; [exact Hk|]. intros q Hq l. unfold old_known in Hq.
    change (h_db_local (set_errno e h3)) with (h_db_local h3) in Hq.
    rewrite (ss_local _ _ S3) in Hq. by apply Hq.
  - intros Hf. apply deps_hold_intro.
    rewrite (ss_local _ _ S5), Er, (checkdeps_same_list _ _ _ _ _ _ Hl), (checkdeps_same h _ _ _ _ _ S5),
      <-(checkdeps_same h _ _ _ _ _ S3), <-(ss_local _ _ S3). by apply Hck.
  - intros Hf. destruct (Hpc2 Hf) as [Q1 Q2]. rewrite <-Ea in *. split.
    + intros p q Hin Hin' Hcw.
      destruct (same_elem _ _ _ Hl Hin) as (p1 & ? & ?).
      destruct (same_elem _ _ _ Hl Hin') as (q1 & ? & ?).
      apply (Q1 p1 q1); [done|done|]. by eapply same_conflicts.
    + rewrite Er, (ss_local _ _ S5), (same_names _ _ Hl). intros p q Hin Hq Hnq Hcw.
      destruct (same_elem _ _ _ Hl Hin) as (p1 & ? & ?). apply He.
      apply (Q2 p1 q); [done|by rewrite (ss_local _ _ (pr_same _ _ Hp2))|done|].
      destruct Hcw as [Hcw|Hcw]; [left|right]; by eapply same_conflicts.
Qed.

Lemma sync_prepare_spec env cached h :
  sync_pre h →
  ∃ r, alpm_sync_prepare env cached h = Some r ∧
    (explained r ∨
     sr_ret r = 0 ∧ prepared h (sr_handle r) ∧ Forall (old_known h) (trans_add (sr_handle r)) ∧
     (has_flag (trans_flags h) ALPM_TRANS_FLAG_NODEPS = false → deps_hold (sr_handle r)) ∧
     (has_flag (trans_flags h) ALPM_TRANS_FLAG_NOCONFLICTS = false →
      peaceful (λ n, n ∈ map pkg_name (trans_remove (sr_handle r))) (sr_handle r))).
Proof.
  intros Hpre. unfold alpm_sync_prepare. destruct (check_dbs _ _) as [e|] eqn:Ed.
  - eexists. split; [done|]. left. split; [done|]. simpl.
    assert (e = ALPM_ERR_DB_INVALID ∨ e = ALPM_ERR_DB_NOT_FOUND) as [-> | ->]; [|done..].
    revert Ed. generalize (h_dbs_sync h). intros dbs.
    induction dbs as [|db dbs IH]; simpl; [done|]. destruct (has_flag _ _); [intros [= <-]; auto|].
    destruct (_ && _); [intros [= <-]; auto|done].
  - pose proof (sync_steps_spec env cached h Hpre) as Hs.
    destruct (sync_steps env cached h) as [[r|r]|]; simpl in Hs; [eauto|eauto|done].
Qed.

(** C3. _alpm_sync_prepare is total (the resolver's recursion bound suffices and
    no NULL pointer is used) and correct. A failure is explained by its error
    code and the list of missing dependencies or conflicts. On success the
    targets have distinct names and come from the original targets and the
    usable databases, no original target is lost except to the unresolvable
    ones, and each target knows the installed version; unless NODEPS is set, every dependency of a target is satisfied
    by the system that results and no satisfied dependency of a remaining
    package breaks; unless NOCONFLICTS is set, no two targets conflict and each
    installed package in conflict with a target is removed or replaced. *)
Theorem sync_prepare_correct env cached h :
  sync_pre h →
  ∃ r, alpm_sync_prepare env cached h = Some r ∧
    (explained r ∨
     sr_ret r = 0 ∧ prepared h (sr_handle r) ∧ Forall (old_known h) (trans_add (sr_handle r)) ∧
     (has_flag (trans_flags h) ALPM_TRANS_FLAG_NODEPS = false → deps_hold (sr_handle r)) ∧
     (has_flag (trans_flags h) ALPM_TRANS_FLAG_NOCONFLICTS = false →
      peaceful (λ n, n ∈ map pkg_name (trans_remove (sr_handle r))) (sr_handle r))).
Proof. exact (sync_prepare_spec env cached h). Qed.

(** An installation of postfix, which needs libdb and conflicts with the
    installed exim. *)
Definition ex_from (file : string) (p : alpm_pkg_t) : alpm_pkg_t :=
  mk_pkg (pkg_addr p) (pkg_name_hash p) (Some (str file)) (pkg_base p) (pkg_name p)
    (pkg_version p) (pkg_desc p) (pkg_url p) (pkg_packager p) (pkg_sha256sum p)
    (pkg_base64_sig p) (pkg_arch p) (pkg_builddate p) (pkg_installdate p) 4096
    (pkg_isize p) (pkg_download_size p) (pkg_licenses p) (pkg_replaces p) (pkg_groups p)
    (pkg_backup p) (pkg_depends p) (pkg_optdepends p) (pkg_checkdepends p)
    (pkg_makedepends p) (pkg_conflicts p) (pkg_provides p) (pkg_removes p) (pkg_oldpkg p)
    (pkg_files p) (ALPM_PKG_FROM_SYNCDB (str "core")) (pkg_reason p) (pkg_scriptlet p)
    (pkg_xdata p) (pkg_infolevel p) (pkg_validation p).

Definition ex_postfix : alpm_pkg_t :=
  ex_from "postfix.pkg" (simple_pkg 1 (str "postfix") (str "3.8-1") [ex_dep "libdb>=5"]
    [ex_dep "smtp-server"] [ex_dep "smtp-server"] ALPM_PKG_REASON_EXPLICIT).
Definition ex_libdb : alpm_pkg_t :=
  ex_from "libdb.pkg" (simple_pkg 2 (str "libdb") (str "5.3-1") [] [] [] ALPM_PKG_REASON_EXPLICIT).
Definition ex_exim : alpm_pkg_t :=
  simple_pkg 3 (str "exim") (str "4.9-1") [] [ex_dep "smtp-server"] [] ALPM_PKG_REASON_EXPLICIT.

Definition ex_mail (flags : Z) : alpm_handle_t :=
  set_trans (Some (mk_trans flags STATE_INITIALIZED [] [ex_postfix] [] []))
    (set_dbs_sync [list_db (str "core") 0 [ex_postfix; ex_libdb]]
      (set_db_local (list_db (str "local") DB_STATUS_LOCAL [ex_exim]) empty_handle)).

(** The user agrees to remove conflicting packages. *)
Definition agreeing : alpm_env :=
  mk_env (λ _, true) (λ _ _, 0) (λ _ _, true) (λ _ _, true) (λ _, true) streq.

Lemma ex_mail_pre flags : sync_pre (ex_mail flags).
Proof.
  split.
  - change (PkgCache (list_db (str "local") DB_STATUS_LOCAL [ex_exim])). concrete_cache.
  - constructor; [concrete_cache|constructor].
  - by eexists.
  - by repeat constructor.
  - apply NoDup_singleton.
  - intros p [Hp|(db & Hdb & _ & Hp)].
    + apply list_elem_of_singleton in Hp as ->. by eexists.
    + apply list_elem_of_singleton in Hdb as ->.
      change (p ∈ [ex_postfix; ex_libdb]) in Hp.
      repeat (apply elem_of_cons in Hp as [->|Hp]; [by eexists|]). by apply not_elem_of_nil in Hp.
Qed.

Example sync_prepare_example :
  match alpm_sync_prepare agreeing (λ _, None) (ex_mail 0) with
  | Some r => sr_ret r = 0 ∧ map pkg_name (trans_add (sr_handle r)) = [str "postfix"; str "libdb"] ∧
      map pkg_name (trans_remove (sr_handle r)) = [str "exim"]
  | None => False
  end.
Proof. by vm_compute. Qed.

Lemma sync_prepare_correct_witness :
  ∃ r, alpm_sync_prepare agreeing (λ _, None) (ex_mail 0) = Some r ∧
    (explained r ∨ deps_hold (sr_handle r)).
Proof.
  destruct (sync_prepare_correct agreeing (λ _, None) (ex_mail 0) (ex_mail_pre 0))
    as (r & Hr & [H|(_ & _ & _ & H & _)]); exists r; (split; [exact Hr|]).
  - left. exact H.
  - right. apply H. reflexivity.
Defined.

(** The targets foo 2 (the installed foo 1 provides libx, foo 2 does not), app,
    which needs libx, and two packages in conflict; the only other provider of
    libx, bar, has a dependency nobody satisfies. *)
Definition ex_mixed : alpm_handle_t :=
  let pkg n name ver deps prov conf :=
    ex_from name (simple_pkg n (str name) (str ver) (map ex_dep deps) (map ex_dep prov)
      (map ex_dep conf) ALPM_PKG_REASON_EXPLICIT) in
  let foo2 := pkg 1%nat "foo" "2-1" [] [] [] in
  let app_ := pkg 2%nat "app" "1-1" ["libx"] [] [] in
  let c1 := pkg 3%nat "cat" "1-1" [] [] ["dog"] in
  let c2 := pkg 4%nat "dog" "1-1" [] [] [] in
  let bar := pkg 5%nat "bar" "1-1" ["liby"] ["libx"] [] in
  let foo1 := simple_pkg 6 (str "foo") (str "1-1") [] [ex_dep "libx"] [] ALPM_PKG_REASON_EXPLICIT in
  set_trans (Some (mk_trans 0 STATE_INITIALIZED [] [foo2; app_; c1; c2] [] []))
    (set_dbs_sync [list_db (str "core") 0 [foo2; app_; c1; c2; bar]]
      (set_db_local (list_db (str "local") DB_STATUS_LOCAL [foo1]) empty_handle)).

(** The list returned through [data] can mix the two kinds of reports: when
    one candidate for a dependency fails and an installed package satisfies it
    after all, the failed attempt's missing dependency stays on the list, and
    a later conflict is appended to it. The caller, told that dependencies
    conflict, takes every element for an alpm_conflict_t. *)
Theorem sync_data_mixed :
  match alpm_sync_prepare no_callback (λ _, None) ex_mixed with
  | Some r => h_pm_errno (sr_handle r) = ALPM_ERR_CONFLICTING_DEPS ∧
      match sr_data r with
      | [DMissing m; DConflict c] =>
          miss_target m = str "bar" ∧ conflict_pair c = (str "cat", str "dog")
      | _ => False
      end
  | None => False
  end.
Proof. by vm_compute. Qed.

(** ** The system upgrade *)
Section sysupgrade.
Context (env : alpm_env) (h : alpm_handle_t) (down : bool)
        (Hsync : Forall PkgCache (h_dbs_sync h)).

Definition upgrade_db (db : alpm_db_t) : bool := has_flag (db_usage db) ALPM_DB_USAGE_UPGRADE.

(** [v] is a newer version than [w]: a higher epoch, then version, then release
    (when both have one) in the order of the version tokens. *)
Definition newer (v w : cstr) : Prop :=
  let '(e1, v1, r1) := parseEVR v in
  let '(e2, v2, r2) := parseEVR w in
  0 < version_cmp e1 e2 ∨
  version_cmp e1 e2 = 0 ∧
  (0 < version_cmp v1 v2 ∨
   version_cmp v1 v2 = 0 ∧
   match r1, r2 with Some r1, Some r2 => 0 < version_cmp r1 r2 | _, _ => False end).

#[local] Instance newer_dec v w : Decision (newer v w).
Proof. unfold newer. destruct (parseEVR v) as [[? ?] []], (parseEVR w) as [[? ?] []]; apply _. Defined.

(** A package named by a pattern of IgnorePkg, or in a group that one of
    IgnoreGroup names. *)
Definition ignored (p : alpm_pkg_t) : Prop :=
  Exists (λ pat, posix_fnmatch env pat (pkg_name p) = true) (h_ignorepkg h) ∨
  Exists (λ grp, Exists (λ pat, posix_fnmatch env pat grp = true) (h_ignoregroup h)) (pkg_groups p).

Definition wanted (lpkg spkg : alpm_pkg_t) : Prop :=
  (newer (pkg_version spkg) (pkg_version lpkg) ∨
   down = true ∧ newer (pkg_version lpkg) (pkg_version spkg)) ∧ ~ ignored spkg ∧ ~ ignored lpkg.

#[local] Instance ignored_dec p : Decision (ignored p).
Proof. unfold ignored. apply _. Defined.

#[local] Instance wanted_dec lpkg spkg : Decision (wanted lpkg spkg).
Proof. unfold wanted. apply _. Defined.

Lemma vercmp_newer v w : 0 < alpm_pkg_vercmp (Some v) (Some w) ↔ newer v w.
Proof.
  rewrite pkg_vercmp_parts. unfold newer.
  destruct (parseEVR v) as [[e1 v1] r1], (parseEVR w) as [[e2 v2] r2]. rewrite !rpmvercmp_spec.
  destruct (Z.eqb_spec (version_cmp e1 e2) 0); [|tauto || lia].
  destruct (Z.eqb_spec (version_cmp v1 v2) 0); [|lia].
  destruct r1, r2; rewrite ?rpmvercmp_spec; lia.
Qed.

Lemma existsb_Exists {A} (f : A → bool) l : existsb f l = true ↔ Exists (λ x, f x = true) l.
Proof.
  rewrite existsb_exists, List.Exists_exists. done.
Qed.

Lemma should_ignore_spec p : should_ignore env h p = true ↔ ignored p.
Proof.
  unfold should_ignore, alpm_pkg_should_ignore, ignored. rewrite orb_true_iff, !existsb_Exists.
  apply or_iff_compat_l. split; intros H; (eapply Exists_impl; [exact H|]); intros g; apply existsb_Exists.
Qed.

Lemma should_ignore_false p : should_ignore env h p = false ↔ ~ ignored p.
Proof. rewrite <-should_ignore_spec. by destruct (should_ignore env h p). Qed.

(** The decision of the code is the one wanted. *)
Lemma check_literal_spec lpkg spkg : check_literal env h lpkg spkg down = bool_decide (wanted lpkg spkg).
Proof.
  apply eq_true_iff_eq. rewrite bool_decide_eq_true. unfold check_literal, wanted, alpm_pkg_compare_versions.
  rewrite <-!vercmp_newer, <-!should_ignore_false.
  destruct (pkg_vercmp_antisymmetric (Some (pkg_version spkg)) (Some (pkg_version lpkg))) as (_ & _ & ->).
  set (c := alpm_pkg_vercmp _ _).
  destruct (should_ignore env h spkg), (should_ignore env h lpkg), down; cbn [orb negb andb];
    destruct (Z.ltb_spec 0 c), (Z.ltb_spec c 0); intuition (done || lia).
Qed.

(** The package an installed one is upgraded to under its own name: that of the
    first database with the name. *)
Definition literal_upgrade (lpkg : alpm_pkg_t) : option alpm_pkg_t :=
  match find_in_dbs (List.filter upgrade_db (h_dbs_sync h)) (pkg_name lpkg) with
  | Some spkg => if bool_decide (wanted lpkg spkg) then Some spkg else None
  | None => None
  end.

(** [q] is a package of an upgrade database that the user accepted as the
    replacement of [lpkg]. *)
Definition replacement (lpkg q : alpm_pkg_t) : Prop :=
  ∃ sdb spkg, sdb ∈ h_dbs_sync h ∧ upgrade_db sdb = true ∧ spkg ∈ alpm_db_get_pkgcache sdb ∧
    same_obj spkg q ∧ lpkg ∈ pkg_removes q ∧
    existsb (alpm_depcmp_literal lpkg) (pkg_replaces spkg) = true ∧
    ~ ignored spkg ∧ ~ ignored lpkg ∧ q_replace_pkg env lpkg spkg = true.

(** Updates of targets that forget no package to remove. *)
Definition updated (p q : alpm_pkg_t) : Prop :=
  same_obj p q ∧ pkg_removes p ⊆ pkg_removes q.
Definition updated_list := Forall2 updated.

#[local] Instance updated_preorder : PreOrder updated.
Proof.
  split.
  - by intros p.
  - intros p q r [A1 A2] [B1 B2]. split; by etrans.
Qed.

Lemma updated_same l l' : updated_list l l' → same_list l l'.
Proof. intros H. eapply Forall2_impl; [exact H|]. by intros p q []. Qed.

Lemma updated_list_refl l : updated_list l l.
Proof. induction l; by constructor. Qed.

Lemma updated_map f l : (∀ p, p ∈ l → updated p (f p)) → updated_list l (map f l).
Proof.
  induction l as [|p l IH]; intros H; simpl; constructor.
  - apply H, list_elem_of_here.
  - apply IH. intros q Hq. by apply H, list_elem_of_further.
Qed.

(** Target lists with correct hashes and distinct names. *)
Definition targets_ok (l : list alpm_pkg_t) : Prop := hashes_ok l ∧ NoDup (map pkg_name l).

Lemma targets_ok_same l l' : same_list l l' → targets_ok l → targets_ok l'.
Proof.
  intros Hs [H1 H2]. split; [by eapply same_hashes|]. by rewrite (same_names _ _ Hs).
Qed.

Lemma targets_ok_snoc l p :
  targets_ok l → pkg_hash_ok p → pkg_name p ∉ map pkg_name l → targets_ok (l ++ [p]).
Proof.
  intros [H1 H2] Hp Hn. split; [apply hashes_ok_app; split; [done|by repeat constructor]|].
  rewrite map_app. apply NoDup_app. split_and!; [done| |apply NoDup_singleton].
  by intros n Hin ->%list_elem_of_singleton.
Qed.

(** The old targets stay in place, with at most new reasons and removals, and
    every new one satisfies [Q]. *)
Definition extended (Q : alpm_pkg_t → Prop) (add add' : list alpm_pkg_t) : Prop :=
  targets_ok add' ∧ ∃ old new, add' = old ++ new ∧ updated_list add old ∧ Forall Q new.

(** One package of the database: nothing happens but updates of old targets, or
    it becomes a replacer. *)
Lemma check_replacer_spec lpkg sdb add reps spkg :
  sdb ∈ h_dbs_sync h → upgrade_db sdb = true → spkg ∈ alpm_db_get_pkgcache sdb → hashes_ok add →
  ∃ add1 new, check_replacer env h lpkg sdb (add, reps) spkg = (add1, reps ++ new) ∧
    updated_list add add1 ∧
    (new = [] ∨ ∃ q, new = [q] ∧ same_obj spkg q ∧ replacement lpkg q ∧
                     pkg_name spkg ∉ map pkg_name add).
Proof.
  intros Hdb Hup Hin Hh.
  assert (∃ add1 new, (add, reps) = (add1, reps ++ new) ∧ updated_list add add1 ∧
    (new = [] ∨ ∃ q, new = [q] ∧ same_obj spkg q ∧ replacement lpkg q ∧
                     pkg_name spkg ∉ map pkg_name add)) as Hsame.
  { exists add, []. rewrite app_nil_r. split_and!; [done|apply updated_list_refl|by left]. }
  unfold check_replacer.
  destruct (existsb (alpm_depcmp_literal lpkg) (pkg_replaces spkg)) eqn:Er; [cbn [negb]|exact Hsame].
  destruct (should_ignore env h spkg) eqn:Ei1; [exact Hsame|].
  destruct (should_ignore env h lpkg) eqn:Ei2; [exact Hsame|]. cbn [orb].
  apply should_ignore_false in Ei1, Ei2.
  destruct (q_replace_pkg env lpkg spkg) eqn:Eq; [cbn [negb]|exact Hsame].
  destruct (alpm_pkg_find add (pkg_name spkg)) as [tpkg|] eqn:Ef.
  - destruct (negb _); [exact Hsame|]. eexists _, []. rewrite app_nil_r.
    split_and!; [done| |by left]. apply updated_map. intros p _. destruct (ptr_eq _ _); [|done].
    destruct (bool_decide _); (split; [by repeat split|simpl; set_solver]).
  - apply pkg_find_None in Ef; [|done].
    eexists add, [_]. split_and!; [done|apply updated_list_refl|]. right. eexists.
    split_and!; [done|by repeat split| |done].
    exists sdb, spkg. split_and!; [done|done|done|by repeat split|apply list_elem_of_here|done..].
Qed.

Lemma check_replacers_fold lpkg sdb cache add reps :
  sdb ∈ h_dbs_sync h → upgrade_db sdb = true →
  (∀ p, p ∈ cache → p ∈ alpm_db_get_pkgcache sdb ∧ pkg_hash_ok p) → NoDup (map pkg_name cache) →
  (∀ p, p ∈ cache → pkg_name p ∉ map pkg_name reps) → targets_ok (add ++ reps) →
  Forall (replacement lpkg) reps →
  let st := fold_left (check_replacer env h lpkg sdb) cache (add, reps) in
  updated_list add st.1 ∧ targets_ok (st.1 ++ st.2) ∧ Forall (replacement lpkg) st.2.
Proof.
  intros Hdb Hup. revert add reps. induction cache as [|spkg cache IH]; intros add reps Hin Hnd Hfr Hok Hrep.
  { split_and!; [apply updated_list_refl|done|done]. }
  cbn [fold_left]. simpl in Hnd. apply NoDup_cons in Hnd as [Hn Hnd].
  destruct (Hin spkg (list_elem_of_here _ _)) as [Hcache Hh]. destruct (Hok) as [Hh0 _].
  destruct (check_replacer_spec lpkg sdb add reps spkg) as (add1 & new & -> & Hs & Hnew);
    [done..|by apply hashes_ok_app in Hh0 as [? _]|].
  assert (updated_list (add ++ reps) (add1 ++ reps)) as Hs1
    by (apply Forall2_app; [done|apply updated_list_refl]).
  destruct (IH add1 (reps ++ new)) as (H1 & H2 & H3).
  - intros p Hp. by apply Hin, list_elem_of_further.
  - done.
  - intros p Hp. rewrite map_app, elem_of_app. intros [Hr|Hr].
    + by apply (Hfr p (list_elem_of_further _ _ _ Hp)).
    + destruct Hnew as [->|(q & -> & Eq & _)]; [by apply not_elem_of_nil in Hr|].
      apply list_elem_of_singleton in Hr. rewrite (sd_name _ _ (proj1 Eq)) in Hr.
      apply Hn. rewrite <-Hr. by apply list_elem_of_fmap_2.
  - rewrite app_assoc. pose proof (targets_ok_same _ _ (updated_same _ _ Hs1) Hok) as Hok1.
    destruct Hnew as [->|(q & -> & Eq & _ & Hna)]; [by rewrite app_nil_r|].
    apply targets_ok_snoc; [done| |].
    + unfold pkg_hash_ok. by rewrite (sd_hash _ _ (proj1 Eq)), (sd_name _ _ (proj1 Eq)).
    + rewrite (sd_name _ _ (proj1 Eq)), (same_names _ _ (updated_same _ _ Hs1)), map_app, elem_of_app. intros [?|?]; [done|].
      by apply (Hfr spkg (list_elem_of_here _ _)).
  - apply Forall_app. split; [done|]. destruct Hnew as [->|(q & -> & _ & ? & _)]; by repeat constructor.
  - split_and!; [|done|done]. unfold updated_list in *. by etrans.
Qed.

Lemma find_in_dbs_skip db dbs n :
  upgrade_db db = false →
  find_in_dbs (List.filter upgrade_db (db :: dbs)) n = find_in_dbs (List.filter upgrade_db dbs) n.
Proof. simpl. by intros ->. Qed.

(** The loop over the databases for one installed package. *)
Lemma upgrade_from_spec lpkg dbs add :
  dbs ⊆ h_dbs_sync h → targets_ok add → pkg_name lpkg ∉ map pkg_name add →
  extended (λ q, replacement lpkg q ∨
    (find_in_dbs (List.filter upgrade_db dbs) (pkg_name lpkg) = Some q ∧
     check_literal env h lpkg q down = true)) add (upgrade_from env h down lpkg dbs add).
Proof.
  revert add. induction dbs as [|sdb dbs IH]; intros add Hsub Hok Hn; simpl.
  { split; [done|]. exists add, []. rewrite app_nil_r. split_and!; [done|apply updated_list_refl|done]. }
  assert (dbs ⊆ h_dbs_sync h) as Hsub' by set_solver.
  assert (sdb ∈ h_dbs_sync h) as Hdb by set_solver.
  change (has_flag (db_usage sdb) ALPM_DB_USAGE_UPGRADE) with (upgrade_db sdb).
  destruct (upgrade_db sdb) eqn:Eu; cbn [negb]; [|by apply IH].
  pose proof Hsync as Hc. rewrite Forall_forall in Hc. specialize (Hc sdb Hdb).
  pose proof (@cache_hashes sdb Hc) as Hh. unfold hashes_ok in Hh. rewrite Forall_forall in Hh.
  destruct (check_replacers_fold lpkg sdb (alpm_db_get_pkgcache sdb) add []) as (Hs & Hok1 & Hrep);
    [done|done|by auto|apply Hc|intros p _; apply not_elem_of_nil|by rewrite app_nil_r|constructor|].
  unfold check_replacers. destruct (fold_left _ _ _) as [add1 reps]. simpl in *.
  destruct reps as [|r reps].
  2:{ split; [done|]. exists add1, (r :: reps). split_and!; [done|done|].
      eapply Forall_impl; [exact Hrep|]. auto. }
  rewrite app_nil_r in Hok1. assert (pkg_name lpkg ∉ map pkg_name add1) as Hn1
    by (by rewrite (same_names _ _ (updated_same _ _ Hs))).
  destruct (alpm_db_get_pkgfromcache sdb (pkg_name lpkg)) as [spkg|] eqn:Ef.
  - apply cache_lookup_Some in Ef as [Hin Hname]; [|done].
    destruct (check_literal env h lpkg spkg down) eqn:El.
    + split; [apply targets_ok_snoc; [done|by apply Hh|by rewrite Hname]|].
      exists add1, [spkg]. split_and!; [done|done|]. constructor; [by right|constructor].
    + split; [done|]. exists add1, []. rewrite app_nil_r. done.
  - destruct (IH add1 Hsub' Hok1 Hn1) as [H1 (old & new & H2 & H3 & H4)]. split; [done|].
    exists old, new. split_and!; [done| |done]. unfold updated_list in *. by etrans.
Qed.

(** Why a package is a new target of a system upgrade. *)
Definition upgrade_reason (add0 : list alpm_pkg_t) (q : alpm_pkg_t) : Prop :=
  ∃ lpkg, lpkg ∈ alpm_db_get_pkgcache (h_db_local h) ∧
    pkg_name lpkg ∉ map pkg_name add0 ∧ alpm_pkg_find (trans_remove h) (pkg_name lpkg) = None ∧
    (replacement lpkg q ∨ ∃ spkg, literal_upgrade lpkg = Some spkg ∧ updated spkg q).

Lemma upgrade_reason_updated add0 q q' :
  updated q q' → upgrade_reason add0 q → upgrade_reason add0 q'.
Proof.
  intros [Hs Hr] (lpkg & H1 & H2 & H3 & H4). exists lpkg. split_and!; [done..|].
  destruct H4 as [(sdb & spkg & A1 & A2 & A3 & A4 & A5 & A6)|(spkg & E & A)].
  - left. exists sdb, spkg. split_and!; [done|done|done|by etrans|by apply Hr|apply A6..].
  - right. exists spkg. split; [done|]. by etrans.
Qed.

Lemma upgrade_one_spec add0 add lpkg :
  lpkg ∈ alpm_db_get_pkgcache (h_db_local h) →
  extended (upgrade_reason add0) add0 add →
  extended (upgrade_reason add0) add0 (upgrade_one env h down add lpkg).
Proof.
  intros Hl Hext. destruct (Hext) as [Hok (old & new & -> & Hold & Hnew)]. unfold upgrade_one.
  destruct (alpm_pkg_find (trans_remove h) (pkg_name lpkg)) as [|] eqn:Er; simpl; [done|].
  destruct (alpm_pkg_find (old ++ new) (pkg_name lpkg)) as [|] eqn:Ea; simpl; [done|].
  apply pkg_find_None in Ea; [|apply Hok].
  destruct (upgrade_from_spec lpkg (h_dbs_sync h) (old ++ new)) as [Hok' (l1 & l2 & E & Hl1 & Hl2)];
    [done|done|done|].
  apply Forall2_app_inv_l in Hl1 as (old1 & new1 & H1 & H2 & ->). split; [done|]. rewrite E.
  exists old1, (new1 ++ l2). rewrite app_assoc. split_and!; [done| |].
  - unfold updated_list in *. by etrans.
  - apply Forall_app. split.
    + clear -H2 Hnew. induction H2; [constructor|]. inversion Hnew; subst.
      constructor; [by eapply upgrade_reason_updated|by auto].
    + eapply Forall_impl; [exact Hl2|]. intros q Hq. exists lpkg. split_and!; [done| |done|].
      * rewrite <-(same_names _ _ (updated_same _ _ Hold)). intros Hn. apply Ea.
        rewrite map_app. apply elem_of_app. by left.
      * destruct Hq as [?|[Hq Hck]]; [by left|right]. exists q. split; [|done].
        unfold literal_upgrade. by rewrite Hq, <-check_literal_spec, Hck.
Qed.

Lemma upgrade_fold_spec add0 add l :
  l ⊆ alpm_db_get_pkgcache (h_db_local h) → extended (upgrade_reason add0) add0 add →
  extended (upgrade_reason add0) add0 (fold_left (upgrade_one env h down) l add).
Proof.
  revert add. induction l as [|lpkg l IH]; intros add Hl He; simpl; [done|].
  apply IH; [set_solver|]. apply upgrade_one_spec; [set_solver|done].
Qed.

(** Without replacements the new targets are computed one by one. *)
Lemma upgrade_from_plain lpkg dbs add :
  (∀ l s, q_replace_pkg env l s = false) →
  upgrade_from env h down lpkg dbs add =
  add ++ match find_in_dbs (List.filter upgrade_db dbs) (pkg_name lpkg) with
         | Some spkg => if check_literal env h lpkg spkg down then [spkg] else []
         | None => []
         end.
Proof.
  intros Hq. induction dbs as [|sdb dbs IH]; simpl; [by rewrite app_nil_r|].
  change (has_flag (db_usage sdb) ALPM_DB_USAGE_UPGRADE) with (upgrade_db sdb).
  destruct (upgrade_db sdb); simpl; [|done].
  assert (check_replacers env h lpkg sdb add = (add, [])) as ->.
  { unfold check_replacers. generalize (alpm_db_get_pkgcache sdb). intros l.
    induction l as [|s l IHl]; simpl; [done|]. rewrite Hq. simpl.
    by destruct (negb _); [|destruct (_ || _)]. }
  destruct (alpm_db_get_pkgfromcache sdb (pkg_name lpkg)) as [spkg|]; [|done].
  destruct (check_literal _ _ _ _ _); [done|by rewrite app_nil_r].
Qed.

Definition upgradable (add0 : list alpm_pkg_t) (lpkg : alpm_pkg_t) : bool :=
  negb (is_some (alpm_pkg_find (trans_remove h) (pkg_name lpkg)))
  && negb (is_some (alpm_pkg_find add0 (pkg_name lpkg))).

Lemma literal_upgrade_name lpkg q :
  literal_upgrade lpkg = Some q → pkg_name q = pkg_name lpkg.
Proof.
  unfold literal_upgrade. destruct (find_in_dbs _ _) as [spkg|] eqn:Ef; [|done].
  destruct (bool_decide _); [|done]. intros [= <-]. clear -Hsync Ef.
  induction (h_dbs_sync h) as [|db dbs IH]; simpl in Ef; [done|].
  inversion Hsync as [|? ? Hc Hcs]; subst. destruct (upgrade_db db); simpl in Ef; [|by apply IH].
  destruct (alpm_db_get_pkgfromcache db _) as [p|] eqn:E; [|by apply IH].
  injection Ef as <-. by apply cache_lookup_Some in E as [_ ?].
Qed.

Lemma upgrade_fold_plain add0 done_ l :
  (∀ l s, q_replace_pkg env l s = false) →
  NoDup (map pkg_name (done_ ++ l)) →
  fold_left (upgrade_one env h down) l
    (add0 ++ omap literal_upgrade (List.filter (upgradable add0) done_)) =
  add0 ++ omap literal_upgrade (List.filter (upgradable add0) (done_ ++ l)).
Proof.
  intros Hq. revert done_. induction l as [|lpkg l IH]; intros done_ Hnd; simpl; [by rewrite app_nil_r|].
  replace (done_ ++ lpkg :: l) with ((done_ ++ [lpkg]) ++ l) in * by by rewrite <-app_assoc.
  rewrite <-IH by done. f_equal. rewrite List.filter_app, omap_app, app_assoc. simpl.
  set (cur := add0 ++ _). unfold upgrade_one, upgradable at 1.
  destruct (is_some (alpm_pkg_find (trans_remove h) (pkg_name lpkg))); simpl; [by rewrite app_nil_r|].
  assert (is_some (alpm_pkg_find cur (pkg_name lpkg)) = is_some (alpm_pkg_find add0 (pkg_name lpkg)))
    as ->.
  { unfold cur. rewrite pkg_find_app. destruct (alpm_pkg_find add0 _); [done|].
    destruct (alpm_pkg_find (omap _ _) _) as [p|] eqn:Ef; [exfalso|done].
    apply pkg_find_Some in Ef as [Hp Hn].
    apply list_elem_of_omap in Hp as (q & Hq1 & Hq2). apply literal_upgrade_name in Hq2.
    apply elem_of_bfilter in Hq1 as [Hq1 _]. rewrite !map_app in Hnd.
    apply NoDup_app in Hnd as (Hnd & _). apply NoDup_app in Hnd as (_ & Hnd & _).
    apply (Hnd (pkg_name q)); [by apply list_elem_of_fmap_2|]. rewrite <-Hq2, Hn.
    apply list_elem_of_here. }
  destruct (is_some (alpm_pkg_find add0 (pkg_name lpkg))); simpl; [by rewrite app_nil_r|].
  rewrite upgrade_from_plain by done. f_equal. unfold literal_upgrade.
  destruct (find_in_dbs _ _) as [spkg|]; [|done]. rewrite check_literal_spec.
  by destruct (bool_decide _).
Qed.
End sysupgrade.

(** C28. alpm_sync_sysupgrade keeps the targets there are (it may only add to what
    they replace) and adds packages with new names only. Each has a reason: it
    replaces, with the user's consent, an installed package that is neither a
    target nor to be removed, and removes it; or it is the package of that
    name in the first upgrade database that has one, newer (or older when
    downgrades are enabled) and not ignored. When no replacement is accepted the
    new targets are exactly those upgrades, in the order of the local
    database. *)
Theorem sysupgrade_correct env h trans down :
  PkgCache (h_db_local h) → Forall PkgCache (h_dbs_sync h) →
  h_trans h = Some trans → t_state trans = STATE_INITIALIZED → targets_ok (t_add trans) →
  let (h', ret) := alpm_sync_sysupgrade env h down in
  ret = 0 ∧ extended (upgrade_reason env h down (t_add trans)) (t_add trans) (trans_add h') ∧
  ((∀ l s, q_replace_pkg env l s = false) →
   trans_add h' = t_add trans ++ omap (literal_upgrade env h down)
     (List.filter (upgradable h (t_add trans)) (alpm_db_get_pkgcache (h_db_local h)))).
Proof.
  intros Hl Hs Ht Hst Hok. unfold alpm_sync_sysupgrade. cbn [check_handle set_errno h_trans].
  rewrite Ht, Hst. simpl. unfold trans_add. simpl. rewrite Ht. simpl. split_and!; [done| |].
  - apply (upgrade_fold_spec env (check_handle h) down Hs (t_add trans) (t_add trans)); [done|].
    split; [done|]. exists (t_add trans), []. rewrite app_nil_r.
    split_and!; [done|apply updated_list_refl|done].
  - intros Hq. pose proof (upgrade_fold_plain env (check_handle h) down Hs (t_add trans) []
      (alpm_db_get_pkgcache (h_db_local h)) Hq (cache_names)) as H.
    simpl in H. by rewrite app_nil_r in H.
Qed.

(** exim is upgraded, and libdb is a target already. *)
Definition ex_exim2 : alpm_pkg_t :=
  ex_from "exim.pkg" (simple_pkg 4 (str "exim") (str "4.10-1") [] [] [] ALPM_PKG_REASON_DEPEND).

Definition ex_outdated : alpm_handle_t :=
  set_trans (Some (mk_trans 0 STATE_INITIALIZED [] [ex_libdb] [] []))
    (set_dbs_sync [list_db (str "core") 0 [ex_postfix; ex_libdb; ex_exim2]]
      (set_db_local (list_db (str "local") DB_STATUS_LOCAL [ex_exim]) empty_handle)).

Lemma sysupgrade_correct_witness :
  let (h', ret) := alpm_sync_sysupgrade no_callback ex_outdated false in
  ret = 0 ∧ trans_add h' = [ex_libdb; ex_exim2].
Proof.
  pose proof (sysupgrade_correct no_callback ex_outdated
    (mk_trans 0 STATE_INITIALIZED [] [ex_libdb] [] []) false) as H.
  destruct (alpm_sync_sysupgrade no_callback ex_outdated false) as [h' ret].
  destruct H as (H1 & _ & H2).
  - change (PkgCache (list_db (str "local") DB_STATUS_LOCAL [ex_exim])). concrete_cache.
  - constructor; [concrete_cache|constructor].
  - reflexivity.
  - reflexivity.
  - split; [by repeat constructor|apply NoDup_singleton].
  - split; [exact H1|]. rewrite H2 by reflexivity. by vm_compute.
Defined.
