(* ===== verification/FileOps.v ===== *)
(** * Files on disk: removal and extraction

    The file operations of a commit: lib/libalpm/remove.c (shift_pacsave,
    unlink_file, should_skip_file, can_remove_file, remove_package_files) and
    add.c (perform_extraction, extract_db_file, extract_single_file). The file
    system is a finite map from paths to directories and files; a path is
    looked up as it is spelt (no symbolic links, no ..), and only regular files
    are renamed. What the tree does not determine (digests, failing calls, read-only
    and mounted places, the regular expression engine) is in [os]. *)
From S2P Require Import Prelude CString AlpmList Util Package PkgHash Handle Deps FileList Db.
Local Open Scope Z_scope.

Inductive node := NDir | NFile (data : cstr).
#[export] Instance node_eq_dec : EqDecision node.
Proof. solve_decision. Defined.
Abbreviation fsys := (gmap cstr node).

Record os := mk_os {
  os_md5 : cstr → option cstr;         (* of the data of a file; NULL when it cannot be read *)
  os_denied : cstr → bool;             (* changing this path fails *)
  os_torn : cstr → option (option cstr);  (* what a failed extraction leaves, see [perform_extraction] *)
  os_readonly : cstr → bool;           (* W_OK fails, but not with EACCES or ETXTBSY *)
  os_mountpoint : cstr → bool;         (* dir_is_mountpoint *)
  os_regcomp : regcomp_t
}.

Definition PATH_MAX : nat := 4096.
Definition ULONG_MAX : Z := 2 ^ 64 - 1.

(** printf %lu, strtoul (which saturates) *)
Definition digit_chr (n : Z) : ascii := ascii_of_N (Z.to_N (48 + n)).
Fixpoint utoa_digits (fuel : nat) (n : Z) : cstr :=
  match fuel with
  | O => []
  | S fuel' => if n <? 10 then [digit_chr n]
               else utoa_digits fuel' (n / 10) ++ [digit_chr (n mod 10)]
  end.
Definition utoa (n : Z) : cstr := utoa_digits 20 n.
Definition strtoul (s : cstr) : Z := Z.min ULONG_MAX (digits_val (take_while isdigit s)).

Section fileops.
Context (sys : os).

(** ** System calls *)
Definition lstat (fs : fsys) (path : cstr) : option node := fs !! llstat_path path.

(** The names in a directory, without . and .. *)
Definition dir_prefix (dir : cstr) : cstr :=
  if is_dir_name dir then dir else dir ++ str "/".

Definition entry_of (dir path : cstr) : option cstr :=
  if is_prefix (dir_prefix dir) path
  then let name := drop (length (dir_prefix dir)) path in
       match name with
       | [] => None
       | _ => if existsb is_slash name then None else Some name
       end
  else None.

Definition readdir (fs : fsys) (dir : cstr) : option (list cstr) :=
  match lstat fs dir with
  | Some NDir => Some (omap (entry_of dir) (map fst (map_to_list fs)))
  | _ => None
  end.

Definition rename (fs : fsys) (src dest : cstr) : option fsys :=
  match fs !! src with
  | Some n => if os_denied sys src || os_denied sys dest then None
              else Some (<[dest := n]> (delete src fs))
  | None => None
  end.

(** rename whose failure is ignored *)
Definition rename_ (fs : fsys) (src dest : cstr) : fsys :=
  match rename fs src dest with Some fs' => fs' | None => fs end.

Definition unlink (fs : fsys) (path : cstr) : option fsys :=
  match fs !! path with
  | Some (NFile _) => if os_denied sys path then None else Some (delete path fs)
  | _ => None
  end.

Definition rmdir (fs : fsys) (path : cstr) : option fsys :=
  match lstat fs path with
  | Some NDir =>
      match readdir fs path with
      | Some [] => if os_denied sys (llstat_path path) then None
                   else Some (delete (llstat_path path) fs)
      | _ => None
      end
  | _ => None
  end.

Definition alpm_compute_md5sum (fs : fsys) (path : cstr) : option cstr :=
  match fs !! path with Some (NFile data) => os_md5 sys data | _ => None end.

(** _alpm_files_in_directory without a full count *)
Definition files_in_directory (fs : fsys) (path : cstr) : Z :=
  match readdir fs path with
  | None => -1
  | Some [] => 0
  | Some _ => 1
  end.

(** ** shift_pacsave *)
Definition pacsave (file : cstr) : cstr := file ++ str ".pacsave".
Definition pacsave_n (file : cstr) (n : Z) : cstr := file ++ str ".pacsave." ++ utoa n.

(** The regular expression, whose basename is not quoted. *)
Definition pacsave_regex (basename : cstr) : cstr :=
  str "^" ++ basename ++ str "\.pacsave\.([[:digit:]]+)$".

Definition log_max (reg : cstr → bool) (basename : cstr) (entries : list cstr) : Z :=
  fold_left (λ m ent, if reg ent
                      then Z.max m (strtoul (drop (length basename + 9) ent)) else m) entries 0.

(** The loop from log_max + 1 down to 2: [k] renames are left, of [k] to [k] + 1
    first. [false]: a path is too long. *)
Fixpoint shift_loop (file : cstr) (k : nat) (fs : fsys) : fsys * bool :=
  match k with
  | O => (fs, true)
  | S k' =>
      let oldfile := pacsave_n file (Z.of_nat k) in
      let newfile := pacsave_n file (Z.of_nat k + 1) in
      if (PATH_MAX <=? length oldfile)%nat || (PATH_MAX <=? length newfile)%nat then (fs, false)
      else shift_loop file k' (rename_ fs oldfile newfile)
  end.

Definition shift_pacsave (fs : fsys) (file : cstr) : fsys :=
  let basename := mbasename file in
  match os_regcomp sys (pacsave_regex basename) with
  | None => fs
  | Some reg =>
      match readdir fs (mdirname (Some file)) with
      | None => fs
      | Some entries =>
          let i := (log_max reg basename entries + 1) mod 2 ^ 64 in
          let '(fs, ok) := shift_loop file (Z.to_nat (i - 1)) fs in
          let oldfile := pacsave file in
          let newfile := oldfile ++ str ".1" in
          if negb ok || (PATH_MAX <=? length oldfile)%nat || (PATH_MAX <=? length newfile)%nat
          then fs
          else match fs !! oldfile with
               | Some _ => rename_ fs oldfile newfile
               | None => fs
               end
      end
  end.

(** ** unlink_file *)

(** The file name as the program writes it: without a trailing slash. *)
Definition target_path (root name : cstr) : cstr :=
  let file := root ++ name in if is_dir_name file then removelast file else file.

Definition owned_by_other (h : alpm_handle_t) (oldpkg : alpm_pkg_t) (name : cstr) : bool :=
  existsb (λ local_pkg,
    negb ((pkg_name_hash oldpkg =? pkg_name_hash local_pkg)
          && streq (pkg_name oldpkg) (pkg_name local_pkg))
    && is_some (alpm_filelist_contains (pkg_files local_pkg) name))
    (alpm_db_get_pkgcache (h_db_local h)).

Definition in_package (newpkg : option alpm_pkg_t) (name : cstr) : bool :=
  match newpkg with
  | Some p => is_some (alpm_filelist_contains (pkg_files p) name)
  | None => false
  end.

Definition unlink_dir (h : alpm_handle_t) (root : cstr) (oldpkg : alpm_pkg_t)
    (newpkg : option alpm_pkg_t) (name file : cstr) (fs : fsys) : fsys * Z :=
  if negb (length file <? PATH_MAX - 1)%nat then (fs, -1)
  else
    let dir := file ++ str "/" in
    let files := files_in_directory fs dir in
    if (0 <? files) || (files <? 0) then (fs, 0)
    else if in_package newpkg name then (fs, 0)
    else if os_mountpoint sys dir then (fs, 0)
    else if owned_by_other h oldpkg name then (fs, 0)
    else match rmdir fs dir with Some fs' => (fs', 0) | None => (fs, -1) end.

(** [None] is undefined behaviour: strcmp with a NULL hash. *)
Definition unlink_regular (oldpkg : alpm_pkg_t) (name file : cstr) (nosave : bool) (fs : fsys)
    : option (fsys * Z) :=
  let remove_ := Some (match unlink fs file with Some fs' => (fs', 0) | None => (fs, -1) end) in
  match alpm_needbackup name oldpkg with
  | Some backup =>
      if nosave then remove_
      else
        match alpm_compute_md5sum fs file, backup_hash backup with
        | None, _ => remove_
        | Some _, None => None
        | Some filehash, Some hash =>
            if negb (streq filehash hash) then
              let fs1 := shift_pacsave fs file in
              Some (match rename fs1 file (pacsave file) with
                    | Some fs2 => (fs2, 0)
                    | None => (fs1, -1)
                    end)
            else remove_
        end
  | None => remove_
  end.

Definition unlink_file (h : alpm_handle_t) (root : cstr) (oldpkg : alpm_pkg_t)
    (newpkg : option alpm_pkg_t) (fileobj : alpm_file_t) (nosave : bool) (fs : fsys)
    : option (fsys * Z) :=
  let name := file_name fileobj in
  let file_len := length (root ++ name) in
  if (file_len =? 0)%nat || (PATH_MAX <=? file_len)%nat then Some (fs, -1)
  else
    let file := target_path root name in
    match lstat fs file with
    | None => Some (fs, 1)
    | Some NDir => Some (unlink_dir h root oldpkg newpkg name file fs)
    | Some (NFile _) => unlink_regular oldpkg name file nosave fs
    end.

(** ** remove_package_files *)
Definition should_skip_file (env : alpm_env) (h : alpm_handle_t) (newpkg : option alpm_pkg_t)
    (path : cstr) : bool :=
  (alpm_fnmatch_patterns (posix_fnmatch env) (h_noupgrade h) path =? 0)
  || existsb (streq path) (match h_trans h with Some t => t_skip_remove t | None => [] end)
  || match newpkg with
     | Some p => is_some (alpm_needbackup path p) && in_package newpkg path
     | None => false
     end.

Definition can_remove_file (fs : fsys) (root : cstr) (file : alpm_file_t) : bool :=
  let filepath := root ++ file_name file in
  if is_dir_name (file_name file) && os_mountpoint sys filepath then true
  else negb (os_readonly sys filepath && is_some (lstat fs filepath)).

(** The loop over the files from last to first: the number of failures. *)
Fixpoint unlink_files (env : alpm_env) (h : alpm_handle_t) (root : cstr) (oldpkg : alpm_pkg_t)
    (newpkg : option alpm_pkg_t) (nosave : bool) (files : list alpm_file_t) (fs : fsys) (err : Z)
    : option (fsys * Z) :=
  match files with
  | [] => Some (fs, err)
  | file :: files' =>
      if should_skip_file env h newpkg (file_name file)
      then unlink_files env h root oldpkg newpkg nosave files' fs err
      else
        match unlink_file h root oldpkg newpkg file nosave fs with
        | None => None
        | Some (fs', rc) =>
            unlink_files env h root oldpkg newpkg nosave files' fs' (if rc <? 0 then err + 1 else err)
        end
  end.

Definition remove_package_files (env : alpm_env) (h : alpm_handle_t) (root : cstr)
    (oldpkg : alpm_pkg_t) (newpkg : option alpm_pkg_t) (fs : fsys)
    : option (alpm_handle_t * fsys * Z) :=
  let nosave := has_flag (trans_flags h) ALPM_TRANS_FLAG_NOSAVE in
  if negb (forallb (λ file, should_skip_file env h newpkg (file_name file)
                            || can_remove_file fs root file) (pkg_files oldpkg))
  then Some (set_errno ALPM_ERR_PKG_CANT_REMOVE h, fs, -1)
  else
    match unlink_files env h root oldpkg newpkg nosave (reverse (pkg_files oldpkg)) fs 0 with
    | None => None
    | Some (fs', err) => Some (h, fs', err)
    end.

(** ** Extraction (add.c) *)
Record archive_entry := mk_entry {
  ent_path : cstr;
  ent_isdir : bool;       (* S_ISDIR of its mode *)
  ent_data : cstr
}.

Definition entry_node (e : archive_entry) : node :=
  if ent_isdir e then NDir else NFile (ent_data e).

(** perform_extraction: the number of errors. libarchive, which unlinks an
    existing file first, may fail before it touches the path ([None]), after the
    old file is unlinked ([Some None]), or with a part of the data written. *)
Definition perform_extraction (e : archive_entry) (filename : cstr) (fs : fsys) : fsys * Z :=
  let path := llstat_path filename in
  if os_denied sys filename
  then (match os_torn sys filename with
        | None => fs
        | Some None => delete path fs
        | Some (Some part) => <[path := NFile part]> fs
        end, 1)
  else (<[path := entry_node e]> fs, 0).

Definition try_rename (fs : fsys) (src dest : cstr) : fsys * Z :=
  match rename fs src dest with Some fs' => (fs', 0) | None => (fs, 1) end.

Definition extract_db_file (db_path : cstr) (e : archive_entry) (newpkg : alpm_pkg_t) (fs : fsys)
    : fsys * Z :=
  let dbfile :=
    if streq (ent_path e) (str ".INSTALL") then Some (str "install")
    else if streq (ent_path e) (str ".CHANGELOG") then Some (str "changelog")
    else if streq (ent_path e) (str ".MTREE") then Some (str "mtree")
    else None in
  match dbfile with
  | None => (fs, 0)
  | Some dbfile =>
      perform_extraction e
        (take (PATH_MAX - 1) (db_path ++ pkg_name newpkg ++ str "-" ++ pkg_version newpkg
                              ++ str "/" ++ dbfile)) fs
  end.

(** backup->hash = hash, in the first entry of the name *)
Fixpoint set_backup_hash (name : cstr) (hash : option cstr) (l : list alpm_backup_t)
    : list alpm_backup_t :=
  match l with
  | [] => []
  | b :: l' => if streq name (backup_name b) then mk_backup (backup_name b) hash :: l'
               else b :: set_backup_hash name hash l'
  end.

Definition with_backup (l : list alpm_backup_t) (p : alpm_pkg_t) : alpm_pkg_t :=
  mk_pkg (pkg_addr p) (pkg_name_hash p) (pkg_filename p) (pkg_base p) (pkg_name p)
    (pkg_version p) (pkg_desc p) (pkg_url p) (pkg_packager p) (pkg_sha256sum p)
    (pkg_base64_sig p) (pkg_arch p) (pkg_builddate p) (pkg_installdate p) (pkg_size p)
    (pkg_isize p) (pkg_download_size p) (pkg_licenses p) (pkg_replaces p) (pkg_groups p) l
    (pkg_depends p) (pkg_optdepends p) (pkg_checkdepends p) (pkg_makedepends p)
    (pkg_conflicts p) (pkg_provides p) (pkg_removes p) (pkg_oldpkg p) (pkg_files p)
    (pkg_origin p) (pkg_reason p) (pkg_scriptlet p) (pkg_xdata p) (pkg_infolevel p)
    (pkg_validation p).

(** Two digests that are both known and equal. *)
Definition same_hash (a b : option cstr) : bool :=
  match a, b with Some x, Some y => streq x y | _, _ => false end.

(** What is to be done with an entry: nothing (with some errors), or extraction,
    with the digest the old package recorded when the file is kept (notouch) or
    needs a backup. *)
Inductive extraction :=
  | Skip (errors : Z)
  | Extract
  | ExtractNoTouch
  | ExtractBackup (hash_orig : option cstr).

Definition plan_extraction (env : alpm_env) (h : alpm_handle_t) (root : cstr) (e : archive_entry)
    (newpkg : alpm_pkg_t) (oldpkg : option alpm_pkg_t) (fs : fsys) : extraction :=
  let filename := root ++ ent_path e in
  if negb (in_package (Some newpkg) (ent_path e)) then Skip 0
  else if (PATH_MAX <=? length filename)%nat then Skip 1
  else if alpm_fnmatch_patterns (posix_fnmatch env) (h_noextract h) (ent_path e) =? 0 then Skip 0
  else
    match lstat fs filename with
    | None => Extract
    | Some NDir => if ent_isdir e then Skip 0 else Skip 1
    | Some (NFile _) =>
        if ent_isdir e then Extract
        else if alpm_fnmatch_patterns (posix_fnmatch env) (h_noupgrade h) (ent_path e) =? 0
             then ExtractNoTouch
             else
               match oldpkg ≫= alpm_needbackup (ent_path e) with
               | Some oldbackup => ExtractBackup (backup_hash oldbackup)
               | None => if is_some (alpm_needbackup (ent_path e) newpkg)
                         then ExtractBackup None else Extract
               end
    end.

(** The three-way comparison of a configuration file extracted as [filename]. *)
Definition merge_backup (origfile filename : cstr) (hash_orig hash_pkg : option cstr)
    (isnewfile : bool) (fs : fsys) : fsys * Z :=
  let hash_local := alpm_compute_md5sum fs origfile in
  if same_hash hash_local hash_pkg then try_rename fs filename origfile
  else if same_hash hash_orig hash_pkg then
    (if isnewfile then match unlink fs filename with Some fs' => fs' | None => fs end else fs, 0)
  else if same_hash hash_orig hash_local then try_rename fs filename origfile
  else (fs, 0).

Definition pacnew (file : cstr) : cstr := file ++ str ".pacnew".

Definition extract_single_file (env : alpm_env) (h : alpm_handle_t) (root db_path : cstr)
    (e : archive_entry) (newpkg : alpm_pkg_t) (oldpkg : option alpm_pkg_t) (fs : fsys)
    : fsys * alpm_pkg_t * Z :=
  if Ascii.eqb (hd_chr (ent_path e)) "."%char then
    let '(fs, errors) := extract_db_file db_path e newpkg fs in (fs, newpkg, errors)
  else
    let origfile := root ++ ent_path e in
    let backup := alpm_needbackup (ent_path e) newpkg in
    (* extraction as [filename], and the new digest of a backup entry *)
    let extract (filename : cstr) (k : fsys → alpm_pkg_t → fsys * alpm_pkg_t * Z) :=
      let '(fs, errors) := perform_extraction e filename fs in
      if errors =? 0 then
        k fs (if is_some backup
              then with_backup (set_backup_hash (ent_path e) (alpm_compute_md5sum fs filename)
                                  (pkg_backup newpkg)) newpkg
              else newpkg)
      else (fs, newpkg, errors) in
    let aside (k : fsys → alpm_pkg_t → fsys * alpm_pkg_t * Z) :=
      if (PATH_MAX <=? length (pacnew origfile))%nat then (fs, newpkg, 1)
      else extract (pacnew origfile) k in
    match plan_extraction env h root e newpkg oldpkg fs with
    | Skip errors => (fs, newpkg, errors)
    | Extract => extract origfile (λ fs pkg, (fs, pkg, 0))
    | ExtractNoTouch => aside (λ fs pkg, (fs, pkg, 0))
    | ExtractBackup hash_orig =>
        let isnewfile := negb (is_some (lstat fs (pacnew origfile))) in
        aside (λ fs pkg,
          let hash_pkg := alpm_compute_md5sum fs (pacnew origfile) in
          let '(fs, errors) := merge_backup origfile (pacnew origfile) hash_orig hash_pkg isnewfile fs
          in (fs, pkg, errors))
    end.
End fileops.

(** ** Facts: paths *)
Lemma llstat_file p : is_dir_name p = false → llstat_path p = p.
Proof.
  destruct p as [|c p]; [done|]. unfold is_dir_name, llstat_path. intros H. f_equal.
  destruct p as [|x p] using rev_ind; [done|].
  rewrite drop_while_end_snoc. rewrite app_comm_cons, last_snoc in H. unfold is_slash. by rewrite H.
Qed.

Lemma is_dir_name_app a b : b ≠ [] → is_dir_name (a ++ b) = is_dir_name b.
Proof.
  unfold is_dir_name. destruct b as [|x b] using rev_ind; [done|]. intros _.
  by rewrite app_assoc, !last_snoc.
Qed.

Lemma suffix_ne (a : cstr) b : b ≠ [] → a ++ b ≠ a.
Proof. intros Hb E. apply (f_equal length) in E. rewrite length_app in E. destruct b; [done|simpl in E; lia]. Qed.

Lemma pacnew_file p : llstat_path (pacnew p) = pacnew p.
Proof. apply llstat_file. unfold pacnew. by rewrite is_dir_name_app. Qed.

(** ** Facts: extraction *)
Section extraction.
Context (sys : os) (env : alpm_env) (h : alpm_handle_t) (root db_path : cstr)
        (e : archive_entry) (newpkg : alpm_pkg_t) (oldpkg : option alpm_pkg_t).

Definition orig_path : cstr := root ++ ent_path e.

(** The file is a configuration file of the old or the new package. *)
Definition is_config : Prop :=
  is_Some (oldpkg ≫= alpm_needbackup (ent_path e)) ∨ is_Some (alpm_needbackup (ent_path e) newpkg).

(** The digest the old package recorded. *)
Definition recorded : option cstr :=
  (oldpkg ≫= alpm_needbackup (ent_path e)) ≫= backup_hash.

(** The data on disk may go: not protected, unchanged since it was installed,
    or equal to the new data as far as digests tell. *)
Definition replaceable (data : cstr) : Prop :=
  ¬ is_config ∨ same_hash recorded (os_md5 sys data) = true ∨
  same_hash (os_md5 sys data) (os_md5 sys (ent_data e)) = true.

Definition no_upgrade : bool :=
  alpm_fnmatch_patterns (posix_fnmatch env) (h_noupgrade h) (ent_path e) =? 0.

Lemma plan_spec fs :
  match plan_extraction env h root e newpkg oldpkg fs with
  | Skip _ => True
  | Extract => lstat fs orig_path = None ∨
      ∃ data, lstat fs orig_path = Some (NFile data) ∧
              (ent_isdir e = false → no_upgrade = false ∧ ¬ is_config)
  | ExtractNoTouch => ent_isdir e = false ∧ no_upgrade = true
  | ExtractBackup hash_orig => ent_isdir e = false ∧ no_upgrade = false ∧ hash_orig = recorded ∧
      ∃ data, lstat fs orig_path = Some (NFile data)
  end.
Proof.
  unfold plan_extraction, orig_path, no_upgrade, recorded, is_config.
  destruct (negb _); [done|]. destruct (_ <=? _)%nat; [done|]. destruct (_ =? 0); [done|].
  destruct (lstat fs (root ++ ent_path e)) as [[|data]|]; [by destruct (ent_isdir e)| |by left].
  destruct (ent_isdir e); [right; by exists data|].
  destruct (alpm_fnmatch_patterns _ (h_noupgrade h) _ =? 0); [done|].
  destruct (oldpkg ≫= alpm_needbackup (ent_path e)) as [ob|]; [split_and!; [done..|by eexists]|].
  destruct (alpm_needbackup (ent_path e) newpkg) as [nb|]; [split_and!; [done..|by eexists]|].
  right. exists data. split; [done|]. intros _. split; [done|]. by intros [[]|[]].
Qed.

(** What the merge does to the original file. *)
Lemma merge_spec fs hash_orig isnew fs' errs :
  is_dir_name orig_path = false → ent_isdir e = false →
  fs !! pacnew orig_path = Some (entry_node e) →
  merge_backup sys orig_path (pacnew orig_path) hash_orig
    (alpm_compute_md5sum sys fs (pacnew orig_path)) isnew fs = (fs', errs) →
  (∀ q, q ≠ orig_path → q ≠ pacnew orig_path → fs' !! q = fs !! q) ∧
  (fs' !! orig_path = fs !! orig_path ∨
   fs' !! orig_path = Some (NFile (ent_data e)) ∧
   ∀ data, fs !! orig_path = Some (NFile data) →
     same_hash hash_orig (os_md5 sys data) = true ∨
     same_hash (os_md5 sys data) (os_md5 sys (ent_data e)) = true).
Proof.
  intros Hnd Hfile Hnew.
  assert (pacnew orig_path ≠ orig_path) as Hne by (by apply suffix_ne).
  assert (entry_node e = NFile (ent_data e)) as En by (unfold entry_node; by rewrite Hfile).
  rewrite En in Hnew. unfold merge_backup, try_rename, rename, unlink, alpm_compute_md5sum.
  rewrite Hnew. set (loc := match fs !! orig_path with Some (NFile d) => os_md5 sys d | _ => None end).
  assert (∀ data, fs !! orig_path = Some (NFile data) → loc = os_md5 sys data) as Hloc
    by (intros data Hd; unfold loc; by rewrite Hd).
  assert (∀ fs'' : fsys, fs'' = <[orig_path := NFile (ent_data e)]> (delete (pacnew orig_path) fs) →
    (∀ q, q ≠ orig_path → q ≠ pacnew orig_path → fs'' !! q = fs !! q) ∧
    fs'' !! orig_path = Some (NFile (ent_data e))) as Hmv.
  { intros fs'' ->. split; [|by rewrite lookup_insert_eq].
    intros q H1 H2. by rewrite lookup_insert_ne, lookup_delete_ne. }
  destruct (same_hash loc (os_md5 sys (ent_data e))) eqn:E1.
  { destruct (_ || _); intros [= <- <-]; [by auto|].
    destruct (Hmv _ eq_refl) as [? ?]. split; [done|]. right. split; [done|].
    intros data Hd. right. by rewrite <-(Hloc data Hd). }
  destruct (same_hash hash_orig (os_md5 sys (ent_data e))) eqn:E2.
  { destruct isnew; [|by intros [= <- <-]; auto].
    destruct (os_denied sys _); intros [= <- <-]; [by auto|].
    split; [|left; by rewrite lookup_delete_ne]. intros q H1 H2. by rewrite lookup_delete_ne. }
  destruct (same_hash hash_orig loc) eqn:E3; [|by intros [= <- <-]; auto].
  destruct (_ || _); intros [= <- <-]; [by auto|].
  destruct (Hmv _ eq_refl) as [? ?]. split; [done|]. right. split; [done|].
  intros data Hd. left. by rewrite <-(Hloc data Hd).
Qed.

(** The state after an entry: only the file and its .pacnew may have changed. *)
Definition extract_ok (fs fs' : fsys) (errs : Z) : Prop :=
  (∀ q, q ≠ llstat_path orig_path → q ≠ pacnew orig_path → fs' !! q = fs !! q) ∧
  (lstat fs orig_path = Some NDir → lstat fs' orig_path = Some NDir) ∧
  (∀ data, lstat fs orig_path = Some (NFile data) → ent_isdir e = false →
     lstat fs' orig_path = Some (NFile data) ∨
     no_upgrade = false ∧ replaceable data ∧
     (lstat fs' orig_path = Some (NFile (ent_data e)) ∨
      errs ≠ 0 ∧ ∃ left, os_torn sys orig_path = Some left ∧ lstat fs' orig_path = NFile <$> left)).

Lemma extract_ok_refl fs errs : extract_ok fs fs errs.
Proof. unfold extract_ok. auto. Qed.

Lemma extract_ok_aside fs fs' errs :
  is_dir_name orig_path = false →
  (∀ q, q ≠ pacnew orig_path → fs' !! q = fs !! q) → extract_ok fs fs' errs.
Proof.
  intros Hnd Hq. assert (lstat fs' orig_path = lstat fs orig_path) as E.
  { unfold lstat. rewrite llstat_file by done. apply Hq. intros E. symmetry in E.
    by apply suffix_ne in E. }
  unfold extract_ok. rewrite E. auto.
Qed.

(** An extraction changes its path only. *)
Lemma perform_extraction_frame filename fs q :
  q ≠ llstat_path filename → (perform_extraction sys e filename fs).1 !! q = fs !! q.
Proof.
  intros Hq. unfold perform_extraction. destruct (os_denied _ _); cbn [fst].
  - destruct (os_torn _ _) as [[]|]; by rewrite ?lookup_insert_ne, ?lookup_delete_ne.
  - by rewrite lookup_insert_ne.
Qed.

(** In the place of a file that is not protected. *)
Lemma extract_ok_here fs :
  lstat fs orig_path = None ∨
  (∃ data, lstat fs orig_path = Some (NFile data) ∧
           (ent_isdir e = false → no_upgrade = false ∧ ¬ is_config)) →
  extract_ok fs (perform_extraction sys e orig_path fs).1 (perform_extraction sys e orig_path fs).2.
Proof.
  intros Hplan. unfold extract_ok. split_and!.
  - intros q Hq _. by apply perform_extraction_frame.
  - intros Hd. destruct Hplan as [?|(? & ? & _)]; congruence.
  - intros data Hd Hf. destruct Hplan as [?|(d & Hd' & Hp)]; [congruence|]. destruct (Hp Hf) as [H1 H2].
    assert (replaceable data) as Hr by (by left). unfold perform_extraction, lstat in *.
    destruct (os_denied _ _); cbn [fst snd].
    + destruct (os_torn sys orig_path) as [[part|]|]; [right..|by left]; (split_and!; [done..|]); right;
        (split; [done|]); eexists; (split; [done|]); by rewrite ?lookup_insert_eq, ?lookup_delete_eq.
    + right. split_and!; [done..|]. left. rewrite lookup_insert_eq. unfold entry_node. by rewrite Hf.
Qed.

Lemma extract_single_file_ok fs :
  Ascii.eqb (hd_chr (ent_path e)) "."%char = false →
  (ent_isdir e = false → is_dir_name orig_path = false) →
  let r := extract_single_file sys env h root db_path e newpkg oldpkg fs in extract_ok fs r.1.1 r.2.
Proof.
  intros Hdot Hnd. unfold extract_single_file. rewrite Hdot. fold orig_path.
  pose proof (plan_spec fs) as Hplan.
  destruct (plan_extraction env h root e newpkg oldpkg fs) as [errs| | |hash_orig].
  - apply extract_ok_refl.
  - pose proof (extract_ok_here fs Hplan) as H. destruct (perform_extraction _ _ _ _) as [fs1 errs].
    cbn [fst snd] in H. destruct (Z.eqb_spec errs 0) as [->|]; by cbn [fst snd].
  - destruct Hplan as [Hf Hup]. destruct (_ <=? _)%nat; [apply extract_ok_refl|].
    pose proof (perform_extraction_frame (pacnew orig_path) fs) as H. rewrite pacnew_file in H.
    destruct (perform_extraction _ _ _ _) as [fs1 errs]. cbn [fst] in H.
    destruct (errs =? 0); cbn [fst snd]; apply extract_ok_aside; auto.
  - destruct Hplan as (Hf & Hup & -> & data & Hdata).
    destruct (_ <=? _)%nat; [apply extract_ok_refl|].
    pose proof (perform_extraction_frame (pacnew orig_path) fs) as H. rewrite pacnew_file in H.
    unfold perform_extraction in *. rewrite pacnew_file in *.
    destruct (os_denied sys _); cbn [fst snd Z.eqb] in *; [apply extract_ok_aside; auto|].
    destruct (merge_backup _ _ _ _ _ _ _) as [fs' errs] eqn:Em.
    destruct (merge_spec _ _ _ _ _ (Hnd Hf) Hf (lookup_insert_eq _ _ _) Em) as [H1 H2]. simpl.
    assert (orig_path ≠ pacnew orig_path) as Hne
      by (intros E; symmetry in E; by apply suffix_ne in E).
    rewrite lookup_insert_ne in H2 by done.
    unfold extract_ok, lstat in *. rewrite llstat_file in * by auto. split_and!.
    + intros q Hq1 Hq2. by rewrite H1, lookup_insert_ne.
    + congruence.
    + intros d Hd _. destruct H2 as [->|[-> H2]]; [by left|right].
      split_and!; [done| |by left]. right. by apply H2.
Qed.

(** Nothing in the way: the entry is installed. *)
Lemma extract_single_file_new fs :
  Ascii.eqb (hd_chr (ent_path e)) "."%char = false →
  in_package (Some newpkg) (ent_path e) = true → (length orig_path < PATH_MAX)%nat →
  (alpm_fnmatch_patterns (posix_fnmatch env) (h_noextract h) (ent_path e) =? 0) = false →
  lstat fs orig_path = None → os_denied sys orig_path = false →
  let '(fs', pkg', errs) := extract_single_file sys env h root db_path e newpkg oldpkg fs in
  fs' = <[llstat_path orig_path := entry_node e]> fs ∧ errs = 0.
Proof.
  intros Hdot Hin Hlen Hne Hno Hden. unfold extract_single_file, plan_extraction.
  rewrite Hdot, Hin, Hne. fold orig_path. rewrite Hno. cbn [negb].
  destruct (Nat.leb_spec PATH_MAX (length orig_path)); [lia|].
  unfold perform_extraction. by rewrite Hden.
Qed.
End extraction.

(** ** Facts: numbers in file names *)
Lemma digit_chr_ok n :
  0 <= n < 10 → isdigit (digit_chr n) = true ∧ digit_val (digit_chr n) = n.
Proof.
  intros Hn. assert (n = 0 ∨ n = 1 ∨ n = 2 ∨ n = 3 ∨ n = 4 ∨ n = 5 ∨ n = 6 ∨ n = 7 ∨ n = 8 ∨ n = 9)
    as Hin by lia.
  by repeat (destruct Hin as [->|Hin]; [done|]); subst.
Qed.

Lemma utoa_digits_ok fuel n :
  (0 < fuel)%nat → 0 <= n < 10 ^ Z.of_nat fuel →
  Forall (λ c, isdigit c = true) (utoa_digits fuel n) ∧ digits_val (utoa_digits fuel n) = n ∧
  utoa_digits fuel n ≠ [] ∧ (length (utoa_digits fuel n) <= fuel)%nat.
Proof.
  revert n. induction fuel as [|fuel IH]; intros n Hf Hn; [lia|]. simpl.
  destruct (Z.ltb_spec n 10) as [Hlt|Hge].
  - destruct (digit_chr_ok n) as [H1 H2]; [lia|]. split_and!; [by repeat constructor| |done|simpl; lia].
    unfold digits_val. simpl. lia.
  - rewrite Nat2Z.inj_succ, Z.pow_succ_r in Hn by lia.
    destruct (decide (fuel = O)) as [->|Hfuel]; [simpl in Hn; lia|].
    assert (0 <= n / 10 < 10 ^ Z.of_nat fuel) as Hdiv
      by (split; [apply Z.div_pos; lia|apply Z.div_lt_upper_bound; lia]).
    destruct (IH (n / 10)) as (I1 & I2 & I3 & I4); [lia|done|].
    destruct (digit_chr_ok (n mod 10)) as [H1 H2]; [by apply Z.mod_pos_bound|].
    split_and!.
    + apply Forall_app. split; [done|by repeat constructor].
    + rewrite digits_val_app, I2. unfold digits_val. simpl. rewrite H2.
      rewrite (Z.div_mod n 10) at 3 by lia. lia.
    + by intros [_ ?]%app_eq_nil.
    + rewrite length_app. simpl. lia.
Qed.

Lemma utoa_ok n :
  0 <= n < 2 ^ 64 + 1 →
  Forall (λ c, isdigit c = true) (utoa n) ∧ digits_val (utoa n) = n ∧
  utoa n ≠ [] ∧ (length (utoa n) <= 20)%nat.
Proof. intros Hn. apply utoa_digits_ok; [lia|]. simpl. lia. Qed.

Lemma strtoul_digits ds :
  Forall (λ c, isdigit c = true) ds → strtoul ds = Z.min ULONG_MAX (digits_val ds).
Proof. intros H. unfold strtoul. by rewrite take_while_all. Qed.

Lemma pacsave_n_inj file j k :
  0 <= j < 2 ^ 64 + 1 → 0 <= k < 2 ^ 64 + 1 → pacsave_n file j = pacsave_n file k → j = k.
Proof.
  intros Hj Hk E. unfold pacsave_n in E. simplify_list_eq.
  destruct (utoa_ok j Hj) as (_ & <- & _). destruct (utoa_ok k Hk) as (_ & <- & _).
  congruence.
Qed.

(** ** Facts: .pacsave files *)

(** A printable ASCII character that stands for itself in an extended regular
    expression, or a dot, which stands for any character, itself included. *)
Definition plain_char (c : ascii) : bool :=
  (33 <=? nat_of_ascii c)%nat && (nat_of_ascii c <=? 126)%nat
  && negb (existsb (Ascii.eqb c) (str "^[$\()|*+?{")).

Definition plain_name (base : cstr) : Prop := forallb plain_char base = true.

(** What POSIX says of regcomp and regexec for the expressions made from such
    names: they are valid, and match the name followed by .pacsave. and digits.
    They may match more. *)
Definition regcomp_posix (sys : os) : Prop :=
  ∀ base, plain_name base →
    ∃ reg, os_regcomp sys (pacsave_regex base) = Some reg ∧
      ∀ ds, ds ≠ [] → Forall (λ c, isdigit c = true) ds → reg (base ++ str ".pacsave." ++ ds) = true.

Section pacsaves.
Context (sys : os) (dir base : cstr).
Local Notation file := (dir ++ str "/" ++ base).

(** The assumptions on the place: a file in a plain directory, with room for the
    suffixes, where renaming works. *)
Record saveable : Prop := {
  sv_dir : dir ≠ [] ∧ is_dir_name dir = false;
  sv_base : base ≠ [] ∧ "/"%char ∉ base;
  sv_room : (length file + 29 < PATH_MAX)%nat;
  sv_allowed : os_denied sys file = false ∧ os_denied sys (pacsave file) = false ∧
               ∀ n, os_denied sys (pacsave_n file n) = false
}.

Context (Hsv : saveable).

Lemma file_split : mbasename file = base ∧ mdirname (Some file) = dir.
Proof.
  destruct Hsv as [[Hd1 Hd2] [Hb1 Hb2] _ _]. unfold mbasename, mdirname.
  assert (split_last "/"%char (dir ++ str "/" ++ base) = Some (dir, base)) as ->
    by (by apply split_last_Some).
  split; [done|]. by destruct dir.
Qed.

Lemma pacsave_1 : pacsave file ++ str ".1" = pacsave_n file 1.
Proof. unfold pacsave, pacsave_n. rewrite <-app_assoc. done. Qed.

Lemma pacsave_room n : 0 <= n < 2 ^ 64 + 1 → (length (pacsave_n file n) < PATH_MAX)%nat.
Proof.
  intros Hn. destruct (utoa_ok n Hn) as (_ & _ & _ & Hl). pose proof (sv_room Hsv) as Hr.
  unfold pacsave_n. rewrite !length_app in *. simpl length in *. lia.
Qed.

Lemma entry_of_file s :
  s ≠ [] → "/"%char ∉ s → entry_of dir (dir ++ str "/" ++ base ++ s) = Some (base ++ s).
Proof.
  intros Hs Hns. destruct Hsv as [[Hd1 Hd2] [Hb1 Hb2] _ _].
  unfold entry_of, dir_prefix. rewrite Hd2.
  assert (is_prefix (dir ++ str "/") (dir ++ str "/" ++ base ++ s) = true) as ->.
  { apply is_prefix_spec. exists (base ++ s). by rewrite <-app_assoc. }
  replace (drop (length (dir ++ str "/")) (dir ++ str "/" ++ base ++ s)) with (base ++ s)
    by (by rewrite (app_assoc dir), drop_app_length).
  assert (existsb is_slash (base ++ s) = false) as ->; [|by destruct base].
  apply not_true_iff_false. rewrite existsb_exists. intros (c & Hc%list_elem_of_In & E).
  unfold is_slash in E. apply Ascii.eqb_eq in E as ->. apply elem_of_app in Hc as [?|?]; done.
Qed.

Lemma digits_no_slash ds : Forall (λ c, isdigit c = true) ds → "/"%char ∉ ds.
Proof. intros H Hin. rewrite Forall_forall in H. by specialize (H _ Hin). Qed.

Lemma log_max_bound reg entries s :
  s ∈ entries → reg s = true → strtoul (drop (length base + 9) s) <= log_max reg base entries.
Proof.
  unfold log_max. intros Hin Hr.
  assert (∀ l m, m <= fold_left (λ m ent, if reg ent
    then Z.max m (strtoul (drop (length base + 9) ent)) else m) l m) as Hmono.
  { intros l. induction l as [|x l IH]; intros m; simpl; [lia|]. etrans; [|apply IH].
    destruct (reg x); lia. }
  generalize 0. induction entries as [|x l IH]; intros m; simpl; [by apply not_elem_of_nil in Hin|].
  apply elem_of_cons in Hin as [->|Hin]; [|by apply IH]. rewrite Hr. etrans; [|apply Hmono]. lia.
Qed.

Lemma log_max_nonneg reg entries : 0 <= log_max reg base entries.
Proof.
  unfold log_max. assert (∀ m, 0 <= m → 0 <= fold_left (λ m ent, if reg ent
    then Z.max m (strtoul (drop (length base + 9) ent)) else m) entries m) as H; [|by apply H].
  induction entries as [|x l IH]; intros m Hm; simpl; [done|]. apply IH. destruct (reg x); lia.
Qed.

(** The loop moves every numbered file up by one; the first number is free
    afterwards. *)
Lemma shift_loop_spec (k : nat) (fs : fsys) :
  Z.of_nat k < ULONG_MAX → fs !! pacsave_n file (Z.of_nat k + 1) = None →
  ∃ fs', shift_loop sys file k fs = (fs', true) ∧
    (∀ j, 1 <= j <= Z.of_nat k → fs' !! pacsave_n file (j + 1) = fs !! pacsave_n file j) ∧
    fs' !! pacsave_n file 1 = None ∧
    (∀ q, (∀ j, 1 <= j <= Z.of_nat k + 1 → q ≠ pacsave_n file j) → fs' !! q = fs !! q).
Proof.
  unfold ULONG_MAX. revert fs. induction k as [|k IH]; intros fs Hk Hfree.
  { exists fs. split_and!; [done|lia|done|done]. }
  cbn [shift_loop]. set (n := Z.of_nat (S k)) in *. assert (n = Z.of_nat k + 1) as En by lia.
  pose proof (pacsave_room n ltac:(lia)). pose proof (pacsave_room (n + 1) ltac:(lia)).
  destruct (Nat.leb_spec PATH_MAX (length (pacsave_n file n))); [lia|].
  destruct (Nat.leb_spec PATH_MAX (length (pacsave_n file (n + 1)))); [lia|]. cbn [orb].
  assert (∀ j, 1 <= j < n + 1 → pacsave_n file j ≠ pacsave_n file (n + 1)) as Hne1
    by (intros j Hj E; apply pacsave_n_inj in E; lia).
  assert (∀ j, 1 <= j < n → pacsave_n file j ≠ pacsave_n file n) as Hne2
    by (intros j Hj E; apply pacsave_n_inj in E; lia).
  set (fs1 := rename_ sys fs (pacsave_n file n) (pacsave_n file (n + 1))).
  assert (fs1 !! pacsave_n file n = None ∧
          fs1 !! pacsave_n file (n + 1) = fs !! pacsave_n file n ∧
          ∀ q, q ≠ pacsave_n file n → q ≠ pacsave_n file (n + 1) → fs1 !! q = fs !! q)
    as (F1 & F2 & F3).
  { unfold fs1, rename_, rename. destruct (sv_allowed Hsv) as (_ & _ & Hden). rewrite !Hden. cbn [orb].
    destruct (fs !! pacsave_n file n) as [nd|] eqn:E; [|split_and!; [done|congruence|done]].
    rewrite lookup_insert_eq, lookup_insert_ne, lookup_delete_eq by (symmetry; apply Hne1; lia).
    split_and!; [done..|]. intros q Q1 Q2. by rewrite lookup_insert_ne, lookup_delete_ne. }
  destruct (IH fs1) as (fs' & -> & L1 & L2 & L3); [lia|by rewrite <-En|].
  exists fs'. split_and!; [done| |done|].
  - intros j Hj. destruct (decide (j = n)) as [->|Hjn].
    + rewrite L3, F2; [done|]. intros j Hj' E. symmetry in E. apply Hne1 in E; [done|lia].
    + rewrite L1, F3 by first [lia|apply Hne2; lia|apply Hne1; lia]. done.
  - intros q Hq. rewrite L3, F3; [done|apply Hq; lia|apply Hq; lia|].
    intros j Hj. apply Hq. lia.
Qed.

Lemma pacsave_n_ne j : pacsave_n file j ≠ pacsave file.
Proof.
  assert (pacsave_n file j = pacsave file ++ str "." ++ utoa j) as ->
    by (unfold pacsave_n, pacsave; by rewrite <-(app_assoc file)).
  by apply suffix_ne.
Qed.

Lemma entry_path path ent : entry_of dir path = Some ent → path = dir ++ str "/" ++ ent.
Proof.
  destruct (sv_dir Hsv) as [_ Hd]. unfold entry_of, dir_prefix. rewrite Hd.
  destruct (is_prefix _ _) eqn:E; [|done]. apply is_prefix_spec in E as [t ->].
  rewrite drop_app_length. destruct t; [done|]. destruct (existsb _ _); [done|].
  intros [= <-]. by rewrite <-app_assoc.
Qed.

(** No number of a name that the expression matches is so large that counting on
    wraps. *)
Definition numbers_small (fs : fsys) : Prop :=
  ∀ reg ent, os_regcomp sys (pacsave_regex base) = Some reg → is_Some (fs !! (dir ++ str "/" ++ ent)) →
    reg ent = true → strtoul (drop (length base + 9) ent) < ULONG_MAX.

Lemma scan_spec (fs : fsys) reg :
  numbers_small fs → os_regcomp sys (pacsave_regex base) = Some reg →
  (∀ ds, ds ≠ [] → Forall (λ c, isdigit c = true) ds → reg (base ++ str ".pacsave." ++ ds) = true) →
  let N := log_max reg base (omap (entry_of dir) (map fst (map_to_list fs))) in
  0 <= N < ULONG_MAX ∧ ∀ j, N < j <= ULONG_MAX → fs !! pacsave_n file j = None.
Proof.
  intros Hsmall Ereg Hreg N. set (entries := omap _ _) in *.
  assert (∀ ds, drop (length base + 9) (base ++ str ".pacsave." ++ ds) = ds) as Hdrop.
  { intros ds. rewrite <-drop_drop, drop_app_length. done. }
  assert (∀ l m, (∀ s, s ∈ l → reg s = true → strtoul (drop (length base + 9) s) < ULONG_MAX) →
    m < ULONG_MAX → fold_left (λ m ent, if reg ent
      then Z.max m (strtoul (drop (length base + 9) ent)) else m) l m < ULONG_MAX) as Hlt.
  { intros l. induction l as [|x l IH]; intros m Hl Hm; simpl; [done|]. apply IH.
    - intros s Hs. by apply Hl, list_elem_of_further.
    - destruct (reg x) eqn:E; [|done]. specialize (Hl x (list_elem_of_here _ _) E). lia. }
  split.
  - split; [apply log_max_nonneg|]. apply Hlt; [|done]. intros s Hs Hr.
    apply list_elem_of_omap in Hs as (path & Hp & He). apply entry_path in He as ->.
    apply list_elem_of_fmap in Hp as ([q n] & Eq & Hq). simpl in Eq. subst q.
    apply elem_of_map_to_list in Hq. apply (Hsmall reg s Ereg); [by eexists|done].
  - intros j Hj. destruct (fs !! pacsave_n file j) as [n|] eqn:E; [exfalso|done].
    unfold ULONG_MAX in Hj. pose proof (log_max_nonneg reg entries). fold N in H.
    destruct (utoa_ok j) as (Hds & Hv & Hne & _); [lia|].
    assert (base ++ str ".pacsave." ++ utoa j ∈ entries) as Hin.
    { apply list_elem_of_omap. exists (pacsave_n file j). split.
      - apply list_elem_of_fmap. exists (pacsave_n file j, n). split; [done|]. by apply elem_of_map_to_list.
      - unfold pacsave_n. rewrite <-!app_assoc. apply entry_of_file; [done|].
        rewrite elem_of_app. intros [Hs|Hs]; [|by apply digits_no_slash in Hs].
        revert Hs. by apply (bool_decide_unpack _). }
    pose proof (log_max_bound reg entries _ Hin (Hreg _ Hne Hds)) as Hb. fold N in Hb. rewrite Hdrop, strtoul_digits, Hv in Hb by done. unfold ULONG_MAX in Hb. lia.
Qed.

Lemma shift_pacsave_spec (fs : fsys) :
  regcomp_posix sys → plain_name base → lstat fs dir = Some NDir → numbers_small fs →
  let fs' := shift_pacsave sys fs file in
  fs' !! pacsave file = None ∧ fs' !! pacsave_n file 1 = fs !! pacsave file ∧
  (∀ j, 1 <= j < ULONG_MAX → fs' !! pacsave_n file (j + 1) = fs !! pacsave_n file j) ∧
  ∀ q, q ≠ pacsave file → (∀ j, 1 <= j <= ULONG_MAX → q ≠ pacsave_n file j) → fs' !! q = fs !! q.
Proof.
  intros Hre Hplain Hdir Hsmall. destruct (Hre base Hplain) as (reg & Ereg & Hreg). destruct file_split as [Eb Ed].
  unfold shift_pacsave. rewrite Eb, Ed, Ereg. unfold readdir. rewrite Hdir.
  destruct (scan_spec fs reg Hsmall Ereg Hreg) as [HN Hfree]. set (N := log_max _ _ _) in *.
  unfold ULONG_MAX in *. rewrite Z.mod_small by lia. replace (N + 1 - 1) with N by lia.
  destruct (shift_loop_spec (Z.to_nat N) fs) as (fs1 & -> & L1 & L2 & L3);
    [unfold ULONG_MAX; lia|rewrite Z2Nat.id by lia; apply Hfree; lia|].
  rewrite Z2Nat.id in L1, L3 by lia. cbn [negb orb]. rewrite pacsave_1.
  pose proof (pacsave_room 1 ltac:(lia)) as Hroom.
  assert (length (pacsave file) < length (pacsave_n file 1))%nat as Hlen
    by (rewrite <-pacsave_1, (length_app (pacsave file)); simpl; lia).
  destruct (Nat.leb_spec PATH_MAX (length (pacsave file))); [lia|].
  destruct (Nat.leb_spec PATH_MAX (length (pacsave_n file 1))); [lia|]. cbn [orb].
  assert (fs1 !! pacsave file = fs !! pacsave file) as Ep
    by (apply L3; intros j _ E; symmetry in E; by apply pacsave_n_ne in E).
  set (fs2 := match fs1 !! pacsave file with
              | Some _ => rename_ sys fs1 (pacsave file) (pacsave_n file 1) | None => fs1 end).
  assert (fs2 !! pacsave file = None ∧ fs2 !! pacsave_n file 1 = fs !! pacsave file ∧
    ∀ q, q ≠ pacsave file → q ≠ pacsave_n file 1 → fs2 !! q = fs1 !! q) as (M1 & M2 & M3).
  { unfold fs2, rename_, rename. destruct (sv_allowed Hsv) as (_ & D1 & D2).
    destruct (fs1 !! pacsave file) as [n|] eqn:E; [|split_and!; [done|congruence|done]].
    rewrite D1, D2. cbn [orb]. rewrite lookup_insert_eq, lookup_insert_ne, lookup_delete_eq
      by (intros ?; by eapply pacsave_n_ne).
    split_and!; [done|congruence|]. intros q Q1 Q2. by rewrite lookup_insert_ne, lookup_delete_ne. }
  split_and!; [done|done| |].
  - intros j Hj. rewrite M3; [|by apply pacsave_n_ne|intros E; apply pacsave_n_inj in E; lia].
    destruct (decide (j <= N)); [by apply L1; lia|].
    rewrite (Hfree j) by lia. rewrite L3; [apply Hfree; lia|].
    intros i Hi E. apply pacsave_n_inj in E; lia.
  - intros q Q1 Q2. rewrite M3; [|done|apply Q2; lia]. apply L3. intros j Hj. apply Q2. lia.
Qed.
End pacsaves.

(** ** Facts: what removal touches *)

(** The names a saved file and its predecessors may get. *)
Definition is_pacsave (file q : cstr) : Prop := q = pacsave file ∨ ∃ j, q = pacsave_n file j.

Lemma rename__frame (sys : os) (fs : fsys) a b q :
  rename_ sys fs a b !! q ≠ fs !! q → q = a ∨ q = b.
Proof.
  intros H. destruct (decide (q = a)) as [?|Ha]; [by left|].
  destruct (decide (q = b)) as [?|Hb]; [by right|]. exfalso. apply H.
  unfold rename_, rename. destruct (fs !! a); [|done]. destruct (_ || _); [done|].
  by rewrite lookup_insert_ne, lookup_delete_ne.
Qed.

(** A change over two steps happens in one of them. *)
Lemma change_split (fs0 fs1 fs2 : fsys) q :
  fs2 !! q ≠ fs0 !! q → fs2 !! q ≠ fs1 !! q ∨ fs1 !! q ≠ fs0 !! q.
Proof. intros H. destruct (decide (fs2 !! q = fs1 !! q)) as [E|?]; [right; by rewrite <-E|by left]. Qed.

Lemma shift_loop_frame (sys : os) (file : cstr) (k : nat) (fs : fsys) q :
  (shift_loop sys file k fs).1 !! q ≠ fs !! q → is_pacsave file q.
Proof.
  revert fs. induction k as [|k IH]; intros fs; cbn [shift_loop]; [done|].
  destruct (_ || _); [done|]. set (fs1 := rename_ _ _ _ _). intros [H|H]%(change_split _ fs1).
  - by apply IH in H.
  - unfold fs1 in H. apply rename__frame in H as [->| ->]; right; eauto.
Qed.

Lemma shift_pacsave_frame (sys : os) (fs : fsys) file q :
  shift_pacsave sys fs file !! q ≠ fs !! q → is_pacsave file q.
Proof.
  unfold shift_pacsave. destruct (os_regcomp _ _) as [reg|]; [|done].
  destruct (readdir _ _) as [ents|]; [|done].
  pose proof (shift_loop_frame sys file
    (Z.to_nat ((log_max reg (mbasename file) ents + 1) mod 2 ^ 64 - 1)) fs q) as Hf.
  destruct (shift_loop _ _ _ _) as [fs1 ok]. simpl in Hf. destruct (_ || _); [done|].
  destruct (fs1 !! pacsave file); [|done]. intros [H|H]%(change_split _ fs1); [|by apply Hf].
  apply rename__frame in H as [->| ->]; [by left|right].
  exists 1. unfold pacsave, pacsave_n. by rewrite <-app_assoc.
Qed.

(** The paths the removal of a file may change: its own, as a file or as a
    directory, and the saved copies of a configuration file. *)
Definition may_touch (root : cstr) (oldpkg : alpm_pkg_t) (nosave : bool) (f : alpm_file_t)
    (q : cstr) : Prop :=
  let file := target_path root (file_name f) in
  q = file ∨ q = llstat_path (file ++ str "/") ∨
  is_Some (alpm_needbackup (file_name f) oldpkg) ∧ nosave = false ∧ is_pacsave file q.

(** A directory goes only when it is empty, no mount point, not part of the new
    package and of no other package. *)
Definition dir_unused (h : alpm_handle_t) (sys : os) (oldpkg : alpm_pkg_t) (newpkg : option alpm_pkg_t)
    (root : cstr) (f : alpm_file_t) (fs : fsys) : Prop :=
  let dir := target_path root (file_name f) ++ str "/" in
  readdir fs dir = Some [] ∧ in_package newpkg (file_name f) = false ∧
  os_mountpoint sys dir = false ∧ owned_by_other h oldpkg (file_name f) = false.

Lemma unlink_frame (sys : os) (fs : fsys) file q :
  (match unlink sys fs file with Some fs' => (fs', 0) | None => (fs, -1) end).1 !! q ≠ fs !! q →
  q = file.
Proof.
  unfold unlink. destruct (fs !! file) as [[|]|]; try done. destruct (os_denied _ _); [done|]. simpl.
  destruct (decide (q = file)) as [?|Hq]; [done|]. by rewrite lookup_delete_ne.
Qed.

Lemma unlink_regular_frame (sys : os) (oldpkg : alpm_pkg_t) (name file : cstr) (nosave : bool) (fs fs' : fsys) rc q :
  unlink_regular sys oldpkg name file nosave fs = Some (fs', rc) → fs' !! q ≠ fs !! q →
  q = file ∨ is_Some (alpm_needbackup name oldpkg) ∧ nosave = false ∧ is_pacsave file q.
Proof.
  intros E Hq. pose proof (unlink_frame sys fs file q) as Hun. unfold unlink_regular in E.
  assert (Some (match unlink sys fs file with Some f' => (f', 0) | None => (fs, -1) end)
          = Some (fs', rc) → q = file) as Hrm
    by (intros E'; injection E' as E'; rewrite E' in Hun; by apply Hun).
  destruct (alpm_needbackup name oldpkg) as [b|]; [|left; by apply Hrm].
  destruct nosave; [left; by apply Hrm|].
  destruct (alpm_compute_md5sum sys fs file); [|left; by apply Hrm].
  destruct (backup_hash b); [|done]. destruct (negb _); [|left; by apply Hrm].
  destruct (rename sys _ file (pacsave file)) as [fs2|] eqn:Er; injection E as <- <-.
  2:{ right. split_and!; [by eexists|done|]. by apply (shift_pacsave_frame sys fs). }
  apply (change_split _ (shift_pacsave sys fs file)) in Hq as [H|H].
  - assert (fs2 = rename_ sys (shift_pacsave sys fs file) file (pacsave file)) as ->
      by (unfold rename_; by rewrite Er).
    apply rename__frame in H as [?| ->]; [by left|right]. split_and!; [by eexists|done|by left].
  - right. split_and!; [by eexists|done|]. by apply (shift_pacsave_frame sys fs).
Qed.

Lemma unlink_dir_frame (sys : os) (h : alpm_handle_t) (root : cstr) (oldpkg : alpm_pkg_t) (newpkg : option alpm_pkg_t) (f : alpm_file_t) (file : cstr) (fs : fsys) fs' rc :
  file = target_path root (file_name f) →
  unlink_dir sys h root oldpkg newpkg (file_name f) file fs = (fs', rc) →
  fs' = fs ∨ dir_unused h sys oldpkg newpkg root f fs ∧
             fs' = delete (llstat_path (file ++ str "/")) fs.
Proof.
  intros -> E. unfold unlink_dir in E. destruct (negb _); [injection E; auto|].
  destruct ((0 <? _) || _) eqn:Ef; [injection E; auto|].
  destruct (in_package _ _) eqn:Ei; [injection E; auto|].
  destruct (os_mountpoint _ _) eqn:Em; [injection E; auto|].
  destruct (owned_by_other _ _ _) eqn:Eo; [injection E; auto|].
  unfold rmdir in E. destruct (lstat fs _) as [[|]|]; try (injection E; by auto).
  destruct (match readdir fs _ with Some [] => _ | _ => _ end) as [fs1|] eqn:Er;
    injection E as <- _; [|by auto].
  assert (fs1 = delete (llstat_path (target_path root (file_name f) ++ str "/")) fs) as ->.
  { destruct (readdir fs _) as [[|]|]; [|done..]. destruct (os_denied _ _); [done|]. by injection Er. }
  right. split; [|done]. split_and!; [|done..]. unfold files_in_directory in Ef.
  destruct (readdir fs _) as [[|]|]; [done|by cbn in Ef..].
Qed.

Lemma unlink_file_frame (sys : os) (h : alpm_handle_t) (root : cstr) (oldpkg : alpm_pkg_t) (newpkg : option alpm_pkg_t) (f : alpm_file_t) (nosave : bool) (fs fs' : fsys) rc q :
  unlink_file sys h root oldpkg newpkg f nosave fs = Some (fs', rc) → fs' !! q ≠ fs !! q →
  may_touch root oldpkg nosave f q.
Proof.
  unfold unlink_file, may_touch. destruct (_ || _); [by intros [= <- <-]|].
  set (file := target_path root (file_name f)).
  destruct (lstat fs file) as [[|data]|]; [| |by intros [= <- <-]].
  - intros [= E] Hq. destruct (unlink_dir_frame _ _ _ _ _ _ _ _ _ _ eq_refl E) as [->|[_ ->]]; [done|].
    destruct (decide (q = llstat_path (file ++ str "/"))) as [?|Hne]; [by auto|].
    by rewrite lookup_delete_ne in Hq.
  - intros E Hq. destruct (unlink_regular_frame _ _ _ _ _ _ _ _ _ E Hq); auto.
Qed.

(** ** Properties *)

(** C7. Extraction never destroys changes of the user. Whatever calls fail, and
    whatever libarchive leaves when it fails, an archive entry changes no path but
    its own and its .pacnew; a directory stays a directory; and a file that exists
    keeps its data, or holds the data of the entry, or, when an error is counted,
    what libarchive left of it; in the last two cases it is not listed in
    NoUpgrade and was not a configuration file, or had not been changed since it
    was installed (its digest is the recorded one), or had the same digest as the
    new data. *)
Theorem extraction_safe sys env h root db_path e newpkg oldpkg fs :
  Ascii.eqb (hd_chr (ent_path e)) "."%char = false →
  (ent_isdir e = false → is_dir_name (orig_path root e) = false) →
  let r := extract_single_file sys env h root db_path e newpkg oldpkg fs in
  let fs' := r.1.1 in
  let file := orig_path root e in
  (∀ q, q ≠ llstat_path file → q ≠ pacnew file → fs' !! q = fs !! q) ∧
  (lstat fs file = Some NDir → lstat fs' file = Some NDir) ∧
  (∀ data, lstat fs file = Some (NFile data) → ent_isdir e = false →
     lstat fs' file = Some (NFile data) ∨
     no_upgrade env h e = false ∧ replaceable sys e newpkg oldpkg data ∧
     (lstat fs' file = Some (NFile (ent_data e)) ∨
      r.2 ≠ 0 ∧ ∃ left, os_torn sys file = Some left ∧ lstat fs' file = NFile <$> left)).
Proof. intros Hdot Hnd. by apply extract_single_file_ok. Qed.

(** The files after a regular entry, as the manual describes it: protected files
    get a .pacnew beside them, unchanged configuration files and other files are
    replaced, and an update that brings nothing new leaves the user's file. *)
Definition merged (sys : os) (env : alpm_env) (h : alpm_handle_t) (root : cstr)
    (e : archive_entry) (newpkg : alpm_pkg_t) (oldpkg : option alpm_pkg_t) (data : cstr)
    (fs : fsys) : fsys :=
  let file := orig_path root e in
  let new := NFile (ent_data e) in
  let mine := os_md5 sys data in
  let theirs := os_md5 sys (ent_data e) in
  let base := recorded e oldpkg in
  let config := is_some (oldpkg ≫= alpm_needbackup (ent_path e))
                || is_some (alpm_needbackup (ent_path e) newpkg) in
  if no_upgrade env h e then <[pacnew file := new]> fs
  else if negb config then <[file := new]> fs
  else if same_hash mine theirs then <[file := new]> (delete (pacnew file) fs)
  else if same_hash base theirs then
    (if is_some (fs !! pacnew file) then <[pacnew file := new]> fs else fs)
  else if same_hash base mine then <[file := new]> (delete (pacnew file) fs)
  else <[pacnew file := new]> fs.

(** What becomes of an existing file, on every branch: with no failing
    call, extracting a regular entry over a regular file gives the three-way
    merge of the user's, the packaged and the originally installed data. *)
Theorem extraction_merges sys env h root db_path e newpkg oldpkg data fs :
  let file := orig_path root e in
  Ascii.eqb (hd_chr (ent_path e)) "."%char = false → ent_isdir e = false →
  is_dir_name file = false → in_package (Some newpkg) (ent_path e) = true →
  (length (pacnew file) < PATH_MAX)%nat →
  (alpm_fnmatch_patterns (posix_fnmatch env) (h_noextract h) (ent_path e) =? 0) = false →
  os_denied sys file = false → os_denied sys (pacnew file) = false →
  fs !! file = Some (NFile data) →
  let '(fs', _, errs) := extract_single_file sys env h root db_path e newpkg oldpkg fs in
  fs' = merged sys env h root e newpkg oldpkg data fs ∧ errs = 0.
Proof.
  intros file Hdot Hf Hnd Hin Hlen Hne Hd1 Hd2 Hfs. unfold extract_single_file, plan_extraction, merged.
  rewrite Hdot, Hin, Hne, Hf. fold (orig_path root e). fold file. unfold lstat.
  rewrite pacnew_file, (llstat_file file Hnd), Hfs. cbn [negb]. fold (no_upgrade env h e).
  assert (length file < length (pacnew file))%nat as Hl by (unfold pacnew; rewrite length_app; simpl; lia).
  destruct (Nat.leb_spec PATH_MAX (length file)); [lia|].
  destruct (Nat.leb_spec PATH_MAX (length (pacnew file))); [lia|].
  assert (file ≠ pacnew file) as Hp by (intros E; symmetry in E; by apply suffix_ne in E).
  assert (entry_node e = NFile (ent_data e)) as En by (unfold entry_node; by rewrite Hf).
  assert (∀ hash_orig, hash_orig = recorded e oldpkg →
    merge_backup sys file (pacnew file) hash_orig
      (alpm_compute_md5sum sys (<[pacnew file := NFile (ent_data e)]> fs) (pacnew file))
      (negb (is_some (fs !! pacnew file))) (<[pacnew file := NFile (ent_data e)]> fs) =
    (if same_hash (os_md5 sys data) (os_md5 sys (ent_data e))
     then <[file := NFile (ent_data e)]> (delete (pacnew file) fs)
     else if same_hash (recorded e oldpkg) (os_md5 sys (ent_data e))
          then if is_some (fs !! pacnew file) then <[pacnew file := NFile (ent_data e)]> fs else fs
          else if same_hash (recorded e oldpkg) (os_md5 sys data)
               then <[file := NFile (ent_data e)]> (delete (pacnew file) fs)
               else <[pacnew file := NFile (ent_data e)]> fs, 0)) as Hmerge.
  { intros ? ->. unfold merge_backup, alpm_compute_md5sum, try_rename, rename, unlink.
    rewrite lookup_insert_eq, lookup_insert_ne, Hfs, Hd1, Hd2 by done. simpl.
    rewrite delete_insert_eq. destruct (same_hash _ _); [done|]. destruct (same_hash _ _).
    - destruct (fs !! pacnew file) eqn:E; simpl; [done|]. by rewrite delete_id.
    - by destruct (same_hash _ _). }
  unfold perform_extraction. rewrite pacnew_file, (llstat_file file Hnd), Hd1, Hd2, En. cbn [Z.eqb].
  destruct (no_upgrade env h e); [done|].
  destruct (oldpkg ≫= alpm_needbackup (ent_path e)) as [ob|] eqn:Eo.
  - rewrite Hmerge by (unfold recorded; by rewrite Eo). done.
  - destruct (alpm_needbackup (ent_path e) newpkg) as [nb|]; [|done].
    cbn [is_some orb negb]. rewrite Hmerge by (unfold recorded; by rewrite Eo). done.
Qed.

(** C8. Removing a package keeps a changed configuration file, when its name has
    no character that is special in regular expressions other than the dot (for
    other names see [pacsave_overwritten]) and no number in use is near the
    largest. When the data of such a file differs from what was installed and
    NOSAVE is not set, the file moves to .pacsave; an earlier .pacsave moves to
    .pacsave.1 and every .pacsave.j to .pacsave.j+1, so that nothing is
    overwritten; and no other path changes. Of regcomp only what POSIX says of
    such names is used. *)
Theorem removal_saves_config (sys : os) (h : alpm_handle_t) (root : cstr)
    (oldpkg : alpm_pkg_t) (newpkg : option alpm_pkg_t)
    (f : alpm_file_t) (b : alpm_backup_t) (data sum hash dir base : cstr) (fs : fsys) :
  let file := dir ++ str "/" ++ base in
  saveable sys dir base → regcomp_posix sys → plain_name base → lstat fs dir = Some NDir →
  numbers_small sys dir base fs → root ++ file_name f = file →
  fs !! file = Some (NFile data) → alpm_needbackup (file_name f) oldpkg = Some b →
  backup_hash b = Some hash → os_md5 sys data = Some sum → streq sum hash = false →
  ∃ fs', unlink_file sys h root oldpkg newpkg f false fs = Some (fs', 0) ∧
    fs' !! file = None ∧ fs' !! pacsave file = Some (NFile data) ∧
    fs' !! pacsave_n file 1 = fs !! pacsave file ∧
    (∀ j, 1 <= j < ULONG_MAX → fs' !! pacsave_n file (j + 1) = fs !! pacsave_n file j) ∧
    (∀ q, q ≠ file → ¬ is_pacsave file q → fs' !! q = fs !! q).
Proof.
  intros file Hsv Hre Hplain Hdir Hnum Epath Hfs Hb Hh Hm Hne.
  assert (is_dir_name file = false) as Hnd.
  { destruct (sv_base _ _ _ Hsv) as [B1 B2]. unfold file. rewrite app_assoc, is_dir_name_app by done.
    unfold is_dir_name. destruct base as [|c base'] using rev_ind; [done|]. rewrite last_snoc.
    destruct (Ascii.eqb_spec c "/"%char) as [->|?]; [|done]. exfalso. apply B2. apply elem_of_app.
    right. apply list_elem_of_here. }
  assert (target_path root (file_name f) = file) as Et
    by (unfold target_path; by rewrite Epath, Hnd).
  destruct (shift_pacsave_spec sys dir base Hsv fs Hre Hplain Hdir Hnum) as (P1 & P2 & P3 & P4).
  fold file in P1, P2, P3, P4. set (fs1 := shift_pacsave sys fs file) in *.
  assert (∀ j, pacsave_n file j ≠ file) as Hn1 by (intros j; by apply suffix_ne).
  assert (pacsave file ≠ file) as Hn2 by (by apply suffix_ne).
  assert (fs1 !! file = Some (NFile data)) as Hf1 by (rewrite P4; [done|done|intros j _ E; by apply (Hn1 j)]).
  destruct (sv_allowed _ _ _ Hsv) as (D1 & D2 & _). fold file in D1, D2.
  pose proof (sv_room _ _ _ Hsv) as Hroom. fold file in Hroom.
  exists (<[pacsave file := NFile data]> (delete file fs1)). split_and!.
  - unfold unlink_file. rewrite Epath, Et. unfold lstat. rewrite llstat_file, Hfs by done.
    destruct (Nat.eqb_spec (length file) 0) as [E|_].
    { apply length_zero_iff_nil in E. unfold file in E. by apply app_eq_nil in E as [_ ?]. }
    destruct (Nat.leb_spec PATH_MAX (length file)); [lia|]. cbn [orb].
    unfold unlink_regular, alpm_compute_md5sum, rename. rewrite Hb, Hfs, Hm, Hh, Hne. cbn [negb].
    fold fs1. by rewrite Hf1, D1, D2.
  - by rewrite lookup_insert_ne, lookup_delete_eq.
  - by rewrite lookup_insert_eq.
  - rewrite lookup_insert_ne, lookup_delete_ne; [done|done|]. intros E. symmetry in E.
    by apply pacsave_n_ne in E.
  - intros j Hj. rewrite lookup_insert_ne, lookup_delete_ne; [by apply P3|by intros E; apply (Hn1 (j + 1))|].
    intros E. symmetry in E. by apply pacsave_n_ne in E.
  - intros q Q1 Q2. rewrite lookup_insert_ne, lookup_delete_ne; [|done|intros <-; apply Q2; by left].
    apply P4; [intros ->; apply Q2; by left|]. intros j _ ->. apply Q2. right. by eexists.
Qed.

(** Removing the files of a package touches nothing else. A path that
    changes belongs to a file of the package that is not skipped (NoUpgrade,
    the skip list, a configuration file of the new package), or is a .pacsave
    name of such a configuration file. *)
Theorem removal_frame (sys : os) (env : alpm_env) (h : alpm_handle_t) (root : cstr)
    (oldpkg : alpm_pkg_t) (newpkg : option alpm_pkg_t) (fs fs' : fsys) h' err q :
  remove_package_files sys env h root oldpkg newpkg fs = Some (h', fs', err) →
  fs' !! q ≠ fs !! q →
  ∃ f, f ∈ pkg_files oldpkg ∧ should_skip_file env h newpkg (file_name f) = false ∧
       may_touch root oldpkg (has_flag (trans_flags h) ALPM_TRANS_FLAG_NOSAVE) f q.
Proof.
  unfold remove_package_files. destruct (negb _); [by intros [= <- <- <-]|].
  set (nosave := has_flag _ _). intros Hr Hq.
  destruct (unlink_files _ _ _ _ _ _ _ _ _ _) as [[fs1 err1]|] eqn:Eu; [|done].
  injection Hr as <- <- <-.
  assert (∀ files fs err, unlink_files sys env h root oldpkg newpkg nosave files fs err = Some (fs1, err1) →
    fs1 !! q ≠ fs !! q →
    ∃ f, f ∈ files ∧ should_skip_file env h newpkg (file_name f) = false ∧
         may_touch root oldpkg nosave f q) as Hloop.
  { intros files. induction files as [|f files IH]; intros fs0 err0; simpl; [by intros [= -> ->]|].
    destruct (should_skip_file env h newpkg (file_name f)) eqn:Es.
    { intros H1 H2. destruct (IH _ _ H1 H2) as (g & Hg & ?). exists g.
      split; [by apply list_elem_of_further|done]. }
    destruct (unlink_file _ _ _ _ _ _ _ _) as [[fs2 rc]|] eqn:Ef; [|done].
    intros H1 [Hd|Hd]%(change_split _ fs2).
    - destruct (IH _ _ H1 Hd) as (g & Hg & ?). exists g. split; [by apply list_elem_of_further|done].
    - exists f. split_and!; [apply list_elem_of_here|done|].
      by apply (unlink_file_frame _ _ _ _ _ _ _ _ _ _ _ Ef). }
  destruct (Hloop _ _ _ Eu Hq) as (f & Hf & ?). exists f. split; [by rewrite elem_of_reverse in Hf|done].
Qed.

(** The base name goes unquoted into the regular expression. When the
    expression therefore matches none of the saved files (a name with
    characters like +), the numbers are not counted and the previous .pacsave
    overwrites .pacsave.1, whatever it holds. *)
Theorem pacsave_overwritten (sys : os) (dir base : cstr) (reg : cstr → bool) (n : node) (fs : fsys) :
  let file := dir ++ str "/" ++ base in
  saveable sys dir base → os_regcomp sys (pacsave_regex base) = Some reg →
  (∀ s, reg s = false) → lstat fs dir = Some NDir → fs !! pacsave file = Some n →
  shift_pacsave sys fs file = <[pacsave_n file 1 := n]> (delete (pacsave file) fs).
Proof.
  intros file Hsv Hre Hno Hdir Hfs. destruct (file_split sys dir base Hsv) as [Eb Ed].
  fold file in Eb, Ed. unfold shift_pacsave. rewrite Eb, Ed, Hre. unfold readdir. rewrite Hdir.
  assert (∀ l, log_max reg base l = 0) as ->.
  { intros l. unfold log_max. induction l as [|s l IH]; simpl; [done|]. by rewrite Hno. }
  cbn [shift_loop negb orb Z.to_nat]. rewrite (Z.mod_small (0 + 1)) by lia. cbn [shift_loop].
  change (Z.to_nat (0 + 1 - 1)) with O. cbn [shift_loop negb orb].
  pose proof (pacsave_1 dir base) as E1. fold file in E1. rewrite E1.
  pose proof (pacsave_room sys dir base Hsv 1 ltac:(lia)) as Hroom. fold file in Hroom.
  assert (length (pacsave file) < length (pacsave_n file 1))%nat as Hlen
    by (rewrite <-E1, (length_app (pacsave file)); simpl; lia).
  destruct (Nat.leb_spec PATH_MAX (length (pacsave file))); [lia|].
  destruct (Nat.leb_spec PATH_MAX (length (pacsave_n file 1))); [lia|]. cbn [orb].
  destruct (sv_allowed _ _ _ Hsv) as (_ & D1 & D2). fold file in D1, D2.
  rewrite Hfs. unfold rename_, rename. by rewrite Hfs, D1, D2.
Qed.

(** *** Examples *)
(** Matching the expressions of plain names: a dot takes any character. *)
Fixpoint eat (pat s : cstr) : option cstr :=
  match pat, s with
  | [], _ => Some s
  | p :: pat, c :: s => if Ascii.eqb p "." || Ascii.eqb p c then eat pat s else None
  | _ :: _, [] => None
  end.

Definition ex_reg (base s : cstr) : bool :=
  match eat base s with
  | Some rest =>
      let ds := drop 9 rest in
      is_prefix (str ".pacsave.") rest && negb (bool_decide (ds = [])) && forallb isdigit ds
  | None => false
  end.

(** For other expressions, one that matches nothing: so it is for g++.conf, whose
    expression asks for a name without +. *)
Definition ex_regcomp (re : cstr) : option (cstr → bool) :=
  let base := take (length re - 27) (drop 1 re) in
  if streq re (pacsave_regex base) && forallb plain_char base then Some (ex_reg base) else Some (λ _, false).

Definition ex_os : os := mk_os Some (λ _, false) (λ _, None) (λ _, false) (λ _, false) ex_regcomp.

Definition ex_fs (base : cstr) : fsys :=
  <[str "/etc" := NDir]>
  (<[str "/etc/" ++ base := NFile (str "mine")]>
  (<[str "/etc/" ++ base ++ str ".pacsave" := NFile (str "older")]> ∅)).

Definition ex_conf_file : alpm_file_t := mk_file (str "etc/a.conf") 4 0.
Definition ex_conf_pkg (hash : string) : alpm_pkg_t :=
  mk_pkg 1 (alpm_hash_sdbm (str "a")) None None (str "a") (str "1-1") None None None None None None
    0 0 0 0 0 [] [] [] [mk_backup (str "etc/a.conf") (Some (str hash))] [] [] [] [] [] [] [] None
    [ex_conf_file] (ALPM_PKG_FROM_LOCALDB (str "local")) ALPM_PKG_REASON_EXPLICIT 0 [] 0 0.

Lemma eat_app base s : eat base (base ++ s) = Some s.
Proof. induction base as [|c base IH]; [by destruct s|]. cbn. by rewrite Ascii.eqb_refl, orb_true_r. Qed.

Lemma ex_regex : regcomp_posix ex_os.
Proof.
  intros base Hb. exists (ex_reg base). split.
  - cbn [ex_os os_regcomp]. unfold ex_regcomp.
    assert (take (length (pacsave_regex base) - 27) (drop 1 (pacsave_regex base)) = base) as ->.
    { unfold pacsave_regex. rewrite !length_app.
      change (drop 1 _) with (base ++ str "\.pacsave\.([[:digit:]]+)$").
      replace (_ - 27)%nat with (length base) by (cbn; lia). apply take_app_length. }
    by rewrite streq_refl, Hb.
  - intros ds Hne Hd. unfold ex_reg. rewrite eat_app. change (drop 9 _) with ds.
    rewrite !andb_true_iff. split_and!.
    + apply is_prefix_spec. by exists ds.
    + by rewrite bool_decide_false.
    + apply forallb_forall. rewrite Forall_forall in Hd. intros c Hc. by apply Hd, list_elem_of_In.
Qed.

Lemma ex_saveable base :
  base ≠ [] → "/"%char ∉ base → (length base < 100)%nat → saveable ex_os (str "/etc") base.
Proof.
  intros H1 H2 H3. split; [done|done| |done]. rewrite !length_app. unfold PATH_MAX. simpl length. lia.
Qed.

Lemma ex_numbers : numbers_small ex_os (str "/etc") (str "a.conf") (ex_fs (str "a.conf")).
Proof.
  intros reg ent [= <-] [n Hn] Hr. exfalso. unfold ex_fs in Hn.
  apply lookup_insert_Some in Hn as [[E _]|[_ Hn]]; [discriminate E|].
  apply lookup_insert_Some in Hn as [[E _]|[_ Hn]]; [injection E as <-; vm_compute in Hr; done|].
  apply lookup_insert_Some in Hn as [[E _]|[_ Hn]]; [injection E as <-; vm_compute in Hr; done|].
  by rewrite lookup_empty in Hn.
Qed.

Lemma removal_saves_config_witness :
  ∃ fs', unlink_file ex_os empty_handle (str "/") (ex_conf_pkg "orig") None ex_conf_file false
           (ex_fs (str "a.conf")) = Some (fs', 0) ∧
    fs' !! str "/etc/a.conf.pacsave" = Some (NFile (str "mine")) ∧
    fs' !! str "/etc/a.conf.pacsave.1" = Some (NFile (str "older")).
Proof.
  destruct (removal_saves_config ex_os empty_handle (str "/") (ex_conf_pkg "orig") None ex_conf_file
    (mk_backup (str "etc/a.conf") (Some (str "orig"))) (str "mine") (str "mine") (str "orig")
    (str "/etc") (str "a.conf") (ex_fs (str "a.conf"))) as (fs' & H1 & _ & H2 & H3 & _).
  - apply ex_saveable; [discriminate|cbn; set_solver|cbn; lia].
  - apply ex_regex.
  - reflexivity.
  - reflexivity.
  - apply ex_numbers.
  - reflexivity.
  - reflexivity.
  - reflexivity.
  - reflexivity.
  - reflexivity.
  - reflexivity.
  - exists fs'. split; [exact H1|]. split; [exact H2|exact H3].
Defined.

Lemma removal_runs :
  is_some (remove_package_files ex_os no_callback empty_handle (str "/") (ex_conf_pkg "orig") None
             (ex_fs (str "a.conf"))) = true.
Proof. vm_compute. reflexivity. Qed.

Lemma removal_frame_witness :
  ∃ h' fs' err, remove_package_files ex_os no_callback empty_handle (str "/")
      (ex_conf_pkg "orig") None (ex_fs (str "a.conf")) = Some (h', fs', err) ∧
    fs' !! str "/etc" = ex_fs (str "a.conf") !! str "/etc".
Proof.
  pose proof removal_runs as R.
  destruct (remove_package_files ex_os no_callback empty_handle (str "/") (ex_conf_pkg "orig") None
    (ex_fs (str "a.conf"))) as [[[h' fs'] err]|] eqn:E; [|discriminate R].
  exists h', fs', err. split; [reflexivity|].
  destruct (decide (fs' !! str "/etc" = ex_fs (str "a.conf") !! str "/etc")) as [H|H]; [exact H|].
  destruct (removal_frame ex_os no_callback empty_handle (str "/") (ex_conf_pkg "orig") None
    (ex_fs (str "a.conf")) fs' h' err (str "/etc") E H) as (f & Hf & _ & Ht).
  apply list_elem_of_singleton in Hf. subst f.
  destruct Ht as [Ht|[Ht|(_ & _ & [Ht|[j Ht]])]]; discriminate Ht.
Defined.

Lemma pacsave_overwritten_witness :
  let file := str "/etc" ++ str "/" ++ str "g++.conf" in
  shift_pacsave ex_os (ex_fs (str "g++.conf")) file !! pacsave_n file 1 = Some (NFile (str "older")).
Proof.
  intros file.
  assert (shift_pacsave ex_os (ex_fs (str "g++.conf")) file =
          <[pacsave_n file 1 := NFile (str "older")]> (delete (pacsave file) (ex_fs (str "g++.conf"))))
    as ->; [|apply lookup_insert_eq].
  apply (pacsave_overwritten ex_os (str "/etc") (str "g++.conf") (λ _, false)).
  - apply ex_saveable; [discriminate|cbn; set_solver|cbn; lia].
  - reflexivity.
  - reflexivity.
  - reflexivity.
  - reflexivity.
Defined.

Definition ex_entry : archive_entry := mk_entry (str "etc/a.conf") false (str "theirs").

(** The user changed the file: it stays, and the new one comes beside it. *)
Lemma extraction_merges_witness :
  let '(fs', _, errs) :=
    extract_single_file ex_os no_callback empty_handle (str "/") (str "/db/") ex_entry
      (ex_conf_pkg "new") (Some (ex_conf_pkg "orig")) (ex_fs (str "a.conf")) in
  fs' !! str "/etc/a.conf" = Some (NFile (str "mine")) ∧
  fs' !! str "/etc/a.conf.pacnew" = Some (NFile (str "theirs")) ∧ errs = 0.
Proof.
  pose proof (extraction_merges ex_os no_callback empty_handle (str "/") (str "/db/") ex_entry
    (ex_conf_pkg "new") (Some (ex_conf_pkg "orig")) (str "mine") (ex_fs (str "a.conf"))) as H.
  destruct (extract_single_file ex_os no_callback empty_handle (str "/") (str "/db/") ex_entry
      (ex_conf_pkg "new") (Some (ex_conf_pkg "orig")) (ex_fs (str "a.conf"))) as [[fs' pkg'] errs].
  destruct H as [-> ->]; [reflexivity|reflexivity|reflexivity|reflexivity|unfold PATH_MAX; cbn; lia|
    reflexivity|reflexivity|reflexivity|reflexivity|].
  split; [vm_compute; reflexivity|]. split; [vm_compute; reflexivity|reflexivity].
Defined.

Lemma extraction_safe_witness :
  let fs' := (extract_single_file ex_os no_callback empty_handle (str "/") (str "/db/") ex_entry
    (ex_conf_pkg "new") (Some (ex_conf_pkg "orig")) (ex_fs (str "a.conf"))).1.1 in
  fs' !! str "/etc/a.conf.pacsave" = Some (NFile (str "older")).
Proof.
  cbv zeta.
  destruct (extraction_safe ex_os no_callback empty_handle (str "/") (str "/db/") ex_entry
    (ex_conf_pkg "new") (Some (ex_conf_pkg "orig")) (ex_fs (str "a.conf")) ltac:(reflexivity)
    ltac:(reflexivity)) as [H _].
  etrans; [apply H; discriminate|reflexivity].
Defined.
