(* ===== verification/DiskSpace.v ===== *)
(** * Disk space

    lib/libalpm/diskspace.c on Linux: the mount points, the blocks that a
    transaction and a download need on each of them, and the comparison with the
    free blocks. The mount table, statvfs, lstat and realpath are parameters.
    Sizes are computed as in C, in unsigned long and blkcnt_t; [None] is an
    overflow of blkcnt_t, a division by a zero block size, or a read in front of an
    empty mount point. Progress callbacks are left out. *)
From S2P Require Import Prelude CString AlpmList Util Package PkgHash PkgSet Handle FileOps.
Local Open Scope Z_scope.

(** ** Machine integers *)

(** blkcnt_t is a 64-bit signed integer. *)
Definition in_int64 (z : Z) : bool := (- 2 ^ 63 <=? z) && (z <? 2 ^ 63).
Definition checked64 (z : Z) : option Z := if in_int64 z then Some z else None.

(** Conversion of an unsigned long to blkcnt_t. *)
Definition to_int64 (z : Z) : Z := let u := wrap64 z in if u <? 2 ^ 63 then u else u - 2 ^ 64.

(** ** Data *)
Definition S_IFMT := 61440.
Definition S_ISDIR (mode : Z) : bool := Z.land mode S_IFMT =? 16384.
Definition S_ISLNK (mode : Z) : bool := Z.land mode S_IFMT =? 40960.

Definition USED_REMOVE := 1.
Definition USED_INSTALL := Z.shiftl 1 1.

Inductive mount_fsinfo := MOUNT_FSINFO_UNLOADED | MOUNT_FSINFO_LOADED | MOUNT_FSINFO_FAIL.

(** The members of struct statvfs that are used; [f_rdonly] is f_flag & ST_RDONLY. *)
Record statvfs_t := mk_statvfs { f_bsize : Z; f_blocks : Z; f_bavail : Z; f_rdonly : bool }.

(** mount_dir_len is the length of [mount_dir]. *)
Record alpm_mountpoint_t := mk_mountpoint {
  mount_dir : cstr;
  blocks_needed : Z;
  max_blocks_needed : Z;
  used : Z;
  read_only : bool;
  fsinfo_loaded : mount_fsinfo;
  fsp : statvfs_t
}.

(** What the system answers: the mount table (None when it cannot be opened),
    statvfs, mode and size from llstat, realpath. *)
Record disk_env := mk_disk {
  de_mounts : option (list (option cstr));
  de_statvfs : cstr → option statvfs_t;
  de_lstat : cstr → option (Z * Z);
  de_realpath : cstr → option cstr
}.

(** CALLOC and the name. *)
Definition new_mountpoint (dir : cstr) : alpm_mountpoint_t :=
  mk_mountpoint dir 0 0 0 false MOUNT_FSINFO_UNLOADED (mk_statvfs 0 0 0 false).

Definition set_fsinfo (s : mount_fsinfo) (ro : bool) (f : statvfs_t) (mp : alpm_mountpoint_t) : alpm_mountpoint_t :=
  mk_mountpoint (mount_dir mp) (blocks_needed mp) (max_blocks_needed mp) (used mp) ro s f.
Definition set_blocks (b u : Z) (mp : alpm_mountpoint_t) : alpm_mountpoint_t :=
  mk_mountpoint (mount_dir mp) b (max_blocks_needed mp) u (read_only mp) (fsinfo_loaded mp) (fsp mp).
Definition set_max (m : Z) (mp : alpm_mountpoint_t) : alpm_mountpoint_t :=
  mk_mountpoint (mount_dir mp) (blocks_needed mp) m (used mp) (read_only mp) (fsinfo_loaded mp) (fsp mp).

(** ** Mount points *)
Definition mount_point_cmp (mp1 mp2 : alpm_mountpoint_t) : Z := - strcmp (mount_dir mp1) (mount_dir mp2).

Definition mount_point_load_fsinfo (env : disk_env) (mp : alpm_mountpoint_t) : alpm_mountpoint_t * Z :=
  match de_statvfs env (mount_dir mp) with
  | None => (set_fsinfo MOUNT_FSINFO_FAIL (read_only mp) (fsp mp) mp, -1)
  | Some f => (set_fsinfo MOUNT_FSINFO_LOADED (f_rdonly f) f mp, 0)
  end.

(** NULL and the empty list are the same. *)
Definition mount_point_list (env : disk_env) : list alpm_mountpoint_t :=
  match de_mounts env with
  | None => []
  | Some mnts =>
      let mount_points := map new_mountpoint (omap id mnts) in
      alpm_list_msort mount_point_cmp mount_points (length mount_points)
  end.

(** Does [real_path] lie below the mount point? [None]: mount_dir[-1] is read. *)
Definition mount_matches (dir real_path : cstr) : option bool :=
  let len := length dir in
  if strncmp dir real_path len =? 0
  then match last dir with
       | None => None
       | Some c =>
           if Ascii.eqb c "/" then Some true
           else if (len <=? length real_path)%nat
                then let next := hd_chr (drop len real_path) in
                     Some (Ascii.eqb next "/" || Ascii.eqb next NUL)
                else Some false
       end
  else Some false.

(** The position of the mount point, or [Some None] for NULL. *)
Fixpoint match_mount_point (mount_points : list alpm_mountpoint_t) (real_path : cstr) : option (option nat) :=
  match mount_points with
  | [] => Some None
  | data :: l =>
      found ← mount_matches (mount_dir data) real_path;
      if found : bool then Some (Some 0%nat)
      else r ← match_mount_point l real_path; Some (option_map S r)
  end.

(** The mount point of a file whose space is counted: matched, and its file
    system information loaded when it is used for the first time. *)
Definition counted_mount (env : disk_env) (mount_points : list alpm_mountpoint_t) (path : cstr)
    : option (list alpm_mountpoint_t * option nat) :=
  r ← match_mount_point mount_points path;
  match r with
  | None => Some (mount_points, None)
  | Some i =>
      mp ← mount_points !! i;
      match fsinfo_loaded mp with
      | MOUNT_FSINFO_FAIL => Some (mount_points, None)
      | MOUNT_FSINFO_LOADED => Some (mount_points, Some i)
      | MOUNT_FSINFO_UNLOADED =>
          let '(mp, rc) := mount_point_load_fsinfo env mp in
          Some (<[i := mp]> mount_points, if rc <? 0 then None else Some i)
      end
  end.

(** (size + f_bsize - 1) / f_bsize as a blkcnt_t. *)
Definition blocks_of (size bsize : Z) : option Z :=
  if bsize =? 0 then None else Some (to_int64 (wrap64 (size + bsize - 1) / bsize)).

(** blocks_needed changes by [sign] times the blocks of the file. *)
Definition charge (sign flag size : Z) (i : nat) (mount_points : list alpm_mountpoint_t)
    : option (list alpm_mountpoint_t) :=
  mp ← mount_points !! i;
  n ← blocks_of size (f_bsize (fsp mp));
  b ← checked64 (blocks_needed mp + sign * n);
  Some (<[i := set_blocks b (Z.lor (used mp) flag) mp]> mount_points).

(** snprintf(path, PATH_MAX, "%s%s", root, filename) *)
Definition full_path (root filename : cstr) : cstr := take (PATH_MAX - 1) (root ++ filename).

(** One round of the loop of calculate_removed_size. *)
Definition removed_file (env : disk_env) (root : cstr) (mount_points : list alpm_mountpoint_t)
    (file : alpm_file_t) : option (list alpm_mountpoint_t) :=
  let path := full_path root (file_name file) in
  match de_lstat env path with
  | None => Some mount_points
  | Some (st_mode, st_size) =>
      if S_ISDIR st_mode || S_ISLNK st_mode then Some mount_points
      else
        '(mount_points, r) ← counted_mount env mount_points path;
        match r with
        | None => Some mount_points
        | Some i => charge (-1) USED_REMOVE st_size i mount_points
        end
  end.

Fixpoint calculate_removed_size (env : disk_env) (root : cstr) (mount_points : list alpm_mountpoint_t)
    (files : list alpm_file_t) : option (list alpm_mountpoint_t) :=
  match files with
  | [] => Some mount_points
  | file :: files =>
      mount_points ← removed_file env root mount_points file;
      calculate_removed_size env root mount_points files
  end.

(** One round of the loop of calculate_installed_size. *)
Definition installed_file (env : disk_env) (root dbpath : cstr) (mount_points : list alpm_mountpoint_t)
    (file : alpm_file_t) : option (list alpm_mountpoint_t) :=
  if S_ISDIR (file_mode file) || S_ISLNK (file_mode file) then Some mount_points
  else
    let filename := if Ascii.eqb (hd_chr (file_name file)) "." then dbpath else file_name file in
    '(mount_points, r) ← counted_mount env mount_points (full_path root filename);
    match r with
    | None => Some mount_points
    | Some i => charge 1 USED_INSTALL (file_size file) i mount_points
    end.

Fixpoint calculate_installed_size (env : disk_env) (root dbpath : cstr)
    (mount_points : list alpm_mountpoint_t) (files : list alpm_file_t) : option (list alpm_mountpoint_t) :=
  match files with
  | [] => Some mount_points
  | file :: files =>
      mount_points ← installed_file env root dbpath mount_points file;
      calculate_installed_size env root dbpath mount_points files
  end.

(** ** The free space *)
Definition cushion (f : statvfs_t) : Z :=
  let fivepc := wrap64 (f_blocks f / 20 + 1) in
  let twentymb := 20 * 1024 * 1024 / f_bsize f + 1 in
  if fivepc <? twentymb then fivepc else twentymb.

(** True for 1: the partition is too full. *)
Definition check_mountpoint (mp : alpm_mountpoint_t) : option bool :=
  if f_bsize (fsp mp) =? 0 then None
  else
    let needed := to_int64 (max_blocks_needed mp + cushion (fsp mp)) in
    Some ((0 <=? needed) && (f_bavail (fsp mp) <? needed)).

Definition disk_space_error (h : alpm_handle_t) : alpm_handle_t * Z :=
  (set_errno ALPM_ERR_DISK_SPACE h, -1).

(** The loop over the files of a download. *)
Fixpoint download_blocks (bsize : Z) (file_sizes : list Z) (needed : Z) : option Z :=
  match file_sizes with
  | [] => Some needed
  | size :: file_sizes =>
      if bsize =? 0 then None
      else download_blocks bsize file_sizes (to_int64 (needed + wrap64 (size + bsize + 1) / bsize))
  end.

Definition alpm_check_downloadspace (env : disk_env) (h : alpm_handle_t) (cachedir : cstr)
    (file_sizes : list Z) : option (alpm_handle_t * Z) :=
  let cachedir := default cachedir (de_realpath env cachedir) in
  match mount_point_list env with
  | [] => Some (h, -1)
  | mount_points =>
      r ← match_mount_point mount_points cachedir;
      match r with
      | None => Some (disk_space_error h)
      | Some i =>
          mp ← mount_points !! i;
          let '(mp, rc) := match fsinfo_loaded mp with
                           | MOUNT_FSINFO_UNLOADED => mount_point_load_fsinfo env mp
                           | _ => (mp, 0)
                           end in
          if negb (rc =? 0) then Some (disk_space_error h)
          else
            m ← download_blocks (f_bsize (fsp mp)) file_sizes (max_blocks_needed mp);
            full ← check_mountpoint (set_max m mp);
            Some (if full : bool then disk_space_error h else (h, 0))
      end
  end.

(** The packages that are removed. *)
Fixpoint removed_packages (env : disk_env) (root : cstr) (remove : list alpm_pkg_t)
    (mount_points : list alpm_mountpoint_t) : option (list alpm_mountpoint_t) :=
  match remove with
  | [] => Some mount_points
  | local_pkg :: remove =>
      mount_points ← calculate_removed_size env root mount_points (pkg_files local_pkg);
      removed_packages env root remove mount_points
  end.

Definition raise_max (data : alpm_mountpoint_t) : alpm_mountpoint_t :=
  if max_blocks_needed data <? blocks_needed data then set_max (blocks_needed data) data else data.

(** The packages that are installed, each in place of its old version. *)
Fixpoint added_packages (env : disk_env) (h : alpm_handle_t) (root dbpath : cstr) (add : list alpm_pkg_t)
    (mount_points : list alpm_mountpoint_t) : option (list alpm_mountpoint_t) :=
  match add with
  | [] => Some mount_points
  | pkg :: add =>
      mount_points ← match alpm_db_get_pkgfromcache (h_db_local h) (pkg_name pkg) with
                     | Some local_pkg => calculate_removed_size env root mount_points (pkg_files local_pkg)
                     | None => Some mount_points
                     end;
      mount_points ← calculate_installed_size env root dbpath mount_points (pkg_files pkg);
      added_packages env h root dbpath add (map raise_max mount_points)
  end.

(** The loop over the mount points that decides. *)
Fixpoint check_mount_points (mount_points : list alpm_mountpoint_t) (error : bool) : option bool :=
  match mount_points with
  | [] => Some error
  | data :: l =>
      if negb (used data =? 0) && read_only data then check_mount_points l true
      else if has_flag (used data) USED_INSTALL
           then full ← check_mountpoint data; check_mount_points l (error || full)
           else check_mount_points l error
  end.

Definition alpm_check_diskspace (env : disk_env) (h : alpm_handle_t) : option (alpm_handle_t * Z) :=
  trans ← h_trans h;
  root ← o_root (h_options h);
  dbpath ← o_dbpath (h_options h);
  match mount_point_list env with
  | [] => Some (h, -1)
  | mount_points =>
      r ← match_mount_point mount_points root;
      match r with
      | None => Some (disk_space_error h)
      | Some _ =>
          mount_points ← removed_packages env root (t_remove trans) mount_points;
          mount_points ← added_packages env h root dbpath (t_add trans) mount_points;
          error ← check_mount_points mount_points false;
          Some (if error : bool then disk_space_error h else (h, 0))
      end
  end.

(** ** Reference: the mount point of a path *)

(** [p] is [d] or lies below it. *)
Definition below (d p : cstr) : bool :=
  bool_decide (take (length d) p = d) &&
  (bool_decide (last d = Some "/"%char) ||
   (Ascii.eqb (hd_chr (drop (length d) p)) "/" || Ascii.eqb (hd_chr (drop (length d) p)) NUL)).

(** The longest directory of the mount table that has [p] below it. *)
Definition longer (d : cstr) (best : option cstr) : option cstr :=
  match best with Some b => if (length b <? length d)%nat then Some d else best | None => Some d end.
Definition mount_of (dirs : list cstr) (p : cstr) : option cstr :=
  foldr (λ d best, if below d p then longer d best else best) None dirs.

Definition mount_dirs (env : disk_env) : list cstr := omap id (default [] (de_mounts env)).

(** ** Facts: matching *)
#[export] Instance mount_point_cmp_order : CmpOrder mount_point_cmp.
Proof.
  unfold mount_point_cmp. split; intros.
  - by rewrite strcmp_refl.
  - rewrite (strcmp_antisym (mount_dir x) (mount_dir y)). lia.
  - rewrite <-!strcmp_antisym in *. by eapply (cmp_trans (mount_dir z)).
Qed.

Lemma matches_below d p : d ≠ [] → mount_matches d p = Some (below d p).
Proof.
  intros Hd. unfold mount_matches, below, strncmp. rewrite take_ge by done.
  destruct (Z.eqb_spec (strcmp d (take (length d) p)) 0) as [E|E].
  - apply strcmp_eq in E. rewrite bool_decide_true by done. cbn [andb].
    destruct (last d) as [c|] eqn:El; [|by apply last_None in El].
    destruct (Ascii.eqb_spec c "/"%char) as [-> |Hc]; [by rewrite bool_decide_true|].
    rewrite bool_decide_false by congruence. cbn [orb].
    rewrite (proj2 (Nat.leb_le _ _)); [done|]. rewrite E, length_take at 1. lia.
  - rewrite bool_decide_false; [done|]. intros E'. apply E. rewrite E'. apply strcmp_refl.
Qed.

(** The first of [dirs] that has [p] below it. *)
Fixpoint mount_index (dirs : list cstr) (p : cstr) : option nat :=
  match dirs with
  | [] => None
  | d :: dirs => if below d p then Some 0%nat else option_map S (mount_index dirs p)
  end.

Lemma match_index mps p :
  Forall (λ d, d ≠ []) (map mount_dir mps) →
  match_mount_point mps p = Some (mount_index (map mount_dir mps) p).
Proof.
  induction mps as [|mp mps IH]; [done|]. cbn [map]. intros [H Hl]%Forall_cons.
  cbn [match_mount_point mount_index]. rewrite matches_below by done. cbn [mbind option_bind].
  destruct (below _ _); [done|]. by rewrite IH.
Qed.

Lemma index_below dirs p i :
  mount_index dirs p = Some i → ∃ d, dirs !! i = Some d ∧ below d p = true.
Proof.
  revert i. induction dirs as [|d dirs IH]; intros i; [done|]. cbn [mount_index].
  destruct (below d p) eqn:E; [intros [= <-]; by exists d|].
  destruct (mount_index dirs p) as [j|]; [|done]. intros [= <-]. by apply IH.
Qed.

Lemma below_prefix d p : below d p = true → d `prefix_of` p.
Proof.
  unfold below. intros [H%bool_decide_eq_true _]%andb_true_iff. exists (drop (length d) p).
  rewrite <-H at 1. by rewrite take_drop.
Qed.

Lemma strcmp_prefix d rest : strcmp d (d ++ rest) = match rest with [] => 0 | _ => -1 end.
Proof. induction d as [|c d IH]; [by destruct rest|]. cbn [strcmp app]. by rewrite Z.ltb_irrefl. Qed.

(** Of two directories with [p] below them, the one that is sorted first is at
    least as long. *)
Lemma below_longer d e p :
  below d p = true → below e p = true → 0 <= strcmp d e → (length e <= length d)%nat ∧
  (length e = length d → e = d).
Proof.
  intros Hd%below_prefix He%below_prefix Hc.
  destruct (prefix_weak_total _ _ _ Hd He) as [[r ->]|[r ->]].
  - rewrite strcmp_prefix in Hc. destruct r; [|lia]. by rewrite app_nil_r.
  - rewrite length_app. split; [lia|]. intros H. destruct r; [by rewrite app_nil_r|cbn in H; lia].
Qed.

Definition dir_before (d e : cstr) : Prop := 0 <= strcmp d e.

Lemma mount_of_In dirs p d : mount_of dirs p = Some d → d ∈ dirs ∧ below d p = true.
Proof.
  induction dirs as [|e dirs IH]; [done|]. cbn [mount_of foldr]. fold (mount_of dirs p).
  destruct (below e p) eqn:E.
  - unfold longer. destruct (mount_of dirs p) as [b|]; [|intros [= <-]; by split; [left|]].
    case_if; intros [= <-]; [by split; [left|]|]. destruct (IH eq_refl). split; [by right|done].
  - intros H%IH. split; [right|]; apply H.
Qed.

Lemma sorted_mount_of dirs p :
  StronglySorted dir_before dirs → mount_of dirs p = mount_index dirs p ≫= λ i, dirs !! i.
Proof.
  induction 1 as [|d dirs Hs IH Hd]; [done|]. cbn [mount_of foldr mount_index]. fold (mount_of dirs p).
  destruct (below d p) eqn:E.
  - cbn. unfold longer. destruct (mount_of dirs p) as [b|] eqn:Eb; [|done].
    apply mount_of_In in Eb as [Hin Hb]. rewrite Forall_forall in Hd.
    destruct (below_longer d b p E Hb (Hd _ Hin)) as [H1 H2].
    destruct (Nat.ltb_spec (length b) (length d)); [done|]. f_equal. apply H2. lia.
  - rewrite IH. by destruct (mount_index dirs p).
Qed.

Lemma longer_comm p d e best :
  below d p = true → below e p = true → longer d (longer e best) = longer e (longer d best).
Proof.
  intros Hd%below_prefix He%below_prefix.
  assert (length d = length e → d = e) as Heq.
  { destruct (prefix_weak_total _ _ _ Hd He) as [[r ->]|[r ->]]; rewrite length_app; destruct r; cbn;
      intros; try lia; by rewrite app_nil_r. }
  assert (∀ b, (if (length b <? length d)%nat then Some d else Some b) = longer d (Some b)) as Hl by done.
  destruct best as [b|]; cbn [longer].
  - destruct (Nat.ltb_spec (length b) (length e)), (Nat.ltb_spec (length b) (length d)); cbn [longer];
      repeat case_if; bool_prop; try done; try lia; f_equal; try apply Heq; try symmetry; try apply Heq; lia.
  - repeat case_if; bool_prop; try done; try lia; f_equal; try apply Heq; try (symmetry; apply Heq); lia.
Qed.

#[export] Instance mount_of_perm : Proper ((≡ₚ) ==> (=) ==> (=)) mount_of.
Proof.
  intros l1 l2 Hl p ? <-. induction Hl as [|d l1 l2 _ IH|d e l|l1 l2 l3 _ IH1 _ IH2]; [done| |..|congruence].
  - cbn. fold (mount_of l1 p) (mount_of l2 p). by rewrite IH.
  - cbn. fold (mount_of l p). destruct (below e p) eqn:Ee, (below d p) eqn:Ed; try done.
    by eapply longer_comm.
Qed.

Lemma mount_list_spec env :
  let dirs := map mount_dir (mount_point_list env) in
  dirs ≡ₚ mount_dirs env ∧ StronglySorted dir_before dirs ∧
  (∀ i mp, mount_point_list env !! i = Some mp → mp = new_mountpoint (mount_dir mp)).
Proof.
  unfold mount_point_list, mount_dirs. destruct (de_mounts env) as [mnts|]; cbn [default].
  2: { split_and!; [done|constructor|done]. }
  set (l := map new_mountpoint (omap id mnts)).
  assert (map mount_dir l = omap id mnts) as Hl.
  { unfold l. rewrite map_map. cbn. apply map_id. }
  split_and!.
  - by rewrite (msort_perm mount_point_cmp l), Hl.
  - assert (StronglySorted (cmp_le mount_point_cmp) (alpm_list_msort mount_point_cmp l (length l))) as Hs
      by (by apply msort_rec_sorted; [apply _|..]).
    induction Hs as [|x s _ IH Hx]; [constructor|]. cbn [map]. constructor; [done|].
    apply Forall_map. eapply Forall_impl; [exact Hx|]. intros y. unfold cmp_le, mount_point_cmp, dir_before. cbn. lia.
  - intros i mp Hi. apply list_elem_of_lookup_2 in Hi. rewrite (msort_perm mount_point_cmp l) in Hi.
    unfold l in Hi. apply list_elem_of_fmap in Hi as (d & -> & _). done.
Qed.

(** ** Reference: the ledger of a transaction

    An entry of the ledger is a file whose blocks are freed or needed. *)
Record ledger_entry := mk_entry { le_path : cstr; le_sign : Z; le_flag : Z; le_size : Z }.

Definition ceil_div (a b : Z) : Z := (a + b - 1) / b.

Definition removed_entries (env : disk_env) (root : cstr) (files : list alpm_file_t) : list ledger_entry :=
  omap (λ f, let path := full_path root (file_name f) in
             match de_lstat env path with
             | Some (mode, size) =>
                 if S_ISDIR mode || S_ISLNK mode then None else Some (mk_entry path (-1) USED_REMOVE size)
             | None => None
             end) files.

Definition installed_entries (root dbpath : cstr) (files : list alpm_file_t) : list ledger_entry :=
  omap (λ f, if S_ISDIR (file_mode f) || S_ISLNK (file_mode f) then None
             else Some (mk_entry (full_path root (if Ascii.eqb (hd_chr (file_name f)) "." then dbpath else file_name f))
                          1 USED_INSTALL (file_size f))) files.

Definition package_entries (env : disk_env) (h : alpm_handle_t) (root dbpath : cstr) (pkg : alpm_pkg_t)
    : list ledger_entry :=
  match alpm_db_get_pkgfromcache (h_db_local h) (pkg_name pkg) with
  | Some local_pkg => removed_entries env root (pkg_files local_pkg)
  | None => []
  end ++ installed_entries root dbpath (pkg_files pkg).

Definition removal_entries (env : disk_env) (root : cstr) (remove : list alpm_pkg_t) : list ledger_entry :=
  flat_map (λ p, removed_entries env root (pkg_files p)) remove.

(** The blocks of size [bsize] that the entries on a mount point need in total. *)
Definition blocks_on (on : cstr → bool) (bsize : Z) (es : list ledger_entry) : Z :=
  foldr (λ e n, (if on (le_path e) then le_sign e * ceil_div (le_size e) bsize else 0) + n) 0 es.

Definition flags_on (on : cstr → bool) (es : list ledger_entry) : Z :=
  foldr (λ e u, Z.lor u (if on (le_path e) then le_flag e else 0)) 0 es.

(** Sizes of files are not negative, and all of them together fit an off_t. *)
Definition entries_fit (es : list ledger_entry) : Prop :=
  Forall (λ e, 0 <= le_size e ∧ (le_sign e = 1 ∨ le_sign e = -1)) es ∧ foldr (λ e n, le_size e + n) 0 es < 2 ^ 62.

(** ** Facts: the loops enter the ledger *)
Definition enter (env : disk_env) (mps : list alpm_mountpoint_t) (e : ledger_entry) : option (list alpm_mountpoint_t) :=
  '(mps, r) ← counted_mount env mps (le_path e);
  match r with
  | None => Some mps
  | Some i => charge (le_sign e) (le_flag e) (le_size e) i mps
  end.

Fixpoint enter_all (env : disk_env) (mps : list alpm_mountpoint_t) (es : list ledger_entry)
    : option (list alpm_mountpoint_t) :=
  match es with
  | [] => Some mps
  | e :: es => mps ← enter env mps e; enter_all env mps es
  end.

Lemma enter_all_app env mps es es' :
  enter_all env mps (es ++ es') = (mps ← enter_all env mps es; enter_all env mps es').
Proof.
  revert mps. induction es as [|e es IH]; intros mps; [done|]. cbn [enter_all app].
  destruct (enter env mps e); [|done]. apply IH.
Qed.

Lemma removed_enter env root mps files :
  calculate_removed_size env root mps files = enter_all env mps (removed_entries env root files).
Proof.
  revert mps. induction files as [|f files IH]; intros mps; [done|].
  cbn [calculate_removed_size removed_entries omap list_omap]. fold (removed_entries env root files).
  unfold removed_file. destruct (de_lstat _ _) as [[mode size]|]; [|apply IH].
  destruct (S_ISDIR mode || S_ISLNK mode); [apply IH|]. cbn [enter_all]. unfold enter. cbn [le_path le_sign le_flag le_size].
  destruct (counted_mount _ _ _) as [[mps' [i|]]|]; cbn [mbind option_bind]; [|apply IH|done].
  destruct (charge _ _ _ _ _); [apply IH|done].
Qed.

Lemma installed_enter env root dbpath mps files :
  calculate_installed_size env root dbpath mps files = enter_all env mps (installed_entries root dbpath files).
Proof.
  revert mps. induction files as [|f files IH]; intros mps; [done|].
  cbn [calculate_installed_size installed_entries omap list_omap]. fold (installed_entries root dbpath files).
  unfold installed_file. destruct (S_ISDIR (file_mode f) || S_ISLNK (file_mode f)); [apply IH|].
  cbn [enter_all]. unfold enter. cbn [le_path le_sign le_flag le_size].
  destruct (counted_mount _ _ _) as [[mps' [i|]]|]; cbn [mbind option_bind]; [|apply IH|done].
  destruct (charge _ _ _ _ _); [apply IH|done].
Qed.

Lemma removal_enter env root remove mps :
  removed_packages env root remove mps = enter_all env mps (removal_entries env root remove).
Proof.
  revert mps. induction remove as [|p remove IH]; intros mps; [done|].
  cbn [removed_packages removal_entries flat_map]. rewrite enter_all_app, <-removed_enter.
  destruct (calculate_removed_size _ _ _ _); [apply IH|done].
Qed.

(** ** Facts: the ledger *)
Lemma blocks_on_cons on bsize e es :
  blocks_on on bsize (e :: es) =
  (if on (le_path e) then le_sign e * ceil_div (le_size e) bsize else 0) + blocks_on on bsize es.
Proof. done. Qed.

Lemma blocks_on_app on bsize es es' :
  blocks_on on bsize (es ++ es') = blocks_on on bsize es + blocks_on on bsize es'.
Proof. induction es as [|e es IH]; [done|]. cbn [app]. rewrite !blocks_on_cons, IH. lia. Qed.

Lemma flags_on_app on es es' : flags_on on (es ++ es') = Z.lor (flags_on on es) (flags_on on es').
Proof.
  induction es as [|e es IH]; [done|]. cbn. fold (flags_on on (es ++ es')) (flags_on on es).
  rewrite IH, <-!Z.lor_assoc. f_equal. apply Z.lor_comm.
Qed.

Lemma ceil_div_le a b : 0 <= a → 0 < b → 0 <= ceil_div a b <= a.
Proof. unfold ceil_div. intros. split; Z.to_euclidean_division_equations; nia. Qed.

Lemma sizes_app es es' :
  foldr (λ e n, le_size e + n) 0 (es ++ es') = foldr (λ e n, le_size e + n) 0 es + foldr (λ e n, le_size e + n) 0 es'.
Proof. induction es as [|e es IH]; [done|]. cbn. lia. Qed.

Lemma sizes_nonneg es : Forall (λ e, 0 <= le_size e ∧ (le_sign e = 1 ∨ le_sign e = -1)) es →
  0 <= foldr (λ e n, le_size e + n) 0 es.
Proof. induction 1; cbn; lia. Qed.

Lemma entries_fit_app es es' : entries_fit (es ++ es') → entries_fit es ∧ entries_fit es'.
Proof.
  intros [[H1 H2]%Forall_app H]. rewrite sizes_app in H.
  pose proof (sizes_nonneg _ H1). pose proof (sizes_nonneg _ H2). split; split; try done; lia.
Qed.

Lemma blocks_on_bound on bsize es :
  0 < bsize → entries_fit es → - 2 ^ 62 < blocks_on on bsize es < 2 ^ 62.
Proof.
  intros Hb [Hf Hs]. enough (Z.abs (blocks_on on bsize es) <= foldr (λ e n, le_size e + n) 0 es) by lia.
  clear Hs. induction Hf as [|e es [He Hsgn] Hf IH]; [done|]. rewrite blocks_on_cons. cbn [foldr].
  pose proof (ceil_div_le (le_size e) bsize He Hb). destruct (on _); [|lia]. destruct Hsgn as [-> | ->]; lia.
Qed.

(** The largest need, at least 0, at the given moments. *)
Definition peak (on : cstr → bool) (bsize : Z) (moments : list (list ledger_entry)) : Z :=
  foldr (λ es m, Z.max (blocks_on on bsize es) m) 0 moments.

Lemma peak_cons on bsize es ms : peak on bsize (es :: ms) = Z.max (blocks_on on bsize es) (peak on bsize ms).
Proof. done. Qed.

Lemma peak_snoc on bsize ms es :
  peak on bsize (ms ++ [es]) = Z.max (peak on bsize ms) (blocks_on on bsize es).
Proof. induction ms as [|x ms IH]; [cbn; lia|]. cbn [app]. rewrite !peak_cons, IH. lia. Qed.

Lemma peak_le on bsize ms b :
  peak on bsize ms <= b ↔ 0 <= b ∧ Forall (λ es, blocks_on on bsize es <= b) ms.
Proof.
  induction ms as [|x ms IH]; [rewrite Forall_nil; cbn; tauto|]. rewrite peak_cons, Forall_cons, Z.max_lub_iff, IH. tauto.
Qed.

(** ** Facts: mount points follow the ledger *)
Section tracking.
Context (env : disk_env) (dirs : list cstr).

Definition on_index (i : nat) (p : cstr) : bool := bool_decide (mount_index dirs p = Some i).

(** A mount point after the entries [es] when its need was recorded at the
    moments [ms]. *)
Definition tracked (es : list ledger_entry) (ms : list (list ledger_entry)) (i : nat) (mp : alpm_mountpoint_t) : Prop :=
  match de_statvfs env (mount_dir mp) with
  | None => fsinfo_loaded mp ≠ MOUNT_FSINFO_LOADED ∧ blocks_needed mp = 0 ∧ used mp = 0
  | Some f =>
      blocks_needed mp = blocks_on (on_index i) (f_bsize f) es ∧
      max_blocks_needed mp = peak (on_index i) (f_bsize f) ms ∧
      used mp = flags_on (on_index i) es ∧
      match fsinfo_loaded mp with
      | MOUNT_FSINFO_UNLOADED => Forall (λ e, on_index i (le_path e) = false) es
      | MOUNT_FSINFO_LOADED => fsp mp = f ∧ read_only mp = f_rdonly f
      | MOUNT_FSINFO_FAIL => False
      end
  end.

Record tracks (es : list ledger_entry) (ms : list (list ledger_entry)) (mps : list alpm_mountpoint_t) : Prop := {
  tr_dirs : map mount_dir mps = dirs;
  tr_mounts : ∀ i mp, mps !! i = Some mp → tracked es ms i mp
}.

Context (Hdirs : Forall (λ d, d ≠ []) dirs).
Context (Hbsize : ∀ d f, de_statvfs env d = Some f → 0 < f_bsize f < 2 ^ 63).

Lemma blocks_off on bsize es : Forall (λ e, on (le_path e) = false) es → blocks_on on bsize es = 0 ∧ flags_on on es = 0.
Proof.
  induction 1 as [|e es He _ [IH1 IH2]]; [done|]. rewrite blocks_on_cons, He, IH1. split; [done|].
  cbn. fold (flags_on on es). by rewrite IH2, He.
Qed.

Lemma to_int64_small z : 0 <= z < 2 ^ 63 → to_int64 z = z.
Proof. intros H. unfold to_int64, wrap64. rewrite Z.mod_small by lia. by rewrite (proj2 (Z.ltb_lt _ _)) by lia. Qed.

Lemma blocks_of_ceil size bsize :
  0 <= size < 2 ^ 62 → 0 < bsize < 2 ^ 63 → blocks_of size bsize = Some (ceil_div size bsize).
Proof.
  intros Hs Hb. unfold blocks_of. destruct (Z.eqb_spec bsize 0); [lia|]. unfold wrap64. rewrite Z.mod_small by lia.
  fold (ceil_div size bsize). pose proof (ceil_div_le size bsize). rewrite to_int64_small by lia. done.
Qed.

(** An entry on another mount point. *)
Lemma tracked_other es ms i mp e :
  on_index i (le_path e) = false → tracked es ms i mp → tracked (es ++ [e]) ms i mp.
Proof.
  intros He. unfold tracked. destruct (de_statvfs env (mount_dir mp)) as [f|]; [|done].
  rewrite blocks_on_app, flags_on_app, blocks_on_cons. cbn [flags_on foldr blocks_on]. rewrite He, Z.lor_0_r, !Z.add_0_r.
  intros (H1 & H2 & H3 & H4). split_and!; try done.
  destruct (fsinfo_loaded mp); try done. apply Forall_app. by repeat constructor.
Qed.

(** An entry on a loaded mount point. *)
Lemma charge_tracked es ms i mp e mps :
  mps !! i = Some mp → fsinfo_loaded mp = MOUNT_FSINFO_LOADED → on_index i (le_path e) = true →
  entries_fit (es ++ [e]) → tracked es ms i mp →
  ∃ mp', charge (le_sign e) (le_flag e) (le_size e) i mps = Some (<[i := mp']> mps) ∧
         mount_dir mp' = mount_dir mp ∧ tracked (es ++ [e]) ms i mp'.
Proof.
  intros Hi Hl He Hfit. unfold tracked at 1. destruct (de_statvfs env (mount_dir mp)) as [f|] eqn:Ef; [|by intros [? _]].
  rewrite Hl. intros (Hb & Hm & Hu & Hf & Hro). destruct (Hbsize _ _ Ef) as [Hb1 Hb2].
  pose proof (blocks_on_bound (on_index i) (f_bsize f) _ Hb1 Hfit) as Hbound.
  destruct (entries_fit_app _ _ Hfit) as [_ [[[Hs _] _]%Forall_cons Hs2]]. cbn in Hs2.
  rewrite blocks_on_app, blocks_on_cons, He in Hbound. cbn [blocks_on foldr] in Hbound. rewrite Z.add_0_r in Hbound.
  unfold charge. rewrite Hi. cbn [mbind option_bind]. rewrite Hf, blocks_of_ceil by lia. cbn [mbind option_bind].
  rewrite Hb. unfold checked64, in_int64. rewrite (proj2 (Z.leb_le _ _)), (proj2 (Z.ltb_lt _ _)) by lia.
  cbn [andb mbind option_bind]. eexists. split; [done|]. split; [done|]. unfold tracked. cbn. rewrite Ef, Hl.
  rewrite blocks_on_app, flags_on_app, blocks_on_cons. cbn [flags_on foldr blocks_on]. rewrite He, Hu, !Z.add_0_r. done.
Qed.

Lemma index_mount mps p i : map mount_dir mps = dirs → mount_index dirs p = Some i → is_Some (mps !! i).
Proof.
  intros Hd (d & Hi & _)%index_below. rewrite <-Hd in Hi.
  rewrite list_lookup_fmap in Hi. destruct (mps !! i); [by eexists|done].
Qed.

Lemma replace_dirs (mps : list alpm_mountpoint_t) i mp mp' :
  mps !! i = Some mp → mount_dir mp' = mount_dir mp → map mount_dir (<[i := mp']> mps) = map mount_dir mps.
Proof.
  intros Hi Hd. change (mount_dir <$> <[i := mp']> mps = mount_dir <$> mps). rewrite list_fmap_insert, Hd.
  apply list_insert_id. by rewrite list_lookup_fmap, Hi.
Qed.

Lemma enter_tracks es ms mps e :
  tracks es ms mps → entries_fit (es ++ [e]) → ∃ mps', enter env mps e = Some mps' ∧ tracks (es ++ [e]) ms mps'.
Proof.
  intros [Hd Hm] Hfit. unfold enter, counted_mount. rewrite match_index by by rewrite Hd. rewrite Hd. cbn [mbind option_bind].
  assert (∀ j mp, mps !! j = Some mp → mount_index dirs (le_path e) ≠ Some j → tracked (es ++ [e]) ms j mp) as Hother.
  { intros j mp Hj Hne. apply tracked_other; [by apply bool_decide_eq_false|auto]. }
  destruct (mount_index dirs (le_path e)) as [i|] eqn:Ei.
  2: { exists mps. split; [done|]. split; [done|]. intros. by apply Hother. }
  destruct (index_mount mps _ _ Hd Ei) as [mp Hi]. rewrite Hi. cbn [mbind option_bind].
  assert (on_index i (le_path e) = true) as Hon by by apply bool_decide_eq_true.
  pose proof (Hm i mp Hi) as Ht.
  assert (∀ mp', mount_dir mp' = mount_dir mp → tracked (es ++ [e]) ms i mp' → tracks (es ++ [e]) ms (<[i := mp']> mps)) as Hset.
  { intros mp' Hd' Ht'. split; [by rewrite (replace_dirs _ _ mp)|]. intros j mpj.
    destruct (decide (j = i)) as [-> |Hne].
    - rewrite list_lookup_insert_eq by (by eapply lookup_lt_Some). by intros [= <-].
    - rewrite list_lookup_insert_ne by done. intros Hj. apply Hother; congruence. }
  assert (∀ mp', mount_dir mp' = mount_dir mp → fsinfo_loaded mp' = MOUNT_FSINFO_LOADED → tracked es ms i mp' →
    ∃ mps', charge (le_sign e) (le_flag e) (le_size e) i (<[i := mp']> mps) = Some mps' ∧ tracks (es ++ [e]) ms mps') as Hch.
  { intros mp' Hd' Hl Ht'. destruct (charge_tracked es ms i mp' e (<[i := mp']> mps)) as (mp2 & -> & Hd2 & Ht2); try done.
    { rewrite list_lookup_insert_eq by (by eapply lookup_lt_Some). done. }
    rewrite list_insert_insert_eq. eexists. split; [done|]. apply Hset; [congruence|done]. }
  destruct (fsinfo_loaded mp) eqn:El.
  - unfold mount_point_load_fsinfo. unfold tracked in Ht.
    destruct (de_statvfs env (mount_dir mp)) as [f|] eqn:Ef; cbn [mbind option_bind Z.ltb Z.compare].
    + apply Hch; [done|done|]. unfold tracked. cbn. rewrite Ef. rewrite El in Ht. by destruct Ht as (? & ? & ? & ?).
    + eexists. split; [done|]. apply Hset; [done|]. unfold tracked. cbn. rewrite Ef. by destruct Ht as (? & ? & ?).
  - specialize (Hch mp eq_refl El Ht). by rewrite (list_insert_id mps i mp Hi) in Hch.
  - exists mps. split; [done|]. specialize (Hset mp eq_refl). rewrite (list_insert_id mps i mp Hi) in Hset. apply Hset.
    unfold tracked in *. rewrite El in Ht |- *. destruct (de_statvfs env (mount_dir mp)); [by destruct Ht as (? & ? & ? & [])|done].
Qed.

Lemma enter_all_tracks es' es ms mps :
  tracks es ms mps → entries_fit (es ++ es') → ∃ mps', enter_all env mps es' = Some mps' ∧ tracks (es ++ es') ms mps'.
Proof.
  revert es mps. induction es' as [|e es' IH]; intros es mps Ht Hfit; [rewrite app_nil_r; by eexists|].
  replace (es ++ e :: es') with ((es ++ [e]) ++ es') in * by by rewrite <-app_assoc. destruct (entries_fit_app _ _ Hfit) as [Hf _].
  destruct (enter_tracks es ms mps e Ht Hf) as (mps1 & He & Ht1). cbn [enter_all]. rewrite He. by apply IH.
Qed.

Lemma raise_tracks es ms mps : tracks es ms mps → tracks es (ms ++ [es]) (map raise_max mps).
Proof.
  intros [Hd Hm]. split.
  - rewrite map_map, <-Hd. apply map_ext. intros mp. unfold raise_max. by case_if.
  - intros i mp'. rewrite list_lookup_fmap, fmap_Some. intros (mp & Hi & ->). specialize (Hm i mp Hi).
    unfold tracked in *. replace (mount_dir (raise_max mp)) with (mount_dir mp) by (unfold raise_max; by case_if).
    destruct (de_statvfs env (mount_dir mp)) as [f|]; [|unfold raise_max; by case_if].
    destruct Hm as (H1 & H2 & H3 & H4). rewrite peak_snoc, <-H1, <-H2. unfold raise_max. case_if; bool_prop; cbn.
    + split_and!; try done. lia.
    + split_and!; try done. lia.
Qed.
End tracking.

(** ** Facts: the decision *)
Section decision.
Context (env : disk_env).
Context (Hfs : ∀ d f, de_statvfs env d = Some f → 0 < f_bsize f < 2 ^ 63 ∧ 0 <= f_blocks f < 2 ^ 64).

Lemma cushion_bound d f : de_statvfs env d = Some f → 0 < cushion f <= 20971521.
Proof.
  intros [Hb Hk]%Hfs. unfold cushion. set (t := 20 * 1024 * 1024 / f_bsize f + 1).
  assert (1 <= t <= 20971521) by (unfold t; Z.to_euclidean_division_equations; nia).
  unfold wrap64. rewrite Z.mod_small by (Z.to_euclidean_division_equations; lia).
  destruct (Z.ltb_spec (f_blocks f / 20 + 1) t); [|lia]. Z.to_euclidean_division_equations; lia.
Qed.

Lemma check_mountpoint_spec d f mp :
  de_statvfs env d = Some f → fsp mp = f → 0 <= max_blocks_needed mp < 2 ^ 62 →
  check_mountpoint mp = Some (f_bavail f <? max_blocks_needed mp + cushion f).
Proof.
  intros Hd Hf Hm. pose proof (cushion_bound d _ Hd). destruct (Hfs _ _ Hd) as [Hb _]. unfold check_mountpoint.
  rewrite Hf. destruct (Z.eqb_spec (f_bsize f) 0); [lia|]. rewrite to_int64_small by lia.
  by rewrite (proj2 (Z.leb_le 0 _)) by lia.
Qed.

Lemma peak_bound on bsize ms : 0 < bsize → Forall entries_fit ms → 0 <= peak on bsize ms < 2 ^ 62.
Proof.
  intros Hb. induction 1 as [|es ms He _ IH]; [done|]. rewrite peak_cons.
  pose proof (blocks_on_bound on bsize es Hb He). lia.
Qed.

Definition point_ok (mp : alpm_mountpoint_t) : Prop :=
  (used mp ≠ 0 → read_only mp = false) ∧
  (has_flag (used mp) USED_INSTALL = true → check_mountpoint mp = Some false).

Lemma check_mount_points_spec mps error :
  Forall (λ mp, has_flag (used mp) USED_INSTALL = true → is_Some (check_mountpoint mp)) mps →
  ∃ b, check_mount_points mps error = Some b ∧ (b = false ↔ error = false ∧ Forall point_ok mps).
Proof.
  intros H. revert error. induction H as [|mp mps Hmp _ IH]; intros error; [exists error; rewrite Forall_nil; split; [done|tauto]|].
  cbn [check_mount_points]. setoid_rewrite Forall_cons. unfold point_ok at 1.
  destruct (negb (used mp =? 0) && read_only mp) eqn:Er.
  - bool_prop. destruct (IH true) as (b & -> & Hb). exists b. split; [done|]. rewrite Hb.
    split; [by intros []|]. intros (_ & [Hro _] & _). rewrite Hro in *; done.
  - assert (used mp ≠ 0 → read_only mp = false) as Hro.
    { intros Hu. apply andb_false_iff in Er as [Er|Er]; [bool_prop; done|done]. }
    destruct (has_flag (used mp) USED_INSTALL) eqn:Ei.
    + destruct (Hmp eq_refl) as [full Hfull]. rewrite Hfull. cbn [mbind option_bind].
      destruct (IH (error || full)) as (b & -> & Hb). exists b. split; [done|]. rewrite Hb, orb_false_iff.
      split; [intros ([-> ->] & ?); auto|]. intros (-> & [_ Hc] & ?). specialize (Hc eq_refl). injection Hc as ->. auto.
    + destruct (IH error) as (b & -> & Hb). exists b. split; [done|]. rewrite Hb. split; [|tauto].
      intros [? ?]. split_and!; done.
Qed.

(** What a mount point has to satisfy. *)
Definition mount_fits (on : cstr → bool) (es : list ledger_entry) (ms : list (list ledger_entry)) (f : statvfs_t) : Prop :=
  (flags_on on es ≠ 0 → f_rdonly f = false) ∧
  (has_flag (flags_on on es) USED_INSTALL = true → peak on (f_bsize f) ms + cushion f <= f_bavail f).

Lemma mount_fits_unused on es ms f : flags_on on es = 0 → mount_fits on es ms f.
Proof. intros E. unfold mount_fits. by rewrite E. Qed.

Lemma tracked_point dirs es ms i mp :
  Forall entries_fit ms → tracked env dirs es ms i mp →
  (has_flag (used mp) USED_INSTALL = true → is_Some (check_mountpoint mp)) ∧
  (point_ok mp ↔ ∀ f, de_statvfs env (mount_dir mp) = Some f → mount_fits (on_index dirs i) es ms f).
Proof.
  intros Hms. unfold tracked, point_ok. destruct (de_statvfs env (mount_dir mp)) as [f|] eqn:Ef.
  2: { intros (_ & _ & ->). by repeat split. }
  intros (_ & Hm & Hu & Hl).
  assert (used mp = 0 ∨ fsp mp = f ∧ read_only mp = f_rdonly f) as [H0|[Hf Hro]].
  { destruct (fsinfo_loaded mp); [left|by right|done]. rewrite Hu. by apply (blocks_off _ 1). }
  - rewrite H0. split; [done|]. split; [|done]. intros _ ? _. apply mount_fits_unused. congruence.
  - destruct (Hfs _ _ Ef) as [Hb _]. pose proof (peak_bound (on_index dirs i) (f_bsize f) ms ltac:(lia) Hms).
    rewrite (check_mountpoint_spec _ f) by (done || lia). split; [by eexists|].
    rewrite Hu, Hro. unfold mount_fits. split.
    + intros [H1 H2] ? [= <-]. split; [done|]. intros H3. specialize (H2 H3). injection H2 as H2. bool_prop. lia.
    + intros H1. destruct (H1 f eq_refl) as [H2 H3]. split; [done|]. intros H4%H3. f_equal. apply Z.ltb_ge. lia.
Qed.
End decision.

(** From positions to directories. *)
Definition on_dir (dirs : list cstr) (d p : cstr) : bool := bool_decide (mount_of dirs p = Some d).

Lemma index_first dirs p j k d :
  mount_index dirs p = Some j → dirs !! k = Some d → below d p = true → (j <= k)%nat.
Proof.
  revert j k. induction dirs as [|e dirs IH]; intros j k; [done|]. cbn [mount_index].
  destruct (below e p) eqn:E; [intros [= <-]; lia|]. destruct (mount_index dirs p) as [j'|]; [|done]. intros [= <-].
  destruct k as [|k]; [intros [= <-]; congruence|]. intros Hk Hb. specialize (IH j' k eq_refl Hk Hb). lia.
Qed.

Lemma on_index_dir dirs p i d q :
  StronglySorted dir_before dirs → mount_index dirs p = Some i → dirs !! i = Some d → on_index dirs i q = on_dir dirs d q.
Proof.
  intros Hs Hp Hi. apply bool_decide_ext. rewrite sorted_mount_of by done. split; [by intros ->|].
  destruct (mount_index dirs q) as [j|] eqn:Eq; [|done]. cbn. intros Hj.
  destruct (index_below _ _ _ Hp) as (d1 & E1 & B1). destruct (index_below _ _ _ Eq) as (d2 & E2 & B2). simplify_eq.
  f_equal. apply Nat.le_antisymm; [by eapply index_first|by eapply (index_first dirs p)].
Qed.

Lemma on_ext on on' bsize es : (∀ p, on p = on' p) → blocks_on on bsize es = blocks_on on' bsize es ∧ flags_on on es = flags_on on' es.
Proof.
  intros H. induction es as [|e es [IH1 IH2]]; [done|]. rewrite !blocks_on_cons, H, IH1. split; [done|].
  cbn. fold (flags_on on es) (flags_on on' es). by rewrite IH2, H.
Qed.

Lemma mount_fits_ext on on' es ms f : (∀ p, on p = on' p) → mount_fits on es ms f ↔ mount_fits on' es ms f.
Proof.
  intros H. unfold mount_fits. destruct (on_ext on on' 1 es H) as [_ ->].
  assert (peak on (f_bsize f) ms = peak on' (f_bsize f) ms) as ->; [|done].
  induction ms as [|m ms IH]; [done|]. rewrite !peak_cons, IH. by destruct (on_ext on on' (f_bsize f) m H) as [-> _].
Qed.

Lemma flags_on_none on es : ¬ Exists (λ e, on (le_path e) = true) es → flags_on on es = 0.
Proof.
  intros H. apply (blocks_off on 1). rewrite Forall_forall. intros e He. apply not_true_is_false. intros Ho.
  apply H, Exists_exists. eauto.
Qed.

Lemma fits_by_dir env dirs es ms :
  StronglySorted dir_before dirs →
  (∀ i d f, dirs !! i = Some d → de_statvfs env d = Some f → mount_fits (on_index dirs i) es ms f) ↔
  (∀ d f, d ∈ dirs → de_statvfs env d = Some f → mount_fits (on_dir dirs d) es ms f).
Proof.
  intros Hs. split; intros H.
  - intros d f Hd Hf. destruct (decide (Exists (λ e, on_dir dirs d (le_path e) = true) es)) as [Hx|Hn];
      [|by apply mount_fits_unused, flags_on_none].
    apply Exists_exists in Hx as (e & _ & He). apply bool_decide_eq_true in He.
    rewrite sorted_mount_of in He by done. destruct (mount_index dirs (le_path e)) as [i|] eqn:Ei; [|done].
    cbn in He. eapply mount_fits_ext; [|by apply (H i d)]. intros p. symmetry. by eapply on_index_dir.
  - intros i d f Hi Hf. destruct (decide (Exists (λ e, on_index dirs i (le_path e) = true) es)) as [Hx|Hn];
      [|by apply mount_fits_unused, flags_on_none].
    apply Exists_exists in Hx as (e & _ & He). apply bool_decide_eq_true in He.
    eapply mount_fits_ext; [|by apply (H d); [eapply list_elem_of_lookup_2|]]. intros p. by eapply on_index_dir.
Qed.

(** ** Facts: the whole check *)
Lemma added_enter env h root dbpath add : ∀ mps es ms,
  let dirs := map mount_dir mps in
  Forall (λ d, d ≠ []) dirs → (∀ d f, de_statvfs env d = Some f → 0 < f_bsize f < 2 ^ 63) →
  tracks env dirs es ms mps → entries_fit (es ++ flat_map (package_entries env h root dbpath) add) →
  ∃ mps', added_packages env h root dbpath add mps = Some mps' ∧
    tracks env dirs (es ++ flat_map (package_entries env h root dbpath) add)
      (ms ++ map (λ k, es ++ flat_map (package_entries env h root dbpath) (take k add)) (seq 1 (length add))) mps'.
Proof.
  induction add as [|p add IH]; intros mps es ms dirs Hd Hb Ht Hfit.
  { exists mps. split; [done|]. cbn. by rewrite !app_nil_r. }
  cbn [flat_map] in Hfit |- *. rewrite app_assoc in Hfit |- *. destruct (entries_fit_app _ _ Hfit) as [Hf1 _].
  destruct (enter_all_tracks env dirs Hd Hb (package_entries env h root dbpath p) es ms mps Ht Hf1) as (mps1 & He & Ht1).
  assert (added_packages env h root dbpath (p :: add) mps = added_packages env h root dbpath add (map raise_max mps1)) as ->.
  { cbn [added_packages]. unfold package_entries in He. rewrite enter_all_app in He.
    destruct (alpm_db_get_pkgfromcache _ _) as [local_pkg|]; [rewrite removed_enter|];
      (destruct (enter_all env mps _) as [mps2|] eqn:E2; [|done]); cbn [mbind option_bind] in He |- *.
    - by rewrite installed_enter, He.
    - injection E2 as <-. by rewrite installed_enter, He. }
  apply raise_tracks in Ht1. pose proof (tr_dirs _ _ _ _ _ Ht1) as Hd1. cbn zeta in IH.
  destruct (IH (map raise_max mps1) (es ++ package_entries env h root dbpath p) (ms ++ [es ++ package_entries env h root dbpath p]))
    as (mps2 & Ha & Ht2); rewrite ?Hd1; try done.
  exists mps2. split; [done|]. rewrite Hd1 in Ht2. cbn [length seq map take flat_map]. rewrite app_nil_r.
  rewrite <-(app_assoc ms) in Ht2. cbn [app] in Ht2. rewrite <-seq_shift, map_map. cbn [take flat_map].
  erewrite (map_ext (λ x, es ++ _ ++ _)); [exact Ht2|]. intros k. by rewrite app_assoc.
Qed.

Definition trans_entries (env : disk_env) (h : alpm_handle_t) (root dbpath : cstr) (trans : alpm_trans_t) (k : nat)
    : list ledger_entry :=
  removal_entries env root (t_remove trans) ++ flat_map (package_entries env h root dbpath) (take k (t_add trans)).

Definition entry_kind (e : ledger_entry) : Prop :=
  (le_sign e = 1 ∧ le_flag e = USED_INSTALL) ∨ (le_sign e = -1 ∧ le_flag e = USED_REMOVE).

Lemma removed_kind env root files : Forall entry_kind (removed_entries env root files).
Proof.
  apply Forall_forall. intros e (f & _ & H)%list_elem_of_omap. cbn in H. destruct (de_lstat env _) as [[mode size]|]; [|done].
  destruct (_ || _); [done|]. injection H as <-. by right.
Qed.

Lemma trans_kind env h root dbpath trans k : Forall entry_kind (trans_entries env h root dbpath trans k).
Proof.
  unfold trans_entries. apply Forall_app. split; apply Forall_flat_map, Forall_forall.
  - intros p _. apply removed_kind.
  - intros p _. unfold package_entries. apply Forall_app. split; [case_if; [apply removed_kind|constructor]|].
    apply Forall_forall. intros e (f & _ & H)%list_elem_of_omap. destruct (_ || _); [done|]. injection H as <-. by left.
Qed.

Lemma flags_on_spec on es : Forall entry_kind es →
  (flags_on on es ≠ 0 ↔ Exists (λ e, on (le_path e) = true) es) ∧
  (has_flag (flags_on on es) USED_INSTALL = true ↔ Exists (λ e, on (le_path e) = true ∧ le_sign e = 1) es).
Proof.
  induction 1 as [|e es He _ [IH1 IH2]]; [rewrite !Exists_nil; by split|]. rewrite !Exists_cons, <-IH1, <-IH2.
  cbn [flags_on foldr]. fold (flags_on on es). unfold has_flag. rewrite Z.land_lor_distr_l, !negb_true_iff, !Z.eqb_neq.
  rewrite !Z.lor_eq_0_iff. destruct (on (le_path e)); [|rewrite Z.land_0_l; naive_solver].
  destruct He as [[-> ->]|[-> ->]]; unfold USED_INSTALL, USED_REMOVE; cbn.
  - destruct (Z.eq_dec (flags_on on es) 0), (Z.eq_dec (Z.land (flags_on on es) 2) 0); naive_solver lia.
  - destruct (Z.eq_dec (flags_on on es) 0), (Z.eq_dec (Z.land (flags_on on es) 2) 0); naive_solver lia.
Qed.

(** What is assumed of the system: mount points have names, block sizes are not
    zero, and all numbers fit their types. *)
Record disk_ok (env : disk_env) : Prop := {
  dk_names : Forall (λ d, d ≠ []) (mount_dirs env);
  dk_statvfs : ∀ d f, de_statvfs env d = Some f → 0 < f_bsize f < 2 ^ 63 ∧ 0 <= f_blocks f < 2 ^ 64
}.

Definition sizes_fit (es : list ledger_entry) : Prop :=
  Forall (λ e, 0 <= le_size e) es ∧ foldr (λ e n, le_size e + n) 0 es < 2 ^ 62.

(** The condition on the free space: no mount point that the transaction changes
    is read-only, and after each package the blocks needed so far, and the
    cushion, are free on every mount point that files are installed on. *)
Definition space_suffices (env : disk_env) (entries : nat → list ledger_entry) (n : nat) : Prop :=
  ∀ d f, d ∈ mount_dirs env → de_statvfs env d = Some f →
    let on := on_dir (mount_dirs env) d in
    (Exists (λ e, on (le_path e) = true) (entries n) → f_rdonly f = false) ∧
    (Exists (λ e, on (le_path e) = true ∧ le_sign e = 1) (entries n) →
     ∀ k, (0 < k <= n)%nat → Z.max 0 (blocks_on on (f_bsize f) (entries k)) + cushion f <= f_bavail f).

Lemma fits_suffices env h root dbpath trans dirs :
  dirs ≡ₚ mount_dirs env →
  let entries := trans_entries env h root dbpath trans in
  let n := length (t_add trans) in
  (∀ d f, d ∈ dirs → de_statvfs env d = Some f → mount_fits (on_dir dirs d) (entries n) (map entries (seq 1 n)) f) ↔
  space_suffices env entries n.
Proof.
  intros Hp entries n. unfold space_suffices, mount_fits.
  assert (∀ d p, on_dir dirs d p = on_dir (mount_dirs env) d p) as Hon by (intros; apply bool_decide_ext; by rewrite Hp).
  assert (∀ d f es, blocks_on (on_dir dirs d) (f_bsize f) es = blocks_on (on_dir (mount_dirs env) d) (f_bsize f) es ∧
    flags_on (on_dir dirs d) es = flags_on (on_dir (mount_dirs env) d) es) as Hx by (intros; by apply on_ext).
  apply forall_proper; intros d. apply forall_proper; intros f.
  assert (d ∈ dirs ↔ d ∈ mount_dirs env) as Hin by by rewrite Hp.
  destruct (flags_on_spec (on_dir (mount_dirs env) d) (entries n) (trans_kind _ _ _ _ _ _)) as [<- <-].
  destruct (Hx d f (entries n)) as [_ ->].
  enough (has_flag (flags_on (on_dir (mount_dirs env) d) (entries n)) USED_INSTALL = true →
    peak (on_dir dirs d) (f_bsize f) (map entries (seq 1 n)) + cushion f <= f_bavail f ↔
    ∀ k, (0 < k <= n)%nat → Z.max 0 (blocks_on (on_dir (mount_dirs env) d) (f_bsize f) (entries k)) + cushion f <= f_bavail f)
    by naive_solver.
  intros Hi. assert (∀ p, p + cushion f <= f_bavail f ↔ p <= f_bavail f - cushion f) as Hle by lia.
  rewrite Hle, peak_le, Forall_map, Forall_forall. setoid_rewrite Hle. setoid_rewrite Z.max_lub_iff.
  setoid_rewrite elem_of_seq. split.
  - intros [H0 H] k Hk. split; [done|]. destruct (Hx d f (entries k)) as [<- _]. apply H. lia.
  - intros H. assert (0 < n)%nat as Hn.
    { destruct n eqn:En; [|lia]. exfalso. apply (flags_on_spec _ _ (trans_kind _ _ _ _ _ _)) in Hi.
      apply Exists_exists in Hi as (e & He & _ & Hs). unfold entries, trans_entries in He. cbn in He. rewrite app_nil_r in He.
      unfold removal_entries in He. apply list_elem_of_In, in_flat_map in He as (q & _ & He%list_elem_of_In).
      apply list_elem_of_omap in He as (g & _ & He). cbn in He. destruct (de_lstat env _) as [[mode size]|]; [|done].
      destruct (_ || _); [done|]. by injection He as <-. }
    split; [apply (H 1%nat); lia|]. intros k Hk. destruct (Hx d f (entries k)) as [-> _]. apply H. lia.
Qed.

Section whole.
Context (env : disk_env) (h : alpm_handle_t) (root dbpath : cstr) (trans : alpm_trans_t).
Context (Hok : disk_ok env).
Context (Hsizes : sizes_fit (trans_entries env h root dbpath trans (length (t_add trans)))).

Lemma mount_names : Forall (λ d, d ≠ []) (map mount_dir (mount_point_list env)).
Proof. destruct (mount_list_spec env) as (Hp & _). rewrite Hp. apply Hok. Qed.

Lemma new_tracks : tracks env (map mount_dir (mount_point_list env)) [] [] (mount_point_list env).
Proof.
  split; [done|]. intros i mp Hi. destruct (mount_list_spec env) as (_ & _ & Hnew). rewrite (Hnew i mp Hi).
  unfold tracked. cbn. by destruct (de_statvfs env (mount_dir mp)).
Qed.

Lemma all_entries :
  removal_entries env root (t_remove trans) ++ flat_map (package_entries env h root dbpath) (t_add trans) =
  trans_entries env h root dbpath trans (length (t_add trans)).
Proof. unfold trans_entries. by rewrite firstn_all. Qed.

Lemma all_fit k : entries_fit (trans_entries env h root dbpath trans k).
Proof.
  assert (entries_fit (trans_entries env h root dbpath trans (length (t_add trans)))) as Hall.
  { destruct Hsizes as [H1 H2]. split; [|done]. pose proof (trans_kind env h root dbpath trans (length (t_add trans))) as H3.
    rewrite Forall_forall in *. intros e He. split; [auto|]. destruct (H3 e He) as [[? _]|[? _]]; auto. }
  rewrite <-all_entries in Hall. rewrite <-(take_drop k (t_add trans)), flat_map_app, app_assoc in Hall.
  by apply entries_fit_app in Hall as [? _].
Qed.

Lemma decide_spec :
  ∃ error, (mount_points ← removed_packages env root (t_remove trans) (mount_point_list env);
            mount_points ← added_packages env h root dbpath (t_add trans) mount_points;
            check_mount_points mount_points false) = Some error ∧
  (error = false ↔ space_suffices env (trans_entries env h root dbpath trans) (length (t_add trans))).
Proof.
  set (mps := mount_point_list env). set (dirs := map mount_dir mps).
  destruct (mount_list_spec env) as (Hp & Hsort & _). fold mps dirs in Hp, Hsort.
  assert (∀ d f, de_statvfs env d = Some f → 0 < f_bsize f < 2 ^ 63) as Hb by (intros; by eapply Hok).
  pose proof mount_names as Hn. fold mps dirs in Hn.
  destruct (enter_all_tracks env dirs Hn Hb (removal_entries env root (t_remove trans)) [] [] mps) as (mps1 & E1 & T1).
  { apply new_tracks. }
  { pose proof (all_fit 0) as H0. unfold trans_entries in H0. cbn [take flat_map] in H0. by rewrite app_nil_r in H0. }
  rewrite removal_enter, E1. cbn [mbind option_bind app] in T1 |- *. pose proof (tr_dirs _ _ _ _ _ T1) as Hd1.
  destruct (added_enter env h root dbpath (t_add trans) mps1 (removal_entries env root (t_remove trans)) []) as (mps2 & E2 & T2);
    rewrite ?Hd1; [done|done|done| |].
  { rewrite all_entries. apply all_fit. }
  rewrite E2. cbn [mbind option_bind app] in T2 |- *. rewrite Hd1, all_entries in T2.
  change (tracks env dirs (trans_entries env h root dbpath trans (length (t_add trans)))
    (map (trans_entries env h root dbpath trans) (seq 1 (length (t_add trans)))) mps2) in T2.
  assert (Forall entries_fit (map (trans_entries env h root dbpath trans) (seq 1 (length (t_add trans))))) as Hms.
  { apply Forall_map, Forall_forall. intros k _. apply all_fit. }
  pose proof (λ i mp Hi, tracked_point env (dk_statvfs env Hok) dirs _ _ i mp Hms (tr_mounts _ _ _ _ _ T2 i mp Hi)) as Hpt.
  destruct (check_mount_points_spec mps2 false) as (b & -> & Hbd).
  { apply Forall_lookup. intros i mp Hi. apply (Hpt i mp Hi). }
  exists b. split; [done|]. rewrite Hbd, <-(fits_suffices env h root dbpath trans dirs Hp), <-fits_by_dir by done.
  rewrite Forall_lookup. split.
  - intros [_ H] i d f Hi Hf. rewrite <-(tr_dirs _ _ _ _ _ T2) in Hi at 1. rewrite list_lookup_fmap, fmap_Some in Hi.
    destruct Hi as (mp & Hi & ->). by apply (Hpt i mp Hi); [apply (H i)|].
  - intros H. split; [done|]. intros i mp Hi. apply (Hpt i mp Hi). intros f. apply H.
    rewrite <-(tr_dirs _ _ _ _ _ T2). by rewrite list_lookup_fmap, Hi.
Qed.
End whole.

(** ** Theorems *)

(** C26. The check of the disk space before a commit returns, and passes exactly when
    the mount point of the root directory is known, no mount point that the
    transaction changes is read-only, and every mount point that gets files has
    room for the blocks needed after each package, old versions and removed
    packages deducted, with the cushion. A file counts for the longest directory of
    the mount table above it. *)
Theorem check_diskspace_exact (env : disk_env) (h : alpm_handle_t) (root dbpath : cstr) (trans : alpm_trans_t) :
  h_trans h = Some trans → o_root (h_options h) = Some root → o_dbpath (h_options h) = Some dbpath →
  disk_ok env → sizes_fit (trans_entries env h root dbpath trans (length (t_add trans))) →
  ∃ h' rc, alpm_check_diskspace env h = Some (h', rc) ∧ (rc = 0 ∨ rc = -1) ∧
  (rc = 0 ↔ is_Some (mount_of (mount_dirs env) root) ∧
            space_suffices env (trans_entries env h root dbpath trans) (length (t_add trans))).
Proof.
  intros Ht Hr Hdb Hok Hs. unfold alpm_check_diskspace. rewrite Ht, Hr, Hdb. cbn [mbind option_bind].
  destruct (decide_spec env h root dbpath trans Hok Hs) as (error & Hdec & He).
  pose proof (match_index (mount_point_list env) root (mount_names env Hok)) as Hm.
  destruct (mount_list_spec env) as (Hp & Hsort & _).
  assert (mount_of (mount_dirs env) root =
          mount_index (map mount_dir (mount_point_list env)) root ≫= λ i, map mount_dir (mount_point_list env) !! i) as Hof
    by by rewrite <-Hp, sorted_mount_of.
  destruct (mount_point_list env) as [|mp mps].
  { eexists _, _. split; [done|]. split; [by right|]. rewrite Hof. split; [done|]. by intros [[] _]. }
  rewrite Hm. cbn [mbind option_bind]. destruct (mount_index _ root) as [i|] eqn:Ei.
  2: { eexists _, _. split; [done|]. split; [by right|]. rewrite Hof. split; [done|]. by intros [[] _]. }
  destruct (removed_packages _ _ _ _) as [mps1|]; [|done]. cbn [mbind option_bind] in Hdec |- *.
  destruct (added_packages _ _ _ _ _ _) as [mps2|]; [|done]. cbn [mbind option_bind] in Hdec |- *. rewrite Hdec.
  cbn [mbind option_bind]. assert (is_Some (mount_of (mount_dirs env) root)).
  { rewrite Hof. cbn [mbind option_bind]. destruct (index_below _ _ _ Ei) as (d & -> & _). by eexists. }
  destruct error; eexists _, _; (split; [done|]); (split; [by auto|]); naive_solver.
Qed.

(** A root file system and /var, the second one with [avail] free blocks. *)
Definition ex_disk (avail : Z) : disk_env :=
  mk_disk (Some [Some (str "/"); Some (str "/var"); None])
    (λ d, if streq d (str "/var") then Some (mk_statvfs 4096 100 avail false)
          else Some (mk_statvfs 1024 100000 50000 false))
    (λ p, if streq p (str "/var/old") then Some (32768, 5000) else None) (λ p, Some p).
Definition ex_disk_pkg (addr : nat) (name : cstr) (files : list alpm_file_t) : alpm_pkg_t :=
  set_files (set_name (alpm_pkg_new addr) name) files.
Definition ex_disk_handle : alpm_handle_t :=
  set_trans (Some (mk_trans 0 STATE_PREPARED [] [ex_disk_pkg 1 (str "a")
    [mk_file (str "var/data") 9000 32768; mk_file (str "usr/") 0 16384; mk_file (str "varnish") 2048 32768]]
    [ex_disk_pkg 2 (str "b") [mk_file (str "var/old") 0 0]] [])) empty_handle.

Lemma ex_disk_ok avail : disk_ok (ex_disk avail).
Proof.
  split; [by repeat constructor|]. intros d f H. unfold ex_disk, de_statvfs in H.
  destruct (streq d (str "/var")); injection H as <-; cbn; lia.
Qed.

Lemma check_diskspace_exact_witness :
  ∃ h', alpm_check_diskspace (ex_disk 7) ex_disk_handle = Some (h', 0) ∧
  is_Some (mount_of (mount_dirs (ex_disk 7)) (str "/")) ∧
  ∀ trans, h_trans ex_disk_handle = Some trans →
    space_suffices (ex_disk 7) (trans_entries (ex_disk 7) ex_disk_handle (str "/") (str "/var/lib/dulge/") trans) 1.
Proof.
  assert (∃ trans, h_trans ex_disk_handle = Some trans) as [trans Ht] by (eexists; reflexivity).
  destruct (check_diskspace_exact (ex_disk 7) ex_disk_handle (str "/") (str "/var/lib/dulge/") trans)
    as (h' & rc & E & _ & Hiff); [exact Ht|reflexivity|reflexivity|apply ex_disk_ok| |].
  { injection Ht as <-. split; [by repeat constructor|by vm_compute]. }
  assert (rc = 0) as -> by (vm_compute in E; congruence).
  exists h'. split; [exact E|]. split; [by apply Hiff|]. intros trans' Ht'.
  assert (trans' = trans) as -> by congruence. destruct (proj1 Hiff eq_refl) as [_ H]. injection Ht as <-. exact H.
Defined.

(** With one block less the partition is too full: 9000 bytes are three blocks,
    the removed file frees two, and the cushion is six. *)
Example disk_full : alpm_check_diskspace (ex_disk 6) ex_disk_handle = Some (set_errno ALPM_ERR_DISK_SPACE ex_disk_handle, -1).
Proof. vm_compute. reflexivity. Qed.

(** The space of the database entry is looked up as root followed by the absolute
    dbpath: with the root directory / it counts for the root file system, although
    the database is on /var. *)
Example database_on_wrong_mount :
  mount_of (mount_dirs (ex_disk 7)) (full_path (str "/") (str "/var/lib/dulge/")) = Some (str "/") ∧
  mount_of (mount_dirs (ex_disk 7)) (str "/var/lib/dulge/") = Some (str "/var").
Proof. vm_compute. done. Qed.

(** ** The space for downloads *)

(** The blocks that a download counts for a file: those of the file, and one
    more when fewer than two bytes of the last block stay free. *)
Definition download_need (bsize : Z) (sizes : list Z) : Z :=
  foldr (λ size n, (size + bsize + 1) / bsize + n) 0 sizes.

Lemma download_need_pos bsize sizes :
  0 < bsize → Forall (λ s, 0 <= s < 2 ^ 62) sizes → 0 <= download_need bsize sizes.
Proof.
  intros Hb. induction 1 as [|s sizes Hs _ IH]; [done|]. cbn [download_need foldr]. fold (download_need bsize sizes).
  pose proof (Z.div_pos (s + bsize + 1) bsize). lia.
Qed.

Lemma download_blocks_spec bsize sizes needed :
  0 < bsize < 2 ^ 62 → 0 <= needed → Forall (λ s, 0 <= s < 2 ^ 62) sizes → needed + download_need bsize sizes < 2 ^ 63 →
  download_blocks bsize sizes needed = Some (needed + download_need bsize sizes).
Proof.
  intros Hb Hn Hs. revert needed Hn. induction Hs as [|s sizes Hs Hl IH]; intros needed Hn Hlt;
    [cbn; f_equal; lia|].
  cbn [download_need foldr] in Hlt |- *. fold (download_need bsize sizes) in *. cbn [download_blocks].
  destruct (Z.eqb_spec bsize 0); [lia|]. unfold wrap64. rewrite Z.mod_small by lia.
  pose proof (Z.div_pos (s + bsize + 1) bsize). pose proof (download_need_pos bsize sizes ltac:(lia) Hl).
  rewrite to_int64_small by lia. rewrite IH by lia. f_equal. lia.
Qed.

(** The check before a download passes exactly when the mount point of the cache
    directory is known, can be queried, and has the blocks of the files and the
    cushion free. *)
Theorem check_downloadspace_exact (env : disk_env) (h : alpm_handle_t) (cachedir : cstr) (sizes : list Z) :
  disk_ok env → (∀ d f, de_statvfs env d = Some f → f_bsize f < 2 ^ 62 ∧ download_need (f_bsize f) sizes < 2 ^ 62) →
  Forall (λ s, 0 <= s < 2 ^ 62) sizes →
  ∃ h' rc, alpm_check_downloadspace env h cachedir sizes = Some (h', rc) ∧ (rc = 0 ∨ rc = -1) ∧
  (rc = 0 ↔ ∃ d f, mount_of (mount_dirs env) (default cachedir (de_realpath env cachedir)) = Some d ∧
                   de_statvfs env d = Some f ∧ download_need (f_bsize f) sizes + cushion f <= f_bavail f).
Proof.
  intros Hok Hbig Hs. unfold alpm_check_downloadspace. set (path := default _ _).
  pose proof (match_index (mount_point_list env) path (mount_names env Hok)) as Hm.
  destruct (mount_list_spec env) as (Hp & Hsort & Hnew).
  assert (mount_of (mount_dirs env) path =
          mount_index (map mount_dir (mount_point_list env)) path ≫= λ i, map mount_dir (mount_point_list env) !! i) as ->
    by by rewrite <-Hp, sorted_mount_of.
  assert (∀ h : alpm_handle_t, ∃ h' rc, Some (h, -1) = Some (h', rc) ∧ (rc = 0 ∨ rc = -1) ∧ (rc = 0 ↔ False)) as Hfail
    by (intros; eexists _, _; split_and!; [done|by right|by split]).
  assert (∀ (P Q : Prop) (X : option (alpm_handle_t * Z)), (P ↔ Q) →
    (∃ h' rc, X = Some (h', rc) ∧ (rc = 0 ∨ rc = -1) ∧ (rc = 0 ↔ Q)) →
    ∃ h' rc, X = Some (h', rc) ∧ (rc = 0 ∨ rc = -1) ∧ (rc = 0 ↔ P)) as Hiff.
  { intros P Q X HPQ (h' & rc & H1 & H2 & H3). exists h', rc. split_and!; [done|done|]. by rewrite HPQ. }
  destruct (mount_point_list env) as [|mp0 mps] eqn:El.
  { eapply Hiff; [|apply Hfail]. split; [by intros (? & ? & ? & _)|done]. }
  rewrite <-El in *. clear El. rewrite Hm. cbn [mbind option_bind]. destruct (mount_index _ path) as [i|] eqn:Ei; cbn [mbind option_bind].
  2: { eapply Hiff; [|apply Hfail]. split; [by intros (? & ? & ? & _)|done]. }
  destruct (index_mount _ _ path i eq_refl Ei) as [mp Hi]. rewrite Hi. cbn [mbind option_bind].
  change (map mount_dir (mount_point_list env) !! i) with ((mount_dir <$> mount_point_list env) !! i).
  rewrite list_lookup_fmap, Hi, (Hnew i mp Hi). cbn [fmap option_fmap option_map mount_dir new_mountpoint fsinfo_loaded].
  unfold mount_point_load_fsinfo. change (mount_dir (new_mountpoint (mount_dir mp))) with (mount_dir mp).
  destruct (de_statvfs env (mount_dir mp)) as [f|] eqn:Ef; cbn [Z.eqb negb].
  2: { eapply Hiff; [|apply Hfail]. split; [|done]. intros (? & ? & [= <-] & ? & _). congruence. }
  destruct (Hbig _ _ Ef) as [Hb1 Hb2]. destruct (dk_statvfs env Hok _ _ Ef) as [Hb3 _].
  pose proof (download_need_pos (f_bsize f) sizes ltac:(lia) Hs).
  cbn [fsp set_fsinfo new_mountpoint max_blocks_needed]. rewrite download_blocks_spec by (done || lia). cbn [mbind option_bind].
  rewrite (check_mountpoint_spec env (dk_statvfs env Hok) (mount_dir mp) f)
    by (done || (cbn [max_blocks_needed set_max]; lia)).
  cbn [mbind option_bind max_blocks_needed set_max].
  destruct (Z.ltb_spec (f_bavail f) (0 + download_need (f_bsize f) sizes + cushion f)); eexists _, _;
    (split; [done|]); (split; [by auto|]).
  - split; [done|]. intros (? & f' & [= <-] & ? & ?). assert (f' = f) as -> by congruence. lia.
  - split; [|done]. intros _. exists (mount_dir mp), f. split_and!; [done|done|lia].
Qed.

(** The rounding of downloads counts a block too much: a file of one block needs
    two, an empty file one. *)
Example download_rounding : download_need 4096 [4096] = 2 ∧ download_need 4096 [0] = 1 ∧ ceil_div 4096 4096 = 1.
Proof. vm_compute. done. Qed.
