(* ===== verification/LocalDb.v ===== *)
(** * The local database on disk

    lib/libalpm/be_local.c: reading and writing the entry of an installed
    package (the files desc and files of its directory), creating and removing
    entries, and building the package cache from the directory. A FILE is a
    stream of bytes with its end-of-file flag and the caller's line buffer of
    1024 bytes; files hold no NUL byte. Errors while reading or writing an open
    file are not modelled (the writer does not look for them). The paths are
    those of [FileOps]; [dbpath] is what _alpm_db_path returns, with its final
    slash. *)
From S2P Require Import Prelude CString AlpmList Util Package PkgHash PkgSet Handle Deps FileList.
From S2P Require Import Db FileOps.
Local Open Scope Z_scope.

Definition ALPM_PKG_VALIDATION_NONE := Z.shiftl 1 0.
Definition ALPM_PKG_VALIDATION_SHA256SUM := Z.shiftl 1 2.
Definition ALPM_PKG_VALIDATION_SIGNATURE := Z.shiftl 1 3.

(** ** Numbers *)
Definition newline : ascii := "010"%char.

(** printf %jd *)
Definition itoa (n : Z) : cstr := if n <? 0 then "-"%char :: utoa (- n) else utoa n.

(** _alpm_parsedate: strtoll of the whole line, 0 for anything else. *)
Definition parse_sign (s : cstr) : Z * cstr :=
  match s with
  | c :: t => if Ascii.eqb c "-"%char then (-1, t) else if Ascii.eqb c "+"%char then (1, t) else (1, s)
  | [] => (1, [])
  end.

Definition alpm_parsedate (line : cstr) : Z :=
  let '(sign, s) := parse_sign (drop_while isspace line) in
  match take_while isdigit s with
  | [] => 0
  | digits =>
      let result := sign * digits_val digits in
      if (result <? - 2 ^ 63) || (2 ^ 63 <=? result) then 0
      else match drop_while isdigit s with [] => result | _ => 0 end
  end.

(** ** Streams *)
Record stream := mk_stream { st_rest : cstr; st_eof : bool; st_line : cstr }.

Definition LINE : nat := 1023.

(** The bytes fgets takes: at most [n], up to a newline. *)
Fixpoint take_line (n : nat) (s : cstr) : cstr * cstr :=
  match n, s with
  | S n', c :: s' => if is_newline c then ([c], s')
                     else let '(l, r) := take_line n' s' in (c :: l, r)
  | _, _ => ([], s)
  end.

(** safe_fgets(line, sizeof(line), fp): false for NULL, which leaves the buffer
    as it is. The end is noticed when a read runs into it. *)
Definition fgets (st : stream) : stream * bool :=
  match st_rest st with
  | [] => (mk_stream [] true (st_line st), false)
  | s => let '(l, r) := take_line LINE s in
         let at_end := bool_decide (r = []) && (length l <? LINE)%nat
                       && negb (is_newline (List.last l NUL)) in
         (mk_stream r (st_eof st || at_end) l, true)
  end.

Definition strip (st : stream) : stream :=
  mk_stream (st_rest st) (st_eof st) (alpm_strip_newline (st_line st)).

(** READ_NEXT *)
Definition read_next (st : stream) : stream := strip (fgets st).1.

(** The loop of READ_AND_STORE_ALL, READ_AND_SPLITDEP and the lists of the file
    "files": the lines up to an empty one. *)
Fixpoint read_lines (fuel : nat) (st : stream) : list cstr * stream :=
  match fuel with
  | O => ([], st)
  | S fuel' =>
      let '(st, ok) := fgets st in
      if negb ok then ([], st)
      else
        let st := strip st in
        match st_line st with
        | [] => ([], st)
        | line => let '(lines, st) := read_lines fuel' st in (line :: lines, st)
        end
  end.

Definition read_all (st : stream) : list cstr * stream := read_lines (S (length (st_rest st))) st.

(** ** desc *)
Definition read_pkgreason (line : cstr) : alpm_pkgreason_t :=
  if streq line (str "0") then ALPM_PKG_REASON_EXPLICIT
  else if streq line (str "1") then ALPM_PKG_REASON_DEPEND
  else ALPM_PKG_REASON_UNKNOWN.

Definition read_validation (validation : Z) (line : cstr) : Z :=
  if streq line (str "none") then Z.lor validation ALPM_PKG_VALIDATION_NONE
  else if streq line (str "sha256") then Z.lor validation ALPM_PKG_VALIDATION_SHA256SUM
  else if streq line (str "pgp") then Z.lor validation ALPM_PKG_VALIDATION_SIGNATURE
  else validation.

(** The loop over the lines of %XDATA%; false when one does not parse. *)
Fixpoint read_xdata (lines : list cstr) (info : alpm_pkg_t) : alpm_pkg_t * bool :=
  match lines with
  | [] => (info, true)
  | l :: lines' =>
      match alpm_pkg_parse_xdata (Some l) with
      | None => (info, false)
      | Some pd => read_xdata lines' (set_xdata info (pkg_xdata info ++ [pd]))
      end
  end.

(** What is done with the lines after a key. *)
Inductive desc_key :=
  | KCheck                                                    (* read and compared *)
  | KText (set : alpm_pkg_t → option cstr → alpm_pkg_t)       (* READ_AND_STORE *)
  | KDate (set : alpm_pkg_t → Z → alpm_pkg_t)
  | KSize
  | KReason
  | KValidation
  | KLines (get : alpm_pkg_t → list cstr) (set : alpm_pkg_t → list cstr → alpm_pkg_t)
  | KDeps (get : alpm_pkg_t → list alpm_depend_t)
      (set : alpm_pkg_t → list alpm_depend_t → alpm_pkg_t)    (* READ_AND_SPLITDEP *)
  | KXdata
  | KUnknown.

Definition desc_keys : list (cstr * desc_key) :=
  [(str "%NAME%", KCheck); (str "%VERSION%", KCheck);
   (str "%BASE%", KText set_base); (str "%DESC%", KText set_desc);
   (str "%GROUPS%", KLines pkg_groups set_groups);
   (str "%URL%", KText set_url);
   (str "%LICENSE%", KLines pkg_licenses set_licenses);
   (str "%ARCH%", KText set_arch);
   (str "%BUILDDATE%", KDate set_builddate); (str "%INSTALLDATE%", KDate set_installdate);
   (str "%PACKAGER%", KText set_packager);
   (str "%REASON%", KReason); (str "%VALIDATION%", KValidation); (str "%SIZE%", KSize);
   (str "%REPLACES%", KDeps pkg_replaces set_replaces);
   (str "%DEPENDS%", KDeps pkg_depends set_depends);
   (str "%OPTDEPENDS%", KDeps pkg_optdepends set_optdepends);
   (str "%MAKEDEPENDS%", KDeps pkg_makedepends set_makedepends);
   (str "%CHECKDEPENDS%", KDeps pkg_checkdepends set_checkdepends);
   (str "%CONFLICTS%", KDeps pkg_conflicts set_conflicts);
   (str "%PROVIDES%", KDeps pkg_provides set_provides);
   (str "%XDATA%", KXdata)].

(** The chain of comparisons with the keys. *)
Definition desc_key_of (line : cstr) : desc_key :=
  match find_first (λ e, streq line e.1) desc_keys with
  | Some (_, k) => k
  | None => KUnknown
  end.

Definition read_key (k : desc_key) (st : stream) (info : alpm_pkg_t)
    : stream * alpm_pkg_t * bool :=
  match k with
  | KCheck => (read_next st, info, true)
  | KText set => let st := read_next st in (st, set info (Some (st_line st)), true)
  | KDate set => let st := read_next st in (st, set info (alpm_parsedate (st_line st)), true)
  | KSize => let st := read_next st in (st, set_isize info (alpm_strtoofft (st_line st)), true)
  | KReason => let st := read_next st in (st, set_reason info (read_pkgreason (st_line st)), true)
  | KValidation =>
      let '(v, st) := read_all st in
      (st, set_validation info (fold_left read_validation v (pkg_validation info)), true)
  | KLines get set => let '(l, st) := read_all st in (st, set info (get info ++ l), true)
  | KDeps get set =>
      let '(l, st) := read_all st in (st, set info (get info ++ map alpm_dep_from_string l), true)
  | KXdata => let '(l, st) := read_all st in
              let '(info, ok) := read_xdata l info in (st, info, ok)
  | KUnknown => ((read_all st).2, info, true)
  end.

(** The loop while(!feof(fp)); [None]: the fuel is used up. *)
Fixpoint read_desc (fuel : nat) (st : stream) (info : alpm_pkg_t) : option (alpm_pkg_t * bool) :=
  if st_eof st then Some (info, true)
  else
    match fuel with
    | O => None
    | S fuel' =>
        let st := strip (fgets st).1 in
        match st_line st with
        | [] => read_desc fuel' st info
        | line =>
            let '(st, info, ok) := read_key (desc_key_of line) st info in
            if ok then read_desc fuel' st info else Some (info, false)
        end
    end.

(** ** files *)
Definition new_file (name : cstr) : alpm_file_t := mk_file name 0 0.

(** The loop over the file "files"; [None]: the fuel is used up. *)
Fixpoint read_files (fuel : nat) (st : stream) (info : alpm_pkg_t) : option alpm_pkg_t :=
  match fuel with
  | O => None
  | S fuel' =>
      let '(st, ok) := fgets st in
      if negb ok then Some info
      else
        let st := strip st in
        if streq (st_line st) (str "%FILES%") then
          let '(names, st) := read_all st in
          read_files fuel' st (set_files info (alpm_filelist_sort (map new_file names)))
        else if streq (st_line st) (str "%BACKUP%") then
          let '(lines, st) := read_all st in
          read_files fuel' st (set_backup info (pkg_backup info ++ map alpm_split_backup lines))
        else read_files fuel' st info
  end.

(** The package that local_db_populate makes of the name of a directory; its
    other fields are those of a new package. *)
Definition db_entry (addr : nat) (treename name version : cstr) (name_hash : Z) : alpm_pkg_t :=
  set_origin (set_name_hash (set_version (set_name (alpm_pkg_new addr) name) version) name_hash)
    (ALPM_PKG_FROM_LOCALDB treename).

Section local.
Context (sys : os) (dbpath : cstr).

(** ** local_db_read *)

(** _alpm_local_db_pkgpath; without a file name it ends in a slash. *)
Definition alpm_local_db_pkgpath (info : alpm_pkg_t) (filename : option cstr) : cstr :=
  dbpath ++ pkg_name info ++ str "-" ++ pkg_version info ++ str "/"
  ++ match filename with Some f => f | None => [] end.

Definition open_stream (data : cstr) : stream := mk_stream data false [].

(** The loops have fuel for one step per byte and two at the end. *)
Definition read_fuel (data : cstr) : nat := length data + 2.

(** The parts of local_db_read; the result [false] is the jump to error. A
    directory can be opened, but not read. *)
Definition db_read_desc (fs : fsys) (info : alpm_pkg_t) : option (alpm_pkg_t * bool) :=
  match fs !! alpm_local_db_pkgpath info (Some (str "desc")) with
  | Some (NFile data) =>
      '(info, ok) ← read_desc (read_fuel data) (open_stream data) info;
      if ok : bool then Some (set_infolevel info (Z.lor (pkg_infolevel info) INFRQ_DESC), true)
      else Some (info, false)
  | _ => Some (info, false)
  end.

Definition db_read_files (fs : fsys) (info : alpm_pkg_t) : option (alpm_pkg_t * bool) :=
  let done_ info := Some (set_infolevel info (Z.lor (pkg_infolevel info) INFRQ_FILES), true) in
  match fs !! alpm_local_db_pkgpath info (Some (str "files")) with
  | Some (NFile data) => info ← read_files (read_fuel data) (open_stream data) info; done_ info
  | Some NDir => done_ info
  | None => Some (info, false)
  end.

Definition db_read_scriptlet (fs : fsys) (info : alpm_pkg_t) : option (alpm_pkg_t * bool) :=
  let info := match fs !! alpm_local_db_pkgpath info (Some (str "install")) with
              | Some _ => set_scriptlet info 1
              | None => info
              end in
  Some (set_infolevel info (Z.lor (pkg_infolevel info) INFRQ_SCRIPTLET), true).

(** if(inforeq & level && !(info->infolevel & level)) *)
Definition when_missing (inforeq level : Z) (f : alpm_pkg_t → option (alpm_pkg_t * bool))
    (r : option (alpm_pkg_t * bool)) : option (alpm_pkg_t * bool) :=
  '(info, ok) ← r;
  if ok && has_flag inforeq level && negb (has_flag (pkg_infolevel info) level)
  then f info else Some (info, ok).

Definition local_db_read (fs : fsys) (info : alpm_pkg_t) (inforeq : Z)
    : option (alpm_pkg_t * Z) :=
  if Z.land (pkg_infolevel info) inforeq =? inforeq then Some (info, 0)
  else if has_flag (pkg_infolevel info) INFRQ_ERROR then Some (info, -1)
  else
    '(info, ok) ← when_missing inforeq INFRQ_SCRIPTLET (db_read_scriptlet fs)
                    (when_missing inforeq INFRQ_FILES (db_read_files fs)
                       (when_missing inforeq INFRQ_DESC (db_read_desc fs) (Some (info, true))));
    if ok : bool then Some (info, 0)
    else Some (set_infolevel info (Z.lor (pkg_infolevel info) INFRQ_ERROR), -1).

(** ** The accessors: LAZY_LOAD, then the field *)
Definition lazy_load (fs : fsys) (level : Z) (pkg : alpm_pkg_t) : option alpm_pkg_t :=
  if negb (has_flag (pkg_infolevel pkg) level) then fst <$> local_db_read fs pkg level
  else Some pkg.

Definition cache_get {A} (level : Z) (field : alpm_pkg_t → A) (fs : fsys) (pkg : alpm_pkg_t)
    : option (alpm_pkg_t * A) :=
  (λ pkg, (pkg, field pkg)) <$> lazy_load fs level pkg.

Definition cache_get_base := cache_get INFRQ_DESC pkg_base.
Definition cache_get_desc := cache_get INFRQ_DESC pkg_desc.
Definition cache_get_url := cache_get INFRQ_DESC pkg_url.
Definition cache_get_builddate := cache_get INFRQ_DESC pkg_builddate.
Definition cache_get_installdate := cache_get INFRQ_DESC pkg_installdate.
Definition cache_get_packager := cache_get INFRQ_DESC pkg_packager.
Definition cache_get_arch := cache_get INFRQ_DESC pkg_arch.
Definition cache_get_isize := cache_get INFRQ_DESC pkg_isize.
Definition cache_get_reason := cache_get INFRQ_DESC pkg_reason.
Definition cache_get_validation := cache_get INFRQ_DESC pkg_validation.
Definition cache_get_licenses := cache_get INFRQ_DESC pkg_licenses.
Definition cache_get_groups := cache_get INFRQ_DESC pkg_groups.
Definition cache_has_scriptlet := cache_get INFRQ_SCRIPTLET pkg_scriptlet.
Definition cache_get_depends := cache_get INFRQ_DESC pkg_depends.
Definition cache_get_optdepends := cache_get INFRQ_DESC pkg_optdepends.
Definition cache_get_makedepends := cache_get INFRQ_DESC pkg_makedepends.
Definition cache_get_checkdepends := cache_get INFRQ_DESC pkg_checkdepends.
Definition cache_get_conflicts := cache_get INFRQ_DESC pkg_conflicts.
Definition cache_get_provides := cache_get INFRQ_DESC pkg_provides.
Definition cache_get_replaces := cache_get INFRQ_DESC pkg_replaces.
Definition cache_get_files := cache_get INFRQ_FILES pkg_files.
Definition cache_get_backup := cache_get INFRQ_FILES pkg_backup.
Definition cache_get_xdata := cache_get INFRQ_DESC pkg_xdata.

Definition cache_force_load (fs : fsys) (pkg : alpm_pkg_t) : option (alpm_pkg_t * Z) :=
  local_db_read fs pkg INFRQ_ALL.

(** ** Writing an entry *)

(** A key, its lines and an empty line. *)
Definition section (key : cstr) (lines : list cstr) : cstr :=
  key ++ newline :: flat_map (λ l, l ++ [newline]) lines ++ [newline].

(** if(x) fprintf(...) *)
Definition write_text (key : cstr) (x : option cstr) : cstr :=
  match x with Some v => section key [v] | None => [] end.
Definition write_number (key : cstr) (n : Z) : cstr :=
  if n =? 0 then [] else section key [itoa n].
Definition write_lines (key : cstr) (l : list cstr) : cstr :=
  match l with [] => [] | _ => section key l end.

Definition write_deps (header : cstr) (deplist : list alpm_depend_t) : cstr :=
  match deplist with
  | [] => []
  | _ => section header (map alpm_dep_compute_string deplist)
  end.

(** The numbers of alpm_pkgreason_t. *)
Definition reason_number (r : alpm_pkgreason_t) : Z :=
  match r with
  | ALPM_PKG_REASON_EXPLICIT => 0
  | ALPM_PKG_REASON_DEPEND => 1
  | ALPM_PKG_REASON_UNKNOWN => 2
  end.

Definition validation_lines (v : Z) : list cstr :=
  (if has_flag v ALPM_PKG_VALIDATION_NONE then [str "none"] else [])
  ++ (if has_flag v ALPM_PKG_VALIDATION_SHA256SUM then [str "sha256"] else [])
  ++ (if has_flag v ALPM_PKG_VALIDATION_SIGNATURE then [str "pgp"] else []).

Definition desc_text (info : alpm_pkg_t) : cstr :=
  section (str "%NAME%") [pkg_name info]
  ++ section (str "%VERSION%") [pkg_version info]
  ++ write_text (str "%BASE%") (pkg_base info)
  ++ write_text (str "%DESC%") (pkg_desc info)
  ++ write_text (str "%URL%") (pkg_url info)
  ++ write_text (str "%ARCH%") (pkg_arch info)
  ++ write_number (str "%BUILDDATE%") (pkg_builddate info)
  ++ write_number (str "%INSTALLDATE%") (pkg_installdate info)
  ++ write_text (str "%PACKAGER%") (pkg_packager info)
  ++ write_number (str "%SIZE%") (pkg_isize info)
  ++ write_number (str "%REASON%") (reason_number (pkg_reason info))
  ++ write_lines (str "%GROUPS%") (pkg_groups info)
  ++ write_lines (str "%LICENSE%") (pkg_licenses info)
  ++ (if pkg_validation info =? 0 then []
      else section (str "%VALIDATION%") (validation_lines (pkg_validation info)))
  ++ write_deps (str "%REPLACES%") (pkg_replaces info)
  ++ write_deps (str "%DEPENDS%") (pkg_depends info)
  ++ write_deps (str "%OPTDEPENDS%") (pkg_optdepends info)
  ++ write_deps (str "%CONFLICTS%") (pkg_conflicts info)
  ++ write_deps (str "%PROVIDES%") (pkg_provides info)
  ++ write_lines (str "%XDATA%") (map xdata_string (pkg_xdata info)).

(** "%s\t%s\n"; the GNU C library prints NULL as (null). *)
Definition backup_line (b : alpm_backup_t) : cstr :=
  backup_name b ++ "009"%char :: match backup_hash b with Some h => h | None => str "(null)" end.

Definition files_text (info : alpm_pkg_t) : cstr :=
  write_lines (str "%FILES%") (map file_name (pkg_files info))
  ++ write_lines (str "%BACKUP%") (map backup_line (pkg_backup info)).

(** fopen(path, "w"), writing, fclose: the directory must be there. *)
Definition write_file (fs : fsys) (path data : cstr) : option fsys :=
  match fs !! mdirname (Some path), fs !! path with
  | Some NDir, None | Some NDir, Some (NFile _) =>
      if os_denied sys path then None else Some (<[path := NFile data]> fs)
  | _, _ => None
  end.

Definition alpm_local_db_write (db : alpm_db_t) (info : alpm_pkg_t) (inforeq : Z) (fs : fsys)
    : fsys * Z :=
  if negb (has_flag (db_status db) DB_STATUS_LOCAL) then (fs, -1)
  else
    match (if has_flag inforeq INFRQ_DESC
           then write_file fs (alpm_local_db_pkgpath info (Some (str "desc"))) (desc_text info)
           else Some fs) with
    | None => (fs, -1)
    | Some fs =>
        if has_flag inforeq INFRQ_FILES then
          match write_file fs (alpm_local_db_pkgpath info (Some (str "files")))
                  (files_text info) with
          | None => (fs, -1)
          | Some fs => (fs, 0)
          end
        else (fs, 0)
    end.
End local.

(** The levels that are read from disk. *)
Definition disk_levels : Z := Z.lor INFRQ_DESC (Z.lor INFRQ_FILES INFRQ_SCRIPTLET).

(** ** Facts: lines *)

(** A line the reader takes in one piece. *)
Definition line_ok (l : cstr) : Prop := newline ∉ l ∧ (length l < LINE)%nat.

Definition line_okb (l : cstr) : bool :=
  bool_decide (newline ∉ l) && (length l <? LINE)%nat.

Lemma line_okb_ok l : line_okb l = true → line_ok l.
Proof. unfold line_okb. intros. bool_prop. done. Qed.

Lemma is_newline_true c : is_newline c = true ↔ c = newline.
Proof. apply Ascii.eqb_eq. Qed.

Lemma is_newline_false c : is_newline c = false ↔ c ≠ newline.
Proof. rewrite <-not_true_iff_false. by rewrite is_newline_true. Qed.

Lemma take_line_line n l rest :
  newline ∉ l → (length l < n)%nat → take_line n (l ++ newline :: rest) = (l ++ [newline], rest).
Proof.
  revert n. induction l as [|c l IH]; intros [|n] Hl Hn; simpl in *; try lia; [done|].
  apply not_elem_of_cons in Hl as [Hc Hl]. rewrite (proj2 (is_newline_false c)) by done.
  rewrite IH by (done || lia). done.
Qed.

Lemma take_line_app n s : let '(l, r) := take_line n s in s = l ++ r.
Proof.
  revert s. induction n as [|n IH]; intros [|c s]; simpl; [done..|].
  destruct (is_newline c); [done|]. specialize (IH s). destruct (take_line n s) as [l r]. by subst.
Qed.

Lemma take_line_long l rest :
  newline ∉ l → take_line (length l) (l ++ rest) = (l, rest).
Proof.
  induction l as [|c l IH]; intros Hl; simpl; [by destruct rest|].
  apply not_elem_of_cons in Hl as [Hc Hl]. rewrite (proj2 (is_newline_false c)) by done.
  by rewrite IH.
Qed.

Lemma strip_newline_none l : newline ∉ l → alpm_strip_newline l = l.
Proof.
  unfold alpm_strip_newline. destruct l as [|c l _] using rev_ind; [done|]. intros Hl.
  rewrite drop_while_end_snoc, (proj2 (is_newline_false c)); [done|]. set_solver.
Qed.

Lemma strip_line l : newline ∉ l → alpm_strip_newline (l ++ [newline]) = l.
Proof.
  intros Hl. unfold alpm_strip_newline. rewrite drop_while_end_snoc.
  by apply strip_newline_none.
Qed.

Lemma fgets_line l rest eof b :
  line_ok l →
  fgets (mk_stream (l ++ newline :: rest) eof b) = (mk_stream rest eof (l ++ [newline]), true).
Proof.
  intros [Hl Hn]. unfold fgets. cbn [st_rest st_eof st_line].
  destruct (l ++ newline :: rest) as [|c s] eqn:E; [by destruct l|].
  rewrite <-E, take_line_line by done.
  rewrite last_last. change (is_newline newline) with true.
  by rewrite andb_false_r, orb_false_r.
Qed.

Lemma take_line_some n c s : (take_line (S n) (c :: s)).1 ≠ [].
Proof. simpl. destruct (is_newline c); [done|]. by destruct (take_line n s). Qed.

(** fgets takes something or notices the end. *)
Lemma fgets_progress st :
  let '(st', ok) := fgets st in
  if ok then (length (st_rest st') < length (st_rest st))%nat
  else st_eof st' = true ∧ st_rest st' = [].
Proof.
  unfold fgets. destruct (st_rest st) as [|c s] eqn:E; [done|].
  pose proof (take_line_app LINE (c :: s)) as H. destruct (take_line LINE (c :: s)) as [l r] eqn:El.
  cbn [st_rest]. rewrite H, length_app. assert (l ≠ []) as Hne.
  { intros ->. apply (take_line_some 1022 c s). by apply (f_equal fst) in El. }
  destruct l; [done|simpl; lia].
Qed.

Lemma fgets_eof st : st_rest st = [] → fgets st = (mk_stream [] true (st_line st), false).
Proof. unfold fgets. by intros ->. Qed.

Lemma fgets_sticky st : st_eof st = true → st_eof (fgets st).1 = true.
Proof.
  unfold fgets. intros He. destruct (st_rest st); [done|]. rewrite He. by destruct (take_line _ _).
Qed.

Lemma read_lines_length fuel st :
  (length (st_rest (read_lines fuel st).2) <= length (st_rest st))%nat.
Proof.
  revert st. induction fuel as [|fuel IH]; intros st; simpl; [done|].
  pose proof (fgets_progress st) as Hp. destruct (fgets st) as [st' [|]] eqn:E; simpl.
  - destruct (alpm_strip_newline (st_line st')) as [|c l]; simpl; [lia|].
    specialize (IH (strip st')). destruct (read_lines fuel (strip st')) as [ls st'']. simpl in *. lia.
  - destruct Hp as [_ ->]. simpl. lia.
Qed.

Lemma empty_line_ok : line_ok [].
Proof. by apply line_okb_ok. Qed.

Lemma fgets_empty rest eof b :
  fgets (mk_stream (newline :: rest) eof b) = (mk_stream rest eof [newline], true).
Proof. exact (fgets_line [] rest eof b empty_line_ok). Qed.

(** The lines up to an empty one. *)
Lemma read_lines_section ls rest fuel b :
  Forall line_ok ls → Forall (λ l, l ≠ []) ls → (length ls < fuel)%nat →
  read_lines fuel (mk_stream (flat_map (λ l, l ++ [newline]) ls ++ newline :: rest) false b)
  = (ls, mk_stream rest false []).
Proof.
  intros Hls Hne. revert fuel b. induction ls as [|l ls IH]; intros [|fuel] b Hf; simpl in *; try lia.
  - by rewrite andb_false_r.
  - apply Forall_cons in Hls as [Hl Hls]. apply Forall_cons in Hne as [Hn Hne].
    rewrite <-!app_assoc. simpl. rewrite fgets_line by done. simpl. unfold strip. cbn [st_rest st_eof st_line].
    rewrite strip_line by apply Hl. destruct l as [|c l]; [done|].
    by rewrite IH by (done || lia).
Qed.

Lemma flat_lines_length ls :
  (length ls <= length (flat_map (λ l, l ++ [newline]) ls))%nat.
Proof. induction ls as [|l ls IH]; simpl; [done|]. rewrite !length_app. simpl. lia. Qed.

Lemma read_all_section ls rest b :
  Forall line_ok ls → Forall (λ l, l ≠ []) ls →
  read_all (mk_stream (flat_map (λ l, l ++ [newline]) ls ++ newline :: rest) false b)
  = (ls, mk_stream rest false []).
Proof.
  intros H1 H2. unfold read_all. apply read_lines_section; [done|done|]. cbn [st_rest].
  rewrite length_app. pose proof (flat_lines_length ls). simpl. lia.
Qed.

Lemma read_next_line l rest b :
  line_ok l → read_next (mk_stream (l ++ newline :: rest) false b) = mk_stream rest false l.
Proof.
  intros Hl. unfold read_next. rewrite fgets_line by done. unfold strip. simpl.
  by rewrite strip_line by apply Hl.
Qed.

(** ** Facts: the loops end *)

(** What is left to read, with the notice of the end. *)
Definition pending (st : stream) : nat := if st_eof st then 0 else S (length (st_rest st)).

Lemma pending_strip st : pending (strip st) = pending st.
Proof. done. Qed.

Lemma fgets_pending st : (pending (fgets st).1 <= pending st - 1)%nat.
Proof.
  unfold pending. pose proof (fgets_progress st) as Hp. pose proof (fgets_sticky st) as Hs.
  destruct (fgets st) as [st' [|]]; simpl in *; destruct (st_eof st); try (rewrite Hs by done; lia).
  - destruct (st_eof st'); simpl; lia.
  - destruct Hp as [-> _]. lia.
Qed.

Lemma read_lines_pending fuel st : (pending (read_lines fuel st).2 <= pending st)%nat.
Proof.
  revert st. induction fuel as [|fuel IH]; intros st; simpl; [done|].
  pose proof (fgets_pending st) as Hp. destruct (fgets st) as [st' [|]]; simpl in *; [|lia].
  destruct (alpm_strip_newline (st_line st')) as [|c l]; simpl; [rewrite pending_strip; lia|].
  specialize (IH (strip st')). rewrite pending_strip in IH.
  destruct (read_lines fuel (strip st')) as [ls st'']. simpl in *. lia.
Qed.

Lemma read_key_pending k st info : (pending (read_key k st info).1.1 <= pending st)%nat.
Proof.
  pose proof (fgets_pending st) as Hf.
  pose proof (read_lines_pending (S (length (st_rest st))) st) as Hr. fold (read_all st) in Hr.
  destruct k; cbn [read_key]; unfold read_next; try (cbn [fst]; rewrite pending_strip; lia);
    destruct (read_all st) as [l st']; simpl in *; try lia.
  by destruct (read_xdata l info).
Qed.

Lemma read_desc_total n st info : (pending st <= n)%nat → is_Some (read_desc n st info).
Proof.
  revert st info. induction n as [|n IH]; intros st info Hn; simpl.
  - unfold pending in Hn. destruct (st_eof st); [done|lia].
  - destruct (st_eof st) eqn:He; [done|].
    pose proof (fgets_pending st) as Hp. assert (1 <= pending st)%nat by (unfold pending; rewrite He; lia).
    rewrite <-(pending_strip (fgets st).1) in Hp. destruct (st_line (strip (fgets st).1)) as [|c l] eqn:El.
    + unfold strip in El. cbn in El. rewrite El. apply IH. lia.
    + unfold strip in El. cbn in El. rewrite El.
      pose proof (read_key_pending (desc_key_of (c :: l)) (strip (fgets st).1) info) as Hk.
      destruct (read_key _ _ _) as [[st' info'] [|]]; [|done]. apply IH. simpl in Hk. lia.
Qed.

Lemma read_desc_mono n m st info r :
  read_desc n st info = Some r → (n <= m)%nat → read_desc m st info = Some r.
Proof.
  revert m st info. induction n as [|n IH]; intros m st info; simpl.
  - destruct (st_eof st) eqn:He; [|done]. intros [= <-] _. destruct m; simpl; by rewrite He.
  - destruct m as [|m]; [lia|]. simpl. destruct (st_eof st); [done|]. intros H Hm.
    destruct (alpm_strip_newline (st_line (fgets st).1)).
    + apply IH; [done|lia].
    + destruct (read_key _ _ _) as [[st' info'] [|]]; [|done]. apply IH; [done|lia].
Qed.

Lemma read_files_total n st info : (length (st_rest st) < n)%nat → is_Some (read_files n st info).
Proof.
  revert st info. induction n as [|n IH]; intros st info Hn; [lia|]. cbn [read_files].
  pose proof (fgets_progress st) as Hp. destruct (fgets st) as [st' [|]]; cbn [negb]; [|done].
  pose proof (read_lines_length (S (length (st_rest (strip st')))) (strip st')) as Hr.
  fold (read_all (strip st')) in Hr. change (st_rest (strip st')) with (st_rest st') in Hr.
  destruct (streq _ _); [|destruct (streq _ _)].
  - destruct (read_all _) as [l st'']. apply IH. simpl in Hr. lia.
  - destruct (read_all _) as [l st'']. apply IH. simpl in Hr. lia.
  - apply IH. simpl. lia.
Qed.

Lemma read_files_mono n m st info r :
  read_files n st info = Some r → (n <= m)%nat → read_files m st info = Some r.
Proof.
  revert m st info. induction n as [|n IH]; intros [|m] st info; cbn [read_files]; try done; [lia|].
  intros H Hm. destruct (fgets st) as [st' [|]]; cbn [negb] in *; [|done].
  destruct (streq _ _); [|destruct (streq _ _)]; try destruct (read_all _); apply IH; done || lia.
Qed.

(** ** Facts: the sections of desc *)

(** The loop ends with this result. *)
Definition reads (st : stream) (info : alpm_pkg_t) (r : alpm_pkg_t * bool) : Prop :=
  ∃ n, read_desc n st info = Some r.

Lemma reads_enough data info r :
  reads (open_stream data) info r → read_desc (read_fuel data) (open_stream data) info = Some r.
Proof.
  intros [n Hn]. destruct (read_desc_total (read_fuel data) (open_stream data) info) as [r' Hr'].
  { unfold read_fuel, pending. cbn. lia. }
  rewrite Hr'. f_equal. eapply (read_desc_mono _ (n + read_fuel data)) in Hn; [|lia].
  eapply (read_desc_mono _ (n + read_fuel data)) in Hr'; [|lia]. congruence.
Qed.

(** The stream between two sections. *)
Definition between (rest : cstr) : stream := mk_stream rest false [].

Lemma reads_end info : reads (between []) info (info, true).
Proof. by exists 2%nat. Qed.

Lemma reads_blank rest b info r :
  reads (between rest) info r → reads (mk_stream (newline :: rest) false b) info r.
Proof.
  intros [n Hn]. exists (S n). cbn [read_desc st_eof]. rewrite fgets_empty. exact Hn.
Qed.

Lemma reads_key b key rest info st' info' r :
  line_ok key → key ≠ [] →
  read_key (desc_key_of key) (mk_stream rest false key) info = (st', info', true) →
  reads st' info' r → reads (mk_stream (key ++ newline :: rest) false b) info r.
Proof.
  intros Hk Hne Hr [n Hn]. exists (S n). cbn [read_desc st_eof].
  rewrite fgets_line by done. unfold strip. cbn [fst st_rest st_eof st_line].
  rewrite strip_line by apply Hk. destruct key as [|c key]; [done|]. by rewrite Hr.
Qed.

Section sections.
Context (key : cstr) (Hkey : line_ok key) (Hne : key ≠ []).
Implicit Types (rest : cstr) (info : alpm_pkg_t) (r : alpm_pkg_t * bool).

(** A section of one line whose reader is [f]. *)
Lemma reads_single (f : cstr → alpm_pkg_t → alpm_pkg_t) v rest info r :
  (∀ st i, read_key (desc_key_of key) st i = (read_next st, f (st_line (read_next st)) i, true)) →
  line_ok v →
  reads (between rest) (f v info) r → reads (between (section key [v] ++ rest)) info r.
Proof.
  intros Hf Hv Hr. unfold section. rewrite <-app_assoc. cbn [flat_map app]. rewrite app_nil_r.
  eapply reads_key; [done|done| |].
  - rewrite Hf. rewrite <-!app_assoc. cbn [app]. rewrite read_next_line by done. reflexivity.
  - by apply reads_blank.
Qed.

(** A section of several lines. *)
Lemma reads_multi (f : list cstr → alpm_pkg_t → alpm_pkg_t * bool) ls rest info info' r :
  (∀ st i, read_key (desc_key_of key) st i =
           ((read_all st).2, (f (read_all st).1 i).1, (f (read_all st).1 i).2)) →
  Forall line_ok ls → Forall (λ l, l ≠ []) ls → f ls info = (info', true) →
  reads (between rest) info' r → reads (between (section key ls ++ rest)) info r.
Proof.
  intros Hf Hls Hn E Hr. unfold section. rewrite <-app_assoc. cbn [app].
  eapply reads_key; [done|done| |exact Hr].
  rewrite Hf. rewrite <-app_assoc. cbn [app]. rewrite read_all_section by done. simpl. by rewrite E.
Qed.

Lemma reads_text set x rest info r :
  desc_key_of key = KText set → (x = None → set info None = info) →
  (∀ v, x = Some v → line_ok v) →
  reads (between rest) (set info x) r → reads (between (write_text key x ++ rest)) info r.
Proof.
  intros Ek Hn Hv Hr. destruct x as [v|]; simpl.
  - apply (reads_single (λ l i, set i (Some l))); [|by apply Hv|done]. intros st i. by rewrite Ek.
  - by rewrite <-(Hn eq_refl).
Qed.

Lemma reads_number (f : cstr → alpm_pkg_t → alpm_pkg_t) (g : alpm_pkg_t → alpm_pkg_t) n rest info r :
  (∀ st i, read_key (desc_key_of key) st i = (read_next st, f (st_line (read_next st)) i, true)) →
  (n = 0 → g info = info) → (n ≠ 0 → f (itoa n) info = g info) → line_ok (itoa n) →
  reads (between rest) (g info) r → reads (between (write_number key n ++ rest)) info r.
Proof.
  intros Hf H0 Hn Hv Hr. unfold write_number. destruct (Z.eqb_spec n 0) as [->|Hne0].
  - by rewrite <-(H0 eq_refl).
  - apply (reads_single f); [done|done|]. by rewrite Hn.
Qed.

Lemma reads_lines (f : list cstr → alpm_pkg_t → alpm_pkg_t * bool) (g : alpm_pkg_t → alpm_pkg_t)
    ls rest info r :
  (∀ st i, read_key (desc_key_of key) st i =
           ((read_all st).2, (f (read_all st).1 i).1, (f (read_all st).1 i).2)) →
  Forall line_ok ls → Forall (λ l, l ≠ []) ls →
  (ls = [] → g info = info) → (ls ≠ [] → f ls info = (g info, true)) →
  reads (between rest) (g info) r → reads (between (write_lines key ls ++ rest)) info r.
Proof.
  intros Hf Hls Hn H0 H1 Hr. destruct ls as [|l ls].
  - simpl. by rewrite <-(H0 eq_refl).
  - by eapply reads_multi; [..|apply H1|].
Qed.
End sections.

Lemma write_deps_lines header l :
  write_deps header l = write_lines header (map alpm_dep_compute_string l).
Proof. by destruct l. Qed.

(** ** Facts: values *)
Lemma utoa_line n : 0 <= n < 2 ^ 64 → line_ok (utoa n).
Proof.
  intros Hn. destruct (utoa_ok n) as (Hd & _ & _ & Hl); [lia|]. split; [|unfold LINE; lia].
  intros Hin. rewrite Forall_forall in Hd. by apply Hd in Hin.
Qed.

Lemma itoa_line n : - 2 ^ 63 <= n < 2 ^ 63 → line_ok (itoa n).
Proof.
  intros Hn. unfold itoa. destruct (Z.ltb_spec n 0); [|apply utoa_line; lia].
  destruct (utoa_ok (- n)) as (_ & _ & _ & Hl); [lia|]. destruct (utoa_line (- n)) as [Hi _]; [lia|].
  split; [apply not_elem_of_cons; split; [done|exact Hi]|simpl; unfold LINE; lia].
Qed.

Lemma digit_facts c : isdigit c = true → isspace c = false ∧ c ≠ "-"%char ∧ c ≠ "+"%char.
Proof. by_byte c. Qed.

Lemma parsedate_itoa n : - 2 ^ 63 <= n < 2 ^ 63 → alpm_parsedate (itoa n) = n.
Proof.
  intros Hn. assert (∀ sg, sg * Z.abs n = n → parse_sign (drop_while isspace (itoa n)) = (sg, utoa (Z.abs n)) →
    alpm_parsedate (itoa n) = n) as Hgo.
  { intros sg Hsg E. unfold alpm_parsedate. rewrite E.
    destruct (utoa_ok (Z.abs n)) as (Hd & Hv & Hne & _); [lia|].
    rewrite take_while_all, drop_while_all by done. destruct (utoa (Z.abs n)) as [|c l]; [done|].
    rewrite Hv, Hsg. destruct (Z.ltb_spec n (- 2 ^ 63)), (Z.leb_spec (2 ^ 63) n); try lia. done. }
  unfold itoa in *. destruct (Z.ltb_spec n 0).
  - apply (Hgo (-1)); [lia|]. rewrite Z.abs_neq by lia. done.
  - apply (Hgo 1); [lia|]. rewrite Z.abs_eq by lia.
    destruct (utoa_ok n) as (Hd & _ & Hne & _); [lia|]. destruct Hd as [|c l Hc _]; [done|]. simpl.
    destruct (digit_facts c Hc) as (-> & H1 & H2). simpl.
    apply Ascii.eqb_neq in H1, H2. by rewrite H1, H2.
Qed.

Lemma strtoofft_itoa n : 0 <= n < 2 ^ 63 → alpm_strtoofft (itoa n) = n.
Proof.
  intros Hn. unfold itoa. destruct (Z.ltb_spec n 0); [lia|].
  destruct (utoa_ok n) as (Hd & Hv & Hne & _); [lia|]. unfold alpm_strtoofft.
  rewrite take_while_all, drop_while_all, Hv by done.
  destruct Hd as [|c l Hc _]; [done|]. simpl. rewrite Hc. simpl. unfold to_off_t.
  destruct (Z.leb_spec (2 ^ 64) n), (Z.ltb_spec n (2 ^ 63)); lia.
Qed.

(** The bits a validation list can name. *)
Definition validation_bits : Z :=
  Z.lor ALPM_PKG_VALIDATION_NONE
    (Z.lor ALPM_PKG_VALIDATION_SHA256SUM ALPM_PKG_VALIDATION_SIGNATURE).

Definition validation_check (v : Z) : bool :=
  negb (Z.land v validation_bits =? v)
  || ((fold_left read_validation (validation_lines v) 0 =? v)
      && forallb (λ l, line_okb l && bool_decide (l ≠ [])) (validation_lines v)).

Lemma validation_check_all : forallb validation_check (map Z.of_nat (seq 0 16)) = true.
Proof. vm_compute. reflexivity. Qed.

Lemma validation_roundtrip v :
  Z.land v validation_bits = v →
  fold_left read_validation (validation_lines v) 0 = v ∧
  Forall line_ok (validation_lines v) ∧ Forall (λ l, l ≠ []) (validation_lines v).
Proof.
  intros Hv. assert (v = v mod 2 ^ 4) as Hm.
  { rewrite <-Z.land_ones by lia. rewrite <-Hv at 2. by rewrite <-Z.land_assoc. }
  pose proof (Z.mod_pos_bound v (2 ^ 4) ltac:(done)) as Hr.
  pose proof validation_check_all as H. rewrite forallb_forall in H.
  specialize (H v). unfold validation_check in H. rewrite Hv, Z.eqb_refl in H. cbn [negb orb] in H.
  apply andb_true_iff in H as [H1%Z.eqb_eq H2].
  - rewrite forallb_forall in H2. split; [done|]. rewrite !Forall_forall.
    split; intros l Hl%list_elem_of_In%H2; bool_prop; [by apply line_okb_ok|done].
  - apply in_map_iff. exists (Z.to_nat v). split; [lia|]. apply in_seq. simpl in Hr. lia.
Qed.

Lemma xdata_roundtrip l info :
  Forall (λ x, "="%char ∉ xdata_name x) l →
  read_xdata (map xdata_string l) info = (set_xdata info (pkg_xdata info ++ l), true).
Proof.
  intros Hl. revert info. induction Hl as [|x l Hx Hl IH]; intros info; simpl.
  - rewrite app_nil_r. by destruct info.
  - unfold xdata_string at 1. rewrite (proj2 (split_first_Some _ _ (xdata_name x) (xdata_value x))) by done.
    rewrite IH. cbn. rewrite <-app_assoc. by destruct x.
Qed.

(** ** What can be written and read back *)
Definition list_line (l : cstr) : Prop := line_ok l ∧ l ≠ [].

Definition int64 (n : Z) : Prop := - 2 ^ 63 <= n < 2 ^ 63.

(** A dependency that its text determines (see [Deps.dep_string_roundtrip]). *)
Definition dep_writable (d : alpm_depend_t) : Prop :=
  alpm_dep_from_string (alpm_dep_compute_string d) = d ∧ list_line (alpm_dep_compute_string d).

Definition text_ok (x : option cstr) : Prop := ∀ v, x = Some v → line_ok v.

Record writable (p : alpm_pkg_t) : Prop := {
  w_name : line_ok (pkg_name p) ∧ line_ok (pkg_version p);
  w_texts : Forall text_ok [pkg_base p; pkg_url p; pkg_arch p; pkg_packager p];
  w_dates : int64 (pkg_builddate p) ∧ int64 (pkg_installdate p);
  w_size : 0 <= pkg_isize p < 2 ^ 63;
  w_lists : Forall list_line (pkg_groups p) ∧ Forall list_line (pkg_licenses p);
  w_validation : Z.land (pkg_validation p) validation_bits = pkg_validation p;
  w_deps : Forall (Forall dep_writable)
             [pkg_replaces p; pkg_depends p; pkg_optdepends p; pkg_conflicts p; pkg_provides p];
  w_xdata : Forall (λ x, "="%char ∉ xdata_name x ∧ line_ok (xdata_string x)) (pkg_xdata p);
  w_files : Forall (λ f, list_line (file_name f)) (pkg_files p) ∧ pre_sorted (pkg_files p) = true;
  w_backup : Forall (λ b, is_Some (backup_hash b) ∧ "009"%char ∉ backup_name b
                          ∧ line_ok (backup_line b)) (pkg_backup p)
}.

(** The package as its entry records it: the origin and the identity are those
    of the entry; what is only known of packages to install, the sizes and modes of
    the files, and makedepends and checkdepends are not recorded. *)
Definition recorded (addr : nat) (treename : cstr) (name_hash : Z) (desc : option cstr)
    (files : bool) (scriptlet infolevel : Z) (p : alpm_pkg_t) : alpm_pkg_t :=
  mk_pkg addr name_hash None (pkg_base p) (pkg_name p) (pkg_version p) desc (pkg_url p)
    (pkg_packager p) None None (pkg_arch p) (pkg_builddate p) (pkg_installdate p) 0 (pkg_isize p)
    0 (pkg_licenses p) (pkg_replaces p) (pkg_groups p) (if files then pkg_backup p else [])
    (pkg_depends p) (pkg_optdepends p) [] [] (pkg_conflicts p) (pkg_provides p) [] None
    (if files then map (λ f, new_file (file_name f)) (pkg_files p) else [])
    (ALPM_PKG_FROM_LOCALDB treename) (pkg_reason p) scriptlet (pkg_xdata p) infolevel
    (pkg_validation p).

(** Evaluate the assignments of a package. *)
Ltac eval_pkg i :=
  eval cbv beta iota zeta delta [
    db_entry alpm_pkg_new set_name_hash set_filename set_base set_name set_version set_desc
    set_url set_packager set_sha256sum set_base64_sig set_arch set_builddate set_installdate
    set_size set_isize set_licenses set_replaces set_groups set_backup set_depends
    set_optdepends set_checkdepends set_makedepends set_conflicts set_provides set_files
    set_origin set_reason set_scriptlet set_xdata set_infolevel set_validation pkg_addr
    pkg_name_hash pkg_filename pkg_base pkg_name pkg_version pkg_desc pkg_url pkg_packager
    pkg_sha256sum pkg_base64_sig pkg_arch pkg_builddate pkg_installdate pkg_size pkg_isize
    pkg_download_size pkg_licenses pkg_replaces pkg_groups pkg_backup pkg_depends
    pkg_optdepends pkg_checkdepends pkg_makedepends pkg_conflicts pkg_provides pkg_removes
    pkg_oldpkg pkg_files pkg_origin pkg_reason pkg_scriptlet pkg_xdata pkg_infolevel
    pkg_validation] in i.

(** Normalise the package that is read so far. *)
Ltac flat :=
  match goal with |- reads ?s ?i ?r => let i' := eval_pkg i in change (reads s i' r) end.

(** Replace a term by its value. *)
Ltac evals e v :=
  let H := fresh in assert (e = v) as H by reflexivity; try rewrite H; clear H.

(** The conditions on keys and on the reader of a key. *)
Ltac key_side := solve [by apply line_okb_ok|done|intros; reflexivity].

Lemma reads_deps key get set l rest info r :
  line_ok key → key ≠ [] → desc_key_of key = KDeps get set → Forall dep_writable l →
  get info = [] → (l = [] → set info l = info) →
  reads (between rest) (set info l) r → reads (between (write_deps key l ++ rest)) info r.
Proof.
  intros Hk Hne Ek Hl Hg H0 Hr. rewrite write_deps_lines.
  apply (reads_lines key Hk Hne (λ ls i, (set i (get i ++ map alpm_dep_from_string ls), true))
           (λ i, set i l)).
  - intros st i. rewrite Ek. cbn [read_key]. by destruct (read_all st).
  - apply Forall_map. eapply Forall_impl; [exact Hl|]. by intros d [_ [? _]].
  - apply Forall_map. eapply Forall_impl; [exact Hl|]. by intros d [_ [_ ?]].
  - intros E. apply H0. by destruct l.
  - intros _. rewrite Hg. simpl. do 2 f_equal. rewrite map_map. rewrite <-(map_id l) at 2.
    apply map_ext_in. intros d Hd%list_elem_of_In. rewrite Forall_forall in Hl. by apply Hl.
  - done.
Qed.

Lemma reads_strings key get set l rest info r :
  line_ok key → key ≠ [] → desc_key_of key = KLines get set → Forall list_line l →
  get info = [] → (l = [] → set info l = info) →
  reads (between rest) (set info l) r → reads (between (write_lines key l ++ rest)) info r.
Proof.
  intros Hk Hne Ek Hl Hg H0 Hr.
  apply (reads_lines key Hk Hne (λ ls i, (set i (get i ++ ls), true)) (λ i, set i l)).
  - intros st i. rewrite Ek. cbn [read_key]. by destruct (read_all st).
  - eapply Forall_impl; [exact Hl|]. by intros d [? _].
  - eapply Forall_impl; [exact Hl|]. by intros d [_ ?].
  - done.
  - intros _. by rewrite Hg.
  - done.
Qed.

Lemma reads_date key set n rest info r :
  line_ok key → key ≠ [] → desc_key_of key = KDate set → int64 n →
  (n = 0 → set info n = info) →
  reads (between rest) (set info n) r → reads (between (write_number key n ++ rest)) info r.
Proof.
  intros Hk Hne Ek Hn H0 Hr.
  apply (reads_number key Hk Hne (λ l i, set i (alpm_parsedate l)) (λ i, set i n)); [|done| | |done].
  - intros st i. by rewrite Ek.
  - intros _. by rewrite parsedate_itoa.
  - by apply itoa_line.
Qed.

Lemma reason_line r : line_ok (itoa (reason_number r)) ∧ read_pkgreason (itoa (reason_number r)) = r.
Proof. destruct r; (split; [apply line_okb_ok|]; vm_compute; reflexivity). Qed.

Lemma reads_validation v rest info r :
  Z.land v validation_bits = v → pkg_validation info = 0 → (v = 0 → set_validation info v = info) →
  reads (between rest) (set_validation info v) r →
  reads (between ((if v =? 0 then [] else section (str "%VALIDATION%") (validation_lines v)) ++ rest))
    info r.
Proof.
  intros Hv Hi H0 Hr. destruct (Z.eqb_spec v 0) as [->|Hne]; [by rewrite H0 in Hr|].
  destruct (validation_roundtrip v Hv) as (Hf & Hl & Hn).
  apply (reads_multi _ ltac:(by apply (line_okb_ok (str "%VALIDATION%"))) ltac:(done)
    (λ ls i, (set_validation i (fold_left read_validation ls (pkg_validation i)), true)) _ _ _
    (set_validation info v)); [|done|done| |done].
  - intros st i. change (desc_key_of _) with KValidation. cbn [read_key]. by destruct (read_all st).
  - by rewrite Hi, Hf.
Qed.

Lemma reads_xdata l info r :
  Forall (λ x, "="%char ∉ xdata_name x ∧ line_ok (xdata_string x)) l → pkg_xdata info = [] →
  (l = [] → set_xdata info l = info) →
  reads (between []) (set_xdata info l) r →
  reads (between (write_lines (str "%XDATA%") (map xdata_string l))) info r.
Proof.
  intros Hl Hi H0 Hr. rewrite <-(app_nil_r (write_lines _ _)).
  apply (reads_lines _ ltac:(by apply (line_okb_ok (str "%XDATA%"))) ltac:(done)
    read_xdata (λ i, set_xdata i l)); [| | | | |done].
  - intros st i. change (desc_key_of _) with KXdata. cbn [read_key]. destruct (read_all st) as [ls st'].
    cbn [fst snd]. by destruct (read_xdata ls i).
  - apply Forall_map. eapply Forall_impl; [exact Hl|]. by intros x [_ ?].
  - apply Forall_map. eapply Forall_impl; [exact Hl|]. intros x _. simpl. unfold xdata_string.
    by destruct (xdata_name x).
  - intros E. apply H0. by destruct l.
  - intros _. rewrite xdata_roundtrip, Hi; [done|]. eapply Forall_impl; [exact Hl|]. by intros x [? _].
Qed.

(** The section of the description, with what is read of it. *)
Definition reads_description (x y : option cstr) : Prop :=
  ∀ rest info r, pkg_desc info = None → reads (between rest) (set_desc info y) r →
    reads (between (write_text (str "%DESC%") x ++ rest)) info r.

Lemma set_desc_id info : pkg_desc info = None → set_desc info None = info.
Proof. destruct info. simpl. by intros ->. Qed.

Lemma reads_description_ok x : text_ok x → reads_description x x.
Proof.
  intros Hx rest info r Hi Hr. eapply reads_text with (set := set_desc); [key_side|done|done| |done|done].
  intros _. by apply set_desc_id.
Qed.

Lemma desc_text_reads addr treename hash y p :
  writable p → reads_description (pkg_desc p) y →
  reads (between (desc_text p))
    (db_entry addr treename (pkg_name p) (pkg_version p) hash)
    (recorded addr treename hash y false 0 0 p, true).
Proof.
  intros [[Hn Hv] Ht [Hb Hi] Hs [Hg Hl] Hval Hd Hx _ _] Hdesc.
  apply Forall_cons in Ht as [Ht1 [Ht2 [Ht3 [Ht4 _]%Forall_cons]%Forall_cons]%Forall_cons].
  apply Forall_cons in Hd as [Hd1 [Hd2 [Hd3 [Hd4 [Hd5 _]%Forall_cons]%Forall_cons]%Forall_cons]%Forall_cons].
  destruct p as [? ? ? base name version desc url packager ? ? arch bd id_ ? isz ? lic repl grp ? dep
    opt ? ? conf prov ? ? ? ? reason ? xd ? val]. cbn [pkg_name pkg_version pkg_base pkg_desc pkg_url
    pkg_arch pkg_builddate pkg_installdate pkg_packager pkg_isize pkg_reason pkg_groups pkg_licenses
    pkg_validation pkg_replaces pkg_depends pkg_optdepends pkg_conflicts pkg_provides pkg_xdata] in *.
  unfold desc_text. cbn [pkg_name pkg_version pkg_base pkg_desc pkg_url
    pkg_arch pkg_builddate pkg_installdate pkg_packager pkg_isize pkg_reason pkg_groups pkg_licenses
    pkg_validation pkg_replaces pkg_depends pkg_optdepends pkg_conflicts pkg_provides pkg_xdata].
  flat.
  eapply (reads_single) with (f := λ _ i, i); [key_side|done|key_side|done|flat].
  eapply (reads_single) with (f := λ _ i, i); [key_side|done|key_side|done|flat].
  eapply reads_text with (set := set_base); [key_side|done|done|done|done|flat].
  apply Hdesc; [done|flat].
  eapply reads_text with (set := set_url); [key_side|done|done|done|done|flat].
  eapply reads_text with (set := set_arch); [key_side|done|done|done|done|flat].
  apply (reads_date _ set_builddate); [key_side|done|done|done|by intros ->|flat].
  apply (reads_date _ set_installdate); [key_side|done|done|done|by intros ->|flat].
  eapply reads_text with (set := set_packager); [key_side|done|done|done|done|flat].
  eapply reads_number with (f := (λ l i, set_isize i (alpm_strtoofft l))) (g := (λ i, set_isize i isz));
    [key_side|done|key_side|by intros ->|by rewrite strtoofft_itoa|
           apply itoa_line; unfold int64; lia|flat].
  destruct (reason_line reason) as [Hr1 Hr2].
  eapply reads_number with (f := (λ l i, set_reason i (read_pkgreason l))) (g := (λ i, set_reason i reason));
    [key_side|done|key_side|by destruct reason|by rewrite Hr2|done|flat].
  apply (reads_strings _ pkg_groups set_groups); [key_side|done|done|done|done|by intros ->|flat].
  apply (reads_strings _ pkg_licenses set_licenses); [key_side|done|done|done|done|by intros ->|flat].
  eapply reads_validation; [done|done|by intros ->|flat].
  apply (reads_deps _ pkg_replaces set_replaces); [key_side|done|done|done|done|by intros ->|flat].
  apply (reads_deps _ pkg_depends set_depends); [key_side|done|done|done|done|by intros ->|flat].
  apply (reads_deps _ pkg_optdepends set_optdepends); [key_side|done|done|done|done|by intros ->|flat].
  apply (reads_deps _ pkg_conflicts set_conflicts); [key_side|done|done|done|done|by intros ->|flat].
  apply (reads_deps _ pkg_provides set_provides); [key_side|done|done|done|done|by intros ->|flat].
  apply reads_xdata; [done|done|by intros ->|flat]. apply reads_end.
Qed.

(** ** Facts: the sections of files *)
Lemma read_files_end n info : read_files (S n) (between []) info = Some info.
Proof. done. Qed.

(** The key of a section, then its lines. *)
Lemma read_files_key n key ls rest info :
  line_ok key → Forall line_ok ls → Forall (λ l, l ≠ []) ls →
  read_files (S n) (between (section key ls ++ rest)) info =
    if streq key (str "%FILES%")
    then read_files n (between rest) (set_files info (alpm_filelist_sort (map new_file ls)))
    else if streq key (str "%BACKUP%")
    then read_files n (between rest) (set_backup info (pkg_backup info ++ map alpm_split_backup ls))
    else read_files n (mk_stream (flat_map (λ l, l ++ [newline]) ls ++ newline :: rest) false key) info.
Proof.
  intros Hk Hls Hn. unfold between at 1. cbn [read_files]. unfold section.
  rewrite <-app_assoc. cbn [app]. rewrite fgets_line by done. rewrite <-app_assoc. cbn [app negb].
  unfold strip. cbn [st_rest st_eof st_line]. rewrite strip_line by apply Hk.
  by rewrite read_all_section by done.
Qed.

Lemma pre_sorted_map l : pre_sorted (map (λ f, new_file (file_name f)) l) = pre_sorted l.
Proof. induction l as [|f [|g l] IH]; [done|done|]. cbn [pre_sorted map] in *. by rewrite <-IH. Qed.

Lemma sort_new_files l :
  pre_sorted l = true →
  alpm_filelist_sort (map new_file (map file_name l)) = map (λ f, new_file (file_name f)) l.
Proof. intros Hl. rewrite map_map. unfold alpm_filelist_sort. by rewrite pre_sorted_map, Hl. Qed.

Lemma backup_lines l :
  Forall (λ b, is_Some (backup_hash b) ∧ "009"%char ∉ backup_name b ∧ line_ok (backup_line b)) l →
  map alpm_split_backup (map backup_line l) = l ∧
  Forall line_ok (map backup_line l) ∧ Forall (λ l, l ≠ []) (map backup_line l).
Proof.
  induction 1 as [|[n h] l ([x Hx] & Hn & Hb) _ (I1 & I2 & I3)]; simpl; [done|]. simpl in Hx. subst h.
  split_and!; [|by constructor|constructor; [by destruct n|done]].
  unfold backup_line at 1. unfold alpm_split_backup at 1. simpl.
  rewrite (proj2 (split_first_Some _ _ n x)) by done. by rewrite I1.
Qed.

Lemma files_text_reads p info :
  writable p → pkg_files info = [] → pkg_backup info = [] →
  read_files 3 (between (files_text p)) info =
    Some (set_backup (set_files info (map (λ f, new_file (file_name f)) (pkg_files p))) (pkg_backup p)).
Proof.
  intros [_ _ _ _ _ _ _ _ [Hf Hs] Hb] Hif Hib.
  destruct (backup_lines (pkg_backup p) Hb) as (Hb1 & Hb2 & Hb3).
  assert (∀ i n, pkg_backup i = [] → read_files (S (S n))
    (between (write_lines (str "%BACKUP%") (map backup_line (pkg_backup p)))) i
    = Some (set_backup i (pkg_backup p))) as Hbackup.
  { intros i n Hi. destruct (pkg_backup p) as [|b bs] eqn:E.
    - cbn [map write_lines]. rewrite read_files_end. destruct i. simpl in Hi. by subst.
    - change (write_lines ?k (map ?f (b :: bs))) with (section k (map f (b :: bs))).
      rewrite <-(app_nil_r (section _ _)).
      rewrite (read_files_key (S n) (str "%BACKUP%")); [|by apply line_okb_ok|done..].
      change (streq _ (str "%FILES%")) with false. rewrite streq_refl, Hi. cbn [app].
      by rewrite Hb1. }
  unfold files_text. destruct (pkg_files p) as [|f fs] eqn:E.
  - cbn [map write_lines app]. rewrite Hbackup by done. destruct info. simpl in *. by subst.
  - change (write_lines (str "%FILES%") ?l) with (section (str "%FILES%") l).
    rewrite read_files_key;
      [|by apply line_okb_ok|apply (Forall_map _ _ (f :: fs)); eapply Forall_impl; [exact Hf|]; by intros x [??]..].
    rewrite streq_refl, Hbackup by done.
    by rewrite (sort_new_files (f :: fs) Hs).
Qed.

(** ** Facts: the entry on disk *)
Section entry.
Context (sys : os) (dbpath : cstr).

Lemma pkgpath_inj p f g :
  alpm_local_db_pkgpath dbpath p (Some f) = alpm_local_db_pkgpath dbpath p (Some g) → f = g.
Proof. unfold alpm_local_db_pkgpath. by intros H%app_inv_head%app_inv_head%app_inv_head%app_inv_head%app_inv_head. Qed.

Lemma write_file_Some fs path data fs' :
  write_file sys fs path data = Some fs' → fs' = <[path := NFile data]> fs.
Proof.
  unfold write_file. destruct (fs !! mdirname _) as [[|]|]; [|done..].
  destruct (fs !! path) as [[|]|]; [done| |]; destruct (os_denied _ _); by try intros [= <-].
Qed.

Lemma local_db_write_spec db p fs fs' :
  alpm_local_db_write sys dbpath db p INFRQ_ALL fs = (fs', 0) →
  fs' = <[alpm_local_db_pkgpath dbpath p (Some (str "files")) := NFile (files_text p)]>
          (<[alpm_local_db_pkgpath dbpath p (Some (str "desc")) := NFile (desc_text p)]> fs).
Proof.
  unfold alpm_local_db_write. destruct (negb _); [done|].
  change (has_flag INFRQ_ALL INFRQ_DESC) with true. change (has_flag INFRQ_ALL INFRQ_FILES) with true.
  cbv iota. destruct (write_file sys fs _ _) as [fs1|] eqn:E1; [|done].
  destruct (write_file sys fs1 _ _) as [fs2|] eqn:E2; [|done]. intros [= <-].
  apply write_file_Some in E1, E2. by subst.
Qed.

(** What reading the entry gives when the description reads as [y]. *)
Lemma local_db_read_spec fs p addr treename hash y :
  writable p → reads_description (pkg_desc p) y →
  fs !! alpm_local_db_pkgpath dbpath p (Some (str "desc")) = Some (NFile (desc_text p)) →
  fs !! alpm_local_db_pkgpath dbpath p (Some (str "files")) = Some (NFile (files_text p)) →
  local_db_read dbpath fs (db_entry addr treename (pkg_name p) (pkg_version p) hash) INFRQ_ALL =
    Some (recorded addr treename hash y true
            (if fs !! alpm_local_db_pkgpath dbpath p (Some (str "install")) then 1 else 0)
            disk_levels p, 0).
Proof.
  intros Hw Hy Hd Hf. pose proof (desc_text_reads addr treename hash y p Hw Hy) as Hr.
  apply reads_enough in Hr. unfold local_db_read.
  set (e := db_entry _ _ _ _ _) in *. evals (pkg_infolevel e) 0.
  evals (Z.land 0 INFRQ_ALL =? INFRQ_ALL) false. evals (has_flag 0 INFRQ_ERROR) false.
  unfold when_missing at 3. cbn [mbind option_bind]. evals (pkg_infolevel e) 0.
  evals (true && has_flag INFRQ_ALL INFRQ_DESC && negb (has_flag 0 INFRQ_DESC)) true.
  cbv iota. unfold db_read_desc at 1.
  change (alpm_local_db_pkgpath dbpath e) with (alpm_local_db_pkgpath dbpath p). rewrite Hd, Hr.
  cbn [mbind option_bind]. unfold when_missing at 2. cbn [mbind option_bind].
  set (q := set_infolevel _ _). evals (pkg_infolevel q) 2.
  evals (true && has_flag INFRQ_ALL INFRQ_FILES && negb (has_flag 2 INFRQ_FILES)) true. cbv iota.
  unfold db_read_files. change (alpm_local_db_pkgpath dbpath q) with (alpm_local_db_pkgpath dbpath p).
  rewrite Hf. destruct (read_files_total (read_fuel (files_text p)) (open_stream (files_text p)) q) as [q' Hq'].
  { unfold read_fuel. simpl. lia. }
  pose proof (files_text_reads p q Hw eq_refl eq_refl) as Hq.
  rewrite Hq'. cbn [mbind option_bind]. apply (read_files_mono _ (3 + read_fuel (files_text p))) in Hq'; [|lia].
  apply (read_files_mono _ (3 + read_fuel (files_text p))) in Hq; [|lia].
  change (between (files_text p)) with (open_stream (files_text p)) in Hq.
  rewrite Hq' in Hq. injection Hq as ->. clear Hq'. unfold when_missing. cbn [mbind option_bind].
  set (q' := set_infolevel (set_backup _ _) _). evals (pkg_infolevel q') 6.
  evals (true && has_flag INFRQ_ALL INFRQ_SCRIPTLET && negb (has_flag 6 INFRQ_SCRIPTLET)) true.
  cbv iota. unfold db_read_scriptlet.
  change (alpm_local_db_pkgpath dbpath q') with (alpm_local_db_pkgpath dbpath p).
  destruct (fs !! alpm_local_db_pkgpath dbpath p (Some (str "install"))); reflexivity.
Qed.
End entry.

Lemma fgets_long l rest b :
  newline ∉ l → length l = LINE → rest ≠ [] →
  fgets (mk_stream (l ++ rest) false b) = (mk_stream rest false l, true).
Proof.
  intros Hl Hn Hr. unfold fgets. cbn [st_rest st_eof st_line].
  destruct (l ++ rest) as [|c s] eqn:E; [by destruct l|]. rewrite <-E, <-Hn, take_line_long by done.
  by rewrite bool_decide_eq_false_2 by done.
Qed.

(** A description that does not fit into the buffer: the rest of it is taken for
    a key. *)
Lemma reads_description_long d :
  newline ∉ d → (LINE < length d)%nat → (length d < 2 * LINE)%nat →
  desc_key_of (drop LINE d) = KUnknown → reads_description (Some d) (Some (take LINE d)).
Proof.
  intros Hd Hlong Hshort Hk rest info r Hi Hr.
  assert (newline ∉ take LINE d ∧ newline ∉ drop LINE d) as [Ht Hu].
  { rewrite <-(take_drop LINE d), elem_of_app in Hd. tauto. }
  assert (drop LINE d ≠ []) as Hne by (intros E%(f_equal length); rewrite length_drop in E; simpl in E; lia).
  assert (read_next (mk_stream (d ++ newline :: newline :: rest) false (str "%DESC%"))
          = mk_stream (drop LINE d ++ newline :: newline :: rest) false (take LINE d)) as Hnext.
  { rewrite <-(take_drop LINE d) at 1. rewrite <-app_assoc. unfold read_next.
    rewrite fgets_long; [|done|rewrite length_take; lia|by destruct (drop LINE d)].
    unfold strip. cbn [fst st_rest st_eof st_line]. by rewrite strip_newline_none. }
  unfold write_text, section. rewrite <-app_assoc. cbn [flat_map app]. rewrite app_nil_r.
  eapply reads_key; [by apply line_okb_ok|done| |].
  - change (desc_key_of _) with (KText set_desc). cbn [read_key]. rewrite <-!app_assoc. cbn [app].
    rewrite Hnext. reflexivity.
  - eapply reads_key; [split; [done|rewrite length_drop; lia]|done| |exact Hr].
    rewrite Hk. cbn [read_key]. by rewrite (read_all_section [] rest).
Qed.

(** The directory of an entry is there and its files can be written. *)
Record entry_writable (sys : os) (dbpath : cstr) (p : alpm_pkg_t) (fs : fsys) : Prop := {
  e_dir : fs !! (dbpath ++ pkg_name p ++ str "-" ++ pkg_version p) = Some NDir;
  e_files : Forall (λ f, let path := alpm_local_db_pkgpath dbpath p (Some f) in
                         fs !! path ≠ Some NDir ∧ os_denied sys path = false)
              [str "desc"; str "files"]
}.

Lemma pkgpath_dirname dbpath p f :
  "/"%char ∉ f →
  mdirname (Some (alpm_local_db_pkgpath dbpath p (Some f)))
  = dbpath ++ pkg_name p ++ str "-" ++ pkg_version p.
Proof.
  intros Hf. set (dir := dbpath ++ pkg_name p ++ str "-" ++ pkg_version p).
  assert (alpm_local_db_pkgpath dbpath p (Some f) = dir ++ "/"%char :: f) as ->
    by (unfold alpm_local_db_pkgpath, dir; by rewrite <-!app_assoc).
  assert (dir ≠ []) as Hd by (unfold dir; destruct dbpath, (pkg_name p); done).
  unfold mdirname. rewrite split_last_app by done. destruct (dir ++ _) eqn:E; [by destruct dir|].
  by destruct dir.
Qed.

Lemma write_file_ok (sys : os) (fs : fsys) (path data : cstr) :
  fs !! mdirname (Some path) = Some NDir → fs !! path ≠ Some NDir → os_denied sys path = false →
  write_file sys fs path data = Some (<[path := NFile data]> fs).
Proof.
  intros H1 H2 H3. unfold write_file. rewrite H1, H3. by destruct (fs !! path) as [[|]|].
Qed.

Lemma local_db_write_ok (sys : os) (dbpath : cstr) (db : alpm_db_t) (p : alpm_pkg_t) (fs : fsys) :
  has_flag (db_status db) DB_STATUS_LOCAL = true → entry_writable sys dbpath p fs →
  ∃ fs', alpm_local_db_write sys dbpath db p INFRQ_ALL fs = (fs', 0).
Proof.
  intros Hdb [Hdir Hf]. apply Forall_cons in Hf as [[H1 H2] [[H3 H4] _]%Forall_cons].
  unfold alpm_local_db_write. rewrite Hdb. cbn [negb].
  change (has_flag INFRQ_ALL INFRQ_DESC) with true. change (has_flag INFRQ_ALL INFRQ_FILES) with true.
  cbv iota. rewrite write_file_ok; [|by rewrite pkgpath_dirname by (vm_compute; set_solver)|done|done].
  rewrite write_file_ok; [by eexists| | |done].
  - rewrite pkgpath_dirname by (vm_compute; set_solver). rewrite lookup_insert_ne; [done|].
    intros E. apply (f_equal length) in E. unfold alpm_local_db_pkgpath in E. rewrite !length_app in E.
    simpl in E. lia.
  - rewrite lookup_insert_ne; [done|]. by intros E%pkgpath_inj.
Qed.

(** ** Facts: reading keeps the identity of a package and loads once *)
Definition identity (p : alpm_pkg_t) :=
  (pkg_addr p, pkg_name p, pkg_version p, pkg_name_hash p, pkg_origin p).

Definition unread (p : alpm_pkg_t) := (identity p, pkg_infolevel p).

Lemma read_xdata_unread l info : unread (read_xdata l info).1 = unread info.
Proof.
  revert info. induction l as [|x l IH]; intros info; simpl; [done|].
  destruct (split_first _ _) as [[n v]|]; [|done]. by rewrite IH.
Qed.

Lemma read_key_unread line st info : unread (read_key (desc_key_of line) st info).1.2 = unread info.
Proof.
  unfold desc_key_of. destruct (find_first _ _) as [[key k]|] eqn:E.
  - apply find_first_Some in E as [E _]. unfold desc_keys in E.
    repeat (apply elem_of_cons in E as [E|E]; [injection E as -> ->; cbn [read_key];
      try (by destruct (read_all st)); try done|]); [|by apply elem_of_nil in E].
    destruct (read_all st) as [l st']. pose proof (read_xdata_unread l info) as H.
    by destruct (read_xdata l info).
  - done.
Qed.

Lemma read_desc_unread n st info q ok : read_desc n st info = Some (q, ok) → unread q = unread info.
Proof.
  revert st info. induction n as [|n IH]; intros st info; simpl.
  - destruct (st_eof st); [by intros [= -> _]|done].
  - destruct (st_eof st); [by intros [= -> _]|].
    destruct (alpm_strip_newline (st_line (fgets st).1)) as [|c l]; [apply IH|].
    pose proof (read_key_unread (c :: l) (strip (fgets st).1) info) as Hk.
    destruct (read_key _ _ _) as [[st' info'] [|]]; simpl in Hk; rewrite <-Hk; [apply IH|].
    by intros [= -> _].
Qed.

Lemma read_files_unread n st info q : read_files n st info = Some q → unread q = unread info.
Proof.
  revert st info. induction n as [|n IH]; intros st info; [done|]. cbn [read_files].
  destruct (fgets st) as [st' [|]]; cbn [negb]; [|by intros [= ->]].
  destruct (streq _ _); [|destruct (streq _ _); [|by apply IH]]; destruct (read_all _) as [l st''];
    by intros ->%IH.
Qed.

(** A part of local_db_read: it ends, and marks its level when it succeeds. *)
Definition loads (level : Z) (f : alpm_pkg_t → option (alpm_pkg_t * bool)) : Prop :=
  ∀ info, ∃ q ok, f info = Some (q, ok) ∧ identity q = identity info ∧
    pkg_infolevel q = if ok : bool then Z.lor (pkg_infolevel info) level else pkg_infolevel info.

Lemma db_read_desc_loads dbpath fs : loads INFRQ_DESC (db_read_desc dbpath fs).
Proof.
  intros info. unfold db_read_desc. destruct (fs !! _) as [[|data]|]; [by exists info, false| |by exists info, false].
  destruct (read_desc_total (read_fuel data) (open_stream data) info) as [[q ok] E].
  { unfold read_fuel, pending. simpl. lia. }
  pose proof (read_desc_unread _ _ _ _ _ E) as [= ?]. rewrite E. cbn [mbind option_bind].
  destruct ok; eexists _, _; (split; [reflexivity|]); unfold identity; cbn; split; congruence.
Qed.

Lemma db_read_files_loads dbpath fs : loads INFRQ_FILES (db_read_files dbpath fs).
Proof.
  intros info. unfold db_read_files. destruct (fs !! _) as [[|data]|].
  - by eexists _, _.
  - destruct (read_files_total (read_fuel data) (open_stream data) info) as [q E].
    { unfold read_fuel. simpl. lia. }
    pose proof (read_files_unread _ _ _ _ E) as [= ?]. rewrite E. cbn [mbind option_bind].
    eexists _, _. split; [reflexivity|]. unfold identity; cbn; split; congruence.
  - by exists info, false.
Qed.

Lemma db_read_scriptlet_loads dbpath fs : loads INFRQ_SCRIPTLET (db_read_scriptlet dbpath fs).
Proof.
  intros info. unfold db_read_scriptlet. destruct (fs !! _); by eexists _, _.
Qed.
(** Of the requested levels, those among [ks] are loaded, or one that failed is
    not. *)
Definition stage (req : Z) (ks : list Z) (lvl : Z) (ok : bool) : Prop :=
  if ok then ∀ k, k ∈ ks → Z.testbit req k = true → Z.testbit lvl k = true
  else ∃ k, 0 <= k ∧ Z.testbit req k = true ∧ Z.testbit lvl k = false.

Lemma when_missing_stage req ks k f info r :
  0 <= k → loads (Z.shiftl 1 k) f →
  (∃ q ok, r = Some (q, ok) ∧ identity q = identity info ∧ stage req ks (pkg_infolevel q) ok) →
  ∃ q ok, when_missing req (Z.shiftl 1 k) f r = Some (q, ok) ∧ identity q = identity info ∧
    stage req (k :: ks) (pkg_infolevel q) ok.
Proof.
  intros Hk Hf (q & ok & -> & Hid & Hst). unfold when_missing. cbn [mbind option_bind].
  rewrite !has_flag_bit by done. destruct ok; [|by exists q, false]. cbn [andb].
  destruct (Z.testbit req k) eqn:Er; cbn [andb].
  - destruct (Z.testbit (pkg_infolevel q) k) eqn:El; cbn [negb].
    { exists q, true. split_and!; [done|done|]. intros j [->|Hj]%elem_of_cons; [done|by apply Hst]. }
    destruct (Hf q) as (q' & ok & -> & Hid' & Hl). exists q', ok. split_and!; [done|congruence|].
    rewrite Hl. destruct ok; [|by exists k]. intros j Hj Hrj. rewrite Z.lor_spec.
    apply elem_of_cons in Hj as [->|Hj]; [|by rewrite Hst].
    rewrite Z.shiftl_spec, Z.sub_diag by done. apply orb_true_r.
  - exists q, true. split_and!; [done|done|]. intros j [->|Hj]%elem_of_cons; [congruence|by apply Hst].
Qed.

Lemma local_db_read_stage dbpath fs info req :
  Z.land (pkg_infolevel info) req ≠ req → has_flag (pkg_infolevel info) INFRQ_ERROR = false →
  ∃ q ok, identity q = identity info ∧ stage req [3; 2; 1] (pkg_infolevel q) ok ∧
    local_db_read dbpath fs info req =
      Some (if ok : bool then (q, 0)
            else (set_infolevel q (Z.lor (pkg_infolevel q) INFRQ_ERROR), -1)).
Proof.
  intros H1 H2. unfold local_db_read. rewrite (proj2 (Z.eqb_neq _ _) H1), H2.
  assert (∃ q ok, Some (info, true) = Some (q, ok) ∧ identity q = identity info ∧
            stage req [] (pkg_infolevel q) ok) as H by (eexists _, _; split_and!; [done..|]; intros ? ?%elem_of_nil; done).
  apply (when_missing_stage _ _ 1 _ _ _ ltac:(lia) (db_read_desc_loads dbpath fs)) in H.
  apply (when_missing_stage _ _ 2 _ _ _ ltac:(lia) (db_read_files_loads dbpath fs)) in H.
  apply (when_missing_stage _ _ 3 _ _ _ ltac:(lia) (db_read_scriptlet_loads dbpath fs)) in H.
  destruct H as (q & ok & H & Hid & Hst). exists q, ok. split_and!; [done..|].
  unfold INFRQ_DESC, INFRQ_FILES, INFRQ_SCRIPTLET. rewrite H. by destruct ok.
Qed.

Lemma disk_level_bits req k :
  Z.land req disk_levels = req → 0 <= k → Z.testbit req k = true → k ∈ [3; 2; 1].
Proof.
  intros Hreq Hk Hrk. rewrite <-Hreq, Z.land_spec in Hrk. apply andb_true_iff in Hrk as [_ Hrk].
  change disk_levels with 14 in Hrk.
  assert (k = 0 ∨ k = 1 ∨ k = 2 ∨ k = 3 ∨ 4 <= k) as [->|[->|[->|[->|Hk4]]]] by lia;
    [done|set_solver..|]. rewrite Z.bits_above_log2 in Hrk; [done|lia|simpl; lia].
Qed.

Lemma land_subset a b :
  0 <= b → (∀ k, 0 <= k → Z.testbit b k = true → Z.testbit a k = true) ↔ Z.land a b = b.
Proof.
  intros Hb. split.
  - intros H. apply Z.bits_inj'. intros k Hk. rewrite Z.land_spec.
    specialize (H k Hk). destruct (Z.testbit b k); [by rewrite H|apply andb_false_r].
  - intros H k Hk Hbk. rewrite <-H, Z.land_spec in Hbk. by apply andb_true_iff in Hbk as [? _].
Qed.
(** ** Properties *)

(** C18. The entry of an installed package. Writing a package whose values fit
    the line based format to the directory of its entry succeeds, changes only
    the files desc and files there, and reading the entry back, into the package
    that the directory name gives, returns every field that is recorded: names,
    texts, dates, sizes, reason, groups, licenses, validation, all dependency
    lists, xdata, the file list and the backup entries with their digests. *)
Theorem local_db_roundtrip (sys : os) (dbpath : cstr) (db : alpm_db_t) (p : alpm_pkg_t) (fs : fsys)
    (addr : nat) (treename : cstr) (hash : Z) :
  writable p → text_ok (pkg_desc p) →
  has_flag (db_status db) DB_STATUS_LOCAL = true → entry_writable sys dbpath p fs →
  ∃ fs', alpm_local_db_write sys dbpath db p INFRQ_ALL fs = (fs', 0) ∧
    (∀ q, q ≠ alpm_local_db_pkgpath dbpath p (Some (str "desc")) →
          q ≠ alpm_local_db_pkgpath dbpath p (Some (str "files")) → fs' !! q = fs !! q) ∧
    local_db_read dbpath fs' (db_entry addr treename (pkg_name p) (pkg_version p) hash) INFRQ_ALL =
      Some (recorded addr treename hash (pkg_desc p) true
              (if fs !! alpm_local_db_pkgpath dbpath p (Some (str "install")) then 1 else 0)
              disk_levels p, 0).
Proof.
  intros Hw Ht Hdb He. destruct (local_db_write_ok sys dbpath db p fs Hdb He) as [fs' E].
  exists fs'. split; [done|]. apply local_db_write_spec in E as ->. split.
  - intros q H1 H2. by rewrite !lookup_insert_ne.
  - rewrite (local_db_read_spec dbpath _ p addr treename hash (pkg_desc p)); [|done| | |].
    + by rewrite !lookup_insert_ne by (by intros ?%pkgpath_inj).
    + by apply reads_description_ok.
    + rewrite lookup_insert_ne by (by intros ?%pkgpath_inj). by rewrite lookup_insert_eq.
    + by rewrite lookup_insert_eq.
Qed.

(** Lines of more than 1023 bytes are written but not read back: of a longer
    description the first 1023 bytes are kept and the rest is taken for an
    unknown key; the other fields are not affected. *)
Theorem local_db_long_description (dbpath : cstr) (p : alpm_pkg_t) (fs : fsys) (d : cstr) (addr : nat)
    (treename : cstr) (hash : Z) :
  writable p → pkg_desc p = Some d → newline ∉ d →
  (LINE < length d < 2 * LINE)%nat → desc_key_of (drop LINE d) = KUnknown →
  fs !! alpm_local_db_pkgpath dbpath p (Some (str "desc")) = Some (NFile (desc_text p)) →
  fs !! alpm_local_db_pkgpath dbpath p (Some (str "files")) = Some (NFile (files_text p)) →
  ∃ q, local_db_read dbpath fs (db_entry addr treename (pkg_name p) (pkg_version p) hash) INFRQ_ALL
       = Some (q, 0) ∧
    pkg_desc q = Some (take LINE d) ∧ pkg_desc q ≠ pkg_desc p ∧
    pkg_depends q = pkg_depends p ∧ pkg_provides q = pkg_provides p.
Proof.
  intros Hw Hp Hd Hlen Hk H1 H2. eexists. split.
  - apply (local_db_read_spec dbpath fs p addr treename hash (Some (take LINE d))); [done| |done|done].
    rewrite Hp. apply reads_description_long; [done|lia|lia|done].
  - split_and!; [done| |done|done]. rewrite Hp. cbn [pkg_desc recorded].
    intros [= E%(f_equal length)]. rewrite length_take in E. lia.
Qed.

(** Reading always ends with the package, a result code and the package's
    identity unchanged; and every level is read from disk at most once: whatever
    happens to the files afterwards, repeating a request that succeeded succeeds
    with the same package, and repeating one that failed fails at once. *)
Theorem local_db_read_once (dbpath : cstr) (fs fs' : fsys) (info : alpm_pkg_t) (req : Z) :
  Z.land req disk_levels = req →
  ∃ q rc, local_db_read dbpath fs info req = Some (q, rc) ∧ (rc = 0 ∨ rc = -1) ∧
    identity q = identity info ∧ local_db_read dbpath fs' q req = Some (q, rc).
Proof.
  intros Hreq. assert (0 <= req) as Hpos by (rewrite <-Hreq; apply Z.land_nonneg; by right).
  destruct (decide (Z.land (pkg_infolevel info) req = req)) as [E|E].
  { exists info, 0. unfold local_db_read. rewrite E, Z.eqb_refl. eauto. }
  destruct (has_flag (pkg_infolevel info) INFRQ_ERROR) eqn:Ee.
  { exists info, (-1). unfold local_db_read. rewrite (proj2 (Z.eqb_neq _ _) E), Ee. eauto. }
  destruct (local_db_read_stage dbpath fs info req E Ee) as (q & ok & Hid & Hst & ->).
  destruct ok; eexists _, _; (split; [reflexivity|]).
  - split_and!; [by left|done|]. unfold local_db_read.
    rewrite (proj1 (land_subset _ _ Hpos)), Z.eqb_refl; [done|]. intros k Hk Hrk. apply Hst; [|done].
    by apply (disk_level_bits req).
  - split_and!; [by right|done|]. destruct Hst as (k & Hk & Hrk & Hlk). unfold local_db_read.
    change INFRQ_ERROR with (Z.shiftl 1 30). cbn [pkg_infolevel set_infolevel].
    rewrite (proj2 (Z.eqb_neq _ _)).
    + rewrite has_flag_bit, Z.lor_spec by done. by rewrite orb_true_r.
    + intros H. apply (land_subset _ _ Hpos) with (k := k) in H; [|done..].
      rewrite Z.lor_spec, Hlk, Z.shiftl_1_l, Z.pow2_bits_eqb in H by done. cbn [orb] in H. apply Z.eqb_eq in H.
      apply (disk_level_bits req) in Hrk; [|done..]. subst k. set_solver.
Qed.

(** ** Examples *)
Definition ex_written (desc : cstr) : alpm_pkg_t :=
  mk_pkg 7 0 None (Some (str "vi")) (str "vi") (str "1:2.0-1") (Some desc) None
    (Some (str "Ann <ann@example.org>")) None None (Some (str "x86_64")) 1700000000 (-5) 0
    9223372036854775807 0 [str "BSD"; str "custom:vi"] [] [str "editors"]
    [mk_backup (str "etc/vi.rc") (Some (str "d41d8cd9"))]
    [alpm_dep_from_string (str "glibc>=2.36"); alpm_dep_from_string (str "sh")]
    [alpm_dep_from_string (str "ctags: tags")] [] [] [alpm_dep_from_string (str "vim<9")]
    [alpm_dep_from_string (str "editor=1")] [] None
    [mk_file (str "etc/") 0 16877; mk_file (str "etc/vi.rc") 12 33188; mk_file (str "usr/") 0 16877]
    (ALPM_PKG_FROM_FILE None) ALPM_PKG_REASON_DEPEND 1 [mk_xdata (str "pkgtype") (str "pkg")] 15 12.

Definition ex_local_os : os := mk_os (λ _, None) (λ _, false) (λ _, None) (λ _, false) (λ _, false) (λ _, None).
Definition ex_dbpath : cstr := str "/db/local/".
Definition ex_entry_fs : fsys :=
  <[str "/db/local/vi-1:2.0-1" := NDir]> (<[str "/db/local/vi-1:2.0-1/install" := NFile []]> ∅).

(** Decide the conditions on concrete lines. *)
Ltac concrete_lines :=
  repeat match goal with
  | |- Forall _ [] => constructor
  | |- Forall _ (_ :: _) => constructor
  | |- _ ∧ _ => split
  | |- line_ok _ => apply line_okb_ok; vm_compute; reflexivity
  | |- list_line _ => split
  | |- text_ok _ => intros ? [= <-]
  | |- dep_writable _ => split
  | |- int64 _ => unfold int64; simpl
  | |- is_Some _ => eexists; reflexivity
  | |- _ ∉ _ => apply (bool_decide_unpack _); vm_compute; exact I
  end.

Lemma ex_written_writable desc : writable (ex_written desc).
Proof.
  split; cbn [ex_written pkg_name pkg_version pkg_base pkg_url pkg_arch pkg_packager pkg_builddate
    pkg_installdate pkg_isize pkg_groups pkg_licenses pkg_validation pkg_replaces pkg_depends
    pkg_optdepends pkg_conflicts pkg_provides pkg_xdata pkg_files pkg_backup];
    concrete_lines; try (vm_compute; (reflexivity || discriminate)); lia.
Qed.

Lemma local_db_roundtrip_witness :
  ∃ fs', alpm_local_db_write ex_local_os ex_dbpath (alpm_db_new (str "local") true)
           (ex_written (str "An editor")) INFRQ_ALL ex_entry_fs = (fs', 0) ∧
    (λ r, (pkg_scriptlet r.1, pkg_installdate r.1, length (pkg_depends r.1))) <$>
      local_db_read ex_dbpath fs' (db_entry 3 (str "local") (str "vi") (str "1:2.0-1") 0) INFRQ_ALL
    = Some (1, -5, 2%nat).
Proof.
  destruct (local_db_roundtrip ex_local_os ex_dbpath (alpm_db_new (str "local") true)
    (ex_written (str "An editor")) ex_entry_fs 3 (str "local") 0) as (fs' & H1 & _ & H2).
  - apply ex_written_writable.
  - concrete_lines.
  - reflexivity.
  - split; [vm_compute; reflexivity|].
    repeat constructor; vm_compute; (reflexivity || discriminate).
  - exists fs'. split; [exact H1|]. change (db_entry 3 _ _ _ 0) with (db_entry 3 (str "local")
      (pkg_name (ex_written (str "An editor"))) (pkg_version (ex_written (str "An editor"))) 0).
    rewrite H2. vm_compute. reflexivity.
Defined.

Definition ex_long : cstr := replicate 1500 "x"%char.
Definition ex_long_fs : fsys :=
  <[str "/db/local/vi-1:2.0-1/desc" := NFile (desc_text (ex_written ex_long))]>
    (<[str "/db/local/vi-1:2.0-1/files" := NFile (files_text (ex_written ex_long))]> ∅).

Lemma local_db_long_description_witness :
  ∃ q, local_db_read ex_dbpath ex_long_fs (db_entry 3 (str "local") (str "vi") (str "1:2.0-1") 0)
         INFRQ_ALL = Some (q, 0) ∧ pkg_desc q ≠ Some ex_long.
Proof.
  destruct (local_db_long_description ex_dbpath (ex_written ex_long) ex_long_fs ex_long 3
    (str "local") 0) as (q & H1 & _ & H2 & _).
  - apply ex_written_writable.
  - reflexivity.
  - apply (bool_decide_unpack _). vm_compute. exact I.
  - vm_compute. lia.
  - vm_compute. reflexivity.
  - vm_compute. reflexivity.
  - vm_compute. reflexivity.
  - exists q. split; [exact H1|exact H2].
Defined.

Lemma local_db_read_once_witness :
  ∃ q, local_db_read ex_dbpath ∅ (db_entry 3 (str "local") (str "vi") (str "1:2.0-1") 0) INFRQ_DESC
       = Some (q, -1) ∧ local_db_read ex_dbpath ex_long_fs q INFRQ_DESC = Some (q, -1).
Proof.
  destruct (local_db_read_once ex_dbpath ∅ ex_long_fs
    (db_entry 3 (str "local") (str "vi") (str "1:2.0-1") 0) INFRQ_DESC eq_refl)
    as (q & rc & H1 & _ & _ & H2).
  assert (rc = -1) as -> by (vm_compute in H1; congruence). exists q. split; [exact H1|exact H2].
Defined.
