(* ===== verification/LocalDir.v ===== *)
(** * The directory of the local database

    lib/libalpm/be_local.c and util.c (_alpm_makepath_mode): creating, checking
    and reading the directory that holds one entry per installed package;
    creating and removing entries; the install reason of a package. [dbpath] is
    what _alpm_db_path returns, with its final slash; [nlink] is the link count
    that fstat reports for the directory. *)
From S2P Require Import Prelude CString AlpmList Util Package PkgHash PkgSet Handle Deps FileList.
From S2P Require Import Db FileOps LocalDb.
Local Open Scope Z_scope.

(** ALPM_LOCAL_DB_VERSION *)
Definition ALPM_LOCAL_DB_VERSION : Z := 9.

Section local_dir.
Context (sys : os) (dbpath : cstr).

(** ** Directories *)
Inductive mkdir_result :=
  | MkdirOk (fs : fsys)
  | MkdirExists               (* EEXIST *)
  | MkdirFails.

Definition mkdir (fs : fsys) (path : cstr) : mkdir_result :=
  let p := llstat_path path in
  match fs !! p, fs !! mdirname (Some p) with
  | Some _, _ => MkdirExists
  | None, Some NDir => if os_denied sys p then MkdirFails else MkdirOk (<[p := NDir]> fs)
  | None, _ => MkdirFails
  end.

(** The places where _alpm_makepath_mode cuts the path: before each slash that
    follows another byte. *)
Fixpoint cuts (before rest : cstr) : list cstr :=
  match rest with
  | [] => []
  | c :: rest' =>
      let tail := cuts (before ++ [c]) rest' in
      if is_slash c && negb (bool_decide (before = [])) && negb (is_slash (List.last before NUL))
      then before :: tail else tail
  end.

Fixpoint make_dirs (paths : list cstr) (fs : fsys) : fsys * Z :=
  match paths with
  | [] => (fs, 0)
  | path :: paths' =>
      match mkdir fs path with
      | MkdirOk fs' => make_dirs paths' fs'
      | MkdirExists => make_dirs paths' fs
      | MkdirFails => (fs, 1)
      end
  end.

Definition alpm_makepath (fs : fsys) (path : cstr) : fsys * Z :=
  make_dirs (cuts [] path ++ [path]) fs.

(** stat; a path with a trailing slash is that of a directory or fails (ENOTDIR). *)
Definition stat (fs : fsys) (path : cstr) : option node :=
  match lstat fs path with
  | Some (NFile data) => if is_dir_name path then None else Some (NFile data)
  | r => r
  end.

Definition checkdbdir (fs : fsys) : fsys * Z :=
  match stat fs dbpath with
  | None => let '(fs', rc) := alpm_makepath fs dbpath in (fs', if rc =? 0 then 0 else -1)
  | Some NDir => (fs, 0)
  | Some (NFile _) =>
      match unlink sys fs dbpath with
      | None => (fs, -1)
      | Some fs => let '(fs', rc) := alpm_makepath fs dbpath in (fs', if rc =? 0 then 0 else -1)
      end
  end.

(** ** Entries *)
Definition alpm_local_db_prepare (info : alpm_pkg_t) (fs : fsys) : fsys * Z :=
  let '(fs, rc) := checkdbdir fs in
  if negb (rc =? 0) then (fs, -1)
  else match mkdir fs (alpm_local_db_pkgpath dbpath info None) with
       | MkdirOk fs => (fs, 0)
       | _ => (fs, -1)
       end.

(** The loop over the files of an entry, which spells the path with two slashes. *)
Fixpoint unlink_entries (pkgpath : cstr) (names : list cstr) (fs : fsys) (ret : Z) : fsys * Z :=
  match names with
  | [] => (fs, ret)
  | name :: names' =>
      if (PATH_MAX <? length pkgpath + length name + 2)%nat
      then unlink_entries pkgpath names' fs (-1)
      else match unlink sys fs (pkgpath ++ name) with
           | Some fs => unlink_entries pkgpath names' fs ret
           | None => unlink_entries pkgpath names' fs (-1)
           end
  end.

Definition alpm_local_db_remove (info : alpm_pkg_t) (fs : fsys) : fsys * Z :=
  let pkgpath := alpm_local_db_pkgpath dbpath info None in
  match readdir fs pkgpath with
  | None => (fs, -1)
  | Some names =>
      let '(fs, ret) := unlink_entries pkgpath names fs 0 in
      match rmdir sys fs pkgpath with
      | Some fs => (fs, ret)
      | None => (fs, -1)
      end
  end.

(** ** Creating and checking the database *)
Definition dbverpath : cstr := take (PATH_MAX - 1) (dbpath ++ str "ALPM_DB_VERSION").

Definition local_db_add_version (fs : fsys) : fsys * Z :=
  match write_file sys fs dbverpath (utoa ALPM_LOCAL_DB_VERSION ++ [newline]) with
  | Some fs => (fs, 0)
  | None => (fs, 1)
  end.

Definition local_db_create (h : alpm_handle_t) (fs : fsys) : alpm_handle_t * fsys * Z :=
  match mkdir fs dbpath with
  | MkdirOk fs =>
      let '(fs, rc) := local_db_add_version fs in
      if negb (rc =? 0) then (h, fs, 1) else (h, fs, 0)
  | _ => (set_errno ALPM_ERR_DB_CREATE h, fs, -1)
  end.

(** fscanf %zu: white space, a sign, digits; the value saturates. *)
Definition scan_size (data : cstr) : option Z :=
  let '(sign, s) := parse_sign (drop_while isspace data) in
  match take_while isdigit s with
  | [] => None
  | digits =>
      let n := digits_val digits in
      Some (if ULONG_MAX <? n then ULONG_MAX else (sign * n) mod 2 ^ 64)
  end.

Definition status_exists (st : Z) : Z := clear_bits (set_bits st DB_STATUS_EXISTS) DB_STATUS_MISSING.
Definition status_valid (st : Z) : Z := clear_bits (set_bits st DB_STATUS_VALID) DB_STATUS_INVALID.

Definition local_db_validate (h : alpm_handle_t) (db : alpm_db_t) (fs : fsys)
    : alpm_handle_t * alpm_db_t * fsys * Z :=
  let status := db_status db in
  if has_flag status DB_STATUS_VALID then (h, db, fs, 0)
  else if has_flag status DB_STATUS_INVALID then (h, db, fs, -1)
  else
    match lstat fs dbpath with
    | None =>
        let '(h, fs, rc) := local_db_create h fs in
        if rc =? 0 then (h, db_set_status (status_exists (status_valid status)) db, fs, 0)
        else (h, db_set_status (set_bits (clear_bits status DB_STATUS_EXISTS) DB_STATUS_MISSING) db,
              fs, -1)
    | Some (NFile _) => (set_errno ALPM_ERR_DB_OPEN h, db, fs, -1)
    | Some NDir =>
        let st := status_exists status in
        let latest fs := (h, db_set_status (status_valid st) db, fs, 0) in
        let version_error fs :=
          (set_errno ALPM_ERR_DB_VERSION h,
           db_set_status (set_bits (clear_bits st DB_STATUS_VALID) DB_STATUS_INVALID) db, fs, -1) in
        match fs !! dbverpath with
        | None =>
            match readdir fs dbpath with
            | Some [] =>
                let '(fs, rc) := local_db_add_version fs in
                if negb (rc =? 0) then version_error fs else latest fs
            | _ => version_error fs
            end
        | Some NDir => version_error fs
        | Some (NFile data) =>
            match scan_size data with
            | Some version => if negb (version =? ALPM_LOCAL_DB_VERSION) then version_error fs
                              else latest fs
            | None => version_error fs
            end
        end
    end.

(** _alpm_db_register_local; the result code tells whether it returns the
    database. *)
Definition alpm_db_register_local (h : alpm_handle_t) (fs : fsys) : alpm_handle_t * fsys * Z :=
  let db := alpm_db_new (str "local") true in
  let '(h, db, fs, rc) := local_db_validate h db fs in
  if negb (rc =? 0) then (h, fs, -1) else (set_db_local db h, fs, 0).

(** ** Loading the packages *)
Definition is_dir (fs : fsys) (name : cstr) : bool :=
  match fs !! (dbpath ++ name) with Some NDir => true | _ => false end.

Inductive populate_result :=
  | PopulateUB                                           (* _alpm_splitname reads outside the name *)
  | PopulateFull (hash : alpm_pkghash_t) (next : nat)      (* _alpm_pkghash_add fails *)
  | PopulateDone (hash : alpm_pkghash_t) (count next : nat).

(** The loop over the directory; [next] is the address of the next package.
    local_db_read with INFRQ_BASE only looks at the level of the new package, and
    the verdict of _alpm_pkg_check_meta is ignored. *)
Fixpoint populate_loop (fs : fsys) (treename : cstr) (names : list cstr) (hash : alpm_pkghash_t)
    (count next : nat) : populate_result :=
  match names with
  | [] => PopulateDone hash count next
  | name :: names' =>
      if negb (is_dir fs name) then populate_loop fs treename names' hash count next
      else
        match alpm_splitname name with
        | SplitUB => PopulateUB
        | SplitErr => populate_loop fs treename names' hash count (S next)
        | SplitOk n v name_hash =>
            match alpm_pkghash_find hash n with
            | None => PopulateUB
            | Some (Some _) => populate_loop fs treename names' hash count (S next)
            | Some None =>
                match local_db_read dbpath fs (db_entry next treename n v name_hash) INFRQ_BASE with
                | Some (pkg, rc) =>
                    if rc =? -1 then populate_loop fs treename names' hash count (S next)
                    else match alpm_pkghash_add hash pkg with
                         | None => PopulateFull hash (S next)
                         | Some hash => populate_loop fs treename names' hash (S count) (S next)
                         end
                | None => PopulateUB
                end
            end
        end
  end.

(** The estimate of the number of entries; without a link count the entries are
    counted, . and .. included. *)
Definition est_count (nlink : Z) (names : list cstr) : Z :=
  let n := if 2 <=? nlink then nlink else Z.of_nat (length names) + 2 in
  if 2 <=? n then n - 2 else n.

Definition local_db_populate (nlink : Z) (fs : fsys) (h : alpm_handle_t) (db : alpm_db_t)
    : option (alpm_handle_t * alpm_db_t * Z) :=
  let status := db_status db in
  if has_flag status DB_STATUS_INVALID then Some (set_errno ALPM_ERR_DB_INVALID h, db, -1)
  else if has_flag status DB_STATUS_MISSING then Some (set_errno ALPM_ERR_DB_NOT_FOUND h, db, -1)
  else
    match readdir fs dbpath with
    | None => Some (set_errno ALPM_ERR_DB_OPEN h, db, -1)
    | Some names =>
        let db := db_set_status (status_exists status) db in
        let with_hash hash := db_set_caches hash (db_grpcache db) (db_status db) db in
        match alpm_pkghash_create (est_count nlink names) with
        | None => Some (set_errno ALPM_ERR_MEMORY h, with_hash None, -1)
        | Some hash =>
            match populate_loop fs (db_treename db) names hash 0 (h_next h) with
            | PopulateUB => None
            | PopulateFull hash next =>
                Some (set_errno ALPM_ERR_MEMORY (set_next next h), with_hash (Some hash), -1)
            | PopulateDone hash count next =>
                let list := if (0 <? count)%nat
                            then alpm_list_msort alpm_pkg_cmp (hash_list hash) count
                            else hash_list hash in
                Some (set_next next h,
                      with_hash (Some (mk_pkghash (hash_table hash) list (buckets hash)
                                         (entries hash) (limit hash))), 0)
            end
        end
    end.

(** ** alpm_pkg_set_reason

    The package is that of the cache; it is returned with what was loaded. *)
Definition alpm_pkg_set_reason (h : alpm_handle_t) (pkg : alpm_pkg_t) (reason : alpm_pkgreason_t)
    (fs : fsys) : option (alpm_handle_t * alpm_pkg_t * fsys * Z) :=
  match pkg_origin pkg with
  | ALPM_PKG_FROM_LOCALDB treename =>
      if negb (streq treename (db_treename (h_db_local h)))
      then Some (set_errno ALPM_ERR_WRONG_ARGS h, pkg, fs, -1)
      else
        let h := check_handle h in
        '(pkg, old) ← cache_get_reason dbpath fs pkg;
        if bool_decide (old = reason) then Some (h, pkg, fs, 0)
        else
          let pkg := set_reason pkg reason in
          let '(fs, rc) := alpm_local_db_write sys dbpath (h_db_local h) pkg INFRQ_DESC fs in
          if negb (rc =? 0) then Some (set_errno ALPM_ERR_DB_WRITE h, pkg, fs, -1)
          else Some (h, pkg, fs, 0)
  | _ => Some (set_errno ALPM_ERR_WRONG_ARGS h, pkg, fs, -1)
  end.
End local_dir.

(** ** Facts: loading *)
Lemma splitname_hash name n v k : alpm_splitname name = SplitOk n v k → k = alpm_hash_sdbm n.
Proof.
  unfold alpm_splitname. destruct (split_last _ _) as [[front rel]|]; [|done].
  destruct (split_last _ front) as [[[|c l] ver]|]; [done| |done]. by intros [= <- _ <-].
Qed.

Lemma add_fits hash p :
  pkghash_inv hash → pkg_hash_ok p →
  pkg_name p ∉ map pkg_name (hash_list hash) → pkg_addr p ∉ map pkg_addr (hash_list hash) →
  Z.of_nat (length (hash_list hash)) < 414054 →
  ∃ hash', alpm_pkghash_add hash p = Some hash' ∧ pkghash_inv hash' ∧
    hash_list hash' = hash_list hash ++ [p].
Proof.
  intros Hi Hp Hn Ha Hlen. pose proof (add_spec hash p false Hi Hp Hn Ha) as H.
  unfold alpm_pkghash_add. destruct (pkghash_add_pkg hash p false) as [h'|]; [by exists h'; destruct H|].
  destruct H as [Hfull Hc]. destruct (prime_sizes _ (inv_prime hash Hi)) as (_ & _ & _ & Hmax).
  specialize (Hmax Hc). rewrite (inv_entries hash Hi), (inv_limit hash Hi) in Hfull. lia.
Qed.

Section populate.
Context (dbpath : cstr) (fs : fsys) (treename : cstr).

(** A directory of the database and what its name says. *)
Definition names_package (name n v : cstr) (k : Z) : Prop :=
  is_dir dbpath fs name = true ∧ alpm_splitname name = SplitOk n v k.

(** The packages of a table come from directories among [names], or from
    before. *)
Record loaded_from (names : list cstr) (old new : list alpm_pkg_t) : Prop := {
  lf_names : ∀ n, n ∈ map pkg_name new ↔
    n ∈ map pkg_name old ∨ ∃ name v k, name ∈ names ∧ names_package name n v k;
  lf_pkgs : ∀ p, p ∈ new → p ∈ old ∨
    ∃ name n v k a, name ∈ names ∧ names_package name n v k ∧ p = db_entry a treename n v k
}.

Lemma loaded_skip name names old new :
  (∀ n v k, names_package name n v k → n ∈ map pkg_name old) →
  loaded_from names old new → loaded_from (name :: names) old new.
Proof.
  intros Hskip [H1 H2]. split.
  - intros n. rewrite H1. split; [intros [?|(? & ? & ? & ? & ?)]; [by left|right; eexists _, _, _; split; [by right|done]]|].
    intros [?|(nm & v & k & [->|?]%elem_of_cons & ?)]; [by left|left; by eapply Hskip|right; eauto].
  - intros p [?|(nm & n & v & k & a & ? & ? & ?)]%H2; [by left|right].
    exists nm, n, v, k, a. split; [by right|done].
Qed.

Lemma loaded_add name names old new n v k a :
  names_package name n v k →
  loaded_from names (old ++ [db_entry a treename n v k]) new → loaded_from (name :: names) old new.
Proof.
  intros Hn [H1 H2]. split.
  - intros m. rewrite H1, map_app, elem_of_app. cbn [map pkg_name db_entry]. split.
    + intros [[?|Hm%list_elem_of_singleton]|(nm & v' & k' & ? & ?)]; [by left|right..].
      * subst m. exists name, v, k. split; [by left|done].
      * exists nm, v', k'. split; [by right|done].
    + intros [?|(nm & v' & k' & [->|?]%elem_of_cons & [Hd' Hs'])]; [by left; left| |right; eexists _, _, _; done].
      destruct Hn as [_ Hs]. rewrite Hs in Hs'. injection Hs' as -> _ _. left. right. set_solver.
  - intros p [Hp|(nm & n' & v' & k' & a' & ? & ? & ?)]%H2.
    + apply elem_of_app in Hp as [?|Hp%list_elem_of_singleton]; [by left|right; subst p].
      exists name, n, v, k, a. split; [by left|done].
    + right. exists nm, n', v', k', a'. split; [by right|done].
Qed.

Lemma read_base a n v k :
  local_db_read dbpath fs (db_entry a treename n v k) INFRQ_BASE = Some (db_entry a treename n v k, 0).
Proof.
  set (e := db_entry _ _ _ _ _). unfold local_db_read, when_missing. evals (pkg_infolevel e) 0.
  evals (Z.land 0 INFRQ_BASE =? INFRQ_BASE) false. evals (has_flag 0 INFRQ_ERROR) false.
  cbn [mbind option_bind]. evals (has_flag INFRQ_BASE INFRQ_DESC) false. cbn [andb mbind option_bind].
  evals (has_flag INFRQ_BASE INFRQ_FILES) false. cbn [andb mbind option_bind].
  by evals (has_flag INFRQ_BASE INFRQ_SCRIPTLET) false.
Qed.

Lemma populate_loop_spec names hash next :
  pkghash_inv hash → Forall (λ p, (pkg_addr p < next)%nat) (hash_list hash) →
  (∀ name, name ∈ names → is_dir dbpath fs name = true → alpm_splitname name ≠ SplitUB) →
  Z.of_nat (length (hash_list hash) + length names) < 414054 →
  ∃ hash' next', populate_loop dbpath fs treename names hash (length (hash_list hash)) next
                 = PopulateDone hash' (length (hash_list hash')) next' ∧
    pkghash_inv hash' ∧ (next <= next')%nat ∧
    Forall (λ p, (pkg_addr p < next')%nat) (hash_list hash') ∧
    loaded_from names (hash_list hash) (hash_list hash').
Proof.
  revert hash next. induction names as [|name names IH]; intros hash next Hi Ha Hub Hlen; cbn [populate_loop].
  { exists hash, next. split_and!; [done..|]. split; [|by left]. intros n. split; [by left|].
    intros [?|(? & ? & ? & ?%elem_of_nil & _)]; done. }
  assert (∀ next1, (next <= next1)%nat → (∀ n v k, names_package name n v k → n ∈ map pkg_name (hash_list hash)) →
    ∃ hash' next', populate_loop dbpath fs treename names hash (length (hash_list hash)) next1
                 = PopulateDone hash' (length (hash_list hash')) next' ∧
    pkghash_inv hash' ∧ (next <= next')%nat ∧
    Forall (λ p, (pkg_addr p < next')%nat) (hash_list hash') ∧
    loaded_from (name :: names) (hash_list hash) (hash_list hash')) as Hskip.
  { intros next1 Hn1 Hs. destruct (IH hash next1) as (hash' & next' & E & H1 & H2 & H3 & H4); [done| | |simpl in Hlen; lia|].
    - eapply Forall_impl; [exact Ha|]. simpl. lia.
    - intros nm Hnm. apply Hub. by right.
    - exists hash', next'. split_and!; [done|done|lia|done|]. by apply loaded_skip. }
  destruct (is_dir dbpath fs name) eqn:Ed; cbn [negb];
    [|apply Hskip; [lia|]; intros ? ? ? [? _]; congruence].
  destruct (alpm_splitname name) as [| |n v k] eqn:Es.
  { exfalso. by apply (Hub name); [left| |]. }
  { apply Hskip; [lia|]. intros ? ? ? [_ ?]. congruence. }
  rewrite find_spec by done. destruct (alpm_pkg_find (hash_list hash) n) as [q|] eqn:Ef.
  { apply Hskip; [lia|]. intros n' v' k' [_ E']. rewrite Es in E'. injection E' as -> _ _.
    apply pkg_find_Some in Ef as [Hq <-]. by apply list_elem_of_fmap_2. }
  rewrite read_base. cbn [Z.eqb]. set (e := db_entry next treename n v k).
  apply pkg_find_None in Ef; [|apply Hi].
  destruct (add_fits hash e Hi) as (hash1 & -> & Hi1 & Hl1).
  - by apply splitname_hash in Es as ->.
  - done.
  - intros (q & Eq & Hq)%list_elem_of_fmap. rewrite Forall_forall in Ha. apply Ha in Hq. simpl in Eq. lia.
  - simpl in Hlen. lia.
  - destruct (IH hash1 (S next) Hi1) as (hash' & next' & E & H1 & H2 & H3 & H4).
    + rewrite Hl1. apply Forall_app. split; [eapply Forall_impl; [exact Ha|]; simpl; lia|].
      repeat constructor.
    + intros nm Hnm. apply Hub. by right.
    + rewrite Hl1, length_app. simpl in *. lia.
    + exists hash', next'. rewrite <-E, Hl1, length_app, Nat.add_comm. split_and!; [done|done|lia|done|].
      apply (loaded_add name names _ _ n v k next); [done|]. rewrite Hl1 in H4. exact H4.
Qed.
End populate.

Lemma inv_relist hash l :
  pkghash_inv hash → l ≡ₚ hash_list hash →
  pkghash_inv (mk_pkghash (hash_table hash) l (buckets hash) (entries hash) (limit hash)).
Proof.
  intros Hi Hl. split; cbn; try apply Hi; try (rewrite Hl; apply Hi).
  unfold hashes_ok. rewrite Hl. apply Hi.
Qed.

Definition by_name (p q : alpm_pkg_t) : Prop := alpm_pkg_cmp p q <= 0.

Lemma local_db_populate_spec (dbpath : cstr) (nlink : Z) (fs : fsys) (h : alpm_handle_t)
    (db : alpm_db_t) (names : list cstr) :
  has_flag (db_status db) DB_STATUS_INVALID = false →
  has_flag (db_status db) DB_STATUS_MISSING = false →
  readdir fs dbpath = Some names →
  (∀ name, name ∈ names → is_dir dbpath fs name = true → alpm_splitname name ≠ SplitUB) →
  Z.of_nat (length names) < 414054 → is_Some (alpm_pkghash_create (est_count nlink names)) →
  ∃ h' db', local_db_populate dbpath nlink fs h db = Some (h', db', 0) ∧ db_inv db' ∧
    StronglySorted by_name (db_packages db') ∧
    Forall (λ p, (pkg_addr p < h_next h')%nat) (db_packages db') ∧
    loaded_from dbpath fs (db_treename db) names [] (db_packages db').
Proof.
  intros H1 H2 Hr Hub Hlen [hash0 Hc]. unfold local_db_populate. rewrite H1, H2, Hr, Hc.
  destruct (create_inv _ _ Hc) as (Hi0 & Hnil & _).
  destruct (populate_loop_spec dbpath fs (db_treename db) names hash0 (h_next h) Hi0)
    as (hash & next & E & Hi & _ & Ha & Hf); [rewrite Hnil; constructor|done|by rewrite Hnil|].
  cbn [db_treename db_set_status db_set_caches]. rewrite Hnil in E, Hf. cbn [length] in E. rewrite E.
  set (l := if (0 <? length (hash_list hash))%nat then _ else _).
  assert (l ≡ₚ hash_list hash ∧ StronglySorted by_name l) as [Hl Hs].
  { unfold l. destruct (hash_list hash) as [|p ps] eqn:El; [split; [done|constructor]|].
    change (0 <? length (p :: ps))%nat with true. split; [apply msort_perm|].
    by apply msort_rec_sorted; [apply _|..]. }
  eexists _, _. split; [reflexivity|]. cbn [db_inv db_pkgcache db_packages db_set_caches hash_list h_next set_next].
  split_and!; [by apply inv_relist|done| |].
  - by rewrite Hl.
  - destruct Hf as [F1 F2]. split; [intros n; by rewrite Hl|]. intros p. rewrite Hl. apply F2.
Qed.

(** ** Facts: directories *)
Lemma no_slash s : existsb is_slash s = false ↔ "/"%char ∉ s.
Proof.
  rewrite <-not_true_iff_false, existsb_exists. split; intros H Hs; apply H.
  - exists "/"%char. split; [by apply list_elem_of_In|done].
  - destruct Hs as (c & Hc%list_elem_of_In & E). unfold is_slash in E. by apply Ascii.eqb_eq in E as ->.
Qed.

Lemma dir_prefix_slash dir : dir_prefix (dir ++ str "/") = dir ++ str "/".
Proof. unfold dir_prefix. by rewrite is_dir_name_app. Qed.

Lemma entry_of_Some dir path name :
  entry_of (dir ++ str "/") path = Some name ↔
  path = dir ++ str "/" ++ name ∧ name ≠ [] ∧ "/"%char ∉ name.
Proof.
  unfold entry_of. rewrite dir_prefix_slash. destruct (is_prefix (dir ++ str "/") path) eqn:Ep.
  - apply is_prefix_spec in Ep as [s ->]. rewrite drop_app_length. rewrite <-app_assoc.
    destruct s as [|c s]; [split; [done|]; intros (E & Hn & _); apply app_inv_head in E; by destruct name|].
    destruct (existsb is_slash (c :: s)) eqn:Es.
    + split; [done|]. intros (E & _ & Hn). apply app_inv_head, app_inv_head in E. subst name.
      apply no_slash in Hn. congruence.
    + apply no_slash in Es. split; [intros [= <-]; done|]. intros (E & _). by apply app_inv_head, app_inv_head in E as ->.
  - split; [done|]. intros (-> & _). exfalso. apply not_true_iff_false in Ep. apply Ep, is_prefix_spec.
    exists name. by rewrite <-app_assoc.
Qed.

Lemma readdir_elem (fs : fsys) dir names name :
  readdir fs (dir ++ str "/") = Some names →
  name ∈ names ↔ is_Some (fs !! (dir ++ str "/" ++ name)) ∧ name ≠ [] ∧ "/"%char ∉ name.
Proof.
  unfold readdir. destruct (lstat _ _) as [[|]|]; [|done..]. intros [= <-].
  rewrite list_elem_of_omap. split.
  - intros (path & ([p n] & -> & Hp)%list_elem_of_fmap & (E & Hn)%entry_of_Some). simpl in *. subst p.
    apply elem_of_map_to_list in Hp. split; [by eexists|done].
  - intros ([n Hn] & Hne). exists (dir ++ str "/" ++ name). split.
    + apply list_elem_of_fmap. exists (dir ++ str "/" ++ name, n). split; [done|]. by apply elem_of_map_to_list.
    + by apply entry_of_Some.
Qed.

Lemma omap_NoDup {A B} (f : A → option B) (l : list A) :
  NoDup l → (∀ x y z, f x = Some z → f y = Some z → x = y) → NoDup (omap f l).
Proof.
  intros Hl Hf. induction Hl as [|x l Hx Hl IH]; simpl; [constructor|].
  destruct (f x) as [z|] eqn:E; [|done]. constructor; [|done].
  intros (y & Hy & Ey)%list_elem_of_omap. by rewrite (Hf x y z E Ey) in Hx.
Qed.

Lemma readdir_NoDup (fs : fsys) dir names : readdir fs (dir ++ str "/") = Some names → NoDup names.
Proof.
  unfold readdir. destruct (lstat _ _) as [[|]|]; [|done..]. intros [= <-].
  apply omap_NoDup; [apply NoDup_fst_map_to_list|].
  intros x y z (-> & _)%entry_of_Some (-> & _)%entry_of_Some. done.
Qed.

Section lifecycle.
Context (sys : os) (root : cstr).
Implicit Types (fs : fsys) (p : alpm_pkg_t).

(** The database directory is [root]; its path is [root] with a slash. *)
Let dbpath := root ++ str "/".

Definition entry_name p : cstr := pkg_name p ++ str "-" ++ pkg_version p.
Definition entry_dir p : cstr := root ++ str "/" ++ entry_name p.

(** A file directly in the directory of an entry, or the directory itself. *)
Definition in_entry p (q : cstr) : Prop :=
  q = entry_dir p ∨ ∃ f, q = entry_dir p ++ str "/" ++ f ∧ f ≠ [] ∧ "/"%char ∉ f.

#[export] Instance in_entry_dec p q : Decision (in_entry p q).
Proof.
  refine (cast_if (decide (q = entry_dir p ∨ is_Some (entry_of (entry_dir p ++ str "/") q))));
    unfold in_entry; [destruct o as [?|[f ?%entry_of_Some]]; [by left|right; by exists f]|].
  intros [?|(f & ? & ?)]; apply n; [by left|right]. exists f. by apply entry_of_Some.
Defined.

(** Names without a slash, as [Package.alpm_pkg_check_meta] asks of versions. *)
Definition plain_name p : Prop := "/"%char ∉ pkg_name p ∧ "/"%char ∉ pkg_version p.

Lemma entry_name_plain p : plain_name p → "/"%char ∉ entry_name p ∧ entry_name p ≠ [].
Proof.
  intros [H1 H2]. unfold entry_name. split; [|by destruct (pkg_name p)].
  rewrite !elem_of_app. intros [?|[?|?]]; [done| |done]. vm_compute in H. set_solver.
Qed.

Lemma pkgpath_entry p f : alpm_local_db_pkgpath dbpath p (Some f) = entry_dir p ++ str "/" ++ f.
Proof. unfold alpm_local_db_pkgpath, entry_dir, entry_name, dbpath. by rewrite <-!app_assoc. Qed.

Lemma pkgpath_dir p : alpm_local_db_pkgpath dbpath p None = entry_dir p ++ str "/".
Proof. unfold alpm_local_db_pkgpath, entry_dir, entry_name, dbpath. by rewrite <-!app_assoc. Qed.

Lemma not_dir_name s : "/"%char ∉ s → is_dir_name s = false.
Proof.
  unfold is_dir_name. destruct s as [|c s _] using rev_ind; [done|]. rewrite last_snoc. intros Hs.
  apply Ascii.eqb_neq. set_solver.
Qed.

Lemma llstat_dir d : is_dir_name d = false → d ≠ [] → llstat_path (d ++ str "/") = d.
Proof.
  intros H Hne. destruct d as [|c d]; [done|]. simpl. f_equal.
  change (str "/") with ["/"%char]. rewrite drop_while_end_snoc. cbn.
  pose proof (llstat_file _ H) as E. by injection E.
Qed.

Lemma entry_dir_file p : plain_name p → llstat_path (entry_dir p ++ str "/") = entry_dir p.
Proof.
  intros [H1 H2]%entry_name_plain. apply llstat_dir; [|unfold entry_dir; by destruct root].
  unfold entry_dir. rewrite !is_dir_name_app; [by apply not_dir_name|done|done].
Qed.

Lemma entry_dir_parent p : plain_name p → root ≠ [] → mdirname (Some (entry_dir p)) = root.
Proof.
  intros [H1 H2]%entry_name_plain Hr. unfold mdirname, entry_dir. change (str "/" ++ ?x) with ("/"%char :: x).
  rewrite split_last_app by done. destruct (root ++ _) eqn:E; [by destruct root|]. by destruct root.
Qed.

(** ** Facts: removing an entry *)
Lemma unlink_entries_spec d names fs ret :
  NoDup names →
  Forall (λ f, (∃ data, fs !! (d ++ f) = Some (NFile data)) ∧ os_denied sys (d ++ f) = false
               ∧ (length d + length f + 2 <= PATH_MAX)%nat) names →
  ∃ fs', unlink_entries sys d names fs ret = (fs', ret) ∧
    ∀ q, fs' !! q = if decide (q ∈ map (app d) names) then None else fs !! q.
Proof.
  intros Hnd. revert fs. induction Hnd as [|f names Hf Hnd IH]; intros fs Hall; cbn [unlink_entries].
  { exists fs. split; [done|]. intros q. by rewrite decide_False by apply not_elem_of_nil. }
  apply Forall_cons in Hall as [([data Hd] & Hden & Hlen) Hall].
  rewrite (proj2 (Nat.ltb_ge _ _)) by lia. unfold unlink. rewrite Hd, Hden.
  destruct (IH (delete (d ++ f) fs)) as (fs' & E & Hfs').
  { rewrite Forall_forall in Hall |- *. intros g Hg. destruct (Hall g Hg) as ([x Hx] & ?). split; [|done].
    exists x. rewrite lookup_delete_ne; [done|]. intros Eq%app_inv_head. by subst. }
  exists fs'. split; [done|]. intros q. rewrite Hfs'. destruct (decide (q = d ++ f)) as [->|Hne].
  - rewrite lookup_delete_eq. rewrite (decide_True (P := _ ∈ map _ (f :: names))); [by destruct (decide _)|].
    by left.
  - rewrite lookup_delete_ne by done. apply decide_ext. cbn [map]. rewrite elem_of_cons. tauto.
Qed.

Record entry_removable p fs : Prop := {
  r_dir : fs !! entry_dir p = Some NDir ∧ os_denied sys (entry_dir p) = false;
  r_files : ∀ f, f ≠ [] → "/"%char ∉ f → is_Some (fs !! (entry_dir p ++ str "/" ++ f)) →
    (∃ data, fs !! (entry_dir p ++ str "/" ++ f) = Some (NFile data)) ∧
    os_denied sys (entry_dir p ++ str "/" ++ f) = false ∧
    (length (entry_dir p ++ str "/") + length f + 2 <= PATH_MAX)%nat
}.

Lemma local_db_remove_spec p fs :
  plain_name p → entry_removable p fs →
  ∃ fs', alpm_local_db_remove sys dbpath p fs = (fs', 0) ∧
    (∀ q, in_entry p q → fs' !! q = None) ∧ (∀ q, ¬ in_entry p q → fs' !! q = fs !! q).
Proof.
  intros Hp [[Hd Hden] Hfiles]. unfold alpm_local_db_remove. rewrite pkgpath_dir.
  set (d := entry_dir p ++ str "/"). assert (lstat fs d = Some NDir) as Hl
    by (unfold lstat, d; by rewrite entry_dir_file).
  destruct (readdir fs d) as [names|] eqn:Er; [|unfold readdir in Er; by rewrite Hl in Er].
  assert (∀ f, f ∈ names ↔ is_Some (fs !! (entry_dir p ++ str "/" ++ f)) ∧ f ≠ [] ∧ "/"%char ∉ f) as Hnames
    by (intros f; by apply readdir_elem).
  assert (∀ f, d ++ f = entry_dir p ++ str "/" ++ f) as Hdf by (intros f; unfold d; by rewrite <-app_assoc).
  destruct (unlink_entries_spec d names fs 0) as (fs1 & -> & Hfs1).
  { by apply (readdir_NoDup fs (entry_dir p)). }
  { apply Forall_forall. intros f (? & ? & ?)%Hnames. rewrite Hdf. by apply Hfiles. }
  assert (fs1 !! entry_dir p = Some NDir) as Hd1.
  { rewrite Hfs1, decide_False; [done|]. intros (f & E & _)%list_elem_of_fmap. rewrite Hdf in E.
    symmetry in E. by apply suffix_ne in E. }
  unfold rmdir. assert (lstat fs1 d = Some NDir) as Hl1 by (unfold lstat, d; by rewrite entry_dir_file).
  rewrite Hl1. destruct (readdir fs1 d) as [names1|] eqn:Er1; [|unfold readdir in Er1; by rewrite Hl1 in Er1].
  assert (names1 = []) as ->.
  { destruct names1 as [|f names1]; [done|]. exfalso.
    pose proof (proj1 (readdir_elem fs1 (entry_dir p) _ f Er1) (list_elem_of_here _ _)) as ([x Hx] & Hf1 & Hf2).
    rewrite Hfs1 in Hx. destruct (decide _) as [|Hno]; [done|]. apply Hno. apply list_elem_of_fmap. exists f. split; [by rewrite Hdf|].
    apply Hnames. split; [by exists x|done]. }
  unfold d at 1. rewrite entry_dir_file by done. rewrite Hden. eexists. split; [reflexivity|].
  unfold d. rewrite entry_dir_file by done. split.
  - intros q [->|(f & -> & Hf)]; [by rewrite lookup_delete_eq|].
    rewrite lookup_delete_ne by (intros E; symmetry in E; by apply suffix_ne in E).
    rewrite Hfs1. destruct (decide _) as [|Hno]; [done|]. apply eq_None_not_Some. intros Hs. apply Hno.
    apply list_elem_of_fmap. exists f. split; [by rewrite Hdf|by apply Hnames].
  - intros q Hq. rewrite lookup_delete_ne by (intros <-; apply Hq; by left).
    rewrite Hfs1, decide_False; [done|]. intros (f & -> & (_ & ?)%Hnames)%list_elem_of_fmap. apply Hq. right. exists f.
    by rewrite Hdf.
Qed.

(** ** Facts: a new entry *)
Record db_root fs : Prop := {
  d_path : root ≠ [] ∧ is_dir_name root = false;
  d_dir : fs !! root = Some NDir
}.

(** There is no trace of the entry, and it may be created. *)
Definition entry_absent p fs : Prop :=
  ∀ q, in_entry p q → fs !! q = None ∧ os_denied sys q = false.

Lemma prepare_spec p fs :
  plain_name p → db_root fs → entry_absent p fs →
  alpm_local_db_prepare sys dbpath p fs = (<[entry_dir p := NDir]> fs, 0).
Proof.
  intros Hp [[Hr1 Hr2] Hd] Ha. destruct (Ha (entry_dir p)) as [H1 H2]; [by left|].
  unfold alpm_local_db_prepare, checkdbdir, stat, lstat. unfold dbpath at 1. rewrite llstat_dir, Hd by done.
  cbn [Z.eqb negb]. unfold mkdir. rewrite pkgpath_dir, entry_dir_file by done.
  by rewrite H1, entry_dir_parent, Hd, H2.
Qed.

Lemma in_entry_file p f : f ≠ [] → "/"%char ∉ f → in_entry p (entry_dir p ++ str "/" ++ f).
Proof. intros H1 H2. right. by exists f. Qed.

Lemma new_entry_writable p fs :
  entry_absent p fs → entry_writable sys dbpath p (<[entry_dir p := NDir]> fs).
Proof.
  intros Ha. split.
  - assert (dbpath ++ pkg_name p ++ str "-" ++ pkg_version p = entry_dir p) as ->
      by (unfold dbpath, entry_dir, entry_name; by rewrite <-app_assoc). by rewrite lookup_insert_eq.
  - apply Forall_forall. intros f Hf. rewrite pkgpath_entry.
    destruct (Ha (entry_dir p ++ str "/" ++ f)) as [H1 H2].
    { apply in_entry_file; set_unfold in Hf; destruct Hf as [->|[->|[]]]; vm_compute; set_solver. }
    split; [|done]. rewrite lookup_insert_ne by (intros E; symmetry in E; by apply suffix_ne in E).
    by rewrite H1.
Qed.

(** The packages the directory names: what [local_db_populate] loads. *)
Definition in_db fs (n : cstr) : Prop :=
  ∃ names name v k, readdir fs dbpath = Some names ∧ name ∈ names ∧ names_package dbpath fs name n v k.

Lemma in_db_iff fs n :
  db_root fs →
  in_db fs n ↔ ∃ name v k, name ≠ [] ∧ "/"%char ∉ name ∧ fs !! (root ++ str "/" ++ name) = Some NDir ∧
                           alpm_splitname name = SplitOk n v k.
Proof.
  intros [[H1 H2] Hd]. assert (∃ names, readdir fs dbpath = Some names) as [names Hn].
  { unfold readdir, lstat, dbpath. rewrite llstat_dir, Hd by done. eauto. }
  assert (∀ name, is_dir dbpath fs name = true ↔ fs !! (root ++ str "/" ++ name) = Some NDir) as Hdir.
  { intros name. unfold is_dir, dbpath. rewrite <-app_assoc.
    destruct (fs !! (root ++ str "/" ++ name)) as [[|]|]; split; congruence. }
  split.
  - intros (names' & name & v & k & Hr & Hin & [Hi Hs]). apply Hdir in Hi.
    apply (readdir_elem fs root) in Hin; [|done]. exists name, v, k. tauto.
  - intros (name & v & k & ? & ? & Hi & ?). exists names, name, v, k. split; [done|]. split.
    + apply (readdir_elem fs root); [done|]. split; [by eexists|done].
    + split; [by apply Hdir|done].
Qed.

Lemma entry_dir_inj p name : root ++ str "/" ++ name = entry_dir p → name = entry_name p.
Proof. unfold entry_dir. by intros E%app_inv_head%app_inv_head. Qed.

(** A file in the directory of an entry is not in the database directory. *)
Lemma entry_file_deep p f name : "/"%char ∉ name → root ++ str "/" ++ name ≠ entry_dir p ++ str "/" ++ f.
Proof.
  intros Hn E. unfold entry_dir in E. rewrite <-!app_assoc in E. apply app_inv_head, app_inv_head in E.
  subst name. apply Hn. rewrite !elem_of_app. right. left. vm_compute. set_solver.
Qed.
(** The file system with the new entry. *)
Definition with_entry p fs : fsys :=
  <[entry_dir p ++ str "/" ++ str "files" := NFile (files_text p)]>
    (<[entry_dir p ++ str "/" ++ str "desc" := NFile (desc_text p)]> (<[entry_dir p := NDir]> fs)).

Lemma with_entry_other p fs q : ¬ in_entry p q → with_entry p fs !! q = fs !! q.
Proof.
  intros Hq. unfold with_entry. rewrite !lookup_insert_ne; [done|intros <-; apply Hq..].
  - by left.
  - by apply in_entry_file; vm_compute; set_solver.
  - by apply in_entry_file; vm_compute; set_solver.
Qed.

Lemma with_entry_dir p fs : with_entry p fs !! entry_dir p = Some NDir.
Proof.
  unfold with_entry. rewrite !lookup_insert_ne by (intros E; by apply suffix_ne in E).
  by rewrite lookup_insert_eq.
Qed.

Lemma with_entry_file p fs f x :
  entry_absent p fs → f ≠ [] → "/"%char ∉ f → with_entry p fs !! (entry_dir p ++ str "/" ++ f) = Some x →
  (f = str "desc" ∧ x = NFile (desc_text p)) ∨ (f = str "files" ∧ x = NFile (files_text p)).
Proof.
  intros Ha H1 H2. unfold with_entry. rewrite !lookup_insert_Some.
  intros [[E <-]|[_ [[E <-]|[_ [[E _]|[_ Hx]]]]]].
  - right. by apply app_inv_head, app_inv_head in E.
  - left. by apply app_inv_head, app_inv_head in E.
  - symmetry in E. by apply suffix_ne in E.
  - destruct (Ha _ (in_entry_file p f H1 H2)) as [Hn _]. congruence.
Qed.

Lemma with_entry_removable p fs :
  entry_absent p fs → (length (entry_dir p) + 8 <= PATH_MAX)%nat → entry_removable p (with_entry p fs).
Proof.
  intros Ha Hlen. split.
  - split; [apply with_entry_dir|]. apply Ha. by left.
  - intros f H1 H2 [x Hx]. rewrite Hx. destruct (Ha _ (in_entry_file p f H1 H2)) as [_ Hd].
    rewrite length_app. change (length (str "/")) with 1%nat.
    destruct (with_entry_file p fs f x Ha H1 H2 Hx) as [[-> ->]|[-> ->]];
      (split; [by eexists|split; [done|]]); change (length (str _)) with 4%nat || change (length (str _)) with 5%nat; lia.
Qed.

Lemma with_entry_remove p fs :
  plain_name p → entry_absent p fs → (length (entry_dir p) + 8 <= PATH_MAX)%nat →
  alpm_local_db_remove sys dbpath p (with_entry p fs) = (fs, 0).
Proof.
  intros Hp Ha Hlen.
  destruct (local_db_remove_spec p (with_entry p fs) Hp) as (fs' & E & H1 & H2); [by apply with_entry_removable|].
  rewrite E. f_equal. apply map_eq. intros q. destruct (decide (in_entry p q)) as [Hq|Hq].
  - rewrite H1 by done. symmetry. by apply Ha.
  - rewrite H2 by done. by apply with_entry_other.
Qed.

Lemma with_entry_in_db p fs hash n :
  plain_name p → db_root fs → alpm_splitname (entry_name p) = SplitOk (pkg_name p) (pkg_version p) hash →
  entry_absent p fs → in_db (with_entry p fs) n ↔ n = pkg_name p ∨ in_db fs n.
Proof.
  intros Hp Hr Hs Ha. pose proof (entry_name_plain p Hp) as [Hn1 Hn2].
  assert (db_root (with_entry p fs)) as Hr'.
  { destruct Hr as [Hpath Hd]. split; [done|]. rewrite with_entry_other; [done|].
    intros Hin. destruct (Ha root Hin) as [Hnone _]. congruence. }
  rewrite !in_db_iff by done. split.
  - intros (name & v & k & H1 & H2 & H3 & H4). destruct (decide (name = entry_name p)) as [->|Hne].
    { left. congruence. }
    right. exists name, v, k. split_and!; [done..| |done]. rewrite <-H3. symmetry. apply with_entry_other.
    intros [E%entry_dir_inj|(f & E & _)]; [done|]. by apply entry_file_deep in E.
  - intros [->|(name & v & k & H1 & H2 & H3 & H4)].
    + exists (entry_name p), (pkg_version p), hash. split_and!; [done..| |done]. apply with_entry_dir.
    + exists name, v, k. split_and!; [done..| |done]. rewrite with_entry_other; [done|].
      intros Hin. destruct (Ha _ Hin) as [Hnone _]. congruence.
Qed.

Lemma with_entry_written db p fs fs2 :
  alpm_local_db_write sys dbpath db p INFRQ_ALL (<[entry_dir p := NDir]> fs) = (fs2, 0) →
  fs2 = with_entry p fs.
Proof. intros ->%local_db_write_spec. by rewrite !pkgpath_entry. Qed.

Lemma with_entry_read p fs addr treename hash :
  writable p → text_ok (pkg_desc p) → entry_absent p fs →
  local_db_read dbpath (with_entry p fs) (db_entry addr treename (pkg_name p) (pkg_version p) hash) INFRQ_ALL
  = Some (recorded addr treename hash (pkg_desc p) true 0 disk_levels p, 0).
Proof.
  intros Hw Ht Ha. rewrite (local_db_read_spec dbpath _ p addr treename hash (pkg_desc p)).
  - rewrite pkgpath_entry. destruct (with_entry p fs !! (entry_dir p ++ str "/" ++ str "install")) as [x|] eqn:E;
      [|done]. apply with_entry_file in E as [[? _]|[? _]]; done || (vm_compute; set_solver).
  - done.
  - by apply reads_description_ok.
  - rewrite pkgpath_entry. unfold with_entry. rewrite lookup_insert_ne, lookup_insert_eq; [done|].
    by intros E%app_inv_head%app_inv_head.
  - rewrite pkgpath_entry. unfold with_entry. by rewrite lookup_insert_eq.
Qed.
End lifecycle.

(** ** Facts: the install reason *)
Lemma read_desc_level (dbpath : cstr) (fs : fsys) (p : alpm_pkg_t) (addr : nat) (treename : cstr) (hash : Z) :
  writable p → text_ok (pkg_desc p) →
  fs !! alpm_local_db_pkgpath dbpath p (Some (str "desc")) = Some (NFile (desc_text p)) →
  local_db_read dbpath fs (db_entry addr treename (pkg_name p) (pkg_version p) hash) INFRQ_DESC =
    Some (recorded addr treename hash (pkg_desc p) false 0 INFRQ_DESC p, 0).
Proof.
  intros Hw Ht Hd. unfold local_db_read, when_missing. set (e := db_entry _ _ _ _ _).
  evals (pkg_infolevel e) 0. evals (Z.land 0 INFRQ_DESC =? INFRQ_DESC) false.
  evals (has_flag 0 INFRQ_ERROR) false. cbn [mbind option_bind]. evals (pkg_infolevel e) 0.
  evals (true && has_flag INFRQ_DESC INFRQ_DESC && negb (has_flag 0 INFRQ_DESC)) true. cbv iota.
  evals (has_flag INFRQ_DESC INFRQ_FILES) false. evals (has_flag INFRQ_DESC INFRQ_SCRIPTLET) false.
  unfold db_read_desc. change (alpm_local_db_pkgpath dbpath e) with (alpm_local_db_pkgpath dbpath p).
  pose proof (desc_text_reads addr treename hash (pkg_desc p) p Hw (reads_description_ok _ Ht)) as Hr.
  apply reads_enough in Hr. fold e in Hr. rewrite Hd, Hr. reflexivity.
Qed.

Lemma set_reason_writable p r : writable p → writable (set_reason p r).
Proof. by intros []. Qed.

Lemma write_desc_ok (sys : os) (dbpath : cstr) (db : alpm_db_t) (p q : alpm_pkg_t) (fs : fsys) :
  has_flag (db_status db) DB_STATUS_LOCAL = true → entry_writable sys dbpath p fs →
  (∀ f, alpm_local_db_pkgpath dbpath q f = alpm_local_db_pkgpath dbpath p f) →
  alpm_local_db_write sys dbpath db q INFRQ_DESC fs =
    (<[alpm_local_db_pkgpath dbpath p (Some (str "desc")) := NFile (desc_text q)]> fs, 0).
Proof.
  intros Hdb [Hdir Hf] Hq. apply Forall_cons in Hf as [[H1 H2] _].
  unfold alpm_local_db_write. rewrite Hdb, Hq. cbn [negb].
  change (has_flag INFRQ_DESC INFRQ_DESC) with true. change (has_flag INFRQ_DESC INFRQ_FILES) with false.
  cbv iota. rewrite write_file_ok; [done| |done|done].
  by rewrite pkgpath_dirname by (vm_compute; set_solver).
Qed.

(** ** Properties *)

(** Loading the local database. When every directory in it is named like a
    package entry (two hyphens or more), local_db_populate loads the database: a
    valid package cache, sorted by name, with one package for each package name
    that a directory has, made from one of the directories of that name. *)
Theorem local_db_populate_correct (dbpath : cstr) (nlink : Z) (fs : fsys) (h : alpm_handle_t)
    (db : alpm_db_t) (names : list cstr) :
  has_flag (db_status db) DB_STATUS_INVALID = false →
  has_flag (db_status db) DB_STATUS_MISSING = false →
  readdir fs dbpath = Some names →
  (∀ name, name ∈ names → is_dir dbpath fs name = true → alpm_splitname name ≠ SplitUB) →
  Z.of_nat (length names) < 414054 → is_Some (alpm_pkghash_create (est_count nlink names)) →
  ∃ h' db', local_db_populate dbpath nlink fs h db = Some (h', db', 0) ∧ db_inv db' ∧
    StronglySorted by_name (db_packages db') ∧
    Forall (λ p, (pkg_addr p < h_next h')%nat) (db_packages db') ∧
    (∀ n, n ∈ map pkg_name (db_packages db') ↔
          ∃ name v k, name ∈ names ∧ names_package dbpath fs name n v k) ∧
    (∀ p, p ∈ db_packages db' → ∃ name n v k a, name ∈ names ∧ names_package dbpath fs name n v k ∧
          p = db_entry a (db_treename db) n v k).
Proof.
  intros H1 H2 Hr Hub Hlen Hc.
  destruct (local_db_populate_spec dbpath nlink fs h db names H1 H2 Hr Hub Hlen Hc)
    as (h' & db' & E & Hi & Hs & Ha & [Hn Hp]).
  exists h', db'. split_and!; [done..| |].
  - intros n. rewrite Hn. split; [|by right]. intros [[]%elem_of_nil|?]; done.
  - intros p Hin. by destruct (Hp p Hin) as [[]%elem_of_nil|?].
Qed.

(** C21. The life of an entry: creating the directory, writing the package and
    removing the entry succeed when nothing of the entry is there; while it is
    there, reading it gives the package back and the database names exactly one
    more package; no other path changes; and removing the entry restores the file
    system. *)
Theorem entry_lifecycle (sys : os) (root : cstr) (db : alpm_db_t) (p : alpm_pkg_t) (fs : fsys)
    (addr : nat) (treename : cstr) (hash : Z) :
  writable p → text_ok (pkg_desc p) → plain_name p →
  alpm_splitname (entry_name p) = SplitOk (pkg_name p) (pkg_version p) hash →
  has_flag (db_status db) DB_STATUS_LOCAL = true →
  db_root root fs → entry_absent sys root p fs →
  (length (entry_dir root p) + 8 <= PATH_MAX)%nat →
  let dbpath := root ++ str "/" in
  ∃ fs1 fs2, alpm_local_db_prepare sys dbpath p fs = (fs1, 0) ∧
    alpm_local_db_write sys dbpath db p INFRQ_ALL fs1 = (fs2, 0) ∧
    (∀ q, ¬ in_entry root p q → fs2 !! q = fs !! q) ∧
    (∀ n, in_db root fs2 n ↔ n = pkg_name p ∨ in_db root fs n) ∧
    local_db_read dbpath fs2 (db_entry addr treename (pkg_name p) (pkg_version p) hash) INFRQ_ALL =
      Some (recorded addr treename hash (pkg_desc p) true 0 disk_levels p, 0) ∧
    alpm_local_db_remove sys dbpath p fs2 = (fs, 0).
Proof.
  intros Hw Ht Hp Hsplit Hdb Hroot Ha Hlen dbpath.
  exists (<[entry_dir root p := NDir]> fs).
  destruct (local_db_write_ok sys dbpath db p (<[entry_dir root p := NDir]> fs) Hdb) as [fs2 Hwr];
    [by apply new_entry_writable|].
  exists fs2. pose proof (with_entry_written sys root db p fs fs2 Hwr) as ->. split_and!.
  - by apply prepare_spec.
  - done.
  - apply with_entry_other.
  - intros n. by apply (with_entry_in_db sys root p fs hash).
  - by apply (with_entry_read sys).
  - by apply with_entry_remove.
Qed.

(** Changing the install reason of a package whose entry holds [p]: only the
    file desc of the entry is rewritten, and afterwards the entry reads as before
    except for the new reason; nothing that was recorded is lost, although the
    call has loaded only the description. *)
Theorem set_reason_correct (sys : os) (dbpath : cstr) (h : alpm_handle_t) (p : alpm_pkg_t)
    (r : alpm_pkgreason_t) (fs : fsys) (addr : nat) (hash : Z) :
  let treename := db_treename (h_db_local h) in
  let e := db_entry addr treename (pkg_name p) (pkg_version p) hash in
  writable p → text_ok (pkg_desc p) →
  has_flag (db_status (h_db_local h)) DB_STATUS_LOCAL = true → entry_writable sys dbpath p fs →
  fs !! alpm_local_db_pkgpath dbpath p (Some (str "desc")) = Some (NFile (desc_text p)) →
  fs !! alpm_local_db_pkgpath dbpath p (Some (str "files")) = Some (NFile (files_text p)) →
  ∃ q fs', alpm_pkg_set_reason sys dbpath h e r fs = Some (check_handle h, q, fs', 0) ∧
    pkg_reason q = r ∧
    (∀ path, path ≠ alpm_local_db_pkgpath dbpath p (Some (str "desc")) → fs' !! path = fs !! path) ∧
    local_db_read dbpath fs' e INFRQ_ALL =
      Some (recorded addr treename hash (pkg_desc p) true
              (if fs !! alpm_local_db_pkgpath dbpath p (Some (str "install")) then 1 else 0)
              disk_levels (set_reason p r), 0).
Proof.
  intros treename e Hw Ht Hdb He Hd Hf.
  assert (∀ fs', fs' !! alpm_local_db_pkgpath dbpath p (Some (str "desc")) = Some (NFile (desc_text (set_reason p r))) →
    (∀ path, path ≠ alpm_local_db_pkgpath dbpath p (Some (str "desc")) → fs' !! path = fs !! path) →
    local_db_read dbpath fs' e INFRQ_ALL =
      Some (recorded addr treename hash (pkg_desc p) true
              (if fs !! alpm_local_db_pkgpath dbpath p (Some (str "install")) then 1 else 0)
              disk_levels (set_reason p r), 0)) as Hread.
  { intros fs' Hd' Hfr. rewrite <-(Hfr (alpm_local_db_pkgpath dbpath p (Some (str "install"))))
      by (by intros ?%pkgpath_inj).
    apply (local_db_read_spec dbpath fs' (set_reason p r) addr treename hash (pkg_desc p)).
    - by apply set_reason_writable.
    - by apply reads_description_ok.
    - exact Hd'.
    - etrans; [|exact Hf]. apply Hfr. by intros ?%pkgpath_inj. }
  assert (cache_get_reason dbpath fs e = Some (recorded addr treename hash (pkg_desc p) false 0 INFRQ_DESC p, pkg_reason p)) as Hget.
  { unfold cache_get_reason, cache_get, lazy_load. change (has_flag (pkg_infolevel e) INFRQ_DESC) with false.
    cbn [negb]. unfold e. by rewrite read_desc_level. }
  unfold alpm_pkg_set_reason. change (pkg_origin e) with (ALPM_PKG_FROM_LOCALDB treename).
  unfold treename at 1. rewrite streq_refl. cbn [negb]. rewrite Hget. cbn [mbind option_bind].
  destruct (bool_decide_reflect (pkg_reason p = r)) as [<-|Hne].
  - eexists _, fs. split; [reflexivity|]. split_and!; [done|done|]. apply Hread; [|done].
    assert (set_reason p (pkg_reason p) = p) as -> by (by destruct p). done.
  - rewrite (write_desc_ok sys dbpath _ p _ fs Hdb He) by done. cbn [negb Z.eqb].
    eexists _, _. split; [reflexivity|]. split_and!; [done| |].
    + intros path Hp. by rewrite lookup_insert_ne.
    + apply Hread; [by rewrite lookup_insert_eq|]. intros path Hp. by rewrite lookup_insert_ne.
Qed.

(** ** Examples *)
Definition ex_root : cstr := str "/db/local".
Definition ex_root_fs : fsys :=
  <[ex_root := NDir]> (<[str "/db/local/sh-5-1" := NDir]> (<[str "/db/local/sh-5-1/desc" := NFile []]>
    (<[str "/db/local/ALPM_DB_VERSION" := NFile (str "9")]> ∅))).
Definition ex_vi : alpm_pkg_t := ex_written (str "An editor").

Lemma local_db_populate_correct_witness :
  ∃ names h' db', readdir ex_root_fs ex_dbpath = Some names ∧
    local_db_populate ex_dbpath 3 ex_root_fs empty_handle (alpm_db_new (str "local") true)
    = Some (h', db', 0) ∧ str "sh" ∈ map pkg_name (db_packages db').
Proof.
  assert (∃ names, readdir ex_root_fs ex_dbpath = Some names ∧
    names = [str "sh-5-1"; str "ALPM_DB_VERSION"] ∨ readdir ex_root_fs ex_dbpath = Some names ∧
    names = [str "ALPM_DB_VERSION"; str "sh-5-1"]) as (names & Hnames).
  { eexists. vm_compute. first [left; split; reflexivity|right; split; reflexivity]. }
  assert (readdir ex_root_fs ex_dbpath = Some names) as Hr by tauto.
  destruct (local_db_populate_correct ex_dbpath 3 ex_root_fs empty_handle (alpm_db_new (str "local") true)
    names) as (h' & db' & H1 & _ & _ & _ & H2 & _).
  - reflexivity.
  - reflexivity.
  - exact Hr.
  - intros name Hn Hd Hs. destruct Hnames as [[_ ->]|[_ ->]]; repeat (apply elem_of_cons in Hn as [->|Hn];
      [vm_compute in Hd, Hs; discriminate|]); by apply elem_of_nil in Hn.
  - destruct Hnames as [[_ ->]|[_ ->]]; reflexivity.
  - destruct Hnames as [[_ ->]|[_ ->]]; vm_compute; eexists; reflexivity.
  - exists names, h', db'. split_and!; [exact Hr|exact H1|]. apply H2.
    exists (str "sh-5-1"), (str "5-1"), (alpm_hash_sdbm (str "sh")). split.
    + destruct Hnames as [[_ ->]|[_ ->]]; repeat constructor.
    + split; vm_compute; reflexivity.
Defined.

Lemma ex_vi_absent : entry_absent ex_local_os ex_root ex_vi ex_root_fs.
Proof.
  intros q Hq. split; [|done]. apply eq_None_not_Some. intros [x Hx].
  unfold ex_root_fs in Hx. rewrite !lookup_insert_Some, lookup_empty in Hx.
  destruct Hq as [->|(f & -> & _)].
  - repeat (destruct Hx as [[E _]|[_ Hx]]; [vm_compute in E; discriminate|]). done.
  - repeat (destruct Hx as [[E _]|[_ Hx]]; [vm_compute in E; discriminate|]). done.
Qed.

Lemma entry_lifecycle_witness :
  ∃ fs1 fs2, alpm_local_db_prepare ex_local_os (ex_root ++ str "/") ex_vi ex_root_fs = (fs1, 0) ∧
    alpm_local_db_write ex_local_os (ex_root ++ str "/") (alpm_db_new (str "local") true) ex_vi
      INFRQ_ALL fs1 = (fs2, 0) ∧
    in_db ex_root fs2 (str "vi") ∧
    alpm_local_db_remove ex_local_os (ex_root ++ str "/") ex_vi fs2 = (ex_root_fs, 0).
Proof.
  destruct (entry_lifecycle ex_local_os ex_root (alpm_db_new (str "local") true) ex_vi ex_root_fs 3
    (str "local") (alpm_hash_sdbm (str "vi"))) as (fs1 & fs2 & H1 & H2 & _ & H3 & _ & H4).
  - apply ex_written_writable.
  - concrete_lines.
  - split; vm_compute; set_solver.
  - vm_compute. reflexivity.
  - reflexivity.
  - split; [split; [discriminate|reflexivity]|vm_compute; reflexivity].
  - apply ex_vi_absent.
  - vm_compute. lia.
  - exists fs1, fs2. split_and!; [exact H1|exact H2|apply H3; by left|exact H4].
Defined.

Definition ex_vi_fs : fsys :=
  <[str "/db/local/vi-1:2.0-1" := NDir]> (
  <[str "/db/local/vi-1:2.0-1/desc" := NFile (desc_text ex_vi)]> (
  <[str "/db/local/vi-1:2.0-1/files" := NFile (files_text ex_vi)]> ∅)).

Lemma set_reason_correct_witness :
  ∃ q fs', alpm_pkg_set_reason ex_local_os ex_dbpath
             (set_db_local (alpm_db_new (str "local") true) empty_handle)
             (db_entry 3 (str "local") (str "vi") (str "1:2.0-1") 0) ALPM_PKG_REASON_EXPLICIT ex_vi_fs
    = Some (check_handle (set_db_local (alpm_db_new (str "local") true) empty_handle), q, fs', 0) ∧
    pkg_reason q = ALPM_PKG_REASON_EXPLICIT.
Proof.
  destruct (set_reason_correct ex_local_os ex_dbpath
    (set_db_local (alpm_db_new (str "local") true) empty_handle) ex_vi ALPM_PKG_REASON_EXPLICIT ex_vi_fs 3 0)
    as (q & fs' & H1 & H2 & _).
  - apply ex_written_writable.
  - concrete_lines.
  - reflexivity.
  - split; [vm_compute; reflexivity|]. repeat constructor; vm_compute; (reflexivity || discriminate).
  - vm_compute. reflexivity.
  - vm_compute. reflexivity.
  - exists q, fs'. split; [exact H1|exact H2].
Defined.
