(* ===== verification/Options.v ===== *)
(** * Options of the handle

    lib/libalpm/handle.c (the alpm_option_* functions) and alpm.c
    (alpm_initialize): the values a front end can set, the checks on them, and
    the state a new handle starts from. String arguments that the code may find
    NULL are optional; [None] as a result is undefined behaviour: canonicalize_path
    reads before the first byte of an empty path. Callbacks are not part of the
    handle of the model. *)
From S2P Require Import Prelude CString AlpmList Util Package PkgHash Handle Deps FileList Db FileOps.
From S2P Require Import LocalDb LocalDir.
Local Open Scope Z_scope.

(** ** Paths *)
Definition canonicalize_path (path : cstr) : option cstr :=
  match last path with
  | None => None
  | Some c => Some (if Ascii.eqb c "/"%char then path else path ++ str "/")
  end.

(** What the system answers about paths and users, and how the library was
    built. *)
Record option_env := mk_option_env {
  oe_is_dir : cstr → bool;              (* stat, S_ISDIR *)
  oe_realpath : cstr → option cstr;
  oe_getpwnam : cstr → bool;            (* the user exists *)
  oe_have_gpgme : bool;                 (* HAVE_LIBGPGME *)
  oe_syshookdir : cstr                  (* SYSHOOKDIR *)
}.

Section options.
Context (oe : option_env).

(** The new value of the option, or an error. *)
Definition alpm_set_directory_option (value : option cstr) (must_exist : bool)
    : option (cstr + alpm_errno_t) :=
  match value with
  | None => Some (inr ALPM_ERR_WRONG_ARGS)
  | Some path =>
      if must_exist then
        if negb (oe_is_dir oe path) then Some (inr ALPM_ERR_NOT_A_DIR)
        else match oe_realpath oe path with
             | None => Some (inr ALPM_ERR_NOT_A_DIR)
             | Some real => inl <$> canonicalize_path real
             end
      else inl <$> canonicalize_path path
  end.

(** ** List options *)

(** A field of the handle that holds a list. *)
Record field (A : Type) := mk_field {
  fget : alpm_handle_t → A;
  fset : A → alpm_handle_t → alpm_handle_t
}.
#[local] Arguments mk_field {A}.
#[local] Arguments fget {A}.
#[local] Arguments fset {A}.

Definition f_noupgrade := mk_field h_noupgrade set_noupgrade.
Definition f_noextract := mk_field h_noextract set_noextract.
Definition f_ignorepkg := mk_field h_ignorepkg set_ignorepkg.
Definition f_ignoregroup := mk_field h_ignoregroup set_ignoregroup.
Definition f_overwrite_files := mk_field h_overwrite_files set_overwrite_files.
Definition f_architectures := mk_field h_architectures set_architectures.
Definition f_hookdirs := mk_field h_hookdirs set_hookdirs.
Definition f_cachedirs := mk_field h_cachedirs set_cachedirs.

Definition alpm_option_strlist_add (list : field (list cstr)) (s : cstr) (h : alpm_handle_t)
    : alpm_handle_t * Z :=
  let h := check_handle h in
  (fset list (fget list h ++ [s]) h, 0).

Definition alpm_option_strlist_set (list : field (list cstr)) (newlist : Datatypes.list cstr)
    (h : alpm_handle_t) : alpm_handle_t * Z :=
  (fset list newlist (check_handle h), 0).

(** alpm_list_remove_str does nothing when the needle is NULL. *)
Definition remove_str (l : list cstr) (s : option cstr) : list cstr * Z :=
  match s with
  | None => (l, 0)
  | Some s => let '(l, vdata) := alpm_list_remove_str l s in (l, if is_some vdata then 1 else 0)
  end.

Definition alpm_option_strlist_rem (list : field (list cstr)) (s : option cstr) (h : alpm_handle_t)
    : alpm_handle_t * Z :=
  let h := check_handle h in
  let '(l, rc) := remove_str (fget list h) s in
  (fset list l h, rc).

Definition alpm_option_add_noupgrade := alpm_option_strlist_add f_noupgrade.
Definition alpm_option_set_noupgrades := alpm_option_strlist_set f_noupgrade.
Definition alpm_option_remove_noupgrade := alpm_option_strlist_rem f_noupgrade.
Definition alpm_option_add_noextract := alpm_option_strlist_add f_noextract.
Definition alpm_option_set_noextracts := alpm_option_strlist_set f_noextract.
Definition alpm_option_remove_noextract := alpm_option_strlist_rem f_noextract.
Definition alpm_option_add_ignorepkg := alpm_option_strlist_add f_ignorepkg.
Definition alpm_option_set_ignorepkgs := alpm_option_strlist_set f_ignorepkg.
Definition alpm_option_remove_ignorepkg := alpm_option_strlist_rem f_ignorepkg.
Definition alpm_option_add_ignoregroup := alpm_option_strlist_add f_ignoregroup.
Definition alpm_option_set_ignoregroups := alpm_option_strlist_set f_ignoregroup.
Definition alpm_option_remove_ignoregroup := alpm_option_strlist_rem f_ignoregroup.
Definition alpm_option_add_overwrite_file := alpm_option_strlist_add f_overwrite_files.
Definition alpm_option_set_overwrite_files := alpm_option_strlist_set f_overwrite_files.
Definition alpm_option_remove_overwrite_file := alpm_option_strlist_rem f_overwrite_files.

(** This one has no CHECK_HANDLE, which also clears pm_errno. *)
Definition alpm_option_add_architecture (arch : cstr) (h : alpm_handle_t) : alpm_handle_t * Z :=
  (set_architectures (h_architectures h ++ [arch]) h, 0).
Definition alpm_option_set_architectures := alpm_option_strlist_set f_architectures.
Definition alpm_option_remove_architecture := alpm_option_strlist_rem f_architectures.

Definition alpm_option_match_noupgrade fnmatch (h : alpm_handle_t) (path : cstr) : Z :=
  alpm_fnmatch_patterns fnmatch (h_noupgrade h) path.
Definition alpm_option_match_noextract fnmatch (h : alpm_handle_t) (path : cstr) : Z :=
  alpm_fnmatch_patterns fnmatch (h_noextract h) path.

(** ** Directories *)
Definition add_dir (list : field (list cstr)) (dir : option cstr) (h : alpm_handle_t)
    : option (alpm_handle_t * Z) :=
  let h := check_handle h in
  match dir with
  | None => Some (ret_err ALPM_ERR_WRONG_ARGS h)
  | Some dir => newdir ← canonicalize_path dir; Some (fset list (fget list h ++ [newdir]) h, 0)
  end.

Fixpoint add_dirs (list : field (list cstr)) (dirs : Datatypes.list (option cstr)) (h : alpm_handle_t)
    : option (alpm_handle_t * Z) :=
  match dirs with
  | [] => Some (h, 0)
  | dir :: dirs' =>
      '(h, ret) ← add_dir list dir h;
      if negb (ret =? 0) then Some (h, ret) else add_dirs list dirs' h
  end.

Definition set_dirs (list : field (list cstr)) (dirs : Datatypes.list (option cstr)) (h : alpm_handle_t)
    : option (alpm_handle_t * Z) :=
  add_dirs list dirs (fset list [] (check_handle h)).

Definition remove_dir (list : field (list cstr)) (dir : option cstr) (h : alpm_handle_t)
    : option (alpm_handle_t * Z) :=
  let h := check_handle h in
  match dir with
  | None => Some (ret_err ALPM_ERR_WRONG_ARGS h)
  | Some dir =>
      newdir ← canonicalize_path dir;
      let '(l, rc) := remove_str (fget list h) (Some newdir) in
      Some (fset list l h, rc)
  end.

Definition alpm_option_add_hookdir := add_dir f_hookdirs.
Definition alpm_option_set_hookdirs := set_dirs f_hookdirs.
Definition alpm_option_remove_hookdir := remove_dir f_hookdirs.
Definition alpm_option_add_cachedir := add_dir f_cachedirs.
Definition alpm_option_set_cachedirs := set_dirs f_cachedirs.
Definition alpm_option_remove_cachedir := remove_dir f_cachedirs.

(** ** Assumed packages *)
Definition alpm_option_add_assumeinstalled (dep : alpm_depend_t) (h : alpm_handle_t)
    : alpm_handle_t * Z :=
  let h := check_handle h in
  if bool_decide (dep_mod dep = ALPM_DEP_MOD_EQ) || bool_decide (dep_mod dep = ALPM_DEP_MOD_ANY) then
    let depcpy := alpm_dep_dup dep in
    let depcpy := mk_depend (dep_name depcpy) (dep_version depcpy) (dep_desc depcpy)
                    (alpm_hash_sdbm (dep_name dep)) (dep_mod depcpy) in
    (set_assumeinstalled (h_assumeinstalled h ++ [depcpy]) h, 0)
  else ret_err ALPM_ERR_WRONG_ARGS h.

Fixpoint add_assumed (deps : list alpm_depend_t) (h : alpm_handle_t) : alpm_handle_t * Z :=
  match deps with
  | [] => (h, 0)
  | dep :: deps' =>
      let '(h, rc) := alpm_option_add_assumeinstalled dep h in
      if negb (rc =? 0) then (h, -1) else add_assumed deps' h
  end.

Definition alpm_option_set_assumeinstalled (deps : list alpm_depend_t) (h : alpm_handle_t)
    : alpm_handle_t * Z :=
  add_assumed deps (set_assumeinstalled [] (check_handle h)).

Definition assumeinstalled_cmp (dep1 dep2 : alpm_depend_t) : Z :=
  if negb (dep_name_hash dep1 =? dep_name_hash dep2) || negb (streq (dep_name dep1) (dep_name dep2))
  then -1
  else match dep_version dep1, dep_version dep2 with
       | Some v1, Some v2 => if streq v1 v2 then 0 else -1
       | None, None => 0
       | _, _ => -1
       end.

Definition alpm_option_remove_assumeinstalled (dep : alpm_depend_t) (h : alpm_handle_t)
    : alpm_handle_t * Z :=
  let h := check_handle h in
  let '(l, vdata) := alpm_list_remove assumeinstalled_cmp (h_assumeinstalled h) dep in
  (set_assumeinstalled l h, if is_some vdata then 1 else 0).

(** ** Scalar options *)
Definition upd_options (f : alpm_options_t → alpm_options_t) (h : alpm_handle_t) : alpm_handle_t :=
  set_options (f (h_options h)) h.

Definition o_set_logfile v o := mk_options (o_root o) (o_dbpath o) v (o_lockfile o) (o_gpgdir o)
  (o_sandboxuser o) (o_dbext o) (o_usesyslog o) (o_checkspace o) (o_siglevel o) (o_localfilesiglevel o)
  (o_remotefilesiglevel o) (o_disable_dl_timeout o) (o_disable_sandbox_filesystem o)
  (o_disable_sandbox_syscalls o) (o_parallel_downloads o).
Definition o_set_gpgdir v o := mk_options (o_root o) (o_dbpath o) (o_logfile o) (o_lockfile o) v
  (o_sandboxuser o) (o_dbext o) (o_usesyslog o) (o_checkspace o) (o_siglevel o) (o_localfilesiglevel o)
  (o_remotefilesiglevel o) (o_disable_dl_timeout o) (o_disable_sandbox_filesystem o)
  (o_disable_sandbox_syscalls o) (o_parallel_downloads o).
Definition o_set_sandboxuser v o := mk_options (o_root o) (o_dbpath o) (o_logfile o) (o_lockfile o)
  (o_gpgdir o) v (o_dbext o) (o_usesyslog o) (o_checkspace o) (o_siglevel o) (o_localfilesiglevel o)
  (o_remotefilesiglevel o) (o_disable_dl_timeout o) (o_disable_sandbox_filesystem o)
  (o_disable_sandbox_syscalls o) (o_parallel_downloads o).
Definition o_set_dbext v o := mk_options (o_root o) (o_dbpath o) (o_logfile o) (o_lockfile o)
  (o_gpgdir o) (o_sandboxuser o) v (o_usesyslog o) (o_checkspace o) (o_siglevel o)
  (o_localfilesiglevel o) (o_remotefilesiglevel o) (o_disable_dl_timeout o)
  (o_disable_sandbox_filesystem o) (o_disable_sandbox_syscalls o) (o_parallel_downloads o).
Definition o_set_usesyslog v o := mk_options (o_root o) (o_dbpath o) (o_logfile o) (o_lockfile o)
  (o_gpgdir o) (o_sandboxuser o) (o_dbext o) v (o_checkspace o) (o_siglevel o)
  (o_localfilesiglevel o) (o_remotefilesiglevel o) (o_disable_dl_timeout o)
  (o_disable_sandbox_filesystem o) (o_disable_sandbox_syscalls o) (o_parallel_downloads o).
Definition o_set_checkspace v o := mk_options (o_root o) (o_dbpath o) (o_logfile o) (o_lockfile o)
  (o_gpgdir o) (o_sandboxuser o) (o_dbext o) (o_usesyslog o) v (o_siglevel o)
  (o_localfilesiglevel o) (o_remotefilesiglevel o) (o_disable_dl_timeout o)
  (o_disable_sandbox_filesystem o) (o_disable_sandbox_syscalls o) (o_parallel_downloads o).
Definition o_set_siglevels d l r o := mk_options (o_root o) (o_dbpath o) (o_logfile o) (o_lockfile o)
  (o_gpgdir o) (o_sandboxuser o) (o_dbext o) (o_usesyslog o) (o_checkspace o) d l r
  (o_disable_dl_timeout o) (o_disable_sandbox_filesystem o) (o_disable_sandbox_syscalls o)
  (o_parallel_downloads o).
Definition o_set_dl_timeout v o := mk_options (o_root o) (o_dbpath o) (o_logfile o) (o_lockfile o)
  (o_gpgdir o) (o_sandboxuser o) (o_dbext o) (o_usesyslog o) (o_checkspace o) (o_siglevel o)
  (o_localfilesiglevel o) (o_remotefilesiglevel o) v (o_disable_sandbox_filesystem o)
  (o_disable_sandbox_syscalls o) (o_parallel_downloads o).
Definition o_set_sandbox f s o := mk_options (o_root o) (o_dbpath o) (o_logfile o) (o_lockfile o)
  (o_gpgdir o) (o_sandboxuser o) (o_dbext o) (o_usesyslog o) (o_checkspace o) (o_siglevel o)
  (o_localfilesiglevel o) (o_remotefilesiglevel o) (o_disable_dl_timeout o) f s
  (o_parallel_downloads o).
Definition o_set_parallel v o := mk_options (o_root o) (o_dbpath o) (o_logfile o) (o_lockfile o)
  (o_gpgdir o) (o_sandboxuser o) (o_dbext o) (o_usesyslog o) (o_checkspace o) (o_siglevel o)
  (o_localfilesiglevel o) (o_remotefilesiglevel o) (o_disable_dl_timeout o)
  (o_disable_sandbox_filesystem o) (o_disable_sandbox_syscalls o) v.

Definition alpm_option_set_logfile (logfile : option cstr) (h : alpm_handle_t) : alpm_handle_t * Z :=
  let h := check_handle h in
  match logfile with
  | None => ret_err ALPM_ERR_WRONG_ARGS h
  | Some _ => (upd_options (o_set_logfile logfile) h, 0)
  end.

Definition alpm_option_set_gpgdir (gpgdir : option cstr) (h : alpm_handle_t)
    : option (alpm_handle_t * Z) :=
  let h := check_handle h in
  r ← alpm_set_directory_option gpgdir false;
  Some (match r with
        | inr err => ret_err err h
        | inl path => (upd_options (o_set_gpgdir (Some path)) h, 0)
        end).

(** The old value is gone even when the new user does not exist. *)
Definition alpm_option_set_sandboxuser (sandboxuser : option cstr) (h : alpm_handle_t)
    : alpm_handle_t * Z :=
  let h := upd_options (o_set_sandboxuser None) (check_handle h) in
  match sandboxuser with
  | Some user => if negb (oe_getpwnam oe user) then (h, 1)
                 else (upd_options (o_set_sandboxuser (Some user)) h, 0)
  | None => (h, 0)
  end.

Definition alpm_option_set_usesyslog (usesyslog : Z) (h : alpm_handle_t) : alpm_handle_t * Z :=
  (upd_options (o_set_usesyslog usesyslog) (check_handle h), 0).

Definition alpm_option_set_checkspace (checkspace : Z) (h : alpm_handle_t) : alpm_handle_t * Z :=
  (upd_options (o_set_checkspace checkspace) (check_handle h), 0).

Definition alpm_option_set_dbext (dbext : option cstr) (h : alpm_handle_t) : alpm_handle_t * Z :=
  let h := check_handle h in
  match dbext with
  | None => ret_err ALPM_ERR_WRONG_ARGS h
  | Some _ => (upd_options (o_set_dbext dbext) h, 0)
  end.

Definition alpm_option_set_default_siglevel (level : Z) (h : alpm_handle_t) : alpm_handle_t * Z :=
  let h := check_handle h in
  if level =? ALPM_SIG_USE_DEFAULT then ret_err ALPM_ERR_WRONG_ARGS h
  else if oe_have_gpgme oe then
    (upd_options (λ o, o_set_siglevels level (o_localfilesiglevel o) (o_remotefilesiglevel o) o) h, 0)
  else if negb (level =? 0) then ret_err ALPM_ERR_MISSING_CAPABILITY_SIGNATURES h
  else (h, 0).

Definition alpm_option_set_local_file_siglevel (level : Z) (h : alpm_handle_t) : alpm_handle_t * Z :=
  let h := check_handle h in
  if oe_have_gpgme oe then
    (upd_options (λ o, o_set_siglevels (o_siglevel o) level (o_remotefilesiglevel o) o) h, 0)
  else if negb (level =? 0) && negb (level =? ALPM_SIG_USE_DEFAULT)
  then ret_err ALPM_ERR_MISSING_CAPABILITY_SIGNATURES h
  else (h, 0).

Definition alpm_option_set_remote_file_siglevel (level : Z) (h : alpm_handle_t) : alpm_handle_t * Z :=
  let h := check_handle h in
  if oe_have_gpgme oe then
    (upd_options (λ o, o_set_siglevels (o_siglevel o) (o_localfilesiglevel o) level o) h, 0)
  else if negb (level =? 0) && negb (level =? ALPM_SIG_USE_DEFAULT)
  then ret_err ALPM_ERR_MISSING_CAPABILITY_SIGNATURES h
  else (h, 0).

Definition alpm_option_get_default_siglevel (h : alpm_handle_t) : Z := o_siglevel (h_options h).
Definition alpm_option_get_local_file_siglevel (h : alpm_handle_t) : Z :=
  let o := h_options h in
  if has_flag (o_localfilesiglevel o) ALPM_SIG_USE_DEFAULT then o_siglevel o else o_localfilesiglevel o.
Definition alpm_option_get_remote_file_siglevel (h : alpm_handle_t) : Z :=
  let o := h_options h in
  if has_flag (o_remotefilesiglevel o) ALPM_SIG_USE_DEFAULT then o_siglevel o
  else o_remotefilesiglevel o.

Definition alpm_option_set_disable_dl_timeout (v : Z) (h : alpm_handle_t) : alpm_handle_t * Z :=
  (upd_options (o_set_dl_timeout v) (check_handle h), 0).

(** The argument is unsigned, the value is returned as an int. *)
Definition alpm_option_set_parallel_downloads (num_streams : Z) (h : alpm_handle_t)
    : alpm_handle_t * Z :=
  let h := check_handle h in
  if 1 <=? num_streams then (upd_options (o_set_parallel num_streams) h, 0)
  else ret_err ALPM_ERR_WRONG_ARGS h.
Definition alpm_option_get_parallel_downloads (h : alpm_handle_t) : Z :=
  let n := o_parallel_downloads (h_options h) in
  if n <? 2 ^ 31 then n else n - 2 ^ 32.

Definition alpm_option_get_disable_sandbox (h : alpm_handle_t) : Z :=
  let f := negb (o_disable_sandbox_filesystem (h_options h) =? 0) in
  let s := negb (o_disable_sandbox_syscalls (h_options h) =? 0) in
  if f && s then 2 else if f || s then 1 else 0.
Definition alpm_option_set_disable_sandbox (v : Z) (h : alpm_handle_t) : alpm_handle_t * Z :=
  (upd_options (o_set_sandbox v v) (check_handle h), 0).
Definition alpm_option_set_disable_sandbox_filesystem (v : Z) (h : alpm_handle_t)
    : alpm_handle_t * Z :=
  (upd_options (λ o, o_set_sandbox v (o_disable_sandbox_syscalls o) o) (check_handle h), 0).
Definition alpm_option_set_disable_sandbox_syscalls (v : Z) (h : alpm_handle_t)
    : alpm_handle_t * Z :=
  (upd_options (λ o, o_set_sandbox (o_disable_sandbox_filesystem o) v o) (check_handle h), 0).

(** ** A new handle *)
Definition new_options : alpm_options_t :=
  mk_options None None None None None None None 0 0 0 0 0 0 0 0 0.

(** _alpm_handle_new. There is no local database yet. *)
Definition alpm_handle_new : alpm_handle_t :=
  mk_handle (alpm_db_new (str "local") true) [] None (-1) [] [] [] [] [] [] [] [] [] ALPM_ERR_OK
    new_options 0.

Definition alpm_initialize (sys : os) (root dbpath : option cstr) (fs : fsys)
    : option ((alpm_handle_t + alpm_errno_t) * fsys) :=
  r ← alpm_set_directory_option root true;
  match r with
  | inr err => Some (inr err, fs)
  | inl root =>
      d ← alpm_set_directory_option dbpath true;
      match d with
      | inr err => Some (inr err, fs)
      | inl dbpath =>
          let o := mk_options (Some root) (Some dbpath) None (Some (dbpath ++ str "db.lck")) None None
                     (Some (str ".db")) 0 0 0 0 0 0 0 0 0 in
          let h := set_options o (set_hookdirs [root ++ tail (oe_syshookdir oe)] alpm_handle_new) in
          let '(h, fs, rc) := alpm_db_register_local sys (dbpath ++ str "local/") h fs in
          if negb (rc =? 0) then Some (inr (h_pm_errno h), fs)
          else Some (inl (upd_options (o_set_parallel 1) h), fs)
      end
  end.
End options.

#[global] Arguments mk_field {A}.
#[global] Arguments fget {A}.
#[global] Arguments fset {A}.

(** ** Calls of a front end *)
Inductive list_id :=
  | NoUpgrade | NoExtract | IgnorePkg | IgnoreGroup | OverwriteFiles | Architectures | HookDirs | CacheDirs.
#[export] Instance list_id_eq_dec : EqDecision list_id.
Proof. solve_decision. Defined.

Inductive list_call := LAdd (s : cstr) | LSet (l : list cstr) | LRemove (s : cstr).

Definition run_list_call (id : list_id) (c : list_call) (h : alpm_handle_t) : option (alpm_handle_t * Z) :=
  match id, c with
  | NoUpgrade, LAdd s => Some (alpm_option_add_noupgrade s h)
  | NoUpgrade, LSet l => Some (alpm_option_set_noupgrades l h)
  | NoUpgrade, LRemove s => Some (alpm_option_remove_noupgrade (Some s) h)
  | NoExtract, LAdd s => Some (alpm_option_add_noextract s h)
  | NoExtract, LSet l => Some (alpm_option_set_noextracts l h)
  | NoExtract, LRemove s => Some (alpm_option_remove_noextract (Some s) h)
  | IgnorePkg, LAdd s => Some (alpm_option_add_ignorepkg s h)
  | IgnorePkg, LSet l => Some (alpm_option_set_ignorepkgs l h)
  | IgnorePkg, LRemove s => Some (alpm_option_remove_ignorepkg (Some s) h)
  | IgnoreGroup, LAdd s => Some (alpm_option_add_ignoregroup s h)
  | IgnoreGroup, LSet l => Some (alpm_option_set_ignoregroups l h)
  | IgnoreGroup, LRemove s => Some (alpm_option_remove_ignoregroup (Some s) h)
  | OverwriteFiles, LAdd s => Some (alpm_option_add_overwrite_file s h)
  | OverwriteFiles, LSet l => Some (alpm_option_set_overwrite_files l h)
  | OverwriteFiles, LRemove s => Some (alpm_option_remove_overwrite_file (Some s) h)
  | Architectures, LAdd s => Some (alpm_option_add_architecture s h)
  | Architectures, LSet l => Some (alpm_option_set_architectures l h)
  | Architectures, LRemove s => Some (alpm_option_remove_architecture (Some s) h)
  | HookDirs, LAdd s => alpm_option_add_hookdir (Some s) h
  | HookDirs, LSet l => alpm_option_set_hookdirs (map Some l) h
  | HookDirs, LRemove s => alpm_option_remove_hookdir (Some s) h
  | CacheDirs, LAdd s => alpm_option_add_cachedir (Some s) h
  | CacheDirs, LSet l => alpm_option_set_cachedirs (map Some l) h
  | CacheDirs, LRemove s => alpm_option_remove_cachedir (Some s) h
  end.

Inductive option_call :=
  | CList (id : list_id) (c : list_call)
  | CAddAssume (dep : alpm_depend_t) | CSetAssume (deps : list alpm_depend_t)
  | CRemoveAssume (dep : alpm_depend_t)
  | CLogfile (s : option cstr) | CGpgdir (s : option cstr) | CSandboxuser (s : option cstr)
  | CDbext (s : option cstr) | CUsesyslog (v : Z) | CCheckspace (v : Z)
  | CDefaultSiglevel (v : Z) | CLocalSiglevel (v : Z) | CRemoteSiglevel (v : Z)
  | CDlTimeout (v : Z) | CParallel (v : Z)
  | CSandbox (v : Z) | CSandboxFs (v : Z) | CSandboxSys (v : Z).

Definition run_option_call (oe : option_env) (c : option_call) (h : alpm_handle_t)
    : option (alpm_handle_t * Z) :=
  match c with
  | CList id c => run_list_call id c h
  | CAddAssume dep => Some (alpm_option_add_assumeinstalled dep h)
  | CSetAssume deps => Some (alpm_option_set_assumeinstalled deps h)
  | CRemoveAssume dep => Some (alpm_option_remove_assumeinstalled dep h)
  | CLogfile s => Some (alpm_option_set_logfile s h)
  | CGpgdir s => alpm_option_set_gpgdir oe s h
  | CSandboxuser s => Some (alpm_option_set_sandboxuser oe s h)
  | CDbext s => Some (alpm_option_set_dbext s h)
  | CUsesyslog v => Some (alpm_option_set_usesyslog v h)
  | CCheckspace v => Some (alpm_option_set_checkspace v h)
  | CDefaultSiglevel v => Some (alpm_option_set_default_siglevel oe v h)
  | CLocalSiglevel v => Some (alpm_option_set_local_file_siglevel oe v h)
  | CRemoteSiglevel v => Some (alpm_option_set_remote_file_siglevel oe v h)
  | CDlTimeout v => Some (alpm_option_set_disable_dl_timeout v h)
  | CParallel v => Some (alpm_option_set_parallel_downloads v h)
  | CSandbox v => Some (alpm_option_set_disable_sandbox v h)
  | CSandboxFs v => Some (alpm_option_set_disable_sandbox_filesystem v h)
  | CSandboxSys v => Some (alpm_option_set_disable_sandbox_syscalls v h)
  end.

Fixpoint run_option_calls (oe : option_env) (l : list option_call) (h : alpm_handle_t)
    : option alpm_handle_t :=
  match l with
  | [] => Some h
  | c :: l' => '(h, _) ← run_option_call oe c h; run_option_calls oe l' h
  end.

(** ** Facts *)
Definition ends_slash (p : cstr) : Prop := last p = Some "/"%char.

(** What every handle of a front end satisfies. *)
Record options_wf (h : alpm_handle_t) : Prop := {
  ow_hookdirs : Forall ends_slash (h_hookdirs h);
  ow_cachedirs : Forall ends_slash (h_cachedirs h);
  ow_assume : Forall (λ d, dep_name_hash d = alpm_hash_sdbm (dep_name d) ∧
                           (dep_mod d = ALPM_DEP_MOD_EQ ∨ dep_mod d = ALPM_DEP_MOD_ANY))
                (h_assumeinstalled h);
  ow_gpgdir : ∀ p, o_gpgdir (h_options h) = Some p → ends_slash p;
  ow_siglevel : o_siglevel (h_options h) ≠ ALPM_SIG_USE_DEFAULT;
  ow_parallel : 1 <= o_parallel_downloads (h_options h);
  ow_dbext : is_Some (o_dbext (h_options h));
  ow_root : ∃ root, o_root (h_options h) = Some root ∧ ends_slash root;
  ow_lockfile : ∃ d, o_dbpath (h_options h) = Some d ∧ ends_slash d ∧
                     o_lockfile (h_options h) = Some (d ++ str "db.lck")
}.

(** Options do not touch databases, transaction, lock and paths. *)
Record options_frame (h h' : alpm_handle_t) : Prop := {
  of_local : h_db_local h' = h_db_local h;
  of_sync : h_dbs_sync h' = h_dbs_sync h;
  of_trans : h_trans h' = h_trans h;
  of_lockfd : h_lockfd h' = h_lockfd h;
  of_root : o_root (h_options h') = o_root (h_options h);
  of_dbpath : o_dbpath (h_options h') = o_dbpath (h_options h);
  of_lockfile : o_lockfile (h_options h') = o_lockfile (h_options h)
}.

#[export] Instance options_frame_preorder : PreOrder options_frame.
Proof.
  split.
  - by intros h.
  - intros h1 h2 h3 [] []. split; congruence.
Qed.

Lemma canonicalize_slash p q : canonicalize_path p = Some q → ends_slash q.
Proof.
  unfold canonicalize_path, ends_slash. destruct (last p) as [c|] eqn:El; [|done].
  destruct (Ascii.eqb_spec c "/"%char) as [->|_]; intros [= <-]; [done|]. by rewrite last_snoc.
Qed.

Lemma canonicalize_idem p : ends_slash p → canonicalize_path p = Some p.
Proof. unfold canonicalize_path, ends_slash. by intros ->. Qed.

Lemma remove_str_sub l s x : x ∈ (remove_str l s).1 → x ∈ l.
Proof.
  unfold remove_str. destruct s as [s|]; [|done]. unfold alpm_list_remove_str.
  induction l as [|y l IH]; cbn; [done|]. destruct (_ =? 0); [by right|].
  destruct (alpm_list_remove strcmp l s) as [l' v]. cbn in *. set_solver.
Qed.

(** The fields behave like variables. *)
Class FieldLaws (f : field (list cstr)) : Prop := {
  fget_fset l h : fget f (fset f l h) = l;
  fset_fset l l' h : fset f l (fset f l' h) = fset f l h;
  fset_fget h : fset f (fget f h) h = h;
  fget_errno e h : fget f (set_errno e h) = fget f h;
  fset_errno e l h : set_errno e (fset f l h) = fset f l (set_errno e h)
}.

Ltac solve_field := split; intros; repeat match goal with h : alpm_handle_t |- _ => destruct h end; done.
#[export] Instance noupgrade_laws : FieldLaws f_noupgrade. Proof. solve_field. Qed.
#[export] Instance noextract_laws : FieldLaws f_noextract. Proof. solve_field. Qed.
#[export] Instance ignorepkg_laws : FieldLaws f_ignorepkg. Proof. solve_field. Qed.
#[export] Instance ignoregroup_laws : FieldLaws f_ignoregroup. Proof. solve_field. Qed.
#[export] Instance overwrite_files_laws : FieldLaws f_overwrite_files. Proof. solve_field. Qed.
#[export] Instance architectures_laws : FieldLaws f_architectures. Proof. solve_field. Qed.
#[export] Instance hookdirs_laws : FieldLaws f_hookdirs. Proof. solve_field. Qed.
#[export] Instance cachedirs_laws : FieldLaws f_cachedirs. Proof. solve_field. Qed.

Lemma set_errno_twice e e' h : set_errno e (set_errno e' h) = set_errno e h.
Proof. done. Qed.

Section dirs.
Context (f : field (list cstr)) `{!FieldLaws f}.

Lemma add_dir_spec dir h h' rc :
  add_dir f dir h = Some (h', rc) →
  ∃ l e, h' = fset f (fget f h ++ l) (set_errno e h) ∧ Forall ends_slash l.
Proof.
  unfold add_dir. destruct dir as [dir|].
  - intros (d & Hd & [= <- _])%bind_Some. exists [d], ALPM_ERR_OK. unfold check_handle.
    rewrite fget_errno. split; [done|]. constructor; [by eapply canonicalize_slash|done].
  - intros [= <- _]. exists [], ALPM_ERR_WRONG_ARGS. split; [|done].
    rewrite app_nil_r, <-fset_errno, fset_fget. done.
Qed.

Lemma add_dirs_spec dirs h h' rc :
  add_dirs f dirs h = Some (h', rc) →
  ∃ l e, h' = fset f (fget f h ++ l) (set_errno e h) ∧ Forall ends_slash l.
Proof.
  revert h. induction dirs as [|dir dirs IH]; intros h; cbn [add_dirs].
  { intros [= <- _]. exists [], (h_pm_errno h). split; [|done]. rewrite app_nil_r, <-fset_errno, fset_fget.
    by destruct h. }
  intros ([h1 ret] & H1 & H)%bind_Some. apply add_dir_spec in H1 as (l1 & e1 & -> & Hl1).
  destruct (negb _); [injection H as <- _; by exists l1, e1|].
  apply IH in H as (l & e & -> & Hl). exists (l1 ++ l), e.
  rewrite fget_fset, fset_errno, fset_fset, set_errno_twice, app_assoc. split; [done|]. by apply Forall_app.
Qed.

(** Every directory call leaves a list of paths that end in a slash. *)
Lemma dir_call_spec (c : list_call) h h' rc :
  (match c with
   | LAdd s => add_dir f (Some s) h
   | LSet l => set_dirs f (map Some l) h
   | LRemove s => remove_dir f (Some s) h
   end) = Some (h', rc) →
  ∃ l e, h' = fset f l (set_errno e h) ∧ (Forall ends_slash (fget f h) → Forall ends_slash l).
Proof.
  destruct c as [s|dirs|s].
  - intros (l & e & -> & Hl)%add_dir_spec. exists (fget f h ++ l), e. split; [done|].
    intros. by apply Forall_app.
  - unfold set_dirs. intros (l & e & -> & Hl)%add_dirs_spec. exists l, e.
    rewrite fget_fset, fset_errno, fset_fset. done.
  - cbn [remove_dir]. intros (d & Hd & H)%bind_Some.
    destruct (remove_str _ _) as [l rc'] eqn:Er. injection H as <- <-.
    exists l, ALPM_ERR_OK. split; [done|]. rewrite !Forall_forall. intros Hf x Hx. apply Hf.
    unfold check_handle in Er. rewrite fget_errno in Er. apply (remove_str_sub _ (Some d)). by rewrite Er.
Qed.
End dirs.

(** List options whose values are not constrained. *)
Lemma list_call_spec (f : field (list cstr)) (c : list_call) h :
  ∃ l, (match c with
        | LAdd s => alpm_option_strlist_add f s h
        | LSet l => alpm_option_strlist_set f l h
        | LRemove s => alpm_option_strlist_rem f (Some s) h
        end).1 = fset f l (check_handle h).
Proof.
  destruct c; unfold alpm_option_strlist_rem; [by eexists..|]. destruct (remove_str _ _). by eexists.
Qed.

Definition good_call (h h' : alpm_handle_t) : Prop :=
  options_frame h h' ∧ (options_wf h → options_wf h').

Lemma good_hookdirs l e h :
  (Forall ends_slash (h_hookdirs h) → Forall ends_slash l) → good_call h (set_hookdirs l (set_errno e h)).
Proof. intros Hl. split; [by split|]. intros []. split; auto. Qed.

Lemma good_cachedirs l e h :
  (Forall ends_slash (h_cachedirs h) → Forall ends_slash l) → good_call h (set_cachedirs l (set_errno e h)).
Proof. intros Hl. split; [by split|]. intros []. split; auto. Qed.

Lemma strlist_good (f : field (list cstr)) (c : list_call) h h' rc :
  (∀ l, good_call h (fset f l (check_handle h))) →
  Some (match c with
        | LAdd s => alpm_option_strlist_add f s h
        | LSet l => alpm_option_strlist_set f l h
        | LRemove s => alpm_option_strlist_rem f (Some s) h
        end) = Some (h', rc) → good_call h h'.
Proof.
  intros Hf [= H]. destruct (list_call_spec f c h) as [l Hl]. rewrite H in Hl. cbn in Hl. subst. apply Hf.
Qed.

Lemma list_call_good id c h h' rc :
  run_list_call id c h = Some (h', rc) → good_call h h'.
Proof.
  assert (∀ h2, options_frame h h2 → h_hookdirs h2 = h_hookdirs h → h_cachedirs h2 = h_cachedirs h →
    h_assumeinstalled h2 = h_assumeinstalled h → h_options h2 = h_options h → good_call h h2) as Hkeep.
  { intros h2 Hf E1 E2 E3 E4. split; [done|]. intros []. split; by rewrite ?E1, ?E2, ?E3, ?E4. }
  destruct id.
  - destruct c as [s|l|s]; [apply (strlist_good f_noupgrade (LAdd s))|apply (strlist_good f_noupgrade (LSet l))
      |apply (strlist_good f_noupgrade (LRemove s))]; intros; by apply Hkeep.
  - destruct c as [s|l|s]; [apply (strlist_good f_noextract (LAdd s))|apply (strlist_good f_noextract (LSet l))
      |apply (strlist_good f_noextract (LRemove s))]; intros; by apply Hkeep.
  - destruct c as [s|l|s]; [apply (strlist_good f_ignorepkg (LAdd s))|apply (strlist_good f_ignorepkg (LSet l))
      |apply (strlist_good f_ignorepkg (LRemove s))]; intros; by apply Hkeep.
  - destruct c as [s|l|s]; [apply (strlist_good f_ignoregroup (LAdd s))|apply (strlist_good f_ignoregroup (LSet l))
      |apply (strlist_good f_ignoregroup (LRemove s))]; intros; by apply Hkeep.
  - destruct c as [s|l|s]; [apply (strlist_good f_overwrite_files (LAdd s))|apply (strlist_good f_overwrite_files (LSet l))
      |apply (strlist_good f_overwrite_files (LRemove s))]; intros; by apply Hkeep.
  - destruct c as [s|l|s]; [intros [= <- _]; by apply Hkeep|apply (strlist_good f_architectures (LSet l))
      |apply (strlist_good f_architectures (LRemove s))]; intros; by apply Hkeep.
  - intros H. destruct (dir_call_spec f_hookdirs c h h' rc) as (l & e & -> & Hl); [by destruct c|].
    by apply good_hookdirs.
  - intros H. destruct (dir_call_spec f_cachedirs c h h' rc) as (l & e & -> & Hl); [by destruct c|].
    by apply good_cachedirs.
Qed.

(** ** Facts: assumed packages and scalars *)
Lemma good_errno e h : good_call h (set_errno e h).
Proof. split; [by split|]. intros []. by split. Qed.

#[export] Instance good_call_preorder : PreOrder good_call.
Proof.
  split.
  - by split.
  - intros h1 h2 h3 [F1 W1] [F2 W2]. split; [by etrans|auto].
Qed.

Definition assumed_ok (d : alpm_depend_t) : Prop :=
  dep_name_hash d = alpm_hash_sdbm (dep_name d) ∧
  (dep_mod d = ALPM_DEP_MOD_EQ ∨ dep_mod d = ALPM_DEP_MOD_ANY).

Lemma good_assume l h :
  (Forall assumed_ok (h_assumeinstalled h) → Forall assumed_ok l) → good_call h (set_assumeinstalled l h).
Proof. intros Hl. split; [by split|]. intros []. split; auto. Qed.

Lemma add_assume_good dep h : good_call h (alpm_option_add_assumeinstalled dep h).1.
Proof.
  unfold alpm_option_add_assumeinstalled. etrans; [apply (good_errno ALPM_ERR_OK)|].
  destruct (_ || _) eqn:E; [|apply good_errno]. apply good_assume. intros H. apply Forall_app.
  split; [done|]. constructor; [|done]. split; [done|].
  apply orb_true_iff in E as [E%bool_decide_eq_true|E%bool_decide_eq_true]; auto.
Qed.

Lemma add_assumed_good deps h : good_call h (add_assumed deps h).1.
Proof.
  revert h. induction deps as [|dep deps IH]; intros h; cbn [add_assumed]; [done|].
  pose proof (add_assume_good dep h) as Hg. destruct (alpm_option_add_assumeinstalled dep h) as [h1 rc].
  destruct (negb _); [done|]. etrans; [exact Hg|apply IH].
Qed.

Lemma list_remove_sub {A} (fn : A → A → Z) l y x : x ∈ (alpm_list_remove fn l y).1 → x ∈ l.
Proof.
  induction l as [|z l IH]; cbn; [done|]. destruct (_ =? 0)%Z; [by right|].
  destruct (alpm_list_remove fn l y). cbn in *. set_solver.
Qed.

Lemma remove_assume_good dep h : good_call h (alpm_option_remove_assumeinstalled dep h).1.
Proof.
  unfold alpm_option_remove_assumeinstalled. etrans; [apply (good_errno ALPM_ERR_OK)|].
  destruct (alpm_list_remove _ _ _) as [l v] eqn:E. apply good_assume. rewrite !Forall_forall.
  intros H x Hx. apply H, (list_remove_sub assumeinstalled_cmp _ dep).
  change (h_assumeinstalled (set_errno ALPM_ERR_OK h)) with (h_assumeinstalled (check_handle h)). by rewrite E.
Qed.

(** Updates of the scalar options. *)
Definition good_update (h : alpm_handle_t) (f : alpm_options_t → alpm_options_t) : Prop :=
  let o := h_options h in
  o_root (f o) = o_root o ∧ o_dbpath (f o) = o_dbpath o ∧ o_lockfile (f o) = o_lockfile o ∧
  ((∀ p, o_gpgdir o = Some p → ends_slash p) → ∀ p, o_gpgdir (f o) = Some p → ends_slash p) ∧
  (o_siglevel o ≠ ALPM_SIG_USE_DEFAULT → o_siglevel (f o) ≠ ALPM_SIG_USE_DEFAULT) ∧
  (1 <= o_parallel_downloads o → 1 <= o_parallel_downloads (f o)) ∧
  (is_Some (o_dbext o) → is_Some (o_dbext (f o))).

Lemma upd_good f h : good_update h f → good_call h (upd_options f (check_handle h)).
Proof.
  intros (E1 & E2 & E3 & G & S & P & D). split; [by split|]. intros []. split; cbn; auto.
  - by rewrite E1.
  - by rewrite E2, E3.
Qed.

Lemma good_err e h : good_call h (set_errno e (check_handle h)).
Proof. exact (good_errno e h). Qed.

Ltac good := first [apply good_errno | apply good_err | apply upd_good; unfold good_update; cbn; split_and!; by auto].

Lemma option_call_good oe c h h' rc :
  run_option_call oe c h = Some (h', rc) → good_call h h'.
Proof.
  destruct c; cbn [run_option_call]; [apply list_call_good|..].
  - intros [= H]. pose proof (add_assume_good dep h) as Hg. by rewrite H in Hg.
  - intros [= H]. assert (good_call h (alpm_option_set_assumeinstalled deps h).1) as Hg.
    { unfold alpm_option_set_assumeinstalled. etrans; [apply (good_errno ALPM_ERR_OK)|].
      etrans; [apply (good_assume []); auto|]. apply add_assumed_good. }
    by rewrite H in Hg.
  - intros [= H]. pose proof (remove_assume_good dep h) as Hg. by rewrite H in Hg.
  - unfold alpm_option_set_logfile. destruct s; intros [= <- _]; good.
  - unfold alpm_option_set_gpgdir, alpm_set_directory_option. destruct s as [p|]; [|intros [= <- _]; good].
    destruct (canonicalize_path p) as [q|] eqn:E; [|done]. intros [= <- _]. apply upd_good.
    unfold good_update. cbn. split_and!; auto. intros _ p' [= <-]. by eapply canonicalize_slash.
  - unfold alpm_option_set_sandboxuser. destruct s as [u|]; [destruct (negb _)|]; intros [= <- _]; [good| |good].
    refine (upd_good (o_set_sandboxuser (Some u)) h _). unfold good_update. cbn. split_and!; by auto.
  - unfold alpm_option_set_dbext. destruct s; intros [= <- _]; good.
  - intros [= <- _]. good.
  - intros [= <- _]. good.
  - unfold alpm_option_set_default_siglevel. destruct (_ =? ALPM_SIG_USE_DEFAULT) eqn:E; [intros [= <- _]; good|].
    destruct (oe_have_gpgme oe); [|destruct (negb _); intros [= <- _]; good].
    intros [= <- _]. apply upd_good. unfold good_update. cbn. split_and!; auto. intros _. by apply Z.eqb_neq.
  - unfold alpm_option_set_local_file_siglevel. destruct (oe_have_gpgme oe); [|destruct (_ && _)]; intros [= <- _]; good.
  - unfold alpm_option_set_remote_file_siglevel. destruct (oe_have_gpgme oe); [|destruct (_ && _)]; intros [= <- _]; good.
  - intros [= <- _]. good.
  - unfold alpm_option_set_parallel_downloads. destruct (1 <=? v) eqn:E; intros [= <- _]; [|good].
    apply upd_good. unfold good_update. cbn. split_and!; auto. lia.
  - intros [= <- _]. good.
  - intros [= <- _]. good.
  - intros [= <- _]. good.
Qed.

Lemma option_calls_good oe calls h h' :
  run_option_calls oe calls h = Some h' → good_call h h'.
Proof.
  revert h. induction calls as [|c calls IH]; intros h; cbn [run_option_calls].
  { by intros [= <-]. }
  intros ([h1 rc] & H1%option_call_good & H%IH)%bind_Some. by etrans.
Qed.

Lemma directory_option_slash oe value m p :
  alpm_set_directory_option oe value m = Some (inl p) → ends_slash p.
Proof.
  unfold alpm_set_directory_option. destruct value as [v|]; [|done]. destruct m.
  - destruct (negb _); [done|]. destruct (oe_realpath oe v) as [r|]; [|done].
    destruct (canonicalize_path r) eqn:E; [|done]. intros [= <-]. by eapply canonicalize_slash.
  - destruct (canonicalize_path v) eqn:E; [|done]. intros [= <-]. by eapply canonicalize_slash.
Qed.

Lemma register_local_frame sys d h fs h' fs' rc :
  alpm_db_register_local sys d h fs = (h', fs', rc) →
  h_options h' = h_options h ∧ h_hookdirs h' = h_hookdirs h ∧ h_cachedirs h' = h_cachedirs h ∧
  h_assumeinstalled h' = h_assumeinstalled h ∧ h_trans h' = h_trans h ∧ h_lockfd h' = h_lockfd h.
Proof.
  unfold alpm_db_register_local.
  assert (∀ db, h_options (local_db_validate sys d h db fs).1.1.1 = h_options h ∧
    h_hookdirs (local_db_validate sys d h db fs).1.1.1 = h_hookdirs h ∧
    h_cachedirs (local_db_validate sys d h db fs).1.1.1 = h_cachedirs h ∧
    h_assumeinstalled (local_db_validate sys d h db fs).1.1.1 = h_assumeinstalled h ∧
    h_trans (local_db_validate sys d h db fs).1.1.1 = h_trans h ∧
    h_lockfd (local_db_validate sys d h db fs).1.1.1 = h_lockfd h) as Hv.
  { intros db. unfold local_db_validate, local_db_create.
    repeat (case_match; simplify_eq/=; try done). }
  specialize (Hv (alpm_db_new (str "local") true)).
  destruct (local_db_validate _ _ _ _ _) as [[[h1 db1] fs1] rc1]. cbn in Hv.
  destruct (negb _); intros [= <- _ _]; exact Hv.
Qed.

(** ** Specification of the list options *)
Definition list_field (id : list_id) : field (list cstr) :=
  match id with
  | NoUpgrade => f_noupgrade | NoExtract => f_noextract | IgnorePkg => f_ignorepkg
  | IgnoreGroup => f_ignoregroup | OverwriteFiles => f_overwrite_files
  | Architectures => f_architectures | HookDirs => f_hookdirs | CacheDirs => f_cachedirs
  end.

(** The options as a function from names to lists. *)
Definition lists (h : alpm_handle_t) (id : list_id) : list cstr := fget (list_field id) h.

Definition spec_value (id : list_id) (s : cstr) : option cstr :=
  match id with HookDirs | CacheDirs => canonicalize_path s | _ => Some s end.

(** The list without the first [s], if there is one. *)
Fixpoint without_first (s : cstr) (l : list cstr) : option (list cstr) :=
  match l with
  | [] => None
  | x :: l' => if decide (s = x) then Some l' else cons x <$> without_first s l'
  end.

(** Append, replace, or remove the first occurrence. *)
Definition spec_call (id : list_id) (c : list_call) (l : list cstr) : option (list cstr * Z) :=
  match c with
  | LAdd s => s ← spec_value id s; Some (l ++ [s], 0)
  | LSet ss => ss ← mapM (spec_value id) ss; Some (ss, 0)
  | LRemove s => s ← spec_value id s;
                 Some (match without_first s l with Some l' => (l', 1) | None => (l, 0) end)
  end.

Lemma remove_str_spec l s :
  remove_str l (Some s) = match without_first s l with Some l' => (l', 1) | None => (l, 0) end.
Proof.
  unfold remove_str, alpm_list_remove_str. induction l as [|x l IH]; [done|]. cbn [alpm_list_remove without_first].
  change (strcmp x s =? 0) with (streq x s). destruct (streq x s) eqn:E.
  - apply streq_true in E as ->. by rewrite decide_True.
  - apply streq_false in E. rewrite decide_False by congruence.
    destruct (alpm_list_remove strcmp l s) as [l' v], (without_first s l); cbn in *; congruence.
Qed.

Section refine.
Context (f : field (list cstr)) `{!FieldLaws f}.

Lemma add_dirs_total dirs h :
  check_handle h = h →
  add_dirs f (map Some dirs) h =
  l ← mapM canonicalize_path dirs; Some (fset f (fget f h ++ l) h, 0).
Proof.
  revert h. induction dirs as [|d dirs IH]; intros h Hh; cbn [map add_dirs mapM].
  { cbn. by rewrite app_nil_r, fset_fget. }
  cbn [add_dir]. rewrite Hh. destruct (canonicalize_path d) as [d'|]; cbn; [|done].
  rewrite IH by (unfold check_handle in *; by rewrite fset_errno, Hh).
  destruct (mapM _ dirs) as [l|]; cbn; [|done].
  by rewrite fget_fset, fset_fset, <-app_assoc.
Qed.

(** A call on a directory option, and one on another list, as an update of its
    field. *)
Lemma dir_call_refines id c h :
  spec_value id = canonicalize_path →
  match c with
  | LAdd s => add_dir f (Some s) h
  | LSet l => set_dirs f (map Some l) h
  | LRemove s => remove_dir f (Some s) h
  end = '(l, rc) ← spec_call id c (fget f h); Some (fset f l (check_handle h), rc).
Proof.
  intros Hid. unfold spec_call. rewrite Hid.
  destruct c as [s|dirs|s]; cbn [add_dir remove_dir].
  - destruct (canonicalize_path s); cbn; [|done]. unfold check_handle. by rewrite fget_errno.
  - unfold set_dirs. rewrite add_dirs_total by (unfold check_handle; by rewrite fset_errno).
    destruct (mapM _ dirs); cbn; [|done]. by rewrite fget_fset, fset_fset.
  - destruct (canonicalize_path s); cbn [mbind option_bind]; [|done]. unfold check_handle.
    rewrite fget_errno, remove_str_spec.
    by destruct (without_first _ _).
Qed.

Lemma str_call_refines id c h :
  (∀ s, spec_value id s = Some s) →
  Some (match c with
        | LAdd s => alpm_option_strlist_add f s h
        | LSet l => alpm_option_strlist_set f l h
        | LRemove s => alpm_option_strlist_rem f (Some s) h
        end) = '(l, rc) ← spec_call id c (fget f h); Some (fset f l (check_handle h), rc).
Proof.
  intros Hid. unfold spec_call, alpm_option_strlist_add, alpm_option_strlist_rem, check_handle.
  destruct c as [s|l|s]; rewrite ?Hid; cbn [mbind option_bind].
  - by rewrite fget_errno.
  - by rewrite (proj2 (mapM_Some _ l l)) by (clear -Hid; induction l; constructor; auto).
  - rewrite fget_errno, remove_str_spec. by destruct (without_first _ _).
Qed.
End refine.

Lemma list_call_refines id c h :
  ∃ e, run_list_call id c h =
       '(l, rc) ← spec_call id c (lists h id); Some (fset (list_field id) l (set_errno e h), rc).
Proof.
  unfold lists. destruct id; cbn [list_field].
  - exists ALPM_ERR_OK. etrans; [|by apply (str_call_refines f_noupgrade NoUpgrade c h)]. by destruct c.
  - exists ALPM_ERR_OK. etrans; [|by apply (str_call_refines f_noextract NoExtract c h)]. by destruct c.
  - exists ALPM_ERR_OK. etrans; [|by apply (str_call_refines f_ignorepkg IgnorePkg c h)]. by destruct c.
  - exists ALPM_ERR_OK. etrans; [|by apply (str_call_refines f_ignoregroup IgnoreGroup c h)]. by destruct c.
  - exists ALPM_ERR_OK. etrans; [|by apply (str_call_refines f_overwrite_files OverwriteFiles c h)]. by destruct c.
  - destruct c as [s|l|s].
    + exists (h_pm_errno h). cbn. by destruct h.
    + exists ALPM_ERR_OK. by apply (str_call_refines f_architectures Architectures (LSet l) h).
    + exists ALPM_ERR_OK. by apply (str_call_refines f_architectures Architectures (LRemove s) h).
  - exists ALPM_ERR_OK. etrans; [|by apply (dir_call_refines f_hookdirs HookDirs c h)]. by destruct c.
  - exists ALPM_ERR_OK. etrans; [|by apply (dir_call_refines f_cachedirs CacheDirs c h)]. by destruct c.
Qed.

Lemma lists_fset id id' l e h :
  lists (fset (list_field id) l (set_errno e h)) id' = if decide (id' = id) then l else lists h id'.
Proof. by destruct id, id', h. Qed.

(** ** Theorems *)

(** C34. A handle is well formed: alpm_initialize, when it succeeds, returns one without
    transaction and lock, and after any sequence of option calls with any
    arguments, failing ones included, hook and cache directories and the GnuPG
    directory end in a slash, assumed packages have their hash and no version
    range, the default signature level is a level, there is at least one download
    stream, and the lock file lies in the database directory; databases,
    transaction and lock are as before. *)
Theorem options_invariant (oe : option_env) (sys : os) (root dbpath : option cstr) (fs fs' : fsys)
    (h : alpm_handle_t) :
  ends_slash (oe_syshookdir oe) → (2 <= length (oe_syshookdir oe))%nat →
  alpm_initialize oe sys root dbpath fs = Some (inl h, fs') →
  options_wf h ∧ h_trans h = None ∧ h_lockfd h = -1 ∧
  ∀ calls h', run_option_calls oe calls h = Some h' → options_wf h' ∧ options_frame h h'.
Proof.
  intros Hs Hlen H. assert (options_wf h ∧ h_trans h = None ∧ h_lockfd h = -1) as (Hw & Ht & Hl).
  { unfold alpm_initialize in H. apply bind_Some in H as ([r|] & Hr & H); [|done].
    apply bind_Some in H as ([d|] & Hd & H); [|done].
    apply directory_option_slash in Hr, Hd. set (h0 := set_options _ _) in H.
    destruct (alpm_db_register_local _ _ _ _) as [[h1 fs1] rc] eqn:Er.
    apply register_local_frame in Er as (E1 & E2 & E3 & E4 & E5 & E6).
    destruct (negb _); [done|]. injection H as <- _. split; [|by cbn; rewrite E5, E6].
    split; cbn; rewrite ?E1, ?E2, ?E3, ?E4; cbn; try done; [|by eexists..].
    constructor; [|done]. unfold ends_slash in *.
    destruct (oe_syshookdir oe) as [|c [|c' s]]; cbn in Hlen; [lia..|]. cbn [tail].
    rewrite last_app. by cbn in Hs |- *; rewrite Hs. }
  split; [done|]. split; [done|]. split; [done|]. intros calls h' Hc%option_calls_good.
  destruct Hc as [Hf Hg]. auto.
Qed.

(** The list options refine a function from option names to lists: a call
    appends a value, replaces the list or removes the first occurrence of a value
    (and reports whether there was one), with directories completed by a slash
    first; it changes this list and no other. *)
Theorem list_options_refine id c h :
  match spec_call id c (lists h id), run_list_call id c h with
  | Some (l, rc), Some (h', rc') =>
      rc' = rc ∧ ∀ id', lists h' id' = if decide (id' = id) then l else lists h id'
  | None, None => True
  | _, _ => False
  end.
Proof.
  destruct (list_call_refines id c h) as [e ->].
  destruct (spec_call id c (lists h id)) as [[l rc]|]; cbn; [|done].
  split; [done|]. intros id'. apply lists_fset.
Qed.

(** ** Examples *)
Definition ex_oe : option_env :=
  mk_option_env (λ _, true) (λ p, Some p) (λ _, true) true (str "/usr/share/libalpm/hooks/").

Definition ex_init_fs : fsys := list_to_map [(str "/var", NDir)].
Definition ex_init : option ((alpm_handle_t + alpm_errno_t) * fsys) :=
  alpm_initialize ex_oe ex_os (Some (str "/")) (Some (str "/var")) ex_init_fs.
Definition ex_init_handle : alpm_handle_t :=
  match ex_init with Some (inl h, _) => h | _ => alpm_handle_new end.
Definition ex_init_after : fsys := match ex_init with Some (_, fs) => fs | None => ∅ end.

Lemma ex_init_ok : ex_init = Some (inl ex_init_handle, ex_init_after).
Proof.
  assert (match ex_init with Some (inl _, _) => true | _ => false end = true) as H by (vm_compute; reflexivity).
  unfold ex_init_handle, ex_init_after. by destruct ex_init as [[[h|] fs]|].
Qed.

Lemma options_invariant_witness :
  options_wf ex_init_handle ∧
  ∀ calls h', run_option_calls ex_oe calls ex_init_handle = Some h' → options_wf h'.
Proof.
  destruct (options_invariant ex_oe ex_os (Some (str "/")) (Some (str "/var")) ex_init_fs ex_init_after
    ex_init_handle) as (H1 & _ & _ & H2).
  - vm_compute. reflexivity.
  - vm_compute. lia.
  - exact ex_init_ok.
  - split; [exact H1|]. intros calls h' H. apply (H2 calls h' H).
Defined.

Example option_calls_example :
  (λ h, (h_hookdirs h, h_cachedirs h, o_lockfile (h_options h))) <$>
    run_option_calls ex_oe [CList CacheDirs (LAdd (str "/var/cache")); CList HookDirs (LAdd (str "/etc/hooks/"));
      CList CacheDirs (LRemove (str "/tmp")); CParallel 0; CDefaultSiglevel ALPM_SIG_USE_DEFAULT] ex_init_handle
  = Some ([str "/usr/share/libalpm/hooks/"; str "/etc/hooks/"], [str "/var/cache/"], Some (str "/var/db.lck")).
Proof. vm_compute. reflexivity. Qed.
