(* ===== verification/ArchiveIO.v ===== *)
(** * Lines of an archive entry

    lib/libalpm/util.c: _alpm_archive_fgets, which cuts the data of an archive
    entry into lines. libarchive hands the data out in blocks, given here as a
    list; after its end it reports ARCHIVE_EOF. The line buffer is its size and
    the number of times it was moved by a reallocation, which tells pointers into
    it that are still valid from those that are not. *)
From S2P Require Import Prelude CString Util LocalDb.

(** ** Data *)
Definition ARCHIVE_EOF : Z := 1.
Definition ARCHIVE_OK : Z := 0.
Definition ERANGE : Z := 34.

(** What archive_read_data_block returns. *)
Inductive block_result :=
  | Block (data : cstr)
  | BlockError (ret : Z).        (* below ARCHIVE_OK *)

(** struct archive_read_buffer: [rb_rest] are the bytes from block_offset to the
    end of the block. *)
Record read_buffer := mk_buffer {
  rb_line_size : option nat;     (* [None] before the first allocation *)
  rb_moved : nat;
  rb_max_line_size : Z;
  rb_rest : cstr;
  rb_ret : Z;
  rb_blocks : list block_result  (* what the archive still has *)
}.

Definition open_buffer (max_line_size : Z) (blocks : list block_result) : read_buffer :=
  mk_buffer None 0 max_line_size [] 0 blocks.

Inductive fgets_result :=
  | FLine (line : cstr) (b : read_buffer)
  | FEnd (ret : Z).              (* cleanup: the buffer is gone *)

(** ** _alpm_archive_fgets *)
Definition is_nul (c : ascii) : bool := Ascii.eqb c NUL.

(** The line end in a block: a newline, else a NUL. *)
Definition find_eol (s : cstr) : option (cstr * cstr) :=
  match split_first newline s with
  | Some r => Some r
  | None => split_first NUL s
  end.

(** The allocation before [len] bytes are copied behind [offset]; [block_size] is the size of
    the block. [None]: the line is too long. *)
Definition grow_line (b : read_buffer) (block_size offset len : nat) : option read_buffer :=
  match rb_line_size b with
  | None => Some (mk_buffer (Some (block_size + 1)) (rb_moved b) (rb_max_line_size b) (rb_rest b)
                    (rb_ret b) (rb_blocks b))
  | Some line_size =>
      let needed := offset + len + 1 in
      if (rb_max_line_size b <? Z.of_nat needed)%Z then None
      else if line_size <? needed
      then Some (mk_buffer (Some needed) (S (rb_moved b)) (rb_max_line_size b) (rb_rest b) (rb_ret b)
                   (rb_blocks b))
      else Some b
  end.

Definition with_rest (rest : cstr) (b : read_buffer) : read_buffer :=
  mk_buffer (rb_line_size b) (rb_moved b) (rb_max_line_size b) rest (rb_ret b) (rb_blocks b).

(** The part of the loop after a block is there: a result, or the line so far. *)
Definition scan_block (line : cstr) (b : read_buffer) : fgets_result + cstr * read_buffer :=
  let block_remaining := length (rb_rest b) in
  let eol := find_eol (rb_rest b) in
  let len := match eol with Some (l, _) => length l | None => block_remaining end in
  match grow_line b block_remaining (length line) len with
  | None => inl (FEnd (- ERANGE))
  | Some b =>
      match eol with
      | Some (l, rest) => inl (FLine (line ++ l) (with_rest rest b))
      | None =>
          let copied := line ++ rb_rest b in
          let b := with_rest [] b in
          if block_remaining =? 0 then inl (FLine copied b) else inr (copied, b)
      end
  end.

(** The loop, when the block is used up; [blocks] are those the archive has. *)
Fixpoint next_blocks (blocks : list block_result) (line : cstr) (b : read_buffer) : fgets_result :=
  if (rb_ret b =? ARCHIVE_EOF)%Z then FEnd ARCHIVE_EOF
  else
    let with_block data ret blocks :=
      mk_buffer (rb_line_size b) (rb_moved b) (rb_max_line_size b) data ret blocks in
    match blocks with
    | [] =>
        match scan_block line (with_block [] ARCHIVE_EOF []) with
        | inl r => r
        | inr _ => FEnd ARCHIVE_EOF       (* not reached: an empty block ends the call *)
        end
    | BlockError ret :: _ => FEnd ret
    | Block data :: blocks' =>
        match scan_block line (with_block data ARCHIVE_OK blocks') with
        | inl r => r
        | inr (line, b) => next_blocks blocks' line b
        end
    end.

Definition alpm_archive_fgets (b : read_buffer) : fgets_result :=
  match rb_rest b with
  | [] => next_blocks (rb_blocks b) [] b
  | _ => match scan_block [] b with
         | inl r => r
         | inr (line, b) => next_blocks (rb_blocks b) line b
         end
  end.

(** The string that line points to, and _alpm_strip_newline(line, real_line_size):
    the length it returns and the string it leaves. *)
Definition c_string (line : cstr) : cstr := take_while (λ c, negb (is_nul c)) line.
Definition stripped (line : cstr) : cstr :=
  if is_nul (hd_chr line) then [] else drop_while_end is_newline line.

(** Calls until one does not return a line: the lines, and the last result. *)
Fixpoint all_lines (fuel : nat) (b : read_buffer) : list cstr * Z :=
  match fuel with
  | O => ([], 0%Z)
  | S fuel' =>
      match alpm_archive_fgets b with
      | FLine line b => let '(lines, ret) := all_lines fuel' b in (line :: lines, ret)
      | FEnd ret => ([], ret)
      end
  end.

(** ** Facts: the buffer *)
Definition fits (line : cstr) (b : read_buffer) : Prop :=
  ∃ size, rb_line_size b = Some size ∧ length line < size.

Lemma grow_line_fits b size (line : cstr) len b' :
  len <= size → (rb_line_size b = None → line = []) →
  grow_line b size (length line) len = Some b' →
  ∃ n, rb_line_size b' = Some n ∧ length line + len < n ∧
       rb_rest b' = rb_rest b ∧ rb_ret b' = rb_ret b ∧ rb_blocks b' = rb_blocks b ∧
       rb_max_line_size b' = rb_max_line_size b.
Proof.
  intros Hl Hn. unfold grow_line. destruct (rb_line_size b) as [n|] eqn:E.
  - destruct (_ <? _)%Z eqn:E1; [done|]. destruct (n <? _) eqn:E2; intros [= <-]; cbn.
    + exists (length line + len + 1). repeat split; lia.
    + apply Nat.ltb_ge in E2. exists n. repeat split; [done|lia].
  - intros [= <-]. cbn. rewrite Hn by done. exists (size + 1). repeat split; cbn; lia.
Qed.

Lemma find_eol_length s l r : find_eol s = Some (l, r) → length l < length s.
Proof.
  unfold find_eol. destruct (split_first newline s) as [[l' r']|] eqn:E.
  - intros [= <- <-]. apply split_first_Some in E as [-> _]. rewrite length_app. cbn. lia.
  - intros E'. apply split_first_Some in E' as [-> _]. rewrite length_app. cbn. lia.
Qed.

Lemma scan_block_fits line b :
  (rb_line_size b = None → line = []) →
  match scan_block line b with
  | inl (FLine l b') => fits l b'
  | inl (FEnd _) => True
  | inr (l, b') => fits l b'
  end.
Proof.
  intros Hn. unfold scan_block. destruct (grow_line _ _ _ _) as [b1|] eqn:Eg; [|done].
  destruct (find_eol (rb_rest b)) as [[l r]|] eqn:Ee.
  - pose proof (find_eol_length _ _ _ Ee).
    apply grow_line_fits in Eg as (n & H1 & H2 & _); [|lia|done].
    exists n. rewrite length_app. done.
  - apply grow_line_fits in Eg as (n & H1 & H2 & H3 & _); [|done|done].
    destruct (_ =? 0); exists n; rewrite H3, length_app; done.
Qed.

Lemma next_blocks_fits blocks line b :
  fits line b ∨ line = [] →
  match next_blocks blocks line b with FLine l b' => fits l b' | FEnd _ => True end.
Proof.
  revert line b. induction blocks as [|[data|e] blocks IH]; intros line b Hf; cbn [next_blocks];
    (destruct (rb_ret b =? ARCHIVE_EOF)%Z; [done|]); [| |done].
  - set (b1 := mk_buffer _ _ _ _ _ _).
    assert (rb_line_size b1 = None → line = []) as Hn
      by (intros E; destruct Hf as [(n & Hn & _)|]; [cbn in E; congruence|done]).
    pose proof (scan_block_fits line b1 Hn). destruct (scan_block line b1) as [[|]|[]]; done.
  - set (b1 := mk_buffer _ _ _ _ _ _).
    assert (rb_line_size b1 = None → line = []) as Hn
      by (intros E; destruct Hf as [(n & Hn & _)|]; [cbn in E; congruence|done]).
    pose proof (scan_block_fits line b1 Hn). destruct (scan_block line b1) as [[|]|[l b2]]; [done..|].
    apply IH. by left.
Qed.

Lemma archive_fgets_fits b line b' : alpm_archive_fgets b = FLine line b' → fits line b'.
Proof.
  unfold alpm_archive_fgets. intros H. destruct (rb_rest b) eqn:Er.
  - pose proof (next_blocks_fits (rb_blocks b) [] b (or_intror eq_refl)) as Hf. by rewrite H in Hf.
  - pose proof (scan_block_fits [] b (λ _, eq_refl)) as Hs. destruct (scan_block [] b) as [[|]|[x b1]].
    + by injection H as <- <-.
    + done.
    + pose proof (next_blocks_fits (rb_blocks b1) x b1 (or_introl Hs)) as Hf. by rewrite H in Hf.
Qed.

(** ** Facts: the lines *)

(** The reference: the text cut at its newlines. *)
Fixpoint split_lines (s : cstr) : list cstr :=
  match s with
  | [] => [[]]
  | c :: s' => if is_newline c then [] :: split_lines s'
               else match split_lines s' with l :: ls => (c :: l) :: ls | [] => [[c]] end
  end.

Lemma split_lines_cons s : ∃ l ls, split_lines s = l :: ls.
Proof.
  induction s as [|c s (l & ls & IH)]; cbn; [by eexists _, _|]. rewrite IH.
  destruct (is_newline c); by eexists _, _.
Qed.

Lemma split_lines_app l s :
  newline ∉ l → split_lines (l ++ s) =
  match split_lines s with x :: xs => (l ++ x) :: xs | [] => [l] end.
Proof.
  intros Hl. destruct (split_lines_cons s) as (x & xs & Hs). induction l as [|c l IH]; cbn [app split_lines].
  - by rewrite Hs.
  - apply not_elem_of_cons in Hl as [Hc Hl]. rewrite (proj2 (is_newline_false c)) by done.
    by rewrite IH, Hs.
Qed.

Lemma split_lines_newline l s : newline ∉ l → split_lines (l ++ newline :: s) = l :: split_lines s.
Proof. intros Hl. rewrite split_lines_app by done. cbn. by rewrite app_nil_r. Qed.

Lemma split_lines_whole l : newline ∉ l → split_lines l = [l].
Proof. intros Hl. rewrite <-(app_nil_r l) at 1. rewrite split_lines_app by done. cbn. by rewrite app_nil_r. Qed.

(** A buffer in the middle of a text [s]. *)
Record reading (s : cstr) (b : read_buffer) : Prop := {
  rd_blocks : ∃ bs, rb_blocks b = map Block bs ∧ Forall (λ d, d ≠ []) bs ∧ s = rb_rest b ++ concat bs;
  rd_nul : NUL ∉ s;
  rd_ret : rb_ret b = ARCHIVE_OK
}.

(** After a line: at the end, or in the rest of the text. *)
Definition after_line (ls : list cstr) (s : cstr) (b : read_buffer) : Prop :=
  match ls with
  | [] => rb_ret b = ARCHIVE_EOF ∧ rb_rest b = []
  | _ => ∃ s', reading s' b ∧ split_lines s' = ls ∧ length s' < length s
  end.

Lemma grow_line_some b size (line : cstr) len :
  (rb_line_size b = None ∨ (Z.of_nat (length line + len) < rb_max_line_size b)%Z) →
  is_Some (grow_line b size (length line) len).
Proof.
  unfold grow_line. intros H. destruct (rb_line_size b) as [n|]; [|by eexists].
  destruct H as [|H]; [done|]. rewrite (proj2 (Z.ltb_ge _ _)) by lia. destruct (_ <? _); by eexists.
Qed.

Lemma find_eol_no_nul s : NUL ∉ s → find_eol s = split_first newline s.
Proof.
  intros H. unfold find_eol. destruct (split_first newline s); [done|]. by apply split_first_None.
Qed.

(** What a block adds to the line. *)
Lemma scan_block_spec (line s : cstr) b :
  newline ∉ line → NUL ∉ rb_rest b → (rb_line_size b = None → line = []) →
  Forall (λ l, (Z.of_nat (length l) < rb_max_line_size b)%Z) (split_lines (line ++ rb_rest b ++ s)) →
  match split_first newline (rb_rest b) with
  | Some (l, r) => ∃ b', scan_block line b = inl (FLine (line ++ l) b') ∧ rb_rest b' = r ∧
                         rb_ret b' = rb_ret b ∧ rb_blocks b' = rb_blocks b ∧
                         rb_max_line_size b' = rb_max_line_size b
  | None => ∃ b', scan_block line b = (if length (rb_rest b) =? 0 then inl (FLine (line ++ rb_rest b) b')
                                       else inr (line ++ rb_rest b, b')) ∧
                  rb_rest b' = [] ∧ rb_ret b' = rb_ret b ∧ rb_blocks b' = rb_blocks b ∧
                  rb_max_line_size b' = rb_max_line_size b ∧ rb_line_size b' ≠ None
  end.
Proof.
  intros Hl Hnul Hn Hlen. unfold scan_block. rewrite (find_eol_no_nul _ Hnul).
  destruct (split_first newline (rb_rest b)) as [[l r]|] eqn:Es.
  - apply split_first_Some in Es as [Er Hnl]. rewrite Er, <-app_assoc, app_assoc in Hlen.
    rewrite <-app_comm_cons, split_lines_newline in Hlen by (rewrite elem_of_app; tauto).
    apply Forall_cons in Hlen as [Hlen _]. rewrite length_app in Hlen.
    destruct (grow_line_some b (length (rb_rest b)) line (length l)) as [b1 Hb]; [by right|]. rewrite Hb.
    apply grow_line_fits in Hb as (n & H1 & H2 & H3 & H4 & H5 & H6); [|rewrite Er, length_app; lia|done].
    eexists. split; [done|]. by rewrite <-H4, <-H5, <-H6.
  - apply split_first_None in Es.
    rewrite app_assoc, split_lines_app in Hlen by (rewrite elem_of_app; tauto).
    destruct (split_lines_cons s) as (x & xs & Hx). rewrite Hx in Hlen.
    apply Forall_cons in Hlen as [Hlen _]. rewrite !length_app in Hlen.
    destruct (grow_line_some b (length (rb_rest b)) line (length (rb_rest b))) as [b1 Hb]; [right; lia|].
    rewrite Hb. apply grow_line_fits in Hb as (n & H1 & H2 & H3 & H4 & H5 & H6); [|done|done].
    eexists. rewrite H3. split; [by destruct (_ =? 0)|]. cbn. rewrite H1. done.
Qed.

Lemma reading_blocks bs s b :
  rb_blocks b = map Block bs → Forall (λ d, d ≠ []) bs → s = rb_rest b ++ concat bs → NUL ∉ s →
  rb_ret b = ARCHIVE_OK → reading s b.
Proof. intros H1 H2 H3 H4 H5. split; [by exists bs|done|done]. Qed.

Lemma nul_tail (x r t : cstr) : ¬ (NUL ∈ x ++ newline :: r ∨ NUL ∈ t) → NUL ∉ r ++ t.
Proof.
  intros H [Hr|Ht]%elem_of_app; apply H; [left|by right]. apply elem_of_app. right. by right.
Qed.

Lemma next_blocks_spec bs (line : cstr) b l ls :
  newline ∉ line → Forall (λ d, d ≠ []) bs → NUL ∉ concat bs → rb_ret b = ARCHIVE_OK →
  (rb_line_size b = None → line = []) →
  split_lines (line ++ concat bs) = l :: ls →
  Forall (λ l, (Z.of_nat (length l) < rb_max_line_size b)%Z) (l :: ls) →
  ∃ b', next_blocks (map Block bs) line b = FLine l b' ∧ rb_max_line_size b' = rb_max_line_size b ∧
        after_line ls (line ++ concat bs) b'.
Proof.
  revert line b. induction bs as [|d bs IH]; intros line b Hl Hne Hnul Hret Hn Hs Hlen;
    cbn [map next_blocks concat] in *; rewrite Hret; cbn [Z.eqb ARCHIVE_OK ARCHIVE_EOF].
  - rewrite app_nil_r, split_lines_whole in Hs by done. injection Hs as <- <-.
    set (b1 := mk_buffer _ _ _ _ _ _).
    destruct (scan_block_spec line [] b1) as (b' & Hb & H1 & H2 & H3 & H4 & _);
      [done|apply not_elem_of_nil|done|cbn; rewrite !app_nil_r, split_lines_whole by done; done|].
    rewrite Hb. cbn. rewrite app_nil_r. by exists b'.
  - apply Forall_cons in Hne as [Hd Hne]. rewrite elem_of_app in Hnul.
    set (b1 := mk_buffer _ _ _ _ _ _).
    pose proof (scan_block_spec line (concat bs) b1 Hl) as Hspec. cbn [rb_rest b1] in Hspec.
    destruct (split_first newline d) as [[x r]|] eqn:Es.
    + destruct Hspec as (b' & -> & H1 & H2 & H3 & H4); [tauto|done|by rewrite Hs|].
      apply split_first_Some in Es as [-> Hx].
      rewrite <-app_assoc, app_assoc, <-app_comm_cons, split_lines_newline in Hs by (rewrite elem_of_app; tauto).
      injection Hs as <- <-. exists b'. split; [done|]. split; [done|].
      destruct (split_lines_cons (r ++ concat bs)) as (y & ys & Hy). rewrite Hy.
      exists (r ++ concat bs). split; [|split; [done|rewrite !length_app; cbn; lia]].
      apply (reading_blocks bs); [done|done|by rewrite H1| |done].
      by eapply nul_tail.
    + destruct Hspec as (b' & -> & H1 & H2 & H3 & H4 & H5); [tauto|done|by rewrite Hs|].
      apply split_first_None in Es. destruct d as [|c d]; [done|]. cbn [length Nat.eqb].
      destruct (IH (line ++ c :: d) b') as (b2 & -> & Hm & Ha);
        [rewrite elem_of_app; tauto|done|tauto|done|done|by rewrite <-app_assoc|by rewrite H4|].
      exists b2. split; [done|]. split; [by rewrite Hm, H4|]. by rewrite <-app_assoc in Ha.
Qed.

(** One call on a text without NUL. *)
Lemma archive_fgets_spec s b l ls :
  reading s b → split_lines s = l :: ls → Forall (λ l, (Z.of_nat (length l) < rb_max_line_size b)%Z) (l :: ls) →
  ∃ b', alpm_archive_fgets b = FLine l b' ∧ rb_max_line_size b' = rb_max_line_size b ∧ after_line ls s b'.
Proof.
  intros [(bs & Hb & Hne & ->) Hnul Hret] Hs Hlen. unfold alpm_archive_fgets.
  destruct (rb_rest b) as [|c rest] eqn:Er.
  { rewrite Hb. by apply (next_blocks_spec bs []); [apply not_elem_of_nil|..]. }
  pose proof (scan_block_spec [] (concat bs) b (not_elem_of_nil _)) as Hspec. rewrite Er in Hspec.
  rewrite elem_of_app in Hnul.
  destruct (split_first newline (c :: rest)) as [[x r]|] eqn:Es.
  - destruct Hspec as (b' & -> & H1 & H2 & H3 & H4); [tauto|done|by rewrite app_nil_l, Hs|].
    apply split_first_Some in Es as [Hcr Hx]. rewrite Hcr in *.
    rewrite <-app_assoc, <-app_comm_cons, split_lines_newline in Hs by done. injection Hs as <- <-.
    exists b'. split; [done|]. split; [done|].
    destruct (split_lines_cons (r ++ concat bs)) as (y & ys & Hy). rewrite Hy.
    exists (r ++ concat bs). split; [|split; [done|rewrite !length_app; cbn; lia]].
    apply (reading_blocks bs); [congruence|done|by rewrite H1| |congruence].
    by eapply nul_tail.
  - destruct Hspec as (b' & -> & H1 & H2 & H3 & H4 & H5); [tauto|done|by rewrite app_nil_l, Hs|].
    apply split_first_None in Es. cbn [length Nat.eqb app].
    rewrite H3, Hb. rewrite <-(app_nil_l (c :: rest)), <-app_assoc in Hs.
    destruct (next_blocks_spec bs (c :: rest) b' l ls) as (b2 & E2 & Hm & Ha);
      [done|done|tauto|congruence|done|done|by rewrite H4|].
    exists b2. rewrite E2. split; [done|]. split; [congruence|done].
Qed.

Lemma all_lines_spec fuel s b :
  reading s b → length s + 1 < fuel →
  Forall (λ l, (Z.of_nat (length l) < rb_max_line_size b)%Z) (split_lines s) →
  all_lines fuel b = (split_lines s, ARCHIVE_EOF).
Proof.
  revert s b. induction fuel as [|fuel IH]; intros s b Hr Hf Hlen; [lia|]. cbn [all_lines].
  destruct (split_lines_cons s) as (l & ls & Hs). rewrite Hs in *.
  destruct (archive_fgets_spec s b l ls Hr Hs Hlen) as (b' & -> & Hm & Ha).
  apply Forall_cons in Hlen as [_ Hlen]. destruct ls as [|l' ls'].
  - destruct Ha as [Ha1 Ha2]. destruct fuel as [|fuel]; [lia|]. cbn [all_lines].
    unfold alpm_archive_fgets. rewrite Ha2. destruct (rb_blocks b'); cbn [next_blocks]; by rewrite Ha1.
  - destruct Ha as (s' & Hr' & Hs' & Hlt). rewrite (IH s' b'); [|done|lia|by rewrite Hs', Hm]. by rewrite Hs'.
Qed.

(** ** Facts: progress *)

(** What is left: every line that is returned makes it smaller. *)
Definition block_weight (r : block_result) : nat :=
  match r with Block data => S (length data) | BlockError _ => 1 end.
Definition weight (blocks : list block_result) : nat := sum_list_with block_weight blocks.
Definition left_to_read (b : read_buffer) : nat :=
  length (rb_rest b) + weight (rb_blocks b) + if (rb_ret b =? ARCHIVE_EOF)%Z then 0 else 1.

Lemma grow_line_same b size offset len b' :
  grow_line b size offset len = Some b' →
  rb_rest b' = rb_rest b ∧ rb_ret b' = rb_ret b ∧ rb_blocks b' = rb_blocks b.
Proof. unfold grow_line. intros H. repeat case_match; by simplify_eq. Qed.

Lemma scan_block_progress line b :
  match scan_block line b with
  | inl (FLine _ b') => rb_ret b' = rb_ret b ∧ rb_blocks b' = rb_blocks b ∧
                        (length (rb_rest b') < length (rb_rest b) ∨ rb_rest b = [] ∧ rb_rest b' = [])
  | inl (FEnd _) => True
  | inr (_, b') => rb_ret b' = rb_ret b ∧ rb_blocks b' = rb_blocks b ∧ rb_rest b' = []
  end.
Proof.
  unfold scan_block. destruct (grow_line _ _ _ _) as [b1|] eqn:Eg; [|done].
  apply grow_line_same in Eg as (E1 & E2 & E3). destruct (find_eol (rb_rest b)) as [[l r]|] eqn:Ee.
  - split; [done|]. split; [done|]. left. cbn. revert Ee. unfold find_eol.
    destruct (split_first newline (rb_rest b)) as [[l' r']|] eqn:Es.
    + intros [= <- <-]. apply split_first_Some in Es as [-> _]. rewrite length_app. cbn. lia.
    + intros Ee. apply split_first_Some in Ee as [-> _]. rewrite length_app. cbn. lia.
  - destruct (length (rb_rest b) =? 0) eqn:El; [|done]. split; [done|]. split; [done|]. right.
    apply Nat.eqb_eq, nil_length_inv in El. done.
Qed.

Lemma next_blocks_progress blocks line b line' b' :
  next_blocks blocks line b = FLine line' b' →
  left_to_read b' < weight blocks + if (rb_ret b =? ARCHIVE_EOF)%Z then 0 else 1.
Proof.
  revert line b. induction blocks as [|[data|e] blocks IH]; intros line b; cbn [next_blocks];
    (destruct (rb_ret b =? ARCHIVE_EOF)%Z; [done|]); [| |done].
  - pose proof (scan_block_progress line
      (mk_buffer (rb_line_size b) (rb_moved b) (rb_max_line_size b) [] ARCHIVE_EOF [])) as Hp.
    destruct (scan_block _ _) as [[l b1|]|[]]; [|done..]. intros [= <- <-].
    destruct Hp as (H1 & H2 & [H3|[_ H3]]); [cbn in H3; lia|].
    unfold left_to_read. rewrite H1, H2, H3. cbn. lia.
  - pose proof (scan_block_progress line
      (mk_buffer (rb_line_size b) (rb_moved b) (rb_max_line_size b) data ARCHIVE_OK blocks)) as Hp.
    destruct (scan_block _ _) as [[l b1|]|[l b1]]; [|done|].
    + intros [= <- <-]. destruct Hp as (H1 & H2 & H3). unfold left_to_read. rewrite H1, H2. cbn in *.
      destruct H3 as [H3|[H3 H4]]; [lia|]. rewrite H4. cbn. lia.
    + destruct Hp as (H1 & H2 & H3). intros H%IH. rewrite H1 in H.
      change (weight (Block data :: blocks)) with (S (length data) + weight blocks).
      cbn [rb_ret Z.eqb ARCHIVE_OK ARCHIVE_EOF] in H. lia.
Qed.

Lemma archive_fgets_progress b line b' :
  alpm_archive_fgets b = FLine line b' → left_to_read b' < left_to_read b.
Proof.
  unfold alpm_archive_fgets. destruct (rb_rest b) eqn:Er.
  - intros H%next_blocks_progress. unfold left_to_read at 2. rewrite Er. cbn. lia.
  - pose proof (scan_block_progress [] b) as Hp. destruct (scan_block [] b) as [[x b1|]|[x b1]]; [|done|].
    + intros [= <- <-]. destruct Hp as (H1 & H2 & [H3|[H3 _]]); [|congruence].
      unfold left_to_read. rewrite H1, H2. lia.
    + intros H%next_blocks_progress. destruct Hp as (H1 & H2 & H3). unfold left_to_read at 2.
      rewrite H2, H1 in H. rewrite Er. cbn. lia.
Qed.

(** ** Theorem *)

(** Reading an archive entry by lines: however libarchive cuts the data into
    blocks, the calls return the text between the newlines, the last piece
    (which may be empty) included, and then ARCHIVE_EOF, when the data has no NUL
    and no line reaches the limit. For any data, a line that is returned fits the
    line buffer with its terminator. *)
Theorem archive_lines (max : Z) (bs : list cstr) (fuel : nat) :
  (Forall (λ d, d ≠ []) bs → NUL ∉ concat bs → length (concat bs) + 1 < fuel →
   Forall (λ l, (Z.of_nat (length l) < max)%Z) (split_lines (concat bs)) →
   all_lines fuel (open_buffer max (map Block bs)) = (split_lines (concat bs), ARCHIVE_EOF)) ∧
  (∀ b line b', alpm_archive_fgets b = FLine line b' →
   ∃ size, rb_line_size b' = Some size ∧ length line < size).
Proof.
  split.
  - intros Hne Hnul Hf Hlen. apply all_lines_spec; [|done|done]. by apply (reading_blocks bs).
  - intros b line b'. apply archive_fgets_fits.
Qed.

Example archive_lines_example :
  all_lines 9 (open_buffer 5 (map Block [str "a"; str "b" ++ [newline]; [newline]; str "cde"; str "f"])) =
  ([str "ab"; []; str "cdef"], ARCHIVE_EOF).
Proof. vm_compute. reflexivity. Qed.
