(* ===== verification/Base64.v ===== *)
(** * Base64

    lib/libalpm/base64.c and alpm_decode_signature of signing.c. The encoder is
    disabled in the source (#if 0) and serves as the reference for the decoder.
    Bytes are [ascii]; the loops keep their counters and the 32-bit accumulator. *)
From S2P Require Import Prelude CString.
Local Open Scope Z_scope.

(** ** Data *)
Definition base64_enc_map : cstr :=
  str "ABCDEFGHIJKLMNOPQRSTUVWXYZabcdefghijklmnopqrstuvwxyz0123456789+/".

Definition base64_dec_map : list Z :=
  [127; 127; 127; 127; 127; 127; 127; 127; 127; 127;
   127; 127; 127; 127; 127; 127; 127; 127; 127; 127;
   127; 127; 127; 127; 127; 127; 127; 127; 127; 127;
   127; 127; 127; 127; 127; 127; 127; 127; 127; 127;
   127; 127; 127;  62; 127; 127; 127;  63;  52;  53;
    54;  55;  56;  57;  58;  59;  60;  61; 127; 127;
   127;  64; 127; 127; 127;   0;   1;   2;   3;   4;
     5;   6;   7;   8;   9;  10;  11;  12;  13;  14;
    15;  16;  17;  18;  19;  20;  21;  22;  23;  24;
    25; 127; 127; 127; 127; 127; 127;  26;  27;  28;
    29;  30;  31;  32;  33;  34;  35;  36;  37;  38;
    39;  40;  41;  42;  43;  44;  45;  46;  47;  48;
    49;  50;  51; 127; 127; 127; 127; 127].

Definition enc (i : Z) : ascii := nth (Z.to_nat i) base64_enc_map NUL.
Definition dec (c : ascii) : Z := nth (Z.to_nat (uchr c)) base64_dec_map 127.

(** (unsigned char)(z) *)
Definition to_byte (z : Z) : ascii := ascii_of_N (Z.to_N (z mod 256)).

Definition CR : ascii := "013"%char.
Definition LF : ascii := "010"%char.
Definition PAD : ascii := "="%char.

Definition POLARSSL_ERR_BASE64_BUFFER_TOO_SMALL : Z := -16.
Definition POLARSSL_ERR_BASE64_INVALID_CHARACTER : Z := -18.

(** ** base64_encode *)
Definition enc1 (c1 : Z) : ascii := enc (Z.land (Z.shiftr c1 2) 63).
Definition enc2 (c1 c2 : Z) : ascii := enc (Z.land (Z.shiftl (Z.land c1 3) 4 + Z.shiftr c2 4) 63).
Definition enc3 (c2 c3 : Z) : ascii := enc (Z.land (Z.shiftl (Z.land c2 15) 2 + Z.shiftr c3 6) 63).

Fixpoint base64_encode (src : cstr) : cstr :=
  match src with
  | b1 :: b2 :: b3 :: src' =>
      enc1 (uchr b1) :: enc2 (uchr b1) (uchr b2) :: enc3 (uchr b2) (uchr b3)
      :: enc (Z.land (uchr b3) 63) :: base64_encode src'
  | [b1; b2] =>
      [enc1 (uchr b1); enc2 (uchr b1) (uchr b2); enc (Z.land (Z.shiftl (Z.land (uchr b2) 15) 2) 63); PAD]
  | [b1] => [enc1 (uchr b1); enc2 (uchr b1) 0; PAD; PAD]
  | [] => []
  end.

(** ** base64_decode *)

(** The first loop: the number of characters that count, [None] for an invalid
    character; [j] counts the padding. *)
Fixpoint count_chars (src : cstr) (j n : Z) : option Z :=
  match src with
  | [] => Some n
  | c :: src' =>
      if Ascii.eqb c CR && match src' with d :: _ => Ascii.eqb d LF | [] => false end
      then count_chars src' j n
      else if Ascii.eqb c LF then count_chars src' j n
      else
        let j := if Ascii.eqb c PAD then j + 1 else j in
        if Ascii.eqb c PAD && (2 <? j) then None
        else if (127 <? uchr c) || (dec c =? 127) then None
        else if (dec c <? 64) && negb (j =? 0) then None
        else count_chars src' j (n + 1)
  end.

(** The second loop: the bytes it writes. *)
Fixpoint decode_chars (src : cstr) (j n x : Z) : cstr :=
  match src with
  | [] => []
  | c :: src' =>
      if Ascii.eqb c CR || Ascii.eqb c LF then decode_chars src' j n x
      else
        let j := if dec c =? 64 then j - 1 else j in
        let x := Z.lor (wrap32 (Z.shiftl x 6)) (Z.land (dec c) 63) in
        if n + 1 =? 4
        then (if 0 <? j then [to_byte (Z.shiftr x 16)] else [])
             ++ (if 1 <? j then [to_byte (Z.shiftr x 8)] else [])
             ++ (if 2 <? j then [to_byte x] else []) ++ decode_chars src' j 0 x
        else decode_chars src' j (n + 1) x
  end.

Inductive decode_result :=
  | DecError (code : Z)
  | DecEmpty                 (* 0, and neither dst nor *dlen is written *)
  | DecOk (dst : cstr).      (* 0, and *dlen is the length *)

Definition base64_decode (dlen : Z) (src : cstr) : decode_result :=
  match count_chars src 0 0 with
  | None => DecError POLARSSL_ERR_BASE64_INVALID_CHARACTER
  | Some n =>
      if n =? 0 then DecEmpty
      else if dlen <? Z.shiftr (n * 6 + 7) 3 then DecError POLARSSL_ERR_BASE64_BUFFER_TOO_SMALL
      else DecOk (decode_chars src 3 0 0)
  end.

(** ** alpm_decode_signature *)
Inductive signature_data :=
  | SigError
  | SigData (data : cstr)
  | SigUnset (data_len : Z).   (* data_len bytes of malloc's memory, not written *)

Definition alpm_decode_signature (base64_data : cstr) : signature_data :=
  let destlen := wrap64 (Z.of_nat (length base64_data) * 3) / 4 in
  match base64_decode destlen base64_data with
  | DecError _ => SigError
  | DecEmpty => SigUnset destlen
  | DecOk data => SigData data
  end.

(** ** Facts: one character *)
Definition indices : list Z := map Z.of_nat (seq 0 64).

Lemma index_in i : 0 <= i < 64 → In i indices.
Proof. intros H. apply in_map_iff. exists (Z.to_nat i). rewrite in_seq. lia. Qed.

Lemma enc_spec i :
  0 <= i < 64 → dec (enc i) = i ∧ uchr (enc i) <= 127 ∧ enc i ≠ CR ∧ enc i ≠ LF ∧ enc i ≠ PAD.
Proof.
  intros Hi. assert (forallb (λ i, (dec (enc i) =? i) && (uchr (enc i) <=? 127) &&
    negb (Ascii.eqb (enc i) CR) && negb (Ascii.eqb (enc i) LF) && negb (Ascii.eqb (enc i) PAD)) indices = true)
    as H by reflexivity.
  rewrite forallb_forall in H. specialize (H i (index_in i Hi)).
  repeat rewrite andb_true_iff in H. rewrite !negb_true_iff, !Ascii.eqb_neq in H.
  split_and!; [lia|lia|tauto..].
Qed.

Lemma to_byte_uchr c : to_byte (uchr c) = c.
Proof.
  unfold to_byte. pose proof (uchr_range c). rewrite Z.mod_small by done. unfold uchr.
  by rewrite N2Z.id, ascii_N_embedding.
Qed.

Lemma to_byte_mod z w : z mod 256 = w mod 256 → to_byte z = to_byte w.
Proof. unfold to_byte. by intros ->. Qed.

(** The accumulator, as a number. *)
Lemma shift_in x d : 0 <= d < 64 → Z.lor (wrap32 (Z.shiftl x 6)) (Z.land d 63) = (x * 64) mod 2 ^ 32 + d.
Proof.
  intros Hd. change 63 with (Z.ones 6). rewrite Z.land_ones, Z.mod_small by lia.
  rewrite Z.shiftl_mul_pow2 by lia. unfold wrap32. change (2 ^ 6) with 64.
  assert (Z.land ((x * 64) mod 2 ^ 32) d = 0) as H.
  { apply Z.bits_inj'. intros n Hn. rewrite Z.land_spec, Z.bits_0. destruct (Z.ltb_spec n 6).
    - replace ((x * 64) mod 2 ^ 32) with (Z.shiftl ((x mod 2 ^ 26)) 6)
        by (rewrite Z.shiftl_mul_pow2 by lia; change (2 ^ 32) with (2 ^ 26 * 64);
            rewrite Z.mul_mod_distr_r by lia; lia).
      rewrite Z.shiftl_spec_low by lia. done.
    - assert (Z.testbit d n = false) as ->; [|apply andb_false_r].
      apply Z.testbit_false; [done|]. assert (2 ^ 6 <= 2 ^ n) as Hp by (apply Z.pow_le_mono_r; lia).
      change (2 ^ 6) with 64 in Hp. rewrite Z.div_small; [done|lia]. }
  rewrite <-(Z.add_lor_land ((x * 64) mod 2 ^ 32) d), H. lia.
Qed.

(** ** Facts: a group of characters *)
Lemma decode_char i src j n x :
  0 <= i < 64 → n <> 3 → decode_chars (enc i :: src) j n x = decode_chars src j (n + 1) ((x * 64) mod 2 ^ 32 + i).
Proof.
  intros Hi Hn. destruct (enc_spec i Hi) as (Hd & _ & Hc & Hl & _). cbn [decode_chars].
  rewrite (proj2 (Ascii.eqb_neq _ _) Hc), (proj2 (Ascii.eqb_neq _ _) Hl), Hd. cbn [orb].
  rewrite shift_in by done. destruct (Z.eqb_spec i 64); [lia|]. destruct (Z.eqb_spec (n + 1) 4); [lia|]. done.
Qed.

Lemma decode_last i src x :
  0 <= i < 64 → let y := (x * 64) mod 2 ^ 32 + i in
  decode_chars (enc i :: src) 3 3 x =
  to_byte (Z.shiftr y 16) :: to_byte (Z.shiftr y 8) :: to_byte y :: decode_chars src 3 0 y.
Proof.
  intros Hi. destruct (enc_spec i Hi) as (Hd & _ & Hc & Hl & _). cbn [decode_chars].
  rewrite (proj2 (Ascii.eqb_neq _ _) Hc), (proj2 (Ascii.eqb_neq _ _) Hl), Hd. cbn [orb].
  rewrite shift_in by done. destruct (Z.eqb_spec i 64); [lia|]. done.
Qed.

Lemma count_char i src j n :
  0 <= i < 64 → j = 0 → count_chars (enc i :: src) j n = count_chars src 0 (n + 1).
Proof.
  intros Hi ->. destruct (enc_spec i Hi) as (Hd & Hu & Hc & Hl & Hp). cbn [count_chars].
  rewrite (proj2 (Ascii.eqb_neq _ _) Hc), (proj2 (Ascii.eqb_neq _ _) Hl), (proj2 (Ascii.eqb_neq _ _) Hp).
  cbn [andb]. rewrite Hd, (proj2 (Z.ltb_ge _ _)) by done. destruct (Z.eqb_spec i 127); [lia|].
  by rewrite andb_false_r.
Qed.

(** The indices of the characters of three bytes. *)
Definition idx1 (a : Z) : Z := a / 4.
Definition idx2 (a b : Z) : Z := a mod 4 * 16 + b / 16.
Definition idx3 (b c : Z) : Z := b mod 16 * 4 + c / 64.
Definition idx4 (c : Z) : Z := c mod 64.

Definition byte (z : Z) : Prop := 0 <= z < 256.

Lemma land_ones_mod z n k : k = 2 ^ n → 0 <= n → Z.land z (k - 1) = z mod k.
Proof. intros -> Hn. rewrite <-Z.land_ones by done. by rewrite Z.ones_equiv. Qed.

Lemma enc_idx a b c :
  byte a → byte b → byte c →
  enc1 a = enc (idx1 a) ∧ enc2 a b = enc (idx2 a b) ∧ enc3 b c = enc (idx3 b c) ∧
  enc (Z.land c 63) = enc (idx4 c) ∧ enc (Z.land (Z.shiftl (Z.land b 15) 2) 63) = enc (idx3 b 0).
Proof.
  unfold byte. intros Ha Hb Hc. unfold enc1, enc2, enc3, idx1, idx2, idx3, idx4.
  rewrite !(land_ones_mod _ 6 64), !(land_ones_mod _ 4 16), !(land_ones_mod _ 2 4) by done.
  rewrite !Z.shiftr_div_pow2, !Z.shiftl_mul_pow2 by done.
  split_and!; f_equal; Z.to_euclidean_division_equations; lia.
Qed.

Lemma idx_range a b c :
  byte a → byte b → byte c →
  0 <= idx1 a < 64 ∧ 0 <= idx2 a b < 64 ∧ 0 <= idx3 b c < 64 ∧ 0 <= idx4 c < 64 ∧ 0 <= idx3 b 0 < 64 ∧
  0 <= idx2 a 0 < 64.
Proof. unfold byte, idx1, idx2, idx3, idx4. intros. Z.to_euclidean_division_equations; lia. Qed.

(** Four steps of the accumulator keep the last 24 bits. *)
Definition acc (x i : Z) : Z := (x * 64) mod 2 ^ 32 + i.

Lemma acc_group x i1 i2 i3 i4 :
  ∃ k, acc (acc (acc (acc x i1) i2) i3) i4 = k * 2 ^ 24 + (i1 * 2 ^ 18 + i2 * 2 ^ 12 + i3 * 2 ^ 6 + i4).
Proof.
  assert (∀ y, ∃ q, (y * 64) mod 2 ^ 32 = y * 64 + q * 2 ^ 32) as Hm.
  { intros y. exists (- (y * 64 / 2 ^ 32)). rewrite Z.mod_eq by done. lia. }
  unfold acc. destruct (Hm x) as [q1 ->].
  destruct (Hm (x * 64 + q1 * 2 ^ 32 + i1)) as [q2 ->].
  destruct (Hm ((x * 64 + q1 * 2 ^ 32 + i1) * 64 + q2 * 2 ^ 32 + i2)) as [q3 ->].
  destruct (Hm (((x * 64 + q1 * 2 ^ 32 + i1) * 64 + q2 * 2 ^ 32 + i2) * 64 + q3 * 2 ^ 32 + i3)) as [q4 ->].
  exists (x + q1 * 2 ^ 26 + q2 * 2 ^ 20 + q3 * 2 ^ 14 + q4 * 2 ^ 8). lia.
Qed.

Lemma acc_bytes k a b c :
  let y := k * 2 ^ 24 + (uchr a * 2 ^ 16 + uchr b * 2 ^ 8 + uchr c) in
  to_byte (Z.shiftr y 16) = a ∧ to_byte (Z.shiftr y 8) = b ∧ to_byte y = c.
Proof.
  intros y. pose proof (uchr_range a). pose proof (uchr_range b). pose proof (uchr_range c).
  rewrite !Z.shiftr_div_pow2 by done.
  assert (∀ z d, z mod 256 = uchr d → to_byte z = d) as Hb.
  { intros z d Hz. rewrite <-(to_byte_uchr d). apply to_byte_mod. rewrite Hz. symmetry.
    apply Z.mod_small, uchr_range. }
  subst y. split_and!; apply Hb; Z.to_euclidean_division_equations; lia.
Qed.

(** The accumulator after a group for three bytes. *)
Lemma acc_three x a b c :
  byte a → byte b → byte c →
  ∃ k, acc (acc (acc (acc x (idx1 a)) (idx2 a b)) (idx3 b c)) (idx4 c) =
       k * 2 ^ 24 + (a * 2 ^ 16 + b * 2 ^ 8 + c).
Proof.
  intros Ha Hb Hc. destruct (acc_group x (idx1 a) (idx2 a b) (idx3 b c) (idx4 c)) as [k ->]. exists k.
  unfold idx1, idx2, idx3, idx4. f_equal. clear. Z.to_euclidean_division_equations; lia.
Qed.

(** The bytes of one group, from any state of the accumulator. *)
Lemma decode_group a b c src x :
  ∃ y, decode_chars (enc1 (uchr a) :: enc2 (uchr a) (uchr b) :: enc3 (uchr b) (uchr c)
         :: enc (Z.land (uchr c) 63) :: src) 3 0 x = a :: b :: c :: decode_chars src 3 0 y.
Proof.
  pose proof (uchr_range a) as Ha. pose proof (uchr_range b) as Hb. pose proof (uchr_range c) as Hc.
  destruct (enc_idx _ _ _ Ha Hb Hc) as (-> & -> & -> & -> & _).
  destruct (idx_range _ _ _ Ha Hb Hc) as (H1 & H2 & H3 & H4 & _).
  rewrite !decode_char by (done || lia). rewrite decode_last by done.
  destruct (acc_three x _ _ _ Ha Hb Hc) as [k Hk]. unfold acc in Hk. rewrite Hk.
  destruct (acc_bytes k a b c) as (-> & -> & ->). by eexists.
Qed.

Lemma decode_pad src j n x :
  n <> 3 → decode_chars (PAD :: src) j n x = decode_chars src (j - 1) (n + 1) ((x * 64) mod 2 ^ 32 + 0).
Proof.
  intros Hn. cbn [decode_chars]. change (dec PAD) with 64. change (Z.land 64 63) with (Z.land 0 63).
  rewrite shift_in by done. destruct (Z.eqb_spec (n + 1) 4); [lia|]. done.
Qed.

Lemma decode_pad_last j x :
  let y := (x * 64) mod 2 ^ 32 + 0 in
  decode_chars [PAD] j 3 x = (if 1 <? j then [to_byte (Z.shiftr y 16)] else []) ++
    (if 2 <? j then [to_byte (Z.shiftr y 8)] else []) ++ (if 3 <? j then [to_byte y] else []).
Proof.
  cbn [decode_chars]. change (dec PAD) with 64. change (Z.land 64 63) with (Z.land 0 63).
  rewrite shift_in by done. cbn [Z.add Z.eqb Pos.eqb Pos.add].
  replace (0 <? j - 1) with (1 <? j) by (destruct (Z.ltb_spec 1 j), (Z.ltb_spec 0 (j - 1)); lia || done).
  replace (1 <? j - 1) with (2 <? j) by (destruct (Z.ltb_spec 2 j), (Z.ltb_spec 1 (j - 1)); lia || done).
  replace (2 <? j - 1) with (3 <? j) by (destruct (Z.ltb_spec 3 j), (Z.ltb_spec 2 (j - 1)); lia || done).
  by rewrite app_nil_r.
Qed.

Lemma three_ind (P : cstr → Prop) :
  P [] → (∀ a, P [a]) → (∀ a b, P [a; b]) → (∀ a b c l, P l → P (a :: b :: c :: l)) → ∀ l, P l.
Proof.
  intros H0 H1 H2 H3. fix IH 1. intros [|a [|b [|c l]]]; [done|done|done|]. apply H3, IH.
Qed.

Lemma decode_encode data x : decode_chars (base64_encode data) 3 0 x = data.
Proof.
  revert x. induction data as [|a|a b|a b c data IH] using three_ind; intros x; cbn [base64_encode].
  - done.
  - pose proof (uchr_range a) as Ha. assert (byte 0) as H0 by done.
    destruct (enc_idx _ _ _ Ha H0 H0) as (-> & -> & _). destruct (idx_range _ _ _ Ha H0 H0) as (H1 & H2 & _).
    rewrite !decode_char, decode_pad, decode_pad_last by (done || lia).
    destruct (acc_three x _ _ _ Ha H0 H0) as [k Hk]. unfold acc in Hk.
    change (idx3 0 0) with 0 in Hk. change (idx4 0) with 0 in Hk. cbn [Z.ltb Z.compare Z.sub Z.opp Z.add Z.pos_sub app].
    rewrite Hk. destruct (acc_bytes k a NUL NUL) as (E & _). change (uchr NUL) with 0 in E. by rewrite E.
  - pose proof (uchr_range a) as Ha. pose proof (uchr_range b) as Hb. assert (byte 0) as H0 by done.
    destruct (enc_idx _ _ _ Ha Hb H0) as (-> & -> & _ & _ & ->).
    destruct (idx_range _ _ _ Ha Hb H0) as (H1 & H2 & H3 & _).
    rewrite !decode_char, decode_pad_last by (done || lia).
    destruct (acc_three x _ _ _ Ha Hb H0) as [k Hk]. unfold acc in Hk. change (idx4 0) with 0 in Hk. rewrite Hk.
    destruct (acc_bytes k a b NUL) as (E1 & E2 & _). change (uchr NUL) with 0 in E1, E2. cbn [Z.ltb Z.compare app].
    rewrite E1. cbn. by rewrite E2.
  - destruct (decode_group a b c (base64_encode data) x) as [y ->]. by rewrite IH.
Qed.

(** ** Facts: line breaks *)
Definition no_breaks (text : cstr) : cstr := List.filter (λ c, negb (Ascii.eqb c LF)) text.

Lemma decode_breaks text j n x : decode_chars text j n x = decode_chars (no_breaks text) j n x.
Proof.
  revert j n x. induction text as [|c text IH]; intros j n x; [done|]. cbn [no_breaks List.filter].
  destruct (Ascii.eqb_spec c LF) as [->|Hc]; cbn [negb decode_chars]; [apply IH|].
  destruct (_ || _); [apply IH|]. by rewrite !IH.
Qed.

Lemma count_breaks text j n : CR ∉ text → count_chars text j n = count_chars (no_breaks text) j n.
Proof.
  revert j n. induction text as [|c text IH]; intros j n Hc; [done|]. apply not_elem_of_cons in Hc as [Hc Ht].
  cbn [no_breaks List.filter count_chars]. rewrite (proj2 (Ascii.eqb_neq c CR)) by congruence. cbn [andb].
  destruct (Ascii.eqb_spec c LF) as [->|Hl]; cbn [negb count_chars]; [by apply IH|].
  rewrite (proj2 (Ascii.eqb_neq c CR)) by congruence. cbn [andb]. rewrite (proj2 (Ascii.eqb_neq c LF)) by done.
  by rewrite !IH.
Qed.

Lemma count_encode data n :
  count_chars (base64_encode data) 0 n = Some (n + Z.of_nat (length (base64_encode data))).
Proof.
  revert n. induction data as [|a|a b|a b c data IH] using three_ind; intros n; cbn [base64_encode].
  - f_equal. cbn. lia.
  - pose proof (uchr_range a) as Ha. assert (byte 0) as H0 by done.
    destruct (enc_idx _ _ _ Ha H0 H0) as (-> & -> & _). destruct (idx_range _ _ _ Ha H0 H0) as (H1 & H2 & _).
    rewrite !count_char by done. cbn. f_equal. lia.
  - pose proof (uchr_range a) as Ha. pose proof (uchr_range b) as Hb. assert (byte 0) as H0 by done.
    destruct (enc_idx _ _ _ Ha Hb H0) as (-> & -> & _ & _ & ->).
    destruct (idx_range _ _ _ Ha Hb H0) as (H1 & H2 & H3 & _ & H4 & _).
    rewrite !count_char by done. cbn. f_equal. lia.
  - pose proof (uchr_range a) as Ha. pose proof (uchr_range b) as Hb. pose proof (uchr_range c) as Hc.
    destruct (enc_idx _ _ _ Ha Hb Hc) as (-> & -> & -> & -> & _).
    destruct (idx_range _ _ _ Ha Hb Hc) as (H1 & H2 & H3 & H4 & _).
    rewrite !count_char, IH by done. f_equal. cbn [length]. lia.
Qed.

Lemma encode_no_CR data : CR ∉ base64_encode data.
Proof.
  assert (∀ i, 0 <= i < 64 → CR ≠ enc i) as He by (intros i Hi ?; by destruct (enc_spec i Hi) as (_ & _ & ? & _)).
  assert (byte 0) as H0 by done.
  induction data as [|a|a b|a b c data IH] using three_ind; cbn [base64_encode]; [apply not_elem_of_nil|..];
    pose proof (uchr_range a) as Ha; try pose proof (uchr_range b) as Hb; try pose proof (uchr_range c) as Hc.
  - destruct (enc_idx _ _ _ Ha H0 H0) as (-> & -> & _), (idx_range _ _ _ Ha H0 H0) as (H1 & H2 & _).
    rewrite !not_elem_of_cons. split_and!; [by apply He..|done|done|apply not_elem_of_nil].
  - destruct (enc_idx _ _ _ Ha Hb H0) as (-> & -> & _ & _ & ->), (idx_range _ _ _ Ha Hb H0) as (H1 & H2 & H3 & _).
    rewrite !not_elem_of_cons. split_and!; [by apply He..|done|apply not_elem_of_nil].
  - destruct (enc_idx _ _ _ Ha Hb Hc) as (-> & -> & -> & -> & _),
      (idx_range _ _ _ Ha Hb Hc) as (H1 & H2 & H3 & H4 & _).
    rewrite !not_elem_of_cons. split_and!; [by apply He..|done].
Qed.

(** ** Facts: bounds *)
Definition is_break (c : ascii) : bool := Ascii.eqb c CR || Ascii.eqb c LF.
Definition counted (src : cstr) : Z := Z.of_nat (length (List.filter (λ c, negb (is_break c)) src)).

Lemma counted_cons c src : counted (c :: src) = (if is_break c then 0 else 1) + counted src.
Proof. unfold counted. cbn [List.filter]. destruct (is_break c); cbn [negb length]; lia. Qed.

Lemma count_counted src j n m : count_chars src j n = Some m → m = n + counted src.
Proof.
  revert j n. induction src as [|c src IH]; intros j n; cbn [count_chars].
  { intros [= <-]. unfold counted. cbn. lia. }
  rewrite counted_cons. unfold is_break. destruct (Ascii.eqb_spec c CR) as [->|Hc]; cbn [andb orb].
  - destruct (match src with d :: _ => Ascii.eqb d LF | [] => false end); [intros H%IH; lia|].
    cbn. done.
  - destruct (Ascii.eqb_spec c LF) as [->|Hl]; [intros H%IH; lia|].
    destruct (_ && (2 <? _)); [done|]. destruct (_ || _); [done|]. destruct (_ && _); [done|].
    intros H%IH. lia.
Qed.

Lemma decode_length src j n x :
  0 <= n < 4 → 4 * Z.of_nat (length (decode_chars src j n x)) <= 3 * (n + counted src).
Proof.
  revert j n x. induction src as [|c src IH]; intros j n x Hn; cbn [decode_chars]; [unfold counted; cbn; lia|].
  rewrite counted_cons. unfold is_break. destruct (_ || _); [specialize (IH j n x); lia|].
  set (j' := if dec c =? 64 then _ else _). set (y := Z.lor _ _). destruct (Z.eqb_spec (n + 1) 4) as [E|E].
  - rewrite !length_app. specialize (IH j' 0 y). destruct (0 <? j'), (1 <? j'), (2 <? j'); cbn [length]; lia.
  - specialize (IH j' (n + 1) y). lia.
Qed.

Lemma decode_bounds dlen src dst : base64_decode dlen src = DecOk dst → Z.of_nat (length dst) <= dlen.
Proof.
  unfold base64_decode. destruct (count_chars src 0 0) as [n|] eqn:E; [|done]. apply count_counted in E.
  destruct (n =? 0); [done|]. destruct (Z.ltb_spec dlen (Z.shiftr (n * 6 + 7) 3)) as [|Hd]; [done|].
  intros [= <-]. pose proof (decode_length src 3 0 0). rewrite Z.shiftr_div_pow2 in Hd by done.
  change (2 ^ 3) with 8 in Hd. assert (3 * n <= 4 * ((n * 6 + 7) / 8)); [|lia].
  unfold counted in E. clear -E. Z.to_euclidean_division_equations; lia.
Qed.

Lemma encode_length data :
  data ≠ [] → ∃ k, 0 < k ∧ Z.of_nat (length (base64_encode data)) = 4 * k.
Proof.
  induction data as [|a|a b|a b c data IH] using three_ind; intros Hne; [done|by exists 1..|].
  destruct data; [by exists 1|]. destruct IH as (k & Hk & E); [done|]. exists (k + 1).
  cbn [base64_encode length] in *. lia.
Qed.

(** ** Theorems *)

(** Decoding a signature inverts the encoding, wherever the encoded text is
    broken into lines; and the decoder writes no byte behind the buffer that
    alpm_decode_signature allocates for any text, valid or not. *)
Theorem decode_signature_correct :
  (∀ text data, data ≠ [] → no_breaks text = base64_encode data → Z.of_nat (length text) * 3 < 2 ^ 64 →
     alpm_decode_signature text = SigData data) ∧
  (∀ text data, Z.of_nat (length text) * 3 < 2 ^ 64 → alpm_decode_signature text = SigData data →
     Z.of_nat (length data) <= Z.of_nat (length text) * 3 / 4).
Proof.
  split; intros text data.
  - intros Hne He Hlen. unfold alpm_decode_signature, base64_decode, wrap64. rewrite Z.mod_small by lia.
    assert (CR ∉ text) as Hcr.
    { intros Hin. apply (encode_no_CR data). rewrite <-He. unfold no_breaks. by apply elem_of_bfilter. }
    rewrite count_breaks, decode_breaks, He, count_encode, decode_encode by done.
    assert (length (base64_encode data) <= length text)%nat as Hle
      by (rewrite <-He; unfold no_breaks; apply List.filter_length_le).
    destruct (encode_length data Hne) as (k & Hk & E). rewrite E. destruct (Z.eqb_spec (0 + 4 * k) 0); [lia|].
    rewrite (proj2 (Z.ltb_ge _ _)); [done|]. rewrite Z.shiftr_div_pow2 by done. change (2 ^ 3) with 8.
    Z.to_euclidean_division_equations; lia.
  - unfold alpm_decode_signature, wrap64. intros Hlen. rewrite Z.mod_small by lia.
    destruct (base64_decode _ _) as [| |dst] eqn:E; [done..|]. intros [= <-]. by apply decode_bounds in E.
Qed.

Example decode_example :
  alpm_decode_signature (str "aGVs" ++ LF :: str "bG8=") = SigData (str "hello") ∧
  alpm_decode_signature (str "aGVsbG8") = SigError ∧ alpm_decode_signature (str "aG=s") = SigError.
Proof. vm_compute. done. Qed.

(** Text without any character that counts: base64_decode returns 0 and leaves
    the length alone, so that the caller takes memory that was never written for
    the signature. *)
Example decode_only_breaks : alpm_decode_signature [LF; LF; LF; LF] = SigUnset 3.
Proof. reflexivity. Qed.
