(* ===== verification/Signing.v ===== *)
(** * Signatures

    lib/libalpm/signing.c: checking the signatures of a file against the trust
    that is asked for, the decision to import a key, and reading the key ids of a
    signature. GPGME (its key ring, its verification) and the answer of the user
    are parameters. A read outside the signature is an error value of its own;
    positions are size_t values. *)
From S2P Require Import Prelude CString AlpmList Util Package Handle Deps Db Base64.
Local Open Scope Z_scope.

(** ** alpm_extract_keyid *)
Inductive pgp_error :=
  | FormatError              (* return -1 *)
  | OutOfBounds.             (* a read outside the buffer *)

(** Errors, with a bind. *)
Definition pgp (A : Type) : Type := pgp_error + A.
Definition pgp_bind {A B} (m : pgp A) (f : A → pgp B) : pgp B :=
  match m with inl e => inl e | inr a => f a end.
Notation "'let?' x := m 'in' f" := (pgp_bind m (λ x, f)) (at level 200, x pattern, right associativity).

(** sig[pos] *)
Definition get (sig : cstr) (pos : Z) : pgp Z :=
  match sig !! Z.to_nat pos with
  | Some c => if pos <? 0 then inl OutOfBounds else inr (uchr c)
  | None => inl OutOfBounds
  end.

Definition length_check (length position a : Z) : pgp unit :=
  if (a =? 0) || (length <? position) || (length - position <=? a) then inl FormatError else inr tt.

(** Two bytes; four bytes as a size_t: they are put together as an int, whose
    sign is extended. *)
Definition get16 (sig : cstr) (pos : Z) : pgp Z :=
  let? a := get sig pos in let? b := get sig (pos + 1) in
  inr (Z.lor (Z.shiftl a 8) b).

Definition int_to_size (z : Z) : Z := if z <? 2 ^ 31 then z else z - 2 ^ 32 + 2 ^ 64.

Definition get32 (sig : cstr) (pos : Z) : pgp Z :=
  let? a := get sig pos in let? b := get sig (pos + 1) in
  let? c := get sig (pos + 2) in let? d := get sig (pos + 3) in
  inr (int_to_size (Z.lor (Z.lor (Z.shiftl a 24) (Z.shiftl b 16)) (Z.lor (Z.shiftl c 8) d))).

(** ((sig[pos] - 192) << 8) + sig[pos + 1] + 192, with sig[pos] given *)
Definition get_two_octets (sig : cstr) (first pos : Z) : pgp Z :=
  let? b := get sig (pos + 1) in inr (Z.shiftl (first - 192) 8 + b + 192).

(** snprintf "%02X" of eight bytes *)
Definition hex_upper : cstr := str "0123456789ABCDEF".
Definition hex2 (b : Z) : cstr :=
  [nth (Z.to_nat (b / 16)) hex_upper NUL; nth (Z.to_nat (b mod 16)) hex_upper NUL].

Fixpoint key_digits (sig : cstr) (pos : Z) (n : nat) : pgp cstr :=
  match n with
  | O => inr []
  | S n' => let? b := get sig pos in let? rest := key_digits sig (pos + 1) n' in inr (hex2 b ++ rest)
  end.

(** The length of a subpacket and the position behind it. *)
Definition subpacket_length (sig : cstr) (len spos : Z) : pgp (Z * Z) :=
  let? b := get sig spos in
  if b <? 192 then inr (b, spos + 1)
  else if b <? 255 then
    let? _ := length_check len spos 2 in
    let? slen := get_two_octets sig b spos in inr (slen, spos + 2)
  else
    let? _ := length_check len spos 5 in
    let? slen := get32 sig (spos + 1) in inr (slen, spos + 5).

(** The key id it finds, if any; [None]: the fuel is used up. [stop] is
    pos + plen. *)
Fixpoint parse_subpacket (fuel : nat) (sig : cstr) (len spos stop : Z) : option (pgp (option cstr)) :=
  if stop <=? spos then Some (inr None)
  else
    match fuel with
    | O => None
    | S fuel' =>
        match
          let? (slen, spos) := subpacket_length sig len spos in
          let? tag := get sig spos in
          if tag =? 16 then
            let? _ := length_check len spos 8 in
            let? key := key_digits sig (spos + 1) 8 in inr (inl key)
          else
            let? _ := length_check len spos slen in inr (inr (spos + slen))
        with
        | inl e => Some (inl e)
        | inr (inl key) => Some (inr (Some key))
        | inr (inr spos) => parse_subpacket fuel' sig len spos stop
        end
    end.

(** The length of the body and the position behind the header. *)
Definition body_length (sig : cstr) (len pos : Z) : pgp (Z * Z) :=
  let? tag := get sig pos in
  if Z.land tag 128 =? 0 then inl FormatError
  else if negb (Z.land tag 64 =? 0) then
    let? _ := length_check len pos 1 in
    let pos := pos + 1 in
    let? b := get sig pos in
    if b <? 192 then let? _ := length_check len pos 1 in inr (b, pos + 1)
    else if b <? 224 then
      let? _ := length_check len pos 2 in
      let? blen := get_two_octets sig b pos in inr (blen, pos + 2)
    else if b =? 255 then
      let? _ := length_check len pos 5 in
      let? blen := get32 sig (pos + 1) in inr (blen, pos + 5)
    else inl FormatError
  else
    let kind := Z.land tag 3 in
    if kind =? 0 then
      let? _ := length_check len pos 2 in
      let? blen := get sig (pos + 1) in inr (blen, pos + 2)
    else if kind =? 1 then
      let? _ := length_check len pos 3 in
      let? blen := get16 sig (pos + 1) in inr (blen, pos + 3)
    else if kind =? 2 then
      let? _ := length_check len pos 5 in
      let? blen := get32 sig (pos + 1) in inr (blen, pos + 5)
    else inl FormatError.

Definition subpackets (sig : cstr) (len pos plen : Z) : option (pgp (option cstr)) :=
  parse_subpacket (Z.to_nat plen) sig len pos (pos + plen).

Definition add_key (key : option cstr) (keys : list cstr) : list cstr :=
  match key with Some k => keys ++ [k] | None => keys end.

(** The checks of the version and type, and the length of the hashed part. *)
Definition signature_header (sig : cstr) (len pos : Z) : pgp (Z * Z) :=
  let? _ := length_check len pos 2 in
  let? version := get sig pos in
  if negb (version =? 4) then inl FormatError
  else
    let? type := get sig (pos + 1) in
    if negb (type =? 0) then inl FormatError
    else
      let pos := pos + 4 in
      let? _ := length_check len pos 2 in
      let? hlen := get16 sig pos in
      let? _ := length_check len pos (hlen + 2) in
      inr (hlen, pos + 2).

Definition unhashed_header (sig : cstr) (len pos : Z) : pgp (Z * Z) :=
  let? ulen := get16 sig pos in
  let? _ := length_check len pos (ulen + 2) in
  inr (ulen, pos + 2).

(** One round of the loop: the keys, and the next position. *)
Definition read_packet (sig : cstr) (len pos : Z) (keys : list cstr) : option (list cstr * pgp Z) :=
  match let? (blen, pos) := body_length sig len pos in
        let? (hlen, pos) := signature_header sig len pos in inr (blen, hlen, pos)
  with
  | inl e => Some (keys, inl e)
  | inr (blen, hlen, pos) =>
      hashed ← subpackets sig len pos hlen;
      match hashed with
      | inl e => Some (keys, inl e)
      | inr key =>
          let keys := add_key key keys in
          let pos := pos + hlen in
          match unhashed_header sig len pos with
          | inl e => Some (keys, inl e)
          | inr (ulen, pos) =>
              unhashed ← subpackets sig len pos ulen;
              match unhashed with
              | inl e => Some (keys, inl e)
              | inr key => Some (add_key key keys, inr (wrap64 (pos + (blen - hlen - 8))))
              end
          end
      end
  end.

Fixpoint extract_packets (fuel : nat) (sig : cstr) (len pos : Z) (keys : list cstr)
    : option (list cstr * pgp unit) :=
  if len <=? pos then Some (keys, inr tt)
  else
    match fuel with
    | O => None
    | S fuel' =>
        '(keys, r) ← read_packet sig len pos keys;
        match r with
        | inl e => Some (keys, inl e)
        | inr pos => extract_packets fuel' sig len pos keys
        end
    end.

(** [sig] is the buffer, [len] the length that is passed. *)
Definition alpm_extract_keyid (fuel : nat) (sig : cstr) (len : Z) (keys : list cstr) :=
  extract_packets fuel sig len 0 keys.

(** ** Facts: reads stay in the buffer *)

(** No read outside the buffer, and the result satisfies [Q]. *)
Definition safe {A} (m : pgp A) (Q : A → Prop) : Prop :=
  match m with inr a => Q a | inl FormatError => True | inl OutOfBounds => False end.

Lemma safe_bind {A B} (m : pgp A) (f : A → pgp B) Q R :
  safe m Q → (∀ a, Q a → safe (f a) R) → safe (pgp_bind m f) R.
Proof. destruct m as [[]|a]; cbn; auto. Qed.

Lemma safe_mono {A} (m : pgp A) (Q R : A → Prop) : safe m Q → (∀ a, Q a → R a) → safe m R.
Proof. destruct m as [[]|a]; cbn; auto. Qed.

Lemma get_safe sig pos : 0 <= pos < Z.of_nat (length sig) → safe (get sig pos) (λ v, 0 <= v < 256).
Proof.
  intros H. unfold get. destruct (lookup_lt_is_Some_2 sig (Z.to_nat pos)) as [c ->]; [lia|].
  rewrite (proj2 (Z.ltb_ge _ _)) by lia. apply uchr_range.
Qed.

Lemma length_check_safe len pos a : safe (length_check len pos a) (λ _, a ≠ 0 ∧ pos <= len ∧ a < len - pos).
Proof.
  unfold length_check. destruct (Z.eqb_spec a 0); [done|]. destruct (Z.ltb_spec len pos); [done|].
  destruct (Z.leb_spec (len - pos) a); [done|]. done.
Qed.

(** Steps through a chain of checks and reads. *)
Ltac safe_step :=
  match goal with
  | |- safe (let? _ := length_check _ _ _ in _) _ =>
      apply (safe_bind _ _ _ _ (length_check_safe _ _ _)); intros _ (? & ? & ?); cbv beta in *
  | |- safe (let? _ := get _ _ in _) _ =>
      eapply safe_bind; [apply get_safe; lia|]; intros ? ?; cbv beta in *
  | |- safe (if ?b then _ else _) _ => destruct b eqn:?
  | |- safe (inl FormatError) _ => exact I
  | |- safe (inr _) _ => cbn
  end.

Lemma lor_range a b n : 0 <= n → 0 <= a < 2 ^ n → 0 <= b < 2 ^ n → 0 <= Z.lor a b < 2 ^ n.
Proof.
  intros Hn Ha Hb. split; [apply Z.lor_nonneg; lia|].
  destruct (Z.eq_dec (Z.lor a b) 0) as [->|]; [lia|]. apply Z.log2_lt_pow2; [pose proof (Z.lor_nonneg a b); lia|].
  rewrite Z.log2_lor by lia. destruct (Z.eq_dec n 0) as [->|]; [change (2 ^ 0) with 1 in *|].
  - replace a with 0 in * by lia. replace b with 0 in * by lia. done.
  - assert (∀ x, 0 <= x < 2 ^ n → Z.log2 x < n) as Hl.
    { intros x Hx. destruct (Z.eq_dec x 0) as [->|]; [cbn; lia|]. apply Z.log2_lt_pow2; lia. }
    apply Z.max_lub_lt; by apply Hl.
Qed.

Lemma shiftl_range a n k : 0 <= n → 0 <= k → 0 <= a < 2 ^ n → 0 <= Z.shiftl a k < 2 ^ (n + k).
Proof. intros. rewrite Z.shiftl_mul_pow2, Z.pow_add_r by lia. nia. Qed.

Lemma get16_safe sig pos :
  0 <= pos → pos + 1 < Z.of_nat (length sig) → safe (get16 sig pos) (λ v, 0 <= v < 65536).
Proof.
  intros. unfold get16. repeat safe_step. change 65536 with (2 ^ 16).
  apply lor_range; [lia|apply (shiftl_range _ 8 8); lia|lia].
Qed.

Lemma get32_safe sig pos :
  0 <= pos → pos + 3 < Z.of_nat (length sig) → safe (get32 sig pos) (λ v, 0 <= v < 2 ^ 64).
Proof.
  intros. unfold get32. repeat safe_step. unfold int_to_size.
  assert (0 <= Z.lor (Z.lor (Z.shiftl a 24) (Z.shiftl a0 16)) (Z.lor (Z.shiftl a1 8) a2) < 2 ^ 32).
  { apply lor_range; [lia|apply lor_range; [lia|apply (shiftl_range _ 8 24); lia|]|apply lor_range; [lia| |lia]].
    - pose proof (shiftl_range a0 8 16). lia.
    - pose proof (shiftl_range a1 8 8). lia. }
  case_if; lia.
Qed.

Section bounds.
Context (sig : cstr) (len : Z) (Hlen : 0 <= len <= Z.of_nat (length sig)).

Lemma two_octets_safe first pos :
  192 <= first < 256 → 0 <= pos → pos + 1 < Z.of_nat (length sig) →
  safe (get_two_octets sig first pos) (λ v, 0 <= v < 2 ^ 16).
Proof.
  intros. unfold get_two_octets. repeat safe_step. rewrite Z.shiftl_mul_pow2 by lia. lia.
Qed.

Lemma subpacket_length_safe spos :
  0 <= spos < len → spos + 1 < len →
  safe (subpacket_length sig len spos) (λ '(slen, spos'), 0 <= slen ∧ spos < spos' < len).
Proof.
  intros H1 H2. unfold subpacket_length. safe_step. safe_step; [safe_step; lia|]. safe_step; safe_step.
  - eapply safe_bind; [apply two_octets_safe; lia|]. intros slen Hs. cbn in *. lia.
  - eapply safe_bind; [apply get32_safe; lia|]. intros slen Hs. cbn in *. lia.
Qed.

Lemma key_digits_safe pos n :
  0 <= pos → pos + Z.of_nat n <= Z.of_nat (length sig) → safe (key_digits sig pos n) (λ _, True).
Proof.
  revert pos. induction n as [|n IH]; intros pos H1 H2; cbn [key_digits]; [done|]. safe_step.
  eapply safe_bind; [apply IH; lia|]. done.
Qed.

(** Reading subpackets ends, and stays in the buffer. *)
Lemma parse_subpacket_safe fuel spos stop :
  0 <= spos → stop < len → stop - spos <= Z.of_nat fuel →
  ∃ r, parse_subpacket fuel sig len spos stop = Some r ∧ safe r (λ _, True).
Proof.
  revert spos. induction fuel as [|fuel IH]; intros spos H1 H2 H3; cbn [parse_subpacket].
  { rewrite (proj2 (Z.leb_le _ _)) by lia. by eexists. }
  destruct (Z.leb_spec stop spos); [by eexists|].
  assert (safe (let? (slen, spos) := subpacket_length sig len spos in
                let? tag := get sig spos in
                if tag =? 16 then let? _ := length_check len spos 8 in
                                  let? key := key_digits sig (spos + 1) 8 in inr (inl key)
                else let? _ := length_check len spos slen in inr (inr (spos + slen)))
    (λ r : cstr + Z, match r with inl _ => True | inr spos' => spos < spos' end)) as Hs.
  { eapply safe_bind; [apply subpacket_length_safe; lia|]. intros [slen spos1] [? ?]. repeat safe_step.
    - eapply safe_bind; [apply key_digits_safe; lia|]. done.
    - lia. }
  destruct (pgp_bind _ _) as [e|[key|spos']]; cbn in Hs; [by eexists..|]. apply IH; lia.
Qed.

Lemma body_length_safe pos :
  0 <= pos < len → safe (body_length sig len pos) (λ '(blen, pos'), 0 <= blen < 2 ^ 64 ∧ pos < pos' < len).
Proof.
  intros H. unfold body_length. safe_step. safe_step; [done|]. safe_step.
  - safe_step. safe_step. safe_step; [safe_step; safe_step; lia|]. safe_step; [safe_step|safe_step; [safe_step|done]].
    + eapply safe_bind; [apply two_octets_safe; lia|]. intros blen Hb. cbn in *. lia.
    + eapply safe_bind; [apply get32_safe; lia|]. intros blen Hb. cbn in *. lia.
  - safe_step; [repeat safe_step; lia|]. safe_step; [safe_step|safe_step; [safe_step|done]].
    + eapply safe_bind; [apply get16_safe; lia|]. intros blen Hb. cbn in *. lia.
    + eapply safe_bind; [apply get32_safe; lia|]. intros blen Hb. cbn in *. lia.
Qed.

Lemma signature_header_safe pos :
  0 <= pos → safe (signature_header sig len pos)
    (λ '(hlen, pos'), 0 <= hlen ∧ pos' = pos + 6 ∧ pos' + hlen < len).
Proof.
  intros H. unfold signature_header. do 3 safe_step; [done|]. do 2 safe_step; [done|]. safe_step.
  eapply safe_bind; [apply get16_safe; lia|]. intros hlen Hh. cbn in *. repeat safe_step. lia.
Qed.

Lemma unhashed_header_safe pos :
  len < Z.of_nat (length sig) → 0 <= pos < len →
  safe (unhashed_header sig len pos) (λ '(ulen, pos'), 0 <= ulen ∧ pos' = pos + 2 ∧ pos' + ulen < len).
Proof.
  intros Hb H. unfold unhashed_header. eapply safe_bind; [apply get16_safe; lia|]. intros ulen Hu. cbn in *.
  repeat safe_step. lia.
Qed.

Lemma subpackets_safe pos plen :
  0 <= pos → 0 <= plen → pos + plen < len →
  ∃ r, subpackets sig len pos plen = Some r ∧ safe r (λ _, True).
Proof. intros. apply parse_subpacket_safe; lia. Qed.

(** One packet: the next position is behind the header by the length of the
    body, as a size_t. *)
Lemma read_packet_safe pos keys :
  len < Z.of_nat (length sig) → 0 <= pos < len →
  ∃ keys' r, read_packet sig len pos keys = Some (keys', r) ∧
    safe r (λ next, ∃ blen pos', body_length sig len pos = inr (blen, pos') ∧ pos < pos' ∧ 0 <= blen ∧
                                 next = wrap64 (pos' + blen)).
Proof.
  intros Hb Hp. unfold read_packet. pose proof (body_length_safe pos Hp) as Hs.
  destruct (body_length sig len pos) as [e|[blen pos1]] eqn:Eb; [by exists keys, (inl e); destruct e|].
  cbn [pgp_bind]. cbn in Hs. destruct Hs as [Hbl Hp1].
  pose proof (signature_header_safe pos1 ltac:(lia)) as Hs.
  destruct (signature_header sig len pos1) as [e|[hlen pos2]]; [by exists keys, (inl e); destruct e|].
  cbn [pgp_bind]. cbn in Hs. destruct Hs as (Hh & -> & Hh2).
  destruct (subpackets_safe (pos1 + 6) hlen ltac:(lia) Hh Hh2) as ([e|key] & -> & Hk);
    [by exists keys, (inl e); destruct e|]. cbn [mbind option_bind].
  pose proof (unhashed_header_safe (pos1 + 6 + hlen) Hb ltac:(lia)) as Hs.
  destruct (unhashed_header _ _ _) as [e|[ulen pos3]]; [by eexists _, (inl e); destruct e|].
  cbn in Hs. destruct Hs as (Hu & -> & Hu2).
  destruct (subpackets_safe (pos1 + 6 + hlen + 2) ulen ltac:(lia) Hu Hu2) as ([e|key2] & -> & Hk2);
    [by eexists _, (inl e); destruct e|]. eexists _, (inr _). split; [done|]. cbn.
  exists blen, pos1. split_and!; [done|lia|lia|]. f_equal. lia.
Qed.
End bounds.

Lemma extract_packets_safe fuel sig len pos keys keys' r :
  0 <= len < Z.of_nat (length sig) → 0 <= pos →
  extract_packets fuel sig len pos keys = Some (keys', r) → r ≠ inl OutOfBounds.
Proof.
  intros Hl. revert pos keys. induction fuel as [|fuel IH]; intros pos keys Hp; cbn [extract_packets];
    (destruct (Z.leb_spec len pos); [by intros [= <- <-]|]); [done|].
  destruct (read_packet_safe sig len ltac:(lia) pos keys ltac:(lia) ltac:(lia)) as (k & m & -> & Hs).
  cbn [mbind option_bind]. destruct m as [e|next]; [intros [= <- <-]; by destruct e|].
  destruct Hs as (blen & pos' & _ & _ & _ & ->). apply IH. unfold wrap64. by apply Z.mod_pos_bound.
Qed.

Lemma extract_packets_total fuel sig len pos keys :
  0 <= len < Z.of_nat (length sig) → len < 2 ^ 62 → 0 <= pos → len - pos <= Z.of_nat fuel →
  (∀ pos blen pos', body_length sig len pos = inr (blen, pos') → blen < 2 ^ 31) →
  is_Some (extract_packets fuel sig len pos keys).
Proof.
  intros Hl H62 Hp Hf Hb. revert pos keys Hp Hf. induction fuel as [|fuel IH]; intros pos keys Hp Hf;
    cbn [extract_packets]; (destruct (Z.leb_spec len pos); [by eexists|]); [lia|].
  destruct (read_packet_safe sig len ltac:(lia) pos keys ltac:(lia) ltac:(lia)) as (k & m & -> & Hs).
  cbn [mbind option_bind]. destruct m as [e|next]; [by eexists|].
  destruct Hs as (blen & pos' & He & Hpos & Hbl & ->).
  pose proof (body_length_safe sig len ltac:(lia) pos ltac:(lia)) as Hs. rewrite He in Hs. cbn in Hs.
  apply Hb in He. unfold wrap64. rewrite Z.mod_small by lia. apply IH; lia.
Qed.

(** ** Theorems: key ids *)

(** C37. Reading the key ids of a signature of [len] bytes: no byte behind the one
    after its end is read, whatever the bytes are; and the reading ends within
    [len] packets unless a four-byte length has its highest bit set. *)
Theorem extract_keyid_safe (sig : cstr) (len : Z) (keys : list cstr) :
  0 <= len < Z.of_nat (length sig) → len < 2 ^ 62 →
  (∀ fuel keys' r, alpm_extract_keyid fuel sig len keys = Some (keys', r) → r ≠ inl OutOfBounds) ∧
  ((∀ pos blen pos', body_length sig len pos = inr (blen, pos') → blen < 2 ^ 31) →
   is_Some (alpm_extract_keyid (Z.to_nat len) sig len keys)).
Proof.
  intros Hl H62. split.
  - intros fuel keys' r. by apply extract_packets_safe.
  - intros Hb. apply extract_packets_total; [done|done|done|lia|done].
Qed.

Definition bytes (l : list Z) : cstr := map to_byte l.

Definition ex_key : cstr := str "0102030405060708".
Definition ex_sig : cstr :=
  bytes [137; 0; 20; 4; 0; 1; 8; 0; 0; 0; 10; 9; 16; 1; 2; 3; 4; 5; 6; 7; 8; 171; 205].
Definition ex_len : Z := Z.of_nat (length ex_sig).

Lemma extract_keyid_safe_witness :
  alpm_extract_keyid 23 ex_sig ex_len [] = Some ([ex_key], inr tt) ∧
  alpm_extract_keyid 23 (ex_sig ++ [NUL]) ex_len [] = Some ([ex_key], inr tt) ∧
  @inr pgp_error unit tt ≠ inl OutOfBounds.
Proof.
  split; [vm_compute; reflexivity|].
  assert (alpm_extract_keyid 23 (ex_sig ++ [NUL]) ex_len [] = Some ([ex_key], inr tt)) as H
    by (vm_compute; reflexivity).
  split; [exact H|].
  refine (proj1 (extract_keyid_safe (ex_sig ++ [NUL]) ex_len [] _ _) 23%nat [ex_key] (inr tt) H);
    vm_compute; split; congruence.
Defined.

(** The first of the two bytes of the unhashed length may be the last one of the
    signature: the second one is read before any check. *)
Example unhashed_length_over_read :
  let sig := bytes [137; 0; 20; 4; 0; 1; 8; 0; 0; 0] in
  alpm_extract_keyid 10 sig (Z.of_nat (length sig)) [] = Some ([], inl OutOfBounds).
Proof. vm_compute. reflexivity. Qed.

Definition endless_sig : cstr :=
  bytes [138; 255; 255; 255; 251; 4; 0; 1; 8; 0; 0; 0; 10; 9; 16; 1; 2; 3; 4; 5; 6; 7; 8; 171; 205].

Lemma endless_step keys :
  read_packet endless_sig 25 0 keys = Some (keys ++ [ex_key], inr 0).
Proof. reflexivity. Qed.

(** C38. A length of four bytes whose highest bit is set becomes a huge size_t: the
    position wraps around to the beginning of the packet, and the loop collects
    the same key for ever. *)
Theorem extract_keyid_endless (fuel : nat) (keys : list cstr) :
  alpm_extract_keyid fuel endless_sig (Z.of_nat (length endless_sig)) keys = None.
Proof.
  unfold alpm_extract_keyid. change (Z.of_nat (length endless_sig)) with 25.
  revert keys. induction fuel as [|fuel IH]; intros keys; [done|]. cbn [extract_packets].
  change (25 <=? 0) with false. rewrite endless_step. apply IH.
Qed.

(** ** Facts: well-formed signatures *)

(** What a buffer has from a position on. *)
Definition cursor (sig : cstr) (pos : Z) (s : cstr) : Prop := 0 <= pos ∧ drop (Z.to_nat pos) sig = s.

Lemma cursor_get sig pos c s : cursor sig pos (c :: s) → get sig pos = inr (uchr c) ∧ cursor sig (pos + 1) s.
Proof.
  intros [Hp Hd]. unfold get. assert (sig !! Z.to_nat pos = Some c) as ->.
  { rewrite <-(Nat.add_0_r (Z.to_nat pos)), <-lookup_drop, Hd. done. }
  rewrite (proj2 (Z.ltb_ge _ _)) by lia. split; [done|]. split; [lia|].
  replace (Z.to_nat (pos + 1)) with (Z.to_nat pos + 1)%nat by lia. by rewrite <-drop_drop, Hd.
Qed.

Lemma cursor_app sig pos x s : cursor sig pos (x ++ s) → cursor sig (pos + Z.of_nat (length x)) s.
Proof.
  intros [Hp Hd]. split; [lia|]. rewrite Z2Nat.inj_add, Nat2Z.id by lia.
  by rewrite <-drop_drop, Hd, drop_app_length.
Qed.

Lemma cursor_length sig pos s : cursor sig pos s → s ≠ [] → Z.of_nat (length sig) - pos = Z.of_nat (length s).
Proof.
  intros [Hp <-] Hne. rewrite length_drop. destruct (decide (Z.to_nat pos < length sig)%nat); [lia|].
  by rewrite drop_ge in Hne by lia.
Qed.

Lemma cursor_check sig pos s a :
  cursor sig pos s → 0 < a < Z.of_nat (length s) → length_check (Z.of_nat (length sig)) pos a = inr tt.
Proof.
  intros Hc Ha. pose proof (cursor_length _ _ _ Hc) as Hl. destruct s as [|c s]; [cbn in Ha; lia|].
  specialize (Hl ltac:(done)). unfold length_check. destruct (Z.eqb_spec a 0); [lia|].
  destruct (Z.ltb_spec (Z.of_nat (length sig)) pos); [lia|].
  destruct (Z.leb_spec (Z.of_nat (length sig) - pos) a); [lia|]. done.
Qed.

Lemma lor_shift x y k : 0 <= k → 0 <= y < 2 ^ k → Z.lor (Z.shiftl x k) y = x * 2 ^ k + y.
Proof.
  intros Hk Hy. rewrite <-Z.shiftl_mul_pow2 by done.
  assert (Z.land (Z.shiftl x k) y = 0) as H; [|pose proof (Z.add_lor_land (Z.shiftl x k) y); lia].
  apply Z.bits_inj'. intros n Hn. rewrite Z.land_spec, Z.bits_0. destruct (Z.ltb_spec n k).
  - by rewrite Z.shiftl_spec_low.
  - rewrite <-(Z.mod_small y (2 ^ k)) by done. rewrite Z.mod_pow2_bits_high by lia. apply andb_false_r.
Qed.

(** A number as two bytes. *)
Definition be16 (n : Z) : cstr := [to_byte (n / 256); to_byte n].

Lemma uchr_to_byte z : uchr (to_byte z) = z mod 256.
Proof.
  unfold uchr, to_byte. pose proof (Z.mod_pos_bound z 256 ltac:(lia)).
  rewrite N_ascii_embedding by lia. lia.
Qed.

Lemma cursor_get16 sig pos n s :
  0 <= n < 65536 → cursor sig pos (be16 n ++ s) → get16 sig pos = inr n ∧ cursor sig (pos + 2) s.
Proof.
  intros Hn Hc. unfold get16, be16 in *. cbn [app] in Hc. apply cursor_get in Hc as [-> Hc].
  apply cursor_get in Hc as [E Hc]. cbn [pgp_bind]. rewrite E. cbn [pgp_bind]. rewrite !uchr_to_byte.
  replace (pos + 1 + 1) with (pos + 2) in Hc by lia. split; [|done]. f_equal.
  rewrite (Z.mod_small (n / 256)) by (Z.to_euclidean_division_equations; lia).
  rewrite lor_shift by (apply Z.mod_pos_bound || lia; lia). Z.to_euclidean_division_equations; lia.
Qed.

(** A subpacket with a one-byte length, and a version 4 signature of a binary
    document: subpackets that are hashed, then the issuer, then the rest. *)
Definition subpacket (tag : ascii) (data : cstr) : cstr :=
  to_byte (1 + Z.of_nat (length data)) :: tag :: data.

Definition wf_subpacket (p : ascii * cstr) : Prop := uchr p.1 ≠ 16 ∧ 1 + Z.of_nat (length p.2) < 192.

Definition hashed_area (l : list (ascii * cstr)) : cstr := flat_map (λ p, subpacket p.1 p.2) l.

Record signature := mk_signature {
  s_algorithms : ascii * ascii;
  s_hashed : list (ascii * cstr);
  s_issuer : cstr;
  s_rest : cstr                  (* the digest bytes and the signature itself *)
}.

Definition signature_body (s : signature) : cstr :=
  [to_byte 4; to_byte 0; (s_algorithms s).1; (s_algorithms s).2]
  ++ be16 (Z.of_nat (length (hashed_area (s_hashed s)))) ++ hashed_area (s_hashed s)
  ++ be16 10 ++ subpacket (to_byte 16) (s_issuer s) ++ s_rest s.

Definition signature_packet (s : signature) : cstr :=
  to_byte 137 :: be16 (Z.of_nat (length (signature_body s))) ++ signature_body s.

Definition wf_signature (s : signature) : Prop :=
  Forall wf_subpacket (s_hashed s) ∧ length (s_issuer s) = 8%nat ∧ s_rest s ≠ [] ∧
  Z.of_nat (length (signature_body s)) < 65536.

Definition key_id (issuer : cstr) : cstr := flat_map (λ c, hex2 (uchr c)) issuer.

Section wellformed.
Context (sig : cstr).
Notation len := (Z.of_nat (length sig)).

Lemma cursor_subpacket_length pos n s :
  0 <= n < 192 → cursor sig pos (to_byte n :: s) → subpacket_length sig len pos = inr (n, pos + 1).
Proof.
  intros Hn H. apply cursor_get in H as [Hg _]. unfold subpacket_length. rewrite Hg. cbn [pgp_bind].
  rewrite uchr_to_byte, Z.mod_small by lia. by rewrite (proj2 (Z.ltb_lt _ _)) by lia.
Qed.

Lemma parse_hashed fuel l pos rest :
  Forall wf_subpacket l → rest ≠ [] → cursor sig pos (hashed_area l ++ rest) →
  (length (hashed_area l) <= fuel)%nat →
  parse_subpacket fuel sig len pos (pos + Z.of_nat (length (hashed_area l))) = Some (inr None).
Proof.
  intros Hl Hne. revert fuel pos. induction Hl as [|[tag data] l [Ht Hd] Hl IH]; intros fuel pos Hc Hf.
  { destruct fuel; cbn [parse_subpacket hashed_area flat_map length]; by rewrite (proj2 (Z.leb_le _ _)) by lia. }
  change (hashed_area ((tag, data) :: l)) with (subpacket tag data ++ hashed_area l) in *.
  unfold subpacket in Hc. cbn [app] in Hc. cbn [fst snd] in *.
  destruct fuel as [|fuel]; [cbn in Hf; lia|]. cbn [parse_subpacket].
  rewrite (proj2 (Z.leb_gt _ _)) by (cbn; lia).
  rewrite (cursor_subpacket_length pos (1 + Z.of_nat (length data)) _ ltac:(lia) Hc).
  apply cursor_get in Hc as [_ Hc]. cbn [pgp_bind].
  pose proof Hc as [Hg Hc2]%cursor_get. rewrite Hg. cbn [pgp_bind].
  destruct (Z.eqb_spec (uchr tag) 16); [lia|].
  rewrite (cursor_check _ _ _ _ Hc) by (cbn [length]; rewrite !length_app; destruct rest; [done|cbn; lia]).
  cbn [pgp_bind]. rewrite <-app_assoc in Hc2. apply cursor_app in Hc2.
  replace (pos + 1 + (1 + Z.of_nat (length data))) with (pos + 1 + 1 + Z.of_nat (length data)) by lia.
  rewrite length_app in Hf |- *. cbn [subpacket length] in Hf |- *.
  rewrite <-(IH fuel _ Hc2) by lia. f_equal. lia.
Qed.

Lemma cursor_key_digits pos key s n :
  n = length key → cursor sig pos (key ++ s) → key_digits sig pos n = inr (key_id key).
Proof.
  intros ->. revert pos. induction key as [|c key IH]; intros pos Hc; [done|]. cbn [length key_digits].
  apply cursor_get in Hc as [-> Hc]. cbn [pgp_bind]. by rewrite (IH _ Hc).
Qed.

Lemma parse_issuer fuel pos issuer rest stop :
  length issuer = 8%nat → rest ≠ [] → cursor sig pos (subpacket (to_byte 16) issuer ++ rest) → pos < stop →
  (0 < fuel)%nat → parse_subpacket fuel sig len pos stop = Some (inr (Some (key_id issuer))).
Proof.
  intros Hi Hne Hc Hs Hf. unfold subpacket in Hc. cbn [app] in Hc. destruct fuel as [|fuel]; [lia|].
  cbn [parse_subpacket]. rewrite (proj2 (Z.leb_gt _ _)) by lia.
  rewrite Hi in Hc. rewrite (cursor_subpacket_length pos (1 + Z.of_nat 8) _ ltac:(lia) Hc).
  apply cursor_get in Hc as [_ Hc]. cbn [pgp_bind].
  pose proof Hc as [Hg Hc2]%cursor_get. rewrite Hg. cbn [pgp_bind]. change (uchr (to_byte 16)) with 16.
  rewrite (cursor_check _ _ _ _ Hc) by (cbn [length]; rewrite length_app; destruct rest; [done|cbn; lia]).
  cbn [pgp_bind Z.eqb Pos.eqb]. by rewrite (cursor_key_digits _ _ _ _ (eq_sym Hi) Hc2).
Qed.

Lemma cursor_body_length pos n s :
  0 <= n < 65536 → s ≠ [] → cursor sig pos (to_byte 137 :: be16 n ++ s) →
  body_length sig len pos = inr (n, pos + 3) ∧ cursor sig (pos + 3) s.
Proof.
  intros Hn Hne Hc. unfold body_length. pose proof Hc as [Hg Hc1]%cursor_get. rewrite Hg. cbn [pgp_bind].
  change (uchr (to_byte 137)) with 137.
  change (Z.land 137 128) with 128. change (Z.land 137 64) with 0. change (Z.land 137 3) with 1.
  cbn [Z.eqb negb Pos.eqb].
  rewrite (cursor_check _ _ _ _ Hc) by (destruct s; [done|cbn; lia]). cbn [pgp_bind].
  apply cursor_get16 in Hc1 as [-> Hc1]; [|done]. split; [done|]. by replace (pos + 3) with (pos + 1 + 2) by lia.
Qed.

Lemma cursor_signature_header pos a b area s :
  Z.of_nat (length area) < 65536 → s ≠ [] →
  cursor sig pos ([to_byte 4; to_byte 0; a; b] ++ be16 (Z.of_nat (length area)) ++ area ++ s) →
  signature_header sig len pos = inr (Z.of_nat (length area), pos + 6) ∧ cursor sig (pos + 6) (area ++ s).
Proof.
  intros Hn Hne Hc. unfold signature_header.
  rewrite (cursor_check _ _ _ _ Hc) by (cbn; lia). cbn [pgp_bind].
  pose proof Hc as [-> [-> _]%cursor_get]%cursor_get.
  change (uchr (to_byte 4)) with 4. change (uchr (to_byte 0)) with 0. cbn [pgp_bind negb Z.eqb Pos.eqb].
  apply (cursor_app _ _ [to_byte 4; to_byte 0; a; b]) in Hc. change (Z.of_nat (length [_; _; _; _])) with 4 in Hc.
  assert (0 < length s)%nat as Hs by (destruct s; [done|cbn; lia]).
  rewrite (cursor_check _ _ _ _ Hc) by (cbn [be16 app length]; rewrite length_app; lia). cbn [pgp_bind].
  pose proof Hc as [-> Hc2]%cursor_get16; [|lia]. cbn [pgp_bind].
  rewrite (cursor_check _ _ _ _ Hc) by (cbn [be16 app length]; rewrite length_app; lia). cbn [pgp_bind].
  replace (pos + 6) with (pos + 4 + 2) by lia. done.
Qed.

Lemma cursor_unhashed_header pos area s :
  Z.of_nat (length area) < 65536 → s ≠ [] → cursor sig pos (be16 (Z.of_nat (length area)) ++ area ++ s) →
  unhashed_header sig len pos = inr (Z.of_nat (length area), pos + 2) ∧ cursor sig (pos + 2) (area ++ s).
Proof.
  intros Hn Hne Hc. unfold unhashed_header. assert (0 < length s)%nat as Hs by (destruct s; [done|cbn; lia]).
  pose proof Hc as [-> Hc2]%cursor_get16; [|lia]. cbn [pgp_bind].
  rewrite (cursor_check _ _ _ _ Hc) by (cbn [be16 app length]; rewrite length_app; lia). done.
Qed.

Lemma read_wf_packet s pos rest keys :
  wf_signature s → cursor sig pos (signature_packet s ++ rest) → len < 2 ^ 62 →
  read_packet sig len pos keys =
  Some (keys ++ [key_id (s_issuer s)], inr (pos + Z.of_nat (length (signature_packet s)))).
Proof.
  intros (Hh & Hi & Hr & Hb) Hc H62. pose proof (cursor_length _ _ _ Hc ltac:(done)) as Hlen.
  pose proof (proj1 Hc) as Hpos. rewrite length_app in Hlen. unfold read_packet.
  unfold signature_packet in Hc, Hlen |- *. cbn [app length] in Hc, Hlen |- *. rewrite <-app_assoc in Hc.
  apply cursor_body_length in Hc as [-> Hc]; [|lia|done]. cbn [pgp_bind].
  set (blen := Z.of_nat (length (signature_body s))) in *.
  assert (blen = 4 + 2 + Z.of_nat (length (hashed_area (s_hashed s))) + 12 + Z.of_nat (length (s_rest s))) as Hbl.
  { unfold blen, signature_body. cbn [app length be16 subpacket]. rewrite length_app. cbn [length].
    rewrite length_app. lia. }
  unfold signature_body in Hc. rewrite <-!app_assoc in Hc.
  apply cursor_signature_header in Hc as [-> Hc]; [|lia|done]. cbn [pgp_bind]. unfold subpackets.
  rewrite (parse_hashed _ _ _ (be16 10 ++ subpacket (to_byte 16) (s_issuer s) ++ s_rest s ++ rest) Hh
    ltac:(done) Hc) by lia. cbn [mbind option_bind add_key].
  apply cursor_app in Hc.
  change (be16 10) with (be16 (Z.of_nat 10)) in Hc. rewrite <-(f_equal (λ n, S (S n)) Hi) in Hc.
  apply (cursor_unhashed_header _ (subpacket (to_byte 16) (s_issuer s))) in Hc as [-> Hc].
  2: { cbn [subpacket length]. rewrite Hi. lia. }
  2: { by destruct (s_rest s). }
  cbn [subpacket length] in *.
  rewrite (parse_issuer _ _ _ (s_rest s ++ rest) _ Hi ltac:(by destruct (s_rest s)) Hc) by lia. cbn [mbind option_bind add_key].
  rewrite !length_app in *. cbn [be16 length] in *. unfold wrap64. do 3 f_equal. rewrite Z.mod_small; lia.
Qed.
End wellformed.

Lemma extract_wf_packets sig l fuel pos keys :
  Forall wf_signature l → cursor sig pos (flat_map signature_packet l) → Z.of_nat (length sig) < 2 ^ 62 →
  (length l <= fuel)%nat →
  extract_packets fuel sig (Z.of_nat (length sig)) pos keys =
  Some (keys ++ map (λ s, key_id (s_issuer s)) l, inr tt).
Proof.
  intros Hl. revert fuel pos keys. induction Hl as [|s l Hs Hl IH]; intros fuel pos keys Hc H62 Hf.
  { destruct Hc as [Hp Hd]. assert (length sig <= Z.to_nat pos)%nat as Hge.
    { pose proof (f_equal length Hd) as H. rewrite length_drop in H. cbn in H. lia. }
    destruct fuel; cbn [extract_packets]; rewrite (proj2 (Z.leb_le _ _)) by lia; by rewrite app_nil_r. }
  destruct fuel as [|fuel]; [cbn in Hf; lia|]. cbn [flat_map] in Hc. cbn [extract_packets].
  rewrite (proj2 (Z.leb_gt _ _)) by (pose proof (cursor_length _ _ _ Hc ltac:(done)) as H; cbn in H; lia).
  rewrite (read_wf_packet _ _ _ _ _ Hs Hc H62). cbn [mbind option_bind].
  apply cursor_app in Hc. rewrite (IH fuel _ _ Hc H62) by (cbn in Hf; lia). by rewrite <-app_assoc.
Qed.

(** The key ids of the signatures that GnuPG writes (version 4, of a binary
    document, with a two-byte length, the issuer in the unhashed part): every
    signature in the file gives the id of its issuer, in order. *)
Theorem extract_keyid_issuers (l : list signature) (keys : list cstr) :
  Forall wf_signature l → Z.of_nat (length (flat_map signature_packet l)) < 2 ^ 62 →
  alpm_extract_keyid (length l) (flat_map signature_packet l) (Z.of_nat (length (flat_map signature_packet l)))
    keys = Some (keys ++ map (λ s, key_id (s_issuer s)) l, inr tt).
Proof. intros Hl H62. by apply extract_wf_packets. Qed.

Definition ex_signature : signature :=
  mk_signature (to_byte 1, to_byte 8) [(to_byte 2, str "time"); (to_byte 33, str "fingerprint")]
    (bytes [171; 2; 3; 4; 5; 6; 7; 8]) (str "mpi").

Lemma extract_keyid_issuers_witness :
  let f := flat_map signature_packet [ex_signature; ex_signature] in
  alpm_extract_keyid 2 f (Z.of_nat (length f)) [] =
  Some ([str "AB02030405060708"; str "AB02030405060708"], inr tt).
Proof.
  assert (wf_signature ex_signature) as Hw.
  { split_and!; [repeat constructor; by vm_compute|done|done|by vm_compute]. }
  refine (extract_keyid_issuers [ex_signature; ex_signature] [] _ _); [by repeat constructor|by vm_compute].
Defined.

(** ** The trust in a signature *)
Inductive alpm_sigstatus_t :=
  | ALPM_SIGSTATUS_VALID | ALPM_SIGSTATUS_KEY_EXPIRED | ALPM_SIGSTATUS_SIG_EXPIRED
  | ALPM_SIGSTATUS_KEY_UNKNOWN | ALPM_SIGSTATUS_KEY_DISABLED | ALPM_SIGSTATUS_INVALID.

Inductive alpm_sigvalidity_t :=
  | ALPM_SIGVALIDITY_FULL | ALPM_SIGVALIDITY_MARGINAL | ALPM_SIGVALIDITY_NEVER | ALPM_SIGVALIDITY_UNKNOWN.

Record alpm_sigresult_t := mk_sigresult {
  sr_fingerprint : option cstr;      (* NULL for a key without a user id *)
  sr_uid : option cstr;
  sr_status : alpm_sigstatus_t;
  sr_validity : alpm_sigvalidity_t
}.

(** What GPGME says: the status and the validity of a signature, and the key. *)
Inductive gpg_code :=
  | GPG_ERR_NO_ERROR | GPG_ERR_KEY_EXPIRED | GPG_ERR_SIG_EXPIRED | GPG_ERR_NO_PUBKEY
  | GPG_ERR_BAD_SIGNATURE | GPG_ERR_EOF | GPG_ERR_OTHER.

Inductive gpgme_validity :=
  | GPGME_VALIDITY_UNKNOWN | GPGME_VALIDITY_UNDEFINED | GPGME_VALIDITY_NEVER
  | GPGME_VALIDITY_MARGINAL | GPGME_VALIDITY_FULL | GPGME_VALIDITY_ULTIMATE.

Record gpgme_signature := mk_gpgsig {
  gs_fpr : cstr;
  gs_status : gpg_code;
  gs_validity : gpgme_validity
}.

Record gpgme_key := mk_gpgkey {
  gk_uids : option cstr;         (* the first user id *)
  gk_fpr : cstr;                 (* of the first subkey *)
  gk_disabled : bool;
  gk_expired : bool
}.

(** A signature is given with the database, or it is in a file. *)
Inductive sig_source :=
  | SigMemory (data : signature_data)
  | SigFile (path : cstr).

(** GPGME with its key ring of type [K], the files, and the user. *)
Record gpg_env (K : Type) := mk_gpg_env {
  g_readable : cstr → bool;                                  (* faccessat with R_OK, and fopen *)
  g_writable : cstr → bool;                                  (* faccessat with W_OK *)
  g_engine : bool;                                           (* the engine of init_gpgme is usable *)
  g_open : bool;                                             (* contexts and data objects are created *)
  g_verify : K → sig_source → cstr → gpg_code * list gpgme_signature;
  g_get_key : K → cstr → gpg_code + gpgme_key;               (* gpgme_get_key in the key ring *)
  g_locate : K → cstr → K * bool;                            (* with LOCATE_EXTERNAL; may import *)
  g_search : K → cstr → gpg_code + gpgme_key;                (* on a key server *)
  g_import : K → gpgme_key → K * bool;                       (* gpgme_op_import_keys, one key imported *)
  g_question_import : option cstr → option cstr → bool       (* the answer; no without a callback *)
}.
Arguments g_readable {K}. Arguments g_writable {K}. Arguments g_engine {K}. Arguments g_open {K}.
Arguments g_verify {K}. Arguments g_get_key {K}. Arguments g_locate {K}. Arguments g_search {K}.
Arguments g_import {K}. Arguments g_question_import {K}.

(** The key ring, handle->known_keys, and the static variable of init_gpgme. *)
Record pgp_state (K : Type) := mk_pgp { ps_ring : K; ps_known : list cstr; ps_init : bool }.
Arguments mk_pgp {K}. Arguments ps_ring {K}. Arguments ps_known {K}. Arguments ps_init {K}.

(** The switches of _alpm_gpgme_checksig. *)
Definition sigstatus_of (code : gpg_code) : alpm_sigstatus_t :=
  match code with
  | GPG_ERR_NO_ERROR => ALPM_SIGSTATUS_VALID
  | GPG_ERR_KEY_EXPIRED => ALPM_SIGSTATUS_KEY_EXPIRED
  | GPG_ERR_SIG_EXPIRED => ALPM_SIGSTATUS_SIG_EXPIRED
  | GPG_ERR_NO_PUBKEY => ALPM_SIGSTATUS_KEY_UNKNOWN
  | _ => ALPM_SIGSTATUS_INVALID
  end.

Definition sigvalidity_of (v : gpgme_validity) : alpm_sigvalidity_t :=
  match v with
  | GPGME_VALIDITY_ULTIMATE | GPGME_VALIDITY_FULL => ALPM_SIGVALIDITY_FULL
  | GPGME_VALIDITY_MARGINAL => ALPM_SIGVALIDITY_MARGINAL
  | GPGME_VALIDITY_NEVER => ALPM_SIGVALIDITY_NEVER
  | GPGME_VALIDITY_UNKNOWN | GPGME_VALIDITY_UNDEFINED => ALPM_SIGVALIDITY_UNKNOWN
  end.

Section signing.
Context {K : Type} (g : gpg_env K).
Notation state := (pgp_state K).

Definition set_ring (k : K) (st : state) : state := mk_pgp k (ps_known st) (ps_init st).

(** The errno it sets, if any, and whether it succeeds. A missing key ring is
    reported, and does not stop it. *)
Definition init_gpgme (gpgdir : cstr) (st : state) : state * option alpm_errno_t * bool :=
  if ps_init st then (st, None, true)
  else
    let missing := negb (g_readable g (gpgdir ++ str "pubring.gpg"))
                   || negb (g_readable g (gpgdir ++ str "trustdb.gpg")) in
    if g_engine g then (mk_pgp (ps_ring st) (ps_known st) true, if missing then Some ALPM_ERR_NOT_A_FILE else None, true)
    else (st, Some ALPM_ERR_GPGME, false).

(** One signature: [None] when looking up its key fails. *)
Definition sigresult_of (ring : K) (s : gpgme_signature) : option alpm_sigresult_t :=
  let status := sigstatus_of (gs_status s) in
  let validity := sigvalidity_of (gs_validity s) in
  match g_get_key g ring (gs_fpr s) with
  | inl GPG_ERR_EOF => Some (mk_sigresult (Some (gs_fpr s)) None status validity)
  | inl _ => None
  | inr key =>
      Some match gk_uids key with
           | Some uid => mk_sigresult (Some (gk_fpr key)) (Some uid)
                           (if gk_disabled key then ALPM_SIGSTATUS_KEY_DISABLED else status) validity
           | None => mk_sigresult None None status validity
           end
  end.

Definition alpm_sigpath (path : cstr) : cstr := path ++ str ".sig".

Definition is_no_error (c : gpg_code) : bool := match c with GPG_ERR_NO_ERROR => true | _ => false end.

(** What is verified: a decoded signature, or the file; [None]: no base64. *)
Definition signature_source (path : cstr) (base64_sig : option cstr) : option sig_source :=
  match base64_sig with
  | Some b => match alpm_decode_signature b with SigError => None | d => Some (SigMemory d) end
  | None => Some (SigFile (alpm_sigpath path))
  end.

(** The array of results is allocated with zeros, and filled up to the first key
    that cannot be looked up; the flag tells whether all are there. *)
Definition zero_result : alpm_sigresult_t :=
  mk_sigresult None None ALPM_SIGSTATUS_VALID ALPM_SIGVALIDITY_FULL.

Fixpoint collect_results (ring : K) (signatures : list gpgme_signature) : list alpm_sigresult_t * bool :=
  match signatures with
  | [] => ([], true)
  | s :: signatures' =>
      match sigresult_of ring s with
      | Some r => let '(l, ok) := collect_results ring signatures' in (r :: l, ok)
      | None => (map (λ _, zero_result) signatures, false)
      end
  end.

(** A call: the state, the errno it sets if any, what it returns, the results. *)
Record sig_outcome := mk_outcome {
  so_state : state;
  so_errno : option alpm_errno_t;
  so_ret : Z;
  so_results : list alpm_sigresult_t
}.

Definition sig_fail (st : state) (e : alpm_errno_t) : sig_outcome := mk_outcome st (Some e) (-1) [].

Definition alpm_gpgme_checksig (gpgdir path : cstr) (base64_sig : option cstr) (st : state) : sig_outcome :=
  if negb (g_readable g path) then sig_fail st ALPM_ERR_NOT_A_FILE
  else if negb (is_some base64_sig) && negb (g_readable g (alpm_sigpath path)) then sig_fail st ALPM_ERR_SIG_MISSING
  else
    match init_gpgme gpgdir st with
    | (st, _, false) => sig_fail st ALPM_ERR_GPGME
    | (st, e, true) =>
        if negb (g_open g) then sig_fail st ALPM_ERR_GPGME
        else
          match signature_source path base64_sig with
          | None => sig_fail st ALPM_ERR_SIG_INVALID
          | Some source =>
              let '(code, signatures) := g_verify g (ps_ring st) source path in
              if negb (is_no_error code) then sig_fail st ALPM_ERR_GPGME
              else if bool_decide (length signatures = 0%nat) then sig_fail st ALPM_ERR_SIG_MISSING
              else match collect_results (ps_ring st) signatures with
                   | (results, true) => mk_outcome st e 0 results
                   | (results, false) => mk_outcome st (Some ALPM_ERR_GPGME) (-1) results
                   end
          end
    end.

(** The loop of _alpm_check_pgp_helper on one result. *)
Definition acceptable (marginal unknown : bool) (r : alpm_sigresult_t) : bool :=
  match sr_status r with
  | ALPM_SIGSTATUS_VALID | ALPM_SIGSTATUS_KEY_EXPIRED =>
      match sr_validity r with
      | ALPM_SIGVALIDITY_FULL => true
      | ALPM_SIGVALIDITY_MARGINAL => marginal
      | ALPM_SIGVALIDITY_UNKNOWN => unknown
      | ALPM_SIGVALIDITY_NEVER => false
      end
  | _ => false
  end.

(** for(num = 0; !ret && num < count; num++): 0 or -1 *)
Fixpoint check_results (marginal unknown : bool) (results : list alpm_sigresult_t) : Z :=
  match results with
  | [] => 0
  | r :: results' => if acceptable marginal unknown r then check_results marginal unknown results' else -1
  end.

(** The test of pm_errno sees what the call has set: every failure sets it. *)
Definition alpm_check_pgp_helper (gpgdir path : cstr) (base64_sig : option cstr)
    (optional marginal unknown : bool) (st : state) : sig_outcome :=
  let r := alpm_gpgme_checksig gpgdir path base64_sig st in
  if negb (so_ret r =? 0) && bool_decide (so_errno r = Some ALPM_ERR_SIG_MISSING) then
    if optional then mk_outcome (so_state r) (Some ALPM_ERR_OK) 0 (so_results r) else r
  else if negb (so_ret r =? 0) then r
  else mk_outcome (so_state r) (so_errno r) (check_results marginal unknown (so_results r)) (so_results r).

(** ** Importing a key *)

(** 1: known, 0: unknown, -1: an error; [fpr] may be a key id. *)
Definition alpm_key_in_keychain (gpgdir fpr : cstr) (st : state) : state * Z :=
  if bool_decide (fpr ∈ ps_known st) then (st, 1)
  else
    match init_gpgme gpgdir st with
    | (st, _, false) => (st, -1)
    | (st, _, true) =>
        if negb (g_open g) then (st, -1)
        else match g_get_key g (ps_ring st) fpr with
             | inl GPG_ERR_EOF => (st, 0)
             | inl _ => (st, -1)
             | inr key => if gk_expired key then (st, 0)
                          else (mk_pgp (ps_ring st) (ps_known st ++ [fpr]) (ps_init st), 1)
             end
    end.

(** A nonzero result of _alpm_key_in_keychain counts as success. *)
Definition key_import_wkd (gpgdir email : cstr) (fpr : option cstr) (st : state) : state * Z :=
  if negb (g_open g) then (st, -1)
  else
    let '(ring, found) := g_locate g (ps_ring st) email in
    let st := set_ring ring st in
    match fpr with
    | Some fpr =>
        if found : bool then
          let '(st, known) := alpm_key_in_keychain gpgdir fpr st in
          (st, if negb (known =? 0) then 0 else -1)
        else (st, -1)
    | None => (st, -1)
    end.

(** The key ids that are looked up. *)
Definition full_fpr (fpr : cstr) : cstr := str "0x" ++ fpr.
Definition short_fpr (fpr : cstr) : cstr := str "0x" ++ drop (length fpr - 8) fpr.

(** The key (return 1), or 0 or -1. *)
Definition key_search_keyserver (fpr : cstr) (st : state) : Z + gpgme_key :=
  if negb (g_open g) then inl (-1)
  else
    match g_search g (ps_ring st) (full_fpr fpr) with
    | inr key => inr key
    | inl GPG_ERR_EOF =>
        if (8 <? length fpr)%nat then
          match g_search g (ps_ring st) (short_fpr fpr) with
          | inr key => inr key
          | inl GPG_ERR_EOF => inl 0
          | inl _ => inl (-1)
          end
        else inl 0
    | inl _ => inl (-1)
    end.

Definition key_import_keyserver (gpgdir : cstr) (key : gpgme_key) (st : state) : state * Z :=
  if negb (g_writable g (gpgdir ++ str "pubring.gpg")) then (st, -1)
  else if negb (g_open g) then (st, -1)
  else let '(ring, ok) := g_import g (ps_ring st) key in (set_ring ring st, if ok : bool then 0 else -1).

Definition email_from_uid (uid : option cstr) : option cstr :=
  uid ← uid;
  '(_, rest) ← split_last "<"%char uid;
  '(email, _) ← split_last ">"%char rest;
  Some email.

(** [None]: the fingerprint is NULL where its length is taken. *)
Definition alpm_key_import (gpgdir : cstr) (uid fpr : option cstr) (st : state) : option (state * Z) :=
  if negb (g_writable g (gpgdir ++ str "pubring.gpg")) then Some (st, -1)
  else if g_question_import g uid fpr then
    let '(st, ret) := match email_from_uid uid with
                      | Some email => key_import_wkd gpgdir email fpr st
                      | None => (st, -1)
                      end in
    if ret =? 0 then Some (st, 0)
    else
      fpr ← fpr;
      match key_search_keyserver fpr st with
      | inr key => let '(st, r) := key_import_keyserver gpgdir key st in Some (st, if r =? 0 then 0 else ret)
      | inl _ => Some (st, ret)
      end
  else Some (st, -1).

(** _alpm_process_siglist: the messages are left out. [None]: a fingerprint that
    is NULL is compared or measured. *)
Definition process_result (gpgdir : cstr) (r : alpm_sigresult_t) (st : state) : option (state * bool) :=
  let import st :=
    '(st, ret) ← alpm_key_import gpgdir (sr_uid r) (sr_fingerprint r) st; Some (st, ret =? 0) in
  match sr_status r with
  | ALPM_SIGSTATUS_KEY_EXPIRED => import st
  | ALPM_SIGSTATUS_KEY_UNKNOWN =>
      fpr ← sr_fingerprint r;
      let '(st, known) := alpm_key_in_keychain gpgdir fpr st in
      if known =? 1 then Some (st, false) else import st
  | _ => Some (st, false)
  end.

Fixpoint alpm_process_siglist (gpgdir : cstr) (siglist : list alpm_sigresult_t) (retry : bool) (st : state)
    : option (state * bool) :=
  match siglist with
  | [] => Some (st, retry)
  | r :: siglist' =>
      '(st, again) ← process_result gpgdir r st;
      alpm_process_siglist gpgdir siglist' (retry || again) st
  end.

(** ** Facts: what is accepted *)
Definition status_ok (c : gpg_code) : bool :=
  match c with GPG_ERR_NO_ERROR | GPG_ERR_KEY_EXPIRED => true | _ => false end.

Definition validity_ok (marginal unknown : bool) (v : gpgme_validity) : bool :=
  match v with
  | GPGME_VALIDITY_ULTIMATE | GPGME_VALIDITY_FULL => true
  | GPGME_VALIDITY_MARGINAL => marginal
  | GPGME_VALIDITY_UNKNOWN | GPGME_VALIDITY_UNDEFINED => unknown
  | GPGME_VALIDITY_NEVER => false
  end.

(** The key of a signature is not in the ring, or not disabled. *)
Definition key_ok (ring : K) (fpr : cstr) : bool :=
  match g_get_key g ring fpr with
  | inl GPG_ERR_EOF => true
  | inl _ => false
  | inr key => negb (is_some (gk_uids key) && gk_disabled key)
  end.

Definition trusted (marginal unknown : bool) (ring : K) (s : gpgme_signature) : bool :=
  status_ok (gs_status s) && validity_ok marginal unknown (gs_validity s) && key_ok ring (gs_fpr s).

(** GPGME verifies the file against the signature, and trusts every signature in it. *)
Definition verified (marginal unknown : bool) (path : cstr) (base64_sig : option cstr) (ring : K) : Prop :=
  ∃ source signatures, signature_source path base64_sig = Some source ∧
    g_verify g ring source path = (GPG_ERR_NO_ERROR, signatures) ∧ signatures ≠ [] ∧
    Forall (λ s, trusted marginal unknown ring s = true) signatures.

Lemma acceptable_trusted marginal unknown ring s :
  match sigresult_of ring s with
  | Some r => acceptable marginal unknown r = trusted marginal unknown ring s
  | None => trusted marginal unknown ring s = false
  end.
Proof.
  unfold sigresult_of, trusted, key_ok. destruct (g_get_key g ring (gs_fpr s)) as [[]|key];
    try (by rewrite andb_false_r).
  - by destruct (gs_status s), (gs_validity s), marginal, unknown.
  - destruct (gk_uids key); [destruct (gk_disabled key)|];
      by destruct (gs_status s), (gs_validity s), marginal, unknown.
Qed.

Lemma check_collected marginal unknown ring signatures :
  (collect_results ring signatures).2 = true →
  check_results marginal unknown (collect_results ring signatures).1 = 0 ↔
  Forall (λ s, trusted marginal unknown ring s = true) signatures.
Proof.
  induction signatures as [|s l IH]; intros Hc; [by cbn; split; [constructor|]|]. cbn in Hc |- *.
  pose proof (acceptable_trusted marginal unknown ring s) as Ha. destruct (sigresult_of ring s) as [r|]; [|done].
  destruct (collect_results ring l) as [rs ok]. cbn in *. rewrite Ha, Forall_cons.
  destruct (trusted marginal unknown ring s); [rewrite <-IH by done; tauto|]. split; [done|by intros []].
Qed.

Lemma collect_failed marginal unknown ring signatures :
  (collect_results ring signatures).2 = false →
  ¬ Forall (λ s, trusted marginal unknown ring s = true) signatures.
Proof.
  induction signatures as [|s l IH]; [done|]. cbn. pose proof (acceptable_trusted marginal unknown ring s) as Ha.
  intros Hc [Hs Hl]%Forall_cons. destruct (sigresult_of ring s) as [r|]; [|congruence].
  destruct (collect_results ring l) as [rs ok]. cbn in *. by apply IH.
Qed.

(** The checks before the verification. *)
Definition can_check (path : cstr) (base64_sig : option cstr) (st : state) : bool :=
  g_readable g path && (is_some base64_sig || g_readable g (alpm_sigpath path))
  && (ps_init st || g_engine g) && g_open g.

Lemma init_spec gpgdir st :
  ps_ring (init_gpgme gpgdir st).1.1 = ps_ring st ∧ ps_known (init_gpgme gpgdir st).1.1 = ps_known st ∧
  (init_gpgme gpgdir st).2 = ps_init st || g_engine g.
Proof. unfold init_gpgme. destruct (ps_init st) eqn:E; [done|]. by destruct (g_engine g). Qed.

Lemma checksig_spec gpgdir path base64_sig marginal unknown st :
  let r := alpm_gpgme_checksig gpgdir path base64_sig st in
  ps_ring (so_state r) = ps_ring st ∧ (so_ret r = 0 ∨ so_ret r = -1) ∧
  (so_ret r = 0 ∧ check_results marginal unknown (so_results r) = 0 ↔
   can_check path base64_sig st = true ∧ verified marginal unknown path base64_sig (ps_ring st)).
Proof.
  unfold alpm_gpgme_checksig, can_check. destruct (g_readable g path); cbn [negb andb]; [|naive_solver].
  destruct (is_some base64_sig || _) eqn:Es.
  2: { apply orb_false_iff in Es as [-> ->]. cbn. naive_solver. }
  replace (negb _ && negb _) with false by (rewrite <-negb_orb; by rewrite Es).
  pose proof (init_spec gpgdir st) as (Hr & _ & Hi). destruct (init_gpgme gpgdir st) as [[st1 e] ok].
  cbn in Hr, Hi. rewrite <-Hi, <-Hr. clear Hr Hi. destruct ok; [|cbn; naive_solver].
  destruct (g_open g); [|cbn; naive_solver]. cbn [negb andb]. unfold verified.
  destruct (signature_source path base64_sig) as [source|]; [|cbn; naive_solver].
  destruct (g_verify g (ps_ring st1) source path) as [code l] eqn:Ev.
  destruct (is_no_error code) eqn:Ec; cbn [negb].
  2: { cbn. split_and!; [done|naive_solver|]. split; [by intros []|]. intros (_ & ? & ? & [= <-] & Hv & _).
       rewrite Ev in Hv. by injection Hv as -> _. }
  destruct code; try done. case_bool_decide as El.
  { apply nil_length_inv in El as ->. cbn. split_and!; [done|naive_solver|]. split; [by intros []|].
    intros (_ & ? & ? & [= <-] & Hv & Hn & _). rewrite Ev in Hv. by injection Hv as <-. }
  pose proof (check_collected marginal unknown (ps_ring st1) l) as Hc.
  pose proof (collect_failed marginal unknown (ps_ring st1) l) as Hf.
  destruct (collect_results (ps_ring st1) l) as [rs []]; cbn in Hc, Hf |- *.
  - rewrite Hc by done. split_and!; [done|naive_solver|]. split.
    + intros [_ Ht]. split; [done|]. exists source, l. split_and!; [done|done|by intros ->|done].
    + intros (_ & ? & ? & [= <-] & Hv & _ & Ht). rewrite Ev in Hv. by injection Hv as <-.
  - split_and!; [done|naive_solver|]. split; [by intros []|]. intros (_ & ? & ? & [= <-] & Hv & _ & Ht).
    rewrite Ev in Hv. injection Hv as <-. by destruct (Hf eq_refl).
Qed.
End signing.

(** ** Theorems: trust *)

(** _alpm_check_pgp_helper returns 0 exactly when GPGME verifies the file and
    every signature in it: there is at least one, each is good (or made before its
    key expired), its trust is the one asked for, its key is not disabled. Only
    where signatures are optional, a missing one is accepted as well. *)
Lemma pgp_helper_spec {K} (g : gpg_env K) (gpgdir path : cstr) (base64_sig : option cstr)
    (optional marginal unknown : bool) (st : pgp_state K) :
  so_ret (alpm_check_pgp_helper g gpgdir path base64_sig optional marginal unknown st) = 0 ↔
  (can_check g path base64_sig st = true ∧ verified g marginal unknown path base64_sig (ps_ring st)) ∨
  (optional = true ∧ so_ret (alpm_gpgme_checksig g gpgdir path base64_sig st) = -1 ∧
   so_errno (alpm_gpgme_checksig g gpgdir path base64_sig st) = Some ALPM_ERR_SIG_MISSING).
Proof.
  destruct (checksig_spec g gpgdir path base64_sig marginal unknown st) as (_ & Hr & Hv). rewrite <-Hv.
  unfold alpm_check_pgp_helper. destruct (alpm_gpgme_checksig g gpgdir path base64_sig st) as [st1 e ret rs].
  cbn in *. destruct Hr as [-> | ->]; cbn; [naive_solver|].
  case_bool_decide; destruct optional; cbn; naive_solver.
Qed.

Lemma key_in_keychain_ring {K} (g : gpg_env K) gpgdir fpr st :
  ps_ring (alpm_key_in_keychain g gpgdir fpr st).1 = ps_ring st.
Proof.
  unfold alpm_key_in_keychain. case_bool_decide; [done|].
  pose proof (init_spec g gpgdir st) as (Hr & _ & _). destruct (init_gpgme g gpgdir st) as [[st1 e] []]; [|done].
  cbn in Hr. destruct (g_open g); [|done]. cbn [negb].
  destruct (g_get_key g (ps_ring st1) fpr) as [[]|key]; [done..|]. by destruct (gk_expired key).
Qed.

Lemma key_import_refused {K} (g : gpg_env K) gpgdir uid fpr st :
  g_writable g (gpgdir ++ str "pubring.gpg") = false ∨ g_question_import g uid fpr = false →
  alpm_key_import g gpgdir uid fpr st = Some (st, -1).
Proof. unfold alpm_key_import. intros [-> | ->]; [done|]. by destruct (g_writable _ _). Qed.

(** No key gets into the key ring without consent: when the user refuses every
    key, or the key ring cannot be written, processing the results of a check
    leaves the ring as it is and does not ask for another check. *)
Theorem no_import_without_consent {K} (g : gpg_env K) (gpgdir : cstr) (siglist : list alpm_sigresult_t)
    (st st' : pgp_state K) (retry : bool) :
  (∀ uid fpr, g_writable g (gpgdir ++ str "pubring.gpg") = false ∨ g_question_import g uid fpr = false) →
  alpm_process_siglist g gpgdir siglist false st = Some (st', retry) →
  ps_ring st' = ps_ring st ∧ retry = false.
Proof.
  intros Hc. revert st. induction siglist as [|r l IH]; intros st; cbn [alpm_process_siglist].
  { by intros [= <- <-]. }
  assert (∀ st1 again, process_result g gpgdir r st = Some (st1, again) →
    ps_ring st1 = ps_ring st ∧ again = false) as Hp.
  { intros st1 again. unfold process_result. destruct (sr_status r); try by intros [= <- <-].
    - rewrite key_import_refused by apply Hc. by intros [= <- <-].
    - destruct (sr_fingerprint r) as [fpr|]; [|done]. cbn [mbind option_bind].
      pose proof (key_in_keychain_ring g gpgdir fpr st) as Hr.
      destruct (alpm_key_in_keychain g gpgdir fpr st) as [st2 known]. destruct (known =? 1).
      + by intros [= <- <-].
      + rewrite key_import_refused by apply Hc. by intros [= <- <-]. }
  destruct (process_result g gpgdir r st) as [[st1 again]|]; [|done]. cbn [mbind option_bind].
  destruct (Hp st1 again eq_refl) as [<- ->]. apply IH.
Qed.

(** A key ring of one key, and a user who agrees. *)
Definition ex_ring_key : gpgme_key := mk_gpgkey (Some (str "A B <a@b>")) (str "F1") false false.
Definition ex_gpg (agree : bool) : gpg_env (list cstr) :=
  {| g_readable := λ _, true; g_writable := λ _, true; g_engine := true; g_open := true;
     g_verify := λ ring s _, (GPG_ERR_NO_ERROR, [mk_gpgsig (str "F1")
       (if bool_decide (str "F1" ∈ ring) then GPG_ERR_NO_ERROR else GPG_ERR_NO_PUBKEY) GPGME_VALIDITY_FULL]);
     g_get_key := λ ring fpr, if bool_decide (fpr ∈ ring) then inr ex_ring_key else inl GPG_ERR_EOF;
     g_locate := λ ring _, (ring, false);
     g_search := λ _ _, inr ex_ring_key;
     g_import := λ ring key, (ring ++ [gk_fpr key], true);
     g_question_import := λ _ _, agree |}.
Definition ex_state : pgp_state (list cstr) := mk_pgp [] [] false.
Definition ex_check (agree : bool) (st : pgp_state (list cstr)) : sig_outcome :=
  alpm_check_pgp_helper (ex_gpg agree) (str "/g/") (str "f") None false false false st.

Lemma no_import_without_consent_witness :
  ∃ st, alpm_process_siglist (ex_gpg false) (str "/g/") (so_results (ex_check false ex_state)) false ex_state =
        Some (st, false) ∧ ps_ring st = [].
Proof.
  destruct (alpm_process_siglist (ex_gpg false) (str "/g/") (so_results (ex_check false ex_state)) false ex_state)
    as [[st retry]|] eqn:E; [|vm_compute in E; discriminate].
  destruct (no_import_without_consent (ex_gpg false) (str "/g/") (so_results (ex_check false ex_state)) ex_state st
    retry) as [H1 ->]; [intros; by right|exact E|]. exists st. split; [reflexivity|exact H1].
Defined.

(** An unknown key is refused; after its import the file is accepted. *)
Example import_then_check :
  so_ret (ex_check true ex_state) = -1 ∧
  match alpm_process_siglist (ex_gpg true) (str "/g/") (so_results (ex_check true ex_state)) false ex_state with
  | Some (st, retry) => retry = true ∧ so_ret (ex_check true st) = 0
  | None => False
  end.
Proof. vm_compute. done. Qed.

(** When the key ring cannot be used, an import by WKD counts as successful:
    key_import_wkd takes the error -1 of _alpm_key_in_keychain for a known key. *)
Definition ex_broken : gpg_env (list cstr) :=
  {| g_readable := λ _, true; g_writable := λ _, true; g_engine := true; g_open := true;
     g_verify := λ _ _ _, (GPG_ERR_OTHER, []); g_get_key := λ _ _, inl GPG_ERR_OTHER;
     g_locate := λ ring _, (ring, true); g_search := λ _ _, inl GPG_ERR_OTHER;
     g_import := λ ring _, (ring, false); g_question_import := λ _ _, true |}.

Example wkd_import_error :
  alpm_key_in_keychain ex_broken (str "/g/") (str "F1") ex_state = (mk_pgp [] [] true, -1) ∧
  alpm_key_import ex_broken (str "/g/") (Some (str "A B <a@b>")) (Some (str "F1")) ex_state =
  Some (mk_pgp [] [] true, 0).
Proof. vm_compute. done. Qed.
