(* ===== verification/PkgFile.v ===== *)
(** * Package files

    lib/libalpm/be_package.c: reading the metadata and the file list of a package
    archive, and checking the file. An archive is the list of its entries with
    the code that ends it; the data of an entry comes in blocks ([ArchiveIO]).
    libarchive's reader of the mtree format is a parameter. The array of files has
    its size, and [None] is undefined behaviour: a write behind the end of this
    array, or a read before the first byte of an empty directory name. *)
From S2P Require Import Prelude CString AlpmList Util Package PkgHash PkgSet Handle Deps FileList Db.
From S2P Require Import FileOps LocalDb ArchiveIO Signing.
Local Open Scope Z_scope.

(** ** .PKGINFO *)
Inductive info_key :=
  | PName
  | PText (set : alpm_pkg_t → option cstr → alpm_pkg_t)
  | PVersion
  | PIgnored
  | PAdd (get : alpm_pkg_t → list cstr) (set : alpm_pkg_t → list cstr → alpm_pkg_t)
  | PDate
  | PSize
  | PDep (get : alpm_pkg_t → list alpm_depend_t) (set : alpm_pkg_t → list alpm_depend_t → alpm_pkg_t)
  | PBackup
  | PXdata
  | PUnknown.

Definition info_keys : list (cstr * info_key) :=
  [(str "pkgname", PName); (str "pkgbase", PText set_base); (str "pkgver", PVersion);
   (str "basever", PIgnored); (str "pkgdesc", PText set_desc);
   (str "group", PAdd pkg_groups set_groups); (str "url", PText set_url);
   (str "license", PAdd pkg_licenses set_licenses); (str "builddate", PDate);
   (str "packager", PText set_packager); (str "arch", PText set_arch); (str "size", PSize);
   (str "depend", PDep pkg_depends set_depends); (str "optdepend", PDep pkg_optdepends set_optdepends);
   (str "makedepend", PDep pkg_makedepends set_makedepends);
   (str "checkdepend", PDep pkg_checkdepends set_checkdepends);
   (str "conflict", PDep pkg_conflicts set_conflicts);
   (str "replaces", PDep pkg_replaces set_replaces);
   (str "provides", PDep pkg_provides set_provides);
   (str "backup", PBackup); (str "xdata", PXdata)].

Definition info_key_of (key : cstr) : info_key :=
  match find_first (λ e, streq key e.1) info_keys with Some (_, k) => k | None => PUnknown end.

(** One key with its value; [None]: return -1. *)
Definition store_info (k : info_key) (value : cstr) (pkg : alpm_pkg_t) : option alpm_pkg_t :=
  match k with
  | PName => Some (set_name_hash (set_name pkg value) (alpm_hash_sdbm value))
  | PText set => Some (set pkg (Some value))
  | PVersion => Some (set_version pkg value)
  | PIgnored | PUnknown => Some pkg
  | PAdd get set => Some (set pkg (get pkg ++ [value]))
  | PDate => Some (set_builddate pkg (alpm_parsedate value))
  | PSize => Some (set_isize pkg (alpm_strtoofft value))
  | PDep get set => Some (set pkg (get pkg ++ [alpm_dep_from_string value]))
  | PBackup => Some (set_backup pkg (pkg_backup pkg ++ [mk_backup value None]))
  | PXdata => pd ← alpm_pkg_parse_xdata (Some value); Some (set_xdata pkg (pkg_xdata pkg ++ [pd]))
  end.

(** "key = value": the key ends at the first space. *)
Definition split_info (line : cstr) : option (cstr * cstr) :=
  match split_first " "%char line with
  | Some (key, c1 :: c2 :: value) =>
      if Ascii.eqb c1 "="%char && Ascii.eqb c2 " "%char then Some (c_string key, c_string value) else None
  | _ => None
  end.

Definition parse_info_line (line : cstr) (pkg : alpm_pkg_t) : option alpm_pkg_t :=
  let line := stripped line in
  if bool_decide (line = []) || Ascii.eqb (hd_chr line) "#"%char then Some pkg
  else match split_info line with
       | None => Some pkg                           (* syntax error, logged *)
       | Some (key, value) => store_info (info_key_of key) value pkg
       end.

Definition MAX_LINE : Z := 512 * 1024.

(** The loop; the fuel is enough for every line ([parse_info_lines_total]). *)
Fixpoint parse_info_lines (fuel : nat) (b : read_buffer) (pkg : alpm_pkg_t) : option (alpm_pkg_t * Z) :=
  match fuel with
  | O => None
  | S fuel' =>
      match alpm_archive_fgets b with
      | FEnd ret => Some (pkg, if ret =? ARCHIVE_EOF then 0 else -1)
      | FLine line b =>
          match parse_info_line line pkg with
          | Some pkg => parse_info_lines fuel' b pkg
          | None => Some (pkg, -1)
          end
      end
  end.

Definition parse_descfile (data : list block_result) (newpkg : alpm_pkg_t) : option (alpm_pkg_t * Z) :=
  let b := open_buffer MAX_LINE data in
  parse_info_lines (S (left_to_read b)) b newpkg.

(** ** The file list *)
Record archive_entry := mk_entry {
  ae_path : cstr;
  ae_dir : bool;                (* archive_entry_filetype is AE_IFDIR *)
  ae_size : Z;
  ae_mode : Z;
  ae_data : list block_result;
  ae_skip : bool                (* archive_read_data_skip succeeds *)
}.

(** The package, and whether the path is handled. *)
Definition handle_simple_path (pkg : alpm_pkg_t) (path : cstr) : alpm_pkg_t * bool :=
  if streq path (str ".INSTALL") then (set_scriptlet pkg 1, true)
  else if Ascii.eqb (hd_chr path) "."%char then (pkg, true)
  else (pkg, false).

(** A growing array of files: [al_size] is the size in bytes that the caller's
    variable records, [al_alloc] what the array really has. *)
Record alloc_list := mk_alloc { al_files : list alpm_file_t; al_size : Z; al_alloc : Z }.
Definition SIZEOF_FILE : Z := 24.

Inductive add_result :=
  | AddOk (l : alloc_list)
  | AddFailed              (* no memory *)
  | AddUB.                 (* a write behind the array, a read before a name *)

Definition add_entry_to_files_list (l : alloc_list) (entry : archive_entry) (path : cstr) : add_result :=
  let required := (Z.of_nat (length (al_files l)) + 1) * SIZEOF_FILE in
  match alpm_greedy_grow (al_size l) required with
  | None => AddFailed
  | Some size =>
      let alloc := if size =? al_size l then al_alloc l else size in
      let store name :=
        if alloc <? required then AddUB
        else AddOk (mk_alloc (al_files l ++ [mk_file name (ae_size entry) (ae_mode entry)]) size alloc) in
      if ae_dir entry
      then match last path with
           | None => AddUB
           | Some c => store (if Ascii.eqb c "/"%char then path else path ++ str "/")
           end
      else store path
  end.

(** The data of an entry, read to its end; [None] for an error. *)
Fixpoint read_data (data : list block_result) : option cstr :=
  match data with
  | [] => Some []
  | BlockError _ :: _ => None
  | Block d :: data' => rest ← read_data data'; Some (d ++ rest)
  end.

Section load.
Context (fnmatch : cstr → cstr → bool).
(** The entries of an mtree, and whether it ends without an error. *)
Context (mtree : cstr → list archive_entry * bool).

Definition strip_dot (path : cstr) : cstr :=
  if is_prefix (str "./") path then drop 2 path else path.

(** The package, with the file list or [None] when memory is exhausted. *)
Fixpoint mtree_files (entries : list archive_entry) (pkg : alpm_pkg_t) (l : alloc_list)
    : option (alpm_pkg_t * option alloc_list) :=
  match entries with
  | [] => Some (pkg, Some l)
  | entry :: entries' =>
      let path := strip_dot (ae_path entry) in
      let '(pkg, handled) := handle_simple_path pkg path in
      if handled : bool then mtree_files entries' pkg l
      else match add_entry_to_files_list l entry path with
           | AddOk l => mtree_files entries' pkg l
           | AddFailed => Some (pkg, None)
           | AddUB => None
           end
  end.

(** The handle, the package, and the size of the new file list, or [None] for an
    error, which leaves the list of the package as it is. *)
Definition build_filelist_from_mtree (h : alpm_handle_t) (pkg : alpm_pkg_t) (data : list block_result)
    : option (alpm_handle_t * alpm_pkg_t * option Z) :=
  match read_data data with
  | None => Some (set_errno ALPM_ERR_LIBARCHIVE h, pkg, None)
  | Some text =>
      let '(entries, ok) := mtree text in
      '(pkg, l) ← mtree_files entries pkg (mk_alloc [] 0 0);
      match l with
      | None => Some (h, pkg, None)
      | Some l => if ok : bool then Some (h, set_files pkg (al_files l), Some (al_alloc l))
                  else Some (set_errno ALPM_ERR_LIBARCHIVE h, pkg, None)
      end
  end.

(** ** _alpm_pkg_load_internal *)
Inductive load_result :=
  | LoadRead (h : alpm_handle_t) (pkg : alpm_pkg_t) (config : bool)   (* the loop is done *)
  | LoadFail (h : alpm_handle_t).

Definition invalid (h : alpm_handle_t) : load_result := LoadFail (set_errno ALPM_ERR_PKG_INVALID h).

(** The checks after .PKGINFO *)
Definition info_usable (pkg : alpm_pkg_t) : bool :=
  negb (bool_decide (pkg_name pkg = [])) && negb (bool_decide (pkg_version pkg = []))
  && is_some (split_first "-"%char (pkg_version pkg)).

(** The loop over the entries; [ret] is the code that ends the archive. The
    variable files_size keeps its value when the list is replaced by that of an
    mtree, whose array has the size [alloc]. *)
Fixpoint load_entries (full : bool) (entries : list archive_entry) (ret : Z) (h : alpm_handle_t)
    (pkg : alpm_pkg_t) (files_size alloc : Z) (config hit_mtree : bool) : option load_result :=
  match entries with
  | [] => Some (if ret =? ARCHIVE_EOF then LoadRead h pkg config
                else LoadFail (set_errno ALPM_ERR_LIBARCHIVE h))
  | entry :: entries' =>
      let path := ae_path entry in
      if streq path (str ".PKGINFO") then
        '(pkg, r) ← parse_descfile (ae_data entry) pkg;
        if negb (r =? 0) || negb (info_usable pkg) then Some (invalid h)
        else load_entries full entries' ret h pkg files_size alloc true hit_mtree
      else if full && streq path (str ".MTREE") then
        '(h, pkg, new_alloc) ← build_filelist_from_mtree h pkg (ae_data entry);
        load_entries full entries' ret h pkg files_size
          (match new_alloc with Some n => n | None => alloc end) config (is_some new_alloc)
      else
        let '(pkg, handled) := handle_simple_path pkg path in
        if handled : bool then load_entries full entries' ret h pkg files_size alloc config hit_mtree
        else
          let next pkg files_size alloc :=
            if negb (ae_skip entry) then Some (LoadFail (set_errno ALPM_ERR_LIBARCHIVE h))
            else if (negb full || hit_mtree) && config then Some (LoadRead h pkg config)
            else load_entries full entries' ret h pkg files_size alloc config hit_mtree in
          if full && negb hit_mtree then
            match add_entry_to_files_list (mk_alloc (pkg_files pkg) files_size alloc) entry path with
            | AddOk l => next (set_files pkg (al_files l)) (al_size l) (al_alloc l)
            | AddFailed => Some (LoadFail h)
            | AddUB => None
            end
          else next pkg files_size alloc
  end.

(** What opening a file gives: its size and its entries with the final code, or
    the error. *)
Definition package_file : Type := (Z * (list archive_entry * Z)) + alpm_errno_t.

(** The internal fields, set when the archive is read. *)
Definition file_package (full : bool) (pkgfile : cstr) (pkg : alpm_pkg_t) : alpm_pkg_t :=
  let level := Z.lor INFRQ_BASE (Z.lor INFRQ_DESC INFRQ_SCRIPTLET) in
  let pkg := set_validation (set_infolevel (set_origin pkg (ALPM_PKG_FROM_FILE (Some pkgfile)))
               level) ALPM_PKG_VALIDATION_NONE in
  if full then set_infolevel (set_files pkg (alpm_filelist_sort (pkg_files pkg))) (Z.lor level INFRQ_FILES)
  else pkg.

Definition alpm_pkg_load_internal (h : alpm_handle_t) (pkgfile : cstr) (full : bool) (addr : nat)
    (file : package_file) : option (alpm_handle_t * option alpm_pkg_t) :=
  match pkgfile with
  | [] => Some (set_errno ALPM_ERR_WRONG_ARGS h, None)
  | _ =>
      match file with
      | inr e => Some (set_errno e h, None)
      | inl (size, (entries, ret)) =>
          let newpkg := set_size (set_filename (alpm_pkg_new addr) (Some pkgfile)) size in
          r ← load_entries full entries ret h newpkg 0 0 false false;
          match r with
          | LoadFail h => Some (h, None)
          | LoadRead h pkg config =>
              if negb config then Some (set_errno ALPM_ERR_PKG_INVALID h, None)
              else
                let pkg := file_package full pkgfile pkg in
                if negb (alpm_pkg_check_meta fnmatch (Some (pkg_name pkg)) (Some (pkg_version pkg)) =? 0)
                then Some (set_errno ALPM_ERR_PKG_INVALID h, None)
                else Some (h, Some pkg)
          end
      end
  end.
End load.

(** ** Facts: reading terminates *)
Lemma parse_info_lines_total fuel b pkg : (left_to_read b < fuel)%nat → is_Some (parse_info_lines fuel b pkg).
Proof.
  revert b pkg. induction fuel as [|fuel IH]; intros b pkg Hf; [lia|]. cbn [parse_info_lines].
  destruct (alpm_archive_fgets b) as [line b'|ret] eqn:E; [|by eexists].
  apply archive_fgets_progress in E. destruct (parse_info_line line pkg); [apply IH; lia|by eexists].
Qed.

Lemma parse_descfile_total data pkg : is_Some (parse_descfile data pkg).
Proof. unfold parse_descfile. apply parse_info_lines_total. lia. Qed.

(** ** Facts: what .PKGINFO sets *)

(** The fields that reading the metadata leaves alone. *)
Definition outside (p : alpm_pkg_t) :=
  (pkg_addr p, pkg_filename p, pkg_size p, pkg_files p, pkg_scriptlet p, pkg_origin p,
   pkg_oldpkg p, pkg_removes p).

Record info_inv (p q : alpm_pkg_t) : Prop := {
  ii_outside : outside q = outside p;
  ii_hash : pkg_name_hash q = alpm_hash_sdbm (pkg_name q)
}.

Lemma store_info_inv key value p q r :
  info_inv p q → store_info (info_key_of key) value q = Some r → info_inv p r.
Proof.
  intros [Ho Hh] Hs. unfold info_key_of in Hs.
  destruct (find_first _ _) as [[x k]|] eqn:Ef; [|by injection Hs as <-].
  apply find_first_Some in Ef as [Hin _]. unfold info_keys in Hin.
  repeat (apply elem_of_cons in Hin as [Hin|Hin];
    [injection Hin as -> ->; cbn in Hs; try (apply bind_Some in Hs as (pd & _ & Hs));
     injection Hs as <-; by split|]).
  by apply not_elem_of_nil in Hin.
Qed.

Lemma parse_info_line_inv line p q r :
  info_inv p q → parse_info_line line q = Some r → info_inv p r.
Proof.
  intros Hi. unfold parse_info_line. destruct (_ || _); [by intros [= <-]|].
  destruct (split_info _) as [[key value]|]; [|by intros [= <-]]. by apply store_info_inv.
Qed.

Lemma parse_info_lines_inv fuel b p q r rc :
  info_inv p q → parse_info_lines fuel b q = Some (r, rc) → info_inv p r.
Proof.
  revert b q. induction fuel as [|fuel IH]; intros b q Hi; cbn [parse_info_lines]; [done|].
  destruct (alpm_archive_fgets b) as [line b'|ret]; [|by intros [= <- _]].
  destruct (parse_info_line line q) as [q'|] eqn:E; [|by intros [= <- _]].
  apply IH. by eapply parse_info_line_inv.
Qed.

(** ** Facts: the file list *)
Definition file_of (path : cstr) (entry : archive_entry) : alpm_file_t :=
  mk_file (if ae_dir entry && negb (is_dir_name path) then path ++ str "/" else path)
    (ae_size entry) (ae_mode entry).

Definition proper_entry (path : cstr) (entry : archive_entry) : Prop := ae_dir entry = true → path ≠ [].

Lemma greedy_grow_ge current required n : alpm_greedy_grow current required = Some n → required <= n.
Proof.
  unfold alpm_greedy_grow. destruct (_ <=? _) eqn:E; [intros [= <-]; lia|].
  destruct (_ <? required) eqn:E2; [done|]. intros [= <-]. lia.
Qed.

(** Adding to an array whose size is known. *)
Lemma add_entry_spec l entry path r :
  al_alloc l = al_size l → proper_entry path entry → add_entry_to_files_list l entry path = r →
  match r with
  | AddOk l' => al_files l' = al_files l ++ [file_of path entry] ∧ al_alloc l' = al_size l'
  | AddFailed => True
  | AddUB => False
  end.
Proof.
  intros Ha Hp <-. unfold add_entry_to_files_list.
  destruct (alpm_greedy_grow _ _) as [n|] eqn:Eg; [|done]. apply greedy_grow_ge in Eg. rewrite Ha.
  assert ((if n =? al_size l then al_size l else n) = n) as -> by (destruct (n =? al_size l) eqn:?; lia).
  rewrite (proj2 (Z.ltb_ge _ _)) by lia. unfold file_of, is_dir_name.
  destruct (ae_dir entry) eqn:Ed; [|done]. destruct (last path) as [c|] eqn:El.
  - cbn [andb]. by destruct (Ascii.eqb c "/"%char).
  - apply last_None in El. by destruct (Hp Ed).
Qed.

Lemma handle_simple_same pkg path :
  ∃ s, (handle_simple_path pkg path).1 = set_scriptlet pkg s.
Proof.
  unfold handle_simple_path. destruct (streq _ _); [by eexists|].
  destruct (Ascii.eqb _ _); exists (pkg_scriptlet pkg); by destruct pkg.
Qed.

Definition ordinary (path : cstr) : bool := negb (Ascii.eqb (hd_chr path) "."%char).

Lemma handle_simple_ordinary pkg path : (handle_simple_path pkg path).2 = negb (ordinary path).
Proof.
  unfold handle_simple_path, ordinary. destruct (streq path (str ".INSTALL")) eqn:E.
  - by apply streq_true in E as ->.
  - by destruct (Ascii.eqb _ _).
Qed.

(** The files that an mtree lists. *)
Definition mtree_list (entries : list archive_entry) : list alpm_file_t :=
  map (λ e, file_of (strip_dot (ae_path e)) e)
    (List.filter (λ e, ordinary (strip_dot (ae_path e))) entries).

Definition proper_entries (f : cstr → cstr) (entries : list archive_entry) : Prop :=
  Forall (λ e, proper_entry (f (ae_path e)) e) entries.

Lemma mtree_files_spec entries pkg l :
  al_alloc l = al_size l → proper_entries strip_dot entries →
  ∃ s r, mtree_files entries pkg l = Some (set_scriptlet pkg s, r) ∧
  ∀ l', r = Some l' → al_files l' = al_files l ++ mtree_list entries ∧ al_alloc l' = al_size l'.
Proof.
  intros Ha Hp. revert pkg l Ha. induction Hp as [|e entries He Hp IH]; intros pkg l Ha; cbn [mtree_files].
  { exists (pkg_scriptlet pkg), (Some l). split; [by destruct pkg|]. intros l' [= <-].
    cbn. by rewrite app_nil_r. }
  destruct (handle_simple_same pkg (strip_dot (ae_path e))) as [s Hs].
  pose proof (handle_simple_ordinary pkg (strip_dot (ae_path e))) as Ho.
  destruct (handle_simple_path pkg _) as [pkg1 handled]. cbn in Hs, Ho. subst.
  unfold mtree_list. cbn [List.filter]. destruct (ordinary (strip_dot (ae_path e))) eqn:Eo; cbn [negb].
  - destruct (add_entry_to_files_list l e _) as [l1| |] eqn:El.
    + pose proof (add_entry_spec _ _ _ _ Ha He El) as [Hf Ha1].
      destruct (IH (set_scriptlet pkg s) l1 Ha1) as (s' & r & Hr & Hl). exists s', r. split; [done|].
      intros l' Hl'. destruct (Hl l' Hl') as [Hf' Ha']. split; [|done]. rewrite Hf', Hf, <-app_assoc. done.
    + exists s, None. split; [done|]. intros ? [=].
    + by pose proof (add_entry_spec _ _ _ _ Ha He El).
  - destruct (IH (set_scriptlet pkg s) l Ha) as (s' & r & Hr & Hl). by exists s', r.
Qed.

(** ** Facts: loading *)
Section load_facts.
Context (mtree : cstr → list archive_entry * bool) (full : bool).

Definition is_info (e : archive_entry) : bool := streq (ae_path e) (str ".PKGINFO").
Definition is_mtree (e : archive_entry) : bool := streq (ae_path e) (str ".MTREE").

(** The files of the archive itself. *)
Definition archive_list (entries : list archive_entry) : list alpm_file_t :=
  map (λ e, file_of (ae_path e) e) (List.filter (λ e, ordinary (ae_path e)) entries).

(** The fields that loading keeps, and the hash of the name. *)
Record load_inv (p q : alpm_pkg_t) : Prop := {
  li_addr : pkg_addr q = pkg_addr p;
  li_filename : pkg_filename q = pkg_filename p;
  li_size : pkg_size q = pkg_size p;
  li_oldpkg : pkg_oldpkg q = pkg_oldpkg p;
  li_removes : pkg_removes q = pkg_removes p;
  li_hash : pkg_name_hash q = alpm_hash_sdbm (pkg_name q)
}.

(** What the loop ends with, when it ends the normal way. *)
Definition loaded (p : alpm_pkg_t) (files : list alpm_file_t) (r : option load_result) : Prop :=
  match r with
  | None => False
  | Some (LoadFail _) => True
  | Some (LoadRead _ pkg config) =>
      load_inv p pkg ∧ (config = true → info_usable pkg = true) ∧
      (full = true → pkg_files pkg = files)
  end.

Lemma load_inv_info p q r : load_inv p q → info_inv q r → load_inv p r ∧ pkg_files r = pkg_files q.
Proof.
  intros [] [Ho Hh]. unfold outside in Ho. injection Ho as ? ? ? ? ? ? ? ?. split; [split; congruence|done].
Qed.

Lemma load_inv_scriptlet p q s : load_inv p q → load_inv p (set_scriptlet q s).
Proof. intros []. by split. Qed.

Lemma load_inv_files p q l : load_inv p q → load_inv p (set_files q l).
Proof. intros []. by split. Qed.

Lemma streq_dot path s : streq path (str "." ++ s) = true → ordinary path = false.
Proof. by intros ->%streq_true. Qed.

(** .PKGINFO: it is refused, or the package is usable. *)
Lemma load_info p pkg data :
  load_inv p pkg →
  ∃ pkg1 r, parse_descfile data pkg = Some (pkg1, r) ∧ load_inv p pkg1 ∧ pkg_files pkg1 = pkg_files pkg.
Proof.
  intros Hi. destruct (parse_descfile_total data pkg) as [[pkg1 r] Hd]. exists pkg1, r. split; [done|].
  apply parse_info_lines_inv with (p := pkg) in Hd; [|split; [done|by destruct Hi]]. by eapply load_inv_info.
Qed.

(** The rest of an archive when files are not collected any more. *)
Lemma load_fixed entries ret h p pkg size alloc (config hit : bool) :
  (full = true → hit = true ∧ Forall (λ e, is_mtree e = false) entries) → load_inv p pkg →
  (config = true → info_usable pkg = true) →
  loaded p (pkg_files pkg) (load_entries mtree full entries ret h pkg size alloc config hit).
Proof.
  revert h pkg config. induction entries as [|e entries IH]; intros h pkg config Hm Hi Hc; cbn [load_entries].
  { by destruct (ret =? ARCHIVE_EOF). }
  assert (full && streq (ae_path e) (str ".MTREE") = false ∧ full && negb hit = false ∧
    (full = true → hit = true ∧ Forall (λ e, is_mtree e = false) entries)) as (Em & Eh & Hm').
  { destruct full; [|done]. destruct (Hm eq_refl) as [-> [H1 H2]%Forall_cons]. done. }
  destruct (streq (ae_path e) (str ".PKGINFO")).
  { destruct (load_info p pkg (ae_data e) Hi) as (pkg1 & r & -> & Hi1 & Hf1). cbn.
    destruct (info_usable pkg1) eqn:Eu; [|by rewrite orb_true_r]. destruct (negb (r =? 0)); [done|].
    cbn. rewrite <-Hf1. by apply IH. }
  rewrite Em, Eh. destruct (handle_simple_same pkg (ae_path e)) as [s Hs].
  destruct (handle_simple_path pkg _) as [pkg1 handled]. cbn in Hs. subst.
  assert (load_inv p (set_scriptlet pkg s)) as Hi1 by by apply load_inv_scriptlet.
  pose proof (IH h (set_scriptlet pkg s) config Hm' Hi1 Hc).
  destruct handled; [done|]. destruct (negb (ae_skip e)); [done|]. destruct (_ && config); done.
Qed.

(** The beginning of an archive when files are collected: the load fails, or
    goes on with the files so far. *)
Lemma load_collect pre rest ret h p pkg size (config : bool) :
  full = true → Forall (λ e, is_mtree e = false) pre → proper_entries id pre → load_inv p pkg →
  (config = true → info_usable pkg = true) →
  (∃ h', load_entries mtree full (pre ++ rest) ret h pkg size size config false = Some (LoadFail h')) ∨
  ∃ pkg' size' config', load_entries mtree full (pre ++ rest) ret h pkg size size config false =
      load_entries mtree full rest ret h pkg' size' size' config' false ∧ load_inv p pkg' ∧
    (config' = true → info_usable pkg' = true) ∧ pkg_files pkg' = pkg_files pkg ++ archive_list pre.
Proof.
  intros Hfull Hm Hp. revert pkg size config.
  induction pre as [|e pre IH]; intros pkg size config Hi Hc; cbn [app load_entries].
  { right. exists pkg, size, config. by rewrite app_nil_r. }
  apply Forall_cons in Hm as [Hme Hm], Hp as [Hpe Hp]. specialize (IH Hm Hp). unfold is_mtree in Hme.
  unfold archive_list. cbn [List.filter]. destruct (streq (ae_path e) (str ".PKGINFO")) eqn:Ei.
  { rewrite (streq_dot (ae_path e) (str "PKGINFO") Ei).
    destruct (load_info p pkg (ae_data e) Hi) as (pkg1 & r & -> & Hi1 & Hf1). cbn.
    destruct (info_usable pkg1) eqn:Eu; [|rewrite orb_true_r; left; by eexists].
    destruct (negb (r =? 0)); [left; by eexists|]. cbn. rewrite <-Hf1. by apply IH. }
  rewrite Hme, andb_false_r. destruct (handle_simple_same pkg (ae_path e)) as [s Hs].
  pose proof (handle_simple_ordinary pkg (ae_path e)) as Ho.
  destruct (handle_simple_path pkg _) as [pkg1 handled]. cbn in Hs, Ho. subst handled pkg1.
  assert (load_inv p (set_scriptlet pkg s)) as Hi1 by by apply load_inv_scriptlet.
  destruct (ordinary (ae_path e)) eqn:Eo; cbn [negb]; [|exact (IH (set_scriptlet pkg s) size config Hi1 Hc)].
  replace (full && true) with true by by rewrite Hfull.
  destruct (add_entry_to_files_list _ e _) as [l1| |] eqn:El; [|left; by eexists
    |by pose proof (add_entry_spec (mk_alloc _ size size) _ _ _ eq_refl Hpe El)].
  pose proof (add_entry_spec (mk_alloc _ size size) _ _ _ eq_refl Hpe El) as [Hf1 Ha1]. cbn [al_files] in Hf1.
  destruct (negb (ae_skip e)); [left; by eexists|].
  replace ((negb full || false) && config) with false by by rewrite Hfull.
  rewrite Ha1. destruct (IH (set_files (set_scriptlet pkg s) (al_files l1)) (al_size l1) config)
    as [?|(pkg' & size' & config' & -> & H1 & H2 & H3)]; [by apply load_inv_files|done|by left|].
  right. exists pkg', size', config'. split_and!; [done..|]. rewrite H3. cbn. by rewrite Hf1, <-app_assoc.
Qed.

(** The file list that a .MTREE gives. *)
Definition mtree_result (e : archive_entry) : option (list alpm_file_t) :=
  text ← read_data (ae_data e);
  '(_, l) ← mtree_files (mtree text).1 (alpm_pkg_new 0) (mk_alloc [] 0 0);
  l ← l;
  if (mtree text).2 then Some (al_files l) else None.

Definition mtree_proper : Prop := ∀ text, proper_entries strip_dot (mtree text).1.

Lemma mtree_files_pkg entries pkg pkg' l :
  snd <$> mtree_files entries pkg l = snd <$> mtree_files entries pkg' l.
Proof.
  revert pkg pkg' l. induction entries as [|e entries IH]; intros pkg pkg' l; cbn [mtree_files]; [done|].
  pose proof (handle_simple_ordinary pkg (strip_dot (ae_path e))) as H1.
  pose proof (handle_simple_ordinary pkg' (strip_dot (ae_path e))) as H2.
  destruct (handle_simple_path pkg _), (handle_simple_path pkg' _). cbn in H1, H2. subst.
  destruct (negb _); [apply IH|]. destruct (add_entry_to_files_list _ _ _); [apply IH|done..].
Qed.

Lemma build_spec h pkg e :
  mtree_proper → ∃ h' s r, build_filelist_from_mtree mtree h pkg (ae_data e) =
    Some (h', match mtree_result e with
              | Some l => set_files (set_scriptlet pkg s) l
              | None => set_scriptlet pkg s
              end, r) ∧ is_some r = is_some (mtree_result e).
Proof.
  intros Hp. unfold build_filelist_from_mtree, mtree_result.
  destruct (read_data (ae_data e)) as [text|]; cbn [mbind option_bind].
  2: { eexists _, (pkg_scriptlet pkg), None. split; [by destruct pkg|done]. }
  destruct (mtree text) as [entries ok] eqn:Em. cbn [fst snd].
  assert (proper_entries strip_dot entries) as Hpe by (specialize (Hp text); by rewrite Em in Hp).
  destruct (mtree_files_spec entries pkg (mk_alloc [] 0 0) eq_refl Hpe) as (s & r & Hr & _).
  pose proof (mtree_files_pkg entries pkg (alpm_pkg_new 0) (mk_alloc [] 0 0)) as Hs. rewrite Hr in Hs |- *.
  destruct (mtree_files entries (alpm_pkg_new 0) _) as [[q r']|]; [|done]. cbn in Hs. injection Hs as ->.
  cbn. destruct r' as [l|]; cbn; [|by eexists _, s, None]. destruct ok.
  - by eexists _, s, (Some _).
  - by eexists _, s, None.
Qed.

(** An archive with at most one .MTREE. *)
Definition file_list (entries : list archive_entry) : list alpm_file_t :=
  match find_first is_mtree entries with
  | Some e => match mtree_result e with Some l => l | None => archive_list entries end
  | None => archive_list entries
  end.

Definition one_mtree (entries : list archive_entry) : Prop :=
  (length (List.filter is_mtree entries) <= 1)%nat.

Lemma no_mtree entries :
  find_first is_mtree entries = None → Forall (λ e, is_mtree e = false) entries.
Proof. intros H. rewrite Forall_forall. intros e. by apply (proj1 (find_first_None _ _) H). Qed.

Lemma mtree_split entries e :
  one_mtree entries → find_first is_mtree entries = Some e →
  ∃ pre post, entries = pre ++ e :: post ∧ is_mtree e = true ∧
    Forall (λ e, is_mtree e = false) pre ∧ Forall (λ e, is_mtree e = false) post.
Proof.
  unfold one_mtree. induction entries as [|x entries IH]; intros Ho Hf; [done|]. cbn in Ho, Hf.
  destruct (is_mtree x) eqn:Ex.
  - injection Hf as ->. exists [], entries. split_and!; [done|done|constructor|].
    cbn in Ho. rewrite Forall_forall. intros y Hy. destruct (is_mtree y) eqn:Ey; [|done].
    assert (y ∈ List.filter is_mtree entries) as Hin
      by (apply list_elem_of_In, filter_In; by rewrite <-list_elem_of_In).
    destruct (List.filter is_mtree entries); [by apply not_elem_of_nil in Hin|cbn in Ho; lia].
  - destruct (IH Ho Hf) as (pre & post & -> & Hm & Hp & Hq). exists (x :: pre), post. by repeat constructor.
Qed.

Lemma archive_list_app l k : archive_list (l ++ k) = archive_list l ++ archive_list k.
Proof. unfold archive_list. by rewrite List.filter_app, map_app. Qed.

(** What remains after the files are collected: the end of the archive. *)
Lemma load_collect_end entries ret h p pkg size (config : bool) :
  full = true → Forall (λ e, is_mtree e = false) entries → proper_entries id entries → load_inv p pkg →
  (config = true → info_usable pkg = true) →
  loaded p (pkg_files pkg ++ archive_list entries)
    (load_entries mtree full entries ret h pkg size size config false).
Proof.
  intros Hf Hm Hp Hi Hc. rewrite <-(app_nil_r entries) at 2.
  destruct (load_collect entries [] ret h p pkg size config Hf Hm Hp Hi Hc)
    as [[h' ->]|(pkg' & size' & config' & -> & H1 & H2 & H3)]; [done|].
  cbn. by destruct (ret =? ARCHIVE_EOF).
Qed.

Lemma load_one entries ret h p pkg :
  one_mtree entries → proper_entries id entries → mtree_proper → load_inv p pkg → pkg_files pkg = [] →
  loaded p (file_list entries) (load_entries mtree full entries ret h pkg 0 0 false false).
Proof.
  intros Ho Hp Hm Hi H0. destruct full eqn:Ef.
  2: { pose proof (load_fixed entries ret h p pkg 0 0 false false) as H. rewrite Ef in H.
       specialize (H (λ e, False_ind _ (diff_false_true e)) Hi (λ e, False_ind _ (diff_false_true e))).
       unfold loaded in *. destruct (load_entries _ _ _ _ _ _ _ _ _ _) as [[]|]; naive_solver. }
  rewrite <-Ef. unfold file_list.
  destruct (find_first is_mtree entries) as [e|] eqn:Efind.
  2: { apply no_mtree in Efind. pose proof (load_collect_end entries ret h p pkg 0 false Ef Efind Hp Hi) as H.
       rewrite H0 in H. by apply H. }
  destruct (mtree_split _ _ Ho Efind) as (pre & post & -> & Hme & Hpre & Hpost).
  apply Forall_app in Hp as [Hp1 [_ Hp2]%Forall_cons].
  destruct (load_collect pre (e :: post) ret h p pkg 0 false Ef Hpre Hp1 Hi)
    as [[h' ->]|(pkg' & size' & config' & -> & H1 & H2 & H3)]; [done|done|].
  cbn [load_entries]. unfold is_mtree in Hme. rewrite Hme. replace (full && true) with true by by rewrite Ef.
  replace (streq (ae_path e) (str ".PKGINFO")) with false by by apply streq_true in Hme as ->.
  rewrite H0 in H3.
  destruct (build_spec h pkg' e Hm) as (h' & s & r & Hb & Hr). rewrite Hb. cbn.
  assert (load_inv p (set_scriptlet pkg' s)) as Hi1 by by apply load_inv_scriptlet.
  destruct (mtree_result e) as [l|] eqn:Er.
  - destruct r; [|done]. apply (load_fixed post ret h' p (set_files (set_scriptlet pkg' s) l)); [done| |done].
    by apply load_inv_files.
  - destruct r; [done|].
    pose proof (load_collect_end post ret h' p (set_scriptlet pkg' s) size' config' Ef Hpost Hp2 Hi1 H2) as H.
    cbn [pkg_files set_scriptlet] in H. rewrite H3 in H. rewrite archive_list_app. unfold archive_list at 2.
    cbn [List.filter]. by rewrite (streq_dot (ae_path e) (str "MTREE") Hme).
Qed.
End load_facts.

(** ** Facts: the lines of .PKGINFO *)

(** The loop over given lines; [ret] is what ends the reading. *)
Fixpoint info_lines (lines : list cstr) (ret : Z) (pkg : alpm_pkg_t) : alpm_pkg_t * Z :=
  match lines with
  | [] => (pkg, if ret =? ARCHIVE_EOF then 0 else -1)
  | line :: lines' => match parse_info_line line pkg with
                      | Some pkg => info_lines lines' ret pkg
                      | None => (pkg, -1)
                      end
  end.

Lemma parse_info_lines_fold fuel b pkg :
  (left_to_read b < fuel)%nat →
  parse_info_lines fuel b pkg = Some (info_lines (all_lines fuel b).1 (all_lines fuel b).2 pkg).
Proof.
  revert b pkg. induction fuel as [|fuel IH]; intros b pkg Hf; [lia|]. cbn [parse_info_lines all_lines].
  destruct (alpm_archive_fgets b) as [line b'|ret] eqn:E; [|done].
  apply archive_fgets_progress in E. specialize (IH b'). destruct (all_lines fuel b') as [ls ret].
  cbn [fst snd info_lines]. destruct (parse_info_line line pkg); [apply IH; lia|done].
Qed.

Lemma weight_blocks (bs : list cstr) : (length (concat bs) <= weight (map Block bs))%nat.
Proof.
  unfold weight. induction bs as [|d bs IH]; [done|]. cbn [map sum_list_with block_weight concat].
  rewrite length_app. lia.
Qed.

(** ** Theorems *)

(** Reading .PKGINFO: however the data comes in blocks, it is read line by line
    to its end, and the metadata is that of the lines between the newlines. *)
Lemma parse_descfile_lines (bs : list cstr) (pkg : alpm_pkg_t) :
  Forall (λ d, d ≠ []) bs → NUL ∉ concat bs →
  Forall (λ l, Z.of_nat (length l) < MAX_LINE) (split_lines (concat bs)) →
  parse_descfile (map Block bs) pkg = Some (info_lines (split_lines (concat bs)) ARCHIVE_EOF pkg).
Proof.
  intros Hne Hnul Hlen. unfold parse_descfile. rewrite parse_info_lines_fold by lia.
  rewrite (all_lines_spec _ (concat bs)); [done|by apply (reading_blocks bs)| |done].
  pose proof (weight_blocks bs). unfold left_to_read. cbn [open_buffer rb_rest rb_blocks rb_ret length].
  cbn. lia.
Qed.

(** C22. Loading a package file with at most one .MTREE, and no directory without a
    name, returns a package or an error. The package has a name with its hash, a
    version with a release, both accepted as metadata; its file name, size and
    origin are those of the file; and a full load has the files that the .MTREE
    lists, or those of the archive when there is none or it is damaged, sorted. *)
Theorem pkg_load_correct (fnmatch : cstr → cstr → bool) (mtree : cstr → list archive_entry * bool)
    (h : alpm_handle_t) (pkgfile : cstr) (full : bool) (addr : nat) (size ret : Z)
    (entries : list archive_entry) :
  one_mtree entries → proper_entries id entries → mtree_proper mtree →
  ∃ h' r, alpm_pkg_load_internal fnmatch mtree h pkgfile full addr (inl (size, (entries, ret))) = Some (h', r) ∧
  ∀ pkg, r = Some pkg →
    (pkg_name pkg ≠ [] ∧ pkg_name_hash pkg = alpm_hash_sdbm (pkg_name pkg) ∧ "-"%char ∈ pkg_version pkg ∧
     alpm_pkg_check_meta fnmatch (Some (pkg_name pkg)) (Some (pkg_version pkg)) = 0) ∧
    (pkg_filename pkg = Some pkgfile ∧ pkg_size pkg = size ∧
     pkg_origin pkg = ALPM_PKG_FROM_FILE (Some pkgfile)) ∧
    (full = true → pkg_files pkg = alpm_filelist_sort (file_list mtree entries) ∧
                   has_flag (pkg_infolevel pkg) INFRQ_FILES = true).
Proof.
  intros Ho Hp Hm. unfold alpm_pkg_load_internal. destruct pkgfile as [|c pkgfile]; [by eexists _, None|].
  set (p := set_size _ _).
  pose proof (load_one mtree full entries ret h p p Ho Hp Hm) as H.
  destruct (load_entries _ _ _ _ _ _ _ _ _ _) as [[h' pkg config|h']|];
    [|by eexists _, None|by destruct H].
  destruct H as ([_ Hfn Hsz _ _ Hh] & Hu & Hf); [by split|done|].
  destruct config; cbn [mbind option_bind negb]; [|by eexists _, None].
  destruct (negb _) eqn:Ec; [by eexists _, None|]. eexists _, (Some _). split; [done|]. intros ? [= <-].
  apply negb_false_iff, Z.eqb_eq in Ec. specialize (Hu eq_refl). unfold info_usable in Hu.
  repeat apply andb_prop in Hu as [Hu ?].
  assert (pkg_name pkg ≠ []) by by destruct (pkg_name pkg).
  assert ("-"%char ∈ pkg_version pkg).
  { destruct (split_first "-"%char (pkg_version pkg)) as [[a b]|] eqn:Es; [|done].
    apply split_first_Some in Es as [-> _]. set_solver. }
  split_and!; [by destruct full..|]. intros Hfull. subst full. cbn. by rewrite Hf.
Qed.

(** A package archive: the metadata in two blocks, the .MTREE, two files. *)
Definition ex_file (path : cstr) (data : cstr) : archive_entry :=
  mk_entry path false 3 0 [Block data] true.
Definition ex_info : archive_entry :=
  mk_entry (str ".PKGINFO") false 0 0
    [Block (str "pkgname = ab" ++ [newline] ++ str "pkgve"); Block (str "r = 1-2" ++ [newline] ++ str "depend = c>1")]
    true.
Definition ex_tree (text : cstr) : list archive_entry * bool :=
  ([ex_file (str "./.PKGINFO") []; mk_entry (str "./usr") true 0 0 [] true; ex_file (str "./usr/f") []],
   streq text (str "good")).
Definition ex_archive : list archive_entry :=
  [ex_info; ex_file (str ".MTREE") (str "good"); mk_entry (str "usr/") true 0 0 [] true; ex_file (str "usr/f") []].

Definition ex_load (entries : list archive_entry) : option (alpm_handle_t * option alpm_pkg_t) :=
  alpm_pkg_load_internal (λ _ _, false) ex_tree empty_handle (str "ab.pkg") true 7 (inl (99, (entries, ARCHIVE_EOF))).

Example pkg_load_example :
  match ex_load ex_archive with
  | Some (_, Some p) =>
      pkg_name p = str "ab" ∧ pkg_version p = str "1-2" ∧
      map alpm_dep_compute_string (pkg_depends p) = [str "c>1"] ∧
      map file_name (pkg_files p) = [str "usr/"; str "usr/f"]
  | _ => False
  end.
Proof. vm_compute. done. Qed.

Lemma pkg_load_correct_witness :
  ∃ h p, ex_load ex_archive = Some (h, Some p) ∧ pkg_name p ≠ [] ∧
         pkg_files p = alpm_filelist_sort (file_list ex_tree ex_archive).
Proof.
  assert (proper_entries id ex_archive) as Hp by by repeat constructor.
  assert (mtree_proper ex_tree) as Hm by (intros text; by repeat constructor).
  destruct (pkg_load_correct (λ _ _, false) ex_tree empty_handle (str "ab.pkg") true 7 99 ARCHIVE_EOF
    ex_archive) as (h & r & Hr & Hpkg); [vm_compute; lia|done|done|].
  destruct r as [p|]; [|exfalso; vm_compute in Hr; discriminate].
  destruct (Hpkg p eq_refl) as ((Hn & _) & _ & Hf). exists h, p. split_and!; [exact Hr|exact Hn|].
  by apply Hf.
Defined.

(** When a damaged .MTREE comes after a good one, files_size still has the size
    of the list that the first one replaced: files are added to the new array as
    if it had that size, and written behind its end. *)
Example stale_files_size :
  ex_load ([ex_file (str "a") []; ex_file (str "b") []; ex_file (str "c") []; ex_file (str "d") [];
            ex_file (str ".MTREE") (str "good"); ex_file (str ".MTREE") (str "bad"); ex_file (str "e") []]) = None.
Proof. vm_compute. reflexivity. Qed.

(** ** _alpm_pkg_validate_internal *)
Definition ALPM_SIG_PACKAGE := Z.shiftl 1 0.
Definition ALPM_SIG_PACKAGE_OPTIONAL := Z.shiftl 1 1.
Definition ALPM_SIG_PACKAGE_MARGINAL_OK := Z.shiftl 1 2.
Definition ALPM_SIG_PACKAGE_UNKNOWN_OK := Z.shiftl 1 3.

(** What access says of a file that cannot be read. *)
Inductive access_error := NoEntry | NoAccess | OtherAccess.

Definition open_errno (e : access_error) : alpm_errno_t :=
  match e with
  | NoEntry => ALPM_ERR_PKG_NOT_FOUND
  | NoAccess => ALPM_ERR_BADPERMS
  | OtherAccess => ALPM_ERR_PKG_OPEN
  end.

(** The state of GPGME, the errno that is left, the result, and *validation. *)
Record validated (K : Type) := mk_validated {
  v_state : pgp_state K;
  v_errno : alpm_errno_t;
  v_ret : Z;
  v_validation : Z;
  v_sigdata : list alpm_sigresult_t
}.
Arguments mk_validated {K}. Arguments v_state {K}. Arguments v_errno {K}. Arguments v_ret {K}.
Arguments v_validation {K}. Arguments v_sigdata {K}.

Section validate.
Context {K : Type} (g : gpg_env K).
Context (access : cstr → option access_error).       (* faccessat with R_OK *)
Context (sha256sum : cstr → option cstr).            (* alpm_compute_sha256sum of a file *)

(** _alpm_test_checksum for SHA-256 *)
Definition alpm_test_checksum (filepath : cstr) (expected : cstr) : Z :=
  match sha256sum filepath with
  | None => -1
  | Some computed => if streq expected computed then 0 else 1
  end.

(** A signature is there to be checked. *)
Definition has_signature (pkgfile : cstr) (syncpkg : option alpm_pkg_t) (level : Z) : bool :=
  has_flag level ALPM_SIG_PACKAGE
  && (is_some (syncpkg ≫= pkg_base64_sig) || negb (is_some (access (alpm_sigpath pkgfile)))).

(** The checksum that has to be compared, if any. *)
Definition expected_checksum (pkgfile : cstr) (syncpkg : option alpm_pkg_t) (level : Z) : option cstr :=
  if negb (has_signature pkgfile syncpkg level) || negb (is_some (syncpkg ≫= pkg_base64_sig))
  then syncpkg ≫= pkg_sha256sum else None.

Definition check_signature (gpgdir pkgfile : cstr) (syncpkg : option alpm_pkg_t) (level : Z)
    (st : pgp_state K) : sig_outcome :=
  alpm_check_pgp_helper g gpgdir pkgfile (syncpkg ≫= pkg_base64_sig) (has_flag level ALPM_SIG_PACKAGE_OPTIONAL)
    (has_flag level ALPM_SIG_PACKAGE_MARGINAL_OK) (has_flag level ALPM_SIG_PACKAGE_UNKNOWN_OK) st.

Definition alpm_pkg_validate_internal (gpgdir pkgfile : cstr) (syncpkg : option alpm_pkg_t) (level : Z)
    (validation : Z) (st : pgp_state K) : validated K :=
  let fail st e := mk_validated st e (-1) validation [] in
  match pkgfile with
  | [] => fail st ALPM_ERR_WRONG_ARGS
  | _ =>
      match access pkgfile with
      | Some e => fail st (open_errno e)
      | None =>
          let has_sig := has_signature pkgfile syncpkg level in
          let expected := expected_checksum pkgfile syncpkg level in
          if match expected with
             | Some sum => negb (alpm_test_checksum pkgfile sum =? 0)
             | None => false
             end
          then fail st ALPM_ERR_PKG_INVALID_CHECKSUM
          else
            let validation := match expected with
                              | Some _ => Z.lor validation ALPM_PKG_VALIDATION_SHA256SUM
                              | None => validation
                              end in
            let finish st e validation results :=
              mk_validated st e 0 (if validation =? 0 then ALPM_PKG_VALIDATION_NONE else validation) results in
            if has_flag level ALPM_SIG_PACKAGE then
              if negb has_sig && negb (has_flag level ALPM_SIG_PACKAGE_OPTIONAL)
              then mk_validated st ALPM_ERR_PKG_MISSING_SIG (-1) validation []
              else
                let r := check_signature gpgdir pkgfile syncpkg level st in
                if negb (so_ret r =? 0)
                then mk_validated (so_state r) ALPM_ERR_PKG_INVALID_SIG (-1) validation (so_results r)
                else finish (so_state r) (match so_errno r with Some e => e | None => ALPM_ERR_OK end)
                       (if has_sig then Z.lor validation ALPM_PKG_VALIDATION_SIGNATURE else validation)
                       (so_results r)
            else finish st ALPM_ERR_OK validation []
      end
  end.

(** ** alpm_pkg_load *)
Definition MAX_SIGFILE_SIZE : Z := 16384.

(** [content] is what the file has, [None] when it cannot be opened; [None] is
    the result -1, also for an empty file. *)
Definition read_sigfile (content : option cstr) : option cstr :=
  sig ← content;
  if (MAX_SIGFILE_SIZE <? Z.of_nat (length sig)) || bool_decide (sig = []) then None else Some sig.

(** The loop over the key ids: whether an import failed. [None]: see
    [alpm_key_import]. *)
Fixpoint import_missing (gpgdir : cstr) (keys : list cstr) (fail : bool) (st : pgp_state K)
    : option (pgp_state K * bool) :=
  match keys with
  | [] => Some (st, fail)
  | key :: keys' =>
      let '(st, known) := alpm_key_in_keychain g gpgdir key st in
      if known =? 0 then
        '(st, ret) ← alpm_key_import g gpgdir None (Some key) st;
        import_missing gpgdir keys' (fail || (ret =? -1)) st
      else import_missing gpgdir keys' fail st
  end.

(** The keys of the signature file that is next to the package; the flag is
    false for return -1. [None]: the reading of the signature does not end. *)
Definition fetch_keys (fuel : nat) (gpgdir filename : cstr) (level : Z) (content : option cstr)
    (st : pgp_state K) : option (pgp_state K * bool) :=
  if negb (is_some (access (alpm_sigpath filename))) && has_flag level ALPM_SIG_PACKAGE then
    match read_sigfile content with
    | None => Some (st, false)
    | Some sig =>
        '(keys, r) ← alpm_extract_keyid fuel sig (Z.of_nat (length sig)) [];
        match r with
        | inl OutOfBounds => None
        | inl FormatError => Some (st, true)
        | inr _ => '(st, fail) ← import_missing gpgdir keys false st; Some (st, negb fail)
        end
    end
  else Some (st, true).

(** The package, or [None] for -1. The errno that looking for keys leaves is not
    followed: validation starts with none. *)
Definition alpm_pkg_load (fnmatch : cstr → cstr → bool) (mtree : cstr → list archive_entry * bool) (fuel : nat)
    (h : alpm_handle_t) (gpgdir filename : cstr) (full : bool) (level : Z) (content : option cstr) (addr : nat)
    (file : package_file) (st : pgp_state K) : option (alpm_handle_t * pgp_state K * option alpm_pkg_t) :=
  '(st, ok) ← fetch_keys fuel gpgdir filename level content st;
  if negb ok then Some (h, st, None)
  else
    let r := alpm_pkg_validate_internal gpgdir filename None level 0 st in
    let h := set_errno (v_errno r) h in
    if v_ret r =? -1 then Some (h, v_state r, None)
    else
      match alpm_pkg_load_internal fnmatch mtree h filename full addr file with
      | None => None
      | Some (h, None) => Some (h, v_state r, None)
      | Some (h, Some p) => Some (h, v_state r, Some (set_validation p (v_validation r)))
      end.
End validate.

Lemma test_checksum_ok sha256sum path sum :
  alpm_test_checksum sha256sum path sum = 0 → sha256sum path = Some sum.
Proof.
  unfold alpm_test_checksum. destruct (sha256sum path) as [c|]; [|done].
  destruct (streq sum c) eqn:E; [|done]. by apply streq_true in E as ->.
Qed.

(** A successful validation: the checks that were made, and what is recorded. *)
Lemma validate_ok {K} (g : gpg_env K) access sha256sum gpgdir pkgfile syncpkg level st :
  v_ret (alpm_pkg_validate_internal g access sha256sum gpgdir pkgfile syncpkg level 0 st) = 0 →
  let expected := expected_checksum access pkgfile syncpkg level in
  let has_sig := has_signature access pkgfile syncpkg level in
  (∀ sum, expected = Some sum → sha256sum pkgfile = Some sum) ∧
  (has_flag level ALPM_SIG_PACKAGE = true →
     (has_sig || has_flag level ALPM_SIG_PACKAGE_OPTIONAL = true) ∧
     so_ret (check_signature g gpgdir pkgfile syncpkg level st) = 0) ∧
  v_validation (alpm_pkg_validate_internal g access sha256sum gpgdir pkgfile syncpkg level 0 st) =
    let v := Z.lor (if is_some expected then ALPM_PKG_VALIDATION_SHA256SUM else 0)
                   (if has_sig then ALPM_PKG_VALIDATION_SIGNATURE else 0) in
    if v =? 0 then ALPM_PKG_VALIDATION_NONE else v.
Proof.
  unfold alpm_pkg_validate_internal. destruct pkgfile as [|c pkgfile]; [done|].
  set (path := c :: pkgfile). destruct (access path); [done|].
  set (expected := expected_checksum _ _ _ _). set (has_sig := has_signature _ _ _ _).
  destruct (match expected with Some sum => _ | None => false end) eqn:Ec; [done|].
  assert (∀ sum, expected = Some sum → sha256sum path = Some sum) as Hs.
  { intros sum ->. apply test_checksum_ok. apply negb_false_iff, Z.eqb_eq in Ec. done. }
  destruct (has_flag level ALPM_SIG_PACKAGE) eqn:Ep.
  - destruct (negb has_sig && _) eqn:Em; [done|]. destruct (negb (so_ret _ =? 0)) eqn:Er; [done|].
    apply negb_false_iff, Z.eqb_eq in Er. intros _. split_and!; [done| |].
    + intros _. split; [|done]. by destruct has_sig, (has_flag level ALPM_SIG_PACKAGE_OPTIONAL).
    + cbn [v_validation]. by destruct expected, has_sig.
  - intros _. split_and!; [done|done|]. cbn [v_validation]. unfold has_sig, has_signature. rewrite Ep.
    by destruct expected.
Qed.

(** GPGME was given no signature: none in the database and none beside the file,
    or data in which it finds none. *)
Definition no_signature {K} (g : gpg_env K) (path : cstr) (base64_sig : option cstr) (ring : K) : Prop :=
  base64_sig = None ∧ g_readable g (alpm_sigpath path) = false ∨
  ∃ source, signature_source path base64_sig = Some source ∧ g_verify g ring source path = (GPG_ERR_NO_ERROR, []).

Lemma checksig_missing {K} (g : gpg_env K) gpgdir path base64_sig st :
  let r := alpm_gpgme_checksig g gpgdir path base64_sig st in
  so_ret r = -1 → so_errno r = Some ALPM_ERR_SIG_MISSING → no_signature g path base64_sig (ps_ring st).
Proof.
  unfold alpm_gpgme_checksig, no_signature. destruct (g_readable g path); [|done]. cbn [negb].
  destruct (negb (is_some base64_sig) && _) eqn:Es.
  { apply andb_true_iff in Es as [E1 E2]. intros _ _. left. destruct base64_sig; [done|].
    split; [done|]. by apply negb_true_iff. }
  pose proof (init_spec g gpgdir st) as (Hr & _ & _). destruct (init_gpgme g gpgdir st) as [[st1 e] []]; [|done].
  cbn in Hr. destruct (g_open g); [|done]. cbn [negb]. destruct (signature_source path base64_sig) as [source|]; [|done].
  rewrite Hr. destruct (g_verify g (ps_ring st) source path) as [code signatures] eqn:Ev.
  destruct code; try done. cbn [is_no_error negb]. destruct signatures as [|s l]; [intros _ _; right; by exists source|].
  rewrite bool_decide_false by done. destruct (collect_results _ _ _) as [results []]; cbn; congruence.
Qed.

(** C10. A package file that passes validation. At a level that checks the
    signatures of packages, GPGME has verified the file and every signature in it
    with the trust asked for, or the level is optional and GPGME was given no
    signature: none in the database or beside the file, or data in which it found
    none. The SHA-256 sum of the database is that of the file at a level without
    signatures, or when the database has no signature data; with signature data
    it is not compared, even when these turn out to have no signature. The
    validation records the checksum exactly when it was compared, and a signature
    exactly when there was one to check: data in the database, or a readable file
    beside the package. *)
Theorem pkg_validate_sound {K} (g : gpg_env K) (access : cstr → option access_error)
    (sha256sum : cstr → option cstr) (gpgdir pkgfile : cstr) (syncpkg : option alpm_pkg_t) (level : Z)
    (st : pgp_state K) :
  let r := alpm_pkg_validate_internal g access sha256sum gpgdir pkgfile syncpkg level 0 st in
  let sig := syncpkg ≫= pkg_base64_sig in
  v_ret r = 0 →
  (has_flag level ALPM_SIG_PACKAGE = true →
   verified g (has_flag level ALPM_SIG_PACKAGE_MARGINAL_OK) (has_flag level ALPM_SIG_PACKAGE_UNKNOWN_OK)
     pkgfile sig (ps_ring st) ∨
   has_flag level ALPM_SIG_PACKAGE_OPTIONAL = true ∧ no_signature g pkgfile sig (ps_ring st)) ∧
  (∀ p sum, syncpkg = Some p → pkg_sha256sum p = Some sum →
   has_flag level ALPM_SIG_PACKAGE = false ∨ pkg_base64_sig p = None → sha256sum pkgfile = Some sum) ∧
  (has_flag (v_validation r) ALPM_PKG_VALIDATION_SHA256SUM = true ↔
   ∃ p, syncpkg = Some p ∧ is_Some (pkg_sha256sum p) ∧
        (has_flag level ALPM_SIG_PACKAGE = false ∨ pkg_base64_sig p = None)) ∧
  (has_flag (v_validation r) ALPM_PKG_VALIDATION_SIGNATURE = true ↔
   has_flag level ALPM_SIG_PACKAGE = true ∧ (is_Some sig ∨ access (alpm_sigpath pkgfile) = None)).
Proof.
  intros r sig Hr. destruct (validate_ok g access sha256sum gpgdir pkgfile syncpkg level st Hr) as (Hs & Hp & Hv).
  assert (has_flag (v_validation r) ALPM_PKG_VALIDATION_SHA256SUM = is_some (expected_checksum access pkgfile syncpkg level) ∧
    has_flag (v_validation r) ALPM_PKG_VALIDATION_SIGNATURE = has_signature access pkgfile syncpkg level) as [-> ->].
  { unfold r. rewrite Hv. by destruct (is_some (expected_checksum access pkgfile syncpkg level)), (has_signature _ _ _ _). }
  split_and!.
  - intros Ep. destruct (Hp Ep) as [_ Hc]. apply pgp_helper_spec in Hc as [[_ ?]|(? & H1 & H2)]; [by left|right].
    split; [done|]. by apply checksig_missing with (gpgdir := gpgdir).
  - intros p sum -> Hsum Hn. apply Hs. unfold expected_checksum, has_signature. cbn [mbind option_bind].
    destruct Hn as [-> | ->]; cbn; [done|]. by rewrite orb_true_r.
  - unfold expected_checksum, has_signature. rewrite is_some_true. destruct syncpkg as [p|]; cbn [mbind option_bind].
    + destruct (has_flag level ALPM_SIG_PACKAGE), (pkg_base64_sig p) as [s|] eqn:Eb; cbn; rewrite ?orb_true_r; cbn;
        (split; [intros Hx; try (by destruct Hx); exists p; auto|intros (q & [= <-] & Hx & [?|?]); congruence]).
    + split; [intros [? Hx]|by intros (? & ? & _)]. exfalso. revert Hx. by case_if.
  - unfold has_signature, sig. rewrite andb_true_iff, orb_true_iff, is_some_true.
    destruct (access (alpm_sigpath pkgfile)); cbn; naive_solver.
Qed.

(** A package of a sync database with a checksum and a signature, and a file
    with another checksum. *)
Definition ex_sync : alpm_pkg_t :=
  set_base64_sig (set_sha256sum (alpm_pkg_new 3) (Some (str "0a1b"))) (Some (str "aGVsbG8=")).
Definition ex_validate (g : gpg_env (list cstr)) (sync : alpm_pkg_t) (sum : cstr) (level : Z) : validated (list cstr) :=
  alpm_pkg_validate_internal g (λ _, None) (λ _, Some sum) (str "/g/") (str "p") (Some sync) level 0
    (mk_pgp [str "F1"] [] false).

Lemma pkg_validate_sound_witness :
  let r := ex_validate (ex_gpg false) ex_sync (str "other") ALPM_SIG_PACKAGE in
  v_ret r = 0 ∧ verified (ex_gpg false) false false (str "p") (Some (str "aGVsbG8=")) [str "F1"] ∧
  has_flag (v_validation r) ALPM_PKG_VALIDATION_SIGNATURE = true.
Proof.
  assert (v_ret (ex_validate (ex_gpg false) ex_sync (str "other") ALPM_SIG_PACKAGE) = 0) as H
    by (vm_compute; reflexivity).
  destruct (pkg_validate_sound (ex_gpg false) (λ _, None) (λ _, Some (str "other")) (str "/g/") (str "p")
    (Some ex_sync) ALPM_SIG_PACKAGE (mk_pgp [str "F1"] [] false) H) as (H1 & _ & _ & H3).
  split; [exact H|]. split.
  - destruct (H1 eq_refl) as [Hv|[Ho _]]; [exact Hv|discriminate Ho].
  - apply H3. split; [reflexivity|]. left. by eexists.
Defined.

Example validate_example :
  let unsigned := set_base64_sig ex_sync None in
  v_ret (ex_validate (ex_gpg false) unsigned (str "0a1b") 0) = 0 ∧
  v_errno (ex_validate (ex_gpg false) unsigned (str "other") 0) = ALPM_ERR_PKG_INVALID_CHECKSUM ∧
  v_errno (ex_validate ex_broken ex_sync (str "0a1b") ALPM_SIG_PACKAGE) = ALPM_ERR_PKG_INVALID_SIG.
Proof. vm_compute. done. Qed.

(** Where signatures are optional: when GPGME finds no signature in the data of
    the database, the file is accepted although its checksum, which is not
    compared, is another one; the signature is recorded as checked. *)
Example optional_signature_skips_checksum :
  let g := {| g_readable := λ _, true; g_writable := λ _, true; g_engine := true; g_open := true;
              g_verify := λ _ _ _, (GPG_ERR_NO_ERROR, []); g_get_key := λ _ _, inl GPG_ERR_EOF;
              g_locate := λ ring _, (ring, false); g_search := λ _ _, inl GPG_ERR_EOF;
              g_import := λ ring _, (ring, false); g_question_import := λ _ _, false |} in
  let r := ex_validate g ex_sync (str "other") (Z.lor ALPM_SIG_PACKAGE ALPM_SIG_PACKAGE_OPTIONAL) in
  v_ret r = 0 ∧ v_validation r = ALPM_PKG_VALIDATION_SIGNATURE.
Proof. vm_compute. done. Qed.

Lemma validate_ret {K} (g : gpg_env K) access sha256sum gpgdir pkgfile syncpkg level st :
  let r := v_ret (alpm_pkg_validate_internal g access sha256sum gpgdir pkgfile syncpkg level 0 st) in r = 0 ∨ r = -1.
Proof.
  unfold alpm_pkg_validate_internal. destruct pkgfile; [by right|]. repeat case_if; auto.
Qed.

(** A package that alpm_pkg_load returns was validated, with the keys that were
    fetched before, and is what was loaded. *)
Lemma pkg_load_validated {K} (g : gpg_env K) access sha256sum fnmatch mtree fuel h gpgdir filename full level content
    addr file st h' st' pkg :
  alpm_pkg_load g access sha256sum fnmatch mtree fuel h gpgdir filename full level content addr file st =
    Some (h', st', Some pkg) →
  ∃ st1 p h1, fetch_keys g access fuel gpgdir filename level content st = Some (st1, true) ∧
    let r := alpm_pkg_validate_internal g access sha256sum gpgdir filename None level 0 st1 in
    v_ret r = 0 ∧ alpm_pkg_load_internal fnmatch mtree h1 filename full addr file = Some (h', Some p) ∧
    pkg = set_validation p (v_validation r).
Proof.
  unfold alpm_pkg_load. destruct (fetch_keys _ _ _ _ _ _ _ _) as [[st1 []]|]; [|done..].
  cbn [mbind option_bind negb]. pose proof (validate_ret g access sha256sum gpgdir filename None level st1) as Hr.
  cbn in Hr. destruct Hr as [Hr|Hr]; rewrite Hr; [|done]. cbn [Z.eqb].
  set (h1 := set_errno _ h). destruct (alpm_pkg_load_internal fnmatch mtree h1 filename full addr file)
    as [[h2 [p|]]|] eqn:E; [|done..]. intros [= <- _ <-]. by exists st1, p, h1.
Qed.
