(* ===== verification/SyncDb.v ===== *)
(** * Sync databases

    lib/libalpm/be_sync.c: reading a sync database, an archive of directories
    with the files desc, depends and files of every package. The data of an entry
    comes in blocks and is read by lines ([ArchiveIO]); a pointer into the line
    buffer is the number of reallocations at the time it was taken, and reading
    through it after another one is undefined behaviour. A package of the cache is
    shared: filling in its fields changes the table and the list. *)
From S2P Require Import Prelude CString AlpmList Util Package PkgHash PkgSet Handle Deps FileList Db.
From S2P Require Import FileOps LocalDb LocalDir ArchiveIO PkgFile.
Local Open Scope Z_scope.

(** ** Validation *)
Definition sync_get_validation (pkg : alpm_pkg_t) : alpm_pkg_t * Z :=
  if negb (pkg_validation pkg =? 0) then (pkg, pkg_validation pkg)
  else
    let v := Z.lor (if is_some (pkg_sha256sum pkg) then ALPM_PKG_VALIDATION_SHA256SUM else 0)
                   (if is_some (pkg_base64_sig pkg) then ALPM_PKG_VALIDATION_SIGNATURE else 0) in
    let v := if v =? 0 then ALPM_PKG_VALIDATION_NONE else v in
    (set_validation pkg v, v).

Definition PATH_MAX : Z := 4096.

(** 0 or -1 *)
Definition alpm_validate_filename (filename : cstr) : Z :=
  if Ascii.eqb (hd_chr filename) "."%char then -1
  else if existsb is_slash filename then -1
  else if PATH_MAX <? Z.of_nat (length filename) then -1
  else 0.

(** ** sync_db_read: the lines of an entry *)

(** What is done with the lines after a key. *)
Inductive sync_key :=
  | SCheck                                                    (* read, compared at most *)
  | SFilename
  | SText (set : alpm_pkg_t → option cstr → alpm_pkg_t)       (* READ_AND_STORE *)
  | SDate
  | SSize (set : alpm_pkg_t → Z → alpm_pkg_t)
  | SLines (get : alpm_pkg_t → list cstr) (set : alpm_pkg_t → list cstr → alpm_pkg_t)
  | SDeps (get : alpm_pkg_t → list alpm_depend_t)
      (set : alpm_pkg_t → list alpm_depend_t → alpm_pkg_t)    (* READ_AND_SPLITDEP *)
  | SFiles
  | SXdata
  | SUnknown.

Definition sync_keys : list (cstr * sync_key) :=
  [(str "%NAME%", SCheck); (str "%VERSION%", SCheck); (str "%FILENAME%", SFilename);
   (str "%BASE%", SText set_base); (str "%DESC%", SText set_desc);
   (str "%GROUPS%", SLines pkg_groups set_groups); (str "%URL%", SText set_url);
   (str "%LICENSE%", SLines pkg_licenses set_licenses); (str "%ARCH%", SText set_arch);
   (str "%BUILDDATE%", SDate); (str "%PACKAGER%", SText set_packager);
   (str "%CSIZE%", SSize set_size); (str "%ISIZE%", SSize set_isize); (str "%MD5SUM%", SCheck);
   (str "%SHA256SUM%", SText set_sha256sum); (str "%PGPSIG%", SText set_base64_sig);
   (str "%REPLACES%", SDeps pkg_replaces set_replaces); (str "%DEPENDS%", SDeps pkg_depends set_depends);
   (str "%OPTDEPENDS%", SDeps pkg_optdepends set_optdepends);
   (str "%MAKEDEPENDS%", SDeps pkg_makedepends set_makedepends);
   (str "%CHECKDEPENDS%", SDeps pkg_checkdepends set_checkdepends);
   (str "%CONFLICTS%", SDeps pkg_conflicts set_conflicts);
   (str "%PROVIDES%", SDeps pkg_provides set_provides);
   (str "%FILES%", SFiles); (str "%DATA%", SXdata)].

Definition sync_key_of (line : cstr) : sync_key :=
  match find_first (λ e, streq line e.1) sync_keys with Some (_, k) => k | None => SUnknown end.

(** READ_NEXT: the line; [None] is the jump to error. *)
Definition sync_next (b : read_buffer) : option (cstr * read_buffer) :=
  match alpm_archive_fgets b with
  | FLine l b => Some (c_string (stripped l), b)
  | FEnd _ => None
  end.

(** The lines up to an empty one: how the loop ends. *)
Inductive list_end :=
  | ListDone (b : read_buffer)
  | ListError
  | ListUB.

(** The loops of READ_AND_STORE_ALL, READ_AND_SPLITDEP and %FILES%. With [line],
    the pointer of a dependency list, the lines are read through it. *)
Fixpoint sync_list (fuel : nat) (line : option nat) (b : read_buffer) : list cstr * list_end :=
  match fuel with
  | O => ([], ListError)
  | S fuel' =>
      match alpm_archive_fgets b with
      | FEnd _ => ([], ListError)
      | FLine l b =>
          match stripped l with
          | [] => ([], ListDone b)
          | s => if match line with Some m => negb (m =? rb_moved b)%nat | None => false end
                 then ([], ListUB)
                 else let '(lines, e) := sync_list fuel' line b in (c_string s :: lines, e)
          end
      end
  end.

Definition sync_all (line : option nat) (b : read_buffer) : list cstr * list_end :=
  sync_list (S (left_to_read b)) line b.

Inductive read_result :=
  | ReadOk (pkg : alpm_pkg_t)
  | ReadErr (pkg : alpm_pkg_t)
  | ReadUB.

Definition after_list (e : list_end) (pkg : alpm_pkg_t) : read_result + read_buffer * alpm_pkg_t :=
  match e with
  | ListDone b => inr (b, pkg)
  | ListError => inl (ReadErr pkg)
  | ListUB => inl ReadUB
  end.

(** What a key does; [b] is the buffer after its line. *)
Definition read_sync_key (k : sync_key) (b : read_buffer) (pkg : alpm_pkg_t)
    : read_result + read_buffer * alpm_pkg_t :=
  let next f := match sync_next b with
                | Some (line, b) => f line b
                | None => inl (ReadErr pkg)
                end in
  match k with
  | SCheck => next (λ _ b, inr (b, pkg))
  | SFilename => next (λ line b, let pkg := set_filename pkg (Some line) in
                                 if alpm_validate_filename line <? 0 then inl (ReadErr pkg) else inr (b, pkg))
  | SText set => next (λ line b, inr (b, set pkg (Some line)))
  | SDate => next (λ line b, inr (b, set_builddate pkg (alpm_parsedate line)))
  | SSize set => next (λ line b, inr (b, set pkg (alpm_strtoofft line)))
  | SLines get set => let '(l, e) := sync_all None b in after_list e (set pkg (get pkg ++ l))
  | SDeps get set => let '(l, e) := sync_all (Some (rb_moved b)) b in
                     after_list e (set pkg (get pkg ++ map alpm_dep_from_string l))
  | SFiles => let '(l, e) := sync_all None b in
              match e with
              | ListDone b => inr (b, set_files pkg (alpm_filelist_sort (map new_file l)))
              | ListError => inl (ReadErr pkg)
              | ListUB => inl ReadUB
              end
  | SXdata => let '(l, e) := sync_all None b in
              match e with
              | ListDone b => let '(pkg, ok) := read_xdata l pkg in
                              if ok : bool then inr (b, pkg) else inl (ReadErr pkg)
              | ListError => inl (ReadErr pkg)
              | ListUB => inl ReadUB
              end
  | SUnknown => let '(_, e) := sync_all None b in after_list e pkg
  end.

(** The loop over the lines. *)
Fixpoint read_sync_lines (fuel : nat) (b : read_buffer) (pkg : alpm_pkg_t) : read_result :=
  match fuel with
  | O => ReadErr pkg
  | S fuel' =>
      match alpm_archive_fgets b with
      | FEnd ret => if ret =? ARCHIVE_EOF then ReadOk pkg else ReadErr pkg
      | FLine l b =>
          match stripped l with
          | [] => read_sync_lines fuel' b pkg
          | s => match read_sync_key (sync_key_of (c_string s)) b pkg with
                 | inl r => r
                 | inr (b, pkg) => read_sync_lines fuel' b pkg
                 end
          end
      end
  end.

Definition read_sync_entry (data : list block_result) (pkg : alpm_pkg_t) : read_result :=
  let b := open_buffer MAX_LINE data in read_sync_lines (S (left_to_read b)) b pkg.

(** ** The package of an entry *)

(** A package of the cache is filled in. *)
Definition replace_pkg (p q : alpm_pkg_t) : alpm_pkg_t := if (pkg_addr q =? pkg_addr p)%nat then p else q.
Definition pkghash_update (p : alpm_pkg_t) (hash : alpm_pkghash_t) : alpm_pkghash_t :=
  mk_pkghash (map (λ o, match o with Some q => Some (replace_pkg p q) | None => None end) (hash_table hash))
    (map (replace_pkg p) (hash_list hash)) (buckets hash) (entries hash) (limit hash).

(** *entry_filename *)
Definition entry_filename (entryname : cstr) : option cstr :=
  match split_last "/"%char entryname with Some (_, f) => Some f | None => None end.

Inductive entry_result :=
  | EntryPkg (pkg : alpm_pkg_t) (hash : alpm_pkghash_t) (next : nat)
  | EntryNone (e : option alpm_errno_t) (next : nat)
  | EntryUB.

Section sync_db.
Context (fnmatch : cstr → cstr → bool).

Definition new_entry (addr : nat) (treename name version : cstr) (name_hash : Z) : alpm_pkg_t :=
  set_origin (set_name_hash (set_version (set_name (alpm_pkg_new addr) name) version) name_hash)
    (ALPM_PKG_FROM_SYNCDB treename).

(** [likely_pkg] is the package of the entry before, as it is now. *)
Definition load_pkg_for_entry (treename : cstr) (hash : alpm_pkghash_t) (entryname : cstr)
    (likely_pkg : option alpm_pkg_t) (next : nat) : entry_result :=
  match alpm_splitname entryname with
  | SplitUB => EntryUB
  | SplitErr => EntryNone None next
  | SplitOk name version name_hash =>
      let found := match likely_pkg with
                   | Some p => if (name_hash =? pkg_name_hash p) && streq (pkg_name p) name
                               then Some (Some p) else alpm_pkghash_find hash name
                   | None => alpm_pkghash_find hash name
                   end in
      match found with
      | None => EntryUB
      | Some (Some pkg) => EntryPkg pkg hash next
      | Some None =>
          let pkg := new_entry next treename name version name_hash in
          if negb (alpm_pkg_check_meta fnmatch (Some name) (Some version) =? 0)
          then EntryNone (Some ALPM_ERR_PKG_INVALID) (S next)
          else match alpm_pkghash_add hash pkg with
               | None => EntryNone (Some ALPM_ERR_MEMORY) (S next)
               | Some hash => EntryPkg pkg hash (S next)
               end
      end
  end.

(** sync_db_read: the cache, the next address, the likely package, the errno if
    one is set, and the result; [None] is undefined behaviour. *)
Record sync_state := mk_sync {
  ss_hash : alpm_pkghash_t;
  ss_next : nat;
  ss_likely : option alpm_pkg_t;
  ss_errno : option alpm_errno_t
}.

Definition is_package_file (filename : cstr) : bool :=
  streq filename (str "desc") || streq filename (str "depends") || streq filename (str "files").

Definition sync_db_read (treename : cstr) (entryname : cstr) (data : list block_result) (s : sync_state)
    : option (sync_state * Z) :=
  match load_pkg_for_entry treename (ss_hash s) entryname (ss_likely s) (ss_next s) with
  | EntryUB => None
  | EntryNone e next =>
      Some (mk_sync (ss_hash s) next (ss_likely s) (match e with Some e => Some e | None => ss_errno s end), -1)
  | EntryPkg pkg hash next =>
      match entry_filename entryname with
      | None => Some (mk_sync hash next (ss_likely s) (ss_errno s), 0)
      | Some filename =>
          if is_package_file filename then
            match read_sync_entry data pkg with
            | ReadOk pkg => Some (mk_sync (pkghash_update pkg hash) next (Some pkg) (ss_errno s), 0)
            | ReadErr pkg =>
                Some (mk_sync (pkghash_update pkg hash) next
                        (replace_pkg pkg <$> ss_likely s) (ss_errno s), -1)
            | ReadUB => None
            end
          else Some (mk_sync hash next (ss_likely s) (ss_errno s), 0)
      end
  end.

(** The loop over the entries: the result is -1 when one of them failed. *)
Fixpoint populate_entries (treename : cstr) (l : list archive_entry) (ret : Z) (s : sync_state)
    : option (sync_state * Z) :=
  match l with
  | [] => Some (s, ret)
  | e :: l' =>
      if ae_dir e then populate_entries treename l' ret s
      else
        '(s, r) ← sync_db_read treename (ae_path e) (ae_data e) s;
        populate_entries treename l' (if negb (r =? 0) then -1 else ret) s
  end.

(** ** sync_db_populate *)
Inductive compression := CompNone | CompGzip | CompCompress | CompBzip2 | CompLzma | CompXz | CompUu | CompOther.

Definition estimate_package_count (st_size : Z) (c : compression) : Z :=
  let per_package := match c with
                     | CompNone => 3015
                     | CompGzip | CompCompress => 464
                     | CompBzip2 => 394
                     | CompLzma | CompXz => 400
                     | CompUu => 3015 * 4 / 3
                     | CompOther => 500
                     end in
  st_size / per_package + 1.

(** The database file: its size, its compression, its entries and what ends them. *)
Record db_archive := mk_archive {
  da_size : Z;
  da_compression : compression;
  da_entries : list archive_entry;
  da_ret : Z
}.

(** if(count > 0) alpm_list_msort *)
Definition sort_cache (l : list alpm_pkg_t) : list alpm_pkg_t :=
  match l with [] => [] | _ => alpm_list_msort alpm_pkg_cmp l (length l) end.

Definition status_invalid (st : Z) : Z := set_bits (clear_bits st DB_STATUS_VALID) DB_STATUS_INVALID.

Definition sync_db_populate (open : cstr → alpm_errno_t + db_archive) (h : alpm_handle_t) (db : alpm_db_t)
    : option (alpm_handle_t * alpm_db_t * Z) :=
  if has_flag (db_status db) DB_STATUS_INVALID then Some (set_errno ALPM_ERR_DB_INVALID h, db, -1)
  else if has_flag (db_status db) DB_STATUS_MISSING then Some (set_errno ALPM_ERR_DB_NOT_FOUND h, db, -1)
  else
    match alpm_db_path h db with
    | None => Some (set_errno ALPM_ERR_DB_OPEN h, db, -1)
    | Some dbpath =>
        match open dbpath with
        | inl e => Some (set_errno e h, db_set_status (status_invalid (db_status db)) db, -1)
        | inr a =>
            let est := estimate_package_count (da_size a) (da_compression a) in
            let est := if streq (default [] (o_dbext (h_options h))) (str ".files") then est / 4 else est in
            let with_hash hash db := db_set_caches hash (db_grpcache db) (db_status db) db in
            match alpm_pkghash_create est with
            | None => Some (set_errno ALPM_ERR_MEMORY h, with_hash None db, -1)
            | Some hash =>
                '(s, ret) ← populate_entries (db_treename db) (da_entries a) 0 (mk_sync hash (h_next h) None None);
                let h := set_next (ss_next s) (match ss_errno s with Some e => set_errno e h | None => h end) in
                let db := with_hash (Some (ss_hash s)) db in
                if ret =? -1 then
                  Some (set_errno ALPM_ERR_DB_INVALID h,
                        alpm_db_free_pkgcache (db_set_status (status_invalid (db_status db)) db), -1)
                else if negb (da_ret a =? ARCHIVE_EOF) then
                  Some (set_errno ALPM_ERR_LIBARCHIVE h, alpm_db_free_pkgcache db, -1)
                else
                  let hash := ss_hash s in
                  Some (h, with_hash (Some (mk_pkghash (hash_table hash) (sort_cache (hash_list hash)) (buckets hash) (entries hash)
                                              (limit hash))) db, 0)
            end
        end
    end.
End sync_db.

(** ** Facts: the fuel is enough *)
Lemma sync_list_fuel f1 f2 line b :
  (left_to_read b < f1)%nat → (left_to_read b < f2)%nat → sync_list f1 line b = sync_list f2 line b.
Proof.
  revert f2 b. induction f1 as [|f1 IH]; intros [|f2] b H1 H2; [lia..|]. cbn [sync_list].
  destruct (alpm_archive_fgets b) as [l b'|] eqn:E; [|done]. apply archive_fgets_progress in E.
  destruct (stripped l); [done|]. destruct (match line with Some m => _ | None => _ end); [done|].
  rewrite (IH f2 b'); [done|lia|lia].
Qed.

Lemma sync_list_left fuel line b l b' :
  sync_list fuel line b = (l, ListDone b') → (left_to_read b' < left_to_read b)%nat.
Proof.
  revert b l. induction fuel as [|fuel IH]; intros b l; [done|]. cbn [sync_list].
  destruct (alpm_archive_fgets b) as [x b1|] eqn:E; [|done]. apply archive_fgets_progress in E.
  destruct (stripped x); [by intros [= _ <-]|]. destruct (match line with Some m => _ | None => _ end); [done|].
  destruct (sync_list fuel line b1) as [ls e] eqn:E1. intros [= _ ->]. apply IH in E1. lia.
Qed.

Lemma sync_next_left b line b' : sync_next b = Some (line, b') → (left_to_read b' < left_to_read b)%nat.
Proof.
  unfold sync_next. destruct (alpm_archive_fgets b) eqn:E; [|done]. apply archive_fgets_progress in E.
  by intros [= _ <-].
Qed.

Lemma read_sync_key_left k b pkg b' pkg' :
  read_sync_key k b pkg = inr (b', pkg') → (left_to_read b' < left_to_read b)%nat.
Proof.
  assert (∀ line e pkg1, (sync_all line b).2 = e → after_list e pkg1 = inr (b', pkg') →
    (left_to_read b' < left_to_read b)%nat) as Ha.
  { intros line e pkg1 He. unfold sync_all in He. destruct (sync_list _ line b) as [l e1] eqn:El. cbn in He. subst e1.
    destruct e; [|done|done]. intros [= <- _]. by eapply sync_list_left. }
  unfold read_sync_key. destruct k.
  all: try (destruct (sync_next b) as [[line b1]|] eqn:En; [apply sync_next_left in En|done]).
  all: try (match goal with |- context [sync_all ?line ?bb] =>
              specialize (Ha line); destruct (sync_all line bb) as [l e]; cbn [snd] in Ha end).
  all: try (by intros [= <- _]).
  all: try (by eapply Ha).
  - destruct (_ <? 0); [done|]. by intros [= <- _].
  - specialize (Ha e pkg' eq_refl). destruct e as [b1| |]; [|done..]. intros [= <- <-]. by apply Ha.
  - specialize (Ha e pkg' eq_refl). destruct e as [b1| |]; [|done..]. destruct (read_xdata l pkg) as [pkg1 []]; [|done].
    intros [= <- <-]. by apply Ha.
Qed.

Lemma read_sync_fuel f1 f2 b pkg :
  (left_to_read b < f1)%nat → (left_to_read b < f2)%nat → read_sync_lines f1 b pkg = read_sync_lines f2 b pkg.
Proof.
  revert f2 b pkg. induction f1 as [|f1 IH]; intros [|f2] b pkg H1 H2; [lia..|]. cbn [read_sync_lines].
  destruct (alpm_archive_fgets b) as [l b1|] eqn:E; [|done]. apply archive_fgets_progress in E.
  destruct (stripped l); [apply IH; lia|]. destruct (read_sync_key _ b1 pkg) as [r|[b2 pkg2]] eqn:Ek; [done|].
  apply read_sync_key_left in Ek. apply IH; lia.
Qed.

(** The loop, with the fuel it needs; a step of it. *)
Definition read_from (b : read_buffer) (pkg : alpm_pkg_t) : read_result :=
  read_sync_lines (S (left_to_read b)) b pkg.

Lemma read_from_step b pkg :
  read_from b pkg =
  match alpm_archive_fgets b with
  | FEnd ret => if ret =? ARCHIVE_EOF then ReadOk pkg else ReadErr pkg
  | FLine l b =>
      match stripped l with
      | [] => read_from b pkg
      | s => match read_sync_key (sync_key_of (c_string s)) b pkg with
             | inl r => r
             | inr (b, pkg) => read_from b pkg
             end
      end
  end.
Proof.
  unfold read_from at 1. cbn [read_sync_lines]. destruct (alpm_archive_fgets b) as [l b1|] eqn:E; [|done].
  apply archive_fgets_progress in E. destruct (stripped l); [apply read_sync_fuel; lia|].
  destruct (read_sync_key _ b1 pkg) as [r|[b2 pkg2]] eqn:Ek; [done|]. apply read_sync_key_left in Ek.
  apply read_sync_fuel; lia.
Qed.

Lemma sync_all_step line b :
  sync_all line b =
  match alpm_archive_fgets b with
  | FEnd _ => ([], ListError)
  | FLine l b =>
      match stripped l with
      | [] => ([], ListDone b)
      | s => if match line with Some m => negb (m =? rb_moved b)%nat | None => false end
             then ([], ListUB)
             else let '(lines, e) := sync_all line b in (c_string s :: lines, e)
      end
  end.
Proof.
  unfold sync_all at 1. cbn [sync_list]. destruct (alpm_archive_fgets b) as [l b1|] eqn:E; [|done].
  apply archive_fgets_progress in E. destruct (stripped l); [done|].
  destruct (match line with Some m => _ | None => _ end); [done|].
  by rewrite (sync_list_fuel (left_to_read b) (S (left_to_read b1)) line b1) by lia.
Qed.

(** ** Facts: the lines of an entry *)

(** The lines from here on; the line buffer has room for all of them. *)
Definition at_lines (ls : list cstr) (b : read_buffer) : Prop :=
  (∃ s n, reading s b ∧ split_lines s = ls ∧ rb_line_size b = Some n ∧ Z.of_nat n <= rb_max_line_size b ∧
          Forall (λ l, (length l < n)%nat) ls) ∨
  rb_ret b = ARCHIVE_EOF ∧ rb_rest b = [] ∧ ls = [].

Lemma grow_room b size offset len n :
  rb_line_size b = Some n → (offset + len < n)%nat → Z.of_nat n <= rb_max_line_size b →
  grow_line b size offset len = Some b.
Proof.
  intros Hn H1 H2. unfold grow_line. rewrite Hn, (proj2 (Z.ltb_ge _ _)) by lia.
  by rewrite (proj2 (Nat.ltb_ge _ _)) by lia.
Qed.

Lemma at_lines_end b : at_lines [] b → alpm_archive_fgets b = FEnd ARCHIVE_EOF.
Proof.
  intros [(s & n & _ & Hs & _)|(Hr & Hrest & _)].
  - destruct (split_lines_cons s) as (? & ? & ?). congruence.
  - unfold alpm_archive_fgets. rewrite Hrest. destruct (rb_blocks b); cbn [next_blocks]; by rewrite Hr.
Qed.

(** A line that fits leaves the line buffer where it is. *)
Definition unmoved (n : nat) (b b' : read_buffer) : Prop :=
  rb_line_size b' = Some n ∧ rb_moved b' = rb_moved b.

Lemma scan_block_longer line b :
  match scan_block line b with
  | inl (FLine l _) | inr (l, _) => (length line <= length l)%nat
  | inl (FEnd _) => True
  end.
Proof.
  unfold scan_block. destruct (grow_line _ _ _ _) as [b1|]; [|done]. destruct (find_eol _) as [[l r]|].
  - rewrite length_app. lia.
  - destruct (_ =? 0)%nat; rewrite length_app; lia.
Qed.

Lemma scan_block_unmoved line b n :
  rb_line_size b = Some n →
  match scan_block line b with
  | inl (FLine l b') | inr (l, b') => (length l < n)%nat → unmoved n b b'
  | inl (FEnd _) => True
  end.
Proof.
  intros Hn. unfold scan_block, grow_line. rewrite Hn. destruct (_ <? _); [done|].
  destruct (find_eol (rb_rest b)) as [[l r]|].
  - destruct (Nat.ltb_spec n (length line + length l + 1)); [rewrite length_app; lia|]. by split.
  - destruct (Nat.ltb_spec n (length line + length (rb_rest b) + 1)); cbn [rb_rest];
      destruct (_ =? 0)%nat; rewrite length_app; [lia|lia|by split..].
Qed.

Lemma next_blocks_longer blocks line b l b' :
  next_blocks blocks line b = FLine l b' → (length line <= length l)%nat.
Proof.
  revert line b. induction blocks as [|[data|e] blocks IH]; intros line b; cbn [next_blocks];
    (destruct (rb_ret b =? ARCHIVE_EOF); [done|]); [| |done]; set (b1 := mk_buffer _ _ _ _ _ _);
    pose proof (scan_block_longer line b1) as Hg; destruct (scan_block line b1) as [[l1 b2|]|[l1 b2]]; try done;
    [by intros [= -> ->]..|]. intros H%IH. lia.
Qed.

Lemma next_blocks_unmoved blocks line b n l b' :
  next_blocks blocks line b = FLine l b' → rb_line_size b = Some n → (length l < n)%nat → unmoved n b b'.
Proof.
  revert line b. induction blocks as [|[data|e] blocks IH]; intros line b; cbn [next_blocks];
    (destruct (rb_ret b =? ARCHIVE_EOF); [done|]); [| |done]; set (b1 := mk_buffer _ _ _ _ _ _); intros H Hn Hl;
    pose proof (scan_block_unmoved line b1 n Hn) as Hs; destruct (scan_block line b1) as [[l1 b2|]|[l1 b2]]; try done;
    [injection H as -> ->; by apply Hs..|].
  pose proof (next_blocks_longer _ _ _ _ _ H) as Hle. destruct Hs as [H1 H2]; [lia|].
  destruct (IH _ _ H H1 Hl) as [H3 H4]. split; [done|]. by rewrite H4, H2.
Qed.

Lemma fgets_unmoved b n l b' :
  alpm_archive_fgets b = FLine l b' → rb_line_size b = Some n → (length l < n)%nat → unmoved n b b'.
Proof.
  unfold alpm_archive_fgets. intros H Hn Hl. destruct (rb_rest b); [by eapply next_blocks_unmoved|].
  pose proof (scan_block_unmoved [] b n Hn) as Hs. destruct (scan_block [] b) as [[l1 b2|]|[l1 b2]]; [|done|].
  - injection H as -> ->. by apply Hs.
  - pose proof (next_blocks_longer _ _ _ _ _ H) as Hle. destruct Hs as [H1 H2]; [lia|].
    destruct (next_blocks_unmoved _ _ _ _ _ _ H H1 Hl) as [H3 H4]. split; [done|]. by rewrite H4, H2.
Qed.

Lemma at_lines_fgets l ls b :
  at_lines (l :: ls) b →
  ∃ b', alpm_archive_fgets b = FLine l b' ∧ at_lines ls b' ∧ rb_moved b' = rb_moved b.
Proof.
  intros [(s & n & Hr & Hs & Hn & Hmax & Hlen)|(_ & _ & ?)]; [|done].
  destruct (archive_fgets_spec s b l ls Hr Hs) as (b' & E & Hm & Ha).
  { eapply Forall_impl; [exact Hlen|]. cbn. lia. }
  apply Forall_cons in Hlen as [Hl Hlen]. destruct (fgets_unmoved _ _ _ _ E Hn Hl) as [H1 H2].
  exists b'. split_and!; [done| |done]. destruct ls as [|l2 ls]; [right; by destruct Ha|left].
  destruct Ha as (s' & Hr' & Hs' & _). exists s', n. split_and!; try done. by rewrite Hm.
Qed.

(** How libarchive cuts the text of an entry: into blocks that are not empty, the first
    of which is no shorter than any line, so that the line buffer is large enough
    from the start. *)
Record cut_into (text : cstr) (bs : list cstr) : Prop := {
  ci_text : concat bs = text;
  ci_blocks : Forall (λ d, d ≠ []) bs;
  ci_first : Forall (λ l, (length l <= length (hd [] bs))%nat) (split_lines text)
}.

Lemma open_blocks text bs pkg :
  cut_into text bs → text ≠ [] → NUL ∉ text → Z.of_nat (length text) < MAX_LINE →
  ∃ b, read_sync_entry (map Block bs) pkg = read_from b pkg ∧ at_lines (split_lines text) b.
Proof.
  intros [<- Hbs Hfirst] Hne Hnul Hlen. destruct bs as [|d bs]; [done|]. cbn [hd concat] in *.
  apply Forall_cons in Hbs as [Hd Hbs]. rewrite length_app in Hlen.
  set (b := mk_buffer (Some (S (length d))) 0 MAX_LINE d ARCHIVE_OK (map Block bs)).
  exists b. split.
  - change (read_sync_entry (map Block (d :: bs)) pkg) with (read_from (open_buffer MAX_LINE (map Block (d :: bs))) pkg).
    rewrite !read_from_step.
    replace (alpm_archive_fgets (open_buffer MAX_LINE (map Block (d :: bs)))) with (alpm_archive_fgets b); [done|].
    unfold alpm_archive_fgets. cbn [map rb_rest b open_buffer rb_blocks next_blocks rb_ret].
    change (0 =? ARCHIVE_EOF) with false. destruct d as [|c d']; [done|].
    unfold scan_block. cbn [rb_rest b].
    set (len := match find_eol _ with Some (l, _) => length l | None => _ end).
    assert (len <= length (c :: d'))%nat as Hl.
    { unfold len. destruct (find_eol (c :: d')) as [[l r]|] eqn:E; [|done]. apply find_eol_length in E. lia. }
    rewrite (grow_room b _ _ _ (S (length (c :: d')))); [|done|cbn [length] in *; lia|cbn [rb_max_line_size b]; lia].
    unfold grow_line at 1. cbn [open_buffer rb_line_size rb_moved rb_max_line_size rb_rest rb_ret rb_blocks].
    rewrite Nat.add_1_r. destruct (find_eol (c :: d')) as [[l r]|]; done.
  - left. exists (d ++ concat bs), (S (length d)). split_and!; cbn; auto; [|lia|].
    + by apply (reading_blocks bs).
    + eapply Forall_impl; [exact Hfirst|]. cbn. lia.
Qed.

(** A line as the writer makes it. *)
Definition sline (l : cstr) : Prop := newline ∉ l ∧ NUL ∉ l.

Lemma stripped_sline l : sline l → stripped l = l ∧ c_string l = l.
Proof.
  intros [Hn Hz]. split.
  - unfold stripped. destruct l as [|c l _] using rev_ind; [done|].
    rewrite drop_while_end_snoc. assert (is_newline c = false) as ->.
    { apply is_newline_false. intros ->. apply Hn, elem_of_app. right. by left. }
    destruct (is_nul (hd_chr (l ++ [c]))) eqn:E; [|done]. exfalso. apply Hz. apply Ascii.eqb_eq in E.
    destruct l; cbn in E; subst; by left.
  - unfold c_string. apply take_while_all, Forall_forall. intros c Hc. unfold is_nul.
    destruct (Ascii.eqb_spec c NUL) as [->|]; done.
Qed.

Lemma list_lines ls rest line b :
  Forall (λ l, sline l ∧ l ≠ []) ls → at_lines (ls ++ [] :: rest) b → line = None ∨ line = Some (rb_moved b) →
  ∃ b', sync_all line b = (ls, ListDone b') ∧ at_lines rest b'.
Proof.
  intros Hl. revert b. induction Hl as [|l ls [Hs Hne] Hl IH]; intros b Hb Hline; cbn [app] in Hb;
    destruct (at_lines_fgets _ _ _ Hb) as (b1 & E & Hb1 & Hm); rewrite sync_all_step, E.
  - by exists b1.
  - destruct (stripped_sline l Hs) as [-> Hc]. destruct (IH b1 Hb1) as (b2 & -> & Hb2).
    { destruct Hline as [-> | ->]; [by left|right; by rewrite Hm]. }
    exists b2. destruct l as [|c l]; [done|]. rewrite Hc. split; [|done].
    destruct Hline as [-> | ->]; [done|]. by rewrite Hm, Nat.eqb_refl.
Qed.

(** ** Facts: reading what was written *)
Definition sreads (ls : list cstr) (pkg : alpm_pkg_t) (r : read_result) : Prop :=
  ∀ b, at_lines ls b → read_from b pkg = r.

Lemma sreads_end pkg : sreads [[]] pkg (ReadOk pkg).
Proof.
  intros b Hb. rewrite read_from_step. destruct (at_lines_fgets _ _ _ Hb) as (b1 & -> & Hb1 & _).
  change (stripped []) with (@nil ascii). by rewrite read_from_step, (at_lines_end b1 Hb1).
Qed.

Lemma sreads_section key ls rest pkg pkg' r :
  sline key → key ≠ [] → Forall sline ls →
  (∀ b, at_lines (ls ++ [] :: rest) b →
     ∃ b', read_sync_key (sync_key_of key) b pkg = inr (b', pkg') ∧ (at_lines rest b' ∨ at_lines ([] :: rest) b')) →
  sreads rest pkg' r → sreads (key :: ls ++ [] :: rest) pkg r.
Proof.
  intros Hk Hne Hl Hkey Hr b Hb. rewrite read_from_step.
  destruct (at_lines_fgets _ _ _ Hb) as (b1 & -> & Hb1 & _).
  destruct (stripped_sline key Hk) as [-> Hc]. destruct key as [|c key]; [done|]. rewrite Hc.
  destruct (Hkey b1 Hb1) as (b2 & -> & [Hb2|Hb2]); [by apply Hr|].
  destruct (at_lines_fgets _ _ _ Hb2) as (b3 & E & Hb3 & _). rewrite read_from_step, E.
  change (stripped []) with (@nil ascii). by apply Hr.
Qed.

(** A key with one line: READ_NEXT and what is done with it. *)
Lemma sreads_single (f : cstr → alpm_pkg_t → alpm_pkg_t) key l rest pkg r :
  sline key → key ≠ [] → sline l →
  (∀ b b', sync_next b = Some (l, b') → read_sync_key (sync_key_of key) b pkg = inr (b', f l pkg)) →
  sreads rest (f l pkg) r → sreads (key :: [l] ++ [] :: rest) pkg r.
Proof.
  intros Hk Hne Hl Hf. apply (sreads_section key [l] rest pkg (f l pkg)); [done|done|constructor; [done|constructor]|].
  intros b Hb. destruct (at_lines_fgets _ _ _ Hb) as (b1 & E & Hb1 & _). exists b1.
  split; [|by right]. apply Hf. unfold sync_next. rewrite E. destruct (stripped_sline l Hl) as [-> ->]. done.
Qed.

(** A key with a list; [ptr] tells whether it is read through the pointer. *)
Lemma sreads_multi (f : list cstr → alpm_pkg_t → alpm_pkg_t) (ptr : bool) key ls rest pkg r :
  sline key → key ≠ [] → Forall (λ l, sline l ∧ l ≠ []) ls →
  (∀ b b', sync_all (if ptr then Some (rb_moved b) else None) b = (ls, ListDone b') →
     read_sync_key (sync_key_of key) b pkg = inr (b', f ls pkg)) →
  sreads rest (f ls pkg) r → sreads (key :: ls ++ [] :: rest) pkg r.
Proof.
  intros Hk Hne Hl Hf.
  apply (sreads_section key ls rest pkg (f ls pkg)); [done|done|eapply Forall_impl; [exact Hl|]; by intros ? []|].
  intros b Hb. destruct (list_lines ls rest (if ptr then Some (rb_moved b) else None) b Hl Hb) as (b1 & E & Hb1);
    [destruct ptr; [by right|by left]|]. exists b1. split; [by apply Hf|by left].
Qed.

(** The text of an entry: dulge-repo-add writes a key with its lines and an empty
    line, and leaves out what is empty. *)
Definition entry_text (key : cstr) (x : option cstr) : cstr :=
  match x with Some (c :: v) => section key [c :: v] | _ => [] end.

Definition sync_desc (p : alpm_pkg_t) : cstr :=
  entry_text (str "%FILENAME%") (pkg_filename p)
  ++ section (str "%NAME%") [pkg_name p] ++ entry_text (str "%BASE%") (pkg_base p)
  ++ section (str "%VERSION%") [pkg_version p] ++ entry_text (str "%DESC%") (pkg_desc p)
  ++ write_lines (str "%GROUPS%") (pkg_groups p)
  ++ section (str "%CSIZE%") [itoa (pkg_size p)] ++ section (str "%ISIZE%") [itoa (pkg_isize p)]
  ++ entry_text (str "%SHA256SUM%") (pkg_sha256sum p) ++ entry_text (str "%PGPSIG%") (pkg_base64_sig p)
  ++ entry_text (str "%URL%") (pkg_url p) ++ write_lines (str "%LICENSE%") (pkg_licenses p)
  ++ entry_text (str "%ARCH%") (pkg_arch p) ++ section (str "%BUILDDATE%") [itoa (pkg_builddate p)]
  ++ entry_text (str "%PACKAGER%") (pkg_packager p)
  ++ write_deps (str "%REPLACES%") (pkg_replaces p) ++ write_deps (str "%CONFLICTS%") (pkg_conflicts p)
  ++ write_deps (str "%PROVIDES%") (pkg_provides p) ++ write_deps (str "%DEPENDS%") (pkg_depends p)
  ++ write_deps (str "%OPTDEPENDS%") (pkg_optdepends p) ++ write_deps (str "%MAKEDEPENDS%") (pkg_makedepends p)
  ++ write_deps (str "%CHECKDEPENDS%") (pkg_checkdepends p).

Lemma split_section key ls rest :
  newline ∉ key → Forall (λ l, newline ∉ l) ls →
  split_lines (section key ls ++ rest) = key :: ls ++ [] :: split_lines rest.
Proof.
  intros Hk Hl. unfold section. rewrite <-app_assoc. cbn [app]. rewrite split_lines_newline by done. f_equal.
  rewrite <-app_assoc. cbn [app]. induction Hl as [|l ls Hn Hl IH]; cbn [flat_map app].
  - reflexivity.
  - rewrite <-!app_assoc. cbn [app]. rewrite split_lines_newline by done. by rewrite IH.
Qed.

(** Reading a text from between two entries. *)
Definition treads (text : cstr) (pkg : alpm_pkg_t) (r : read_result) : Prop := sreads (split_lines text) pkg r.

Lemma treads_single (f : cstr → alpm_pkg_t → alpm_pkg_t) key l rest pkg r :
  sline key → key ≠ [] → sline l →
  (∀ b b', sync_next b = Some (l, b') → read_sync_key (sync_key_of key) b pkg = inr (b', f l pkg)) →
  treads rest (f l pkg) r → treads (section key [l] ++ rest) pkg r.
Proof.
  intros Hk Hne Hl Hf Hr. unfold treads. rewrite split_section; [|apply Hk|constructor; [apply Hl|constructor]].
  by apply (sreads_single f).
Qed.

Definition entry_field (x : option cstr) : Prop := ∀ v, x = Some v → sline v ∧ v ≠ [].

Lemma treads_text (set : alpm_pkg_t → option cstr → alpm_pkg_t) key x rest pkg r :
  sline key → key ≠ [] → sync_key_of key = SText set → entry_field x → (x = None → set pkg x = pkg) →
  treads rest (set pkg x) r → treads (entry_text key x ++ rest) pkg r.
Proof.
  intros Hk Hne Ek Hx H0 Hr. destruct x as [v|]; [|by rewrite H0 in Hr].
  destruct (Hx v eq_refl) as [Hv Hn]. destruct v as [|c v]; [done|].
  apply (treads_single (λ l p, set p (Some l))); [done|done|done| |done].
  intros b b' E. rewrite Ek. cbn [read_sync_key]. by rewrite E.
Qed.

Lemma treads_list (f : list cstr → alpm_pkg_t → alpm_pkg_t) (ptr : bool) key ls rest pkg r :
  sline key → key ≠ [] → Forall (λ l, sline l ∧ l ≠ []) ls →
  (∀ b b', sync_all (if ptr then Some (rb_moved b) else None) b = (ls, ListDone b') →
     read_sync_key (sync_key_of key) b pkg = inr (b', f ls pkg)) →
  (ls = [] → f ls pkg = pkg) →
  treads rest (f ls pkg) r → treads (write_lines key ls ++ rest) pkg r.
Proof.
  intros Hk Hne Hl Hf H0 Hr. destruct ls as [|l ls]; [by rewrite H0 in Hr|]. unfold treads, write_lines.
  rewrite split_section; [|apply Hk|eapply Forall_impl; [exact Hl|]; by intros ? [[] _]].
  by apply (sreads_multi f ptr).
Qed.

Definition entry_list (l : list cstr) : Prop := Forall (λ l, sline l ∧ l ≠ []) l.

Lemma treads_strings get set key ls rest pkg r :
  sline key → key ≠ [] → sync_key_of key = SLines get set → entry_list ls → get pkg = [] →
  (ls = [] → set pkg ls = pkg) →
  treads rest (set pkg ls) r → treads (write_lines key ls ++ rest) pkg r.
Proof.
  intros Hk Hne Ek Hl Hg H0 Hr.
  apply (treads_list (λ l p, set p (get p ++ l)) false); [done|done|done| |rewrite Hg; exact H0|by rewrite Hg].
  intros b b' E. rewrite Ek. cbn [read_sync_key]. by rewrite E.
Qed.

Definition entry_deps (l : list alpm_depend_t) : Prop :=
  Forall (λ d, alpm_dep_from_string (alpm_dep_compute_string d) = d ∧
               sline (alpm_dep_compute_string d) ∧ alpm_dep_compute_string d ≠ []) l.

Lemma treads_deps get set key l rest pkg r :
  sline key → key ≠ [] → sync_key_of key = SDeps get set → entry_deps l → get pkg = [] →
  (l = [] → set pkg l = pkg) →
  treads rest (set pkg l) r → treads (write_deps key l ++ rest) pkg r.
Proof.
  intros Hk Hne Ek Hl Hg H0 Hr. rewrite write_deps_lines.
  assert (map alpm_dep_from_string (map alpm_dep_compute_string l) = l) as Hmap.
  { rewrite map_map. rewrite <-(map_id l) at 2. apply map_ext_in. intros d Hd%list_elem_of_In.
    unfold entry_deps in Hl. rewrite Forall_forall in Hl. by apply Hl. }
  apply (treads_list (λ ls p, set p (get p ++ map alpm_dep_from_string ls)) true);
    [done|done| | | |by rewrite Hg, Hmap].
  - apply Forall_map. eapply Forall_impl; [exact Hl|]. by intros d [_ ?].
  - intros b b' E. rewrite Ek. cbn [read_sync_key]. by rewrite E.
  - intros E. rewrite Hg, Hmap. apply H0. by destruct l.
Qed.

Lemma treads_number (g : alpm_pkg_t → alpm_pkg_t) (f : cstr → alpm_pkg_t → alpm_pkg_t) key n rest pkg r :
  sline key → key ≠ [] → sline (itoa n) →
  (∀ b b', sync_next b = Some (itoa n, b') → read_sync_key (sync_key_of key) b pkg = inr (b', f (itoa n) pkg)) →
  f (itoa n) pkg = g pkg → treads rest (g pkg) r → treads (section key [itoa n] ++ rest) pkg r.
Proof. intros Hk Hne Hl Hf Hg Hr. apply (treads_single f); [done|done|done|done|by rewrite Hg]. Qed.

Record syncable (p : alpm_pkg_t) : Prop := {
  sy_filename : entry_field (pkg_filename p) ∧ ∀ f, pkg_filename p = Some f → alpm_validate_filename f = 0;
  sy_names : sline (pkg_name p) ∧ sline (pkg_version p);
  sy_texts : Forall entry_field [pkg_base p; pkg_desc p; pkg_url p; pkg_packager p; pkg_sha256sum p;
                                 pkg_base64_sig p; pkg_arch p];
  sy_sizes : 0 <= pkg_size p < 2 ^ 63 ∧ 0 <= pkg_isize p < 2 ^ 63;
  sy_date : int64 (pkg_builddate p);
  sy_lists : entry_list (pkg_groups p) ∧ entry_list (pkg_licenses p);
  sy_deps : Forall entry_deps [pkg_replaces p; pkg_conflicts p; pkg_provides p; pkg_depends p;
                               pkg_optdepends p; pkg_makedepends p; pkg_checkdepends p];
  sy_text : NUL ∉ sync_desc p ∧ Z.of_nat (length (sync_desc p)) < MAX_LINE
}.

(** The package of a database that records [p]. *)
Definition offered (addr : nat) (treename : cstr) (p : alpm_pkg_t) : alpm_pkg_t :=
  mk_pkg addr (alpm_hash_sdbm (pkg_name p)) (pkg_filename p) (pkg_base p) (pkg_name p) (pkg_version p)
    (pkg_desc p) (pkg_url p) (pkg_packager p) (pkg_sha256sum p) (pkg_base64_sig p) (pkg_arch p)
    (pkg_builddate p) 0 (pkg_size p) (pkg_isize p) 0 (pkg_licenses p) (pkg_replaces p) (pkg_groups p) []
    (pkg_depends p) (pkg_optdepends p) (pkg_checkdepends p) (pkg_makedepends p) (pkg_conflicts p)
    (pkg_provides p) [] None [] (ALPM_PKG_FROM_SYNCDB treename) (pkg_reason (alpm_pkg_new 0))
    0 [] 0 0.

Ltac tflat :=
  unfold new_entry;
  match goal with |- treads ?s ?i ?r => let i' := eval_pkg i in change (treads s i' r) end.

Lemma key_sline key : existsb (λ c, is_newline c || is_nul c) key = false → sline key.
Proof.
  intros H. split; intros Hin; apply not_true_iff_false in H; apply H, existsb_exists; eexists;
    (split; [by apply list_elem_of_In|done]).
Qed.

Lemma itoa_sline n : int64 n → sline (itoa n).
Proof.
  intros Hn. split; [by apply itoa_line|]. unfold itoa, int64 in *.
  assert (∀ m, 0 <= m < 2 ^ 64 → NUL ∉ utoa m) as Hu.
  { intros m Hm Hin. destruct (utoa_ok m) as (Hd & _); [lia|]. rewrite Forall_forall in Hd. by apply Hd in Hin. }
  destruct (Z.ltb_spec n 0); [|apply Hu; lia]. apply not_elem_of_cons. split; [done|apply Hu; lia].
Qed.

Ltac key_ok := solve [by apply key_sline|done|intros; reflexivity].

(** The function of a key that takes one line. *)
Ltac next_key k :=
  let E := fresh in intros ? ? E; change (sync_key_of _) with k; cbn [read_sync_key]; rewrite E; reflexivity.

Lemma treads_filename x rest pkg r :
  entry_field x → (∀ f, x = Some f → alpm_validate_filename f = 0) → (x = None → set_filename pkg x = pkg) →
  treads rest (set_filename pkg x) r → treads (entry_text (str "%FILENAME%") x ++ rest) pkg r.
Proof.
  intros Hx Hv H0 Hr. destruct x as [v|]; [|by rewrite H0 in Hr].
  destruct (Hx v eq_refl) as [Hs Hn]. specialize (Hv v eq_refl). destruct v as [|c v]; [done|].
  apply (treads_single (λ l p, set_filename p (Some l))); [key_ok|done|done| |done].
  intros b b' E. change (sync_key_of (str "%FILENAME%")) with SFilename. cbn [read_sync_key]. by rewrite E, Hv.
Qed.

Lemma sync_desc_reads addr treename p :
  syncable p →
  treads (sync_desc p) (new_entry addr treename (pkg_name p) (pkg_version p) (alpm_hash_sdbm (pkg_name p)))
    (ReadOk (offered addr treename p)).
Proof.
  intros [[Hf1 Hf2] [Hn Hv] Ht [Hs1 Hs2] Hb [Hg Hl] Hd _].
  apply Forall_cons in Ht as [Ht1 [Ht2 [Ht3 [Ht4 [Ht5 [Ht6 [Ht7 _]%Forall_cons]%Forall_cons]%Forall_cons]%Forall_cons]
    %Forall_cons]%Forall_cons].
  apply Forall_cons in Hd as [Hd1 [Hd2 [Hd3 [Hd4 [Hd5 [Hd6 [Hd7 _]%Forall_cons]%Forall_cons]%Forall_cons]%Forall_cons]
    %Forall_cons]%Forall_cons].
  unfold sync_desc, offered. generalize (alpm_hash_sdbm (pkg_name p)). intros hash.
  destruct p as [? ? fn base name version desc url packager sha sig arch bd ? csz isz ? lic repl grp ? dep opt chk
    mkd conf prov ? ? ? ? ? ? ? ? ?].
  cbn [pkg_name pkg_version pkg_filename pkg_base pkg_desc pkg_url pkg_packager pkg_sha256sum pkg_base64_sig pkg_arch
    pkg_builddate pkg_size pkg_isize pkg_groups pkg_licenses pkg_replaces pkg_conflicts pkg_provides pkg_depends
    pkg_optdepends pkg_makedepends pkg_checkdepends] in *. tflat.
  apply treads_filename; [done|done|by intros ->|tflat].
  apply (treads_single (λ _ i, i)); [key_ok|done|done|next_key SCheck|tflat].
  apply (treads_text set_base); [key_ok|done|done|done|by intros ->|tflat].
  apply (treads_single (λ _ i, i)); [key_ok|done|done|next_key SCheck|tflat].
  apply (treads_text set_desc); [key_ok|done|done|done|by intros ->|tflat].
  apply (treads_strings pkg_groups set_groups); [key_ok|done|done|done|done|by intros ->|tflat].
  apply (treads_number (λ i, set_size i csz) (λ l i, set_size i (alpm_strtoofft l)));
    [key_ok|done|apply itoa_sline; unfold int64; lia|next_key (SSize set_size)|by rewrite strtoofft_itoa|tflat].
  apply (treads_number (λ i, set_isize i isz) (λ l i, set_isize i (alpm_strtoofft l)));
    [key_ok|done|apply itoa_sline; unfold int64; lia|next_key (SSize set_isize)|by rewrite strtoofft_itoa|tflat].
  apply (treads_text set_sha256sum); [key_ok|done|done|done|by intros ->|tflat].
  apply (treads_text set_base64_sig); [key_ok|done|done|done|by intros ->|tflat].
  apply (treads_text set_url); [key_ok|done|done|done|by intros ->|tflat].
  apply (treads_strings pkg_licenses set_licenses); [key_ok|done|done|done|done|by intros ->|tflat].
  apply (treads_text set_arch); [key_ok|done|done|done|by intros ->|tflat].
  apply (treads_number (λ i, set_builddate i bd) (λ l i, set_builddate i (alpm_parsedate l)));
    [key_ok|done|by apply itoa_sline|next_key SDate|by rewrite parsedate_itoa|tflat].
  apply (treads_text set_packager); [key_ok|done|done|done|by intros ->|tflat].
  apply (treads_deps pkg_replaces set_replaces); [key_ok|done|done|done|done|by intros ->|tflat].
  apply (treads_deps pkg_conflicts set_conflicts); [key_ok|done|done|done|done|by intros ->|tflat].
  apply (treads_deps pkg_provides set_provides); [key_ok|done|done|done|done|by intros ->|tflat].
  apply (treads_deps pkg_depends set_depends); [key_ok|done|done|done|done|by intros ->|tflat].
  apply (treads_deps pkg_optdepends set_optdepends); [key_ok|done|done|done|done|by intros ->|tflat].
  apply (treads_deps pkg_makedepends set_makedepends); [key_ok|done|done|done|done|by intros ->|tflat].
  rewrite <-(app_nil_r (write_deps (str "%CHECKDEPENDS%") _)).
  apply (treads_deps pkg_checkdepends set_checkdepends); [key_ok|done|done|done|done|by intros ->|tflat].
  exact (sreads_end _).
Qed.

Lemma read_written addr treename p bs :
  syncable p → cut_into (sync_desc p) bs →
  read_sync_entry (map Block bs)
    (new_entry addr treename (pkg_name p) (pkg_version p) (alpm_hash_sdbm (pkg_name p))) =
  ReadOk (offered addr treename p).
Proof.
  intros Hs Hc. destruct (sy_text p Hs) as [Hnul Hlen].
  destruct (open_blocks (sync_desc p) bs (new_entry addr treename (pkg_name p) (pkg_version p)
    (alpm_hash_sdbm (pkg_name p))) Hc) as (b & -> & Hb); [|done|done|by apply (sync_desc_reads addr treename p Hs b)].
  unfold sync_desc. by destruct (entry_text _ (pkg_filename p)).
Qed.

(** ** Facts: filling in a package of the cache *)
Lemma slot_map (f : alpm_pkg_t → alpm_pkg_t) t i :
  slot (map (λ o, match o with Some q => Some (f q) | None => None end) t) i =
  match slot t i with Some q => Some (f q) | None => None end.
Proof.
  unfold slot. change (map ?g t) with (g <$> t). rewrite list_lookup_fmap. by destruct (t !! _).
Qed.

Lemma contents_map (f : alpm_pkg_t → alpm_pkg_t) t :
  contents (map (λ o, match o with Some q => Some (f q) | None => None end) t) = map f (contents t).
Proof. unfold contents. induction t as [|[q|] t IH]; cbn; [done|by rewrite IH|done]. Qed.

(** The entry of the package agrees with it in name and hash. *)
Definition updates (p : alpm_pkg_t) (l : list alpm_pkg_t) : Prop :=
  ∀ q, q ∈ l → pkg_addr q = pkg_addr p → pkg_name q = pkg_name p ∧ pkg_name_hash q = pkg_name_hash p.

Lemma replace_same p l q :
  updates p l → q ∈ l →
  pkg_addr (replace_pkg p q) = pkg_addr q ∧ pkg_name (replace_pkg p q) = pkg_name q ∧
  pkg_name_hash (replace_pkg p q) = pkg_name_hash q.
Proof.
  intros Hu Hq. unfold replace_pkg. destruct (Nat.eqb_spec (pkg_addr q) (pkg_addr p)) as [E|]; [|done].
  destruct (Hu q Hq E). done.
Qed.

Lemma map_replace {A} (f : alpm_pkg_t → A) p l :
  (∀ q, q ∈ l → f (replace_pkg p q) = f q) → map f (map (replace_pkg p) l) = map f l.
Proof. intros H. rewrite map_map. apply map_ext_in. intros q Hq%list_elem_of_In. by apply H. Qed.

Lemma update_inv p hash : pkghash_inv hash → updates p (hash_list hash) → pkghash_inv (pkghash_update p hash).
Proof.
  intros [[Hp Hl Hc] Hpr Hlim Hcon Hent Hload Hh Hn Ha] Hu.
  pose proof (λ q Hq, replace_same p (hash_list hash) q Hu Hq) as Hs. split; cbn [pkghash_update hash_table hash_list
    buckets entries limit].
  - split; [done|by rewrite length_map|]. intros i q Hi. rewrite slot_map.
    destruct (slot (hash_table hash) i) as [q0|] eqn:E; [|done]. intros [= <-].
    assert (q0 ∈ hash_list hash) as Hq0.
    { rewrite <-Hcon. apply elem_of_contents. exists i. destruct (Hc i q0 Hi E) as (d & _).
      split; [lia|done]. }
    destruct (Hc i q0 Hi E) as (d & Hd & Hi' & Hk). exists d. unfold home. destruct (Hs q0 Hq0) as (_ & _ & ->).
    split; [done|]. split; [done|]. intros k Hk'. destruct (Hk k Hk') as [Hne|[]]. left. rewrite slot_map.
    unfold home in Hne. by destruct (slot (hash_table hash) ((pkg_name_hash q0 mod buckets hash + k) mod buckets hash)).
  - done.
  - done.
  - by rewrite contents_map, Hcon.
  - by rewrite length_map.
  - done.
  - unfold hashes_ok, pkg_hash_ok in *. rewrite Forall_map. rewrite Forall_forall in Hh |- *. intros q Hq.
    destruct (Hs q Hq) as (_ & H1 & H2). cbn. rewrite H1, H2. by apply Hh.
  - rewrite map_replace; [done|]. intros q Hq. apply (Hs q Hq).
  - rewrite map_replace; [done|]. intros q Hq. apply (Hs q Hq).
Qed.

Lemma update_last p q l :
  pkg_addr q = pkg_addr p → pkg_addr p ∉ map pkg_addr l → map (replace_pkg p) (l ++ [q]) = l ++ [p].
Proof.
  intros Ha Hl. rewrite map_app. cbn [map]. unfold replace_pkg at 2. rewrite Ha, Nat.eqb_refl. f_equal.
  rewrite <-(map_id l) at 2. apply map_ext_in. intros x Hx%list_elem_of_In. unfold replace_pkg.
  destruct (Nat.eqb_spec (pkg_addr x) (pkg_addr p)) as [E|]; [|done]. exfalso. apply Hl.
  rewrite <-E. by apply list_elem_of_fmap_2.
Qed.

(** ** Facts: the entries of a written database *)
Section written.
Context (fnmatch : cstr → cstr → bool) (treename : cstr).

Record offerable (p : alpm_pkg_t) : Prop := {
  of_meta : alpm_pkg_check_meta fnmatch (Some (pkg_name p)) (Some (pkg_version p)) = 0;
  of_version : "-"%char ∈ pkg_version p;
  of_name : "/"%char ∉ pkg_name p;
  of_sync : syncable p
}.

Definition entry_dir (p : alpm_pkg_t) : cstr := pkg_name p ++ "-"%char :: pkg_version p.
(** The entries of a package, with the blocks of its data. *)
Definition db_entries (p : alpm_pkg_t) (bs : list cstr) : list archive_entry :=
  [mk_entry (entry_dir p ++ str "/") true 0 0 [] true;
   mk_entry (entry_dir p ++ str "/desc") false 0 0 (map Block bs) true].

Fixpoint offers (addr : nat) (ps : list alpm_pkg_t) : list alpm_pkg_t :=
  match ps with
  | [] => []
  | p :: ps' => offered addr treename p :: offers (S addr) ps'
  end.

Lemma entry_dir_split p :
  offerable p →
  alpm_splitname (entry_dir p ++ str "/desc") = SplitOk (pkg_name p) (pkg_version p) (alpm_hash_sdbm (pkg_name p)).
Proof.
  intros [Hm Hv Hn _].
  apply check_meta_ok in Hm as (Hne & _ & _ & Hs & _ & [H|(ver & rel & E & H1 & H2)]); [done|].
  rewrite E in *. unfold entry_dir. rewrite E, <-!app_assoc. cbn [app]. rewrite <-app_assoc. cbn [app].
  apply splitname_roundtrip; [done|done|done|done| | |by right]; intros Hin; apply Hs, elem_of_app;
    [by left|right; by right].
Qed.

Lemma entry_dir_desc p : entry_filename (entry_dir p ++ str "/desc") = Some (str "desc").
Proof.
  unfold entry_filename. change (str "/desc") with ("/"%char :: str "desc").
  by rewrite split_last_app by (apply split_last_None; reflexivity).
Qed.

(** The state after the packages in [old]. *)
Record populated (old : list alpm_pkg_t) (next : nat) (s : sync_state) : Prop := {
  po_inv : pkghash_inv (ss_hash s);
  po_list : hash_list (ss_hash s) = old;
  po_addrs : Forall (λ q, (pkg_addr q < next)%nat) old;
  po_next : ss_next s = next;
  po_likely : ∀ q, ss_likely s = Some q → q ∈ old;
  po_errno : ss_errno s = None
}.

Lemma read_entry_ok old next s p bs :
  populated old next s → offerable p → cut_into (sync_desc p) bs → pkg_name p ∉ map pkg_name old → Z.of_nat (length old) < 414054 →
  ∃ s', sync_db_read fnmatch treename (entry_dir p ++ str "/desc") (map Block bs) s = Some (s', 0) ∧
    populated (old ++ [offered next treename p]) (S next) s'.
Proof.
  intros [Hi Hl Ha Hn Hlk He] Hp Hcut Hnew Hlen. unfold sync_db_read, load_pkg_for_entry.
  rewrite (entry_dir_split p Hp), (entry_dir_desc p), (of_meta p Hp). subst old.
  assert (alpm_pkghash_find (ss_hash s) (pkg_name p) = Some None) as Hfind.
  { rewrite find_spec by done. f_equal. apply pkg_find_None; [apply Hi|done]. }
  rewrite Hfind.
  replace (match ss_likely s with Some q => _ | None => Some None end) with (@Some (option alpm_pkg_t) None).
  2: { destruct (ss_likely s) as [q|]; [|done]. specialize (Hlk q eq_refl).
       destruct (streq (pkg_name q) (pkg_name p)) eqn:E; [|by rewrite andb_false_r].
       apply streq_true in E. exfalso. apply Hnew. rewrite <-E. by apply list_elem_of_fmap_2. }
  cbn [Z.eqb negb]. rewrite Hn. set (e := new_entry _ _ _ _ _).
  assert (next ∉ map pkg_addr (hash_list (ss_hash s))) as Haddr.
  { intros (q & Eq & Hq)%list_elem_of_fmap. rewrite Forall_forall in Ha. apply Ha in Hq. cbn in Eq. lia. }
  destruct (add_fits (ss_hash s) e Hi) as (hash1 & -> & Hi1 & Hl1); [done|done|done|done|].
  evals (is_package_file (str "desc")) true. unfold e. rewrite (read_written next treename p bs (of_sync p Hp) Hcut).
  eexists. split; [reflexivity|].
  assert (hash_list (pkghash_update (offered next treename p) hash1) =
          hash_list (ss_hash s) ++ [offered next treename p]) as Hlist.
  { cbn [pkghash_update hash_list]. rewrite Hl1. by apply update_last. }
  split; cbn [ss_hash ss_next ss_likely ss_errno].
  - apply update_inv; [done|]. rewrite Hl1. intros q [Hq| ->%list_elem_of_singleton]%elem_of_app Eq; [|done].
    exfalso. apply Haddr. cbn in Eq. rewrite <-Eq. by apply list_elem_of_fmap_2.
  - done.
  - apply Forall_app. split; [eapply Forall_impl; [exact Ha|]; cbn; lia|]. constructor; [cbn; lia|constructor].
  - done.
  - intros q [= <-]. apply elem_of_app. right. by left.
  - done.
Qed.

Lemma populate_written ps blocks old next s :
  Forall2 (λ p bs, cut_into (sync_desc p) bs) ps blocks → populated old next s → Forall offerable ps → NoDup (map pkg_name (old ++ ps)) →
  Z.of_nat (length old + length ps) < 414054 →
  ∃ s', populate_entries fnmatch treename (concat (zip_with db_entries ps blocks)) 0 s = Some (s', 0) ∧
    populated (old ++ offers next ps) (next + length ps) s'.
Proof.
  intros Hcut Hs Hps. revert old next s Hs Hps.
  induction Hcut as [|p bs ps blocks Hbs Hcut IH]; intros old next s Hs Hps Hnd Hlen.
  { exists s. split; [done|]. rewrite app_nil_r, Nat.add_0_r. done. }
  apply Forall_cons in Hps as [Hp Hps].
  cbn [zip_with concat db_entries app populate_entries ae_dir ae_path ae_data offers length] in *.
  destruct (read_entry_ok old next s p bs Hs Hp Hbs) as (s1 & -> & Hs1); [|lia|].
  { rewrite map_app in Hnd. apply NoDup_app in Hnd as (_ & Hd & _). intros Hin. apply (Hd _ Hin). by left. }
  cbn [mbind option_bind Z.eqb negb].
  destruct (IH (old ++ [offered next treename p]) (S next) s1 Hs1 Hps) as (s2 & -> & Hs2).
  - rewrite <-app_assoc, !map_app in *. exact Hnd.
  - rewrite length_app. cbn. lia.
  - exists s2. split; [done|]. rewrite <-app_assoc in Hs2. cbn [app] in Hs2.
    by replace (next + S (length ps))%nat with (S next + length ps)%nat by lia.
Qed.
End written.

(** ** Facts: any archive *)

(** What reading an entry leaves alone. *)
Definition ident (p : alpm_pkg_t) := (pkg_addr p, pkg_name p, pkg_version p, pkg_name_hash p).
Definition filename_ok (p : alpm_pkg_t) : Prop :=
  ∀ f, pkg_filename p = Some f → alpm_validate_filename f = 0.

Definition keeps (pkg p : alpm_pkg_t) : Prop := ident p = ident pkg ∧ (filename_ok pkg → filename_ok p).

Lemma keeps_trans p q r : keeps p q → keeps q r → keeps p r.
Proof. intros [H1 H2] [H3 H4]. split; [congruence|auto]. Qed.

Definition read_keeps (pkg : alpm_pkg_t) (r : read_result) : Prop :=
  match r with
  | ReadOk p => keeps pkg p
  | ReadErr p => ident p = ident pkg
  | ReadUB => True
  end.

Definition key_keeps (pkg : alpm_pkg_t) (r : read_result + read_buffer * alpm_pkg_t) : Prop :=
  match r with inl r => read_keeps pkg r | inr (_, p) => keeps pkg p end.

Lemma read_xdata_keeps l pkg : keeps pkg (read_xdata l pkg).1.
Proof.
  revert pkg. induction l as [|x l IH]; intros pkg; cbn [read_xdata]; [by split|].
  destruct (alpm_pkg_parse_xdata (Some x)) as [pd|]; [|by split]. eapply keeps_trans; [|apply IH]. by split.
Qed.

Lemma after_list_keeps e pkg p : keeps pkg p → key_keeps pkg (after_list e p).
Proof. intros H. destruct e; [done|apply H|done]. Qed.

(** A key of the table keeps the package, when its setter does. *)
Definition setter_ok {A} (set : alpm_pkg_t → A → alpm_pkg_t) : Prop := ∀ pkg x, keeps pkg (set pkg x).

Definition sync_key_ok (k : sync_key) : Prop :=
  match k with
  | SText set => setter_ok set
  | SSize set => setter_ok set
  | SLines _ set => setter_ok set
  | SDeps _ set => setter_ok set
  | _ => True
  end.

Lemma sync_key_of_ok line : sync_key_ok (sync_key_of line).
Proof.
  unfold sync_key_of. destruct (find_first _ _) as [[x k]|] eqn:Ef; [|done].
  apply find_first_Some in Ef as [Hin _]. unfold sync_keys in Hin.
  repeat (apply elem_of_cons in Hin as [Hin|Hin]; [injection Hin as -> ->; first [done|intros ? ?; by split]|]).
  by apply not_elem_of_nil in Hin.
Qed.

Lemma validate_range filename : alpm_validate_filename filename = 0 ∨ alpm_validate_filename filename = -1.
Proof. unfold alpm_validate_filename. repeat case_if; auto. Qed.

Lemma read_sync_key_keeps k b pkg : sync_key_ok k → key_keeps pkg (read_sync_key k b pkg).
Proof.
  intros Hk. unfold read_sync_key. destruct k; cbn in Hk.
  all: try (destruct (sync_next b) as [[line b1]|]; [|done]).
  all: try (destruct (sync_all _ b) as [l e]).
  all: try (apply after_list_keeps; first [apply Hk|by split]).
  all: try (by split).
  all: try (by apply Hk).
  - destruct (alpm_validate_filename line <? 0) eqn:E; cbn; [done|]. split; [done|]. intros _ f [= <-].
    destruct (validate_range line) as [|H]; [done|]. by rewrite H in E.
  - destruct e; [by split|done..].
  - destruct e as [b1| |]; [|done..]. pose proof (read_xdata_keeps l pkg) as H.
    destruct (read_xdata l pkg) as [p []]; [done|]. apply H.
Qed.

Lemma read_sync_lines_keeps fuel b pkg : read_keeps pkg (read_sync_lines fuel b pkg).
Proof.
  revert b pkg. induction fuel as [|fuel IH]; intros b pkg; cbn [read_sync_lines]; [done|].
  destruct (alpm_archive_fgets b) as [l b1|ret]; [|by destruct (ret =? ARCHIVE_EOF); [split|]].
  destruct (stripped l) as [|c s]; [apply IH|].
  pose proof (read_sync_key_keeps _ b1 pkg (sync_key_of_ok (c_string (c :: s)))) as Hk.
  destruct (read_sync_key _ b1 pkg) as [r|[b2 p]]; [done|]. specialize (IH b2 p). cbn in Hk.
  destruct (read_sync_lines fuel b2 p); cbn in *; [by eapply keeps_trans|destruct Hk; congruence|done].
Qed.

Section any_archive.
Context (fnmatch : cstr → cstr → bool) (treename : cstr).

Definition meta_ok (p : alpm_pkg_t) : Prop :=
  alpm_pkg_check_meta fnmatch (Some (pkg_name p)) (Some (pkg_version p)) = 0.

(** The state between two entries, when [ret] is the result so far. *)
Record cache_state (ret : Z) (s : sync_state) : Prop := {
  cs_inv : pkghash_inv (ss_hash s);
  cs_addrs : Forall (λ q, (pkg_addr q < ss_next s)%nat) (hash_list (ss_hash s));
  cs_likely : ∀ q, ss_likely s = Some q → q ∈ hash_list (ss_hash s);
  cs_meta : Forall meta_ok (hash_list (ss_hash s));
  cs_files : ret = 0 → Forall filename_ok (hash_list (ss_hash s))
}.

Lemma cache_failed ret s : cache_state ret s → cache_state (-1) s.
Proof. intros []. by split. Qed.

(** A package of the table is filled in. *)
Lemma update_elem p0 p hash q :
  p0 ∈ hash_list hash → ident p = ident p0 →
  q ∈ hash_list (pkghash_update p hash) ↔ q = p ∨ q ∈ hash_list hash ∧ pkg_addr q ≠ pkg_addr p.
Proof.
  intros H0 Hid. injection Hid as Ha _ _ _. cbn [pkghash_update hash_list]. rewrite list_elem_of_fmap. unfold replace_pkg.
  split.
  - intros (x & -> & Hx). destruct (Nat.eqb_spec (pkg_addr x) (pkg_addr p)); [by left|by right].
  - intros [-> | [Hq Hne]].
    + exists p0. split; [|done]. by rewrite Ha, Nat.eqb_refl.
    + exists q. split; [|done]. by rewrite (proj2 (Nat.eqb_neq _ _) Hne).
Qed.

Lemma update_state p0 p hash :
  pkghash_inv hash → p0 ∈ hash_list hash → ident p = ident p0 → pkghash_inv (pkghash_update p hash).
Proof.
  intros Hi H0 Hid. apply update_inv; [done|]. intros q Hq Ea. injection Hid as Ha Hn _ Hh.
  assert (q = p0) as ->; [|done].
  apply (NoDup_map_inj pkg_addr (hash_list hash)); [apply Hi|done|done|congruence].
Qed.

(** The package of an entry is in the table. *)
Lemma load_entry_state ret s entryname :
  cache_state ret s →
  match load_pkg_for_entry fnmatch treename (ss_hash s) entryname (ss_likely s) (ss_next s) with
  | EntryPkg pkg hash next => cache_state ret (mk_sync hash next (ss_likely s) None) ∧ pkg ∈ hash_list hash
  | EntryNone _ next => cache_state ret (mk_sync (ss_hash s) next (ss_likely s) None)
  | EntryUB => True
  end.
Proof.
  intros [Hi Ha Hlk Hm Hf]. unfold load_pkg_for_entry.
  destruct (alpm_splitname entryname) as [| |name version hash] eqn:Es; [done|by split|].
  apply splitname_hash in Es as ->. rewrite (find_spec _ _ Hi).
  assert (∀ p, alpm_pkg_find (hash_list (ss_hash s)) name = Some p → p ∈ hash_list (ss_hash s)) as Hfind
    by (intros p [? _]%pkg_find_Some; done).
  assert (∀ l, Forall (λ q, (pkg_addr q < ss_next s)%nat) l → Forall (λ q, (pkg_addr q < S (ss_next s))%nat) l) as HS
    by (intros l H; eapply Forall_impl; [exact H|]; cbn; lia).
  destruct (match ss_likely s with Some p => _ | None => _ end) as [[p|]|] eqn:El; [| |done].
  { split; [by split|]. destruct (ss_likely s) as [q|]; [|injection El as El; by apply Hfind].
    destruct (_ && _); injection El as El; [subst q; by apply Hlk|by apply Hfind]. }
  destruct (negb _) eqn:Ec; [split; cbn; [done|by apply HS|done|done|done]|].
  apply negb_false_iff, Z.eqb_eq in Ec.
  set (e := new_entry _ _ _ _ _). unfold alpm_pkghash_add. pose proof (add_spec (ss_hash s) e false Hi) as Hadd.
  destruct (pkghash_add_pkg (ss_hash s) e false) as [h'|]; [|split; cbn; [done|by apply HS|done|done|done]].
  destruct Hadd as [Hi' Hl'].
  - done.
  - apply pkg_find_None; [apply Hi|]. destruct (ss_likely s) as [q|]; [destruct (_ && _); [done|]|]; by injection El.
  - intros (q & Eq & Hq)%list_elem_of_fmap. rewrite Forall_forall in Ha. apply Ha in Hq. cbn in Eq. lia.
  - split; [|rewrite Hl'; apply elem_of_app; right; by left]. split; cbn; [done|rewrite Hl'..].
    + apply Forall_app. split; [by apply HS|]. constructor; [cbn; lia|constructor].
    + intros q Hq. apply elem_of_app. left. by apply Hlk.
    + apply Forall_app. split; [done|]. by constructor.
    + intros Hr. apply Forall_app. split; [by apply Hf|]. constructor; [|constructor]. intros f [=].
Qed.

(** The table after an entry is read. *)
Lemma filled_state ret s pkg p likely :
  cache_state ret s → pkg ∈ hash_list (ss_hash s) → ident p = ident pkg → (ret = 0 → filename_ok p) →
  (∀ q, likely = Some q → q = p ∨ ∃ q0, ss_likely s = Some q0 ∧ q = replace_pkg p q0) →
  ∀ e, cache_state ret (mk_sync (pkghash_update p (ss_hash s)) (ss_next s) likely e).
Proof.
  intros [Hi Ha Hlk Hm Hf] Hp Hid Hfn Hl e. pose proof (λ q, update_elem pkg p (ss_hash s) q Hp Hid) as Hin.
  rewrite Forall_forall in Ha, Hm. split; cbn.
  - by eapply update_state.
  - rewrite Forall_forall. intros q [-> |[Hq _]]%Hin; [|by apply Ha]. injection Hid as -> _ _ _. by apply Ha.
  - intros q Hq. apply Hin. destruct (Hl q Hq) as [-> |(q0 & E & ->)]; [by left|].
    unfold replace_pkg. destruct (Nat.eqb_spec (pkg_addr q0) (pkg_addr p)); [by left|right].
    split; [by apply Hlk|done].
  - rewrite Forall_forall. intros q [-> |[Hq _]]%Hin; [|by apply Hm].
    injection Hid as _ Hn Hv _. unfold meta_ok. rewrite Hn, Hv. by apply Hm.
  - intros Hr. rewrite Forall_forall. specialize (Hf Hr). rewrite Forall_forall in Hf.
    intros q [-> |[Hq _]]%Hin; [by apply Hfn|by apply Hf].
Qed.

Lemma cache_errno ret hash next likely e e' :
  cache_state ret (mk_sync hash next likely e) → cache_state ret (mk_sync hash next likely e').
Proof. intros []. by split. Qed.

Lemma sync_db_read_state ret s entryname data s' r :
  cache_state ret s → sync_db_read fnmatch treename entryname data s = Some (s', r) →
  cache_state (if negb (r =? 0) then -1 else ret) s'.
Proof.
  intros Hs. unfold sync_db_read. pose proof (load_entry_state ret s entryname Hs) as Hl.
  destruct (load_pkg_for_entry _ _ _ _ _ _) as [pkg hash next|e next|]; [| |done].
  2: { intros [= <- <-]. cbn. eapply cache_failed, cache_errno. exact Hl. }
  destruct Hl as [Hl Hp]. destruct (entry_filename entryname) as [filename|].
  2: { intros [= <- <-]. eapply cache_errno. exact Hl. }
  destruct (is_package_file filename).
  2: { intros [= <- <-]. eapply cache_errno. exact Hl. }
  pose proof (read_sync_lines_keeps (S (left_to_read (open_buffer MAX_LINE data))) (open_buffer MAX_LINE data) pkg) as Hk.
  fold (read_sync_entry data pkg) in Hk. pose proof (cs_files _ _ Hl) as Hf. cbn in Hf.
  destruct (read_sync_entry data pkg) as [p|p|]; [| |done]; intros [= <- <-]; cbn [negb Z.eqb].
  - destruct Hk as [Hid Hfn]. apply (filled_state ret _ pkg p (Some p) Hl Hp Hid).
    + intros Hr. apply Hfn. specialize (Hf Hr). rewrite Forall_forall in Hf. by apply Hf.
    + intros q [= <-]. by left.
  - apply (filled_state (-1) _ pkg p _ (cache_failed _ _ Hl) Hp Hk); [done|].
    intros q. cbn. destruct (ss_likely s) as [q0|]; [|done]. intros [= <-]. right. by exists q0.
Qed.

Lemma populate_entries_state l ret s s' r :
  cache_state ret s → populate_entries fnmatch treename l ret s = Some (s', r) → cache_state r s'.
Proof.
  revert ret s. induction l as [|e l IH]; intros ret s Hs; cbn [populate_entries]; [by intros [= <- <-]|].
  destruct (ae_dir e); [by apply IH|].
  destruct (sync_db_read fnmatch treename (ae_path e) (ae_data e) s) as [[s1 r1]|] eqn:E; [|done].
  cbn [mbind option_bind]. apply IH. by eapply sync_db_read_state.
Qed.
End any_archive.

Lemma sort_cache_spec l : sort_cache l ≡ₚ l ∧ StronglySorted by_name (sort_cache l).
Proof.
  unfold sort_cache. destruct l as [|p l]; [split; [done|constructor]|].
  split; [apply msort_perm|by apply msort_rec_sorted; [apply _|..]].
Qed.

Lemma populate_entries_ret fnmatch treename l ret s s' r :
  ret = 0 ∨ ret = -1 → populate_entries fnmatch treename l ret s = Some (s', r) → r = 0 ∨ r = -1.
Proof.
  revert ret s. induction l as [|e l IH]; intros ret s Hr; cbn [populate_entries]; [by intros [= _ <-]|].
  destruct (ae_dir e); [by apply IH|]. destruct (sync_db_read _ _ _ _ _) as [[s1 r1]|]; [|done].
  cbn [mbind option_bind]. apply IH. destruct (negb _); [by right|done].
Qed.

(** ** Theorems *)

(** The number of packages that the table is created for. *)
Definition expected_count (h : alpm_handle_t) (a : db_archive) : Z :=
  let est := estimate_package_count (da_size a) (da_compression a) in
  if streq (default [] (o_dbext (h_options h))) (str ".files") then est / 4 else est.

(** C19. Reading a sync database: from an archive with the entry of every package of
    [ps] as dulge-repo-add writes it, the cache has exactly these packages with
    all the fields that an entry records, sorted by name, and the table keeps its
    invariant. libarchive may cut the data of an entry into any blocks of which the
    first is no shorter than the longest line ([cut_into]): otherwise the line
    buffer may move, and a dependency list is then read through a stale pointer
    ([dependency_list_stale_pointer]). *)
Theorem sync_db_populate_correct (fnmatch : cstr → cstr → bool) (open : cstr → alpm_errno_t + db_archive)
    (h : alpm_handle_t) (db : alpm_db_t) (dbpath : cstr) (a : db_archive) (ps : list alpm_pkg_t)
    (blocks : list (list cstr)) :
  has_flag (db_status db) DB_STATUS_INVALID = false → has_flag (db_status db) DB_STATUS_MISSING = false →
  alpm_db_path h db = Some dbpath → open dbpath = inr a →
  Forall2 (λ p bs, cut_into (sync_desc p) bs) ps blocks →
  da_entries a = concat (zip_with db_entries ps blocks) → da_ret a = ARCHIVE_EOF →
  is_Some (alpm_pkghash_create (expected_count h a)) → Z.of_nat (length ps) < 414054 →
  NoDup (map pkg_name ps) → Forall (offerable fnmatch) ps →
  ∃ h' db', sync_db_populate fnmatch open h db = Some (h', db', 0) ∧ db_inv db' ∧
    StronglySorted by_name (db_packages db') ∧ db_packages db' ≡ₚ offers (db_treename db) (h_next h) ps.
Proof.
  intros H1 H2 Hpath Hopen Hcut Hent Hret [hash0 Hc] Hlen Hnd Hps. unfold sync_db_populate.
  rewrite H1, H2, Hpath, Hopen. unfold expected_count in Hc. rewrite Hc. destruct (create_inv _ _ Hc) as (Hi0 & Hnil & _).
  destruct (populate_written fnmatch (db_treename db) ps blocks [] (h_next h) (mk_sync hash0 (h_next h) None None))
    as (s & Hs & [Hi Hl _ Hn _ He]); [done|split; [done|done|constructor|done|done|done]|done|done|done|].
  rewrite Hent, Hs. cbn [mbind option_bind]. rewrite Hret, He. cbn [Z.eqb negb ARCHIVE_EOF Pos.eqb app] in *.
  destruct (sort_cache_spec (hash_list (ss_hash s))) as [Hperm Hsort].
  eexists _, _. split; [reflexivity|].
  cbn [db_inv db_pkgcache db_packages db_set_caches hash_list].
  split_and!; [by apply inv_relist|done|]. by rewrite Hperm, Hl.
Qed.

(** C20. Whatever a database archive has in it: a load that succeeds leaves a sorted
    cache whose table keeps its invariant, of packages with distinct names and
    accepted metadata, whose file names stay in the cache directory; a load that
    fails leaves no cache. *)
Theorem sync_db_populate_safe (fnmatch : cstr → cstr → bool) (open : cstr → alpm_errno_t + db_archive)
    (h h' : alpm_handle_t) (db db' : alpm_db_t) (rc : Z) :
  db_pkgcache db = None → sync_db_populate fnmatch open h db = Some (h', db', rc) →
  (rc = 0 ∧ db_inv db' ∧ StronglySorted by_name (db_packages db') ∧ NoDup (map pkg_name (db_packages db')) ∧
   Forall (λ p, meta_ok fnmatch p ∧ filename_ok p) (db_packages db')) ∨
  (rc = -1 ∧ db_pkgcache db' = None).
Proof.
  intros H0. unfold sync_db_populate.
  destruct (has_flag (db_status db) DB_STATUS_INVALID); [intros [= <- <- <-]; by right|].
  destruct (has_flag (db_status db) DB_STATUS_MISSING); [intros [= <- <- <-]; by right|].
  destruct (alpm_db_path h db) as [path|]; [|intros [= <- <- <-]; by right].
  destruct (open path) as [e|a]; [intros [= <- <- <-]; by right|].
  destruct (alpm_pkghash_create _) as [hash0|] eqn:Ec; [|intros [= <- <- <-]; by right].
  destruct (create_inv _ _ Ec) as (Hi0 & Hnil & _).
  destruct (populate_entries _ _ _ _ _) as [[s ret]|] eqn:Ep; [|done]. cbn [mbind option_bind].
  pose proof (populate_entries_ret _ _ _ _ _ _ _ (or_introl eq_refl) Ep) as Hret.
  apply populate_entries_state in Ep.
  2: { split; cbn; rewrite ?Hnil; [done|constructor|done|constructor|constructor]. }
  assert (∀ db, db_pkgcache (alpm_db_free_pkgcache db) = None) as Hfree.
  { intros x. unfold alpm_db_free_pkgcache, free_groupcache. destruct (db_pkgcache x) eqn:E; [|done]. by case_if. }
  destruct (Z.eqb_spec ret (-1)); [intros [= <- <- <-]; right; by rewrite Hfree|].
  destruct (negb _); [intros [= <- <- <-]; right; by rewrite Hfree|]. intros [= <- <- <-]. left.
  destruct (sort_cache_spec (hash_list (ss_hash s))) as [Hperm Hsort].
  destruct Ep as [Hi _ _ Hm Hf]. destruct Hret as [-> |]; [|done]. specialize (Hf eq_refl).
  cbn [db_inv db_pkgcache db_packages db_set_caches hash_list].
  split_and!; [done|by apply inv_relist|done|rewrite Hperm; apply Hi|].
  rewrite Hperm. rewrite Forall_forall in Hm, Hf |- *. auto.
Qed.

(** Two packages; one with every kind of field. *)
Definition ex_offer : alpm_pkg_t :=
  set_depends (set_groups (set_base64_sig (set_filename (set_size (set_isize (set_builddate (set_desc
    (set_version (set_name (alpm_pkg_new 0) (str "foo")) (str "1.0-1")) (Some (str "a foo"))) 17) 4000) 1200)
    (Some (str "foo-1.0-1.pkg"))) (Some (str "aGVsbG8="))) [str "base"])
    [alpm_dep_from_string (str "glibc>=2"); alpm_dep_from_string (str "bar")].
Definition ex_offer2 : alpm_pkg_t := set_version (set_name (alpm_pkg_new 0) (str "bar")) (str "2-1").
(** The data of the first comes in three blocks. *)
Definition ex_blocks : list (list cstr) :=
  [[take 30 (sync_desc ex_offer); take 50 (drop 30 (sync_desc ex_offer)); drop 80 (sync_desc ex_offer)];
   [sync_desc ex_offer2]].
Definition ex_db_archive : db_archive :=
  mk_archive 1000 CompGzip (concat (zip_with db_entries [ex_offer; ex_offer2] ex_blocks)) ARCHIVE_EOF.
Definition ex_sync_db : alpm_db_t := alpm_db_new (str "core") false.

Lemma offer_field v : sline v → v ≠ [] → entry_field (Some v).
Proof. intros Hs Hn x [= <-]. done. Qed.
Lemma no_field : entry_field None.
Proof. done. Qed.
Lemma no_nul s : existsb is_nul s = false → NUL ∉ s.
Proof.
  intros H Hin. apply not_true_iff_false in H. apply H, existsb_exists. exists NUL.
  split; [by apply list_elem_of_In|done].
Qed.

Lemma ex_offer_ok : offerable (λ _ _, false) ex_offer.
Proof.
  split; [reflexivity|by do 3 right; left|vm_compute; set_solver|].
  split.
  - split; [apply offer_field; [by apply key_sline|done]|]. intros f [= <-]. reflexivity.
  - split; by apply key_sline.
  - repeat (constructor; [first [apply no_field|apply offer_field; [by apply key_sline|done]]|]). constructor.
  - done.
  - done.
  - split; [constructor; [split; [by apply key_sline|done]|constructor]|constructor].
  - repeat (constructor; [first [by constructor
      |repeat (constructor; [split; [vm_compute; reflexivity|split; [by apply key_sline|done]]|]); constructor]|]).
    constructor.
  - split; [|vm_compute; reflexivity]. by apply no_nul.
Qed.

Lemma ex_offer2_ok : offerable (λ _ _, false) ex_offer2.
Proof.
  split; [reflexivity|by right; left|vm_compute; set_solver|].
  split; [split; [done|intros f [=]]|split; by apply key_sline|by repeat constructor|done|done
    |split; constructor|by repeat constructor|].
  split; [|vm_compute; reflexivity]. by apply no_nul.
Qed.

Lemma cut_checked (text : cstr) bs :
  concat bs = text →
  forallb (λ d, negb (length d =? 0)%nat) bs && forallb (λ l, (length l <=? length (hd [] bs))%nat) (split_lines text) = true →
  cut_into text bs.
Proof.
  intros E [H1 H2]%andb_true_iff. split; [done| |].
  - apply Forall_forall. intros d Hd%list_elem_of_In ->. by apply (proj1 (forallb_forall _ _) H1) in Hd.
  - apply Forall_forall. intros l Hl%list_elem_of_In. by apply Nat.leb_le, (proj1 (forallb_forall _ _) H2).
Qed.

Lemma ex_blocks_ok : Forall2 (λ p bs, cut_into (sync_desc p) bs) [ex_offer; ex_offer2] ex_blocks.
Proof.
  constructor; [apply cut_checked; vm_compute; reflexivity|].
  constructor; [apply cut_checked; vm_compute; reflexivity|constructor].
Qed.

Lemma sync_db_populate_correct_witness :
  ∃ h' db', sync_db_populate (λ _ _, false) (λ _, inr ex_db_archive) empty_handle ex_sync_db = Some (h', db', 0) ∧
    db_packages db' ≡ₚ offers (str "core") 1000 [ex_offer; ex_offer2].
Proof.
  destruct (sync_db_populate_correct (λ _ _, false) (λ _, inr ex_db_archive) empty_handle ex_sync_db
    (str "/var/lib/dulge/sync/core.db") ex_db_archive [ex_offer; ex_offer2] ex_blocks) as (h' & db' & E & _ & _ & Hp);
    [reflexivity|reflexivity|reflexivity|reflexivity|exact ex_blocks_ok|reflexivity|reflexivity
    |vm_compute; by eexists|vm_compute; reflexivity| | |].
  - repeat constructor; set_solver.
  - constructor; [apply ex_offer_ok|constructor; [apply ex_offer2_ok|constructor]].
  - exists h', db'. split; [exact E|exact Hp].
Defined.

Lemma sync_db_populate_safe_witness :
  ∃ h' db', sync_db_populate (λ _ _, false) (λ _, inr ex_db_archive) empty_handle ex_sync_db = Some (h', db', 0) ∧
    NoDup (map pkg_name (db_packages db')).
Proof.
  assert (match sync_db_populate (λ _ _, false) (λ _, inr ex_db_archive) empty_handle ex_sync_db with
          | Some (_, _, rc) => rc =? 0 | None => false end = true) as H by (vm_compute; reflexivity).
  destruct (sync_db_populate (λ _ _, false) (λ _, inr ex_db_archive) empty_handle ex_sync_db) as [[[h' db'] rc]|] eqn:E;
    [|discriminate H].
  destruct (sync_db_populate_safe (λ _ _, false) (λ _, inr ex_db_archive) empty_handle h' ex_sync_db db' rc eq_refl E)
    as [(-> & _ & _ & Hn & _)|[-> _]]; [exists h', db'; split; [reflexivity|exact Hn]|discriminate H].
Defined.

(** A second directory for a package of the same name: its data is added to the
    package that is there. *)
Example second_entry_merged :
  let newer := set_depends (set_version ex_offer2 (str "3-1")) [alpm_dep_from_string (str "foo")] in
  let older := set_depends ex_offer2 [alpm_dep_from_string (str "foo")] in
  match sync_db_populate (λ _ _, false)
          (λ _, inr (mk_archive 1000 CompGzip (concat (zip_with db_entries [older; newer] [[sync_desc older]; [sync_desc newer]])) ARCHIVE_EOF))
          empty_handle ex_sync_db with
  | Some (_, db, rc) => rc = 0 ∧ map pkg_version (db_packages db) = [str "2-1"] ∧
      map (λ p, map dep_name (pkg_depends p)) (db_packages db) = [[str "foo"; str "foo"]]
  | None => False
  end.
Proof. vm_compute. done. Qed.

(** A dependency list with a line that does not fit the line buffer: the buffer
    is reallocated, and the list is read through the pointer that was taken
    before. *)
Example dependency_list_stale_pointer :
  read_sync_entry [Block (str "%DEPENDS%" ++ [newline] ++ str "a" ++ [newline] ++ str "a-dependency");
                   Block (str "-with-a-long-name" ++ [newline; newline])] (alpm_pkg_new 0) = ReadUB ∧
  read_sync_entry [Block (str "%GROUPS%" ++ [newline] ++ str "a" ++ [newline] ++ str "a-dependency");
                   Block (str "-with-a-long-name" ++ [newline; newline])] (alpm_pkg_new 0) =
  ReadOk (set_groups (alpm_pkg_new 0) [str "a"; str "a-dependency-with-a-long-name"]).
Proof. vm_compute. done. Qed.

(** What _alpm_validate_filename accepts: a name that stays in its directory. Its
    comment asks for three characters; an empty name is accepted. *)
Lemma validate_filename_spec filename :
  alpm_validate_filename filename = 0 ↔
  hd_chr filename ≠ "."%char ∧ "/"%char ∉ filename ∧ Z.of_nat (length filename) <= PATH_MAX.
Proof.
  unfold alpm_validate_filename. rewrite <-no_slash.
  destruct (Ascii.eqb_spec (hd_chr filename) "."%char); [by split; [|intros []]|].
  destruct (existsb is_slash filename); [by split; [|intros (_ & ? & _)]|].
  destruct (Z.ltb_spec PATH_MAX (Z.of_nat (length filename))); split; [done|lia|done|done].
Qed.

Example empty_filename : alpm_validate_filename [] = 0.
Proof. reflexivity. Qed.
