(* ===== verification/Fetch.v ===== *)
(** * Where downloads are stored

    The second half of lib/libalpm/dload.c (_alpm_download, alpm_fetch_pkgurl and
    their helpers) and the cache directories of util.c: finding a cached file and a
    directory to download to, the temporary directory of the sandbox, resuming in
    it and moving files out of it, and the download function of a front end. What a
    child process, mkstemp, mkdtemp, chown and the download function do is in
    [fetch_env]. *)
From S2P Require Import Prelude CString AlpmList Util Package PkgHash Handle Db FileOps Options PkgFile Download.
Local Open Scope Z_scope.

(** How the child that downloads in the sandbox ends. *)
Inductive child_end :=
  | ChildRuns
  | ChildNotStarted                  (* pipe or fork fails *)
  | ChildRefuses                     (* no such directory, or no sandbox *)
  | ChildKilled (sig : Z) (fs : fsys)
  | ChildLost.                       (* waitpid fails *)

Record fetch_env := mk_fetch_env {
  fe_dl : dl_env;
  fe_rounds : nat;                               (* how far the loop of curl_download_internal is followed *)
  fe_user : Z;                                   (* handle->user *)
  fe_getpwnam : cstr → bool;
  fe_chown : cstr → bool;                        (* succeeds *)
  fe_chmod : cstr → bool;
  fe_mtime : cstr → Z;
  fe_mktemp : option cstr;                       (* the characters that replace XXXXXX *)
  fe_makepath : cstr → bool;                     (* _alpm_makepath succeeds *)
  fe_writable : cstr → bool;                     (* W_OK, and some write bit is set *)
  fe_tmpdir : option cstr;                       (* getenv TMPDIR *)
  fe_stale_dir : bool;                           (* an unset stat buffer looks like a directory *)
  fe_fetchcb : option (fsys → cstr → cstr → bool → fsys * Z);
  fe_child : child_end
}.

Section fetch.
Context (fe : fetch_env).

Definition alpm_get_fullpath (path filename suffix : cstr) : cstr := path ++ filename ++ suffix.

(** ** Cache directories *)
Definition alpm_filecache_find (h : alpm_handle_t) (fs : fsys) (filename : cstr) : option cstr :=
  let path dir := take (PATH_MAX - 1) (dir ++ filename) in
  path <$> find (λ dir, match fs !! path dir with Some (NFile _) => true | _ => false end) (h_cachedirs h).

Definition alpm_filecache_exists (h : alpm_handle_t) (fs : fsys) (filename : cstr) : bool :=
  match alpm_filecache_find h fs filename with Some _ => true | None => false end.

(** A directory that can be used; a missing one is made. *)
Fixpoint usable_cachedir (fs : fsys) (dirs : list cstr) : option cstr :=
  match dirs with
  | [] => None
  | dir :: dirs =>
      match lstat fs dir with
      | None => if fe_makepath fe dir then Some dir else usable_cachedir fs dirs
      | Some (NFile _) => usable_cachedir fs dirs
      | Some NDir => if fe_writable fe dir then Some dir else usable_cachedir fs dirs
      end
  end.

(** TMPDIR is used only if stat fails for it, and S_ISDIR then reads what an earlier
    call left. *)
Definition alpm_filecache_setup (h : alpm_handle_t) (fs : fsys) : option (alpm_handle_t * option cstr) :=
  match usable_cachedir fs (h_cachedirs h) with
  | Some dir => Some (h, Some dir)
  | None =>
      let tmpdir := match fe_tmpdir fe with
                    | Some tmpdir => match lstat fs tmpdir with
                                     | None => if fe_stale_dir fe then tmpdir else str "/tmp"
                                     | Some _ => str "/tmp"
                                     end
                    | None => str "/tmp"
                    end in
      '(h, _) ← alpm_option_add_cachedir (Some tmpdir) h;
      Some (h, last (h_cachedirs h))
  end.

(** ** The sandbox *)
Definition alpm_use_sandbox (h : alpm_handle_t) : bool :=
  (fe_user fe =? 0) && match o_sandboxuser (h_options h) with Some _ => true | None => false end
  && ((o_disable_sandbox_filesystem (h_options h) =? 0) || (o_disable_sandbox_syscalls (h_options h) =? 0)).

Definition sandbox_user_exists (h : alpm_handle_t) : bool :=
  match o_sandboxuser (h_options h) with Some user => fe_getpwnam fe user | None => false end.

(** The directory to download to, and the files with it. *)
Definition alpm_download_dir_setup (h : alpm_handle_t) (fs : fsys) (dir : option cstr)
    : alpm_handle_t * fsys * option cstr :=
  match dir with
  | None => (set_errno ALPM_ERR_WRONG_ARGS h, fs, None)
  | Some dir =>
      if alpm_use_sandbox h then
        if negb (sandbox_user_exists h) then (set_errno ALPM_ERR_RETRIEVE_PREPARE h, fs, None)
        else match fe_mktemp fe with
             | None => (set_errno ALPM_ERR_RETRIEVE_PREPARE h, fs, None)
             | Some chars =>
                 let newdir := dir ++ str "download-" ++ chars in
                 let fs := <[newdir := NDir]> fs in
                 if fe_chown fe newdir then (h, fs, Some (newdir ++ str "/"))
                 else (set_errno ALPM_ERR_RETRIEVE_PREPARE h, fs, None)
             end
      else (h, fs, Some dir)
  end.

Definition alpm_remove_temporary_download_dir (fs : fsys) (dir : cstr) : fsys :=
  match readdir fs dir with
  | None => fs
  | Some entries =>
      let fs := fold_left (λ fs name,
        if (PATH_MAX <? length dir + length name + 2)%nat then fs
        else match unlink (de_sys (fe_dl fe)) fs (dir_prefix dir ++ name) with Some fs => fs | None => fs end) entries fs in
      match rmdir (de_sys (fe_dl fe)) fs dir with Some fs => fs | None => fs end
  end.

(** ** Moving files *)

(** 1: the file was empty, and is removed. *)
Definition finalize_download_file (fs : fsys) (filename : cstr) : fsys * Z :=
  match stat_size (fe_dl fe) fs filename with
  | None => (fs, -1)
  | Some 0 => (match unlink (de_sys (fe_dl fe)) fs filename with Some fs => fs | None => fs end, 1)
  | Some _ =>
      if (fe_user fe =? 0) && negb (fe_chown fe filename) then (fs, -1)
      else if fe_chmod fe filename then (fs, 0) else (fs, -1)
  end.

Definition move_file (fs : fsys) (filepath directory : cstr) : fsys * Z :=
  let '(fs, ret) := finalize_download_file fs filepath in
  if negb (ret =? 0) then (fs, ret)
  else match rename (de_sys (fe_dl fe)) fs filepath (alpm_get_fullpath directory (mbasename filepath) []) with
       | Some fs => (fs, 0)
       | None => (fs, -1)
       end.

(** The file that a payload left in the temporary directory. *)
Definition downloaded_file (fs : fsys) (s : payload_spec) : option cstr :=
  match ps_destfile_name s with
  | Some dest => match fs !! dest, fs !! ps_tempfile_name s with
                 | Some _, _ => Some dest
                 | None, Some _ => Some (ps_tempfile_name s)
                 | None, None => None
                 end
  | None => match fs !! ps_tempfile_name s with Some _ => Some (ps_tempfile_name s) | None => None end
  end.

Definition finalize_payload (localpath : cstr) (acc : fsys * Z) (p : dload_payload) : fsys * Z :=
  let '(fs, returnvalue) := acc in
  let s := p_spec p in
  let '(fs, returnvalue) := match downloaded_file fs s with
                            | None => (fs, returnvalue)
                            | Some filename =>
                                let '(fs, ret) := move_file fs filename localpath in
                                (fs, if (ret =? -1) && (ps_mtime_existing_file s =? 0) then -1 else returnvalue)
                            end in
  let fs := if ps_download_signature s then
              let '(fs, ret) := move_file fs (alpm_get_fullpath [] (realname s) (str ".sig")) localpath in
              if ret =? -1 then (move_file fs (alpm_get_fullpath [] (realname s) (str ".sig.part")) localpath).1 else fs
            else fs in
  (fs, returnvalue).

Definition finalize_download_locations (fs : fsys) (payloads : list dload_payload) (localpath : cstr) : fsys * Z :=
  match payloads with
  | [] => (fs, -1)
  | _ => fold_left (finalize_payload localpath) payloads (fs, 0)
  end.

(** ** Resuming *)
Definition set_mtime (mtime : Z) (p : dload_payload) : dload_payload :=
  let s := p_spec p in
  mk_payload (mk_pspec (ps_remote_name s) (ps_tempfile_name s) (ps_destfile_name s) (ps_filepath s) mtime (ps_max_size s)
                (ps_force s) (ps_allow_resume s) (ps_errors_ok s) (ps_download_signature s) (ps_signature_optional s) (ps_signature s))
    (p_fileurl p) (p_cache_servers p) (p_servers p) (p_respcode p) (p_initial_size p) (p_unlink_on_fail p)
    (p_request_errors_ok p) (p_append p) (p_localf p).

Definition nonempty (fs : fsys) (path : cstr) : bool :=
  match stat_size (fe_dl fe) fs path with Some size => negb (size =? 0) | None => false end.

Definition note_existing (fs : fsys) (localpath : cstr) (p : dload_payload) : dload_payload :=
  match ps_destfile_name (p_spec p) with
  | Some dest =>
      let path := alpm_get_fullpath localpath (mbasename dest) [] in
      if nonempty fs path then set_mtime (fe_mtime fe path) p else p
  | None => p
  end.

(** The loop ends at the first file that chown succeeds for: the condition of the
    ASSERT is its return value, which is 0 then. *)
Fixpoint prepare_payloads (sandbox : bool) (localpath : cstr) (fs : fsys) (payloads : list dload_payload)
    : fsys * list dload_payload :=
  match payloads with
  | [] => (fs, [])
  | p :: rest =>
      let p := note_existing fs localpath p in
      let next fs := let '(fs, rest) := prepare_payloads sandbox localpath fs rest in (fs, p :: rest) in
      let src := alpm_get_fullpath localpath (mbasename (tempfile_name p)) [] in
      if negb sandbox then next fs
      else if negb (nonempty fs src) then next fs
      else match rename (de_sys (fe_dl fe)) fs src (tempfile_name p) with
           | None => next fs
           | Some fs => if fe_chown fe (tempfile_name p) then (fs, p :: rest) else next fs
           end
  end.

Definition prepare_resumable_downloads (h : alpm_handle_t) (fs : fsys) (payloads : list dload_payload) (localpath : cstr)
    : fsys * list dload_payload :=
  if alpm_use_sandbox h && negb (sandbox_user_exists h) then (fs, payloads)
  else prepare_payloads (alpm_use_sandbox h) localpath fs payloads.

(** ** In the sandbox

    The child's files are those of the parent, but not its pm_errno and its errors by
    host. The last component is the signal that ended it. *)
Definition curl_download_internal_sandboxed (st : dl_state) (payloads : list dload_payload) : option (dl_state * Z * Z) :=
  match fe_child fe with
  | ChildNotStarted | ChildLost => Some (st, -1, 0)
  | ChildRefuses => Some (dl_errno ALPM_ERR_RETRIEVE st, -1, 0)
  | ChildKilled sig fs => Some (dl_errno ALPM_ERR_RETRIEVE (dl_fs fs st), -1, sig)
  | ChildRuns =>
      '(child, ret) ← curl_download_internal (fe_dl fe) (fe_rounds fe) st payloads;
      let st := dl_fs (d_fs child) st in
      Some (if ret =? 0 then (st, 0, 0) else (dl_errno ALPM_ERR_RETRIEVE st, if ret =? 1 then 1 else -1, 0))
  end.

(** ** The download function of the front end *)
Section fetchcb.
Context (fetchcb : fsys → cstr → cstr → bool → fsys * Z) (localpath : cstr).

(** The first server that delivers; [None]: no server. *)
Fixpoint fetch_servers (p : dload_payload) (filepath : cstr) (servers : list cstr) (fs : fsys) (ret : Z) (server : option cstr)
    : fsys * Z * option cstr :=
  match servers with
  | [] => (fs, ret, server)
  | s :: servers =>
      let '(fs, ret) := fetchcb fs (s ++ str "/" ++ filepath) localpath (ps_force (p_spec p)) in
      if negb (ret =? -1) then (fs, ret, Some s) else fetch_servers p filepath servers fs ret server
  end.

Definition fetch_signature (p : dload_payload) (url : cstr) (fs : fsys) (ret : Z) : fsys * Z :=
  if negb (ret =? -1) && ps_download_signature (p_spec p) then
    let '(fs, retsig) := fetchcb fs (url ++ str ".sig") localpath (ps_force (p_spec p)) in
    (fs, if ps_signature_optional (p_spec p) then ret else retsig)
  else (fs, ret).

(** [None]: a payload without URL has no filepath. *)
Definition fetch_payload (fs : fsys) (p : dload_payload) : option (fsys * Z) :=
  match p_fileurl p with
  | Some url =>
      let '(fs, ret) := fetchcb fs url localpath (ps_force (p_spec p)) in Some (fetch_signature p url fs ret)
  | None =>
      match p_cache_servers p ++ p_servers p with
      | [] => Some (fs, -1)
      | servers =>
          filepath ← ps_filepath (p_spec p);
          match fetch_servers p filepath servers fs (-1) None with
          | (fs, ret, Some server) => Some (fetch_signature p (server ++ str "/" ++ filepath) fs ret)
          | (fs, ret, None) => Some (fs, ret)
          end
      end
  end.

(** [inl]: a required file could not be fetched. *)
Fixpoint fetch_payloads (fs : fsys) (payloads : list dload_payload) (updated : bool) : option (fsys + fsys * Z) :=
  match payloads with
  | [] => Some (inr (fs, if updated then 0 else 1))
  | p :: payloads =>
      '(fs, ret) ← fetch_payload fs p;
      if (ret =? -1) && negb (errors_ok p) then Some (inl fs)
      else fetch_payloads fs payloads (updated || (ret =? 0))
  end.
End fetchcb.

(** ** _alpm_download *)
Definition finish_locations (h : alpm_handle_t) (payloads : list dload_payload) (localpath temporary_localpath : cstr)
    (st : dl_state) (ret childsig : Z) : dl_state * Z * Z :=
  let '(fs, finalize_ret) :=
    if alpm_use_sandbox h
    then let '(fs, fret) := finalize_download_locations (d_fs st) payloads localpath in
         (alpm_remove_temporary_download_dir fs temporary_localpath, fret)
    else (d_fs st, 0) in
  let st := dl_fs fs st in
  if negb (finalize_ret =? 0) && (ret =? 0) then (dl_errno ALPM_ERR_RETRIEVE st, -1, childsig) else (st, ret, childsig).

(** The last component: the signal that the process sends itself. *)
Definition alpm_download (h : alpm_handle_t) (st : dl_state) (payloads : list dload_payload)
    (localpath temporary_localpath : cstr) : option (dl_state * Z * Z) :=
  let '(fs, payloads) := prepare_resumable_downloads h (d_fs st) payloads localpath in
  let st := dl_fs fs st in
  match fe_fetchcb fe with
  | None =>
      '(st, ret, childsig) ← (if alpm_use_sandbox h then curl_download_internal_sandboxed st payloads
                              else '(st, ret) ← curl_download_internal (fe_dl fe) (fe_rounds fe) st payloads; Some (st, ret, 0));
      Some (finish_locations h payloads localpath temporary_localpath st ret childsig)
  | Some fetchcb =>
      r ← fetch_payloads fetchcb temporary_localpath (d_fs st) payloads false;
      match r with
      | inl fs => Some (dl_errno ALPM_ERR_EXTERNAL_DOWNLOAD (dl_fs fs st), -1, 0)
      | inr (fs, ret) => Some (finish_locations h payloads localpath temporary_localpath (dl_fs fs st) ret 0)
      end
  end.

(** ** alpm_fetch_pkgurl *)
Definition url_basename (url : cstr) : option cstr :=
  match split_last "/"%char url with
  | Some (_, []) | None => None
  | Some (_, base) => Some base
  end.

(** A cached file, with its signature if signatures are checked. *)
Definition cached_file (h : alpm_handle_t) (fs : fsys) (siglevel : Z) (url : cstr) : option cstr :=
  urlbase ← url_basename url;
  filepath ← alpm_filecache_find h fs urlbase;
  if has_flag siglevel ALPM_SIG_PACKAGE && negb (alpm_filecache_exists h fs (alpm_get_fullpath [] urlbase (str ".sig")))
  then None else Some filepath.

(** A payload for a URL; [None]: the temporary file cannot be made. *)
Definition url_payload (siglevel : Z) (temporary_cachedir : cstr) (fs : fsys) (url : cstr) : option (fsys * dload_payload) :=
  let remote_name := get_filename url in
  let sig := has_flag siglevel ALPM_SIG_PACKAGE in
  let optional := has_flag siglevel ALPM_SIG_PACKAGE_OPTIONAL in
  let named := match split_last "/"%char url with
               | Some (_, c) => has_substr (str ".pkg") (str "/" ++ c) && negb (bool_decide (remote_name = []))
               | None => false
               end in
  if named then
    Some (fs, mk_payload (mk_pspec remote_name (alpm_get_fullpath temporary_cachedir remote_name (str ".part"))
                            (Some (alpm_get_fullpath temporary_cachedir remote_name [])) None 0 0 false true false sig optional false)
                (Some url) [] [] 0 0 false false false false)
  else
    chars ← fe_mktemp fe;
    let randpath := temporary_cachedir ++ str "alpmtmp." ++ chars in
    Some (<[randpath := NFile []]> fs,
          mk_payload (mk_pspec (get_filename randpath) randpath None None 0 0 false false false sig optional false)
            (Some url) [] [] 0 0 true false false true).

(** The cached files, and the payloads of the others. *)
Fixpoint url_payloads (h : alpm_handle_t) (siglevel : Z) (temporary_cachedir : cstr) (fs : fsys) (urls fetched : list cstr)
    (payloads : list dload_payload) : fsys * option (list cstr * list dload_payload) :=
  match urls with
  | [] => (fs, Some (fetched, payloads))
  | url :: urls =>
      match cached_file h fs siglevel url with
      | Some filepath => url_payloads h siglevel temporary_cachedir fs urls (fetched ++ [filepath]) payloads
      | None =>
          match url_payload siglevel temporary_cachedir fs url with
          | None => (fs, None)
          | Some (fs, p) => url_payloads h siglevel temporary_cachedir fs urls fetched (payloads ++ [p])
          end
      end
  end.

(** The result: handle, state, return value, and the list that the caller gets. *)
Definition alpm_fetch_pkgurl (h : alpm_handle_t) (st : dl_state) (urls : list cstr)
    : option (alpm_handle_t * dl_state * Z * list cstr) :=
  let siglevel := alpm_option_get_remote_file_siglevel h in
  let h := check_handle h in
  '(h, cachedir) ← alpm_filecache_setup h (d_fs st);
  let '(h, fs, temporary_cachedir) := alpm_download_dir_setup h (d_fs st) cachedir in
  let st := dl_fs fs st in
  match temporary_cachedir, cachedir with
  | Some temporary_cachedir, Some cachedir =>
      let '(fs, r) := url_payloads h siglevel temporary_cachedir (d_fs st) urls [] [] in
      let st := dl_fs fs st in
      match r with
      | None => Some (h, st, -1, [])
      | Some (fetched, []) => Some (h, st, 0, fetched)
      | Some (fetched, payloads) =>
          '(st, ret, _) ← alpm_download h st payloads cachedir temporary_cachedir;
          if ret =? -1 then Some (set_errno ALPM_ERR_RETRIEVE h, st, -1, [])
          else
            let found := map (λ p, alpm_filecache_find h (d_fs st) (mbasename (realname (p_spec p)))) payloads in
            match mapM id found with
            | Some paths => Some (h, st, 0, fetched ++ paths)
            | None => Some (set_errno ALPM_ERR_RETRIEVE h, st, -1, [])
            end
      end
  | _, _ => Some (h, st, -1, [])
  end.

(** ** Facts *)
Definition in_cache (h : alpm_handle_t) (path : cstr) : Prop :=
  ∃ dir name, dir ∈ h_cachedirs h ∧ path = take (PATH_MAX - 1) (dir ++ name).

(** The first directory with a regular file of this name. *)
Lemma filecache_find_spec h fs name path :
  alpm_filecache_find h fs name = Some path → is_file fs path ∧ in_cache h path.
Proof.
  unfold alpm_filecache_find. destruct (find _ _) as [dir|] eqn:E; [|done]. intros [= <-].
  apply List.find_some in E as [Hin Hf]. split; [|exists dir, name; split; [by apply list_elem_of_In|done]].
  destruct (fs !! _) as [[|d]|] eqn:El; try done. by exists d.
Qed.

Lemma cached_file_spec h fs siglevel url path : cached_file h fs siglevel url = Some path → in_cache h path.
Proof.
  unfold cached_file. destruct (url_basename url) as [base|]; [|done]. cbn [mbind option_bind].
  destruct (alpm_filecache_find h fs base) as [p|] eqn:E; [|done]. cbn [mbind option_bind].
  destruct (_ && _); [done|]. intros [= <-]. by apply filecache_find_spec in E as [_ ?].
Qed.

Lemma url_payloads_spec h siglevel tmp urls : ∀ fs fetched payloads fs' fetched' payloads',
  url_payloads h siglevel tmp fs urls fetched payloads = (fs', Some (fetched', payloads')) →
  Forall (in_cache h) fetched →
  Forall (in_cache h) fetched' ∧ (length fetched' + length payloads' = length fetched + length payloads + length urls)%nat.
Proof.
  induction urls as [|url urls IH]; intros fs fetched payloads fs' fetched' payloads'; cbn [url_payloads].
  { intros [= <- <- <-] H. split; [done|cbn; lia]. }
  destruct (cached_file h fs siglevel url) as [path|] eqn:Ec.
  - intros H Hf. apply IH in H as [H1 H2]; [|apply Forall_app; split; [done|]; by repeat constructor; eapply cached_file_spec].
    split; [done|]. rewrite length_app in H2. cbn in *. lia.
  - destruct (url_payload siglevel tmp fs url) as [[fs1 p]|]; [|done]. intros H Hf. apply IH in H as [H1 H2]; [|done].
    split; [done|]. rewrite length_app in H2. cbn in *. lia.
Qed.

(** When alpm_fetch_pkgurl succeeds there is one path for each URL, in a cache
    directory, and the files that were downloaded are there. *)
Theorem fetch_pkgurl_correct (h : alpm_handle_t) (st : dl_state) (urls : list cstr) (h' : alpm_handle_t) (st' : dl_state)
    (paths : list cstr) :
  alpm_fetch_pkgurl h st urls = Some (h', st', 0, paths) →
  length paths = length urls ∧ Forall (in_cache h') paths ∧
  ∃ cached downloaded, paths = cached ++ downloaded ∧ Forall (is_file (d_fs st')) downloaded.
Proof.
  unfold alpm_fetch_pkgurl. set (siglevel := alpm_option_get_remote_file_siglevel h).
  destruct (alpm_filecache_setup _ _) as [[h1 cachedir]|]; [|done]. cbn [mbind option_bind].
  destruct (alpm_download_dir_setup h1 (d_fs st) cachedir) as [[h2 fs] [tmp|]]; [|by destruct cachedir].
  destruct cachedir as [cachedir|]; [|done].
  destruct (url_payloads h2 siglevel tmp _ urls [] []) as [fs1 [[fetched payloads]|]] eqn:Eu; [|done].
  apply url_payloads_spec in Eu as [Hc Hl]; [|done]. cbn in Hl.
  destruct payloads as [|p0 ps]; [|set (payloads := p0 :: ps) in *].
  { intros [= <- <- <-]. cbn in Hl. split_and!; [lia|done|]. exists fetched, []. by rewrite app_nil_r. }
  destruct (alpm_download h2 _ payloads cachedir tmp) as [[[st1 ret] sig]|]; [|done]. cbn [mbind option_bind].
  destruct (ret =? -1); [done|]. destruct (mapM id _) as [found|] eqn:Em; [|done]. intros [= <- <- <-].
  apply mapM_Some in Em. apply Forall2_length in Em as Hlen. rewrite length_map in Hlen.
  assert (Forall (λ path, is_file (d_fs st1) path ∧ in_cache h2 path) found) as Hf.
  { apply Forall_forall. intros path [i Hi]%list_elem_of_lookup. destruct (Forall2_lookup_r _ _ _ _ _ Em Hi) as (o & Ho & E).
    apply list_lookup_fmap_Some in Ho as (p & -> & _). by eapply filecache_find_spec. }
  split_and!; [rewrite length_app; cbn in *; lia| |].
  - apply Forall_app. split; [done|]. eapply Forall_impl; [exact Hf|]. by intros ? [].
  - exists fetched, found. split; [done|]. eapply Forall_impl; [exact Hf|]. by intros ? [].
Qed.
End fetch.

(** ** Examples *)
Definition ex_fetch_env (user : Z) (tmpdir : option cstr) : fetch_env :=
  mk_fetch_env (ex_denv ex_serve) 20 user (λ _, true) (λ _, true) (λ _, true) (λ _, 7) (Some (str "a1b2c3")) (λ _, false)
    (λ _, true) tmpdir true None ChildRuns.

Definition ex_sandboxed : alpm_handle_t :=
  set_cachedirs [str "/cache/"] (upd_options (λ o, mk_options (o_root o) (o_dbpath o) (o_logfile o) (o_lockfile o) (o_gpgdir o)
    (Some (str "alpm")) (o_dbext o) 0 0 ALPM_SIG_PACKAGE 0 ALPM_SIG_PACKAGE 0 0 0 1) empty_handle).

Definition ex_cache_fs : fsys :=
  <[str "/cache/a.pkg.part" := NFile (str "fi")]> (<[str "/cache/b.pkg.part" := NFile (str "fi")]> {[str "/cache" := NDir]}).

Definition ex_sandbox_payload (name : string) : dload_payload :=
  mk_payload (mk_pspec (str name) (str "/cache/download-a1b2c3/" ++ str name ++ str ".part")
                (Some (str "/cache/download-a1b2c3/" ++ str name)) None 0 0 false true false true false false)
    (Some (str "https://good.org/" ++ str name)) [] [] 0 0 false false false false.

(** A package and its signature, by way of the temporary directory. *)
Lemma fetch_pkgurl_correct_witness :
  ∃ h' st' paths,
    alpm_fetch_pkgurl (ex_fetch_env 0 None) ex_sandboxed (mk_dl ALPM_ERR_OK [] 0 ex_cache_fs) [str "https://good.org/a.pkg"]
      = Some (h', st', 0, paths) ∧
    length paths = 1%nat ∧ d_fs st' !! str "/cache/a.pkg" = Some (NFile (str "fifiles")) ∧
    d_fs st' !! str "/cache/a.pkg.sig" = Some (NFile (str "files")).
Proof.
  assert (∃ h' st' paths, alpm_fetch_pkgurl (ex_fetch_env 0 None) ex_sandboxed (mk_dl ALPM_ERR_OK [] 0 ex_cache_fs)
      [str "https://good.org/a.pkg"] = Some (h', st', 0, paths) ∧
    d_fs st' !! str "/cache/a.pkg" = Some (NFile (str "fifiles")) ∧ d_fs st' !! str "/cache/a.pkg.sig" = Some (NFile (str "files")))
    as (h' & st' & paths & E & H1 & H2).
  { eexists _, _, _. split; [vm_compute; reflexivity|]. split; vm_compute; reflexivity. }
  exists h', st', paths. destruct (fetch_pkgurl_correct _ _ _ _ _ _ _ E) as [Hl _]. split; [exact E|]. split; [exact Hl|]. by split.
Defined.

(** Of two partial files in the cache only the first is used again. *)
Example second_part_not_resumed :
  let '(fs, _) := prepare_resumable_downloads (ex_fetch_env 0 None) ex_sandboxed ex_cache_fs
                    [ex_sandbox_payload "a.pkg"; ex_sandbox_payload "b.pkg"] (str "/cache/") in
  (fs !! str "/cache/download-a1b2c3/a.pkg.part", fs !! str "/cache/download-a1b2c3/b.pkg.part") =
  (Some (NFile (str "fi")), None).
Proof. vm_compute. reflexivity. Qed.

(** A TMPDIR that exists is not used; one that does not exist can be. *)
Example tmpdir_inverted :
  let fs : fsys := {[str "/mytmp" := NDir]} in
  let dir tmp := '(_, dir) ← alpm_filecache_setup (ex_fetch_env 0 (Some (str tmp))) empty_handle fs; dir in
  (dir "/mytmp", dir "/missing") = (Some (str "/tmp/"), Some (str "/missing/")).
Proof. vm_compute. reflexivity. Qed.
