(* ===== verification/Ini.v ===== *)
(** * Configuration files and words

    src/common/ini.c and wordsplit of util-common.c: the parser of INI files
    with its callback, and the splitting of a command line into words with
    quotes and escapes. A callback works on a state; its result code stops the
    parser. [None] is undefined behaviour of a callback. *)
From S2P Require Import Prelude CString Util FileOps LocalDb.

(** ** parse_ini *)

(** strsep(&value, "="): the line up to the first '=', and the rest or NULL. *)
Definition strsep_eq (line : cstr) : cstr * option cstr :=
  match split_first "="%char line with
  | Some (key, value) => (key, Some value)
  | None => (line, None)
  end.

Section ini.
Context {ST : Type}.

(** line number, section, key, value *)
Abbreviation ini_parser_fn := (ST → Z → option cstr → option cstr → option cstr → option (ST * Z)).

(** The lines that safe_fgets(line, PATH_MAX, fp) returns. *)
Fixpoint ini_lines (fuel : nat) (data : cstr) : list cstr :=
  match fuel, data with
  | S fuel', _ :: _ => let '(line, rest) := take_line (PATH_MAX - 1) data in
                       line :: ini_lines fuel' rest
  | _, _ => []
  end.

Definition is_section (line : cstr) : bool :=
  Ascii.eqb (hd_chr line) "["%char && Ascii.eqb (List.last line NUL) "]"%char.

(** The loop over the lines, the last section name and the line number. *)
Fixpoint parse_lines (cb : ini_parser_fn) (lines : list cstr) (linenum : Z)
    (section_name : option cstr) (s : ST) : option (ST * Z) :=
  match lines with
  | [] => Some (s, 0%Z)
  | raw :: lines' =>
      let linenum := (linenum + 1)%Z in
      let line := strtrim raw in
      if bool_decide (line = []) || Ascii.eqb (hd_chr line) "#"%char
      then parse_lines cb lines' linenum section_name s
      else if is_section line then
        let name := removelast (tail line) in
        '(s, ret) ← cb s linenum (Some name) None None;
        if negb (ret =? 0)%Z then Some (s, ret) else parse_lines cb lines' linenum (Some name) s
      else
        let '(key, value) := strsep_eq line in
        '(s, ret) ← cb s linenum section_name (Some (strtrim key)) (strtrim <$> value);
        if negb (ret =? 0)%Z then Some (s, ret) else parse_lines cb lines' linenum section_name s
  end.

(** [data] is the contents of the file, or [None] when it cannot be opened. *)
Definition parse_ini (cb : ini_parser_fn) (data : option cstr) (s : ST) : option (ST * Z) :=
  match data with
  | None => cb s 0%Z None None None
  | Some data => parse_lines cb (ini_lines (length data) data) 0%Z None s
  end.
End ini.

(** ** wordsplit *)
Definition is_quote (c : ascii) : bool := Ascii.eqb c "'"%char || Ascii.eqb c "034"%char.
Definition backslash : ascii := "\"%char.

Definition add_counts (wordlen bytes : nat) (r : option (nat * nat)) : option (nat * nat) :=
  '(w, b) ← r; Some (wordlen + w, bytes + b).

(** The first pass: the length of the word without quotes and escapes, and the
    bytes it takes; [None] for unbalanced quotes. [q] is the open quote. *)
Fixpoint scan_word (q : option ascii) (s : cstr) : option (nat * nat) :=
  match s with
  | [] => match q with None => Some (0, 0) | Some _ => None end
  | c :: s' =>
      match q with
      | Some quote =>
          if Ascii.eqb c quote then add_counts 0 1 (scan_word None s')
          else if Ascii.eqb c backslash && Ascii.eqb (hd_chr s') quote then
            match s' with _ :: s'' => add_counts 1 2 (scan_word q s'') | [] => None end
          else add_counts 1 1 (scan_word q s')
      | None =>
          if isspace c then Some (0, 0)
          else if is_quote c then add_counts 0 1 (scan_word (Some c) s')
          else if Ascii.eqb c backslash && is_quote (hd_chr s') then
            match s' with _ :: s'' => add_counts 1 2 (scan_word None s'') | [] => None end
          else add_counts 1 1 (scan_word None s')
      end
  end.

(** The second pass, over the bytes of the word: what is copied. *)
Fixpoint copy_word (q : option ascii) (s : cstr) : cstr :=
  match s with
  | [] => []
  | c :: s' =>
      match q with
      | Some quote =>
          if Ascii.eqb c quote then copy_word None s'
          else if Ascii.eqb c backslash && Ascii.eqb (hd_chr s') quote then
            match s' with d :: s'' => d :: copy_word q s'' | [] => [] end
          else c :: copy_word q s'
      | None =>
          if is_quote c then copy_word (Some c) s'
          else if Ascii.eqb c backslash && is_quote (hd_chr s') then
            match s' with d :: s'' => d :: copy_word None s'' | [] => [] end
          else c :: copy_word None s'
      end
  end.

(** The loop over the words; [None] for the error exit (EINVAL). *)
Fixpoint split_words (fuel : nat) (s : cstr) : option (list cstr) :=
  match fuel, s with
  | _, [] => Some []
  | O, _ => None
  | S fuel', _ =>
      '(wordlen, bytes) ← scan_word None s;
      let word := if (wordlen =? bytes)%nat then take wordlen s
                  else copy_word None (take bytes s) in
      match drop bytes s with
      | [] => Some [word]
      | _ :: rest => cons word <$> split_words fuel' (drop_while isspace rest)
      end
  end.

Definition wordsplit (str : option cstr) : option (list cstr) :=
  s ← str; let s := drop_while isspace s in split_words (length s) s.

(** ** Facts: the two passes *)
Lemma space_quote c : isspace c = true → is_quote c = false ∧ Ascii.eqb c backslash = false.
Proof. by_byte c. Qed.

Lemma quote_facts c : is_quote c = true → isspace c = false ∧ c ≠ backslash ∧ c ≠ NUL.
Proof. by_byte c. Qed.

(** The start of the rest of a word, seen from the word alone. *)
Lemma scan_head q s w b :
  (∀ quote, q = Some quote → is_quote quote = true) →
  scan_word q s = Some (w, b) →
  hd_chr (take b s) = hd_chr s ∨
  (hd_chr (take b s) = NUL ∧ q = None ∧ is_quote (hd_chr s) = false).
Proof.
  intros Hq. destruct s as [|c s]; [by rewrite take_nil; left|].
  destruct b as [|b]; [|by left]. simpl take. destruct q as [quote|]; simpl.
  - destruct (Ascii.eqb c quote).
    { destruct (scan_word None s) as [[? ?]|]; by intros [= ? ?]. }
    destruct (_ && _).
    { destruct s as [|d s]; [done|]. destruct (scan_word _ s) as [[? ?]|]; by intros [= ? ?]. }
    destruct (scan_word _ s) as [[? ?]|]; by intros [= ? ?].
  - destruct (isspace c) eqn:Es; [|].
    { right. split_and!; [done|done|]. by apply space_quote. }
    destruct (is_quote c).
    { destruct (scan_word _ s) as [[? ?]|]; by intros [= ? ?]. }
    destruct (_ && _).
    { destruct s as [|d s]; [done|]. destruct (scan_word _ s) as [[? ?]|]; by intros [= ? ?]. }
    destruct (scan_word _ s) as [[? ?]|]; by intros [= ? ?].
Qed.

Lemma add_counts_Some w1 b1 r w b :
  add_counts w1 b1 r = Some (w, b) → ∃ w2 b2, r = Some (w2, b2) ∧ w = w1 + w2 ∧ b = b1 + b2.
Proof. destruct r as [[w2 b2]|]; [|done]. intros [= <- <-]. eauto. Qed.

(** The second pass writes as many bytes as the first one counted, and without
    quotes and escapes it copies the word. *)
Lemma scan_copy q s w b :
  (∀ quote, q = Some quote → is_quote quote = true) →
  scan_word q s = Some (w, b) →
  (b <= length s) ∧ length (copy_word q (take b s)) = w ∧ (w <= b) ∧
  (w = b → q = None → copy_word q (take b s) = take b s) ∧ (q ≠ None → w < b).
Proof.
  intros Hq H. remember (length s) as n eqn:Hn. revert q s w b Hq H Hn.
  induction n as [n IH] using lt_wf_ind. intros q [|c s] w b Hq H ->; simpl in H.
  { destruct q; [done|]. by injection H as <- <-. }
  assert (∀ q' s' w' b', length s' < length (c :: s) → (∀ quote, q' = Some quote → is_quote quote = true) →
    scan_word q' s' = Some (w', b') → _) as IH'
    by exact (λ q' s' w' b' Hl Hq' H', IH _ Hl q' s' w' b' Hq' H' eq_refl). clear IH.
  destruct q as [quote|].
  - destruct (Ascii.eqb c quote) eqn:Ec.
    { apply add_counts_Some in H as (w2 & b2 & H & -> & ->).
      destruct (IH' None s w2 b2) as (I1 & I2 & I3 & I4 & _); [simpl; lia|done|done|].
      simpl. rewrite Ec. split_and!; [lia|done|lia|done|lia]. }
    destruct (Ascii.eqb c backslash && Ascii.eqb (hd_chr s) quote) eqn:Ee.
    { destruct s as [|d s]; [done|]. apply add_counts_Some in H as (w2 & b2 & H & -> & ->).
      destruct (IH' (Some quote) s w2 b2) as (I1 & I2 & I3 & I4 & I5); [simpl; lia|done|done|].
      simpl in *. rewrite Ec, Ee. simpl. rewrite I2. specialize (I5 ltac:(done)). split_and!; [lia|lia|lia|done|lia]. }
    apply add_counts_Some in H as (w2 & b2 & H & -> & ->).
    destruct (IH' (Some quote) s w2 b2) as (I1 & I2 & I3 & I4 & I5); [simpl; lia|done|done|].
    specialize (I5 ltac:(done)). simpl. rewrite Ec.
    destruct (scan_head _ _ _ _ Hq H) as [->|(_ & ? & _)]; [|done]. rewrite Ee. simpl. rewrite I2.
    split_and!; [lia|lia|lia|done|lia].
  - destruct (isspace c) eqn:Es; [by injection H as <- <-; simpl; split_and!; try lia|].
    destruct (is_quote c) eqn:Ec.
    { apply add_counts_Some in H as (w2 & b2 & H & -> & ->).
      destruct (IH' (Some c) s w2 b2) as (I1 & I2 & I3 & I4 & I5); [simpl; lia|by intros ? [= <-]|done|].
      specialize (I5 ltac:(done)). simpl. rewrite Ec. split_and!; [lia|done|lia|lia|done]. }
    destruct (Ascii.eqb c backslash && is_quote (hd_chr s)) eqn:Ee.
    { destruct s as [|d s]; [done|]. apply add_counts_Some in H as (w2 & b2 & H & -> & ->).
      destruct (IH' None s w2 b2) as (I1 & I2 & I3 & I4 & _); [simpl; lia|done|done|].
      simpl in *. rewrite Ec, Ee. simpl. rewrite I2. split_and!; [lia|lia|lia|lia|done]. }
    apply add_counts_Some in H as (w2 & b2 & H & -> & ->).
    destruct (IH' None s w2 b2) as (I1 & I2 & I3 & I4 & _); [simpl; lia|done|done|].
    simpl. rewrite Ec.
    assert (Ascii.eqb c backslash && is_quote (hd_chr (take b2 s)) = false) as ->.
    { destruct (scan_head None _ _ _ Hq H) as [->|(-> & _)]; [done|apply andb_false_r]. }
    simpl. rewrite I2. split_and!; [lia|lia|lia| |done]. intros. f_equal. apply I4; [lia|done].
Qed.

Lemma drop_while_length {A} (p : A → bool) (l : list A) : length (drop_while p l) <= length l.
Proof. rewrite <-(length_take_drop_while p l). lia. Qed.

(** The fuel does not matter when there is one unit per byte. *)
Lemma split_words_fuel n m s : length s <= n → length s <= m → split_words n s = split_words m s.
Proof.
  revert m s. induction n as [|n IH]; intros [|m] [|c s] Hn Hm; simpl in Hn, Hm; try lia; [done..|].
  cbn [split_words]. destruct (scan_word None (c :: s)) as [[w b]|] eqn:E; [|done]. cbn [mbind option_bind].
  destruct (drop b (c :: s)) as [|d rest] eqn:Ed; [done|]. f_equal.
  assert (length rest <= length s).
  { apply (f_equal length) in Ed. rewrite length_drop in Ed. simpl in Ed. lia. }
  pose proof (drop_while_length isspace rest). apply IH; lia.
Qed.

(** A word that goes through both passes. *)
Lemma split_words_word n s w b rest :
  scan_word None s = Some (w, b) → s ≠ [] → drop b s = rest → length s <= n →
  split_words n s =
    match rest with
    | [] => Some [copy_word None (take b s)]
    | _ :: rest' => cons (copy_word None (take b s)) <$>
                    (let s' := drop_while isspace rest' in split_words (length s') s')
    end.
Proof.
  intros H Hne Hd Hn. destruct s as [|c s]; [done|]. destruct n as [|n]; [simpl in Hn; lia|].
  cbn [split_words]. rewrite H. cbn [mbind option_bind]. rewrite Hd.
  destruct (scan_copy None (c :: s) w b ltac:(done) H) as (H1 & H2 & H3 & H4 & _).
  assert ((if (w =? b)%nat then take w (c :: s) else copy_word None (take b (c :: s)))
          = copy_word None (take b (c :: s))) as ->.
  { destruct (Nat.eqb_spec w b) as [->|]; [|done]. symmetry. by apply H4. }
  destruct rest as [|d rest']; [done|]. f_equal. apply split_words_fuel; [|done].
  apply (f_equal length) in Hd. rewrite length_drop in Hd. simpl in *.
  pose proof (drop_while_length isspace rest'). lia.
Qed.

(** ** Facts: quoting *)
Definition dquote : ascii := "034"%char.
Definition is_backslash (c : ascii) : bool := Ascii.eqb c backslash.

Fixpoint escape (s : cstr) : cstr :=
  match s with
  | [] => []
  | c :: s' => if Ascii.eqb c dquote then backslash :: c :: escape s' else c :: escape s'
  end.

(** A word as it is written: in double quotes, with trailing backslashes after
    them. *)
Definition quote_word (w : cstr) : cstr :=
  dquote :: escape (drop_while_end is_backslash w) ++ dquote ::
  drop (length (drop_while_end is_backslash w)) w.

Lemma in_quotes s rest :
  is_backslash (List.last s NUL) = false →
  scan_word (Some dquote) (escape s ++ dquote :: rest)
    = add_counts (length s) (S (length (escape s))) (scan_word None rest) ∧
  copy_word (Some dquote) (escape s ++ dquote :: rest) = s ++ copy_word None rest.
Proof.
  induction s as [|c s IH]; intros Hl.
  - simpl. by destruct (scan_word None rest) as [[? ?]|].
  - assert (s ≠ [] → is_backslash (List.last s NUL) = false) as Hl' by (by destruct s).
    destruct (decide (s = [])) as [->|Hs].
    + cbn [escape]. destruct (Ascii.eqb_spec c dquote) as [->|Hc].
      * simpl. by destruct (scan_word None rest) as [[? ?]|].
      * simpl. rewrite (proj2 (Ascii.eqb_neq _ _) Hc). simpl in Hl. unfold is_backslash in Hl. rewrite Hl.
        simpl. by destruct (scan_word None rest) as [[? ?]|].
    + destruct (IH (Hl' Hs)) as [I1 I2]. cbn [escape]. destruct (Ascii.eqb_spec c dquote) as [->|Hc].
      * simpl. rewrite I1, I2. split; [|done].
        destruct (scan_word None rest) as [[? ?]|]; [|done]. simpl. repeat f_equal; lia.
      * cbn [app scan_word copy_word]. rewrite (proj2 (Ascii.eqb_neq _ _) Hc).
        assert (Ascii.eqb c backslash && Ascii.eqb (hd_chr (escape s ++ dquote :: rest)) dquote = false) as ->.
        { destruct s as [|d s]; [done|]. simpl. destruct (Ascii.eqb_spec d dquote) as [->|Hd]; simpl.
          - apply andb_false_r.
          - rewrite (proj2 (Ascii.eqb_neq _ _) Hd). apply andb_false_r. }
        rewrite I1, I2. split; [|done].
        destruct (scan_word None rest) as [[? ?]|]; [|done]. simpl. repeat f_equal.
Qed.

Definition ends_word (rest : cstr) : Prop := rest = [] ∨ isspace (hd_chr rest) = true.

Lemma ends_word_scan rest : ends_word rest → scan_word None rest = Some (0, 0).
Proof. intros [->|H]; [done|]. destruct rest as [|c rest]; [done|]. simpl in *. by rewrite H. Qed.

Lemma after_quotes t rest :
  Forall (λ c, is_backslash c = true) t → ends_word rest →
  scan_word None (t ++ rest) = Some (length t, length t) ∧ copy_word None t = t.
Proof.
  intros Ht Hr. induction Ht as [|c t Hc Ht [I1 I2]]; [split; [by apply ends_word_scan|done]|].
  apply Ascii.eqb_eq in Hc as ->. cbn [app scan_word copy_word length].
  change (isspace backslash) with false. change (is_quote backslash) with false.
  assert (is_quote (hd_chr (t ++ rest)) = false ∧ is_quote (hd_chr t) = false) as [H1 H2].
  { destruct Ht as [|d t Hd _]; [|by apply Ascii.eqb_eq in Hd as ->]. split; [|done].
    destruct Hr as [->|Hr]; [done|]. by apply space_quote. }
  rewrite H1, H2, andb_false_r, I1, I2. done.
Qed.

Lemma quote_word_scan w rest :
  ends_word rest →
  scan_word None (quote_word w ++ rest) = Some (length w, length (quote_word w)) ∧
  copy_word None (quote_word w) = w.
Proof.
  intros Hr. destruct (drop_while_end_prefix is_backslash w) as (t & Hw & Ht).
  unfold quote_word. set (f := drop_while_end is_backslash w) in *.
  assert (drop (length f) w = t) as -> by (rewrite Hw at 1; by rewrite drop_app_length).
  assert (is_backslash (List.last f NUL) = false) as Hf.
  { destruct (decide (f = [])) as [->|Hne]; [done|]. unfold f, drop_while_end in *.
    destruct (drop_while is_backslash (reverse w)) as [|c l] eqn:E; [done|].
    apply drop_while_head in E. rewrite reverse_cons, last_last. done. }
  destruct (after_quotes t rest Ht Hr) as [A1 A2].
  destruct (in_quotes f (t ++ rest) Hf) as [B1 _]. destruct (in_quotes f t Hf) as [_ B2].
  split.
  - cbn [app scan_word]. change (isspace dquote) with false. change (is_quote dquote) with true.
    rewrite <-app_assoc. cbn [app]. rewrite B1, A1. simpl. rewrite Hw at 1.
    rewrite !length_app. simpl. repeat f_equal; lia.
  - cbn [copy_word]. change (is_quote dquote) with true. rewrite B2, A2. by rewrite <-Hw.
Qed.

Fixpoint unwords (ws : list cstr) : cstr :=
  match ws with
  | [] => []
  | [w] => quote_word w
  | w :: ws' => quote_word w ++ " "%char :: unwords ws'
  end.

Lemma unwords_split ws :
  drop_while isspace (unwords ws) = unwords ws ∧
  split_words (length (unwords ws)) (unwords ws) = Some ws.
Proof.
  induction ws as [|w [|v ws] IH]; [done| |].
  - split; [done|]. destruct (quote_word_scan w [] (or_introl eq_refl)) as [H1 H2].
    rewrite app_nil_r in H1. cbn [unwords]. rewrite (split_words_word _ _ _ _ [] H1); [|done| |done].
    + by rewrite firstn_all, H2.
    + apply drop_all.
  - split; [done|]. destruct IH as [I1 I2]. change (unwords (w :: v :: ws)) with
      (quote_word w ++ " "%char :: unwords (v :: ws)).
    destruct (quote_word_scan w (" "%char :: unwords (v :: ws)) (or_intror eq_refl)) as [H1 H2].
    rewrite (split_words_word _ _ _ _ (" "%char :: unwords (v :: ws)) H1); [|done| |done].
    + rewrite take_app_length, H2. cbv zeta. rewrite I1, I2. done.
    + apply drop_app_length.
Qed.

(** ** Properties *)

(** wordsplit on every input: it ends; the buffer of a word is filled exactly
    (the second pass writes the number of bytes that the first one counted); and
    words written in double quotes, with escaped quotes and trailing backslashes
    after them, come back unchanged, empty words and words with blanks and quotes
    included. *)
Theorem wordsplit_correct :
  (∀ s w b, scan_word None s = Some (w, b) → b <= length s ∧ length (copy_word None (take b s)) = w) ∧
  (∀ n s, length s <= n → split_words n s = split_words (length s) s) ∧
  (∀ ws, wordsplit (Some (unwords ws)) = Some ws).
Proof.
  split_and!.
  - intros s w b H. by destruct (scan_copy None s w b ltac:(done) H) as (? & ? & _).
  - intros n s Hn. by apply split_words_fuel.
  - intros ws. unfold wordsplit. cbn [mbind option_bind]. destruct (unwords_split ws) as [-> H]. exact H.
Qed.

Example wordsplit_example :
  wordsplit (Some (str " /bin/sh -c 'echo it'\'s  ok\ ")) =
    Some [str "/bin/sh"; str "-c"; str "echo it's"; str "ok\"].
Proof. vm_compute. reflexivity. Qed.
