(* ===== verification/Conf.v ===== *)
(** * Configuration

    src/dulge/conf.c and strreplace of util.c: the configuration of the front
    end. parse_ini reads the file and calls _parse_directive, which may include
    other files; setdefaults fills in what is missing; setup_libalpm passes the
    result on to the library. The files, glob, realpath, uname and isatty are
    parameters, and so are the paths chosen when the program is built. Messages,
    colours and callbacks are left out. [None] is undefined behaviour. *)
From S2P Require Import Prelude CString AlpmList Util Package PkgHash Handle Deps Db FileOps LocalDb LocalDir Options Ini.
From S2P Require Import PkgFile.
Local Open Scope Z_scope.

(** ** Data *)
Definition ALPM_SIG_DATABASE_OPTIONAL := Z.shiftl 1 11.
Definition ALPM_SIG_DATABASE_MARGINAL_OK := Z.shiftl 1 12.
Definition ALPM_SIG_DATABASE_UNKNOWN_OK := Z.shiftl 1 13.

Definition PM_OP_FILES := 8.
Definition PM_CLEAN_KEEPINST := 1.
Definition PM_CLEAN_KEEPCUR := Z.shiftl 1 1.
Definition PM_COLOR_UNSET := 0.
Definition PM_COLOR_OFF := 1.
Definition PM_COLOR_ON := 2.

(** A signature level and the mask of the bits that were given for it. *)
Record conf_level := mk_level { sl_level : Z; sl_mask : Z }.

Record config_repo_t := mk_repo {
  cr_name : cstr;
  cr_cache_servers : list cstr;
  cr_servers : list cstr;
  cr_usage : Z;
  cr_siglevel : conf_level
}.

(** The numbers of config_t that directives switch on. *)
Record conf_flags := mk_flags {
  cf_noprogressbar : Z;
  cf_checkspace : Z;
  cf_usesyslog : Z;
  cf_color : Z;
  cf_disable_dl_timeout : Z;
  cf_disable_sandbox_filesystem : Z;
  cf_disable_sandbox_syscalls : Z;
  cf_chomp : Z;
  cf_verbosepkglists : Z
}.

(** Its strings; NULL is [None]. *)
Record conf_paths := mk_paths {
  cf_rootdir : option cstr;
  cf_dbpath : option cstr;
  cf_logfile : option cstr;
  cf_gpgdir : option cstr;
  cf_sysroot : option cstr;
  cf_sandboxuser : option cstr
}.

(** Its lists of strings. *)
Record conf_lists := mk_lists {
  cf_hookdirs : list cstr;
  cf_cachedirs : list cstr;
  cf_architectures : list cstr;
  cf_holdpkg : list cstr;
  cf_ignorepkg : list cstr;
  cf_ignoregrp : list cstr;
  cf_assumeinstalled : list cstr;
  cf_noupgrade : list cstr;
  cf_noextract : list cstr;
  cf_overwrite_files : list cstr
}.

(** The members of config_t that conf.c uses, in groups; xfercommand_argc is the
    length of [cf_xfercommand_argv]. *)
Record config_t := mk_config {
  cf_op : Z;
  cf_flags : conf_flags;
  cf_paths : conf_paths;
  cf_lists : conf_lists;
  cf_siglevel : conf_level;
  cf_localfilesiglevel : conf_level;
  cf_remotefilesiglevel : conf_level;
  cf_parallel_downloads : Z;
  cf_cleanmethod : Z;
  cf_xfercommand : option cstr;
  cf_xfercommand_argv : list cstr;
  cf_repos : list config_repo_t
}.

Definition set_cf_flags (v : conf_flags) (c : config_t) : config_t :=
  mk_config (cf_op c) v (cf_paths c) (cf_lists c) (cf_siglevel c) (cf_localfilesiglevel c)
    (cf_remotefilesiglevel c) (cf_parallel_downloads c) (cf_cleanmethod c) (cf_xfercommand c)
    (cf_xfercommand_argv c) (cf_repos c).
Definition set_cf_paths (v : conf_paths) (c : config_t) : config_t :=
  mk_config (cf_op c) (cf_flags c) v (cf_lists c) (cf_siglevel c) (cf_localfilesiglevel c)
    (cf_remotefilesiglevel c) (cf_parallel_downloads c) (cf_cleanmethod c) (cf_xfercommand c)
    (cf_xfercommand_argv c) (cf_repos c).
Definition set_cf_lists (v : conf_lists) (c : config_t) : config_t :=
  mk_config (cf_op c) (cf_flags c) (cf_paths c) v (cf_siglevel c) (cf_localfilesiglevel c)
    (cf_remotefilesiglevel c) (cf_parallel_downloads c) (cf_cleanmethod c) (cf_xfercommand c)
    (cf_xfercommand_argv c) (cf_repos c).
Definition set_cf_siglevel (v : conf_level) (c : config_t) : config_t :=
  mk_config (cf_op c) (cf_flags c) (cf_paths c) (cf_lists c) v (cf_localfilesiglevel c)
    (cf_remotefilesiglevel c) (cf_parallel_downloads c) (cf_cleanmethod c) (cf_xfercommand c)
    (cf_xfercommand_argv c) (cf_repos c).
Definition set_cf_localfilesiglevel (v : conf_level) (c : config_t) : config_t :=
  mk_config (cf_op c) (cf_flags c) (cf_paths c) (cf_lists c) (cf_siglevel c) v (cf_remotefilesiglevel c)
    (cf_parallel_downloads c) (cf_cleanmethod c) (cf_xfercommand c) (cf_xfercommand_argv c) (cf_repos c).
Definition set_cf_remotefilesiglevel (v : conf_level) (c : config_t) : config_t :=
  mk_config (cf_op c) (cf_flags c) (cf_paths c) (cf_lists c) (cf_siglevel c) (cf_localfilesiglevel c) v
    (cf_parallel_downloads c) (cf_cleanmethod c) (cf_xfercommand c) (cf_xfercommand_argv c) (cf_repos c).
Definition set_cf_parallel_downloads (v : Z) (c : config_t) : config_t :=
  mk_config (cf_op c) (cf_flags c) (cf_paths c) (cf_lists c) (cf_siglevel c) (cf_localfilesiglevel c)
    (cf_remotefilesiglevel c) v (cf_cleanmethod c) (cf_xfercommand c) (cf_xfercommand_argv c) (cf_repos c).
Definition set_cf_cleanmethod (v : Z) (c : config_t) : config_t :=
  mk_config (cf_op c) (cf_flags c) (cf_paths c) (cf_lists c) (cf_siglevel c) (cf_localfilesiglevel c)
    (cf_remotefilesiglevel c) (cf_parallel_downloads c) v (cf_xfercommand c) (cf_xfercommand_argv c)
    (cf_repos c).
Definition set_cf_xfercommand (v : option cstr) (c : config_t) : config_t :=
  mk_config (cf_op c) (cf_flags c) (cf_paths c) (cf_lists c) (cf_siglevel c) (cf_localfilesiglevel c)
    (cf_remotefilesiglevel c) (cf_parallel_downloads c) (cf_cleanmethod c) v (cf_xfercommand_argv c)
    (cf_repos c).
Definition set_cf_xfercommand_argv (v : list cstr) (c : config_t) : config_t :=
  mk_config (cf_op c) (cf_flags c) (cf_paths c) (cf_lists c) (cf_siglevel c) (cf_localfilesiglevel c)
    (cf_remotefilesiglevel c) (cf_parallel_downloads c) (cf_cleanmethod c) (cf_xfercommand c) v (cf_repos c).
Definition set_cf_repos (v : list config_repo_t) (c : config_t) : config_t :=
  mk_config (cf_op c) (cf_flags c) (cf_paths c) (cf_lists c) (cf_siglevel c) (cf_localfilesiglevel c)
    (cf_remotefilesiglevel c) (cf_parallel_downloads c) (cf_cleanmethod c) (cf_xfercommand c)
    (cf_xfercommand_argv c) v.
Definition upd_flags (g : conf_flags → conf_flags) (c : config_t) : config_t := set_cf_flags (g (cf_flags c)) c.
Definition upd_paths (g : conf_paths → conf_paths) (c : config_t) : config_t := set_cf_paths (g (cf_paths c)) c.
Definition upd_lists (g : conf_lists → conf_lists) (c : config_t) : config_t := set_cf_lists (g (cf_lists c)) c.
Definition set_cf_noprogressbar (v : Z) : config_t → config_t := upd_flags (λ f,
  mk_flags v (cf_checkspace f) (cf_usesyslog f) (cf_color f) (cf_disable_dl_timeout f)
    (cf_disable_sandbox_filesystem f) (cf_disable_sandbox_syscalls f) (cf_chomp f) (cf_verbosepkglists f)).
Definition set_cf_checkspace (v : Z) : config_t → config_t := upd_flags (λ f,
  mk_flags (cf_noprogressbar f) v (cf_usesyslog f) (cf_color f) (cf_disable_dl_timeout f)
    (cf_disable_sandbox_filesystem f) (cf_disable_sandbox_syscalls f) (cf_chomp f) (cf_verbosepkglists f)).
Definition set_cf_usesyslog (v : Z) : config_t → config_t := upd_flags (λ f,
  mk_flags (cf_noprogressbar f) (cf_checkspace f) v (cf_color f) (cf_disable_dl_timeout f)
    (cf_disable_sandbox_filesystem f) (cf_disable_sandbox_syscalls f) (cf_chomp f) (cf_verbosepkglists f)).
Definition set_cf_color (v : Z) : config_t → config_t := upd_flags (λ f,
  mk_flags (cf_noprogressbar f) (cf_checkspace f) (cf_usesyslog f) v (cf_disable_dl_timeout f)
    (cf_disable_sandbox_filesystem f) (cf_disable_sandbox_syscalls f) (cf_chomp f) (cf_verbosepkglists f)).
Definition set_cf_disable_dl_timeout (v : Z) : config_t → config_t := upd_flags (λ f,
  mk_flags (cf_noprogressbar f) (cf_checkspace f) (cf_usesyslog f) (cf_color f) v
    (cf_disable_sandbox_filesystem f) (cf_disable_sandbox_syscalls f) (cf_chomp f) (cf_verbosepkglists f)).
Definition set_cf_disable_sandbox_filesystem (v : Z) : config_t → config_t := upd_flags (λ f,
  mk_flags (cf_noprogressbar f) (cf_checkspace f) (cf_usesyslog f) (cf_color f) (cf_disable_dl_timeout f) v
    (cf_disable_sandbox_syscalls f) (cf_chomp f) (cf_verbosepkglists f)).
Definition set_cf_disable_sandbox_syscalls (v : Z) : config_t → config_t := upd_flags (λ f,
  mk_flags (cf_noprogressbar f) (cf_checkspace f) (cf_usesyslog f) (cf_color f) (cf_disable_dl_timeout f)
    (cf_disable_sandbox_filesystem f) v (cf_chomp f) (cf_verbosepkglists f)).
Definition set_cf_chomp (v : Z) : config_t → config_t := upd_flags (λ f,
  mk_flags (cf_noprogressbar f) (cf_checkspace f) (cf_usesyslog f) (cf_color f) (cf_disable_dl_timeout f)
    (cf_disable_sandbox_filesystem f) (cf_disable_sandbox_syscalls f) v (cf_verbosepkglists f)).
Definition set_cf_verbosepkglists (v : Z) : config_t → config_t := upd_flags (λ f,
  mk_flags (cf_noprogressbar f) (cf_checkspace f) (cf_usesyslog f) (cf_color f) (cf_disable_dl_timeout f)
    (cf_disable_sandbox_filesystem f) (cf_disable_sandbox_syscalls f) (cf_chomp f) v).
Definition set_cf_rootdir (v : option cstr) : config_t → config_t := upd_paths (λ p,
  mk_paths v (cf_dbpath p) (cf_logfile p) (cf_gpgdir p) (cf_sysroot p) (cf_sandboxuser p)).
Definition set_cf_dbpath (v : option cstr) : config_t → config_t := upd_paths (λ p,
  mk_paths (cf_rootdir p) v (cf_logfile p) (cf_gpgdir p) (cf_sysroot p) (cf_sandboxuser p)).
Definition set_cf_logfile (v : option cstr) : config_t → config_t := upd_paths (λ p,
  mk_paths (cf_rootdir p) (cf_dbpath p) v (cf_gpgdir p) (cf_sysroot p) (cf_sandboxuser p)).
Definition set_cf_gpgdir (v : option cstr) : config_t → config_t := upd_paths (λ p,
  mk_paths (cf_rootdir p) (cf_dbpath p) (cf_logfile p) v (cf_sysroot p) (cf_sandboxuser p)).
Definition set_cf_sandboxuser (v : option cstr) : config_t → config_t := upd_paths (λ p,
  mk_paths (cf_rootdir p) (cf_dbpath p) (cf_logfile p) (cf_gpgdir p) (cf_sysroot p) v).
Definition set_cf_hookdirs (v : list cstr) : config_t → config_t := upd_lists (λ l,
  mk_lists v (cf_cachedirs l) (cf_architectures l) (cf_holdpkg l) (cf_ignorepkg l) (cf_ignoregrp l)
    (cf_assumeinstalled l) (cf_noupgrade l) (cf_noextract l) (cf_overwrite_files l)).
Definition set_cf_cachedirs (v : list cstr) : config_t → config_t := upd_lists (λ l,
  mk_lists (cf_hookdirs l) v (cf_architectures l) (cf_holdpkg l) (cf_ignorepkg l) (cf_ignoregrp l)
    (cf_assumeinstalled l) (cf_noupgrade l) (cf_noextract l) (cf_overwrite_files l)).
Definition set_cf_architectures (v : list cstr) : config_t → config_t := upd_lists (λ l,
  mk_lists (cf_hookdirs l) (cf_cachedirs l) v (cf_holdpkg l) (cf_ignorepkg l) (cf_ignoregrp l)
    (cf_assumeinstalled l) (cf_noupgrade l) (cf_noextract l) (cf_overwrite_files l)).
Definition set_cf_holdpkg (v : list cstr) : config_t → config_t := upd_lists (λ l,
  mk_lists (cf_hookdirs l) (cf_cachedirs l) (cf_architectures l) v (cf_ignorepkg l) (cf_ignoregrp l)
    (cf_assumeinstalled l) (cf_noupgrade l) (cf_noextract l) (cf_overwrite_files l)).
Definition set_cf_ignorepkg (v : list cstr) : config_t → config_t := upd_lists (λ l,
  mk_lists (cf_hookdirs l) (cf_cachedirs l) (cf_architectures l) (cf_holdpkg l) v (cf_ignoregrp l)
    (cf_assumeinstalled l) (cf_noupgrade l) (cf_noextract l) (cf_overwrite_files l)).
Definition set_cf_ignoregrp (v : list cstr) : config_t → config_t := upd_lists (λ l,
  mk_lists (cf_hookdirs l) (cf_cachedirs l) (cf_architectures l) (cf_holdpkg l) (cf_ignorepkg l) v
    (cf_assumeinstalled l) (cf_noupgrade l) (cf_noextract l) (cf_overwrite_files l)).
Definition set_cf_noupgrade (v : list cstr) : config_t → config_t := upd_lists (λ l,
  mk_lists (cf_hookdirs l) (cf_cachedirs l) (cf_architectures l) (cf_holdpkg l) (cf_ignorepkg l)
    (cf_ignoregrp l) (cf_assumeinstalled l) v (cf_noextract l) (cf_overwrite_files l)).
Definition set_cf_noextract (v : list cstr) : config_t → config_t := upd_lists (λ l,
  mk_lists (cf_hookdirs l) (cf_cachedirs l) (cf_architectures l) (cf_holdpkg l) (cf_ignorepkg l)
    (cf_ignoregrp l) (cf_assumeinstalled l) (cf_noupgrade l) v (cf_overwrite_files l)).
Definition set_cf_op (v : Z) (c : config_t) : config_t :=
  mk_config v (cf_flags c) (cf_paths c) (cf_lists c) (cf_siglevel c) (cf_localfilesiglevel c)
    (cf_remotefilesiglevel c) (cf_parallel_downloads c) (cf_cleanmethod c) (cf_xfercommand c)
    (cf_xfercommand_argv c) (cf_repos c).
Definition set_cf_sysroot (v : option cstr) : config_t → config_t := upd_paths (λ p,
  mk_paths (cf_rootdir p) (cf_dbpath p) (cf_logfile p) (cf_gpgdir p) v (cf_sandboxuser p)).
Definition set_cf_assumeinstalled (v : list cstr) : config_t → config_t := upd_lists (λ l,
  mk_lists (cf_hookdirs l) (cf_cachedirs l) (cf_architectures l) (cf_holdpkg l) (cf_ignorepkg l)
    (cf_ignoregrp l) v (cf_noupgrade l) (cf_noextract l) (cf_overwrite_files l)).
Definition set_cf_overwrite_files (v : list cstr) : config_t → config_t := upd_lists (λ l,
  mk_lists (cf_hookdirs l) (cf_cachedirs l) (cf_architectures l) (cf_holdpkg l) (cf_ignorepkg l)
    (cf_ignoregrp l) (cf_assumeinstalled l) (cf_noupgrade l) (cf_noextract l) v).

(** The system, and the configuration of the build. *)
Record conf_env := mk_conf_env {
  ce_isatty : bool;
  ce_machine : cstr;                             (* uname *)
  ce_realpath : cstr → option cstr;
  ce_glob : cstr → option (list cstr);           (* glob with GLOB_NOCHECK; None: an error *)
  ce_file : cstr → option cstr;                  (* the contents of a file *)
  ce_signatures : bool;                          (* alpm_capabilities() *)
  ce_ROOTDIR : cstr; ce_DBPATH : cstr; ce_LOGFILE : cstr; ce_GPGDIR : cstr; ce_CACHEDIR : cstr; ce_HOOKDIR : cstr
}.

(** config_new, as far as it is modelled. *)
Definition config_new (env : conf_env) : config_t :=
  mk_config 1 (mk_flags 0 0 0 0 0 0 0 0 0) (mk_paths None None None None None None)
    (mk_lists [] [] [] [] [] [] [] [] [] [])
    (mk_level (if ce_signatures env then Z.lor ALPM_SIG_PACKAGE ALPM_SIG_DATABASE else 0) 0)
    (mk_level (if ce_signatures env then ALPM_SIG_USE_DEFAULT else 0) 0)
    (mk_level (if ce_signatures env then ALPM_SIG_USE_DEFAULT else 0) 0) 1 0 None [] [].

(** ** Values *)

(** strtok_r with one delimiter, called to the end. *)
Fixpoint strtok (delim : ascii) (s : cstr) : list cstr :=
  match s with
  | [] => []
  | c :: s' =>
      if Ascii.eqb c delim then strtok delim s'
      else match s' with
           | [] => [[c]]
           | d :: _ => if Ascii.eqb d delim then [c] :: strtok delim s'
                       else match strtok delim s' with w :: ws => (c :: w) :: ws | [] => [[c]] end
           end
  end.

Definition setrepeatingoption (ptr : cstr) (list : list cstr) : Datatypes.list cstr := list ++ strtok " " ptr.

Definition config_add_architecture (env : conf_env) (c : config_t) (arch : cstr) : config_t :=
  let arch := if streq arch (str "auto") then ce_machine env else arch in
  set_cf_architectures (cf_architectures (cf_lists c) ++ [arch]) c.

(** strtol: white space, a sign, digits; the rest has to be empty, and the number
    to fit. *)
Definition parse_number (value : cstr) : option Z :=
  let '(sign, s) := parse_sign (drop_while isspace value) in
  match take_while isdigit s, drop_while isdigit s with
  | [], _ => None
  | digits, [] =>
      let val := sign * digits_val digits in
      if (val <? - 2 ^ 63) || (2 ^ 63 <=? val) then None else Some val
  | _, _ => None
  end.

Definition slset (sl : Z) (s : conf_level) : conf_level := mk_level (Z.lor (sl_level s) sl) (Z.lor (sl_mask s) sl).
Definition slunset (sl : Z) (s : conf_level) : conf_level :=
  mk_level (Z.land (sl_level s) (Z.lnot sl)) (Z.lor (sl_mask s) sl).

(** Package, Database or both, and the value without the prefix. *)
Definition siglevel_target (original : cstr) : bool * bool * cstr :=
  if is_prefix (str "Package") original then (true, false, drop 7 original)
  else if is_prefix (str "Database") original then (false, true, drop 8 original)
  else (true, true, original).

(** The change for one value, or [None] when it is invalid. *)
Definition siglevel_change (original : cstr) : option (conf_level → conf_level) :=
  let '(package, database, value) := siglevel_target original in
  let on (b : bool) (f : conf_level → conf_level) := if b then f else id in
  if streq value (str "Never") then
    Some (on database (slunset ALPM_SIG_DATABASE) ∘ on package (slunset ALPM_SIG_PACKAGE))
  else if streq value (str "Optional") then
    Some (on database (slset (Z.lor ALPM_SIG_DATABASE ALPM_SIG_DATABASE_OPTIONAL)) ∘
          on package (slset (Z.lor ALPM_SIG_PACKAGE ALPM_SIG_PACKAGE_OPTIONAL)))
  else if streq value (str "Required") then
    Some (on database (slunset ALPM_SIG_DATABASE_OPTIONAL ∘ slset ALPM_SIG_DATABASE) ∘
          on package (slunset ALPM_SIG_PACKAGE_OPTIONAL ∘ slset ALPM_SIG_PACKAGE))
  else if streq value (str "TrustedOnly") then
    Some (on database (slunset (Z.lor ALPM_SIG_DATABASE_MARGINAL_OK ALPM_SIG_DATABASE_UNKNOWN_OK)) ∘
          on package (slunset (Z.lor ALPM_SIG_PACKAGE_MARGINAL_OK ALPM_SIG_PACKAGE_UNKNOWN_OK)))
  else if streq value (str "TrustAll") then
    Some (on database (slset (Z.lor ALPM_SIG_DATABASE_MARGINAL_OK ALPM_SIG_DATABASE_UNKNOWN_OK)) ∘
          on package (slset (Z.lor ALPM_SIG_PACKAGE_MARGINAL_OK ALPM_SIG_PACKAGE_UNKNOWN_OK)))
  else None.

Definition clear_default (s : conf_level) : conf_level :=
  mk_level (Z.land (sl_level s) (Z.lnot ALPM_SIG_USE_DEFAULT)) (sl_mask s).

(** The loop over the values, and ret. *)
Fixpoint siglevel_loop (values : list cstr) (s : conf_level) (ret : Z) : conf_level * Z :=
  match values with
  | [] => (s, ret)
  | original :: values =>
      match siglevel_change original with
      | Some f => siglevel_loop values (clear_default (f s)) ret
      | None => siglevel_loop values (clear_default s) 1
      end
  end.

Definition process_siglevel (env : conf_env) (values : list cstr) (storage : conf_level) : conf_level * Z :=
  let '(level, ret) := siglevel_loop values storage 0 in
  let ret := if negb (ce_signatures env) && has_flag (sl_level level) (Z.lor ALPM_SIG_PACKAGE ALPM_SIG_DATABASE)
             then 1 else ret in
  if ret =? 0 then (level, ret) else (storage, ret).

Definition merge_siglevel (base over mask : Z) : Z :=
  if negb (mask =? 0) then Z.lor (Z.land over mask) (Z.land base (Z.lnot mask)) else over.

Fixpoint process_cleanmethods (values : list cstr) (c : config_t) : config_t * Z :=
  match values with
  | [] => (c, 0)
  | value :: values =>
      if streq value (str "KeepInstalled")
      then process_cleanmethods values (set_cf_cleanmethod (Z.lor (cf_cleanmethod c) PM_CLEAN_KEEPINST) c)
      else if streq value (str "KeepCurrent")
      then process_cleanmethods values (set_cf_cleanmethod (Z.lor (cf_cleanmethod c) PM_CLEAN_KEEPCUR) c)
      else (c, 1)
  end.

Fixpoint process_usage (values : list cstr) (level ret : Z) : Z * Z :=
  match values with
  | [] => (level, ret)
  | key :: values =>
      if streq key (str "Sync") then process_usage values (Z.lor level ALPM_DB_USAGE_SYNC) ret
      else if streq key (str "Search") then process_usage values (Z.lor level ALPM_DB_USAGE_SEARCH) ret
      else if streq key (str "Install") then process_usage values (Z.lor level ALPM_DB_USAGE_INSTALL) ret
      else if streq key (str "Upgrade") then process_usage values (Z.lor level ALPM_DB_USAGE_UPGRADE) ret
      else if streq key (str "All") then process_usage values (Z.lor level ALPM_DB_USAGE_ALL) ret
      else process_usage values level 1
  end.

(** ** Directives of the section [options] *)

(** Directives without a value; unknown ones are only reported. *)
Definition parse_switch (env : conf_env) (key : cstr) (c : config_t) : config_t :=
  if streq key (str "UseSyslog") then set_cf_usesyslog 1 c
  else if streq key (str "ILoveCandy") then set_cf_chomp 1 c
  else if streq key (str "VerbosePkgLists") then set_cf_verbosepkglists 1 c
  else if streq key (str "CheckSpace") then set_cf_checkspace 1 c
  else if streq key (str "Color") then
    if cf_color (cf_flags c) =? PM_COLOR_UNSET
    then set_cf_color (if ce_isatty env then PM_COLOR_ON else PM_COLOR_OFF) c else c
  else if streq key (str "NoProgressBar") then set_cf_noprogressbar 1 c
  else if streq key (str "DisableDownloadTimeout") then set_cf_disable_dl_timeout 1 c
  else if streq key (str "DisableSandbox")
  then set_cf_disable_sandbox_syscalls 1 (set_cf_disable_sandbox_filesystem 1 c)
  else if streq key (str "DisableSandboxFilesystem") then set_cf_disable_sandbox_filesystem 1 c
  else if streq key (str "DisableSandboxSyscalls") then set_cf_disable_sandbox_syscalls 1 c
  else c.

(** A path that is resolved, unless it was set before. *)
Definition parse_path (env : conf_env) (old : option cstr) (set : option cstr → config_t → config_t)
    (value : cstr) (c : config_t) : config_t * Z :=
  match old with
  | Some _ => (c, 0)
  | None => match ce_realpath env value with
            | Some path => (set (Some path) c, 0)
            | None => (c, 1)
            end
  end.

Definition parse_level (env : conf_env) (old : conf_level) (set : conf_level → config_t → config_t)
    (value : cstr) (c : config_t) : config_t * Z :=
  let '(level, ret) := process_siglevel env (setrepeatingoption value []) old in
  if negb (ret =? 0) then (c, 1) else (set level c, 0).

Definition INT_MAX := 2 ^ 31 - 1.

(** Directives with a value. *)
Definition parse_setting (env : conf_env) (key value : cstr) (c : config_t) : config_t * Z :=
  let l := cf_lists c in
  let p := cf_paths c in
  if streq key (str "NoUpgrade") then (set_cf_noupgrade (setrepeatingoption value (cf_noupgrade l)) c, 0)
  else if streq key (str "NoExtract") then (set_cf_noextract (setrepeatingoption value (cf_noextract l)) c, 0)
  else if streq key (str "IgnorePkg") then (set_cf_ignorepkg (setrepeatingoption value (cf_ignorepkg l)) c, 0)
  else if streq key (str "IgnoreGroup") then (set_cf_ignoregrp (setrepeatingoption value (cf_ignoregrp l)) c, 0)
  else if streq key (str "HoldPkg") then (set_cf_holdpkg (setrepeatingoption value (cf_holdpkg l)) c, 0)
  else if streq key (str "CacheDir") then (set_cf_cachedirs (setrepeatingoption value (cf_cachedirs l)) c, 0)
  else if streq key (str "HookDir") then (set_cf_hookdirs (setrepeatingoption value (cf_hookdirs l)) c, 0)
  else if streq key (str "Architecture")
  then (fold_left (config_add_architecture env) (setrepeatingoption value []) c, 0)
  else if streq key (str "DBPath") then parse_path env (cf_dbpath p) set_cf_dbpath value c
  else if streq key (str "RootDir") then parse_path env (cf_rootdir p) set_cf_rootdir value c
  else if streq key (str "GPGDir") then parse_path env (cf_gpgdir p) set_cf_gpgdir value c
  else if streq key (str "LogFile") then
    match cf_logfile p with None => (set_cf_logfile (Some value) c, 0) | Some _ => (c, 0) end
  else if streq key (str "DownloadUser") then
    match cf_sandboxuser p with None => (set_cf_sandboxuser (Some value) c, 0) | Some _ => (c, 0) end
  else if streq key (str "XferCommand") then
    match wordsplit (Some value) with
    | None => (set_cf_xfercommand_argv [] c, 1)
    | Some argv => (set_cf_xfercommand (Some value) (set_cf_xfercommand_argv argv c), 0)
    end
  else if streq key (str "CleanMethod") then process_cleanmethods (setrepeatingoption value []) c
  else if streq key (str "SigLevel") then parse_level env (cf_siglevel c) set_cf_siglevel value c
  else if streq key (str "LocalFileSigLevel") then parse_level env (cf_localfilesiglevel c) set_cf_localfilesiglevel value c
  else if streq key (str "RemoteFileSigLevel") then parse_level env (cf_remotefilesiglevel c) set_cf_remotefilesiglevel value c
  else if streq key (str "ParallelDownloads") then
    match parse_number value with
    | None => (c, 1)
    | Some number =>
        if number <? 1 then (c, 1) else if INT_MAX <? number then (c, 1)
        else (set_cf_parallel_downloads number c, 0)
    end
  else (c, 0).

Definition parse_options (env : conf_env) (key : cstr) (value : option cstr) (c : config_t) : config_t * Z :=
  match value with
  | None => (parse_switch env key c, 0)
  | Some value => parse_setting env key value c
  end.

(** ** Directives of a repository *)
Definition set_cr_cache_servers (v : list cstr) (r : config_repo_t) : config_repo_t :=
  mk_repo (cr_name r) v (cr_servers r) (cr_usage r) (cr_siglevel r).
Definition set_cr_servers (v : list cstr) (r : config_repo_t) : config_repo_t :=
  mk_repo (cr_name r) (cr_cache_servers r) v (cr_usage r) (cr_siglevel r).
Definition set_cr_usage (v : Z) (r : config_repo_t) : config_repo_t :=
  mk_repo (cr_name r) (cr_cache_servers r) (cr_servers r) v (cr_siglevel r).
Definition set_cr_siglevel (v : conf_level) (r : config_repo_t) : config_repo_t :=
  mk_repo (cr_name r) (cr_cache_servers r) (cr_servers r) (cr_usage r) v.

(** The repository after the directive, and the result. *)
Definition parse_repo (env : conf_env) (key : cstr) (value : option cstr) (repo : config_repo_t)
    : config_repo_t * Z :=
  if streq key (str "CacheServer") then
    match value with
    | None => (repo, 1)
    | Some value => (set_cr_cache_servers (cr_cache_servers repo ++ [value]) repo, 0)
    end
  else if streq key (str "Server") then
    match value with
    | None => (repo, 1)
    | Some value => (set_cr_servers (cr_servers repo ++ [value]) repo, 0)
    end
  else if streq key (str "SigLevel") then
    match value with
    | None => (repo, 1)
    | Some value =>
        match setrepeatingoption value [] with
        | [] => (repo, 0)
        | values => let '(level, ret) := process_siglevel env values (cr_siglevel repo) in
                    (set_cr_siglevel level repo, ret)
        end
    end
  else if streq key (str "Usage") then
    match value with
    | None => (repo, 1)
    | Some value =>
        match setrepeatingoption value [] with
        | [] => (repo, 0)
        | values => let '(usage, ret) := process_usage values (cr_usage repo) 0 in
                    (set_cr_usage usage repo, if negb (ret =? 0) then 1 else 0)
        end
    end
  else (repo, 0).

(** struct section_t; [sec_repo] is the position of the repository in
    config->repos. *)
Record section_t := mk_section { sec_name : option cstr; sec_repo : option nat; sec_depth : Z }.

Definition conf_state : Type := config_t * section_t.

(** ** Included files *)

(** The result of escape_chars: memory for the terminating NUL is not allocated,
    so that a string with a character to escape is written behind its end. *)
Definition escape_chars (pattern escape : cstr) : option cstr :=
  let pattern_chars := length (List.filter (λ c, existsb (Ascii.eqb c) escape) pattern) in
  if (pattern_chars =? 0)%nat then Some pattern
  else
    let escaped := flat_map (λ c, if existsb (Ascii.eqb c) escape then [backslash; c] else [c]) pattern in
    if (length pattern + pattern_chars <? length escaped + 1)%nat then None else Some escaped.

Definition escape_glob_pattern (pattern : cstr) : option cstr := escape_chars pattern (str "\*?[").

Definition prepend_dir (dir : option cstr) (path : cstr) : cstr :=
  match dir with
  | None => path
  | Some dir =>
      let sep := match last dir with Some c => if Ascii.eqb c "/" then [] else str "/" | None => str "/" end in
      dir ++ sep ++ drop_while (Ascii.eqb "/") path
  end.

(** The files that glob finds; the inner [None] is an error of glob. *)
Definition globdir (env : conf_env) (dir : option cstr) (pattern : cstr) (noescape : bool) : option (option (list cstr)) :=
  match dir with
  | None => Some (ce_glob env pattern)
  | Some dir =>
      escaped_dir ← escape_glob_pattern dir;
      pattern ← if noescape then escape_chars pattern [backslash] else Some pattern;
      Some (ce_glob env (prepend_dir (Some escaped_dir) pattern))
  end.

Definition config_max_recursion := 10.

Definition set_depth (d : Z) (s : section_t) : section_t := mk_section (sec_name s) (sec_repo s) d.

(** The loop over the files of an Include; [parse] is parse_ini of a file. *)
Fixpoint include_files (parse : cstr → conf_state → option (conf_state * Z)) (files : list cstr) (st : conf_state)
    : option (conf_state * Z) :=
  match files with
  | [] => Some (st, 0)
  | f :: files =>
      '(st, ret) ← parse f st;
      if negb (ret =? 0) then Some (st, ret) else include_files parse files st
  end.

Definition process_include (env : conf_env) (parse : cstr → conf_state → option (conf_state * Z))
    (value : option cstr) (st : conf_state) : option (conf_state * Z) :=
  let '(c, section) := st in
  match value with
  | None => Some (st, 1)
  | Some value =>
      if config_max_recursion <=? sec_depth section then Some (st, 1)
      else
        let st := (c, set_depth (sec_depth section + 1) section) in
        files ← globdir env (cf_sysroot (cf_paths c)) value false;
        '(st, ret) ← match files with
                     | None => Some (st, 0)
                     | Some files => include_files parse files st
                     end;
        Some ((st.1, set_depth (sec_depth st.2 - 1) st.2), ret)
  end.

Definition new_repo (name : cstr) : config_repo_t := mk_repo name [] [] 0 (mk_level ALPM_SIG_USE_DEFAULT 0).

(** [None] with exhausted fuel, which bounds the depth of includes. *)
Fixpoint parse_directive (fuel : nat) (env : conf_env) (st : conf_state) (linenum : Z)
    (name key value : option cstr) : option (conf_state * Z) :=
  let '(c, section) := st in
  match name, key, value with
  | None, None, None => Some (st, 1)
  | Some name, None, None =>
      if streq name (str "options") then Some ((c, mk_section (Some name) None (sec_depth section)), 0)
      else Some ((set_cf_repos (cf_repos c ++ [new_repo name]) c,
                  mk_section (Some name) (Some (length (cf_repos c))) (sec_depth section)), 0)
  | _, None, Some _ => None
  | _, Some key, _ =>
      if streq key (str "Include") then
        match fuel with
        | O => None
        | S fuel => process_include env (λ file, parse_ini (parse_directive fuel env) (ce_file env file)) value st
        end
      else
        match sec_name section with
        | None => Some (st, 1)
        | Some _ =>
            match sec_repo section with
            | None => let '(c, ret) := parse_options env key value c in Some ((c, section), ret)
            | Some i =>
                repo ← cf_repos c !! i;
                let '(repo, ret) := parse_repo env key value repo in
                Some ((set_cf_repos (<[i := repo]> (cf_repos c)) c, section), ret)
            end
        end
  end.

(** ** Defaults *)

(** strreplace: the occurrences of the needle from left to right. *)
Fixpoint replace_from (fuel : nat) (s needle replace : cstr) : cstr :=
  match fuel with
  | O => s
  | S fuel => match split_substr needle s with
              | None => s
              | Some (pre, post) => pre ++ replace ++ replace_from fuel post needle replace
              end
  end.
Definition strreplace (s needle replace : cstr) : cstr := replace_from (length s) s needle replace.

(** NULL when $arch is used and there is no architecture. *)
Definition replace_server_vars (c : config_t) (r : config_repo_t) (s : cstr) : option cstr :=
  match cf_architectures (cf_lists c) with
  | [] => if is_some (split_substr (str "$arch") s) then None else Some (strreplace s (str "$repo") (cr_name r))
  | arch :: _ => Some (strreplace (strreplace s (str "$arch") arch) (str "$repo") (cr_name r))
  end.

(** The list after the call, and the result. *)
Fixpoint replace_server_list_vars (c : config_t) (r : config_repo_t) (list : list cstr) : Datatypes.list cstr * Z :=
  match list with
  | [] => ([], 0)
  | s :: l => match replace_server_vars c r s with
              | None => (s :: l, -1)
              | Some newurl => let '(l, ret) := replace_server_list_vars c r l in (newurl :: l, ret)
              end
  end.

Definition FILE_URL : cstr := str "file://".

(** SETSYSROOT on every path, and the local servers. *)
Definition prepend_sysroot (c : config_t) : config_t :=
  match cf_sysroot (cf_paths c) with
  | None => c
  | Some sysroot =>
      let under := prepend_dir (Some sysroot) in
      let p := cf_paths c in
      let l := cf_lists c in
      let c := set_cf_rootdir (under <$> cf_rootdir p) c in
      let c := set_cf_dbpath (under <$> cf_dbpath p) c in
      let c := set_cf_logfile (under <$> cf_logfile p) c in
      let c := set_cf_gpgdir (under <$> cf_gpgdir p) c in
      let c := set_cf_cachedirs (map under (cf_cachedirs l)) c in
      let c := set_cf_hookdirs (map under (cf_hookdirs l)) c in
      let server url := if is_prefix FILE_URL url then FILE_URL ++ under (drop 7 url) else url in
      set_cf_repos (map (λ r, set_cr_servers (map server (cr_servers r)) r) (cf_repos c)) c
  end.

Definition or_default {A} (x : option A) (d : A) : option A := match x with Some _ => x | None => Some d end.

(** dbpath and logfile below a root directory that was given. *)
Definition below_root (rootdir suffix : cstr) : option cstr :=
  match last rootdir with
  | None => None                          (* rootdir[-1] *)
  | Some c => let rootdir := if Ascii.eqb c "/" then removelast rootdir else rootdir in
              Some (take (PATH_MAX - 1) (rootdir ++ str "/" ++ suffix))
  end.

Definition default_paths (env : conf_env) (c : config_t) : option config_t :=
  let p := cf_paths c in
  c ← match cf_rootdir p with
      | Some rootdir =>
          db ← below_root rootdir (tail (ce_DBPATH env));
          log ← below_root rootdir (tail (ce_LOGFILE env));
          Some (set_cf_logfile (or_default (cf_logfile p) log) (set_cf_dbpath (or_default (cf_dbpath p) db) c))
      | None =>
          Some (set_cf_dbpath (or_default (cf_dbpath p) (ce_DBPATH env)) (set_cf_rootdir (Some (ce_ROOTDIR env)) c))
      end;
  let c := set_cf_logfile (or_default (cf_logfile (cf_paths c)) (ce_LOGFILE env)) c in
  let c := set_cf_gpgdir (or_default (cf_gpgdir (cf_paths c)) (ce_GPGDIR env)) c in
  let dirs l d := match l with [] => [d] | _ => l end in
  let c := set_cf_cachedirs (dirs (cf_cachedirs (cf_lists c)) (ce_CACHEDIR env)) c in
  let c := set_cf_hookdirs (dirs (cf_hookdirs (cf_lists c)) (ce_HOOKDIR env)) c in
  Some (set_cf_cleanmethod (if cf_cleanmethod c =? 0 then PM_CLEAN_KEEPINST else cf_cleanmethod c) c).

Definition merged_level (base : Z) (s : conf_level) : conf_level :=
  mk_level (merge_siglevel base (sl_level s) (sl_mask s)) (sl_mask s).

(** One repository in setdefaults. *)
Definition default_repo (c : config_t) (r : config_repo_t) : config_repo_t * Z :=
  let r := set_cr_usage (if cr_usage r =? 0 then ALPM_DB_USAGE_ALL else cr_usage r) r in
  let r := set_cr_siglevel (merged_level (sl_level (cf_siglevel c)) (cr_siglevel r)) r in
  let '(l, ret) := replace_server_list_vars c r (cr_cache_servers r) in
  let r := set_cr_cache_servers l r in
  if ret =? -1 then (r, -1)
  else let '(l, ret) := replace_server_list_vars c r (cr_servers r) in (set_cr_servers l r, ret).

Fixpoint default_repos (c : config_t) (repos : list config_repo_t) : list config_repo_t * Z :=
  match repos with
  | [] => ([], 0)
  | r :: l => let '(r, ret) := default_repo c r in
              if ret =? -1 then (r :: l, -1)
              else let '(l, ret) := default_repos c l in (r :: l, ret)
  end.

Definition setdefaults (env : conf_env) (c : config_t) : option (config_t * Z) :=
  c ← default_paths env c;
  let base := sl_level (cf_siglevel c) in
  let c := set_cf_localfilesiglevel (merged_level base (cf_localfilesiglevel c)) c in
  let c := set_cf_remotefilesiglevel (merged_level base (cf_remotefilesiglevel c)) c in
  let '(repos, ret) := default_repos c (cf_repos c) in
  let c := set_cf_repos repos c in
  if ret =? -1 then Some (c, -1) else Some (prepend_sysroot c, 0).

(** ** The library *)

(** The database that was registered last is changed in place. *)
Definition put_last_db (db : alpm_db_t) (h : alpm_handle_t) : alpm_handle_t :=
  set_dbs_sync (removelast (h_dbs_sync h) ++ [db]) h.

Definition register_repo (denv : db_env) (h : alpm_handle_t) (repo : config_repo_t) : alpm_handle_t * Z :=
  let '(h, db) := alpm_register_syncdb denv h (Some (cr_name repo)) (sl_level (cr_siglevel repo)) in
  match db with
  | None => (h, 1)
  | Some db =>
      let db := alpm_db_set_usage db (cr_usage repo) in
      let '(h, db, rc) := add_urls alpm_db_add_cache_server h db (cr_cache_servers repo) in
      if negb (rc =? 0) then (put_last_db db h, 1)
      else
        let '(h, db, rc) := add_urls alpm_db_add_server h db (cr_servers repo) in
        (put_last_db db h, if negb (rc =? 0) then 1 else 0)
  end.

(** The loops over the hook directories and the assumed packages. *)
Fixpoint add_hookdirs (dirs : list cstr) (h : alpm_handle_t) : option (alpm_handle_t * Z) :=
  match dirs with
  | [] => Some (h, 0)
  | d :: dirs =>
      '(h, ret) ← alpm_option_add_hookdir (Some d) h;
      if negb (ret =? 0) then Some (h, ret) else add_hookdirs dirs h
  end.

Fixpoint add_assume (entries : list cstr) (h : alpm_handle_t) : alpm_handle_t * Z :=
  match entries with
  | [] => (h, 0)
  | entry :: entries =>
      let '(h, ret) := alpm_option_add_assumeinstalled (alpm_dep_from_string entry) h in
      if negb (ret =? 0) then (h, ret) else add_assume entries h
  end.

(** Everything after alpm_initialize. *)
Definition setup_options (oe : option_env) (denv : db_env) (c : config_t) (h : alpm_handle_t) : option (alpm_handle_t * Z) :=
  let p := cf_paths c in
  let l := cf_lists c in
  let f := cf_flags c in
  let h := if cf_op c =? PM_OP_FILES then (alpm_option_set_dbext (Some (str ".files")) h).1 else h in
  let '(h, ret) := alpm_option_set_logfile (cf_logfile p) h in
  if negb (ret =? 0) then Some (h, ret)
  else
    '(h, ret) ← alpm_option_set_gpgdir oe (cf_gpgdir p) h;
    if negb (ret =? 0) then Some (h, ret)
    else
      '(h, ret) ← add_hookdirs (cf_hookdirs l) h;
      if negb (ret =? 0) then Some (h, ret)
      else
        '(h, _) ← alpm_option_set_cachedirs (map Some (cf_cachedirs l)) h;
        let h := (alpm_option_set_overwrite_files (cf_overwrite_files l) h).1 in
        let h := (alpm_option_set_default_siglevel oe (sl_level (cf_siglevel c)) h).1 in
        let h := (alpm_option_set_local_file_siglevel oe (sl_level (cf_localfilesiglevel c)) h).1 in
        let h := (alpm_option_set_remote_file_siglevel oe (sl_level (cf_remotefilesiglevel c)) h).1 in
        let h := fold_left (λ h repo, (register_repo denv h repo).1) (cf_repos c) h in
        let h := (alpm_option_set_architectures (cf_architectures l) h).1 in
        let h := (alpm_option_set_checkspace (cf_checkspace f) h).1 in
        let h := (alpm_option_set_usesyslog (cf_usesyslog f) h).1 in
        let '(h, ret) := alpm_option_set_sandboxuser oe (cf_sandboxuser p) h in
        if negb (ret =? 0) then Some (h, ret)
        else
          let h := (alpm_option_set_disable_sandbox_filesystem (cf_disable_sandbox_filesystem f) h).1 in
          let h := (alpm_option_set_disable_sandbox_syscalls (cf_disable_sandbox_syscalls f) h).1 in
          let h := (alpm_option_set_ignorepkgs (cf_ignorepkg l) h).1 in
          let h := (alpm_option_set_ignoregroups (cf_ignoregrp l) h).1 in
          let h := (alpm_option_set_noupgrades (cf_noupgrade l) h).1 in
          let h := (alpm_option_set_noextracts (cf_noextract l) h).1 in
          let h := (alpm_option_set_disable_dl_timeout (cf_disable_dl_timeout f) h).1 in
          let h := (alpm_option_set_parallel_downloads (cf_parallel_downloads c) h).1 in
          Some (add_assume (cf_assumeinstalled l) h).

(** The handle is [None] when it cannot be made. *)
Definition setup_libalpm (oe : option_env) (denv : db_env) (sys : os) (c : config_t) (fs : fsys)
    : option (option alpm_handle_t * fsys * Z) :=
  '(r, fs) ← alpm_initialize oe sys (cf_rootdir (cf_paths c)) (cf_dbpath (cf_paths c)) fs;
  match r with
  | inr _ => Some (None, fs, -1)
  | inl h => '(h, ret) ← setup_options oe denv c h; Some (Some h, fs, ret)
  end.

(** ** parseconfig *)
Definition include_fuel : nat := 11.

Definition parseconfigfile (env : conf_env) (file : cstr) (c : config_t) : option (config_t * Z) :=
  let realfile := prepend_dir (cf_sysroot (cf_paths c)) file in
  '(st, ret) ← parse_ini (parse_directive include_fuel env) (ce_file env realfile) (c, mk_section None None 0);
  Some (st.1, ret).

Definition parseconfig (env : conf_env) (oe : option_env) (denv : db_env) (sys : os) (file : cstr) (c : config_t) (fs : fsys)
    : option (config_t * option alpm_handle_t * fsys * Z) :=
  '(c, ret) ← parseconfigfile env file c;
  if negb (ret =? 0) then Some (c, None, fs, ret)
  else
    '(c, ret) ← setdefaults env c;
    if negb (ret =? 0) then Some (c, None, fs, ret)
    else
      '(h, fs, ret) ← setup_libalpm oe denv sys c fs;
      if negb (ret =? 0) then Some (c, h, fs, ret)
      else Some (set_cf_repos [] c, h, fs, ret).

(** ** Facts: what reading a configuration keeps *)

(** Paths that are set stay as they are, lists grow at their end, repositories are
    only added, and the other values stay in range. *)
Definition kept {A} (old new : option A) : Prop := ∀ v, old = Some v → new = Some v.

#[export] Instance kept_refl {A} : Reflexive (@kept A).
Proof. by intros x v. Qed.

Record conf_keeps (c c' : config_t) : Prop := {
  ck_op : cf_op c' = cf_op c;
  ck_sysroot : cf_sysroot (cf_paths c') = cf_sysroot (cf_paths c);
  ck_rootdir : kept (cf_rootdir (cf_paths c)) (cf_rootdir (cf_paths c'));
  ck_dbpath : kept (cf_dbpath (cf_paths c)) (cf_dbpath (cf_paths c'));
  ck_logfile : kept (cf_logfile (cf_paths c)) (cf_logfile (cf_paths c'));
  ck_gpgdir : kept (cf_gpgdir (cf_paths c)) (cf_gpgdir (cf_paths c'));
  ck_user : kept (cf_sandboxuser (cf_paths c)) (cf_sandboxuser (cf_paths c'));
  ck_hookdirs : cf_hookdirs (cf_lists c) `prefix_of` cf_hookdirs (cf_lists c');
  ck_cachedirs : cf_cachedirs (cf_lists c) `prefix_of` cf_cachedirs (cf_lists c');
  ck_architectures : cf_architectures (cf_lists c) `prefix_of` cf_architectures (cf_lists c');
  ck_holdpkg : cf_holdpkg (cf_lists c) `prefix_of` cf_holdpkg (cf_lists c');
  ck_ignorepkg : cf_ignorepkg (cf_lists c) `prefix_of` cf_ignorepkg (cf_lists c');
  ck_ignoregrp : cf_ignoregrp (cf_lists c) `prefix_of` cf_ignoregrp (cf_lists c');
  ck_assume : cf_assumeinstalled (cf_lists c) `prefix_of` cf_assumeinstalled (cf_lists c');
  ck_overwrite : cf_overwrite_files (cf_lists c) `prefix_of` cf_overwrite_files (cf_lists c');
  ck_noupgrade : cf_noupgrade (cf_lists c) `prefix_of` cf_noupgrade (cf_lists c');
  ck_noextract : cf_noextract (cf_lists c) `prefix_of` cf_noextract (cf_lists c');
  ck_color : cf_color (cf_flags c) ≠ PM_COLOR_UNSET → cf_color (cf_flags c') = cf_color (cf_flags c);
  ck_progress : cf_noprogressbar (cf_flags c) ≠ 0 → cf_noprogressbar (cf_flags c') ≠ 0;
  ck_timeout : cf_disable_dl_timeout (cf_flags c) ≠ 0 → cf_disable_dl_timeout (cf_flags c') ≠ 0;
  ck_sandbox_fs : cf_disable_sandbox_filesystem (cf_flags c) ≠ 0 → cf_disable_sandbox_filesystem (cf_flags c') ≠ 0;
  ck_sandbox_sys : cf_disable_sandbox_syscalls (cf_flags c) ≠ 0 → cf_disable_sandbox_syscalls (cf_flags c') ≠ 0;
  ck_repos : map cr_name (cf_repos c) `prefix_of` map cr_name (cf_repos c');
  ck_parallel : 1 <= cf_parallel_downloads c <= INT_MAX → 1 <= cf_parallel_downloads c' <= INT_MAX;
  ck_siglevel : has_flag (sl_level (cf_siglevel c)) ALPM_SIG_USE_DEFAULT = false →
                has_flag (sl_level (cf_siglevel c')) ALPM_SIG_USE_DEFAULT = false
}.

#[export] Instance conf_keeps_preorder : PreOrder conf_keeps.
Proof.
  split; [intros c; by split|]. intros a b c H1 H2.
  split; first [by etrans; [apply H2|apply H1] | by etrans; [apply H1|apply H2]
    | intros v Hv; apply H2; apply H1; done | intros Hv; apply H2; apply H1; done
    | intros Hv; rewrite (ck_color _ _ H2); rewrite (ck_color _ _ H1 Hv); done].
Qed.

Ltac keeps := split; cbn; first [done | by apply prefix_app_r | unfold kept; congruence | lia].

Lemma switch_keeps env key c : conf_keeps c (parse_switch env key c).
Proof.
  unfold parse_switch. repeat case_if; split; cbn; try done; intros Hc; exfalso; apply Hc, Z.eqb_eq; done.
Qed.

Lemma add_architectures_keeps env l c : conf_keeps c (fold_left (config_add_architecture env) l c).
Proof.
  revert c. induction l as [|a l IH]; intros c; [done|]. cbn. etrans; [|apply IH]. unfold config_add_architecture. keeps.
Qed.

Lemma cleanmethods_keeps values c : conf_keeps c (process_cleanmethods values c).1.
Proof.
  revert c. induction values as [|v values IH]; intros c; [done|]. cbn [process_cleanmethods].
  repeat case_if; [etrans; [|apply IH]; by split..|done].
Qed.

Lemma siglevel_loop_default values s ret :
  has_flag (sl_level s) ALPM_SIG_USE_DEFAULT = false →
  has_flag (sl_level (siglevel_loop values s ret).1) ALPM_SIG_USE_DEFAULT = false.
Proof.
  revert s ret. induction values as [|v values IH]; intros s ret Hs; [done|]. cbn [siglevel_loop].
  assert (∀ s, has_flag (sl_level (clear_default s)) ALPM_SIG_USE_DEFAULT = false) as Hc.
  { intros s'. unfold has_flag, clear_default. cbn [sl_level]. rewrite <-Z.land_assoc, (Z.land_comm (Z.lnot _)), Z.land_lnot_diag.
    by rewrite Z.land_0_r. }
  destruct (siglevel_change v); apply IH, Hc.
Qed.

Lemma process_siglevel_default env values s :
  has_flag (sl_level s) ALPM_SIG_USE_DEFAULT = false →
  has_flag (sl_level (process_siglevel env values s).1) ALPM_SIG_USE_DEFAULT = false.
Proof.
  intros Hs. unfold process_siglevel. pose proof (siglevel_loop_default values s 0 Hs) as H.
  destruct (siglevel_loop values s 0) as [level ret]. by destruct (_ =? 0).
Qed.

Lemma setting_keeps env key value c : conf_keeps c (parse_setting env key value c).1.
Proof.
  unfold parse_setting.
  repeat match goal with |- context [if streq key ?s then _ else _] => destruct (streq key s) end; try solve [cbn; keeps].
  all: unfold parse_path, parse_level.
  all: try solve [repeat case_if; cbn; keeps].
  - apply add_architectures_keeps.
  - apply cleanmethods_keeps.
  - pose proof (process_siglevel_default env (setrepeatingoption value []) (cf_siglevel c)) as H.
    destruct (process_siglevel _ _ _) as [level ret]. case_if; [done|]. cbn in *. keeps.
Qed.

Lemma options_keeps env key value c : conf_keeps c (parse_options env key value c).1.
Proof. destruct value; [apply setting_keeps|apply switch_keeps]. Qed.

Lemma parse_repo_name env key value r : cr_name (parse_repo env key value r).1 = cr_name r.
Proof.
  unfold parse_repo. repeat case_if; try done; repeat match goal with H : (_, _) = (_, _) |- _ => injection H as <- <- end; done.
Qed.

Lemma insert_repo_keeps c i r r' :
  cf_repos c !! i = Some r → cr_name r' = cr_name r → conf_keeps c (set_cf_repos (<[i := r']> (cf_repos c)) c).
Proof.
  intros Hi Hn. split; cbn; try done. change (map cr_name (cf_repos c) `prefix_of` cr_name <$> <[i := r']> (cf_repos c)).
  rewrite list_fmap_insert, Hn, list_insert_id; [done|]. by rewrite list_lookup_fmap, Hi.
Qed.

(** ** Facts: reading ends *)

(** A callback that returns and keeps a relation makes parse_ini do so. *)
Lemma parse_ini_total {ST} (R : ST → ST → Prop) `{!PreOrder R} (I : ST → Prop) cb data s :
  (∀ s linenum name key value, I s → (key = None → value = None) →
     ∃ s' ret, cb s linenum name key value = Some (s', ret) ∧ I s' ∧ R s s') →
  I s → ∃ s' ret, parse_ini cb data s = Some (s', ret) ∧ I s' ∧ R s s'.
Proof.
  intros Hcb Hs. destruct data as [data|]; [|by apply Hcb]. cbn [parse_ini].
  generalize (ini_lines (length data) data) as lines, 0, (@None cstr) as name. intros lines. revert s Hs.
  induction lines as [|raw lines IH]; intros s Hs linenum name; [by exists s, 0|]. cbn [parse_lines].
  destruct (bool_decide _ || _); [by apply IH|].
  assert (∀ name key value name', (key = None → value = None) →
    ∃ s' ret, ('(s, ret) ← cb s (linenum + 1) name key value;
      if negb (ret =? 0) then Some (s, ret) else parse_lines cb lines (linenum + 1) name' s) = Some (s', ret) ∧ I s' ∧ R s s')
    as Hstep.
  { intros n k v n' Hkv. destruct (Hcb s (linenum + 1) n k v Hs Hkv) as (s1 & ret & -> & Hs1 & HR). cbn [mbind option_bind].
    destruct (negb _); [by exists s1, ret|]. destruct (IH s1 Hs1 (linenum + 1) n') as (s2 & r2 & H2 & Hi2 & HR2).
    exists s2, r2. split_and!; [done|done|by etrans]. }
  destruct (is_section _); [by apply Hstep|]. destruct (strsep_eq _) as [key value]. by apply Hstep.
Qed.

Definition state_keeps (st st' : conf_state) : Prop := conf_keeps st.1 st'.1.
#[export] Instance state_keeps_preorder : PreOrder state_keeps.
Proof. split; [by intros [c s]|]. intros [] [] [] H1 H2. unfold state_keeps in *. by etrans. Qed.

(** The depth is [d], the repository of the section exists, and the system root
    has no character that is special to glob. *)
Definition plain_root (c : config_t) : Prop :=
  ∀ dir, cf_sysroot (cf_paths c) = Some dir → Forall (λ ch, ch ∉ str "\*?[") dir.

Record conf_inv (d : Z) (st : conf_state) : Prop := {
  ci_depth : sec_depth st.2 = d;
  ci_repo : ∀ i, sec_repo st.2 = Some i → (i < length (cf_repos st.1))%nat;
  ci_root : plain_root st.1
}.

Lemma escape_plain s : Forall (λ ch, ch ∉ str "\*?[") s → escape_glob_pattern s = Some s.
Proof.
  intros H. unfold escape_glob_pattern, escape_chars.
  assert (List.filter (λ c, existsb (Ascii.eqb c) (str "\*?[")) s = []) as ->; [|done].
  induction H as [|ch s Hc _ IH]; [done|]. cbn [List.filter]. destruct (existsb _ _) eqn:E; [|done].
  apply existsb_exists in E as (x & Hx & ->%Ascii.eqb_eq). by apply list_elem_of_In in Hx.
Qed.

Lemma globdir_plain env c value : plain_root c → is_Some (globdir env (cf_sysroot (cf_paths c)) value false).
Proof.
  intros H. unfold globdir. destruct (cf_sysroot (cf_paths c)) as [dir|] eqn:E; [|by eexists].
  rewrite (escape_plain dir) by by apply H. by eexists.
Qed.

Lemma inv_keeps d c c' s :
  conf_inv d (c, s) → conf_keeps c c' → (length (cf_repos c) <= length (cf_repos c'))%nat → conf_inv d (c', s).
Proof.
  intros [H1 H2 H3] Hk Hl. split; cbn in *; [done| |].
  - intros i Hi. specialize (H2 i Hi). lia.
  - unfold plain_root in *. by rewrite (ck_sysroot _ _ Hk).
Qed.

Lemma keeps_length c c' : conf_keeps c c' → (length (cf_repos c) <= length (cf_repos c'))%nat.
Proof. intros Hk. pose proof (prefix_length _ _ (ck_repos _ _ Hk)) as H. by rewrite !length_map in H. Qed.

Lemma include_files_total d parse files st :
  (∀ f st, conf_inv d st → ∃ st' ret, parse f st = Some (st', ret) ∧ conf_inv d st' ∧ state_keeps st st') →
  conf_inv d st → ∃ st' ret, include_files parse files st = Some (st', ret) ∧ conf_inv d st' ∧ state_keeps st st'.
Proof.
  intros Hp. revert st. induction files as [|f files IH]; intros st Hs; [by exists st, 0|]. cbn [include_files].
  destruct (Hp f st Hs) as (st1 & ret & -> & Hi & Hk). cbn [mbind option_bind]. destruct (negb _); [by exists st1, ret|].
  destruct (IH st1 Hi) as (st2 & r2 & H2 & Hi2 & Hk2). exists st2, r2. split_and!; [done|done|by etrans].
Qed.

Lemma include_total env parse d value st :
  (d < 10 → ∀ f st, conf_inv (d + 1) st →
     ∃ st' ret, parse f st = Some (st', ret) ∧ conf_inv (d + 1) st' ∧ state_keeps st st') →
  conf_inv d st → ∃ st' ret, process_include env parse value st = Some (st', ret) ∧ conf_inv d st' ∧ state_keeps st st'.
Proof.
  intros Hp Hs. destruct st as [c s]. destruct Hs as [Hd Hr Hroot]. cbn in Hd, Hr. unfold process_include.
  destruct value as [value|]; [|exists (c, s), 1; by split_and!].
  unfold config_max_recursion. rewrite Hd. destruct (Z.leb_spec 10 d); [exists (c, s), 1; by split_and!|].
  destruct (globdir_plain env c value Hroot) as [files ->]. cbn [mbind option_bind].
  set (st1 := (c, set_depth (d + 1) s)). assert (conf_inv (d + 1) st1) as H1 by by split.
  match goal with |- context [mbind _ ?m] => assert (∃ st' ret, m = Some (st', ret) ∧ conf_inv (d + 1) st' ∧
    state_keeps st1 st') as (st2 & ret & -> & [Hd2 Hr2 Hp2] & Hk2) end.
  { destruct files as [files|]; [|by exists st1, 0]. by apply include_files_total; [apply Hp|]. }
  cbn [mbind option_bind]. eexists _, ret. split; [done|]. split; [|done].
  split; cbn; [lia|done|done].
Qed.



(** One directive, given that included files can be read. *)
Lemma directive_step env fuel d st linenum name key value :
  conf_inv d st → (key = None → value = None) →
  (key = Some (str "Include") → ∃ st' ret, parse_directive fuel env st linenum name key value = Some (st', ret) ∧
     conf_inv d st' ∧ state_keeps st st') →
  ∃ st' ret, parse_directive fuel env st linenum name key value = Some (st', ret) ∧ conf_inv d st' ∧ state_keeps st st'.
Proof.
  intros Hs Hkv Hinc. destruct st as [c s].
  assert (∀ r : Z, ∃ (st' : conf_state) ret, Some ((c, s) : conf_state, r) = Some (st', ret) ∧ conf_inv d st' ∧ state_keeps (c, s) st') as Hsame
    by (intros r; exists (c, s), r; by split_and!).
  destruct key as [key|].
  - destruct (streq key (str "Include")) eqn:Ei; [apply streq_true in Ei as ->; by apply Hinc|]. clear Hinc.
    assert (parse_directive fuel env (c, s) linenum name (Some key) value =
      match sec_name s with None => Some ((c, s), 1) | Some _ =>
        match sec_repo s with
        | None => let '(c, ret) := parse_options env key value c in Some ((c, s), ret)
        | Some i => repo ← cf_repos c !! i; let '(repo, ret) := parse_repo env key value repo in
                    Some ((set_cf_repos (<[i := repo]> (cf_repos c)) c, s), ret)
        end end) as -> by (destruct fuel; cbn [parse_directive]; rewrite Ei; by destruct name).
    destruct (sec_name s); [|apply Hsame]. destruct (sec_repo s) as [i|] eqn:Er.
    + destruct (lookup_lt_is_Some_2 (cf_repos c) i) as [r Hr]; [by apply (ci_repo _ _ Hs)|]. rewrite Hr. cbn [mbind option_bind].
      pose proof (parse_repo_name env key value r) as Hn. destruct (parse_repo env key value r) as [r' ret]. cbn in Hn.
      pose proof (insert_repo_keeps c i r r' Hr Hn) as Hk. eexists _, ret. split; [done|]. split; [|exact Hk].
      eapply inv_keeps; [done..|]. by apply keeps_length.
    + pose proof (options_keeps env key value c) as Hk. destruct (parse_options env key value c) as [c' ret]. cbn in Hk.
      eexists _, ret. split; [done|]. split; [|exact Hk]. eapply inv_keeps; [done..|]. by apply keeps_length.
  - rewrite (Hkv eq_refl).
    assert (parse_directive fuel env (c, s) linenum name None None =
      match name with None => Some ((c, s), 1) | Some name =>
        if streq name (str "options") then Some ((c, mk_section (Some name) None (sec_depth s)), 0)
        else Some ((set_cf_repos (cf_repos c ++ [new_repo name]) c,
                    mk_section (Some name) (Some (length (cf_repos c))) (sec_depth s)), 0) end) as ->
      by by destruct fuel, name.
    destruct name as [name|]; [|apply Hsame]. destruct Hs as [H1 H2 H3]. destruct (streq _ _).
    + eexists _, 0. split; [done|]. split; [by split|done].
    + eexists _, 0. split; [done|]. split.
      * split; cbn in *; [done| |done]. intros i [= <-]. rewrite length_app. cbn. lia.
      * split; cbn; try done. rewrite map_app. by apply prefix_app_r.
Qed.


Lemma directive_total env fuel d st linenum name key value :
  0 <= d <= 10 → d + Z.of_nat fuel = 11 → conf_inv d st → (key = None → value = None) →
  ∃ st' ret, parse_directive fuel env st linenum name key value = Some (st', ret) ∧ conf_inv d st' ∧ state_keeps st st'.
Proof.
  revert d st linenum name key value. induction fuel as [|fuel IH]; intros d st linenum name key value Hd Hf Hs Hkv; [lia|].
  apply directive_step; [done|done|]. intros ->.
  assert (parse_directive (S fuel) env st linenum name (Some (str "Include")) value =
    process_include env (λ file, parse_ini (parse_directive fuel env) (ce_file env file)) value st) as ->
    by (destruct st, name; done).
  apply include_total; [|done]. intros Hlt f st1 Hs1. apply parse_ini_total; [apply _| |done].
  intros st2 ln n k v Hs2 Hkv2. by apply IH; [lia|lia| |].
Qed.

(** ** Theorems: reading the configuration *)

(** C27. With a system root that has no character special to glob (escape_chars
    writes behind its buffer for such a character), reading a configuration file
    ends for every file system, files that include each other among them, and
    whatever the result, it keeps what the command line has set: paths, the
    download user, the use of colours and the switches stay, every list grows at
    its end, repositories are only added, and the number of downloads stays
    positive. *)
Theorem parseconfigfile_total (env : conf_env) (file : cstr) (c : config_t) :
  plain_root c → ∃ c' ret, parseconfigfile env file c = Some (c', ret) ∧ conf_keeps c c'.
Proof.
  intros Hp. unfold parseconfigfile.
  destruct (parse_ini_total state_keeps (conf_inv 0) (parse_directive include_fuel env)
    (ce_file env (prepend_dir (cf_sysroot (cf_paths c)) file)) (c, mk_section None None 0)) as (st & ret & -> & _ & Hk).
  - intros st ln n k v Hs Hkv. by apply directive_total.
  - by split.
  - by exists st.1, ret.
Qed.

(** A file that includes itself, and a command line with a root directory. *)
Definition ex_conf_env : conf_env :=
  mk_conf_env false (str "x86_64") (λ p, Some p) (λ p, Some [p])
    (λ f, if streq f (str "/loop") then Some (str "Include = /loop")
          else if streq f (str "/etc/dulge.conf")
          then Some (str "[options]" ++ newline :: str "RootDir = /other" ++ newline :: str "CacheDir = /a /b" ++ newline ::
                     str "Architecture = auto" ++ newline :: str "[core]" ++ newline :: str "SigLevel = PackageOptional TrustAll" ++
                     newline :: str "Server = https://m/$repo/$arch")
          else None)
    true (str "/") (str "/var/lib/dulge/") (str "/var/log/dulge.log") (str "/etc/dulge.d/gnupg/") (str "/var/cache/dulge/pkg/")
    (str "/etc/dulge.d/hooks/").
Definition ex_conf : config_t := set_cf_rootdir (Some (str "/mnt")) (config_new ex_conf_env).

Lemma parseconfigfile_total_witness :
  ∃ c', parseconfigfile ex_conf_env (str "/etc/dulge.conf") ex_conf = Some (c', 0) ∧
  cf_rootdir (cf_paths c') = Some (str "/mnt") ∧ cf_cachedirs (cf_lists c') = [str "/a"; str "/b"].
Proof.
  destruct (parseconfigfile_total ex_conf_env (str "/etc/dulge.conf") ex_conf) as (c' & ret & E & Hk); [by intros d|].
  exists c'. assert (ret = 0) as -> by (vm_compute in E; congruence). split; [exact E|].
  split; [by apply (ck_rootdir _ _ Hk)|]. vm_compute in E. by injection E as <-.
Defined.

(** The recursion stops at the depth limit. *)
Example include_loop :
  snd <$> parseconfigfile ex_conf_env (str "/loop") ex_conf = Some 1.
Proof. vm_compute. reflexivity. Qed.

(** A system root with a character that is special to glob: the escaped copy is
    one byte longer than its memory. *)
Example escape_overflow : escape_glob_pattern (str "/mnt/a*") = None ∧ escape_glob_pattern (str "/mnt/a") = Some (str "/mnt/a").
Proof. vm_compute. done. Qed.

(** ** Signature levels *)

(** Reference: the bits that a value sets or clears; those of databases are ten
    places above those of packages. *)
Definition value_bits (value : cstr) : option (list (Z * bool)) :=
  if streq value (str "Never") then Some [(0, false)]
  else if streq value (str "Optional") then Some [(0, true); (1, true)]
  else if streq value (str "Required") then Some [(0, true); (1, false)]
  else if streq value (str "TrustedOnly") then Some [(2, false); (3, false)]
  else if streq value (str "TrustAll") then Some [(2, true); (3, true)]
  else None.

Definition bit_of (bits : list (Z * bool)) (b : Z) : option bool := snd <$> find_first (λ p, p.1 =? b) bits.

(** What a value of SigLevel says about bit [b]; [None] for an invalid value. *)
Definition sig_bit (original : cstr) (b : Z) : option (option bool) :=
  let '(package, database, value) := siglevel_target original in
  bits ← value_bits value;
  Some (match (if package : bool then bit_of bits b else None) with
        | Some v => Some v
        | None => if database : bool then bit_of bits (b - 10) else None
        end).

(** The last value that says something about bit [b]. *)
Fixpoint last_bit (values : list cstr) (b : Z) : option bool :=
  match values with
  | [] => None
  | v :: values => match last_bit values b with Some x => Some x | None => mjoin (sig_bit v b) end
  end.

Definition valid_value (v : cstr) : Prop := is_Some (value_bits (siglevel_target v).2).

Lemma testbit_flag k b : 0 <= k → Z.testbit (Z.shiftl 1 k) b = (k =? b).
Proof. intros Hk. rewrite Z.shiftl_1_l. by apply Z.pow2_bits_eqb. Qed.

Definition on_bit (o : option bool) (x : bool) : bool := match o with Some v => v | None => x end.

(** A change of the level as a function on bits. *)
Definition changes (f : conf_level → conf_level) (g : Z → option bool) : Prop :=
  ∀ s b, 0 <= b → Z.testbit (sl_level (f s)) b = on_bit (g b) (Z.testbit (sl_level s) b) ∧
                  Z.testbit (sl_mask (f s)) b = is_some (g b) || Z.testbit (sl_mask s) b.

Lemma changes_slset sl : changes (slset sl) (λ b, if Z.testbit sl b then Some true else None).
Proof.
  intros s b Hb. unfold slset. cbn. rewrite !Z.lor_spec. split; destruct (Z.testbit sl b); cbn; by rewrite ?orb_true_r, ?orb_false_r.
Qed.

Lemma changes_slunset sl : changes (slunset sl) (λ b, if Z.testbit sl b then Some false else None).
Proof.
  intros s b Hb. unfold slunset. cbn. rewrite Z.land_spec, Z.lor_spec, Z.lnot_spec by done.
  split; destruct (Z.testbit sl b); cbn; by rewrite ?orb_true_r, ?orb_false_r, ?andb_false_r, ?andb_true_r.
Qed.

Lemma changes_id : changes id (λ _, None).
Proof. by intros s b. Qed.

Lemma changes_comp f1 g1 f2 g2 :
  changes f1 g1 → changes f2 g2 → changes (f2 ∘ f1) (λ b, match g2 b with Some v => Some v | None => g1 b end).
Proof.
  intros H1 H2 s b Hb. unfold compose. destruct (H1 s b Hb) as [E1 E2]. destruct (H2 (f1 s) b Hb) as [-> ->].
  rewrite E1, E2. by destruct (g2 b).
Qed.

Lemma changes_ext f g g' : (∀ b, 0 <= b → g b = g' b) → changes f g → changes f g'.
Proof. intros E H s b Hb. rewrite <-E by done. by apply H. Qed.

(** Decide all comparisons of bit numbers. *)
Ltac by_bits := intros b Hb; unfold ALPM_SIG_PACKAGE, ALPM_SIG_PACKAGE_OPTIONAL, ALPM_SIG_PACKAGE_MARGINAL_OK,
  ALPM_SIG_PACKAGE_UNKNOWN_OK, ALPM_SIG_DATABASE, ALPM_SIG_DATABASE_OPTIONAL, ALPM_SIG_DATABASE_MARGINAL_OK,
  ALPM_SIG_DATABASE_UNKNOWN_OK, bit_of; rewrite ?Z.lor_spec, ?testbit_flag by done; cbn [mjoin option_join mbind option_bind find_first fst snd fmap option_fmap option_map];
  repeat match goal with |- context [?x =? ?y] => destruct (Z.eqb_spec x y); cbn [orb fmap option_fmap option_map snd find_first] end;
  try done; lia.

Lemma siglevel_change_bits v :
  match siglevel_change v with
  | Some f => valid_value v ∧ changes f (λ b, mjoin (sig_bit v b))
  | None => ¬ valid_value v
  end.
Proof.
  unfold siglevel_change, valid_value, sig_bit, value_bits.
  destruct (siglevel_target v) as [[package database] value]. cbn [snd].
  destruct (streq value (str "Never")).
  { split; [by eexists|]. destruct package, database; (eapply changes_ext; [|apply changes_comp;
      first [apply changes_slunset|apply changes_id]]); by_bits. }
  destruct (streq value (str "Optional")).
  { split; [by eexists|]. destruct package, database; (eapply changes_ext; [|apply changes_comp;
      first [apply changes_slset|apply changes_id]]); by_bits. }
  destruct (streq value (str "Required")).
  { split; [by eexists|]. destruct package, database; (eapply changes_ext; [|apply changes_comp;
      first [apply changes_comp; [apply changes_slset|apply changes_slunset]|apply changes_id]]); by_bits. }
  destruct (streq value (str "TrustedOnly")).
  { split; [by eexists|]. destruct package, database; (eapply changes_ext; [|apply changes_comp;
      first [apply changes_slunset|apply changes_id]]); by_bits. }
  destruct (streq value (str "TrustAll")).
  { split; [by eexists|]. destruct package, database; (eapply changes_ext; [|apply changes_comp;
      first [apply changes_slset|apply changes_id]]); by_bits. }
  by intros [].
Qed.

Lemma siglevel_loop_bits values s b :
  Forall valid_value values → 0 <= b → b ≠ 30 →
  Z.testbit (sl_level (siglevel_loop values s 0).1) b = on_bit (last_bit values b) (Z.testbit (sl_level s) b) ∧
  Z.testbit (sl_mask (siglevel_loop values s 0).1) b = is_some (last_bit values b) || Z.testbit (sl_mask s) b.
Proof.
  intros Hv Hb H30. revert s. induction Hv as [|v values Hv _ IH]; intros s; [done|]. cbn [siglevel_loop last_bit].
  pose proof (siglevel_change_bits v) as Hc. destruct (siglevel_change v) as [f|]; [|done]. destruct Hc as [_ Hc].
  destruct (Hc s b Hb) as [E1 E2]. destruct (IH (clear_default (f s))) as [-> ->]. unfold clear_default. cbn [sl_level sl_mask].
  rewrite Z.land_spec, Z.lnot_spec by done. unfold ALPM_SIG_USE_DEFAULT. rewrite testbit_flag by done.
  destruct (Z.eqb_spec 30 b); [congruence|]. rewrite andb_true_r, E1, E2. by destruct (last_bit values b).
Qed.

Lemma siglevel_loop_ret values s ret : (siglevel_loop values s ret).2 = if decide (Forall valid_value values) then ret else 1.
Proof.
  revert s ret. induction values as [|v values IH]; intros s ret; [done|]. cbn [siglevel_loop].
  pose proof (siglevel_change_bits v) as Hc. destruct (siglevel_change v) as [f|]; rewrite IH; repeat case_decide; try done.
  - exfalso. apply H0. constructor; [apply Hc|done].
  - exfalso. apply H. by apply Forall_cons in H0 as [_ ?].
  - exfalso. by apply Forall_cons in H0 as [? _].
  - exfalso. by apply Forall_cons in H0 as [? _].
Qed.

Lemma last_bit_some values : values ≠ [] → Forall valid_value values →
  ∃ b, 0 <= b ∧ b ≠ 30 ∧ is_some (last_bit values b) = true.
Proof.
  induction values as [|v values IH]; [done|]. intros _ [Hv Hl]%Forall_cons. destruct values as [|w values].
  - clear IH. unfold valid_value in Hv. cbn [last_bit]. unfold sig_bit.
    destruct (siglevel_target v) as [[package database] value] eqn:Et. cbn [snd] in Hv.
    assert (package = true ∨ database = true) as Hpd.
    { unfold siglevel_target in Et. destruct (is_prefix (str "Package") v), (is_prefix (str "Database") v); injection Et as <- <- <-; auto. }
    unfold value_bits in *. repeat case_if; try by destruct Hv.
    all: destruct package; [by first [exists 0; split_and!; [lia|lia|done]|exists 2; split_and!; [lia|lia|done]]|].
    all: destruct database; [|by destruct Hpd].
    all: by first [exists 10; split_and!; [lia|lia|done]|exists 12; split_and!; [lia|lia|done]].
  - destruct (IH ltac:(done) Hl) as (b & H1 & H2 & H3). exists b. split_and!; [done|done|].
    change (last_bit (v :: w :: values) b) with (match last_bit (w :: values) b with Some x => Some x | None => mjoin (sig_bit v b) end).
    by destruct (last_bit (w :: values) b).
Qed.

(** ** Theorem: the signature level of a repository *)

(** C29. The level of a repository with the values [values] for SigLevel when the
    global level is [base]: the last value that names a flag decides it, and a flag
    that no value names has its value in [base]. An invalid value is an error that
    leaves the level as it was. *)
Theorem repo_siglevel_correct (env : conf_env) (values : list cstr) (base : Z) :
  let fresh := cr_siglevel (new_repo (str "core")) in
  let '(s, ret) := process_siglevel env values fresh in
  (Forall valid_value values → values ≠ [] → ce_signatures env = true →
   ret = 0 ∧ ∀ b, 0 <= b → b ≠ 30 →
     Z.testbit (sl_level (merged_level base s)) b = on_bit (last_bit values b) (Z.testbit base b)) ∧
  (¬ Forall valid_value values → s = fresh ∧ ret = 1).
Proof.
  intros fresh. unfold process_siglevel. pose proof (siglevel_loop_ret values fresh 0) as Hret.
  pose proof (λ b, siglevel_loop_bits values fresh b) as Hbits.
  destruct (siglevel_loop values fresh 0) as [s r]. cbn [fst snd] in *. case_decide as Hv.
  - destruct (negb (ce_signatures env) && _) eqn:Es.
    { cbn. split; [|done]. intros _ _ Hs. by rewrite Hs in Es. }
    subst r. cbn. split; [|done]. intros _ Hne _. split; [done|]. intros b Hb H30.
    destruct (Hbits b Hv Hb H30) as [E1 E2]. cbn [fresh new_repo cr_siglevel sl_mask] in E2. rewrite Z.testbit_0_l, orb_false_r in E2.
    unfold merged_level, merge_siglevel. cbn [sl_level]. destruct (Z.eqb_spec (sl_mask s) 0) as [E0|_]; cbn [negb].
    + exfalso. destruct (last_bit_some values Hne Hv) as (b' & H1 & H2 & H3). destruct (Hbits b' Hv H1 H2) as [_ E].
      by rewrite E0, H3, Z.testbit_0_l in E.
    + rewrite Z.lor_spec, !Z.land_spec, Z.lnot_spec, E1, E2 by done. destruct (last_bit values b) as [v|]; cbn;
        by rewrite ?andb_true_r, ?andb_false_r, ?orb_false_r.
  - subst r. destruct (negb (ce_signatures env) && _); by split.
Qed.

Example repo_siglevel_example :
  last_bit [str "PackageOptional"; str "TrustAll"; str "PackageRequired"] 1 = Some false ∧
  last_bit [str "PackageOptional"; str "TrustAll"; str "PackageRequired"] 12 = Some true ∧
  last_bit [str "PackageOptional"; str "TrustAll"; str "PackageRequired"] 10 = None.
Proof. vm_compute. done. Qed.

(** ** Facts: repositories become databases *)

(** A handle that differs in its sync databases and its error code only. *)
Definition with_dbs (h h' : alpm_handle_t) : Prop := ∃ e dbs, h' = set_errno e (set_dbs_sync dbs h).

#[export] Instance with_dbs_preorder : PreOrder with_dbs.
Proof.
  split.
  - intros h. exists (h_pm_errno h), (h_dbs_sync h). by destruct h.
  - intros h1 h2 h3 (e & dbs & ->) (e' & dbs' & ->). by exists e', dbs'.
Qed.

Lemma with_dbs_errno h e : with_dbs h (set_errno e h).
Proof. exists e, (h_dbs_sync h). by destruct h. Qed.

Lemma with_dbs_put h dbs : with_dbs h (set_dbs_sync dbs h).
Proof. exists (h_pm_errno h), dbs. by destruct h. Qed.

(** The database that a repository becomes, apart from its validation. *)
Record db_of (r : config_repo_t) (db : alpm_db_t) : Prop := {
  do_name : db_treename db = cr_name r;
  do_siglevel : db_siglevel db = sl_level (cr_siglevel r);
  do_usage : db_usage db = cr_usage r;
  do_cache : db_cache_servers db = map sanitize_url (cr_cache_servers r);
  do_servers : db_servers db = map sanitize_url (cr_servers r)
}.

Definition registrable (r : config_repo_t) : Prop :=
  cr_name r ≠ [] ∧ "/"%char ∉ cr_name r ∧ cr_name r ≠ str "local" ∧
  Forall (λ u, u ≠ []) (cr_cache_servers r) ∧ Forall (λ u, u ≠ []) (cr_servers r).

#[export] Instance registrable_dec r : Decision (registrable r).
Proof. unfold registrable. apply _. Defined.

Lemma validate_fields env h db :
  let '(h', db', _) := sync_db_validate env h db in
  (∃ e, h' = set_errno e h) ∧ ∃ status, db' = db_set_status status db.
Proof.
  assert (h = set_errno (h_pm_errno h) h) as Hh by by destruct h.
  assert (db = db_set_status (db_status db) db) as Hdb by by destruct db.
  destruct (sync_db_validate env h db) as [[h' db'] rc] eqn:E. unfold sync_db_validate in E.
  repeat case_match; injection E as <- <- <-; split; eauto.
Qed.

Lemma add_cache_urls h db urls :
  Forall (λ u, u ≠ []) urls →
  ∃ h', add_urls alpm_db_add_cache_server h db urls =
        (h', db_set_cache_servers (db_cache_servers db ++ map sanitize_url urls) db, 0) ∧ with_dbs h h' ∧ h_dbs_sync h' = h_dbs_sync h.
Proof.
  intros Hu. revert h db. induction Hu as [|u urls Hu _ IH]; intros h db.
  { exists h. split; [|done]. cbn. rewrite app_nil_r. by destruct db. }
  cbn [add_urls]. destruct u as [|ch u]; [done|]. cbn [alpm_db_add_cache_server].
  edestruct (IH (check_handle h)) as (h' & E & Hw & Hd). cbn [negb Z.eqb]. rewrite E. exists h'. split.
  - cbn. by rewrite <-app_assoc.
  - split; [|done]. etrans; [apply with_dbs_errno|done].
Qed.

Lemma add_server_urls h db urls :
  Forall (λ u, u ≠ []) urls →
  ∃ h', add_urls alpm_db_add_server h db urls =
        (h', db_set_servers (db_servers db ++ map sanitize_url urls) db, 0) ∧ with_dbs h h' ∧ h_dbs_sync h' = h_dbs_sync h.
Proof.
  intros Hu. revert h db. induction Hu as [|u urls Hu _ IH]; intros h db.
  { exists h. split; [|done]. cbn. rewrite app_nil_r. by destruct db. }
  cbn [add_urls]. destruct u as [|ch u]; [done|]. cbn [alpm_db_add_server].
  edestruct (IH (check_handle h)) as (h' & E & Hw & Hd). cbn [negb Z.eqb]. rewrite E. exists h'. split.
  - cbn. by rewrite <-app_assoc.
  - split; [|done]. etrans; [apply with_dbs_errno|done].
Qed.

Lemma register_good denv h r :
  registrable r → h_trans h = None → cr_name r ∉ map db_treename (h_dbs_sync h) →
  ∃ h' db, register_repo denv h r = (h', 0) ∧ with_dbs h h' ∧ h_dbs_sync h' = h_dbs_sync h ++ [db] ∧ db_of r db.
Proof.
  intros (Hn & Hs & Hl & Hc & Hsv) Ht Hnew. unfold register_repo, alpm_register_syncdb. cbn [h_trans check_handle set_errno].
  destruct (cr_name r) as [|ch n] eqn:En; [done|]. rewrite (proj2 (split_first_None _ _) Hs), Ht. cbn [is_some].
  destruct (streq (ch :: n) (str "local")) eqn:El; [by apply streq_true in El|].
  destruct (existsb _ _) eqn:Ex.
  { exfalso. apply Hnew. apply existsb_exists in Ex as (d & Hd%list_elem_of_In & Hd2%streq_true). rewrite Hd2.
    by apply list_elem_of_fmap_2. }
  unfold alpm_db_register_sync. set (db0 := mk_db _ _ _ _ _ _ _ _). set (h0 := check_handle h).
  pose proof (validate_fields denv h0 db0) as Hv. destruct (sync_db_validate denv h0 db0) as [[h1 db1] rc].
  destruct Hv as ((e & ->) & (status & ->)). set (h1 := set_dbs_sync _ _). set (db1 := alpm_db_set_usage _ _).
  destruct (add_cache_urls h1 db1 (cr_cache_servers r) Hc) as (h2 & -> & Hw2 & Hd2). cbn [negb Z.eqb].
  destruct (add_server_urls h2 (db_set_cache_servers (db_cache_servers db1 ++ map sanitize_url (cr_cache_servers r)) db1)
    (cr_servers r) Hsv) as (h3 & -> & Hw3 & Hd3). cbn [negb Z.eqb].
  eexists _, _. split; [done|]. split; [|split].
  - etrans; [|apply with_dbs_put]. etrans; [|exact Hw3]. etrans; [|exact Hw2]. unfold h1. etrans; [|apply with_dbs_put].
    etrans; [apply with_dbs_errno|apply with_dbs_errno].
  - cbn [put_last_db h_dbs_sync set_dbs_sync]. rewrite Hd3, Hd2. unfold h1. cbn [h_dbs_sync set_dbs_sync].
    by rewrite removelast_last.
  - by split; cbn.
Qed.

Lemma register_with_dbs denv h r : with_dbs h (register_repo denv h r).1.
Proof.
  unfold register_repo. destruct (alpm_register_syncdb _ _ _ _) as [h1 db] eqn:E.
  assert (with_dbs h h1) as H1.
  { unfold alpm_register_syncdb in E. destruct (cr_name r) as [|ch n]; [injection E as <- _; etrans; apply with_dbs_errno|].
    repeat (case_match; [injection E as <- _; etrans; apply with_dbs_errno|]). unfold alpm_db_register_sync in E.
    set (db0 := mk_db _ _ _ _ _ _ _ _) in E. pose proof (validate_fields denv (check_handle h) db0) as Hv.
    destruct (sync_db_validate _ _ _) as [[h2 db2] rc]. destruct Hv as ((e & ->) & _). injection E as <- _.
    etrans; [|apply with_dbs_put]. etrans; apply with_dbs_errno. }
  assert (∀ add, (∀ h db u, with_dbs h (add h db u).1.1) → ∀ urls h db, with_dbs h (add_urls add h db urls).1.1) as Hurls.
  { intros add Ha urls. induction urls as [|u urls IH]; intros h0 db0; [done|]. cbn [add_urls].
    specialize (Ha h0 db0 (Some u)). destruct (add h0 db0 (Some u)) as [[h2 db2] rc]. destruct (negb _); [done|]. by etrans. }
  destruct db as [db|]; [|done].
  pose proof (Hurls alpm_db_add_cache_server) as Hc. pose proof (Hurls alpm_db_add_server) as Hsv. clear Hurls.
  assert (∀ h db u, with_dbs h (alpm_db_add_cache_server h db u).1.1) as A1
    by (intros ? ? [[]|]; apply with_dbs_errno).
  assert (∀ h db u, with_dbs h (alpm_db_add_server h db u).1.1) as A2 by (intros ? ? [[]|]; apply with_dbs_errno).
  specialize (Hc A1 (cr_cache_servers r) h1 (alpm_db_set_usage db (cr_usage r))).
  destruct (add_urls alpm_db_add_cache_server _ _ _) as [[h2 db2] rc]. cbn in Hc. destruct (negb (rc =? 0)).
  { cbn. etrans; [exact H1|]. etrans; [exact Hc|apply with_dbs_put]. }
  specialize (Hsv A2 (cr_servers r) h2 db2). destruct (add_urls alpm_db_add_server _ _ _) as [[h3 db3] rc3]. cbn in Hsv |- *.
  etrans; [exact H1|]. etrans; [exact Hc|]. etrans; [exact Hsv|apply with_dbs_put].
Qed.

Lemma register_all denv repos h :
  let h' := fold_left (λ h repo, (register_repo denv h repo).1) repos h in
  with_dbs h h' ∧
  (h_trans h = None → Forall registrable repos → NoDup (map db_treename (h_dbs_sync h) ++ map cr_name repos) →
   ∃ dbs, h_dbs_sync h' = h_dbs_sync h ++ dbs ∧ Forall2 db_of repos dbs).
Proof.
  revert h. induction repos as [|r repos IH]; intros h; cbn [fold_left].
  { split; [done|]. intros. exists []. by rewrite app_nil_r. }
  destruct (IH (register_repo denv h r).1) as [Hw Hg]. split; [etrans; [apply register_with_dbs|exact Hw]|].
  intros Ht [Hr Hrs]%Forall_cons Hnd. cbn [map] in Hnd.
  destruct (register_good denv h r Hr Ht) as (h1 & db & E & Hw1 & Hd & Hdb).
  { intros Hin. apply NoDup_app in Hnd as (_ & Hdis & _). apply (Hdis _ Hin). by left. }
  rewrite E in Hg |- *. cbn [fst] in Hg |- *. destruct Hg as (dbs & Hdbs & Hall); [|done| |].
  - destruct Hw1 as (e & dbs & ->). exact Ht.
  - rewrite Hd, map_app. cbn. rewrite (do_name _ _ Hdb), <-app_assoc. done.
  - exists (db :: dbs). rewrite Hdbs, Hd, <-app_assoc. split; [done|]. by constructor.
Qed.

(** ** Theorem: the library gets the configuration *)

(** A directory of the configuration that exists, resolved and with a slash. *)
Definition resolved_dir (oe : option_env) (path : option cstr) : option cstr :=
  real ← (path ≫= oe_realpath oe); canonicalize_path real.

(** The options of the handle are those of the configuration; directories end in
    a slash, and the hook directories come after that of the library, which is
    below the root. *)
Record reflects (oe : option_env) (c : config_t) (h' : alpm_handle_t) : Prop := {
  rf_root : ∃ root, resolved_dir oe (cf_rootdir (cf_paths c)) = Some root ∧ o_root (h_options h') = Some root ∧
    ∃ dirs, mapM canonicalize_path (cf_hookdirs (cf_lists c)) = Some dirs ∧
            h_hookdirs h' = (root ++ tail (oe_syshookdir oe)) :: dirs;
  rf_dbpath : ∃ dbpath, resolved_dir oe (cf_dbpath (cf_paths c)) = Some dbpath ∧
    o_dbpath (h_options h') = Some dbpath ∧ o_lockfile (h_options h') = Some (dbpath ++ str "db.lck");
  rf_dbext : o_dbext (h_options h') = Some (if cf_op c =? PM_OP_FILES then str ".files" else str ".db");
  rf_logfile : o_logfile (h_options h') = cf_logfile (cf_paths c);
  rf_gpgdir : o_gpgdir (h_options h') = cf_gpgdir (cf_paths c) ≫= canonicalize_path;
  rf_user : o_sandboxuser (h_options h') = cf_sandboxuser (cf_paths c);
  rf_sandbox : o_disable_sandbox_filesystem (h_options h') = cf_disable_sandbox_filesystem (cf_flags c) ∧
               o_disable_sandbox_syscalls (h_options h') = cf_disable_sandbox_syscalls (cf_flags c);
  rf_cachedirs : mapM canonicalize_path (cf_cachedirs (cf_lists c)) = Some (h_cachedirs h');
  rf_lists : h_overwrite_files h' = cf_overwrite_files (cf_lists c) ∧ h_ignorepkg h' = cf_ignorepkg (cf_lists c) ∧
             h_ignoregroup h' = cf_ignoregrp (cf_lists c) ∧ h_noupgrade h' = cf_noupgrade (cf_lists c) ∧
             h_noextract h' = cf_noextract (cf_lists c) ∧ h_architectures h' = cf_architectures (cf_lists c);
  rf_assume : h_assumeinstalled h' = map alpm_dep_from_string (cf_assumeinstalled (cf_lists c));
  rf_levels : o_siglevel (h_options h') = sl_level (cf_siglevel c) ∧
              o_localfilesiglevel (h_options h') = sl_level (cf_localfilesiglevel c) ∧
              o_remotefilesiglevel (h_options h') = sl_level (cf_remotefilesiglevel c);
  rf_numbers : o_checkspace (h_options h') = cf_checkspace (cf_flags c) ∧ o_usesyslog (h_options h') = cf_usesyslog (cf_flags c) ∧
               o_disable_dl_timeout (h_options h') = cf_disable_dl_timeout (cf_flags c) ∧
               o_parallel_downloads (h_options h') = cf_parallel_downloads c
}.

(** The handle alpm_initialize returns. *)
Record new_handle (oe : option_env) (c : config_t) (h : alpm_handle_t) : Prop := {
  nh_trans : h_trans h = None;
  nh_dbs : h_dbs_sync h = [];
  nh_assume : h_assumeinstalled h = [];
  nh_ext : o_dbext (h_options h) = Some (str ".db");
  nh_root : ∃ root, resolved_dir oe (cf_rootdir (cf_paths c)) = Some root ∧ o_root (h_options h) = Some root ∧
              h_hookdirs h = [root ++ tail (oe_syshookdir oe)];
  nh_dbpath : ∃ dbpath, resolved_dir oe (cf_dbpath (cf_paths c)) = Some dbpath ∧
    o_dbpath (h_options h) = Some dbpath ∧ o_lockfile (h_options h) = Some (dbpath ++ str "db.lck")
}.

Lemma directory_option_resolved oe path d :
  alpm_set_directory_option oe path true = Some (inl d) → resolved_dir oe path = Some d.
Proof.
  unfold alpm_set_directory_option, resolved_dir. destruct path as [path|]; [|done].
  destruct (negb _); [done|]. cbn [mbind option_bind]. destruct (oe_realpath oe path) as [real|]; [|done].
  cbn [mbind option_bind]. destruct (canonicalize_path real); [|done]. by intros [= <-].
Qed.

Lemma register_local_form sys d h fs h' fs' rc :
  alpm_db_register_local sys d h fs = (h', fs', rc) → ∃ e db, h' = set_errno e (set_db_local db h).
Proof.
  assert (∀ h, h = set_errno (h_pm_errno h) (set_db_local (h_db_local h) h)) as Hh by (by intros []).
  assert (∀ e h, ∃ e' db, set_errno e h = set_errno e' (set_db_local db h)) as He
    by (intros e h0; by exists e, (h_db_local h0); destruct h0).
  unfold alpm_db_register_local, local_db_validate, local_db_create. intros H.
  repeat (case_match; simplify_eq/=; eauto).
  all: try (eexists _, _; apply Hh). all: by eexists (h_pm_errno _), _.
Qed.

Lemma initialize_new oe sys c fs h fs' :
  alpm_initialize oe sys (cf_rootdir (cf_paths c)) (cf_dbpath (cf_paths c)) fs = Some (inl h, fs') →
  new_handle oe c h.
Proof.
  unfold alpm_initialize. intros H. apply bind_Some in H as ([r|] & Hr & H); [|done].
  apply bind_Some in H as ([d|] & Hd & H); [|done]. apply directory_option_resolved in Hr, Hd.
  destruct (alpm_db_register_local _ _ _ _) as [[h1 fs1] rc] eqn:Er.
  apply register_local_form in Er as (e & db & ->). destruct (negb _); [done|]. injection H as <- _.
  split; cbn; try done; [by exists r|by exists d].
Qed.

Lemma add_hookdirs_dirs dirs h : add_hookdirs dirs h = add_dirs f_hookdirs (map Some dirs) h.
Proof.
  revert h. induction dirs as [|d dirs IH]; intros h; [done|]. cbn [add_hookdirs map add_dirs].
  unfold alpm_option_add_hookdir. destruct (add_dir f_hookdirs (Some d) h) as [[h1 ret]|]; [|done]. cbn [mbind option_bind].
  destruct (negb _); [done|]. apply IH.
Qed.

Lemma dep_from_string_hash x : dep_name_hash (alpm_dep_from_string x) = alpm_hash_sdbm (dep_name (alpm_dep_from_string x)).
Proof. unfold alpm_dep_from_string. destruct (split_substr _ x) as [[]|]; by destruct (split_mod _) as [[] ?]. Qed.

Lemma add_assume_frame entries h h' :
  add_assume entries h = (h', 0) →
  ∃ e, h' = set_errno e (set_assumeinstalled (h_assumeinstalled h ++ map alpm_dep_from_string entries) h).
Proof.
  revert h. induction entries as [|x entries IH]; intros h.
  { intros [= <-]. exists (h_pm_errno h). cbn. rewrite app_nil_r. by destruct h. }
  cbn [add_assume]. unfold alpm_option_add_assumeinstalled. case_if; [|done]. cbn [negb Z.eqb].
  intros [e ->]%IH. exists e. cbn [h_assumeinstalled set_assumeinstalled check_handle set_errno map].
  rewrite <-dep_from_string_hash, <-app_assoc. cbn. by destruct (alpm_dep_from_string x).
Qed.

Lemma setup_options_reflects (oe : option_env) (denv : db_env) (c : config_t) (h h' : alpm_handle_t) :
  oe_have_gpgme oe = true → has_flag (sl_level (cf_siglevel c)) ALPM_SIG_USE_DEFAULT = false →
  1 <= cf_parallel_downloads c → new_handle oe c h → setup_options oe denv c h = Some (h', 0) →
  reflects oe c h' ∧
  (Forall registrable (cf_repos c) → NoDup (map cr_name (cf_repos c)) → Forall2 db_of (cf_repos c) (h_dbs_sync h')).
Proof.
  intros Hg Hsig Hpar [Htr Hdbs Has Hext (root & Hroot & Eroot & Ehook) (dbp & Hdbp & Edb & Elock)].
  unfold setup_options. set (h0 := if cf_op c =? PM_OP_FILES then _ else h).
  assert (∃ e, h0 = set_errno e (upd_options (o_set_dbext
    (Some (if cf_op c =? PM_OP_FILES then str ".files" else str ".db"))) h)) as (e0 & ->).
  { unfold h0. case_if; [by eexists|]. exists (h_pm_errno h). by destruct h as [? ? ? ? ? ? ? ? ? ? ? ? ? ? []]; cbn in *; subst. }
  unfold alpm_option_set_logfile, alpm_option_set_gpgdir, alpm_set_directory_option.
  destruct (cf_logfile (cf_paths c)) as [log|] eqn:Elog; [|done]. cbn [negb Z.eqb].
  destruct (cf_gpgdir (cf_paths c)) as [gpg|] eqn:Egpg; [|done]. cbn [mbind option_bind].
  destruct (canonicalize_path gpg) as [gpg'|] eqn:Ec; [|done]. cbn [fmap option_fmap option_map mbind option_bind negb Z.eqb].
  rewrite add_hookdirs_dirs, add_dirs_total by (try apply _; done).
  destruct (mapM canonicalize_path (cf_hookdirs (cf_lists c))) as [hooks|] eqn:Eh; [|done]. cbn [mbind option_bind negb Z.eqb].
  unfold alpm_option_set_cachedirs, set_dirs. rewrite add_dirs_total by (try apply _; done).
  destruct (mapM canonicalize_path (cf_cachedirs (cf_lists c))) as [caches|] eqn:Ek; [|done]. cbn [mbind option_bind].
  unfold alpm_option_set_default_siglevel, alpm_option_set_local_file_siglevel, alpm_option_set_remote_file_siglevel.
  rewrite Hg. destruct (Z.eqb_spec (sl_level (cf_siglevel c)) ALPM_SIG_USE_DEFAULT) as [E|_]; [by rewrite E in Hsig|].
  set (h1 := upd_options _ _). destruct (register_all denv (cf_repos c) h1) as [(e1 & dbs & Ereg) Hreg].
  set (h2 := fold_left _ _ _) in *.
  assert (Forall registrable (cf_repos c) → NoDup (map cr_name (cf_repos c)) → Forall2 db_of (cf_repos c) dbs) as Hall.
  { intros Hr Hn. destruct Hreg as (dbs' & E & H); [exact Htr|done|change (h_dbs_sync h1) with (h_dbs_sync h); by rewrite Hdbs|].
    rewrite Ereg in E. cbn [h_dbs_sync set_errno set_dbs_sync] in E. change (h_dbs_sync h1) with (h_dbs_sync h) in E.
    rewrite Hdbs in E. by subst. }
  rewrite Ereg. clear Hreg Ereg. unfold alpm_option_set_sandboxuser. set (user := cf_sandboxuser (cf_paths c)).
  assert (∀ x k, (let '(h, ret) := match user with
      | Some u => if negb (oe_getpwnam oe u) then (upd_options (o_set_sandboxuser None) x, 1)
                  else (upd_options (o_set_sandboxuser (Some u)) (upd_options (o_set_sandboxuser None) x), 0)
      | None => (upd_options (o_set_sandboxuser None) x, 0) end in
      if negb (ret =? 0) then Some (h, ret) else k h) = Some (h', 0) →
    k (upd_options (o_set_sandboxuser user) x) = Some (h', 0)) as Huser.
  { intros x k. destruct user as [u|]; [destruct (negb _)|]; cbn [negb Z.eqb]; [done|by destruct x|done]. }
  intros H%Huser. unfold alpm_option_set_parallel_downloads in H. rewrite (proj2 (Z.leb_le _ _) Hpar) in H. apply (inj Some) in H.
  apply add_assume_frame in H as (e2 & ->). split; [|exact Hall].
  split; cbn; try done; [|by exists dbp|by rewrite Egpg, <-Ec|by rewrite Has].
  exists root. split_and!; [done..|]. exists hooks. split; [done|]. by rewrite Ehook.
Qed.

(** C30. When setup_libalpm succeeds, in a library with GPGME, for a configuration
    with a number of downloads and a signature level of its own (as reading one
    leaves it), the handle has the options of the configuration: root and
    database directory resolved, the extension of the databases, log file,
    GnuPG directory, hook and cache directories, download user and sandbox
    switches, all lists, the assumed packages, the signature levels and the
    numbers; and when all repositories have usable and distinct names and no
    empty address, each is a database with its signature level, usage and servers,
    in the order of the file (setup_libalpm does not report one that is not). *)
Theorem setup_reflects_config (oe : option_env) (denv : db_env) (sys : os) (c : config_t) (fs fs' : fsys)
    (h' : alpm_handle_t) :
  oe_have_gpgme oe = true → has_flag (sl_level (cf_siglevel c)) ALPM_SIG_USE_DEFAULT = false →
  1 <= cf_parallel_downloads c → setup_libalpm oe denv sys c fs = Some (Some h', fs', 0) →
  reflects oe c h' ∧
  (Forall registrable (cf_repos c) → NoDup (map cr_name (cf_repos c)) → Forall2 db_of (cf_repos c) (h_dbs_sync h')).
Proof.
  intros Hg Hsig Hpar H. unfold setup_libalpm in H.
  apply bind_Some in H as ([[h|e] fs1] & Hi & H); [|done]. apply initialize_new in Hi.
  apply bind_Some in H as ([h1 ret] & Hs & [= <- _ ->]). by eapply setup_options_reflects.
Qed.

(** A library with GPGME on a system without users, and its new handle. *)
Definition ex_conf_oe : option_env := mk_option_env (λ _, true) (λ p, Some p) (λ _, true) true (str "/usr/share/libalpm/hooks/").
Definition ex_conf_denv : db_env := mk_db_env (λ _, false) (λ _ _, true).
Definition ex_configured : config_t :=
  match parseconfigfile ex_conf_env (str "/etc/dulge.conf") ex_conf ≫= λ r, setdefaults ex_conf_env r.1 with
  | Some (c, _) => c
  | None => ex_conf
  end.

Definition ex_conf_fs : fsys := list_to_map [(str "/mnt/var/lib/dulge", NDir)].

Lemma ex_setup_run :
  ∃ h' fs', setup_libalpm ex_conf_oe ex_conf_denv ex_os ex_configured ex_conf_fs = Some (Some h', fs', 0).
Proof.
  assert (match setup_libalpm ex_conf_oe ex_conf_denv ex_os ex_configured ex_conf_fs with
          | Some (Some _, _, rc) => rc =? 0 | _ => false end = true) as H by (vm_compute; reflexivity).
  destruct (setup_libalpm _ _ _ _ _) as [[[[h'|] fs'] rc]|]; [|discriminate H..]. apply Z.eqb_eq in H as ->.
  exists h', fs'. reflexivity.
Qed.

Lemma setup_reflects_config_witness :
  ∃ h' fs' db, setup_libalpm ex_conf_oe ex_conf_denv ex_os ex_configured ex_conf_fs = Some (Some h', fs', 0) ∧
  o_root (h_options h') = Some (str "/mnt/") ∧ h_cachedirs h' = [str "/a/"; str "/b/"] ∧ h_dbs_sync h' = [db] ∧
  db_servers db = [str "https://m/core/x86_64"] ∧ db_siglevel db = 13327.
Proof.
  destruct ex_setup_run as (h' & fs' & E).
  destruct (setup_reflects_config ex_conf_oe ex_conf_denv ex_os ex_configured ex_conf_fs fs' h') as [Hr Hd];
    [reflexivity|reflexivity|by vm_compute|exact E|].
  assert (Forall2 db_of (cf_repos ex_configured) (h_dbs_sync h')) as H2.
  { apply Hd.
    - apply (bool_decide_unpack _). by vm_compute.
    - apply (bool_decide_unpack _). by vm_compute. }
  destruct Hr as [(root & Hroot & Hr & _) _ _ _ _ _ _ Hc _ _ _ _].
  assert (resolved_dir ex_conf_oe (cf_rootdir (cf_paths ex_configured)) = Some (str "/mnt/")) as Er
    by (vm_compute; reflexivity).
  rewrite Er in Hroot. apply (inj Some) in Hroot as <-.
  assert (mapM canonicalize_path (cf_cachedirs (cf_lists ex_configured)) = Some [str "/a/"; str "/b/"]) as Hm
    by (vm_compute; reflexivity).
  rewrite Hm in Hc. apply (inj Some) in Hc.
  destruct (h_dbs_sync h') as [|db [|db2 dbs]] eqn:Edb.
  - apply Forall2_length in H2. vm_compute in H2. done.
  - exists h', fs', db. split; [exact E|]. split; [exact Hr|]. split; [by symmetry|]. split; [done|].
    assert (∃ r, cf_repos ex_configured = [r] ∧ map sanitize_url (cr_servers r) = [str "https://m/core/x86_64"] ∧
      sl_level (cr_siglevel r) = 13327) as (r & Er2 & E1 & E2) by (eexists; vm_compute; split_and!; reflexivity).
    rewrite Er2 in H2. apply Forall2_cons in H2 as [[_ Hl _ _ Hs] _]. rewrite Hs, Hl. by split.
  - apply Forall2_length in H2. vm_compute in H2. done.
Defined.
