(* ===== verification/ChildIO.v ===== *)
(** * Talking to a child process

    lib/libalpm/util.c: the parent's side of _alpm_run_chroot, which feeds the
    standard input of a hook or scriptlet and turns its output into log lines.
    What poll, read and send report is given as a list of events; the buffers are
    the bytes they hold. A callback that produces the input is an instance of
    [StdinCb]. *)
From S2P Require Import Prelude CString Util LocalDb.

(** ** Callbacks that produce input *)

(** What a callback of type _alpm_cb_io promises: it fills the buffer with the
    next bytes of a text, and writes nothing only at its end. *)
Class StdinCb (C : Type) := {
  out_cb : C → nat → cstr * C;
  to_feed : C → cstr;
  out_cb_next : ∀ c limit, (out_cb c limit).1 ++ to_feed (out_cb c limit).2 = to_feed c;
  out_cb_fits : ∀ c limit, length (out_cb c limit).1 <= limit;
  out_cb_stops : ∀ c limit, 0 < limit → (out_cb c limit).1 = [] → to_feed c = []
}.

Inductive read_result :=
  | ReadData (bytes : cstr)        (* nread > 0 *)
  | ReadEof
  | ReadRetry                      (* should_retry(errno) *)
  | ReadError.

Inductive send_result :=
  | Sent (nwrite : nat)
  | SendRetry
  | SendError.

(** ** The two directions *)

(** The lines completed in the buffer: the loop over memchr(buf, '\n'). *)
Fixpoint take_lines (fuel : nat) (buf : cstr) : list cstr * cstr :=
  match fuel with
  | O => ([], buf)
  | S fuel' =>
      match split_first newline buf with
      | None => ([], buf)
      | Some (l, rest) =>
          let '(ls, buf) := take_lines fuel' rest in ((l ++ [newline]) :: ls, buf)
      end
  end.

(** _alpm_chroot_read_from_child: the new contents of the buffer, the lines that
    go to _alpm_chroot_process_output, and the result. *)
Definition read_from_child (buf_limit : nat) (buf : cstr) (r : read_result)
    : cstr * list cstr * Z :=
  let space := buf_limit - length buf - 2 in
  match r with
  | ReadData bytes =>
      let all := buf ++ bytes in
      if existsb is_newline bytes then
        let '(lines, rest) := take_lines (length all) all in (rest, lines, 0%Z)
      else if (length bytes =? space)%nat then ([], [all ++ [newline]], 0%Z)
      else (all, [], 0%Z)
  | ReadEof | ReadError =>
      (buf, match buf with [] => [] | _ => [buf ++ [newline]] end, (-1)%Z)
  | ReadRetry => (buf, [], 0%Z)
  end.

Section write.
Context `{StdinCb C}.

(** _alpm_chroot_write_to_child: the buffer, the context, the bytes sent, the
    result. *)
Definition write_to_child (buf_limit : nat) (buf : cstr) (ctx : C) (r : send_result)
    : cstr * C * cstr * Z :=
  let '(buf, ctx) := match buf with [] => out_cb ctx buf_limit | _ => (buf, ctx) end in
  match buf with
  | [] => ([], ctx, [], (-1)%Z)
  | _ =>
      match r with
      | Sent n => (drop n buf, ctx, take n buf, 0%Z)
      | SendRetry => (buf, ctx, [], 0%Z)
      | SendError => (buf, ctx, [], (-1)%Z)
      end
  end.

(** ** The loop *)

(** revents of a descriptor: nothing, ready (with what the call will return), or
    an error. *)
Inductive revents (R : Type) := Quiet | Ready (r : R) | Failed.
#[global] Arguments Quiet {R}.
#[global] Arguments Ready {R} r.
#[global] Arguments Failed {R}.

Record child := mk_child {
  ch_in : option cstr;          (* the input buffer, while its descriptor is open *)
  ch_ilen : cstr;               (* the input buffer after it was closed *)
  ch_out : option (cstr * C);   (* the output buffer and context, while open *)
  ch_lines : list cstr;
  ch_sent : cstr
}.

Definition LINE_MAX : nat := 2048.
Definition PIPE_BUF : nat := 4096.

Definition poll_in (rv : revents read_result) (c : child) : child :=
  match ch_in c, rv with
  | Some buf, Ready r =>
      let '(buf, lines, rc) := read_from_child LINE_MAX buf r in
      mk_child (if (rc =? 0)%Z then Some buf else None) buf (ch_out c) (ch_lines c ++ lines) (ch_sent c)
  | Some buf, Failed => mk_child None buf (ch_out c) (ch_lines c) (ch_sent c)
  | _, _ => c
  end.

Definition poll_out (rv : revents send_result) (c : child) : child :=
  match ch_out c, rv with
  | Some (buf, ctx), Ready r =>
      let '(buf, ctx, sent, rc) := write_to_child PIPE_BUF buf ctx r in
      mk_child (ch_in c) (ch_ilen c) (if (rc =? 0)%Z then Some (buf, ctx) else None) (ch_lines c)
        (ch_sent c ++ sent)
  | Some _, Failed => mk_child (ch_in c) (ch_ilen c) None (ch_lines c) (ch_sent c)
  | _, _ => c
  end.

(** Every event is what one call of poll reports; the loop stops when both
    descriptors are closed. *)
Fixpoint poll_loop (events : list (revents read_result * revents send_result)) (c : child) : child :=
  match events with
  | [] => c
  | (rin, rout) :: events' =>
      match ch_in c, ch_out c with
      | None, None => c
      | _, _ => poll_loop events' (poll_out rout (poll_in rin c))
      end
  end.

(** What is left in the input buffer is processed after the loop. *)
Definition rest_lines (c : child) : list cstr :=
  match (match ch_in c with Some buf => buf | None => ch_ilen c end) with
  | [] => []
  | buf => [buf ++ [newline]]
  end.

Definition start_child (stdin : option C) : child :=
  mk_child (Some []) [] ((λ ctx, ([], ctx)) <$> stdin) [] [].

(** The parent's side of _alpm_run_chroot: the lines that are logged, and the
    bytes the child gets. *)
Definition run_parent (stdin : option C) (events : list (revents read_result * revents send_result))
    : list cstr * cstr :=
  let c := poll_loop events (start_child stdin) in
  (ch_lines c ++ rest_lines c, ch_sent c).

(** ** _alpm_run_chroot *)

(** What the system answers: chdir to the root, the two socket pairs, fork, the
    events, and waitpid at the end. *)
Inductive wait_result :=
  | WaitError
  | Exited (code : Z)
  | Signaled (signal : Z).

Record chroot_sys := mk_chroot_sys {
  cs_chdir : bool;
  cs_child2parent : bool;
  cs_parent2child : bool;
  cs_fork : bool;
  cs_events : list (revents read_result * revents send_result);
  cs_wait : wait_result
}.

(** The lines logged, the input of the child, the result. *)
Definition alpm_run_chroot (stdin : option C) (sys : chroot_sys) : list cstr * cstr * Z :=
  if negb (cs_chdir sys) then ([], [], 0%Z)
  else if negb (cs_child2parent sys) then ([], [], 1%Z)
  else if negb (cs_parent2child sys) then ([], [], 1%Z)
  else if negb (cs_fork sys) then ([], [], 1%Z)
  else
    (run_parent stdin (cs_events sys),
     match cs_wait sys with
     | WaitError => 1%Z
     | Exited code => if (code =? 0)%Z then 0%Z else 1%Z
     | Signaled _ => 1%Z
     end).
End write.

(** ** Facts: lines *)

(** The reference: the output byte by byte. A line is logged when it ends, and
    a line that is too long is cut after [LINE_MAX] - 2 bytes. *)
Definition log_step (st : cstr * list cstr) (c : ascii) : cstr * list cstr :=
  let '(frag, lines) := st in
  if is_newline c then ([], lines ++ [frag ++ [newline]])
  else if (length (frag ++ [c]) =? LINE_MAX - 2)%nat then ([], lines ++ [frag ++ [c; newline]])
  else (frag ++ [c], lines).

Definition log_output (data : cstr) : cstr * list cstr := fold_left log_step data ([], []).

Definition frag_ok (frag : cstr) : Prop := newline ∉ frag ∧ length frag < LINE_MAX - 2.

Lemma frag_nil : frag_ok [].
Proof. split; [apply not_elem_of_nil|unfold LINE_MAX; cbn; lia]. Qed.

Lemma log_step_lines frag lines c :
  log_step (frag, lines) c = ((log_step (frag, []) c).1, lines ++ (log_step (frag, []) c).2).
Proof.
  unfold log_step. destruct (is_newline c); [done|]. destruct (_ =? _)%nat; [done|]. by rewrite app_nil_r.
Qed.

Lemma log_steps_lines frag lines data :
  fold_left log_step data (frag, lines) =
    ((fold_left log_step data (frag, [])).1, lines ++ (fold_left log_step data (frag, [])).2).
Proof.
  revert frag lines. induction data as [|c data IH]; intros frag lines; cbn [fold_left].
  { by rewrite app_nil_r. }
  rewrite log_step_lines. destruct (log_step (frag, []) c) as [f ls]. cbn [fst snd].
  rewrite (IH f (lines ++ ls)), (IH f ls). cbn [fst snd]. by rewrite app_assoc.
Qed.

(** A fragment without newlines. *)
Lemma log_fragment frag data :
  newline ∉ data → length (frag ++ data) <= LINE_MAX - 2 → data ≠ [] →
  fold_left log_step data (frag, []) =
    if (length (frag ++ data) =? LINE_MAX - 2)%nat then ([], [frag ++ data ++ [newline]])
    else (frag ++ data, []).
Proof.
  revert frag. induction data as [|c data IH]; intros frag Hn Hlen Hne; [done|].
  apply not_elem_of_cons in Hn as [Hc Hn]. cbn [fold_left]. unfold log_step at 2.
  rewrite (proj2 (is_newline_false c)) by done. destruct data as [|d data].
  - destruct (length (frag ++ [c]) =? LINE_MAX - 2)%nat; [by rewrite app_nil_l|done].
  - rewrite !length_app in *. cbn [length] in *.
    rewrite (proj2 (Nat.eqb_neq (length frag + 1) (LINE_MAX - 2))) by lia.
    rewrite IH; [|done|rewrite !length_app; cbn [length]; lia|done].
    rewrite !length_app, <-!app_assoc. cbn [length app].
    replace (length frag + 1 + S (length data)) with (length frag + S (S (length data))) by lia. done.
Qed.

(** A line that is completed. *)
Lemma log_line frag l :
  newline ∉ l → length (frag ++ l) < LINE_MAX - 2 →
  fold_left log_step (l ++ [newline]) (frag, []) = ([], [frag ++ l ++ [newline]]).
Proof.
  intros Hn Hlen. rewrite fold_left_app. destruct (decide (l = [])) as [->|Hne]; [done|].
  rewrite log_fragment by (done || lia). rewrite (proj2 (Nat.eqb_neq _ _)) by lia. cbn. by rewrite <-app_assoc.
Qed.

Lemma split_newline buf :
  match split_first newline buf with
  | None => newline ∉ buf
  | Some (l, rest) => buf = l ++ newline :: rest ∧ newline ∉ l
  end.
Proof.
  destruct (split_first newline buf) as [[l rest]|] eqn:E.
  - by apply split_first_Some.
  - by apply split_first_None.
Qed.

Lemma take_lines_log fuel buf :
  length buf <= fuel → length buf <= LINE_MAX - 2 →
  (newline ∉ buf → length buf < LINE_MAX - 2) →
  let '(lines, rest) := take_lines fuel buf in
  fold_left log_step buf ([], []) = (rest, lines) ∧ frag_ok rest.
Proof.
  revert buf. induction fuel as [|fuel IH]; intros buf Hf Hlen Hfull; cbn [take_lines].
  { destruct buf; [|simpl in Hf; lia]. split; [done|apply frag_nil]. }
  pose proof (split_newline buf) as Hs. destruct (split_first newline buf) as [[l rest]|].
  - destruct Hs as [-> Hl]. rewrite length_app in *. cbn [length] in *.
    specialize (IH rest). destruct (take_lines fuel rest) as [ls r].
    destruct IH as [I1 I2]; [lia|lia|intros; lia|]. split; [|done].
    rewrite (app_assoc l [newline] rest : l ++ newline :: rest = _), fold_left_app.
    rewrite log_line by (done || (cbn [length app]; lia)). rewrite log_steps_lines, I1. done.
  - split; [|split; [done|by apply Hfull]]. destruct (decide (buf = [])) as [->|Hne]; [done|].
    rewrite log_fragment by (done || (cbn [length app]; lia)). rewrite (proj2 (Nat.eqb_neq _ _)); [done|].
    cbn [app]. specialize (Hfull Hs). lia.
Qed.

(** Bytes that a read into the free part of the buffer can return. *)
Definition read_ok (buf bytes : cstr) : Prop :=
  bytes ≠ [] ∧ length bytes <= LINE_MAX - length buf - 2.

Lemma log_continue frag data :
  frag_ok frag → fold_left log_step data (frag, []) = fold_left log_step (frag ++ data) ([], []).
Proof.
  intros [Hn Hl]. rewrite fold_left_app. destruct (decide (frag = [])) as [->|Hne]; [done|].
  rewrite (log_fragment [] frag) by (done || (cbn [length app]; lia)). rewrite (proj2 (Nat.eqb_neq _ _)) by (cbn [length app]; lia). done.
Qed.

Lemma existsb_newline s : existsb is_newline s = true ↔ newline ∈ s.
Proof.
  rewrite existsb_exists. split.
  - intros (c & Hc%list_elem_of_In & E%is_newline_true). by subst.
  - intros Hc%list_elem_of_In. by exists newline.
Qed.

Lemma read_data_log buf bytes :
  frag_ok buf → read_ok buf bytes →
  let '(buf', lines, rc) := read_from_child LINE_MAX buf (ReadData bytes) in
  rc = 0%Z ∧ frag_ok buf' ∧ fold_left log_step bytes (buf, []) = (buf', lines).
Proof.
  intros Hf [Hne Hlen]. pose proof Hf as [Hn Hl]. unfold read_from_child.
  destruct (existsb is_newline bytes) eqn:Ee.
  - apply existsb_newline in Ee. pose proof (take_lines_log (length (buf ++ bytes)) (buf ++ bytes)) as Ht.
    destruct (take_lines _ _) as [ls rest]. destruct Ht as [H1 H2]; [lia|rewrite length_app; lia|rewrite elem_of_app; tauto|].
    split_and!; [done|done|]. by rewrite log_continue.
  - assert (newline ∉ bytes) as Hnb by (intros ?%existsb_newline; congruence).
    rewrite log_fragment by (done || rewrite length_app; lia).
    replace (length bytes =? LINE_MAX - length buf - 2)%nat with (length (buf ++ bytes) =? LINE_MAX - 2)%nat
      by (apply eq_iff_eq_true; rewrite !Nat.eqb_eq, length_app; lia).
    destruct (length (buf ++ bytes) =? LINE_MAX - 2)%nat eqn:Ef.
    + split_and!; [done|apply frag_nil|by rewrite <-app_assoc].
    + apply Nat.eqb_neq in Ef. rewrite length_app in Ef.
      split_and!; [done|split; [rewrite elem_of_app; tauto|rewrite length_app; lia]|done].
Qed.

(** ** Facts: the loop *)
Section loop.
Context `{StdinCb C}.
Implicit Types (c : child (C := C)).

(** The bytes a run of the loop reads, and that every read fits the buffer. *)
Definition bytes_of (rv : revents read_result) : cstr :=
  match rv with Ready (ReadData bytes) => bytes | _ => [] end.

Fixpoint loop_data (events : list (revents read_result * revents send_result)) c : cstr :=
  match events with
  | [] => []
  | (rin, rout) :: events' =>
      match ch_in c, ch_out c with
      | None, None => []
      | None, Some _ => loop_data events' (poll_out rout (poll_in rin c))
      | Some _, _ => bytes_of rin ++ loop_data events' (poll_out rout (poll_in rin c))
      end
  end.

Fixpoint reads_fit (events : list (revents read_result * revents send_result)) c : Prop :=
  match events with
  | [] => True
  | (rin, rout) :: events' =>
      (∀ buf, ch_in c = Some buf → bytes_of rin = [] ∧ (∀ b, rin ≠ Ready (ReadData b))
                                    ∨ read_ok buf (bytes_of rin)) ∧
      reads_fit events' (poll_out rout (poll_in rin c))
  end.

(** The state of the input side after [data]: the lines of the reference and its
    fragment; when a read has seen the end or an error, the fragment has been
    logged as a line once. *)
Definition input_ok (data : cstr) c : Prop :=
  let '(frag, lines) := log_output data in
  frag_ok frag ∧
  match ch_in c with
  | Some buf => buf = frag ∧ ch_lines c = lines
  | None => ch_ilen c = frag ∧
            (ch_lines c = lines ∨ ch_lines c = lines ++ match frag with [] => [] | _ => [frag ++ [newline]] end)
  end.

Lemma poll_out_input rout c :
  ch_in (poll_out rout c) = ch_in c ∧ ch_ilen (poll_out rout c) = ch_ilen c ∧
  ch_lines (poll_out rout c) = ch_lines c.
Proof.
  unfold poll_out. destruct (ch_out c) as [[buf ctx]|]; [|done]. destruct rout as [|r|]; [done| |done].
  by destruct (write_to_child _ _ _ _) as [[[? ?] ?] ?].
Qed.

Lemma input_ok_out data rout c : input_ok data c → input_ok data (poll_out rout c).
Proof. unfold input_ok. destruct (poll_out_input rout c) as (-> & -> & ->). done. Qed.

Lemma log_output_app data bytes :
  log_output (data ++ bytes) =
    ((fold_left log_step bytes ((log_output data).1, [])).1,
     (log_output data).2 ++ (fold_left log_step bytes ((log_output data).1, [])).2).
Proof.
  unfold log_output at 1. rewrite fold_left_app. fold (log_output data).
  destruct (log_output data) as [frag lines]. apply log_steps_lines.
Qed.

Lemma poll_in_ok data rin c :
  input_ok data c → ch_in c ≠ None →
  (∀ buf, ch_in c = Some buf → bytes_of rin = [] ∧ (∀ b, rin ≠ Ready (ReadData b)) ∨ read_ok buf (bytes_of rin)) →
  input_ok (data ++ bytes_of rin) (poll_in rin c).
Proof.
  unfold input_ok at 1, poll_in. intros Hi Hne Hr. destruct (ch_in c) as [buf|] eqn:Ein; [|done].
  specialize (Hr buf eq_refl). destruct (log_output data) as [frag lines] eqn:El.
  destruct Hi as [Hf [-> Hl]].
  assert (∀ c', ch_in c' = None → ch_ilen c' = frag →
    (ch_lines c' = lines ∨ ch_lines c' = lines ++ match frag with [] => [] | _ => [frag ++ [newline]] end) →
    input_ok data c') as Hclose by (intros c' H1 H2 H3; unfold input_ok; rewrite El, H1; done).
  assert (∀ c', ch_in c' = Some frag → ch_lines c' = lines → input_ok data c') as Hstay
    by (intros c' H1 H2; unfold input_ok; rewrite El, H1; done).
  destruct rin as [|r|]; cbn [bytes_of].
  - rewrite app_nil_r. by apply Hstay.
  - destruct r as [bytes| | |]; cbn [bytes_of] in *.
    + destruct Hr as [[_ Hno]|Hr]; [by destruct (Hno bytes)|].
      pose proof (read_data_log frag bytes Hf Hr) as Hd.
      destruct (read_from_child LINE_MAX frag (ReadData bytes)) as [[buf' ls] rc].
      destruct Hd as (-> & Hf' & Hd). unfold input_ok. rewrite log_output_app, El. cbn [fst snd].
      rewrite Hd. cbn. rewrite Hl. done.
    + rewrite app_nil_r. cbn. apply Hclose; [done|done|right]. cbn. by rewrite Hl.
    + rewrite app_nil_r. cbn. apply Hstay; [done|]. cbn. by rewrite Hl, app_nil_r.
    + rewrite app_nil_r. cbn. apply Hclose; [done|done|right]. cbn. by rewrite Hl.
  - rewrite app_nil_r. apply Hclose; [done|done|by left].
Qed.

Lemma poll_in_closed rin c : ch_in c = None → poll_in rin c = c.
Proof. unfold poll_in. by intros ->. Qed.

Lemma poll_loop_input events data c :
  input_ok data c → reads_fit events c → input_ok (data ++ loop_data events c) (poll_loop events c).
Proof.
  revert data c. induction events as [|[rin rout] events IH]; intros data c Hi Hfit; cbn [poll_loop loop_data].
  { by rewrite app_nil_r. }
  destruct Hfit as [Hr Hfit]. destruct (ch_in c) as [buf|] eqn:Ein.
  - rewrite app_assoc. apply IH; [|done]. apply input_ok_out, poll_in_ok; [done|congruence|].
    intros buf' Hb. apply Hr. congruence.
  - destruct (ch_out c) eqn:Eout; [|by rewrite app_nil_r].
    rewrite poll_in_closed in * by done. apply IH; [|done]. by apply input_ok_out.
Qed.

(** The state of the output side: what was sent, the buffer and the context make
    up the text. *)
Definition output_ok (text : cstr) c : Prop :=
  match ch_out c with
  | Some (buf, ctx) => ch_sent c ++ buf ++ to_feed ctx = text
  | None => ∃ rest, ch_sent c ++ rest = text
  end.

Lemma poll_in_output rin c : ch_out (poll_in rin c) = ch_out c ∧ ch_sent (poll_in rin c) = ch_sent c.
Proof.
  unfold poll_in. destruct (ch_in c) as [buf|]; [|done]. destruct rin as [|r|]; [done| |done].
  by destruct (read_from_child _ _ _) as [[? ?] ?].
Qed.

Lemma poll_out_ok text rout c : output_ok text c → output_ok text (poll_out rout c).
Proof.
  unfold output_ok at 1, poll_out. destruct (ch_out c) as [[buf ctx]|] eqn:Eo.
  2: { intros Ht. unfold output_ok. by rewrite Eo. }
  intros Ht. destruct rout as [|r|].
  - unfold output_ok. by rewrite Eo.
  - unfold write_to_child.
    assert (∃ buf1 ctx1, (match buf with [] => out_cb ctx PIPE_BUF | _ => (buf, ctx) end) = (buf1, ctx1) ∧
      buf1 ++ to_feed ctx1 = buf ++ to_feed ctx) as (buf1 & ctx1 & -> & Hb).
    { destruct buf; [|by eexists _, _]. pose proof (out_cb_next ctx PIPE_BUF) as Hn.
      destruct (out_cb ctx PIPE_BUF) as [b1 c1]. by exists b1, c1. }
    rewrite <-Hb in Ht. destruct buf1 as [|x buf1]; [unfold output_ok; cbn; rewrite app_nil_r; eauto|].
    destruct r as [n| |]; unfold output_ok; cbn [ch_out ch_sent Z.eqb].
    + rewrite <-Ht. rewrite <-app_assoc, (app_assoc (take n _)), take_drop. done.
    + by rewrite app_nil_r.
    + rewrite app_nil_r. eauto.
  - unfold output_ok. cbn. eauto.
Qed.

Lemma poll_loop_output events text c : output_ok text c → output_ok text (poll_loop events c).
Proof.
  revert c. induction events as [|[rin rout] events IH]; intros c Hc; cbn [poll_loop]; [done|].
  assert (output_ok text (poll_out rout (poll_in rin c))) as Hs.
  { apply poll_out_ok. unfold output_ok in *. destruct (poll_in_output rin c) as [-> ->]. done. }
  destruct (ch_in c); [by apply IH|]. destruct (ch_out c); [by apply IH|done].
Qed.

(** Progress: every send that takes something shortens what is left. *)
Definition unsent c : cstr :=
  match ch_out c with Some (buf, ctx) => buf ++ to_feed ctx | None => [] end.

Definition sends (rv : revents send_result) : Prop := ∃ n, rv = Ready (Sent (S n)).

Lemma poll_out_sends rout c :
  sends rout → ch_out c ≠ None →
  let c' := poll_out rout c in
  ch_sent c' ++ unsent c' = ch_sent c ++ unsent c ∧
  (ch_out c' = None ∨ length (unsent c') < length (unsent c)).
Proof.
  intros [n ->] Hne. unfold unsent at 2 4, poll_out. destruct (ch_out c) as [[buf ctx]|]; [|done].
  unfold write_to_child.
  assert (∃ buf1 ctx1, (match buf with [] => out_cb ctx PIPE_BUF | _ => (buf, ctx) end) = (buf1, ctx1) ∧
    buf1 ++ to_feed ctx1 = buf ++ to_feed ctx ∧ (buf1 = [] → buf ++ to_feed ctx = [])) as (buf1 & ctx1 & -> & Hb & Hz).
  { destruct buf; [|by eexists _, _]. pose proof (out_cb_next ctx PIPE_BUF) as Hn.
    pose proof (out_cb_stops ctx PIPE_BUF ltac:(unfold PIPE_BUF; lia)) as Hs.
    destruct (out_cb ctx PIPE_BUF) as [b1 c1]. by exists b1, c1. }
  destruct buf1 as [|x buf1].
  - split; [|by left]. unfold unsent. cbn. rewrite (Hz eq_refl), !app_nil_r. done.
  - unfold unsent. cbn [ch_out ch_sent Z.eqb]. rewrite <-Hb. split; [|right].
    + rewrite <-app_assoc, (app_assoc (take _ _)), take_drop. done.
    + rewrite !length_app. rewrite length_drop. cbn [length]. lia.
Qed.

Lemma poll_in_unsent rin c : unsent (poll_in rin c) = unsent c.
Proof. unfold unsent. by destruct (poll_in_output rin c) as [-> _]. Qed.

Lemma poll_closed events c : ch_out c = None → ch_sent (poll_loop events c) = ch_sent c.
Proof.
  revert c. induction events as [|[rin rout] events IH]; intros c Hc; cbn [poll_loop]; [done|].
  rewrite Hc. assert (ch_out (poll_out rout (poll_in rin c)) = None ∧
    ch_sent (poll_out rout (poll_in rin c)) = ch_sent c) as [H1 H2].
  { destruct (poll_in_output rin c) as [E1 E2]. unfold poll_out. rewrite E1, Hc, E2. by rewrite E1. }
  destruct (ch_in c); [|done]. by rewrite IH.
Qed.

Lemma poll_loop_live events c :
  Forall (λ ev, sends ev.2) events → length (unsent c) < length events →
  ch_sent (poll_loop events c) = ch_sent c ++ unsent c.
Proof.
  revert c. induction events as [|[rin rout] events IH]; intros c Hs Hlen; cbn [poll_loop length] in *; [lia|].
  apply Forall_cons in Hs as [Hrout Hs]. cbn [snd] in Hrout.
  destruct (decide (ch_out c = None)) as [Hc|Hc].
  { pose proof (poll_closed ((rin, rout) :: events) c Hc) as E. cbn [poll_loop] in E. rewrite E.
    unfold unsent. by rewrite Hc, app_nil_r. }
  destruct (poll_in_output rin c) as [E1 E2].
  destruct (poll_out_sends rout (poll_in rin c) Hrout) as [H1 H2]; [by rewrite E1|].
  rewrite E2, poll_in_unsent in *.
  assert (ch_sent (poll_loop events (poll_out rout (poll_in rin c))) = ch_sent c ++ unsent c) as Hgoal.
  { rewrite <-H1. destruct H2 as [H2|H2].
    - rewrite poll_closed by done. unfold unsent. by rewrite H2, app_nil_r.
    - apply IH; [done|lia]. }
  destruct (ch_in c); [done|]. by destruct (ch_out c).
Qed.
End loop.

(** ** Properties *)

(** C40. The input of a child. Whatever poll and send report, the child gets a
    prefix of the text that the callback produces, in order; and when the pipe
    takes at least one byte each time, for as many rounds as there are bytes, it
    gets all of it. *)
Theorem child_stdin_delivered {C} {Hcb : StdinCb C} (ctx : C) :
  (∀ events, ∃ rest, (run_parent (Some ctx) events).2 ++ rest = to_feed ctx) ∧
  (∀ events, Forall (λ ev, sends ev.2) events → length (to_feed ctx) < length events →
             (run_parent (Some ctx) events).2 = to_feed ctx).
Proof.
  split.
  - intros events. unfold run_parent. cbn [snd].
    pose proof (poll_loop_output events (to_feed ctx) (start_child (Some ctx)) eq_refl) as Ho.
    unfold output_ok in Ho. destruct (ch_out _) as [[buf ctx']|]; eauto.
  - intros events Hs Hlen. unfold run_parent. cbn [snd].
    by rewrite (poll_loop_live events (start_child (Some ctx)) Hs Hlen).
Qed.

(** The output of a child. However the reads cut it into pieces, the lines that
    are logged are those of the byte by byte reference (lines longer than the
    buffer are cut after 2046 bytes), and the buffer is never exceeded; an
    unterminated rest is logged after them. *)
Theorem child_output_lines {C} {Hcb : StdinCb C} (stdin : option C) events :
  reads_fit events (start_child stdin) →
  let '(frag, lines) := log_output (loop_data events (start_child stdin)) in
  length frag < LINE_MAX - 2 ∧
  (frag = [] → (run_parent stdin events).1 = lines) ∧
  (frag ≠ [] → ∃ copies, (1 <= copies <= 2) ∧
     (run_parent stdin events).1 = lines ++ replicate copies (frag ++ [newline])).
Proof.
  intros Hfit. assert (input_ok [] (start_child stdin)) as Hi by (split; [apply frag_nil|done]).
  pose proof (poll_loop_input events [] _ Hi Hfit) as Ho. cbn [app] in Ho. unfold input_ok in Ho.
  destruct (log_output _) as [frag lines]. destruct Ho as [[_ Hf] Ho]. unfold run_parent, rest_lines. cbn [fst].
  split; [done|]. destruct (ch_in _) as [buf|].
  - destruct Ho as [-> ->]. split; [intros ->; apply app_nil_r|]. intros Hne. exists 1. split; [lia|].
    by destruct frag.
  - destruct Ho as [-> Ho]. split.
    + intros ->. destruct Ho as [->| ->]; by rewrite !app_nil_r.
    + intros Hne. destruct frag as [|x frag]; [done|]. destruct Ho as [->| ->].
      * exists 1. split; [lia|done].
      * exists 2. split; [lia|]. by rewrite <-app_assoc.
Qed.

(** An unterminated last line of a child is logged twice: once when the end of
    the output is read, and again after the loop, because the buffer is not
    emptied in between. *)
Theorem child_last_line_twice {C} {Hcb : StdinCb C} (line : cstr) :
  line ≠ [] → newline ∉ line → length line < LINE_MAX - 2 →
  (run_parent None [(Ready (ReadData line), Quiet); (Ready ReadEof, Quiet)]).1
  = [line ++ [newline]; line ++ [newline]].
Proof.
  intros Hne Hn Hlen. unfold run_parent. cbn [poll_loop poll_in poll_out start_child ch_in ch_out fmap option_fmap option_map].
  assert (read_from_child LINE_MAX [] (ReadData line) = (line, [], 0%Z)) as E1.
  { unfold read_from_child. destruct (existsb is_newline line) eqn:Ee; [by apply existsb_newline in Ee|].
    cbn [app length]. by rewrite (proj2 (Nat.eqb_neq _ _)) by lia. }
  rewrite E1. cbn. by destruct line.
Qed.

(** ** Examples *)

(** A callback that copies a text. *)
Definition text_cb (s : cstr) (limit : nat) : cstr * cstr := (take limit s, drop limit s).

#[export] Instance text_stdin : StdinCb cstr.
Proof.
  refine {| out_cb := text_cb; to_feed := id |}.
  - intros s limit. apply take_drop.
  - intros s limit. cbn. rewrite length_take. lia.
  - intros s limit Hl. cbn. destruct s; [done|]. by destruct limit; [lia|].
Defined.

Lemma child_stdin_delivered_witness :
  (run_parent (Some (str "ab")) [(Quiet, Ready (Sent 1)); (Quiet, Ready (Sent 5)); (Quiet, Ready (Sent 1))]).2
  = str "ab".
Proof.
  refine (proj2 (child_stdin_delivered (C := cstr) (str "ab")) _ _ _).
  - repeat constructor; eexists; reflexivity.
  - cbn. lia.
Defined.

Definition ex_reads : list (revents read_result * revents send_result) :=
  [(Ready (ReadData (str "a")), Quiet); (Ready (ReadData ("b"%char :: newline :: str "c")), Quiet);
   (Ready (ReadData [newline]), Quiet)].

Lemma child_output_lines_witness :
  (run_parent (C := cstr) None ex_reads).1 = [str "ab" ++ [newline]; str "c" ++ [newline]].
Proof.
  assert (reads_fit ex_reads (start_child (C := cstr) None)) as Hfit.
  { repeat (split; [intros buf Hb; right; injection Hb as <-; split; [discriminate|vm_compute; lia]|]). exact I. }
  pose proof (child_output_lines (C := cstr) None ex_reads Hfit) as H.
  assert (log_output (loop_data ex_reads (start_child (C := cstr) None))
          = ([], [str "ab" ++ [newline]; str "c" ++ [newline]])) as E by (vm_compute; reflexivity).
  rewrite E in H. apply H. reflexivity.
Defined.

Lemma child_last_line_twice_witness :
  (run_parent (C := cstr) None [(Ready (ReadData (str "done")), Quiet); (Ready ReadEof, Quiet)]).1
  = [str "done" ++ [newline]; str "done" ++ [newline]].
Proof.
  apply (child_last_line_twice (C := cstr) (str "done")).
  - discriminate.
  - apply (bool_decide_unpack _). vm_compute. exact I.
  - vm_compute. lia.
Defined.
