(* ===== verification/Hook.v ===== *)
(** * Transaction hooks

    lib/libalpm/hook.c: hook files, their triggers, which hooks a transaction
    triggers, and running them. Files come from the tree of [FileOps]; running a
    command is a function of its arguments and its standard input that returns
    the result of _alpm_run_chroot. [None] is undefined behaviour: an option
    without value, such as a line Operation, makes the parser compare a NULL
    pointer. *)
From S2P Require Import Prelude CString AlpmList Util Package PkgHash Handle Deps FileList Db FileOps.
From S2P Require Import LocalDb LocalDir Ini ChildIO.
Local Open Scope Z_scope.

(** ** Data *)
Definition ALPM_HOOK_OP_INSTALL := Z.shiftl 1 0.
Definition ALPM_HOOK_OP_UPGRADE := Z.shiftl 1 1.
Definition ALPM_HOOK_OP_REMOVE := Z.shiftl 1 2.

(** 0 when it is not set *)
Definition ALPM_HOOK_TYPE_PACKAGE : Z := 1.
Definition ALPM_HOOK_TYPE_PATH : Z := 2.
Definition ALPM_HOOK_PRE_TRANSACTION : Z := 1.
Definition ALPM_HOOK_POST_TRANSACTION : Z := 2.

(** The targets and dependencies may hold NULL. *)
Record alpm_trigger_t := mk_trigger { tr_op : Z; tr_type : Z; tr_targets : list (option cstr) }.

Record alpm_hook_t := mk_hook {
  hook_name : cstr;
  hook_desc : option cstr;
  hook_triggers : list alpm_trigger_t;
  hook_depends : list (option cstr);
  hook_cmd : option (list cstr);
  hook_matches : list cstr;
  hook_when : Z;
  hook_abort_on_fail : bool;
  hook_needs_targets : bool
}.

Definition new_hook : alpm_hook_t := mk_hook [] None [] [] None [] 0 false false.

Definition with_triggers (l : list alpm_trigger_t) (h : alpm_hook_t) : alpm_hook_t :=
  mk_hook (hook_name h) (hook_desc h) l (hook_depends h) (hook_cmd h) (hook_matches h) (hook_when h)
    (hook_abort_on_fail h) (hook_needs_targets h).
Definition with_matches (l : list cstr) (h : alpm_hook_t) : alpm_hook_t :=
  mk_hook (hook_name h) (hook_desc h) (hook_triggers h) (hook_depends h) (hook_cmd h) l (hook_when h)
    (hook_abort_on_fail h) (hook_needs_targets h).
Definition with_name (n : cstr) (h : alpm_hook_t) : alpm_hook_t :=
  mk_hook n (hook_desc h) (hook_triggers h) (hook_depends h) (hook_cmd h) (hook_matches h)
    (hook_when h) (hook_abort_on_fail h) (hook_needs_targets h).

(** ** Validation *)
Definition alpm_trigger_validate (t : alpm_trigger_t) : Z :=
  if bool_decide (tr_targets t = []) || (tr_type t =? 0) || (tr_op t =? 0) then -1 else 0.

Definition alpm_hook_validate (hook : alpm_hook_t) : Z :=
  match hook_triggers hook with
  | [] => 0
  | triggers =>
      if existsb (λ t, negb (alpm_trigger_validate t =? 0)) triggers
         || negb (is_some (hook_cmd hook)) || (hook_when hook =? 0)
      then -1 else 0
  end.

(** ** Parsing *)

(** An update of the last trigger; [None]: there is none. *)
Definition upd_last (f : alpm_trigger_t → alpm_trigger_t) (hook : alpm_hook_t)
    : option (alpm_hook_t * Z) :=
  match last (hook_triggers hook) with
  | None => None
  | Some t => Some (with_triggers (removelast (hook_triggers hook) ++ [f t]) hook, 0)
  end.

Definition parse_trigger (hook : alpm_hook_t) (key : cstr) (value : option cstr)
    : option (alpm_hook_t * Z) :=
  let error := Some (hook, 1) in
  if streq key (str "Operation") then
    value ← value;
    let op o := upd_last (λ t, mk_trigger (Z.lor (tr_op t) o) (tr_type t) (tr_targets t)) hook in
    if streq value (str "Install") then op ALPM_HOOK_OP_INSTALL
    else if streq value (str "Upgrade") then op ALPM_HOOK_OP_UPGRADE
    else if streq value (str "Remove") then op ALPM_HOOK_OP_REMOVE
    else error
  else if streq key (str "Type") then
    value ← value;
    let type ty := upd_last (λ t, mk_trigger (tr_op t) ty (tr_targets t)) hook in
    if streq value (str "Package") then type ALPM_HOOK_TYPE_PACKAGE
    else if streq value (str "Path") then type ALPM_HOOK_TYPE_PATH
    else error
  else if streq key (str "Target") then
    upd_last (λ t, mk_trigger (tr_op t) (tr_type t) (tr_targets t ++ [value])) hook
  else error.

Definition parse_action (h : alpm_hook_t) (key : cstr) (value : option cstr)
    : option (alpm_hook_t * Z) :=
  let error := Some (h, 1) in
  if streq key (str "When") then
    value ← value;
    let when w := Some (mk_hook (hook_name h) (hook_desc h) (hook_triggers h) (hook_depends h)
                          (hook_cmd h) (hook_matches h) w (hook_abort_on_fail h)
                          (hook_needs_targets h), 0) in
    if streq value (str "PreTransaction") then when ALPM_HOOK_PRE_TRANSACTION
    else if streq value (str "PostTransaction") then when ALPM_HOOK_POST_TRANSACTION
    else error
  else if streq key (str "Description") then
    Some (mk_hook (hook_name h) value (hook_triggers h) (hook_depends h) (hook_cmd h)
            (hook_matches h) (hook_when h) (hook_abort_on_fail h) (hook_needs_targets h), 0)
  else if streq key (str "Depends") then
    Some (mk_hook (hook_name h) (hook_desc h) (hook_triggers h) (hook_depends h ++ [value])
            (hook_cmd h) (hook_matches h) (hook_when h) (hook_abort_on_fail h)
            (hook_needs_targets h), 0)
  else if streq key (str "AbortOnFail") then
    Some (mk_hook (hook_name h) (hook_desc h) (hook_triggers h) (hook_depends h) (hook_cmd h)
            (hook_matches h) (hook_when h) true (hook_needs_targets h), 0)
  else if streq key (str "NeedsTargets") then
    Some (mk_hook (hook_name h) (hook_desc h) (hook_triggers h) (hook_depends h) (hook_cmd h)
            (hook_matches h) (hook_when h) (hook_abort_on_fail h) true, 0)
  else if streq key (str "Exec") then
    let cmd := wordsplit value in
    Some (mk_hook (hook_name h) (hook_desc h) (hook_triggers h) (hook_depends h) cmd
            (hook_matches h) (hook_when h) (hook_abort_on_fail h) (hook_needs_targets h),
          if is_some cmd then 0 else 1)
  else error.

Definition alpm_hook_parse_cb (hook : alpm_hook_t) (_ : Z) (section key value : option cstr)
    : option (alpm_hook_t * Z) :=
  match section, key with
  | None, _ => Some (hook, 1)
  | Some section, None =>
      if streq section (str "Trigger")
      then Some (with_triggers (hook_triggers hook ++ [mk_trigger 0 0 []]) hook, 0)
      else if streq section (str "Action") then Some (hook, 0)
      else Some (hook, 1)
  | Some section, Some key =>
      if streq section (str "Trigger") then parse_trigger hook key value
      else if streq section (str "Action") then parse_action hook key value
      else Some (hook, 0)
  end.

(** ** Triggers *)
Section triggers.
Context (fnmatch : cstr → cstr → bool).

(** _alpm_fnmatch_patterns on targets that may be NULL. *)
Fixpoint scan_targets (rev_targets : list (option cstr)) (s : cstr) : option Z :=
  match rev_targets with
  | [] => Some (-1)
  | None :: _ => None
  | Some pattern :: rest =>
      let r := fnmatch_scan fnmatch [pattern] s in
      if r =? -1 then scan_targets rest s else Some r
  end.

Definition matches_targets (t : alpm_trigger_t) (s : cstr) : option bool :=
  r ← scan_targets (reverse (tr_targets t)) s; Some (r =? 0).

(** The strings of a list that match. *)
Fixpoint filter_targets (t : alpm_trigger_t) (l : list cstr) : option (list cstr) :=
  match l with
  | [] => Some []
  | s :: l' =>
      m ← matches_targets t s;
      l' ← filter_targets t l';
      Some (if m : bool then s :: l' else l')
  end.

Definition path_names (p : alpm_pkg_t) : list cstr := map file_name (pkg_files p).

(** The files the transaction installs, without those that match NoExtract, and
    those it removes with old versions and removed packages. *)
Definition installed_files (h : alpm_handle_t) : list cstr :=
  List.filter (λ f, negb (alpm_fnmatch_patterns fnmatch (h_noextract h) f =? 0))
    (flat_map path_names (trans_add h)).

Definition removed_files (h : alpm_handle_t) : list cstr :=
  flat_map (λ spkg, match pkg_oldpkg spkg with Some p => path_names p | None => [] end) (trans_add h)
  ++ flat_map path_names (trans_remove h).

(** The walk over the sorted lists: what is left of both, and the paths in
    both. *)
Fixpoint split_upgrades (fuel : nat) (install remove : list cstr)
    : list cstr * list cstr * list cstr :=
  match fuel with
  | O => (install, [], remove)
  | S fuel' =>
      match install, remove with
      | [], _ | _, [] => (install, [], remove)
      | i :: install', j :: remove' =>
          if 0 <? strcmp i j then
            let '(a, u, r) := split_upgrades fuel' install remove' in (a, u, j :: r)
          else if strcmp i j =? 0 then
            let '(a, u, r) := split_upgrades fuel' (drop_while (streq i) install)
                                (drop_while (streq i) remove) in (a, i :: u, r)
          else let '(a, u, r) := split_upgrades fuel' install' remove in (i :: a, u, r)
      end
  end.

Definition selected (op flag : Z) (l : list cstr) : list cstr := if has_flag op flag then l else [].

Definition alpm_hook_trigger_match_file (h : alpm_handle_t) (hook : alpm_hook_t) (t : alpm_trigger_t)
    : option (alpm_hook_t * bool) :=
  install ← filter_targets t (installed_files h);
  remove ← filter_targets t (removed_files h);
  let install := alpm_list_msort strcmp install (length install) in
  let remove := alpm_list_msort strcmp remove (length remove) in
  let '(install, upgrade, remove) :=
    split_upgrades (length install + length remove) install remove in
  let found := selected (tr_op t) ALPM_HOOK_OP_INSTALL install
               ++ selected (tr_op t) ALPM_HOOK_OP_UPGRADE upgrade
               ++ selected (tr_op t) ALPM_HOOK_OP_REMOVE remove in
  Some (if hook_needs_targets hook then with_matches (hook_matches hook ++ found) hook else hook,
        negb (bool_decide (found = []))).

(** The loop over trans->add: the names installed and upgraded, or [inr tt] for
    the early return without NeedsTargets. *)
Fixpoint match_add (needs_targets : bool) (t : alpm_trigger_t) (add : list alpm_pkg_t)
    (install upgrade : list cstr) : option (list cstr * list cstr + unit) :=
  match add with
  | [] => Some (inl (install, upgrade))
  | pkg :: add' =>
      m ← matches_targets t (pkg_name pkg);
      if m : bool then
        if is_some (pkg_oldpkg pkg) then
          if has_flag (tr_op t) ALPM_HOOK_OP_UPGRADE then
            if needs_targets then match_add needs_targets t add' install (upgrade ++ [pkg_name pkg])
            else Some (inr ())
          else match_add needs_targets t add' install upgrade
        else
          if has_flag (tr_op t) ALPM_HOOK_OP_INSTALL then
            if needs_targets then match_add needs_targets t add' (install ++ [pkg_name pkg]) upgrade
            else Some (inr ())
          else match_add needs_targets t add' install upgrade
      else match_add needs_targets t add' install upgrade
  end.

(** The loop over trans->remove. *)
Fixpoint match_remove (needs_targets : bool) (t : alpm_trigger_t) (add l : list alpm_pkg_t)
    (remove : list cstr) : option (list cstr + unit) :=
  match l with
  | [] => Some (inl remove)
  | pkg :: l' =>
      m ← matches_targets t (pkg_name pkg);
      if m && negb (is_some (alpm_list_find alpm_pkg_cmp add pkg)) then
        if needs_targets then match_remove needs_targets t add l' (remove ++ [pkg_name pkg])
        else Some (inr ())
      else match_remove needs_targets t add l' remove
  end.

Definition alpm_hook_trigger_match_pkg (h : alpm_handle_t) (hook : alpm_hook_t) (t : alpm_trigger_t)
    : option (alpm_hook_t * bool) :=
  added ← (if has_flag (tr_op t) ALPM_HOOK_OP_INSTALL || has_flag (tr_op t) ALPM_HOOK_OP_UPGRADE
           then match_add (hook_needs_targets hook) t (trans_add h) [] []
           else Some (inl ([], [])));
  match added with
  | inr _ => Some (hook, true)
  | inl (install, upgrade) =>
      removed ← (if has_flag (tr_op t) ALPM_HOOK_OP_REMOVE
                 then match_remove (hook_needs_targets hook) t (trans_add h) (trans_remove h) []
                 else Some (inl []));
      match removed with
      | inr _ => Some (hook, true)
      | inl remove =>
          Some (with_matches (((hook_matches hook ++ install) ++ upgrade) ++ remove) hook,
                negb (bool_decide (install = [])) || negb (bool_decide (upgrade = []))
                || negb (bool_decide (remove = [])))
      end
  end.

Definition alpm_hook_trigger_match (h : alpm_handle_t) (hook : alpm_hook_t) (t : alpm_trigger_t)
    : option (alpm_hook_t * bool) :=
  if tr_type t =? ALPM_HOOK_TYPE_PACKAGE then alpm_hook_trigger_match_pkg h hook t
  else alpm_hook_trigger_match_file h hook t.

Fixpoint triggered_loop (h : alpm_handle_t) (triggers : list alpm_trigger_t) (hook : alpm_hook_t)
    (ret : bool) : option (alpm_hook_t * bool) :=
  match triggers with
  | [] => Some (hook, ret)
  | t :: triggers' =>
      '(hook, m) ← alpm_hook_trigger_match h hook t;
      if m : bool then
        if negb (hook_needs_targets hook) then Some (hook, true)
        else triggered_loop h triggers' hook true
      else triggered_loop h triggers' hook ret
  end.

Definition alpm_hook_triggered (h : alpm_handle_t) (hook : alpm_hook_t)
    : option (alpm_hook_t * bool) :=
  triggered_loop h (hook_triggers hook) hook false.
End triggers.

(** ** Names *)
Definition ALPM_HOOK_SUFFIX : cstr := str ".hook".

(** The lengths are of type size_t. *)
Definition alpm_hook_cmp (h1 h2 : alpm_hook_t) : Z :=
  let len h := (Z.of_nat (length (hook_name h)) - Z.of_nat (length ALPM_HOOK_SUFFIX)) mod 2 ^ 64 in
  let l1 := len h1 in
  let l2 := len h2 in
  let ret := strncmp (hook_name h1) (hook_name h2) (Z.to_nat (if l1 <=? l2 then l1 else l2)) in
  if (ret =? 0) && negb (l1 =? l2) then if l1 <? l2 then -1 else 1 else ret.

Definition find_hook (haystack : list alpm_hook_t) (needle : cstr) : option alpm_hook_t :=
  find_first (λ h, streq (hook_name h) needle) haystack.

(** ** Standard input of a hook *)

(** The loop that copies whole lines; what does not fit is copied in part, and
    the list then starts in the middle of a line. *)
Fixpoint feed_targets (pos : list cstr) (remaining : nat) : cstr * list cstr :=
  match pos with
  | [] => ([], [])
  | s :: pos' =>
      if (length s + 1 <=? remaining)%nat then
        let '(buf, pos'') := feed_targets pos' (remaining - (length s + 1)) in
        (s ++ newline :: buf, pos'')
      else (take remaining s, drop remaining s :: pos')
  end.

Definition lines_of (l : list cstr) : cstr := flat_map (λ s, s ++ [newline]) l.

Fixpoint strlist_dedup (fuel : nat) (l : list cstr) : list cstr :=
  match fuel, l with
  | S fuel', s :: rest => s :: strlist_dedup fuel' (drop_while (streq s) rest)
  | _, _ => l
  end.

(** ** Reading the hook directories *)

(** What fails: fopen of a file; opendir, with an error other than ENOENT; readdir,
    after it has returned some names. *)
Record hook_files := mk_hook_files {
  hf_unreadable : cstr → bool;
  hf_opendir : cstr → bool;
  hf_readdir : cstr → option nat
}.

Section run.
Context (fnmatch : cstr → cstr → bool) (files : hook_files).

Definition is_hook_file (name : cstr) : bool :=
  (length ALPM_HOOK_SUFFIX <=? length name)%nat
  && streq (drop (length name - length ALPM_HOOK_SUFFIX) name) ALPM_HOOK_SUFFIX.

(** parse_ini and _alpm_hook_validate: the hook, or [inr tt]. *)
Definition parse_hook (path data : cstr) : option (alpm_hook_t + unit) :=
  '(hook, r) ← parse_ini alpm_hook_parse_cb (if hf_unreadable files path then None else Some data) new_hook;
  Some (if (r =? 0) && (alpm_hook_validate hook =? 0) then inl hook else inr ()).

(** One directory entry: the hooks so far, and ret. *)
Definition read_entry (fs : fsys) (dir name : cstr) (st : list alpm_hook_t * Z)
    : option (list alpm_hook_t * Z) :=
  let '(hooks, ret) := st in
  let path := dir ++ name in
  if (PATH_MAX - length dir <=? length name)%nat then Some (hooks, -1)
  else if negb (is_hook_file name) then Some st
  else if is_some (find_hook hooks name) then Some st
  else match fs !! path with
       | None => Some (hooks, -1)
       | Some NDir => Some st
       | Some (NFile data) =>
           parsed ← parse_hook path data;
           Some (match parsed with
                 | inl hook => (hooks ++ [with_name name hook], ret)
                 | inr _ => (hooks, -1)
                 end)
       end.

Fixpoint read_entries (fs : fsys) (dir : cstr) (names : list cstr) (st : list alpm_hook_t * Z)
    : option (list alpm_hook_t * Z) :=
  match names with
  | [] => Some st
  | name :: names' => st ← read_entry fs dir name st; read_entries fs dir names' st
  end.

Definition read_hookdir (fs : fsys) (dir : cstr) (st : list alpm_hook_t * Z)
    : option (list alpm_hook_t * Z) :=
  if (PATH_MAX <=? length dir)%nat then Some (st.1, -1)
  else if hf_opendir files dir then Some (st.1, -1)
  else match lstat fs dir with
       | None => Some st
       | Some (NFile _) => Some (st.1, -1)
       | Some NDir =>
           match readdir fs dir, hf_readdir files dir with
           | Some names, None => read_entries fs dir names st
           | Some names, Some n => '(hooks, _) ← read_entries fs dir (take n names) st; Some (hooks, -1)
           | None, _ => Some st
           end
       end.

Fixpoint read_hookdirs (fs : fsys) (dirs : list cstr) (st : list alpm_hook_t * Z)
    : option (list alpm_hook_t * Z) :=
  match dirs with
  | [] => Some st
  | dir :: dirs' => st ← read_hookdir fs dir st; read_hookdirs fs dirs' st
  end.

(** The hooks of this time that the transaction triggers. *)
Fixpoint triggered_hooks (h : alpm_handle_t) (when : Z) (hooks : list alpm_hook_t)
    : option (list alpm_hook_t) :=
  match hooks with
  | [] => Some []
  | hook :: hooks' =>
      if hook_when hook =? when then
        '(hook, t) ← alpm_hook_triggered fnmatch h hook;
        rest ← triggered_hooks h when hooks';
        Some (if t : bool then hook :: rest else rest)
      else triggered_hooks h when hooks'
  end.

(** ** Running hooks *)

(** _alpm_run_chroot: a command, its arguments and the standard input, in a world
    that it changes. *)
Context {W : Type} (run_chroot : W → option cstr → list cstr → option (list cstr) → W * Z).

Definition dep_satisfied (pkgs : list alpm_pkg_t) (dep : option cstr) : bool :=
  match dep with Some dep => is_some (alpm_find_satisfier pkgs dep) | None => false end.

(** What the hook gets on its standard input. *)
Definition hook_targets (hook : alpm_hook_t) : list cstr :=
  let matches := alpm_list_msort strcmp (hook_matches hook) (length (hook_matches hook)) in
  strlist_dedup (length matches) matches.

Definition alpm_hook_run_hook (h : alpm_handle_t) (hook : alpm_hook_t) (w : W) : option (W * Z) :=
  if negb (forallb (dep_satisfied (alpm_db_get_pkgcache (h_db_local h))) (hook_depends hook))
  then Some (w, -1)
  else
    cmd ← hook_cmd hook;
    Some (run_chroot w (head cmd) cmd
            (if hook_needs_targets hook then Some (hook_targets hook) else None)).

(** The loop over the triggered hooks. *)
Fixpoint run_hooks (h : alpm_handle_t) (when : Z) (hooks : list alpm_hook_t) (w : W) (ret : Z)
    : option (W * Z) :=
  match hooks with
  | [] => Some (w, ret)
  | hook :: hooks' =>
      '(w, r) ← alpm_hook_run_hook h hook w;
      let ret := if negb (r =? 0) && hook_abort_on_fail hook then -1 else ret in
      if negb (ret =? 0) && (when =? ALPM_HOOK_PRE_TRANSACTION) then Some (w, ret)
      else run_hooks h when hooks' w ret
  end.

Definition alpm_hook_run (fs : fsys) (h : alpm_handle_t) (when : Z) (w : W) : option (W * Z) :=
  '(hooks, ret) ← read_hookdirs fs (reverse (h_hookdirs h)) ([], 0);
  if negb (ret =? 0) && (when =? ALPM_HOOK_PRE_TRANSACTION) then Some (w, ret)
  else
    let hooks := alpm_list_msort alpm_hook_cmp hooks (length hooks) in
    triggered ← triggered_hooks h when hooks;
    run_hooks h when triggered w ret.
End run.

(** ** Facts: matching *)

(** The targets of a trigger without NULL. *)
Definition targets_ok (t : alpm_trigger_t) : Prop := Forall (λ p, is_Some p) (tr_targets t).

Section match_facts.
Context (fnmatch : cstr → cstr → bool).

Definition wants (t : alpm_trigger_t) (s : cstr) : bool :=
  alpm_fnmatch_patterns fnmatch (omap id (tr_targets t)) s =? 0.

Lemma fnmatch_scan_cons p l s :
  fnmatch_scan fnmatch (p :: l) s =
    if fnmatch_scan fnmatch [p] s =? -1 then fnmatch_scan fnmatch l s
    else fnmatch_scan fnmatch [p] s.
Proof.
  cbn [fnmatch_scan]. destruct (fnmatch _ _); [|done]. by destruct (Ascii.eqb (hd_chr p) "!"%char).
Qed.

Lemma scan_targets_spec l s :
  Forall (λ p, is_Some p) l → scan_targets fnmatch l s = Some (fnmatch_scan fnmatch (omap id l) s).
Proof.
  induction 1 as [|? l [p ->] Hl IH]; [done|]. cbn [scan_targets omap list_omap id].
  rewrite (fnmatch_scan_cons p (omap id l)). by destruct (_ =? -1).
Qed.

Lemma omap_reverse (l : list (option cstr)) : omap id (reverse l) = reverse (omap id l).
Proof.
  induction l as [|[x|] l IH]; [done|..]; rewrite reverse_cons, omap_app, IH;
    cbn [omap list_omap id]; [by rewrite reverse_cons|by rewrite app_nil_r].
Qed.

Lemma matches_targets_spec t s :
  targets_ok t → matches_targets fnmatch t s = Some (wants t s).
Proof.
  intros Ht. unfold matches_targets, wants, alpm_fnmatch_patterns.
  rewrite scan_targets_spec by by apply Forall_reverse. cbn. by rewrite omap_reverse.
Qed.

Lemma filter_targets_spec t l :
  targets_ok t → filter_targets fnmatch t l = Some (List.filter (wants t) l).
Proof.
  intros Ht. induction l as [|s l IH]; [done|]. cbn [filter_targets List.filter].
  rewrite matches_targets_spec by done. cbn. rewrite IH. cbn. by destruct (wants t s).
Qed.
End match_facts.

Lemma msort_sorted {A} (fn : A → A → Z) `{!CmpOrder fn} l :
  StronglySorted (cmp_le fn) (alpm_list_msort fn l (length l)).
Proof. by apply msort_rec_sorted. Qed.

(** The walk over two sorted lists. *)
Lemma sorted_head_lt i j (l : list cstr) :
  strcmp i j < 0 → StronglySorted (cmp_le strcmp) (j :: l) → i ∉ j :: l.
Proof.
  intros Hij [_ Hl]%StronglySorted_inv [->|Hi]%elem_of_cons; [rewrite strcmp_refl in Hij; lia|].
  rewrite Forall_forall in Hl. apply Hl in Hi. unfold cmp_le in Hi.
  rewrite strcmp_antisym in Hi. lia.
Qed.

Lemma sorted_drop_while i (l : list cstr) :
  StronglySorted (cmp_le strcmp) (i :: l) →
  StronglySorted (cmp_le strcmp) (drop_while (streq i) l) ∧
  ∀ f, f ∈ drop_while (streq i) l ↔ f ∈ l ∧ f ≠ i.
Proof.
  induction l as [|x l IH]; intros Hs; cbn [drop_while].
  { split; [constructor|]. intros f. set_solver. }
  apply StronglySorted_inv in Hs as [Hs Hi]. destruct (streq i x) eqn:E.
  - apply streq_true in E as <-. destruct (IH Hs) as [H1 H2]. split; [done|].
    intros f. rewrite H2, elem_of_cons. naive_solver.
  - split; [done|]. intros f. split; [|tauto]. intros Hf. split; [done|]. intros ->.
    apply Forall_cons in Hi as [Hix _]. unfold cmp_le in Hix. apply streq_false in E.
    apply (sorted_head_lt i x l); [|done..]. 
    assert (strcmp i x ≠ 0) by by rewrite strcmp_eq. lia.
Qed.

Record splits (install remove : list cstr) (res : list cstr * list cstr * list cstr) : Prop := {
  splits_install f : f ∈ res.1.1 ↔ f ∈ install ∧ f ∉ remove;
  splits_upgrade f : f ∈ res.1.2 ↔ f ∈ install ∧ f ∈ remove;
  splits_remove f : f ∈ res.2 ↔ f ∈ remove ∧ f ∉ install
}.

Lemma split_upgrades_spec fuel install remove :
  (length install + length remove <= fuel)%nat →
  StronglySorted (cmp_le strcmp) install → StronglySorted (cmp_le strcmp) remove →
  splits install remove (split_upgrades fuel install remove).
Proof.
  revert install remove. induction fuel as [|fuel IH]; intros install remove Hf Hi Hr.
  { destruct install, remove; cbn in Hf; [|lia..]. split; cbn; set_solver. }
  destruct install as [|i install]; [cbn; split; cbn; set_solver|].
  destruct remove as [|j remove]; [cbn; split; cbn; set_solver|].
  cbn [split_upgrades]. cbn [length] in Hf. destruct (0 <? strcmp i j) eqn:E.
  - destruct (IH (i :: install) remove) as [H1 H2 H3];
      [cbn [length]; lia|done|by apply StronglySorted_inv in Hr as [? _]|].
    assert (j ∉ i :: install) as Hj by (apply sorted_head_lt; [rewrite strcmp_antisym; lia|done]).
    destruct (split_upgrades _ _ _) as [[a u] r]. cbn in *.
    split; intros f; cbn; rewrite ?H1, ?H2, ?elem_of_cons, ?H3; set_solver.
  - destruct (strcmp i j =? 0) eqn:E0.
    + apply Z.eqb_eq, strcmp_eq in E0 as <-.
      destruct (sorted_drop_while i install Hi) as [Si Ei], (sorted_drop_while i remove Hr) as [Sr Er].
      cbn [drop_while]. rewrite streq_refl.
      destruct (IH (drop_while (streq i) install) (drop_while (streq i) remove)) as [H1 H2 H3]; [|done..|].
      { pose proof (length_take_drop_while (streq i) install).
        pose proof (length_take_drop_while (streq i) remove). lia. }
      destruct (split_upgrades _ _ _) as [[a u] r]. cbn in *.
      split; intros f; cbn; rewrite ?H1, ?elem_of_cons, ?H2, ?H3, ?Ei, ?Er; destruct (decide (f = i)); naive_solver.
    + destruct (IH install (j :: remove)) as [H1 H2 H3];
        [cbn [length]; lia|by apply StronglySorted_inv in Hi as [? _]|done|].
      assert (i ∉ j :: remove) as Hj by (apply sorted_head_lt; [lia|done]).
      destruct (split_upgrades _ _ _) as [[a u] r]. cbn in *.
      split; intros f; cbn; rewrite ?H2, ?H3, ?elem_of_cons, ?H1; set_solver.
Qed.

(** ** Facts: what a trigger fires on *)
Section fires.
Context (fnmatch : cstr → cstr → bool) (h : alpm_handle_t).
Implicit Types (t : alpm_trigger_t) (p : alpm_pkg_t) (hook : alpm_hook_t).

(** A path is installed, upgraded (installed and removed) or removed. *)
Definition file_change t (f : cstr) : Prop :=
  let I := f ∈ installed_files fnmatch h in
  let R := f ∈ removed_files h in
  has_flag (tr_op t) ALPM_HOOK_OP_INSTALL = true ∧ I ∧ ¬ R ∨
  has_flag (tr_op t) ALPM_HOOK_OP_UPGRADE = true ∧ I ∧ R ∨
  has_flag (tr_op t) ALPM_HOOK_OP_REMOVE = true ∧ R ∧ ¬ I.

(** A package is new, replaces an old version, or is removed and not replaced. *)
Definition add_counts_ t p : bool :=
  if is_some (pkg_oldpkg p) then has_flag (tr_op t) ALPM_HOOK_OP_UPGRADE
  else has_flag (tr_op t) ALPM_HOOK_OP_INSTALL.
Definition pkg_change t (n : cstr) : Prop :=
  (∃ p, p ∈ trans_add h ∧ pkg_name p = n ∧ add_counts_ t p = true) ∨
  (∃ p, p ∈ trans_remove h ∧ pkg_name p = n ∧ has_flag (tr_op t) ALPM_HOOK_OP_REMOVE = true ∧
        alpm_list_find alpm_pkg_cmp (trans_add h) p = None).

Definition fires t (n : cstr) : Prop :=
  wants fnmatch t n = true ∧
  if tr_type t =? ALPM_HOOK_TYPE_PACKAGE then pkg_change t n else file_change t n.

(** What a trigger adds to the matches of a hook, and whether it fires. *)
Definition match_ok hook (fired : cstr → Prop) (res : alpm_hook_t * bool) : Prop :=
  (res.2 = true ↔ ∃ n, fired n) ∧
  ∃ found, res.1 = with_matches (hook_matches hook ++ found) hook ∧
           if hook_needs_targets hook then ∀ n, n ∈ found ↔ fired n else found = [].

Lemma match_ok_ext hook (P Q : cstr → Prop) res :
  (∀ n, P n ↔ Q n) → match_ok hook P res → match_ok hook Q res.
Proof.
  intros H [H1 (found & H2 & H3)]. split; [by setoid_rewrite <-H|]. exists found. split; [done|].
  destruct (hook_needs_targets hook); [|done]. intros n. by rewrite H3.
Qed.

Lemma with_matches_nil hook : hook = with_matches (hook_matches hook ++ []) hook.
Proof. rewrite app_nil_r. by destruct hook. Qed.

Lemma not_nil_iff (l : list cstr) (P : cstr → Prop) :
  (∀ n, n ∈ l ↔ P n) → negb (bool_decide (l = [])) = true ↔ ∃ n, P n.
Proof.
  intros H. rewrite negb_true_iff, bool_decide_eq_false. destruct l as [|x l].
  - split; [done|]. intros [n Hn%H]. by apply not_elem_of_nil in Hn.
  - split; [|done]. intros _. exists x. apply H. left.
Qed.

Lemma selected_spec (op flag : Z) l (f : cstr) : f ∈ selected op flag l ↔ has_flag op flag = true ∧ f ∈ l.
Proof. unfold selected. destruct (has_flag op flag); set_solver. Qed.

Lemma trigger_match_file_spec hook t :
  targets_ok t → ∃ res, alpm_hook_trigger_match_file fnmatch h hook t = Some res ∧
  match_ok hook (λ f, wants fnmatch t f = true ∧ file_change t f) res.
Proof.
  intros Ht. unfold alpm_hook_trigger_match_file. rewrite !filter_targets_spec by done. cbn.
  set (I := List.filter _ _). set (R := List.filter _ (removed_files h)).
  assert (∀ f, f ∈ I ↔ f ∈ installed_files fnmatch h ∧ wants fnmatch t f = true) as HI
    by (intros; apply elem_of_bfilter).
  assert (∀ f, f ∈ R ↔ f ∈ removed_files h ∧ wants fnmatch t f = true) as HR
    by (intros; apply elem_of_bfilter).
  assert (∀ f l, f ∈ alpm_list_msort strcmp l (length l) ↔ f ∈ l) as Hp by (intros; by rewrite msort_perm).
  pose proof (split_upgrades_spec _ _ _ (le_n _) (msort_sorted strcmp I) (msort_sorted strcmp R))
    as [H1 H2 H3].
  destruct (split_upgrades _ _ _) as [[a u] r]. cbn in *. eexists. split; [done|].
  set (found := selected _ _ a ++ selected _ _ u ++ selected _ _ r).
  assert (∀ f, f ∈ found ↔ wants fnmatch t f = true ∧ file_change t f) as Hf.
  { intros f. unfold found, file_change. rewrite !elem_of_app, !selected_spec, H1, H2, H3, !Hp, HI, HR.
    tauto. }
  split; [by apply not_nil_iff|]. cbn. destruct (hook_needs_targets hook) eqn:E.
  - by exists found.
  - exists []. split; [apply with_matches_nil|done].
Qed.

(** The two loops over packages, which stop early without NeedsTargets. *)
Lemma match_add_spec t add install upgrade (needs : bool) :
  targets_ok t →
  match_add fnmatch needs t add install upgrade = Some (
    let counts p := wants fnmatch t (pkg_name p) && add_counts_ t p in
    if needs then
      inl (install ++ map pkg_name (List.filter (λ p, counts p && negb (is_some (pkg_oldpkg p))) add),
           upgrade ++ map pkg_name (List.filter (λ p, counts p && is_some (pkg_oldpkg p)) add))
    else if existsb counts add then inr () else inl (install, upgrade)).
Proof.
  intros Ht. revert install upgrade. induction add as [|p add IH]; intros install upgrade.
  { cbn. destruct needs; [by rewrite !app_nil_r|done]. }
  cbn [match_add List.filter existsb map]. rewrite matches_targets_spec by done. cbn [mbind option_bind].
  destruct (wants fnmatch t (pkg_name p)); cbn [andb]; [|apply IH].
  destruct (add_counts_ t p) eqn:E; unfold add_counts_ in E;
    destruct (is_some (pkg_oldpkg p)); rewrite E; cbn [andb negb orb]; try apply IH;
    (destruct needs; [|done]); rewrite IH; cbn [map]; by rewrite <-app_assoc.
Qed.

Lemma match_remove_spec t add l remove (needs : bool) :
  targets_ok t →
  match_remove fnmatch needs t add l remove = Some (
    let counts p := wants fnmatch t (pkg_name p) && negb (is_some (alpm_list_find alpm_pkg_cmp add p)) in
    if needs then inl (remove ++ map pkg_name (List.filter counts l))
    else if existsb counts l then inr () else inl remove).
Proof.
  intros Ht. revert remove. induction l as [|p l IH]; intros remove.
  { cbn. destruct needs; [by rewrite app_nil_r|done]. }
  cbn [match_remove List.filter existsb map]. rewrite matches_targets_spec by done. cbn [mbind option_bind].
  destruct (wants fnmatch t (pkg_name p) && _); cbn [orb]; [|apply IH].
  destruct needs; [|done]. rewrite IH. cbn [map]. by rewrite <-app_assoc.
Qed.

Definition counts_add t p : bool := wants fnmatch t (pkg_name p) && add_counts_ t p.
Definition counts_remove t p : bool :=
  has_flag (tr_op t) ALPM_HOOK_OP_REMOVE
  && (wants fnmatch t (pkg_name p) && negb (is_some (alpm_list_find alpm_pkg_cmp (trans_add h) p))).

Lemma bfilter_none {A} (p : A → bool) l : (∀ x, p x = false) → List.filter p l = [].
Proof. intros Hp. induction l as [|x l IH]; cbn; [done|]. by rewrite Hp. Qed.

Lemma existsb_none {A} (p : A → bool) l : (∀ x, p x = false) → existsb p l = false.
Proof. intros Hp. induction l as [|x l IH]; cbn; [done|]. by rewrite Hp. Qed.

Lemma added_spec t (needs : bool) :
  targets_ok t →
  (if has_flag (tr_op t) ALPM_HOOK_OP_INSTALL || has_flag (tr_op t) ALPM_HOOK_OP_UPGRADE
   then match_add fnmatch needs t (trans_add h) [] [] else Some (inl ([], []))) =
  Some (if needs then
          inl (map pkg_name (List.filter (λ p, counts_add t p && negb (is_some (pkg_oldpkg p))) (trans_add h)),
               map pkg_name (List.filter (λ p, counts_add t p && is_some (pkg_oldpkg p)) (trans_add h)))
        else if existsb (counts_add t) (trans_add h) then inr () else inl ([], [])).
Proof.
  intros Ht. destruct (_ || _) eqn:E; [by rewrite match_add_spec|].
  apply orb_false_iff in E as [E1 E2].
  assert (∀ p, counts_add t p = false) as Hc.
  { intros p. unfold counts_add, add_counts_. rewrite E1, E2. destruct (is_some _); apply andb_false_r. }
  rewrite !bfilter_none, existsb_none by (intros; by rewrite ?Hc). by destruct needs.
Qed.

Lemma removed_spec t (needs : bool) :
  targets_ok t →
  (if has_flag (tr_op t) ALPM_HOOK_OP_REMOVE
   then match_remove fnmatch needs t (trans_add h) (trans_remove h) [] else Some (inl [])) =
  Some (if needs then inl (map pkg_name (List.filter (counts_remove t) (trans_remove h)))
        else if existsb (counts_remove t) (trans_remove h) then inr () else inl []).
Proof.
  intros Ht. unfold counts_remove. destruct (has_flag _ _); [by rewrite match_remove_spec|].
  rewrite bfilter_none, existsb_none by done. by destruct needs.
Qed.

Lemma elem_of_map_filter (f : alpm_pkg_t → bool) l n :
  n ∈ map pkg_name (List.filter f l) ↔ ∃ p, p ∈ l ∧ pkg_name p = n ∧ f p = true.
Proof.
  setoid_rewrite list_elem_of_fmap. setoid_rewrite elem_of_bfilter. naive_solver.
Qed.

Lemma elem_of_map_filter2 (f g : alpm_pkg_t → bool) l n :
  n ∈ map pkg_name (List.filter (λ p, f p && g p) l) ↔
  ∃ p, p ∈ l ∧ pkg_name p = n ∧ f p = true ∧ g p = true.
Proof. rewrite elem_of_map_filter. by setoid_rewrite andb_true_iff. Qed.

Lemma is_some_None {A} (o : option A) : is_some o = false ↔ o = None.
Proof. by destruct o. Qed.

Lemma pkg_change_counts t n :
  wants fnmatch t n = true ∧ pkg_change t n ↔
  (∃ p, p ∈ trans_add h ∧ pkg_name p = n ∧ counts_add t p = true) ∨
  (∃ p, p ∈ trans_remove h ∧ pkg_name p = n ∧ counts_remove t p = true).
Proof.
  unfold pkg_change, counts_add, counts_remove. setoid_rewrite andb_true_iff.
  setoid_rewrite andb_true_iff. setoid_rewrite negb_true_iff. setoid_rewrite is_some_None.
  split.
  - intros [Hw [(p & Hp & <- & Hc)|(p & Hp & <- & Hc & Hn)]]; [left|right]; exists p; tauto.
  - intros [(p & Hp & <- & Hw & Hc)|(p & Hp & <- & Hc & Hw & Hn)]; (split; [done|]); [left|right]; exists p; tauto.
Qed.

Lemma existsb_pkgs (c : alpm_pkg_t → bool) l :
  existsb c l = true ↔ ∃ n p, p ∈ l ∧ pkg_name p = n ∧ c p = true.
Proof. rewrite existsb_exists. setoid_rewrite <-list_elem_of_In. naive_solver. Qed.

Lemma trigger_match_pkg_spec hook t :
  targets_ok t → ∃ res, alpm_hook_trigger_match_pkg fnmatch h hook t = Some res ∧
  match_ok hook (λ n, wants fnmatch t n = true ∧ pkg_change t n) res.
Proof.
  intros Ht. unfold alpm_hook_trigger_match_pkg. rewrite added_spec, removed_spec by done.
  cbn [mbind option_bind].
  destruct (hook_needs_targets hook) eqn:E.
  - eexists. split; [done|]. eapply match_ok_ext; [intros n; symmetry; apply pkg_change_counts|].
    unfold match_ok. rewrite E. cbn [fst snd]. rewrite <-!app_assoc.
    set (found := map _ _ ++ map _ _ ++ map _ _).
    assert (∀ n, n ∈ found ↔ (∃ p, p ∈ trans_add h ∧ pkg_name p = n ∧ counts_add t p = true) ∨
      (∃ p, p ∈ trans_remove h ∧ pkg_name p = n ∧ counts_remove t p = true)) as Hf.
    { intros n. unfold found. rewrite !elem_of_app, !elem_of_map_filter2, elem_of_map_filter.
      setoid_rewrite negb_true_iff. split.
      { intros [(p & ? & ? & ? & ?)|[(p & ? & ? & ? & ?)|?]]; [left; exists p; tauto..|by right]. }
      intros [(p & ? & ? & ?)|?]; [|by auto].
      destruct (is_some (pkg_oldpkg p)) eqn:?; [right; left|left]; exists p; tauto. }
    split; [|by exists found]. rewrite <-(not_nil_iff found) by done.
    unfold found. by repeat destruct (map _ _).
  - destruct (existsb (counts_add t) _) eqn:Ea; [|destruct (existsb (counts_remove t) _) eqn:Er];
      (eexists; split; [done|]; eapply match_ok_ext; [intros n; symmetry; apply pkg_change_counts|];
       unfold match_ok; rewrite E; split;
       [|exists []; split; [cbn; rewrite ?app_nil_r; by destruct hook|done]]); cbn [snd].
    + apply existsb_pkgs in Ea. naive_solver.
    + apply existsb_pkgs in Er. naive_solver.
    + apply not_true_iff_false in Ea, Er. rewrite existsb_pkgs in Ea, Er. naive_solver.
Qed.

Lemma trigger_match_spec hook t :
  targets_ok t → ∃ res, alpm_hook_trigger_match fnmatch h hook t = Some res ∧
  match_ok hook (fires t) res.
Proof.
  intros Ht. unfold alpm_hook_trigger_match, fires. destruct (_ =? _).
  - by apply trigger_match_pkg_spec.
  - by apply trigger_match_file_spec.
Qed.

Lemma needs_with_matches hook l : hook_needs_targets (with_matches l hook) = hook_needs_targets hook.
Proof. done. Qed.

Lemma fires_cons t triggers n :
  (∃ t', t' ∈ t :: triggers ∧ fires t' n) ↔ fires t n ∨ ∃ t', t' ∈ triggers ∧ fires t' n.
Proof.
  setoid_rewrite elem_of_cons. split.
  - intros (t' & [->|Ht] & Hf); [by left|right; by exists t'].
  - intros [Hf|(t' & Ht & Hf)]; [by exists t; auto|exists t'; auto].
Qed.

Lemma some_fires_cons t triggers :
  (∃ t' n, t' ∈ t :: triggers ∧ fires t' n) ↔
  (∃ n, fires t n) ∨ ∃ t' n, t' ∈ triggers ∧ fires t' n.
Proof.
  setoid_rewrite elem_of_cons. split.
  - intros (t' & n & [->|Ht] & Hf); [left; by exists n|right; by exists t', n].
  - intros [[n Hf]|(t' & n & Ht & Hf)]; [exists t, n; auto|exists t', n; auto].
Qed.

Lemma triggered_loop_spec triggers hook (ret : bool) :
  Forall targets_ok triggers → ∃ found b,
  triggered_loop fnmatch h triggers hook ret = Some (with_matches (hook_matches hook ++ found) hook, b) ∧
  (b = true ↔ ret = true ∨ ∃ t n, t ∈ triggers ∧ fires t n) ∧
  if hook_needs_targets hook then ∀ n, n ∈ found ↔ ∃ t, t ∈ triggers ∧ fires t n else found = [].
Proof.
  intros Ht. revert hook ret. induction Ht as [|t triggers Ht Hts IH]; intros hook ret; cbn [triggered_loop].
  { exists [], ret. split; [by rewrite <-with_matches_nil|]. split; [set_solver|].
    destruct (hook_needs_targets hook); [set_solver|done]. }
  destruct (trigger_match_spec hook t Ht) as ([hook1 m] & -> & Hm & found1 & Hh & Hf).
  cbn [mbind option_bind fst snd] in *. subst hook1. rewrite needs_with_matches.
  destruct (hook_needs_targets hook) eqn:E.
  - cbn [negb]. set (hook1 := with_matches _ hook).
    destruct (IH hook1 (m || ret)) as (found & b & Hl & Hb & Hn).
    exists (found1 ++ found), b. split; [|split].
    + rewrite app_assoc. change (with_matches ((hook_matches hook ++ found1) ++ found) hook)
        with (with_matches (hook_matches hook1 ++ found) hook1). rewrite <-Hl. by destruct m.
    + rewrite Hb, orb_true_iff, Hm, some_fires_cons. tauto.
    + change (hook_needs_targets hook1) with (hook_needs_targets hook) in Hn. rewrite E in Hn.
      intros n. by rewrite elem_of_app, Hf, Hn, fires_cons.
  - subst found1. rewrite <-with_matches_nil. cbn [negb]. destruct m.
    + exists [], true. split; [by rewrite <-with_matches_nil|]. split; [|done]. split; [|done].
      intros _. right. destruct (proj1 Hm eq_refl) as [n Hn]. exists t, n. split; [left|done].
    + destruct (IH hook ret) as (found & b & -> & Hb & Hn). rewrite E in Hn. exists found, b. split; [done|].
      split; [|done]. rewrite Hb, some_fires_cons, <-Hm. naive_solver.
Qed.
End fires.

(** ** Facts: standard input *)
Lemma feed_targets_next pos limit :
  (feed_targets pos limit).1 ++ lines_of (feed_targets pos limit).2 = lines_of pos.
Proof.
  revert limit. induction pos as [|s pos IH]; intros limit; [done|]. cbn [feed_targets].
  destruct (_ <=? _)%nat.
  - specialize (IH (limit - (length s + 1))%nat). destruct (feed_targets _ _) as [buf pos'].
    cbn [fst snd lines_of flat_map] in *. fold (lines_of pos). rewrite <-IH.
    by rewrite <-!app_assoc.
  - cbn [fst snd lines_of flat_map]. by rewrite !app_assoc, take_drop.
Qed.

Lemma feed_targets_fits pos limit : (length (feed_targets pos limit).1 <= limit)%nat.
Proof.
  revert limit. induction pos as [|s pos IH]; intros limit; cbn [feed_targets]; [cbn; lia|].
  destruct (_ <=? _)%nat eqn:E.
  - apply Nat.leb_le in E. specialize (IH (limit - (length s + 1))%nat).
    destruct (feed_targets _ _) as [buf pos']. cbn [fst] in *. rewrite length_app. cbn [length]. lia.
  - cbn [fst]. rewrite length_take. lia.
Qed.

Lemma feed_targets_stops pos limit :
  (0 < limit)%nat → (feed_targets pos limit).1 = [] → lines_of pos = [].
Proof.
  destruct pos as [|s pos]; intros Hl; [done|]. cbn [feed_targets].
  destruct (_ <=? _)%nat eqn:E.
  - destruct (feed_targets _ _). cbn. by destruct s.
  - cbn [fst]. intros H%(f_equal length). rewrite length_take in H. cbn in H.
    apply Nat.leb_gt in E. lia.
Qed.

#[export] Instance feed_targets_stdin : StdinCb (list cstr) := {
  out_cb := feed_targets;
  to_feed := lines_of;
  out_cb_next := feed_targets_next;
  out_cb_fits := feed_targets_fits;
  out_cb_stops := feed_targets_stops
}.

Lemma strlist_dedup_spec fuel l :
  (length l <= fuel)%nat → StronglySorted (cmp_le strcmp) l →
  StronglySorted (λ a b, strcmp a b < 0) (strlist_dedup fuel l) ∧ ∀ s, s ∈ strlist_dedup fuel l ↔ s ∈ l.
Proof.
  revert l. induction fuel as [|fuel IH]; intros [|s l] Hf Hs; cbn [strlist_dedup length] in *;
    [split; [constructor|done]|lia|split; [constructor|done]|].
  destruct (sorted_drop_while s l Hs) as [Hd He].
  destruct (IH (drop_while (streq s) l)) as [H1 H2]; [|done|].
  { pose proof (length_take_drop_while (streq s) l). lia. }
  split.
  - constructor; [done|]. apply Forall_forall. intros x [Hx Hne]%H2%He.
    apply StronglySorted_inv in Hs as [_ Hs]. rewrite Forall_forall in Hs. apply Hs in Hx.
    unfold cmp_le in Hx. assert (strcmp s x ≠ 0) by by rewrite strcmp_eq. lia.
  - intros x. rewrite !elem_of_cons, H2, He. destruct (decide (x = s)); tauto.
Qed.

Lemma hook_targets_spec hook :
  StronglySorted (λ a b, strcmp a b < 0) (hook_targets hook) ∧
  ∀ s, s ∈ hook_targets hook ↔ s ∈ hook_matches hook.
Proof.
  unfold hook_targets.
  destruct (strlist_dedup_spec _ _ (le_n _) (msort_sorted strcmp (hook_matches hook))) as [H1 H2].
  split; [done|]. intros s. by rewrite H2, msort_perm.
Qed.

(** ** Facts: reading *)
Definition name_fits (hook : alpm_hook_t) : Prop :=
  is_hook_file (hook_name hook) = true ∧ Z.of_nat (length (hook_name hook)) < 2 ^ 64 ∧
  alpm_hook_validate hook = 0.

Lemma path_max_fits n : (n < PATH_MAX)%nat → Z.of_nat n < 2 ^ 64.
Proof.
  intros H. assert (Z.of_nat PATH_MAX < 2 ^ 64) by by vm_compute. lia.
Qed.

Section read_facts.
Context (files : hook_files) (fs : fsys).

(** The hook that a file of a directory defines, when it can be used. *)
Definition entry_hook (dir name : cstr) : option alpm_hook_t :=
  if (PATH_MAX - length dir <=? length name)%nat || negb (is_hook_file name) then None
  else match fs !! (dir ++ name) with
       | Some (NFile data) =>
           match parse_hook files (dir ++ name) data with
           | Some (inl hook) => Some (with_name name hook)
           | _ => None
           end
       | _ => None
       end.

(** A directory that can be opened, and the names that are read from it. *)
Definition opened (dir : cstr) : bool := (length dir <? PATH_MAX)%nat && negb (hf_opendir files dir).

Definition listed (dir : cstr) : list cstr :=
  match readdir fs dir with
  | Some names => match hf_readdir files dir with Some n => take n names | None => names end
  | None => []
  end.

Definition dir_hook (name dir : cstr) : option alpm_hook_t :=
  if opened dir && bool_decide (name ∈ listed dir) then entry_hook dir name else None.

(** A directory that is too long, cannot be opened or is none, or that cannot be
    read to its end. *)
Definition dir_unusable (dir : cstr) : Prop :=
  opened dir = false ∨ (∃ data, lstat fs dir = Some (NFile data)) ∨
  (lstat fs dir = Some NDir ∧ is_Some (hf_readdir files dir)).

(** A file that cannot be found, or is not a valid hook. *)
Definition file_unusable (dir name : cstr) : Prop :=
  fs !! (dir ++ name) = None ∨
  ∃ data, fs !! (dir ++ name) = Some (NFile data) ∧ parse_hook files (dir ++ name) data = Some (inr ()).

(** A name in a directory that makes the hooks unusable: it is too long, or it is
    that of an unusable hook file which no directory of [later] overrides. *)
Definition name_unusable (overridden : cstr → Prop) (dir name : cstr) : Prop :=
  (PATH_MAX - length dir <= length name)%nat ∨
  (length name < PATH_MAX - length dir)%nat ∧ is_hook_file name = true ∧ ~ overridden name ∧
  file_unusable dir name.

(** The hook directories, of which later ones override earlier ones, cannot all be
    used. *)
Definition hooks_unusable (dirs : list cstr) : Prop :=
  ∃ l d later, dirs = l ++ d :: later ∧
    (dir_unusable d ∨ opened d = true ∧
     ∃ name, name ∈ listed d ∧ name_unusable (λ n, ∃ d', d' ∈ later ∧ is_Some (dir_hook n d')) d name).

(** No hook file makes the parser dereference NULL, nor is there a NULL target: no
    option line lacks its value. *)
Definition hooks_defined (dirs : list cstr) : Prop :=
  ∀ dir name data, dir ∈ dirs → is_hook_file name = true → fs !! (dir ++ name) = Some (NFile data) →
    ∃ r, parse_hook files (dir ++ name) data = Some r ∧
         ∀ hook, r = inl hook → Forall targets_ok (hook_triggers hook).

Lemma find_hook_app l1 l2 n :
  find_hook (l1 ++ l2) n = match find_hook l1 n with Some x => Some x | None => find_hook l2 n end.
Proof.
  induction l1 as [|x l1 IH]; cbn; [done|]. destruct (streq _ n); [done|]. apply IH.
Qed.

Definition names_ok (hooks : list alpm_hook_t) : Prop :=
  NoDup (map hook_name hooks) ∧ Forall name_fits hooks.

Lemma names_ok_nil : names_ok [].
Proof. by repeat constructor. Qed.

Lemma find_hook_None hooks n : find_hook hooks n = None ↔ n ∉ map hook_name hooks.
Proof.
  unfold find_hook. rewrite find_first_None. setoid_rewrite streq_false.
  rewrite (list_elem_of_fmap hook_name). naive_solver.
Qed.

Lemma entry_hook_name dir name hook :
  entry_hook dir name = Some hook → hook_name hook = name ∧ name_fits hook.
Proof.
  unfold entry_hook, name_fits. destruct (_ <=? _)%nat eqn:El; [done|].
  destruct (is_hook_file name) eqn:Es; [|done]. cbn [orb negb]. destruct (fs !! _) as [[|data]|]; [done| |done].
  destruct (parse_hook _ _ _) as [[hook'|]|] eqn:Ep; [|done..].
  intros [= <-]. cbn [hook_name with_name]. split; [done|]. split; [done|]. split.
  - apply path_max_fits. apply Nat.leb_gt in El. lia.
  - unfold parse_hook in Ep. destruct (parse_ini _ _ _) as [[hook r]|]; [|done]. cbn in Ep.
    destruct (_ && _) eqn:E; [|done]. injection Ep as ->.
    by apply andb_true_iff in E as [_ E%Z.eqb_eq].
Qed.

Lemma read_entry_spec dir name hooks ret hooks' ret' :
  read_entry files fs dir name (hooks, ret) = Some (hooks', ret') →
  (hooks' = hooks ∧ (is_Some (find_hook hooks name) ∨ entry_hook dir name = None) ∨
   ∃ hook, hooks' = hooks ++ [hook] ∧ find_hook hooks name = None ∧ entry_hook dir name = Some hook) ∧
  (ret' = ret ∨ ret' = -1).
Proof.
  unfold read_entry, entry_hook. destruct (_ <=? _)%nat; [intros [= <- <-]; cbn; auto|].
  destruct (is_hook_file name); [|intros [= <- <-]; cbn; auto]. cbn [negb orb].
  destruct (find_hook hooks name) as [x|] eqn:Ef; cbn; [intros [= <- <-]; eauto 6|].
  destruct (fs !! _) as [[|data]|]; [intros [= <- <-]; auto..| |intros [= <- <-]; auto].
  destruct (parse_hook _ _ _) as [[hook|]|]; cbn; [|intros [= <- <-]; auto|done].
  intros [= <- <-]. split; [|auto]. right. by exists (with_name name hook).
Qed.

Lemma names_ok_add hooks hook dir name :
  names_ok hooks → find_hook hooks name = None → entry_hook dir name = Some hook →
  names_ok (hooks ++ [hook]).
Proof.
  intros [H1 H2] Hf [Hn Hs]%entry_hook_name. split.
  - rewrite map_app. apply NoDup_app. split; [done|]. split; [|apply NoDup_singleton].
    intros x Hx ->%list_elem_of_singleton. rewrite Hn in Hx. by apply find_hook_None in Hf.
  - apply Forall_app. split; [done|]. by constructor.
Qed.

Lemma find_hook_single hook n : find_hook [hook] n = if streq (hook_name hook) n then Some hook else None.
Proof. done. Qed.

Definition found_in hooks (n : cstr) : Prop := is_Some (find_hook hooks n).

(** When the result becomes -1. *)
Lemma read_entry_ret dir name hooks ret hooks' ret' :
  read_entry files fs dir name (hooks, ret) = Some (hooks', ret') →
  ret' = -1 ↔ ret = -1 ∨ name_unusable (found_in hooks) dir name.
Proof.
  unfold read_entry, name_unusable, found_in, file_unusable.
  destruct (Nat.leb_spec (PATH_MAX - length dir) (length name)) as [Hl|Hl]; [intros [= <- <-]; tauto|].
  assert (∀ P : Prop, (~ P) → ret = -1 ↔ ret = -1 ∨ (PATH_MAX - length dir <= length name)%nat ∨ P) as Hno
    by (intros P HP; split; [by left|]; intros [?|[?|?]]; [done|lia|done]).
  assert (∀ P : Prop, P → -1 = -1 ↔ ret = -1 ∨ (PATH_MAX - length dir <= length name)%nat ∨ P) as Hyes by tauto.
  destruct (is_hook_file name); [|intros [= <- <-]; apply Hno; by intros (_ & ? & _)]. cbn [negb].
  destruct (find_hook hooks name) as [x|]; cbn [is_some].
  { intros [= <- <-]. apply Hno. intros (_ & _ & Hn & _). apply Hn. by eexists. }
  assert (~ is_Some (@None alpm_hook_t)) as Hnone by (by intros []).
  destruct (fs !! _) as [[|data]|]; cbn.
  - intros [= <- <-]. apply Hno. by intros (_ & _ & _ & [?|(? & ? & _)]).
  - destruct (parse_hook _ _ _) as [[hook|[]]|] eqn:Ep; cbn; [..|done]; intros [= <- <-].
    + apply Hno. intros (_ & _ & _ & [?|(d & [= <-] & Hp)]); congruence.
    + apply Hyes. split_and!; [done..|]. right. by exists data.
  - intros [= <- <-]. apply Hyes. split_and!; [done..|by left].
Qed.

Lemma name_unusable_entry P dir name : name_unusable P dir name → entry_hook dir name = None.
Proof.
  unfold name_unusable, entry_hook, file_unusable. intros [H|(H1 & -> & _ & H)].
  { by rewrite (proj2 (Nat.leb_le _ _) H). }
  rewrite (proj2 (Nat.leb_gt _ _) H1). cbn. by destruct H as [->|(data & -> & ->)].
Qed.

Lemma name_unusable_ext P Q dir name :
  (entry_hook dir name = None → P name ↔ Q name) → name_unusable P dir name ↔ name_unusable Q dir name.
Proof.
  intros H. split; intros Hn; pose proof (H (name_unusable_entry _ _ _ Hn)); unfold name_unusable in *; tauto.
Qed.

Lemma read_entries_spec dir names hooks ret hooks' ret' :
  names_ok hooks →
  read_entries files fs dir names (hooks, ret) = Some (hooks', ret') →
  names_ok hooks' ∧ (ret' = ret ∨ ret' = -1) ∧
  (∀ n, find_hook hooks' n = match find_hook hooks n with
                             | Some x => Some x
                             | None => if bool_decide (n ∈ names) then entry_hook dir n else None
                             end) ∧
  (ret' = -1 ↔ ret = -1 ∨ ∃ name, name ∈ names ∧ name_unusable (found_in hooks) dir name).
Proof.
  revert hooks ret. induction names as [|name names IH]; intros hooks ret Hok; cbn [read_entries].
  { intros [= <- <-]. split_and!; [done|auto| |set_solver]. intros n. by destruct (find_hook hooks n). }
  destruct (read_entry _ _ _ _ _) as [[hooks1 ret1]|] eqn:E; [|done]. cbn.
  pose proof (read_entry_ret _ _ _ _ _ _ E) as Hb.
  apply read_entry_spec in E as [Hh Hr]. intros H.
  apply IH in H as (Hok' & Hr' & Hf & Hb'); clear IH.
  2: { destruct Hh as [[-> _]|(x & -> & Hx & Hx')]; [done|by eapply names_ok_add]. }
  assert (∀ n, find_hook hooks1 n = match find_hook hooks n with
      | Some x => Some x | None => if bool_decide (n = name) then entry_hook dir n else None end) as Hf1.
  { intros n. destruct Hh as [[-> Hn]|(x & -> & Hx & He)].
    - destruct (find_hook hooks n) eqn:En; [done|]. case_bool_decide as Hd; [subst n|done].
      rewrite En in Hn. destruct Hn as [[? ?]|Hn]; [done|]. by rewrite Hn.
    - rewrite find_hook_app, find_hook_single. destruct (entry_hook_name _ _ _ He) as [Hname _].
      destruct (find_hook hooks n) eqn:En; [done|]. rewrite Hname. destruct (streq name n) eqn:Es.
      + apply streq_true in Es as <-. by rewrite bool_decide_true.
      + apply streq_false in Es. by rewrite bool_decide_false. }
  split_and!; [done|naive_solver| |].
  - intros n. rewrite Hf, Hf1. destruct (find_hook hooks n); [done|].
    case_bool_decide as Hd; [subst n; rewrite (bool_decide_true (name ∈ name :: names)) by by left|].
    + destruct (entry_hook dir name); [done|]. by destruct (bool_decide _).
    + rewrite (bool_decide_ext (n ∈ name :: names) (n ∈ names)) by set_solver. done.
  - assert (∀ n, name_unusable (found_in hooks1) dir n ↔ name_unusable (found_in hooks) dir n) as Hext.
    { intros n. apply name_unusable_ext. intros Hn. unfold found_in. rewrite Hf1, Hn.
      destruct (find_hook hooks n); [done|]. by destruct (bool_decide _). }
    rewrite Hb', Hb. setoid_rewrite Hext. setoid_rewrite elem_of_cons. naive_solver.
Qed.

(** What a directory adds to the hooks, and when it makes the result -1. *)
Definition dir_breaks (P : cstr → Prop) (dir : cstr) : Prop :=
  dir_unusable dir ∨ opened dir = true ∧ ∃ name, name ∈ listed dir ∧ name_unusable P dir name.

Lemma read_hookdir_spec dir hooks ret hooks' ret' :
  names_ok hooks →
  read_hookdir files fs dir (hooks, ret) = Some (hooks', ret') →
  names_ok hooks' ∧ (ret' = ret ∨ ret' = -1) ∧
  (∀ n, find_hook hooks' n = match find_hook hooks n with Some x => Some x | None => dir_hook n dir end) ∧
  (ret' = -1 ↔ ret = -1 ∨ dir_breaks (found_in hooks) dir).
Proof.
  intros Hok. unfold read_hookdir, dir_breaks, dir_unusable, dir_hook, listed, opened.
  rewrite Nat.leb_antisym. destruct (length dir <? PATH_MAX)%nat; cbn [negb andb fst].
  2:{ intros [= <- <-]. split_and!; [done|auto| |tauto]. intros n. by destruct (find_hook hooks n). }
  destruct (hf_opendir files dir); cbn [negb].
  { intros [= <- <-]. split_and!; [done|auto| |tauto]. intros n. by destruct (find_hook hooks n). }
  unfold readdir. destruct (lstat fs dir) as [[|data]|].
  - destruct (hf_readdir files dir) as [k|].
    + intros ([hooks1 ret1] & H & [= <- <-])%bind_Some.
      apply read_entries_spec in H as (H1 & H2 & H3 & H4); [|done]. split_and!; [done|auto|done|naive_solver].
    + intros H. apply read_entries_spec in H as (H1 & H2 & H3 & H4); [|done]. split_and!; [done..|].
      rewrite H4. split; [tauto|]. intros [?|[[?|[(? & ?)|(_ & [? ?])]]|[_ ?]]]; done || auto.
  - intros [= <- <-]. split_and!; [done|auto| |naive_solver]. intros n. by destruct (find_hook hooks n).
  - intros [= <- <-]. split_and!; [done|auto| |].
    + intros n. by destruct (find_hook hooks n).
    + split; [by left|]. intros [?|[[?|[(? & ?)|(? & _)]]|[_ (? & ?%not_elem_of_nil & _)]]]; done.
Qed.

Lemma read_hookdirs_spec dirs hooks ret hooks' ret' :
  names_ok hooks →
  read_hookdirs files fs dirs (hooks, ret) = Some (hooks', ret') →
  names_ok hooks' ∧ (ret' = ret ∨ ret' = -1) ∧
  (∀ n, find_hook hooks' n = match find_hook hooks n with
                             | Some x => Some x
                             | None => head (omap (dir_hook n) dirs)
                             end) ∧
  (ret' = -1 ↔ ret = -1 ∨ ∃ l d r, dirs = l ++ d :: r ∧
     dir_breaks (λ n, found_in hooks n ∨ ∃ d', d' ∈ l ∧ is_Some (dir_hook n d')) d).
Proof.
  revert hooks ret. induction dirs as [|dir dirs IH]; intros hooks ret Hok; cbn [read_hookdirs].
  { intros [= <- <-]. split_and!; [done|auto| |].
    - intros n. by destruct (find_hook hooks n).
    - split; [by left|]. intros [?|([] & ? & ? & ? & _)]; done. }
  destruct (read_hookdir _ _ _ _) as [[hooks1 ret1]|] eqn:E; [|done]. cbn [mbind option_bind]. intros H.
  apply read_hookdir_spec in E as (Hok1 & Hr1 & Hf1 & Hb1); [|done].
  apply IH in H as (Hok' & Hr' & Hf & Hb'); [|done]. split_and!; [done|naive_solver| |].
  - intros n. rewrite Hf, Hf1. destruct (find_hook hooks n); [done|]. cbn [omap list_omap].
    by destruct (dir_hook n dir).
  - assert (∀ P Q d, (∀ n, P n ↔ Q n) → dir_breaks P d → dir_breaks Q d) as Hext.
    { intros P Q d HPQ [?|(? & n & ? & Hn)]; [by left|right]. split; [done|]. exists n. split; [done|].
      revert Hn. apply name_unusable_ext. intros _. by rewrite HPQ. }
    assert (∀ l n, found_in hooks1 n ∨ (∃ d', d' ∈ l ∧ is_Some (dir_hook n d')) ↔
                   found_in hooks n ∨ ∃ d', d' ∈ dir :: l ∧ is_Some (dir_hook n d')) as Hfound.
    { intros l n. unfold found_in. rewrite Hf1. setoid_rewrite elem_of_cons.
      destruct (find_hook hooks n) as [x|]; [|naive_solver].
      split; intros _; left; by eexists. }
    rewrite Hb', Hb1. split.
    + intros [[?|Hd]|(l & d & r & -> & Hd)]; [by left|right; exists [], dir, dirs|right; exists (dir :: l), d, r];
        (split; [done|]); (eapply Hext; [|exact Hd]); intros n; [set_solver|apply Hfound].
    + intros [?|([|d' l] & d & r & Hdirs & Hd)]; [by auto| |]; injection Hdirs as -> ->.
      * left. right. eapply Hext; [|exact Hd]. set_solver.
      * right. exists l, d, r. split; [done|]. eapply Hext; [|exact Hd]. intros n. symmetry. apply Hfound.
Qed.

(** Reading all hook directories: the hooks, and whether they can be used. *)
Lemma read_all_hooks dirs hooks ret :
  read_hookdirs files fs (reverse dirs) ([], 0) = Some (hooks, ret) →
  names_ok hooks ∧ (∀ n, find_hook hooks n = last (omap (dir_hook n) dirs)) ∧
  (ret = -1 ∧ hooks_unusable dirs ∨ ret = 0 ∧ ~ hooks_unusable dirs).
Proof.
  intros H. apply read_hookdirs_spec in H as (Hok & Hret & Hf & Hb); [|apply names_ok_nil].
  split; [done|]. split.
  - intros n. rewrite Hf. cbn. clear. induction dirs as [|d dirs IH]; [done|].
    rewrite reverse_cons, omap_app, head_app, IH. cbn [omap list_omap].
    destruct (dir_hook n d); cbn; [rewrite last_cons|]; by destruct (last _).
  - assert (ret = -1 ↔ hooks_unusable dirs) as Hu; [|destruct Hret as [->| ->]; naive_solver].
    assert (∀ n, ~ found_in [] n) as Hnil by (by intros n [? ?]).
    rewrite Hb. unfold hooks_unusable, dir_breaks. split.
    + intros [?|(l & d & r & E & Hd)]; [done|]. exists (reverse r), d, (reverse l). split.
      { rewrite <-(reverse_involutive dirs), E, reverse_app, reverse_cons, <-app_assoc. done. }
      destruct Hd as [?|(? & n & ? & Hn)]; [by left|right]. split; [done|]. exists n. split; [done|].
      revert Hn. apply name_unusable_ext. intros _. setoid_rewrite elem_of_reverse. specialize (Hnil n). tauto.
    + intros (l & d & r & -> & Hd). right. exists (reverse r), d, (reverse l). split.
      { by rewrite reverse_app, reverse_cons, <-app_assoc. }
      destruct Hd as [?|(? & n & ? & Hn)]; [by left|right]. split; [done|]. exists n. split; [done|].
      revert Hn. apply name_unusable_ext. intros _. setoid_rewrite elem_of_reverse. specialize (Hnil n). tauto.
Qed.

(** Reading is defined. *)
Lemma read_hookdirs_total dirs st : hooks_defined dirs → is_Some (read_hookdirs files fs dirs st).
Proof.
  intros Hd. revert st. induction dirs as [|dir dirs IH]; intros st; [by eexists|]. cbn [read_hookdirs].
  assert (∀ names st, is_Some (read_entries files fs dir names st)) as Hn.
  { intros names. induction names as [|name names IHn]; intros [hooks ret]; [by eexists|]. cbn [read_entries].
    assert (is_Some (read_entry files fs dir name (hooks, ret))) as [st1 ->]; [|apply IHn].
    unfold read_entry. destruct (_ <=? _)%nat; [by eexists|]. destruct (is_hook_file name) eqn:Eh; [|by eexists].
    cbn [negb]. destruct (is_some _); [by eexists|]. destruct (fs !! _) as [[|data]|] eqn:Ef; [by eexists| |by eexists].
    destruct (Hd dir name data ltac:(by left) Eh Ef) as (r & -> & _). by eexists. }
  assert (is_Some (read_hookdir files fs dir st)) as [st1 ->].
  { unfold read_hookdir. destruct (_ <=? _)%nat; [by eexists|]. destruct (hf_opendir _ _); [by eexists|].
    destruct (lstat fs dir) as [[|]|]; [|by eexists..]. destruct (readdir fs dir) as [names|]; [|by eexists].
    destruct (hf_readdir files dir) as [k|]; [|apply Hn]. destruct (Hn (take k names) st) as [[hooks ret] ->]. by eexists. }
  apply IH. intros d n data Hin. apply Hd. by right.
Qed.

Lemma dir_hook_targets dirs n hook :
  hooks_defined dirs → last (omap (dir_hook n) dirs) = Some hook → Forall targets_ok (hook_triggers hook).
Proof.
  intros Hd Hl. assert (hook ∈ omap (dir_hook n) dirs) as Hin by (by apply last_Some_elem_of).
  apply list_elem_of_omap in Hin as (dir & Hdir & Hh). unfold dir_hook, entry_hook in Hh.
  destruct (_ && _); [|done]. destruct (is_hook_file n) eqn:Eh; [|by rewrite orb_true_r in Hh].
  destruct (_ || _); [done|]. destruct (fs !! _) as [[|data]|] eqn:Ef; [done| |done].
  destruct (Hd dir n data Hdir Eh Ef) as (r & Hp & Hr). rewrite Hp in Hh. destruct r as [x|]; [|done].
  injection Hh as <-. by apply (Hr x).
Qed.
End read_facts.

(** ** Facts: the order of the hooks *)
Section msort_ext.
Context {A : Type} (fn gn : A → A → Z) (P : A → Prop).
Hypothesis agree : ∀ x y, P x → P y → (fn x y <=? 0) = (gn x y <=? 0).

Lemma mmerge_Forall l r : Forall P l → Forall P r → Forall P (alpm_list_mmerge gn l r).
Proof.
  revert r. induction l as [|x l IHl]; [done|]. intros r Hl Hr. induction Hr as [|y r Hy Hr IHr]; [done|].
  cbn. destruct (_ <=? 0); constructor; [by inversion Hl| |done|apply IHr].
  apply IHl; [by inversion Hl|by constructor].
Qed.

Lemma mmerge_ext l r :
  Forall P l → Forall P r → alpm_list_mmerge fn l r = alpm_list_mmerge gn l r.
Proof.
  revert r. induction l as [|x l IHl]; [done|]. intros r Hl Hr. induction Hr as [|y r Hy Hr IHr]; [done|].
  cbn. rewrite agree; [|by inversion Hl|done]. destruct (_ <=? 0); f_equal; [|apply IHr].
  apply IHl; [by inversion Hl|by constructor].
Qed.

Lemma msort_rec_ext fuel l n :
  Forall P l → Forall P (msort_rec gn fuel l n) ∧ msort_rec fn fuel l n = msort_rec gn fuel l n.
Proof.
  revert l n. induction fuel as [|fuel IH]; intros l n Hl; cbn [msort_rec]; [done|].
  destruct (1 <? n)%nat; [|done].
  destruct (IH (take (n / 2) l) (n / 2)%nat) as [H1 ->]; [by apply Forall_take|].
  destruct (IH (drop (n / 2) l) (n - n / 2)%nat) as [H2 ->]; [by apply Forall_drop|].
  split; [by apply mmerge_Forall|by apply mmerge_ext].
Qed.
End msort_ext.

Definition stem (hook : alpm_hook_t) : cstr :=
  take (length (hook_name hook) - length ALPM_HOOK_SUFFIX) (hook_name hook).

Lemma is_hook_file_stem hook :
  is_hook_file (hook_name hook) = true → hook_name hook = stem hook ++ ALPM_HOOK_SUFFIX.
Proof.
  unfold is_hook_file, stem. intros [_ H%streq_true]%andb_true_iff. rewrite <-H at 2. by rewrite take_drop.
Qed.

Lemma strcmp_take a b :
  let m := Nat.min (length a) (length b) in
  strcmp a b = if (strcmp (take m a) (take m b) =? 0) && negb (length a =? length b)%nat
               then if (length a <? length b)%nat then -1 else 1
               else strcmp (take m a) (take m b).
Proof.
  revert b. induction a as [|c a IH]; intros [|d b]; [done..|]. cbn [length Nat.min take strcmp].
  destruct (uchr c <? uchr d); [done|]. destruct (uchr d <? uchr c); [done|]. rewrite IH. done.
Qed.

Definition stem_cmp (h1 h2 : alpm_hook_t) : Z := strcmp (stem h1) (stem h2).

#[export] Instance stem_cmp_order : CmpOrder stem_cmp.
Proof.
  unfold stem_cmp. split; intros.
  - apply cmp_refl.
  - apply cmp_sym.
  - by eapply cmp_trans.
Qed.

Lemma hook_cmp_stem h1 h2 : name_fits h1 → name_fits h2 → alpm_hook_cmp h1 h2 = stem_cmp h1 h2.
Proof.
  intros (H1%is_hook_file_stem & L1 & _) (H2%is_hook_file_stem & L2 & _). unfold alpm_hook_cmp, stem_cmp.
  rewrite strcmp_take. revert L1 L2. rewrite H1, H2. generalize (stem h1) (stem h2). clear.
  intros a b L1 L2. rewrite !length_app in *. cbn in L1, L2.
  change (length ALPM_HOOK_SUFFIX) with 5%nat.
  rewrite !Z.mod_small by lia.
  replace (Z.of_nat (length a + 5) - Z.of_nat 5) with (Z.of_nat (length a)) by lia.
  replace (Z.of_nat (length b + 5) - Z.of_nat 5) with (Z.of_nat (length b)) by lia.
  replace (Z.to_nat _) with (Nat.min (length a) (length b)) by (destruct (_ <=? _) eqn:?; lia).
  unfold strncmp. rewrite !take_app_le by lia.
  assert ((Z.of_nat (length a) =? Z.of_nat (length b)) = (length a =? length b)%nat) as ->.
  { apply eq_bool_prop_intro. rewrite !Is_true_true, Z.eqb_eq, Nat.eqb_eq. lia. }
  assert ((Z.of_nat (length a) <? Z.of_nat (length b)) = (length a <? length b)%nat) as ->; [|done].
  apply eq_bool_prop_intro. rewrite !Is_true_true, Z.ltb_lt, Nat.ltb_lt. lia.
Qed.

(** Hooks in the order of their names, without the suffix. *)
Lemma sorted_hooks hooks :
  names_ok hooks →
  StronglySorted (λ a b, stem_cmp a b < 0) (alpm_list_msort alpm_hook_cmp hooks (length hooks)) ∧
  alpm_list_msort alpm_hook_cmp hooks (length hooks) ≡ₚ hooks.
Proof.
  intros [Hn Hf]. unfold alpm_list_msort.
  destruct (msort_rec_ext alpm_hook_cmp stem_cmp name_fits) with (fuel := length hooks) (l := hooks)
    (n := length hooks) as [Hf' ->]; [|done|].
  { intros x y Hx Hy. by rewrite hook_cmp_stem. }
  pose proof (msort_perm stem_cmp hooks) as Hp. pose proof (msort_sorted stem_cmp hooks) as Hs.
  unfold alpm_list_msort in *. split; [|done].
  assert (NoDup (map hook_name (msort_rec stem_cmp (length hooks) hooks (length hooks)))) as Hn'
    by by rewrite Hp.
  clear Hn Hf Hp. induction Hs as [|x l Hl IH Hx]; [constructor|].
  apply Forall_cons in Hf' as [Fx Fl]. cbn in Hn'. apply NoDup_cons in Hn' as [Nx Nl].
  constructor; [by apply IH|]. rewrite Forall_forall in *. intros y Hy.
  specialize (Hx y Hy). unfold cmp_le in Hx. assert (stem_cmp x y ≠ 0); [|lia].
  unfold stem_cmp. rewrite strcmp_eq. intros Heq. apply Nx.
  destruct Fx as [Fx%is_hook_file_stem _], (Fl y Hy) as [Fy%is_hook_file_stem _].
  rewrite Fx, Heq, <-Fy. by apply (list_elem_of_fmap_2 hook_name).
Qed.

(** ** Facts: running *)
Section run_facts.
Context (fnmatch : cstr → cstr → bool) (h : alpm_handle_t).
Implicit Types (hook : alpm_hook_t) (hooks : list alpm_hook_t).

Definition same_hook hook hook' : Prop := ∃ l, hook' = with_matches l hook.

Lemma same_hook_refl hook : same_hook hook hook.
Proof. exists (hook_matches hook). by destruct hook. Qed.

Lemma trigger_match_same hook t hook' b :
  alpm_hook_trigger_match fnmatch h hook t = Some (hook', b) → same_hook hook hook'.
Proof.
  unfold alpm_hook_trigger_match, alpm_hook_trigger_match_pkg, alpm_hook_trigger_match_file.
  destruct (_ =? _).
  - intros ([[i u]|[]] & _ & H)%bind_Some; [|injection H as <- _; apply same_hook_refl].
    apply bind_Some in H as ([r|[]] & _ & H); injection H as <- _; [by eexists|apply same_hook_refl].
  - intros (i & _ & (r & _ & H)%bind_Some)%bind_Some. destruct (split_upgrades _ _ _) as [[a u] d].
    injection H as <- _. destruct (hook_needs_targets hook); [by eexists|apply same_hook_refl].
Qed.

Lemma same_hook_trans hook1 hook2 hook3 :
  same_hook hook1 hook2 → same_hook hook2 hook3 → same_hook hook1 hook3.
Proof. intros [l ->] [l' ->]. by exists l'. Qed.

Lemma triggered_same triggers hook ret hook' b :
  triggered_loop fnmatch h triggers hook ret = Some (hook', b) → same_hook hook hook'.
Proof.
  revert hook ret. induction triggers as [|t triggers IH]; intros hook ret; cbn [triggered_loop].
  { intros [= <- _]. apply same_hook_refl. }
  intros ([hook1 m] & Hm%trigger_match_same & H)%bind_Some.
  apply (same_hook_trans _ _ _ Hm). destruct m; [|by apply IH in H].
  destruct (negb _); [|by apply IH in H]. injection H as <- _. apply same_hook_refl.
Qed.

(** The hook with its matches, when it has to run. *)
Definition fire (when : Z) hook : option alpm_hook_t :=
  if hook_when hook =? when
  then match alpm_hook_triggered fnmatch h hook with
       | Some (hook', true) => Some hook'
       | _ => None
       end
  else None.

Lemma triggered_hooks_spec when hooks l :
  triggered_hooks fnmatch h when hooks = Some l → l = omap (fire when) hooks.
Proof.
  revert l. induction hooks as [|hook hooks IH]; intros l; cbn [triggered_hooks omap list_omap].
  { by intros [= <-]. }
  unfold fire at 1. destruct (hook_when hook =? when); [|apply IH].
  destruct (alpm_hook_triggered _ _ _) as [[hook' b]|]; [|done]. cbn [mbind option_bind].
  intros (rest & ->%IH & [= <-])%bind_Some. by destruct b.
Qed.

Lemma fire_stem when hook hook' : fire when hook = Some hook' → stem hook' = stem hook.
Proof.
  unfold fire. destruct (_ =? _); [|done].
  destruct (alpm_hook_triggered _ _ _) as [[x []]|] eqn:E; [|done..]. intros [= <-].
  by apply triggered_same in E as [l ->].
Qed.

Lemma fire_sorted when hooks :
  StronglySorted (λ a b, stem_cmp a b < 0) hooks →
  StronglySorted (λ a b, stem_cmp a b < 0) (omap (fire when) hooks).
Proof.
  induction 1 as [|x l Hl IH Hx]; cbn [omap list_omap]; [constructor|].
  destruct (fire when x) as [x'|] eqn:Ef; [|done]. constructor; [done|].
  apply Forall_forall. intros y' (y & Hy & Ey)%list_elem_of_omap. unfold stem_cmp.
  rewrite (fire_stem _ _ _ Ef), (fire_stem _ _ _ Ey). rewrite Forall_forall in Hx. by apply Hx.
Qed.

Context {W : Type} (run_chroot : W → option cstr → list cstr → option (list cstr) → W * Z).

(** Hooks that are run one after the other, with their results. *)
Fixpoint run_all hooks (w : W) : option (W * list Z) :=
  match hooks with
  | [] => Some (w, [])
  | hook :: hooks' =>
      '(w, r) ← alpm_hook_run_hook run_chroot h hook w;
      '(w, rs) ← run_all hooks' w;
      Some (w, r :: rs)
  end.

Definition aborts (hr : alpm_hook_t * Z) : bool := negb (hr.2 =? 0) && hook_abort_on_fail hr.1.

(** The run up to a failure that ends it. *)
Definition run_until (when ret : Z) (ran skipped : list alpm_hook_t) (rs : list Z) (r : Z) : Prop :=
  length ran = length rs ∧
  r = (if existsb aborts (zip ran rs) then -1 else ret) ∧
  (skipped = [] ∨ when = ALPM_HOOK_PRE_TRANSACTION ∧ ∃ hr, last (zip ran rs) = Some hr ∧ aborts hr = true) ∧
  (when = ALPM_HOOK_PRE_TRANSACTION → ∀ i hr, (S i < length ran)%nat → zip ran rs !! i = Some hr → aborts hr = false).

Lemma run_hooks_spec when hooks w ret w' r :
  (when = ALPM_HOOK_PRE_TRANSACTION → ret = 0) → (ret = 0 ∨ ret = -1) →
  run_hooks run_chroot h when hooks w ret = Some (w', r) →
  ∃ ran skipped rs, hooks = ran ++ skipped ∧ run_all ran w = Some (w', rs) ∧
                    run_until when ret ran skipped rs r.
Proof.
  revert w ret. induction hooks as [|hook hooks IH]; intros w ret Hpre Hret; cbn [run_hooks].
  { intros [= <- <-]. exists [], [], []. repeat split; auto. intros _ i hr Hi. cbn in Hi. lia. }
  intros ([w1 r1] & Hrun & H)%bind_Some. change (negb (r1 =? 0) && _) with (aborts (hook, r1)) in H.
  destruct (aborts (hook, r1)) eqn:Ea; [destruct (when =? _) eqn:Ew|].
  - cbn in H. injection H as <- <-. exists [hook], hooks, [r1]. cbn. rewrite Hrun. cbn.
    unfold run_until. cbn [zip_with existsb]. rewrite Ea. repeat split; [|cbn; lia].
    right. split; [by apply Z.eqb_eq in Ew|]. by exists (hook, r1).
  - cbn in H. apply IH in H as (ran & skipped & rs & -> & Hall & H1 & H2 & H3 & H4); [|by apply Z.eqb_neq in Ew|auto].
    exists (hook :: ran), skipped, (r1 :: rs). cbn [run_all]. rewrite Hrun. cbn. rewrite Hall. cbn.
    apply Z.eqb_neq in Ew. unfold run_until. cbn [zip_with existsb length]. rewrite Ea. cbn [orb].
    repeat split; [lia|by destruct (existsb _ _)| |done]. destruct H3 as [->|[? _]]; [by left|done].
  - assert (run_hooks run_chroot h when hooks w1 ret = Some (w', r)) as H'.
    { destruct (when =? _) eqn:Ew; [|by rewrite andb_false_r in H].
      apply Z.eqb_eq, Hpre in Ew. by subst ret. }
    apply IH in H' as (ran & skipped & rs & -> & Hall & H1 & H2 & H3 & H4); [|done..].
    exists (hook :: ran), skipped, (r1 :: rs). cbn [run_all]. rewrite Hrun. cbn. rewrite Hall. cbn.
    unfold run_until. cbn [zip_with existsb length]. rewrite Ea. cbn [orb].
    repeat split; [lia|done| |].
    + destruct H3 as [->|(? & hr & Hl & Hhr)]; [by left|]. right. split; [done|]. exists hr. split; [|done].
      by destruct (zip ran rs).
    + intros Hw [|i] hr Hi Hl; cbn in Hl; [by injection Hl as <-|]. apply (H4 Hw i); [lia|done].
Qed.

Lemma triggered_hooks_total when hooks :
  Forall (λ hook, Forall targets_ok (hook_triggers hook)) hooks →
  is_Some (triggered_hooks fnmatch h when hooks).
Proof.
  induction 1 as [|hook hooks Ht Hts [l Hl]]; [by eexists|]. cbn [triggered_hooks].
  destruct (_ =? _); [|by rewrite Hl].
  destruct (triggered_loop_spec fnmatch h _ hook false Ht) as (found & b & Htr & _).
  unfold alpm_hook_triggered. rewrite Htr. cbn. rewrite Hl. by eexists.
Qed.

Lemma fire_cmd when hook hook' :
  alpm_hook_validate hook = 0 → fire when hook = Some hook' → is_Some (hook_cmd hook').
Proof.
  unfold fire, alpm_hook_validate, alpm_hook_triggered. intros Hv.
  destruct (hook_when hook =? when); [|done].
  destruct (triggered_loop _ _ _ _ _) as [[x []]|] eqn:E; [|done..]. intros [= <-]. pose proof (triggered_same _ _ _ _ _ E) as [l ->].
  destruct (hook_triggers hook) as [|t ts]; [done|]. cbn. destruct (hook_cmd hook); [by eexists|].
  by rewrite orb_true_r in Hv.
Qed.

Lemma run_hooks_total when hooks w ret :
  Forall (λ hook, is_Some (hook_cmd hook)) hooks →
  is_Some (run_hooks run_chroot h when hooks w ret).
Proof.
  intros Hc. revert w ret. induction Hc as [|hook hooks [cmd Hc] Hcs IH]; intros w ret; [by eexists|].
  cbn [run_hooks].
  assert (∃ wr, alpm_hook_run_hook run_chroot h hook w = Some wr) as [[w1 r1] ->].
  { unfold alpm_hook_run_hook. rewrite Hc. by destruct (negb (forallb _ _)); eexists. }
  cbn. destruct (_ && _); [by eexists|apply IH].
Qed.
End run_facts.

(** ** Theorems *)

(** C25. A hook is triggered exactly when one of its triggers fires: a package trigger
    on a package name that the transaction installs, upgrades, or removes without
    replacing it; a path trigger on a path that is installed (and not in
    NoExtract), installed and removed, or only removed. A path that the transaction
    installs and does not remove counts as installed, also when a file is already
    there (the manual calls that an upgrade). A hook with NeedsTargets
    then gets, on its standard input, each name on which a trigger fires on one
    line, once, in the order of strcmp. *)
Theorem hook_triggered_correct (fnmatch : cstr → cstr → bool) (h : alpm_handle_t) (hook : alpm_hook_t) :
  Forall targets_ok (hook_triggers hook) → hook_matches hook = [] →
  ∃ hook' b, alpm_hook_triggered fnmatch h hook = Some (hook', b) ∧
  (b = true ↔ ∃ t n, t ∈ hook_triggers hook ∧ fires fnmatch h t n) ∧
  StronglySorted (λ a b, strcmp a b < 0) (hook_targets hook') ∧
  (hook_needs_targets hook = true →
   ∀ n, n ∈ hook_targets hook' ↔ ∃ t, t ∈ hook_triggers hook ∧ fires fnmatch h t n).
Proof.
  intros Ht Hm. unfold alpm_hook_triggered.
  destruct (triggered_loop_spec fnmatch h _ hook false Ht) as (found & b & -> & Hb & Hn).
  eexists _, b. split; [done|]. split; [rewrite Hb; naive_solver|].
  destruct (hook_targets_spec (with_matches (hook_matches hook ++ found) hook)) as [H1 H2].
  split; [done|]. intros E. rewrite E in Hn. intros n. rewrite H2, Hm. apply Hn.
Qed.

(** The hook of a name comes from the last directory of hookdirs that has a
    usable file of that name, and from no other; the hooks read have different
    names that end in .hook. *)
Theorem hook_override (files : hook_files) (fs : fsys) (dirs : list cstr) hooks ret :
  read_hookdirs files fs (reverse dirs) ([], 0) = Some (hooks, ret) →
  NoDup (map hook_name hooks) ∧ Forall (λ x, is_hook_file (hook_name x) = true) hooks ∧
  ∀ n, find_hook hooks n = last (omap (dir_hook files fs n) dirs).
Proof.
  intros H. apply read_all_hooks in H as ([H1 H2] & H3 & _).
  split; [done|]. split; [eapply Forall_impl; [done|by intros x [Hx _]]|done].
Qed.

Lemma find_hook_elem hooks hook :
  names_ok hooks → hook ∈ hooks → find_hook hooks (hook_name hook) = Some hook.
Proof.
  intros [Hn _] Hin. induction hooks as [|y hooks IH]; [set_solver|]. cbn in *. apply NoDup_cons in Hn as [Hy Hn].
  apply elem_of_cons in Hin as [->|Hin]; [by rewrite streq_refl|].
  rewrite (proj2 (streq_false _ _)); [by apply IH|]. intros E. apply Hy. rewrite E.
  by apply (list_elem_of_fmap_2 hook_name).
Qed.

(** The hooks that are to run: those of the last directory that has a usable file
    of the name, when their time has come and the transaction triggers them. *)
Definition due (fnmatch : cstr → cstr → bool) (files : hook_files) (fs : fsys) (h : alpm_handle_t) (when : Z)
    (x : alpm_hook_t) : Prop :=
  ∃ n hook, last (omap (dir_hook files fs n) (h_hookdirs h)) = Some hook ∧ fire fnmatch h when hook = Some x.

Lemma found_hooks fnmatch h when hooks (f : cstr → option alpm_hook_t) :
  names_ok hooks → (∀ n, find_hook hooks n = f n) →
  ∀ x, (∃ hook, hook ∈ hooks ∧ fire fnmatch h when hook = Some x) ↔
       ∃ n hook, f n = Some hook ∧ fire fnmatch h when hook = Some x.
Proof.
  intros Hok Hf x. setoid_rewrite <-Hf. split.
  - intros (hook & Hin & Hx). exists (hook_name hook), hook. split; [by apply find_hook_elem|done].
  - intros (n & hook & Hh & Hx). exists hook. split; [|done].
    unfold find_hook in Hh. by apply find_first_Some in Hh as [? _].
Qed.

(** C23. Running the hooks of a transaction, when no option line of a hook file lacks
    its value. When a hook directory cannot be opened or read, a path is too long
    or a hook file that no later directory overrides is not valid,
    pre-transaction hooks are not run at all, and the result is -1. Otherwise the
    hooks of that time that are triggered, of the last directory that has a usable
    file of their name, run in the order of their names without suffix, each once;
    before the transaction the first failure of a hook with AbortOnFail is the last
    run, after it every hook runs, and the result is -1 exactly when something
    could not be used or such a hook failed. *)
Theorem hook_run_correct {W} (fnmatch : cstr → cstr → bool) (files : hook_files)
    (run_chroot : W → option cstr → list cstr → option (list cstr) → W * Z)
    (fs : fsys) (h : alpm_handle_t) (when : Z) (w : W) :
  hooks_defined files fs (h_hookdirs h) →
  let unusable := hooks_unusable files fs (h_hookdirs h) in
  ∃ w' r, alpm_hook_run fnmatch files run_chroot fs h when w = Some (w', r) ∧
  ((when = ALPM_HOOK_PRE_TRANSACTION ∧ unusable) ∧ w' = w ∧ r = -1 ∨
   ~ (when = ALPM_HOOK_PRE_TRANSACTION ∧ unusable) ∧
   ∃ ran skipped rs ret,
     (ret = -1 ∧ unusable ∨ ret = 0 ∧ ~ unusable) ∧
     StronglySorted (λ a b, stem_cmp a b < 0) (ran ++ skipped) ∧
     (∀ x, x ∈ ran ++ skipped ↔ due fnmatch files fs h when x) ∧
     run_all h run_chroot ran w = Some (w', rs) ∧ run_until when ret ran skipped rs r).
Proof.
  intros Hdef unusable. destruct (read_hookdirs_total files fs (reverse (h_hookdirs h)) ([], 0)) as [[hooks ret] Hread].
  { intros d n data Hd. apply Hdef. by apply elem_of_reverse. }
  unfold alpm_hook_run. rewrite Hread. cbn [mbind option_bind].
  apply read_all_hooks in Hread as (Hok & Hf & Hret).
  destruct (negb (ret =? 0) && (when =? ALPM_HOOK_PRE_TRANSACTION)) eqn:E.
  { exists w, ret. split; [done|]. left. apply andb_true_iff in E as [E1%negb_true_iff E2%Z.eqb_eq].
    destruct Hret as [[-> ?]|[-> _]]; done. }
  assert (~ (when = ALPM_HOOK_PRE_TRANSACTION ∧ unusable)) as Hno.
  { intros [-> Hu]. destruct Hret as [[-> _]|[_ ?]]; done. }
  destruct (sorted_hooks hooks Hok) as [Hs Hp]. set (sorted := alpm_list_msort _ _ _) in *.
  assert (Forall (λ hook, Forall targets_ok (hook_triggers hook)) hooks) as Ht.
  { apply Forall_forall. intros hook Hin.
    eapply (dir_hook_targets files fs (h_hookdirs h) (hook_name hook)); [done|]. rewrite <-Hf.
    by apply find_hook_elem. }
  destruct (triggered_hooks_total fnmatch h when sorted) as [l Hl]; [by rewrite Hp|].
  rewrite Hl. apply triggered_hooks_spec in Hl as ->. cbn [mbind option_bind].
  destruct (run_hooks_total h run_chroot when (omap (fire fnmatch h when) sorted) w ret) as [[w' r] Hr].
  { apply Forall_forall. intros x (hook & Hh & Hx)%list_elem_of_omap. rewrite Hp in Hh.
    eapply fire_cmd; [|done]. destruct Hok as [_ Hok]. rewrite Forall_forall in Hok. by apply Hok. }
  exists w', r. split; [done|]. right. split; [done|].
  apply run_hooks_spec in Hr as (ran & skipped & rs & Heq & Hall & Hu); [|intros ->; naive_solver|naive_solver].
  exists ran, skipped, rs, ret. rewrite <-Heq. split; [done|]. split; [by apply fire_sorted|].
  split; [|done]. intros x. rewrite list_elem_of_omap. setoid_rewrite Hp. by apply found_hooks.
Qed.

(** The commands run through _alpm_run_chroot, with _alpm_hook_feed_targets as the
    callback for their standard input; [exec] is what the system does. *)
Definition chroot_runner {W} (exec : W → option cstr → list cstr → option (list cstr) → W * chroot_sys)
    (w : W) (cmd : option cstr) (argv : list cstr) (stdin : option (list cstr)) : W * Z :=
  let '(w, sys) := exec w cmd argv stdin in
  (w, (alpm_run_chroot stdin sys).2).

(** ** Examples *)
Definition ex_hook_text (exec : String.string) : cstr :=
  str "[Trigger]" ++ [newline] ++ str "Type = Package" ++ [newline] ++ str "Operation = Install"
  ++ [newline] ++ str "Target = v*" ++ [newline] ++ str "[Action]" ++ [newline]
  ++ str "When = PreTransaction" ++ [newline] ++ str "AbortOnFail" ++ [newline] ++ str "NeedsTargets"
  ++ [newline] ++ str "Exec = " ++ str exec.

Definition ex_hook_fs : fsys :=
  list_to_map [(str "/a", NDir); (str "/b", NDir);
    (str "/a/10.hook", NFile (ex_hook_text "/bin/one a")); (str "/a/20.hook", NFile (ex_hook_text "/bin/false"));
    (str "/b/10.hook", NFile (ex_hook_text "/bin/two 'x y'")); (str "/b/30.hook", NFile (ex_hook_text "/bin/three"))].

Definition ex_files : hook_files := mk_hook_files (λ _, false) (λ _, false) (λ _, None).

(** Patterns that end in *. *)
Definition ex_glob (pattern s : cstr) : bool := is_prefix (removelast pattern) s.

Definition ex_hook_handle : alpm_handle_t :=
  let h := set_trans (Some (mk_trans 0 STATE_COMMITTING []
             [simple_pkg 1 (str "vim") (str "9-1") [] [] [] ALPM_PKG_REASON_EXPLICIT;
              simple_pkg 2 (str "vi") (str "1-1") [] [] [] ALPM_PKG_REASON_EXPLICIT] [] []))
             (set_db_local (list_db (str "local") DB_STATUS_LOCAL []) empty_handle) in
  set_hookdirs [str "/a/"; str "/b/"] h.

(** The commands that were run, with their standard input; /bin/false fails. *)
Definition ex_run (w : list (list cstr * option (list cstr))) (cmd : option cstr) (argv : list cstr)
    (stdin : option (list cstr)) : list (list cstr * option (list cstr)) * Z :=
  (w ++ [(argv, stdin)], match cmd with Some cmd => if streq cmd (str "/bin/false") then 1 else 0 | None => 1 end).

(** The directory /b/ overrides 10.hook; 20.hook fails, so 30.hook is not run. *)
Example hook_run_example :
  alpm_hook_run ex_glob ex_files ex_run ex_hook_fs ex_hook_handle ALPM_HOOK_PRE_TRANSACTION [] =
  Some ([([str "/bin/two"; str "x y"], Some [str "vi"; str "vim"]);
         ([str "/bin/false"], Some [str "vi"; str "vim"])], -1).
Proof. vm_compute. reflexivity. Qed.

Definition ex_read_hooks : list alpm_hook_t * Z :=
  match read_hookdirs ex_files ex_hook_fs (reverse (h_hookdirs ex_hook_handle)) ([], 0) with
  | Some r => r
  | None => ([], -1)
  end.

Lemma hook_override_witness :
  let hooks := ex_read_hooks.1 in
  NoDup (map hook_name hooks) ∧
  (hook_cmd <$> find_hook hooks (str "10.hook")) = Some (Some [str "/bin/two"; str "x y"]).
Proof.
  destruct (hook_override ex_files ex_hook_fs [str "/a/"; str "/b/"] ex_read_hooks.1 ex_read_hooks.2)
    as (H1 & _ & H2); [vm_compute; reflexivity|].
  split; [exact H1|]. rewrite (H2 (str "10.hook")). vm_compute. reflexivity.
Defined.

Definition ex_hook : alpm_hook_t := hd new_hook ex_read_hooks.1.

Lemma hook_triggered_correct_witness :
  ∃ hook' b, alpm_hook_triggered ex_glob ex_hook_handle ex_hook = Some (hook', b) ∧
  ∀ n, n ∈ hook_targets hook' ↔
       ∃ t, t ∈ hook_triggers ex_hook ∧ fires ex_glob ex_hook_handle t n.
Proof.
  destruct (hook_triggered_correct ex_glob ex_hook_handle ex_hook) as (hook' & b & H1 & _ & _ & H2).
  - vm_compute. repeat constructor. by eexists.
  - vm_compute. reflexivity.
  - exists hook', b. split; [exact H1|]. apply H2. vm_compute. reflexivity.
Defined.

Lemma ex_hooks_defined : hooks_defined ex_files ex_hook_fs (h_hookdirs ex_hook_handle).
Proof.
  intros dir name data _ _ Hf. revert Hf. generalize (dir ++ name). intros path Hf.
  apply elem_of_list_to_map_2 in Hf.
  do 2 (apply elem_of_cons in Hf as [Hf|Hf]; [apply pair_equal_spec in Hf as [-> Hf]; discriminate Hf|]).
  do 4 (apply elem_of_cons in Hf as [Hf|Hf];
    [apply pair_equal_spec in Hf as [-> Hf]; injection Hf as ->; eexists;
     (split; [vm_compute; reflexivity|intros hook [= <-]; repeat constructor; by eexists])|]).
  by apply elem_of_nil in Hf.
Qed.

Lemma hook_run_correct_witness :
  ∃ ran skipped rs, run_all ex_hook_handle ex_run ran [] =
    Some ([([str "/bin/two"; str "x y"], Some [str "vi"; str "vim"]);
           ([str "/bin/false"], Some [str "vi"; str "vim"])], rs) ∧
  run_until ALPM_HOOK_PRE_TRANSACTION 0 ran skipped rs (-1).
Proof.
  destruct (hook_run_correct ex_glob ex_files ex_run ex_hook_fs ex_hook_handle
    ALPM_HOOK_PRE_TRANSACTION [] ex_hooks_defined) as (w' & r & H & Hr).
  rewrite hook_run_example in H. injection H as <- <-.
  destruct Hr as [(_ & E & _)|(Hno & ran & skipped & rs & ret & Hret & _ & _ & Hall & Hu)]; [discriminate E|].
  exists ran, skipped, rs. split; [exact Hall|].
  destruct Hret as [[_ Hbad]|[-> _]]; [destruct Hno; by split|exact Hu].
Defined.
