(* ===== verification/Commit.v ===== *)
(** * Committing a transaction

    lib/libalpm/remove.c (_alpm_remove_single_package, _alpm_remove_packages),
    add.c (commit_single_pkg, _alpm_upgrade_packages) and sync.c
    (check_pkg_matches_db, load_packages, _alpm_sync_check, _alpm_sync_commit):
    the files go through FileOps, the package cache through Db, the database
    entries on disk through LocalDb and LocalDir. Scriptlets, archives and signals
    are in [commit_env].
    The updates commit_single_pkg makes to a target are only read through the
    copy that enters the cache. *)
From S2P Require Import Prelude CString AlpmList Util Package PkgHash Handle Deps FileList Conflict.
From S2P Require Import Remove Db Sync FileOps LocalDb LocalDir.
Local Open Scope Z_scope.

Record commit_env := mk_commit_env {
  ce_env : alpm_env;
  ce_sys : os;
  ce_scriptlet : string → alpm_pkg_t → fsys → fsys;          (* the programs a scriptlet runs *)
  ce_archive : alpm_pkg_t → option (list archive_entry);      (* _alpm_open_archive, its entries *)
  ce_chdir : bool;                                            (* chdir to the root succeeds *)
  ce_ldconfig : fsys → fsys;
  ce_time : Z;                                                (* get_install_time *)
  ce_signal : alpm_pkg_t → bool         (* alpm_trans_interrupt runs while this package is processed *)
}.

Definition handle_root (h : alpm_handle_t) : cstr :=
  match o_root (h_options h) with Some r => r | None => [] end.
Definition local_path (h : alpm_handle_t) : cstr :=
  match alpm_db_path h (h_db_local h) with Some p => p | None => [] end.

Section commit.
Context (ce : commit_env).

(** ** Removal *)
Definition scriptlet (h : alpm_handle_t) (name : string) (pkg : alpm_pkg_t) (fs : fsys) : fsys :=
  if negb (pkg_scriptlet pkg =? 0) && negb (has_flag (trans_flags h) ALPM_TRANS_FLAG_NOSCRIPTLET)
  then ce_scriptlet ce name pkg fs else fs.

Definition on_remove (newpkg : option alpm_pkg_t) (f : fsys → fsys) (fs : fsys) : fsys :=
  match newpkg with Some _ => fs | None => f fs end.

(** _alpm_remove_single_package, which returns 0. *)
Definition alpm_remove_single_package (h : alpm_handle_t) (oldpkg : alpm_pkg_t)
    (newpkg : option alpm_pkg_t) (fs : fsys) : option (alpm_handle_t * fsys) :=
  let fs := on_remove newpkg (scriptlet h "pre_remove" oldpkg) fs in
  match (if negb (has_flag (trans_flags h) ALPM_TRANS_FLAG_DBONLY)
         then '(h, fs, _) ← remove_package_files (ce_sys ce) (ce_env ce) h (handle_root h) oldpkg
                              newpkg fs; Some (h, fs)
         else Some (h, fs)) with
  | None => None
  | Some (h, fs) =>
      let fs := on_remove newpkg (scriptlet h "post_remove" oldpkg) fs in
      let fs := (alpm_local_db_remove (ce_sys ce) (local_path h) oldpkg fs).1 in
      Some (set_db_local (alpm_db_remove_pkgfromcache (h_db_local h) oldpkg).1 h, fs)
  end.

Definition interrupted (h : alpm_handle_t) : bool :=
  match h_trans h with Some t => bool_decide (t_state t = STATE_INTERRUPTED) | None => false end.

(** A signal that arrives while [pkg] is processed. *)
Definition signal (pkg : alpm_pkg_t) (h : alpm_handle_t) : alpm_handle_t :=
  if ce_signal ce pkg then upd_trans (with_state STATE_INTERRUPTED) h else h.

(** The loop of _alpm_remove_packages; a package that is removed returns 0. *)
Fixpoint remove_loop (run_ldconfig : bool) (targets : list alpm_pkg_t) (h : alpm_handle_t)
    (fs : fsys) : option (alpm_handle_t * fsys * Z) :=
  match targets with
  | [] => Some (h, if run_ldconfig then ce_ldconfig ce fs else fs, 0)
  | pkg :: targets' =>
      if interrupted h then Some (h, fs, 0)
      else
        match alpm_remove_single_package h pkg None fs with
        | None => None
        | Some (h, fs) => remove_loop run_ldconfig targets' (signal pkg h) fs
        end
  end.

Definition alpm_remove_packages (run_ldconfig : bool) (h : alpm_handle_t) (fs : fsys) :=
  remove_loop run_ldconfig (trans_remove h) h fs.

(** ** Installation *)
Definition with_install (reason : alpm_pkgreason_t) (installdate : Z) (p : alpm_pkg_t)
    : alpm_pkg_t :=
  mk_pkg (pkg_addr p) (pkg_name_hash p) (pkg_filename p) (pkg_base p) (pkg_name p)
    (pkg_version p) (pkg_desc p) (pkg_url p) (pkg_packager p) (pkg_sha256sum p)
    (pkg_base64_sig p) (pkg_arch p) (pkg_builddate p) installdate (pkg_size p)
    (pkg_isize p) (pkg_download_size p) (pkg_licenses p) (pkg_replaces p) (pkg_groups p)
    (pkg_backup p) (pkg_depends p) (pkg_optdepends p) (pkg_checkdepends p)
    (pkg_makedepends p) (pkg_conflicts p) (pkg_provides p) (pkg_removes p) (pkg_oldpkg p)
    (pkg_files p) (pkg_origin p) reason (pkg_scriptlet p) (pkg_xdata p) (pkg_infolevel p)
    (pkg_validation p).

(** The reason a target is installed with: that of the version it replaces,
    unless a flag overrides it. *)
Definition install_reason (flags : Z) (oldpkg : option alpm_pkg_t) (newpkg : alpm_pkg_t)
    : alpm_pkgreason_t :=
  if has_flag flags ALPM_TRANS_FLAG_ALLDEPS then ALPM_PKG_REASON_DEPEND
  else if has_flag flags ALPM_TRANS_FLAG_ALLEXPLICIT then ALPM_PKG_REASON_EXPLICIT
  else match oldpkg with Some o => pkg_reason o | None => pkg_reason newpkg end.

(** The extraction loops: the package with its new digests and the errors. *)
Fixpoint extract_entries (h : alpm_handle_t) (oldpkg : option alpm_pkg_t)
    (entries : list archive_entry) (newpkg : alpm_pkg_t) (fs : fsys) (errors : Z)
    : fsys * alpm_pkg_t * Z :=
  match entries with
  | [] => (fs, newpkg, errors)
  | e :: entries' =>
      let '(fs, newpkg, n) :=
        if has_flag (trans_flags h) ALPM_TRANS_FLAG_DBONLY then
          if Ascii.eqb (hd_chr (ent_path e)) "."%char
          then let '(fs, n) := extract_db_file (ce_sys ce) (local_path h) e newpkg fs in
               (fs, newpkg, n)
          else (fs, newpkg, 0)
        else extract_single_file (ce_sys ce) (ce_env ce) h (handle_root h) (local_path h) e newpkg
               oldpkg fs in
      extract_entries h oldpkg entries' newpkg fs (errors + n)
  end.

(** commit_single_pkg *)
Definition commit_single_pkg (h : alpm_handle_t) (newpkg : alpm_pkg_t) (fs : fsys)
    : option (alpm_handle_t * fsys * Z) :=
  let oldpkg :=
    if is_some (alpm_db_get_pkgfromcache (h_db_local h) (pkg_name newpkg))
    then pkg_oldpkg newpkg else None in
  let is_upgrade := is_some oldpkg in
  let flags := trans_flags h in
  let fs := scriptlet h (if is_upgrade then "pre_upgrade" else "pre_install") newpkg fs in
  let reason := install_reason flags oldpkg newpkg in
  match (match oldpkg with
         | Some o => alpm_remove_single_package h o (Some newpkg) fs
         | None => Some (h, fs)
         end) with
  | None => None
  | Some (h, fs) =>
      let '(fs, prepared) := alpm_local_db_prepare (ce_sys ce) (local_path h) newpkg fs in
      if negb (prepared =? 0) then Some (set_errno ALPM_ERR_DB_WRITE h, fs, -1)
      else
        match ce_archive ce newpkg with
        | None => Some (set_errno ALPM_ERR_PKG_OPEN h, fs, -1)
        | Some entries =>
            if negb (ce_chdir ce) then Some (h, fs, -1)
            else
              let '(fs, newpkg, errors) := extract_entries h oldpkg entries newpkg fs 0 in
              let ret := if errors =? 0 then 0 else -1 in
              let newpkg := with_install reason (ce_time ce) newpkg in
              let '(fs, written) := alpm_local_db_write (ce_sys ce) (local_path h) (h_db_local h)
                                      newpkg INFRQ_ALL fs in
              if negb (written =? 0) then Some (set_errno ALPM_ERR_DB_WRITE h, fs, -1)
              else
                let '(h, db, _) := alpm_db_add_pkgincache h (h_db_local h) newpkg in
                let h := set_db_local db h in
                let fs := scriptlet h (if is_upgrade then "post_upgrade" else "post_install")
                            newpkg fs in
                Some (h, fs, ret)
        end
  end.

(** The loop of _alpm_upgrade_packages. *)
Fixpoint upgrade_loop (targets : list alpm_pkg_t) (h : alpm_handle_t) (fs : fsys) (ret : Z)
    : option (alpm_handle_t * fsys * Z) :=
  match targets with
  | [] => Some (h, if ret =? 0 then ce_ldconfig ce fs else fs, ret)
  | newpkg :: targets' =>
      if interrupted h then Some (h, fs, ret)
      else
        match commit_single_pkg h newpkg fs with
        | None => None
        | Some (h, fs, rc) =>
            let h := signal newpkg h in
            if rc =? 0 then upgrade_loop targets' h fs ret
            else upgrade_loop targets'
                   (set_errno ALPM_ERR_TRANS_ABORT (upd_trans (with_state STATE_INTERRUPTED) h))
                   fs (-1)
        end
  end.

Definition alpm_upgrade_packages (h : alpm_handle_t) (fs : fsys) :=
  match trans_add h with
  | [] => Some (h, fs, 0)
  | add => upgrade_loop add h fs 0
  end.

Definition alpm_sync_commit (h : alpm_handle_t) (fs : fsys) : option (alpm_handle_t * fsys * Z) :=
  match (match trans_remove h with
         | [] => Some (h, fs, 0)
         | _ => alpm_remove_packages false h fs
         end) with
  | None => None
  | Some (h, fs, rc) => if rc =? -1 then Some (h, fs, -1) else alpm_upgrade_packages h fs
  end.
End commit.

(** ** Facts: the local database *)

(** The local database is loaded and consistent. *)
Record db_ready (h : alpm_handle_t) : Prop := {
  rd_ok : db_ok (h_db_local h);
  rd_addrs : addrs_ok 0 h (h_db_local h);
  rd_loaded : is_Some (db_pkgcache (h_db_local h));
  rd_valid : has_flag (db_status (h_db_local h)) DB_STATUS_VALID = true
}.

Definition installed (h : alpm_handle_t) : list alpm_pkg_t := alpm_db_get_pkgcache (h_db_local h).

Lemma ready_cache h : db_ready h → PkgCache (h_db_local h).
Proof. intros [[? _ _ _] _ _ _]. by apply db_inv_cache. Qed.

Lemma ready_packages h : db_ready h → installed h = db_packages (h_db_local h).
Proof.
  intros [_ _ _ Hv]. unfold installed, alpm_db_get_pkgcache, alpm_db_get_pkgcache_hash, db_packages.
  by rewrite Hv.
Qed.

Lemma ready_frame h h' :
  db_ready h → h_db_local h' = h_db_local h → (h_next h <= h_next h')%nat → db_ready h'.
Proof.
  intros [H1 [_ H2] H3 H4] E Hn. split; rewrite ?E; [done| |done|done]. split; [lia|].
  eapply Forall_impl; [exact H2|]. intros p Hp. simpl in *. lia.
Qed.

Lemma free_groupcache_valid db :
  has_flag (db_status (free_groupcache db)) DB_STATUS_VALID = has_flag (db_status db) DB_STATUS_VALID ∧
  db_pkgcache (free_groupcache db) = db_pkgcache db.
Proof.
  unfold free_groupcache. destruct (negb _); [done|]. cbn. by flags.
Qed.

(** The effect of _alpm_db_remove_pkgfromcache. *)
Lemma remove_ready h p :
  db_ready h → pkg_hash_ok p →
  let h' := set_db_local (alpm_db_remove_pkgfromcache (h_db_local h) p).1 h in
  db_ready h' ∧ ∀ q, q ∈ installed h' ↔ q ∈ installed h ∧ pkg_name q ≠ pkg_name p.
Proof.
  intros Hr Hp. pose proof Hr as [Hok Ha Hl Hv].
  pose proof (@cache_hashes _ (ready_cache _ Hr)) as Hh.
  pose proof (@cache_names _ (ready_cache _ Hr)) as Hnd. fold (installed h) in Hh, Hnd.
  destruct (alpm_db_remove_pkgfromcache (h_db_local h) p) as [db' rc] eqn:E.
  destruct (remove_pkgfromcache_ok 0 h _ _ _ _ Hok Ha Hp E) as (Hok' & Ha' & H0 & Hn0). simpl.
  set (h' := set_db_local db' h).
  assert (is_Some (db_pkgcache db') ∧ has_flag (db_status db') DB_STATUS_VALID = true) as [Hl' Hv'].
  { unfold alpm_db_remove_pkgfromcache in E. destruct (negb _); [by injection E as <- _|].
    destruct (db_pkgcache (h_db_local h)) as [hash|] eqn:Ec; [|by destruct Hl].
    destruct (alpm_pkghash_remove hash p) as [[hash' [i|]]|]; injection E as <- _.
    - destruct (free_groupcache_valid (db_set_caches (Some hash') (db_grpcache (h_db_local h))
        (db_status (h_db_local h)) (h_db_local h))) as [-> ->]. cbn. eauto.
    - cbn. eauto.
    - rewrite Ec. eauto. }
  assert (db_ready h') as Hr' by (split; [done|exact Ha'|done|done]). split; [done|].
  intros q. rewrite (ready_packages _ Hr'), (ready_packages _ Hr) in *.
  change (db_packages (h_db_local h')) with (db_packages db').
  destruct (decide (rc = 0)) as [E0|E0].
  - destruct (remove_perm _ _ _ _ Hok Hp E E0) as (info & Hin & Hperm). rewrite Hperm in Hnd |- *.
    simpl in Hnd. apply NoDup_cons in Hnd as [Hnd _]. rewrite elem_of_cons, <-Hin. split.
    + intros Hq. split; [by right|]. intros Eq. apply Hnd. rewrite <-Eq. by apply list_elem_of_fmap_2.
    + intros [[->|?] ?]; done.
  - rewrite (Hn0 E0). split; [|by intros [? _]]. intros Hq. split; [done|]. intros Eq.
    by apply (remove_absent _ _ _ _ Hok Hl Hp E E0 q Hq).
Qed.

(** The effect of _alpm_db_add_pkgincache. *)
Lemma add_ready h p :
  db_ready h → pkg_hash_ok p → pkg_name p ∉ map pkg_name (installed h) →
  Z.of_nat (length (installed h)) < 414054 →
  let '(h1, db, _) := alpm_db_add_pkgincache h (h_db_local h) p in
  let h' := set_db_local db h1 in
  db_ready h' ∧ h_trans h' = h_trans h ∧
  installed h' ≡ₚ cache_copy (h_next h) (h_db_local h) p :: installed h.
Proof.
  intros Hr Hp Hn Hlen. pose proof Hr as [Hok Ha Hl Hv]. rewrite (ready_packages _ Hr) in *.
  destruct (alpm_db_add_pkgincache h (h_db_local h) p) as [[h1 db] rc] eqn:E.
  destruct (add_perm _ _ _ _ _ _ Hok Ha Hl Hp Hn Hlen E) as (-> & Hl' & Hv' & Hperm).
  destruct (add_pkgincache_ok 0 _ _ _ _ _ _ Hok Ha Hp Hn E) as (Hok' & Ha' & _).
  assert (db_ready (set_db_local db (set_next (S (h_next h)) h))) as Hr'
    by (split; [done|exact Ha'|done|by etrans; [exact Hv'|]]).
  split_and!; [done|done|]. by rewrite (ready_packages _ Hr').
Qed.

(** ** Facts: one package *)

(** Packages whose recorded digests are there, so that removing them compares no
    NULL pointer. *)
Definition digests_ok (p : alpm_pkg_t) : Prop :=
  Forall (λ b, is_Some (backup_hash b)) (pkg_backup p).

Lemma needbackup_digest name p b :
  digests_ok p → alpm_needbackup name p = Some b → is_Some (backup_hash b).
Proof.
  unfold digests_ok, alpm_needbackup. intros Hd Hb. apply find_some in Hb as [Hb _].
  rewrite Forall_forall in Hd. by apply Hd, list_elem_of_In.
Qed.

Lemma unlink_files_total (sys : os) (env : alpm_env) (h : alpm_handle_t) (root : cstr)
    (oldpkg : alpm_pkg_t) (newpkg : option alpm_pkg_t) (nosave : bool) (files : list alpm_file_t) (fs : fsys) err :
  digests_ok oldpkg →
  is_Some (unlink_files sys env h root oldpkg newpkg nosave files fs err).
Proof.
  intros Hd. revert fs err. induction files as [|f files IH]; intros fs err; simpl; [done|].
  destruct (should_skip_file _ _ _ _); [apply IH|].
  assert (is_Some (unlink_file sys h root oldpkg newpkg f nosave fs)) as [[fs' rc] ->]; [|apply IH].
  unfold unlink_file. destruct (_ || _); [done|]. destruct (lstat _ _) as [[|]|]; [done| |done].
  unfold unlink_regular. destruct (alpm_needbackup _ _) as [b|] eqn:Eb; [|done].
  destruct nosave; [done|]. destruct (alpm_compute_md5sum _ _ _); [|done].
  destruct (needbackup_digest _ _ _ Hd Eb) as [hash ->]. by destruct (negb _).
Qed.

Section commits.
Context (ce : commit_env).

(** Steps that leave the local database, the transaction and the options as they
    are, and may set the error code. *)
Definition quiet (h h' : alpm_handle_t) : Prop := ∃ e, h' = set_errno e h.

Lemma remove_files_total h root oldpkg newpkg fs :
  digests_ok oldpkg →
  ∃ h' fs' err, remove_package_files (ce_sys ce) (ce_env ce) h root oldpkg newpkg fs
                  = Some (h', fs', err) ∧ quiet h h'.
Proof.
  intros Hd. unfold remove_package_files. destruct (negb _).
  { eexists _, fs, _. split; [done|]. by eexists. }
  destruct (unlink_files_total (ce_sys ce) (ce_env ce) h root oldpkg newpkg
    (has_flag (trans_flags h) ALPM_TRANS_FLAG_NOSAVE) (reverse (pkg_files oldpkg)) fs 0 Hd)
    as [[fs' err] ->].
  exists h, fs', err. split; [done|]. exists (h_pm_errno h). by destruct h.
Qed.

Lemma remove_single_spec h oldpkg newpkg fs :
  db_ready h → pkg_hash_ok oldpkg → digests_ok oldpkg →
  ∃ h' fs', alpm_remove_single_package ce h oldpkg newpkg fs = Some (h', fs') ∧
    db_ready h' ∧ h_trans h' = h_trans h ∧
    ∀ q, q ∈ installed h' ↔ q ∈ installed h ∧ pkg_name q ≠ pkg_name oldpkg.
Proof.
  intros Hr Hp Hd. unfold alpm_remove_single_package. cbv zeta.
  set (fs0 := on_remove newpkg _ fs).
  assert (∃ h1 fs1, (if negb (has_flag (trans_flags h) ALPM_TRANS_FLAG_DBONLY)
     then '(h, fs, _) ← remove_package_files (ce_sys ce) (ce_env ce) h (handle_root h) oldpkg
                          newpkg fs0; Some (h, fs)
     else Some (h, fs0)) = Some (h1, fs1) ∧ quiet h h1) as (h1 & fs1 & -> & [e ->]).
  { destruct (negb _).
    - destruct (remove_files_total h (handle_root h) oldpkg newpkg fs0 Hd) as (h1 & fs1 & err & -> & Hq).
      by exists h1, fs1.
    - exists h, fs0. split; [done|]. exists (h_pm_errno h). by destruct h. }
  eexists _, _. split; [done|]. assert (db_ready (set_errno e h)) as Hr1 by (by apply (ready_frame h)).
  destruct (remove_ready (set_errno e h) oldpkg Hr1 Hp) as [H1 H2]. split_and!; [done|done|done].
Qed.

(** What extraction does to the package: only its backup digests change. *)
Lemma extract_entries_same h oldpkg entries p fs n :
  let p' := (extract_entries ce h oldpkg entries p fs n).1.2 in
  same_deps p p' ∧ pkg_reason p' = pkg_reason p.
Proof.
  revert p fs n. induction entries as [|e entries IH]; intros p fs n; simpl; [done|].
  destruct (if has_flag _ _ then _ else _) as [[fs1 p1] n1] eqn:E.
  assert (same_deps p p1 ∧ pkg_reason p1 = pkg_reason p) as [S1 R1].
  { destruct (has_flag _ _).
    - destruct (Ascii.eqb _ _); [|by injection E as _ <- _].
      destruct (extract_db_file _ _ _ _ _). by injection E as _ <- _.
    - unfold extract_single_file in E. destruct (Ascii.eqb _ _).
      { destruct (extract_db_file _ _ _ _ _). by injection E as _ <- _. }
      unfold perform_extraction in E.
      repeat (case_match; simplify_eq); by split. }
  destruct (IH p1 fs1 (n + n1)) as [S2 R2]. split; [by etrans|congruence].
Qed.

Lemma cache_copy_same addr db p : same_deps p (cache_copy addr db p).
Proof. split; cbn; by rewrite ?list_depdup_id. Qed.

(** A target that can be committed: the hash is right, and its old version is
    known when a package of its name is installed. *)
Definition target_ok (h : alpm_handle_t) (p : alpm_pkg_t) : Prop :=
  pkg_hash_ok p ∧
  (pkg_name p ∈ map pkg_name (installed h) →
   ∃ o, pkg_oldpkg p = Some o ∧ pkg_hash_ok o ∧ pkg_name o = pkg_name p ∧ digests_ok o).

(** [p] takes the place of the installed package of its name, if any. *)
Definition installs (p : alpm_pkg_t) (h h' : alpm_handle_t) : Prop :=
  ∃ c, same_deps p c ∧
    ∀ q, q ∈ installed h' ↔ q = c ∨ (q ∈ installed h ∧ pkg_name q ≠ pkg_name p).
Definition drops (p : alpm_pkg_t) (h h' : alpm_handle_t) : Prop :=
  ∀ q, q ∈ installed h' ↔ q ∈ installed h ∧ pkg_name q ≠ pkg_name p.

Lemma installed_length h h' :
  db_ready h → db_ready h' → (∀ q, q ∈ installed h' → q ∈ installed h) →
  (length (installed h') <= length (installed h))%nat.
Proof.
  intros Hr Hr' Hsub. apply NoDup_incl_length.
  - apply NoDup_ListNoDup. eapply NoDup_fmap_1, (@cache_names _ (ready_cache _ Hr')).
  - intros q Hq%list_elem_of_In. by apply list_elem_of_In, Hsub.
Qed.

(** The first part of commit_single_pkg: the old version goes. *)
Lemma remove_old_spec h p fs :
  db_ready h → target_ok h p →
  let oldpkg := if is_some (alpm_db_get_pkgfromcache (h_db_local h) (pkg_name p))
                then pkg_oldpkg p else None in
  ∃ h' fs', (match oldpkg with
             | Some o => alpm_remove_single_package ce h o (Some p) fs
             | None => Some (h, fs)
             end) = Some (h', fs') ∧
    db_ready h' ∧ h_trans h' = h_trans h ∧ drops p h h'.
Proof.
  intros Hr (Hp & Hin). pose proof (ready_cache h Hr) as Hc.
  destruct (alpm_db_get_pkgfromcache (h_db_local h) (pkg_name p)) as [l|] eqn:El; simpl.
  - apply cache_lookup_Some in El as [El En]; [|done].
    destruct Hin as (o & Eo & Hoh & Hon & Hod); [rewrite <-En; by apply list_elem_of_fmap_2|].
    rewrite Eo.
    destruct (remove_single_spec h o (Some p) fs Hr Hoh Hod) as (h' & fs' & -> & ? & ? & Hq).
    exists h', fs'. split_and!; [done..|]. unfold drops. by rewrite <-Hon.
  - apply cache_lookup_None in El; [|done]. exists h, fs. split_and!; [done..|].
    intros q. split; [|by intros [? _]]. intros Hq. split; [done|]. intros E. apply El.
    rewrite <-E. by apply list_elem_of_fmap_2.
Qed.

Lemma commit_single_spec h p fs :
  db_ready h → target_ok h p → Z.of_nat (length (installed h)) < 414054 →
  ∃ h' fs' rc, commit_single_pkg ce h p fs = Some (h', fs', rc) ∧
    db_ready h' ∧ h_trans h' = h_trans h ∧
    (length (installed h') <= S (length (installed h)))%nat ∧
    (installs p h h' ∨ drops p h h') ∧ (rc = 0 → installs p h h').
Proof.
  intros Hr Ht Hlen. unfold commit_single_pkg. cbv zeta.
  set (oldpkg := if is_some _ then pkg_oldpkg p else None). set (fs0 := scriptlet _ _ _ _ _).
  destruct (remove_old_spec h p fs0 Hr Ht) as (h1 & fs1 & E1 & Hr1 & Ht1 & Hd1).
  fold oldpkg in E1. rewrite E1. clear E1.
  assert (length (installed h1) <= length (installed h))%nat as Hl1
    by (apply installed_length; [done|done|]; intros q Hq; by apply Hd1 in Hq as [? _]).
  assert (∀ e (fs2 : fsys) (rc : Z), rc ≠ 0 → ∃ h' fs' rc', Some (set_errno e h1, fs2, rc) = Some (h', fs', rc') ∧
    db_ready h' ∧ h_trans h' = h_trans h ∧
    (length (installed h') <= S (length (installed h)))%nat ∧
    (installs p h h' ∨ drops p h h') ∧ (rc' = 0 → installs p h h')) as Hfail.
  { intros e fs2 rc Hrc. exists (set_errno e h1), fs2, rc. split_and!; [done|by apply (ready_frame h1)|done| |by right|done].
    change (installed (set_errno e h1)) with (installed h1). lia. }
  destruct (alpm_local_db_prepare _ _ p fs1) as [fs2 prepared].
  destruct (prepared =? 0); cbn [negb]; [|by apply Hfail].
  destruct (ce_archive ce p) as [entries|]; [|by apply Hfail].
  destruct (ce_chdir ce); cbn [negb].
  2:{ assert (h1 = set_errno (h_pm_errno h1) h1) as E by (by destruct h1).
      pose proof (Hfail (h_pm_errno h1) fs2 (-1) ltac:(done)) as F. by rewrite <-E in F. }
  pose proof (extract_entries_same h1 oldpkg entries p fs2 0) as [S1 _].
  destruct (extract_entries ce h1 oldpkg entries p fs2 0) as [[fs3 p1] errors]. simpl in S1.
  set (p2 := with_install _ _ p1). assert (same_deps p p2) as S2 by (etrans; [exact S1|]; by split).
  destruct (alpm_local_db_write _ _ _ p2 _ fs3) as [fs4 written].
  destruct (written =? 0); cbn [negb]; [|by apply Hfail].
  assert (pkg_hash_ok p2) as Hp2.
  { destruct Ht as [Hp _]. unfold pkg_hash_ok in *. by rewrite (sd_hash _ _ S2), (sd_name _ _ S2). }
  assert (pkg_name p2 ∉ map pkg_name (installed h1)) as Hn2.
  { rewrite (sd_name _ _ S2). intros (q & E & Hq)%list_elem_of_fmap. by apply Hd1 in Hq as [_ ?]. }
  pose proof (add_ready h1 p2 Hr1 Hp2 Hn2 ltac:(lia)) as Hadd.
  destruct (alpm_db_add_pkgincache h1 (h_db_local h1) p2) as [[h2 db] rc2].
  destruct Hadd as (Hr2 & Ht2 & Hperm). set (h3 := set_db_local db h2) in *.
  assert (installs p h h3) as Hi.
  { eexists. split; [etrans; [exact S2|apply cache_copy_same]|]. intros q.
    rewrite Hperm, elem_of_cons. by rewrite (Hd1 q). }
  eexists h3, _, _. split; [done|]. split_and!; [done|congruence| |by left|done].
  rewrite Hperm. simpl. lia.
Qed.
End commits.

(** ** Facts: the loops *)
Section loops.
Context (ce : commit_env).

(** The same transaction, perhaps in another state. *)
Definition same_targets (h h' : alpm_handle_t) : Prop :=
  trans_add h' = trans_add h ∧ trans_remove h' = trans_remove h ∧
  (interrupted h = true → interrupted h' = true).

Lemma same_targets_refl h : same_targets h h.
Proof. by split_and!. Qed.

Lemma same_targets_trans h1 h2 h3 : same_targets h1 h2 → same_targets h2 h3 → same_targets h1 h3.
Proof. intros (A1 & A2 & A3) (B1 & B2 & B3). split_and!; [congruence..|auto]. Qed.

Lemma same_targets_eq h h' : h_trans h' = h_trans h → same_targets h h'.
Proof. intros E. unfold same_targets, trans_add, trans_remove, interrupted. by rewrite E. Qed.

Lemma interrupt_same h : same_targets h (upd_trans (with_state STATE_INTERRUPTED) h).
Proof.
  unfold same_targets, trans_add, trans_remove, interrupted, upd_trans. simpl. by destruct (h_trans h).
Qed.

Lemma signal_ready p h :
  db_ready h → db_ready (signal ce p h) ∧ same_targets h (signal ce p h) ∧
               installed (signal ce p h) = installed h.
Proof.
  intros Hr. unfold signal. destruct (ce_signal ce p).
  - split_and!; [by apply (ready_frame h)|apply interrupt_same|done].
  - split_and!; [done|apply same_targets_refl|done].
Qed.

(** Packages removed, all of them unless the loop was interrupted. *)
Lemma remove_loop_spec ldc targets h fs :
  db_ready h → Forall (λ p, pkg_hash_ok p ∧ digests_ok p) targets →
  ∃ h' fs', remove_loop ce ldc targets h fs = Some (h', fs', 0) ∧
    db_ready h' ∧ same_targets h h' ∧
    (∀ q, q ∈ installed h' → q ∈ installed h) ∧
    (∀ q, q ∈ installed h → pkg_name q ∉ map pkg_name targets → q ∈ installed h') ∧
    (interrupted h' = false → ∀ q, q ∈ installed h' → pkg_name q ∉ map pkg_name targets).
Proof.
  revert h fs. induction targets as [|p targets IH]; intros h fs Hr Ht; simpl.
  { eexists _, _. split_and!; [done|done|apply same_targets_refl|done..|intros; apply not_elem_of_nil]. }
  inversion Ht as [|? ? [Hp Hd] Ht']; subst. destruct (interrupted h) eqn:Ei.
  { exists h, fs. split_and!; [done|done|apply same_targets_refl|done..|congruence]. }
  destruct (remove_single_spec ce h p None fs Hr Hp Hd) as (h1 & fs1 & -> & Hr1 & Et1 & Hq1).
  destruct (signal_ready p h1 Hr1) as (Hr2 & Hs2 & E2).
  destruct (IH (signal ce p h1) fs1 Hr2 Ht') as (h' & fs' & -> & Hr' & Hs' & Hsub & Hkeep & Hall).
  rewrite E2 in *. exists h', fs'. split_and!; [done|done| | | |].
  - eapply same_targets_trans; [by apply same_targets_eq|]. by eapply same_targets_trans.
  - intros q Hq. by apply Hsub, Hq1 in Hq as [? _].
  - intros q Hq Hn. apply not_elem_of_cons in Hn as [Hn1 Hn2]. apply Hkeep; [|done]. by apply Hq1.
  - intros Hi q Hq. apply not_elem_of_cons. split; [|by apply Hall].
    by apply Hsub, Hq1 in Hq as [_ ?].
Qed.

(** Between two states, nothing but targets has come and nothing but packages of
    their names has gone. *)
Definition upgraded (targets : list alpm_pkg_t) (h h' : alpm_handle_t) : Prop :=
  (∀ q, q ∈ installed h' → q ∈ installed h ∨ ∃ p, p ∈ targets ∧ same_deps p q) ∧
  (∀ q, q ∈ installed h → pkg_name q ∉ map pkg_name targets → q ∈ installed h').

Lemma installs_upgraded p targets h h' :
  installs p h h' ∨ drops p h h' → p ∈ targets → upgraded targets h h'.
Proof.
  intros Hcase Hp. split.
  - intros q Hq. destruct Hcase as [(c & Hc & Hi)|Hd].
    + apply Hi in Hq as [->|[? _]]; [right; eauto|by left].
    + apply Hd in Hq as [? _]. by left.
  - intros q Hq Hn. assert (pkg_name q ≠ pkg_name p) as Hne.
    { intros E. apply Hn. rewrite E. by apply list_elem_of_fmap_2. }
    destruct Hcase as [(c & Hc & Hi)|Hd]; [apply Hi; by right|by apply Hd].
Qed.

Lemma upgraded_trans targets h1 h2 h3 :
  upgraded targets h1 h2 → upgraded targets h2 h3 → upgraded targets h1 h3.
Proof.
  intros [A1 A2] [B1 B2]. split.
  - intros q Hq. destruct (B1 q Hq) as [?|?]; auto.
  - intros q Hq Hn. by apply B2, Hn; apply A2.
Qed.

Lemma upgraded_weaken targets targets' h h' :
  (∀ p, p ∈ targets → p ∈ targets') → upgraded targets h h' → upgraded targets' h h'.
Proof.
  intros Hsub [A1 A2]. split.
  - intros q Hq. destruct (A1 q Hq) as [?|(p & ? & ?)]; [by left|right; eauto].
  - intros q Hq Hn. apply A2; [done|]. intros (p & E & Hp)%list_elem_of_fmap. apply Hn.
    rewrite E. by apply list_elem_of_fmap_2, Hsub.
Qed.

Lemma target_ok_after h h' p p0 :
  upgraded [p0] h h' → pkg_name p ≠ pkg_name p0 → target_ok h p → target_ok h' p.
Proof.
  intros [Hu _] Hne (H1 & H3). split; [done|].
  intros (q & E & Hq)%list_elem_of_fmap. apply H3. rewrite E. destruct (Hu q Hq) as [?|(x & Hx & Hs)].
  - by apply list_elem_of_fmap_2.
  - apply list_elem_of_singleton in Hx as ->. by rewrite E, (sd_name _ _ Hs) in Hne.
Qed.

(** Every target is installed, and nothing else under their names. *)
Definition complete_for (targets : list alpm_pkg_t) (h' : alpm_handle_t) : Prop :=
  (∀ p, p ∈ targets → ∃ q, q ∈ installed h' ∧ same_deps p q) ∧
  (∀ q, q ∈ installed h' → pkg_name q ∈ map pkg_name targets → ∃ p, p ∈ targets ∧ same_deps p q).

Lemma complete_cons p targets h1 h2 h' :
  installs p h1 h2 → upgraded targets h2 h' → pkg_name p ∉ map pkg_name targets →
  complete_for targets h' → complete_for (p :: targets) h'.
Proof.
  intros (c & Hc & Hi) [U1 U2] Hn [C1 C2]. split.
  - intros x [->|Hx]%elem_of_cons; [|by apply C1]. exists c. split; [|done].
    apply U2; [apply Hi; by left|]. by rewrite (sd_name _ _ Hc).
  - intros q Hq Hnq. simpl in Hnq. apply elem_of_cons in Hnq as [E|Hnq].
    + destruct (U1 q Hq) as [Hq2|(x & Hx & Hs)].
      * exists p. split; [apply list_elem_of_here|]. by apply Hi in Hq2 as [->|[_ ?]].
      * exists x. split; [by apply list_elem_of_further|done].
    + destruct (C2 q Hq Hnq) as (x & Hx & Hs). exists x. split; [by apply list_elem_of_further|done].
Qed.

Lemma upgrade_loop_spec targets h fs ret :
  db_ready h → Forall (target_ok h) targets → NoDup (map pkg_name targets) →
  Z.of_nat (length (installed h) + length targets) < 414055 →
  ∃ h' fs' rc, upgrade_loop ce targets h fs ret = Some (h', fs', rc) ∧
    db_ready h' ∧ same_targets h h' ∧ upgraded targets h h' ∧ (rc = 0 → ret = 0) ∧
    (rc = 0 → interrupted h' = false → complete_for targets h').
Proof.
  revert h fs ret. induction targets as [|p targets IH]; intros h fs ret Hr Ht Hnd Hlen; simpl.
  { eexists _, _, _. split_and!; [done|done|apply same_targets_refl| |done|].
    - split; [by left|done].
    - intros _ _. split; [by intros p Hp%not_elem_of_nil|by intros q _ Hq%not_elem_of_nil]. }
  destruct (interrupted h) eqn:Ei.
  { exists h, fs, ret. split_and!; [done|done|apply same_targets_refl| |done|congruence].
    split; [by left|done]. }
  inversion Ht as [|? ? Hp Ht']; subst. simpl in Hnd. apply NoDup_cons in Hnd as [Hn Hnd].
  simpl in Hlen. destruct (commit_single_spec ce h p fs Hr Hp) as
    (h1 & fs1 & rc1 & -> & Hr1 & Et1 & Hl1 & Hcase & Hok); [lia|].
  destruct (signal_ready p h1 Hr1) as (Hr2 & Hs2 & E2).
  assert (∀ h2 ret', db_ready h2 → same_targets h1 h2 → installed h2 = installed h1 →
    ∃ h' fs' rc, upgrade_loop ce targets h2 fs1 ret' = Some (h', fs', rc) ∧
      db_ready h' ∧ same_targets h h' ∧ upgraded (p :: targets) h h' ∧ (rc = 0 → ret' = 0) ∧
      (rc = 0 → interrupted h' = false → installs p h h1 → complete_for (p :: targets) h')) as Hnext.
  { intros h2 ret' Hr2' Hs2' Ei2.
    assert (upgraded [p] h h2) as Hu.
    { destruct (installs_upgraded p [p] h h1 Hcase (list_elem_of_here _ _)). split; by rewrite Ei2. }
    destruct (IH h2 fs1 ret') as (h' & fs' & rc & -> & Hr' & Hs' & Hu' & Hret & Hc).
    - done.
    - apply Forall_forall. intros x Hx. rewrite Forall_forall in Ht'.
      apply (target_ok_after h h2 x p); [done| |by apply Ht']. intros E. apply Hn. rewrite <-E.
      by apply list_elem_of_fmap_2.
    - done.
    - rewrite Ei2. lia.
    - exists h', fs', rc. split_and!; [done|done| | |done|].
      + eapply same_targets_trans; [by apply same_targets_eq|]. by eapply same_targets_trans.
      + eapply upgraded_trans; (eapply upgraded_weaken; [|eassumption]).
        * intros x ->%list_elem_of_singleton. apply list_elem_of_here.
        * intros x Hx. by apply list_elem_of_further.
      + intros H0 Hi (c & Hc1 & Hc2). apply (complete_cons p targets h h2); [|done|done|by auto].
        exists c. rewrite Ei2. done. }
  destruct (Z.eqb_spec rc1 0) as [E|E].
  - destruct (Hnext (signal ce p h1) ret Hr2 Hs2 E2) as (h' & fs' & rc & -> & ? & ? & ? & ? & Hc).
    exists h', fs', rc. split_and!; [done..|]. intros ? ?. apply Hc; [done|done|]. by apply Hok.
  - set (h2 := set_errno _ _).
    destruct (Hnext h2 (-1)) as (h' & fs' & rc & -> & ? & ? & ? & Hret & Hc).
    + by apply (ready_frame (signal ce p h1)).
    + eapply same_targets_trans; [exact Hs2|]. apply interrupt_same.
    + exact E2.
    + exists h', fs', rc. split_and!; [done|done|done|done|..]; intros Hz; by apply Hret in Hz.
Qed.
End loops.

(** ** Properties *)

(** What a transaction leaves behind agrees with the plan [system_after]: package by
    package, up to the fields the checks look at. *)
Definition mirrors (h h' : alpm_handle_t) : Prop :=
  (∀ p, p ∈ system_after h → ∃ q, q ∈ installed h' ∧ same_deps p q) ∧
  (∀ q, q ∈ installed h' → ∃ p, p ∈ system_after h ∧ same_deps p q).

Lemma elem_of_system_after h p :
  hashes_ok (trans_remove h) → hashes_ok (trans_add h) →
  p ∈ system_after h ↔
  p ∈ trans_add h ∨ (p ∈ installed h ∧ pkg_name p ∉ map pkg_name (trans_remove h) ∧
                     pkg_name p ∉ map pkg_name (trans_add h)).
Proof.
  intros Hr Ha. unfold system_after. rewrite elem_of_app, elem_of_bfilter, negb_true_iff.
  unfold is_modified. rewrite orb_false_iff, <-!not_true_iff_false, !is_some_true.
  rewrite !pkg_find_is_Some by done. done.
Qed.

Lemma sync_commit_spec ce h fs :
  db_ready h → hashes_ok (trans_add h) →
  Forall (λ p, pkg_hash_ok p ∧ digests_ok p) (trans_remove h) →
  Forall (target_ok h) (trans_add h) → NoDup (map pkg_name (trans_add h)) →
  Z.of_nat (length (installed h) + length (trans_add h)) < 414055 →
  ∃ h' fs' rc, alpm_sync_commit ce h fs = Some (h', fs', rc) ∧ db_ready h' ∧
    (∀ q, q ∈ installed h' → q ∈ installed h ∨ ∃ p, p ∈ trans_add h ∧ same_deps p q) ∧
    (∀ q, q ∈ installed h → pkg_name q ∉ map pkg_name (trans_remove h) →
          pkg_name q ∉ map pkg_name (trans_add h) → q ∈ installed h') ∧
    (rc = 0 → interrupted h' = false → mirrors h h').
Proof.
  intros Hr Ha Hrem Hadd Hnd Hlen. unfold alpm_sync_commit.
  assert (hashes_ok (trans_remove h)) as Hrh
    by (eapply Forall_impl; [exact Hrem|]; by intros p [? _]).
  assert (∃ h1 fs1, match trans_remove h with [] => Some (h, fs, 0)
      | _ => alpm_remove_packages ce false h fs end = Some (h1, fs1, 0) ∧
    db_ready h1 ∧ same_targets h h1 ∧ (∀ q, q ∈ installed h1 → q ∈ installed h) ∧
    (∀ q, q ∈ installed h → pkg_name q ∉ map pkg_name (trans_remove h) → q ∈ installed h1) ∧
    (interrupted h1 = false → ∀ q, q ∈ installed h1 → pkg_name q ∉ map pkg_name (trans_remove h)))
    as (h1 & fs1 & -> & Hr1 & (Ea1 & Er1 & Ei1) & Hsub & Hkeep & Hgone).
  { destruct (remove_loop_spec ce false (trans_remove h) h fs Hr Hrem) as (h1 & fs1 & E & H1).
    destruct (trans_remove h) as [|p l] eqn:El.
    2:{ exists h1, fs1. split; [unfold alpm_remove_packages; by rewrite El|exact H1]. }
    exists h, fs. split_and!; [done|done|apply same_targets_refl|done|done|].
    intros _ q _. apply not_elem_of_nil. }
  cbn [Z.eqb]. unfold alpm_upgrade_packages. rewrite Ea1.
  assert (Forall (target_ok h1) (trans_add h)) as Ht1.
  { eapply Forall_impl; [exact Hadd|]. intros p (T1 & T3). split; [done|].
    intros (q & E & Hq)%list_elem_of_fmap. apply T3. rewrite E. by apply list_elem_of_fmap_2, Hsub. }
  pose proof (installed_length h h1 Hr Hr1 Hsub) as Hl1.
  assert (∃ h' fs' rc, match trans_add h with [] => Some (h1, fs1, 0)
      | add => upgrade_loop ce add h1 fs1 0 end = Some (h', fs', rc) ∧ db_ready h' ∧
    same_targets h1 h' ∧ upgraded (trans_add h) h1 h' ∧
    (rc = 0 → interrupted h' = false → complete_for (trans_add h) h'))
    as (h' & fs' & rc & -> & Hr' & Hs' & [U1 U2] & Hc).
  { destruct (upgrade_loop_spec ce (trans_add h) h1 fs1 0 Hr1 Ht1 Hnd ltac:(lia))
      as (h' & fs' & rc & E & H1 & H2 & H3 & _ & H5).
    destruct (trans_add h) as [|p l] eqn:El; [|exists h', fs', rc; by rewrite <-E].
    exists h1, fs1, 0. split_and!; [done|done|apply same_targets_refl|split; [by left|done]|].
    intros _ _. split; [by intros p Hp%not_elem_of_nil|by intros q _ Hq%not_elem_of_nil]. }
  exists h', fs', rc. split_and!; [done|done| | |].
  - intros q Hq. destruct (U1 q Hq) as [?|?]; [left; by apply Hsub|by right].
  - intros q Hq H1 H2. apply U2; [by apply Hkeep|done].
  - intros H0 Hi. destruct (Hc H0 Hi) as [C1 C2].
    assert (interrupted h1 = false) as Hi1.
    { destruct (interrupted h1) eqn:E; [|done]. destruct Hs' as (_ & _ & Hs'). by rewrite Hs' in Hi. }
    split.
    + intros p [Hp|(Hp & N1 & N2)]%elem_of_system_after; [by apply C1| |done|done].
      exists p. split; [|done]. apply U2; [by apply Hkeep|done].
    + intros q Hq. destruct (decide (pkg_name q ∈ map pkg_name (trans_add h))) as [Hn|Hn].
      * destruct (C2 q Hq Hn) as (p & Hp & Hs). exists p. split; [|done].
        apply elem_of_system_after; [done|done|by left].
      * exists q. split; [|done]. apply elem_of_system_after; [done|done|right].
        destruct (U1 q Hq) as [Hq1|(p & Hp & Hs)].
        -- split_and!; [by apply Hsub|by apply Hgone|done].
        -- destruct Hn. rewrite (sd_name _ _ Hs). by apply list_elem_of_fmap_2.
Qed.

(** C4. _alpm_sync_commit carries out the plan. It returns, and whatever happens
    the package cache stays consistent, nothing is installed but targets and
    nothing disappears but packages to remove or replace; when it succeeds without
    an interruption, the installed packages are those of the plan the
    preparation checked: the targets, and the installed packages that are
    neither removed nor replaced. *)
Theorem sync_commit_correct ce h fs :
  db_ready h → hashes_ok (trans_add h) →
  Forall (λ p, pkg_hash_ok p ∧ digests_ok p) (trans_remove h) →
  Forall (target_ok h) (trans_add h) → NoDup (map pkg_name (trans_add h)) →
  Z.of_nat (length (installed h) + length (trans_add h)) < 414055 →
  ∃ h' fs' rc, alpm_sync_commit ce h fs = Some (h', fs', rc) ∧ db_ready h' ∧
    (∀ q, q ∈ installed h' → q ∈ installed h ∨ ∃ p, p ∈ trans_add h ∧ same_deps p q) ∧
    (∀ q, q ∈ installed h → pkg_name q ∉ map pkg_name (trans_remove h) →
          pkg_name q ∉ map pkg_name (trans_add h) → q ∈ installed h') ∧
    (rc = 0 → interrupted h' = false → mirrors h h').
Proof. exact (sync_commit_spec ce h fs). Qed.

Definition ex_ce : commit_env :=
  mk_commit_env no_callback ex_os (λ _ _ fs, fs) (λ _, Some []) true (λ fs, fs) 0 (λ _, false).

Definition ex_db_fs : fsys := {[str "/var/lib/dulge/local" := NDir]}.

Definition ex_committing : alpm_handle_t :=
  set_next 100 (set_trans (Some (mk_trans 0 STATE_COMMITTING [] [ex_postfix; ex_libdb]
                                   [alpm_pkg_dup 50 ex_exim] []))
    (set_db_local (list_db (str "local") DB_STATUS_LOCAL [ex_exim]) empty_handle)).

Lemma ex_committing_ready : db_ready ex_committing.
Proof.
  split.
  - split; [|vm_compute; reflexivity|vm_compute; reflexivity|vm_compute; discriminate].
    apply (list_db_inv (str "local") DB_STATUS_LOCAL [ex_exim]);
      [by repeat constructor|apply NoDup_singleton|apply NoDup_singleton].
  - split; [lia|]. vm_compute. repeat constructor.
  - apply is_some_true. vm_compute. reflexivity.
  - vm_compute. reflexivity.
Qed.

Lemma ex_installed : map pkg_name (installed ex_committing) = [str "exim"].
Proof. vm_compute. reflexivity. Qed.

Lemma sync_commit_correct_witness :
  ∃ h' fs' rc, alpm_sync_commit ex_ce ex_committing ex_db_fs = Some (h', fs', rc) ∧ db_ready h'.
Proof.
  destruct (sync_commit_correct ex_ce ex_committing ex_db_fs ex_committing_ready) as (h' & fs' & rc & H1 & H2 & _).
  - by repeat constructor.
  - constructor; [|constructor]. split; [vm_compute; reflexivity|constructor].
  - constructor; [|constructor; [|constructor]]; (split; [vm_compute; reflexivity|]);
      rewrite ex_installed; intros H%list_elem_of_singleton; discriminate H.
  - constructor; [|apply NoDup_singleton]. intros H%list_elem_of_singleton. discriminate H.
  - vm_compute. reflexivity.
  - exists h', fs', rc. split; [exact H1|exact H2].
Defined.

Example sync_commit_example :
  match alpm_sync_commit ex_ce ex_committing ex_db_fs with
  | Some (h', _, rc) => rc = 0 ∧ map pkg_name (installed h') = [str "libdb"; str "postfix"]
  | None => False
  end.
Proof. by vm_compute. Qed.
