(* ===== verification/Trans.v ===== *)
(** * Transactions

    lib/libalpm/trans.c, the lock of handle.c, and the part of sync.c that loads
    the package files of the targets: the life of a transaction from
    alpm_trans_init to alpm_trans_release. Downloads, signatures, package files,
    disk space and hooks are answered by [trans_env]; the package cache
    directories are kept apart from the tree the packages are installed in. *)
From S2P Require Import Prelude CString AlpmList Util Package PkgHash Handle Deps SortDeps FileList.
From S2P Require Import Conflict Remove Db Sync FileOps Commit.
Local Open Scope Z_scope.

Record trans_env := mk_trans_env {
  te_commit : commit_env;
  te_open_lock : option Z;                              (* open of the lock file: the descriptor *)
  te_unlink_lock : bool;                                (* unlink of the lock file succeeds *)
  te_makepath : bool;                                   (* the directory of the lock file exists *)
  te_cached : cstr → option Z;                          (* size of a file in the cache directories *)
  te_tmpdir : bool;                                     (* _alpm_download_dir_setup succeeds *)
  te_downloadspace : bool;                              (* _alpm_check_downloadspace *)
  te_download : list alpm_pkg_t → bool;                 (* _alpm_download did not return -1 *)
  te_keyring : bool;                                    (* check_keyring *)
  te_validate : alpm_pkg_t → alpm_errno_t + Z;          (* _alpm_pkg_validate_internal *)
  te_load : alpm_pkg_t → alpm_errno_t + alpm_pkg_t;     (* _alpm_pkg_load_internal of its file *)
  te_diskspace : option alpm_errno_t;                   (* the error of _alpm_check_diskspace *)
  te_pre_hook : alpm_handle_t → fsys → fsys * bool;     (* the pre-transaction hooks; success *)
  te_post_hook : alpm_handle_t → fsys → fsys            (* the post-transaction hooks *)
}.

Section trans.
Context (te : trans_env).
Local Notation ce := (te_commit te).
Local Notation env := (ce_env ce).

(** ** The lock *)
Definition alpm_handle_lock (h : alpm_handle_t) : alpm_handle_t * Z :=
  match o_lockfile (h_options h) with
  | None => (h, -1)
  | Some _ =>
      if negb (h_lockfd h <? 0) then (h, 0)
      else if negb (te_makepath te) then (h, -1)
      else match te_open_lock te with
           | Some fd => (set_lockfd fd h, if 0 <=? fd then 0 else -1)
           | None => (set_lockfd (-1) h, -1)
           end
  end.

Definition alpm_unlock (h : alpm_handle_t) : alpm_handle_t * Z :=
  match o_lockfile (h_options h) with
  | None => (h, 0)
  | Some _ =>
      if negb (0 <=? h_lockfd h) then (h, 0)
      else let h := set_lockfd (-1) h in
           if negb (te_unlink_lock te) then ret_err ALPM_ERR_SYSTEM h else (h, 0)
  end.

(** ** alpm_trans_init, alpm_trans_release, alpm_trans_interrupt *)
Definition alpm_trans_init (h : alpm_handle_t) (flags : Z) : alpm_handle_t * Z :=
  let h := check_handle h in
  match h_trans h with
  | Some _ => ret_err ALPM_ERR_TRANS_NOT_NULL h
  | None =>
      let '(h, rc) := if negb (has_flag flags ALPM_TRANS_FLAG_NOLOCK) then alpm_handle_lock h
                      else (h, 0) in
      if negb (rc =? 0) then ret_err ALPM_ERR_HANDLE_LOCK h
      else (set_trans (Some (mk_trans flags STATE_INITIALIZED [] [] [] [])) h, 0)
  end.

Definition alpm_trans_interrupt (h : alpm_handle_t) : alpm_handle_t * Z :=
  let h := check_handle h in
  match h_trans h with
  | None => ret_err ALPM_ERR_TRANS_NULL h
  | Some t =>
      if negb (bool_decide (t_state t = STATE_COMMITTING)
               || bool_decide (t_state t = STATE_INTERRUPTED))
      then ret_err ALPM_ERR_TRANS_TYPE h
      else (upd_trans (with_state STATE_INTERRUPTED) h, 0)
  end.

Definition alpm_trans_release (h : alpm_handle_t) : alpm_handle_t * Z :=
  let h := check_handle h in
  match h_trans h with
  | None => ret_err ALPM_ERR_TRANS_NULL h
  | Some t =>
      if bool_decide (t_state t = STATE_IDLE) then ret_err ALPM_ERR_TRANS_NULL h
      else let h := set_trans None h in
           (if negb (has_flag (t_flags t) ALPM_TRANS_FLAG_NOLOCK) then (alpm_unlock h).1 else h, 0)
  end.

(** ** alpm_trans_prepare *)
Definition arch_allowed (architectures : list cstr) (pkg : alpm_pkg_t) : bool :=
  match pkg_arch pkg with
  | None => true
  | Some pkgarch => streq pkgarch (str "any") || existsb (streq pkgarch) architectures
  end.

(** The strings name-version-arch of the packages refused. *)
Definition check_arch (h : alpm_handle_t) (pkgs : list alpm_pkg_t) : list cstr :=
  match h_architectures h with
  | [] => []
  | archs =>
      map (λ p, pkg_name p ++ str "-" ++ pkg_version p ++ str "-" ++ default [] (pkg_arch p))
        (List.filter (λ p, negb (arch_allowed archs p)) pkgs)
  end.

(** What is stored through [data]. *)
Inductive trans_data :=
  | NoData
  | DataArch (l : list cstr)
  | DataRemove (l : list alpm_depmissing_t)
  | DataSync (l : list sync_datum)
  | DataFiles (l : list alpm_fileconflict_t)
  | DataInvalid (l : list (option cstr)).

Definition sort_targets (h : alpm_handle_t) : option alpm_handle_t :=
  let cache h := alpm_db_get_pkgcache (h_db_local h) in
  add ← alpm_sortbydeps (cache h) (trans_add h) (trans_remove h) false;
  let h := upd_trans (with_add add) h in
  rem ← alpm_sortbydeps (cache h) (trans_remove h) [] true;
  Some (upd_trans (with_remove rem) h).

Definition prepare_finish (h : alpm_handle_t) : option alpm_handle_t :=
  let sorted := if negb (has_flag (trans_flags h) ALPM_TRANS_FLAG_NODEPS)
                then sort_targets h else Some h in
  upd_trans (with_state STATE_PREPARED) <$> sorted.

Definition alpm_trans_prepare (h : alpm_handle_t) : option (alpm_handle_t * Z * trans_data) :=
  let h := check_handle h in
  match h_trans h with
  | None => let '(h, rc) := ret_err ALPM_ERR_TRANS_NULL h in Some (h, rc, NoData)
  | Some t =>
      if negb (bool_decide (t_state t = STATE_INITIALIZED))
      then let '(h, rc) := ret_err ALPM_ERR_TRANS_NOT_INITIALIZED h in Some (h, rc, NoData)
      else
        match t_add t, t_remove t with
        | [], [] => Some (h, 0, NoData)
        | _, _ =>
            match check_arch h (t_add t) with
            | (_ :: _) as invalid =>
                let '(h, rc) := ret_err ALPM_ERR_PKG_INVALID_ARCH h in Some (h, rc, DataArch invalid)
            | [] =>
                '(h, rc, data) ←
                  match t_add t with
                  | [] => r ← alpm_remove_prepare h;
                          Some (rp_handle r, rp_ret r, DataRemove (rp_data r))
                  | _ => r ← alpm_sync_prepare env (te_cached te) h;
                         Some (sr_handle r, sr_ret r, DataSync (sr_data r))
                  end;
                if rc =? -1 then Some (h, -1, data)
                else h ← prepare_finish h; Some (h, 0, data)
            end
        end
  end.

(** ** Loading the package files (sync.c) *)
Definition ALPM_SIG_PACKAGE := 1.

Definition is_file (p : alpm_pkg_t) : bool :=
  match pkg_origin p with ALPM_PKG_FROM_FILE _ => true | _ => false end.

(** The database a package comes from. *)
Definition pkg_repo (h : alpm_handle_t) (p : alpm_pkg_t) : option alpm_db_t :=
  match pkg_origin p with
  | ALPM_PKG_FROM_SYNCDB n => find_first (λ db, streq (db_treename db) n) (h_dbs_sync h)
  | ALPM_PKG_FROM_LOCALDB _ => Some (h_db_local h)
  | ALPM_PKG_FROM_FILE _ => None
  end.

Definition in_cache (name : cstr) : bool := is_some (te_cached te name).

(** find_dl_candidates: the packages to fetch, or the error. *)
Fixpoint find_dl_candidates (h : alpm_handle_t) (add : list alpm_pkg_t)
    : alpm_errno_t + list alpm_pkg_t :=
  match add with
  | [] => inr []
  | spkg :: add' =>
      match pkg_repo h spkg with
      | None => find_dl_candidates h add'
      | Some repo =>
          match db_servers repo, pkg_filename spkg with
          | [], _ => inl ALPM_ERR_SERVER_NONE
          | _, None => inl ALPM_ERR_PKG_INVALID_NAME
          | _, Some filename =>
              let need_download := negb (pkg_download_size spkg =? 0) || negb (in_cache filename) in
              let need_download :=
                if negb need_download && has_flag (alpm_db_get_siglevel h repo) ALPM_SIG_PACKAGE
                then negb (in_cache (filename ++ str ".sig")) else need_download in
              match find_dl_candidates h add' with
              | inl e => inl e
              | inr files => inr (if need_download then spkg :: files else files)
              end
          end
      end
  end.

(** pkg->infolevel &= ~INFRQ_DSIZE; pkg->download_size = 0 *)
Definition forget_dsize (p : alpm_pkg_t) : alpm_pkg_t :=
  with_dsize (clear_bits (pkg_infolevel p) INFRQ_DSIZE) 0 p.

Definition download_finish (h : alpm_handle_t) : alpm_handle_t :=
  upd_trans (λ t, with_add (map forget_dsize (t_add t)) t) h.

Definition download_files (h : alpm_handle_t) : alpm_handle_t * Z :=
  if negb (te_tmpdir te) then (download_finish h, -1)
  else
    let h := upd_trans (with_state STATE_DOWNLOADING) h in
    match find_dl_candidates h (trans_add h) with
    | inl e => (download_finish (set_errno e h), -1)
    | inr [] => (download_finish h, 0)
    | inr files =>
        if negb (o_checkspace (h_options h) =? 0) && negb (te_downloadspace te)
        then (download_finish h, -1)
        else (download_finish h, if te_download te files then 0 else -1)
    end.

(** check_validity: every package of a database, with how it was validated. *)
Definition with_validation (v : Z) (p : alpm_pkg_t) : alpm_pkg_t :=
  mk_pkg (pkg_addr p) (pkg_name_hash p) (pkg_filename p) (pkg_base p) (pkg_name p)
    (pkg_version p) (pkg_desc p) (pkg_url p) (pkg_packager p) (pkg_sha256sum p)
    (pkg_base64_sig p) (pkg_arch p) (pkg_builddate p) (pkg_installdate p) (pkg_size p)
    (pkg_isize p) (pkg_download_size p) (pkg_licenses p) (pkg_replaces p) (pkg_groups p)
    (pkg_backup p) (pkg_depends p) (pkg_optdepends p) (pkg_checkdepends p)
    (pkg_makedepends p) (pkg_conflicts p) (pkg_provides p) (pkg_removes p) (pkg_oldpkg p)
    (pkg_files p) (pkg_origin p) (pkg_reason p) (pkg_scriptlet p) (pkg_xdata p)
    (pkg_infolevel p) v.

(** The loop: the list, pm_errno (which every validation resets), whether a
    package is invalid, and whether a file is missing. *)
Fixpoint validate_targets (errno : alpm_errno_t) (add : list alpm_pkg_t)
    : list alpm_pkg_t * alpm_errno_t * bool * bool :=
  match add with
  | [] => ([], errno, false, false)
  | p :: add' =>
      if is_file p
      then let '(l, e, bad, miss) := validate_targets errno add' in (p :: l, e, bad, miss)
      else if negb (match pkg_filename p with Some f => in_cache f | None => false end)
      then (add, errno, false, true)
      else
        match te_validate te p with
        | inl err => let '(l, e, _, miss) := validate_targets err add' in (p :: l, e, true, miss)
        | inr v => let '(l, e, bad, miss) := validate_targets ALPM_ERR_OK add' in
                   (with_validation v p :: l, e, bad, miss)
        end
  end.

Definition check_validity (h : alpm_handle_t) : alpm_handle_t * Z :=
  let '(add, errno, bad, miss) := validate_targets (h_pm_errno h) (trans_add h) in
  let h := set_errno errno (upd_trans (with_add add) h) in
  if miss then ret_err ALPM_ERR_PKG_NOT_FOUND h
  else if bad then
    (if bool_decide (errno = ALPM_ERR_OK) then set_errno ALPM_ERR_PKG_INVALID h else h, -1)
  else (h, 0).

(** check_pkg_matches_db: [true] when the file is not the package of the
    database. *)
Definition dep_not_equal (left right : alpm_depend_t) : Z :=
  if negb (dep_name_hash left =? dep_name_hash right)
     || negb (streq (dep_name left) (dep_name right))
     || negb (bool_decide (dep_mod left = dep_mod right))
     || match dep_version left, dep_version right with
        | Some v, Some w => negb (streq v w)
        | None, None => false
        | _, _ => true
        end
  then 1 else 0.

Definition check_pkg_matches_db (spkg pkgfile : alpm_pkg_t) : bool :=
  negb (streq (pkg_name spkg) (pkg_name pkgfile))
  || negb (streq (pkg_version spkg) (pkg_version pkgfile))
  || negb (pkg_isize spkg =? pkg_isize pkgfile)
  || negb (alpm_list_cmp_unsorted dep_not_equal (pkg_depends spkg) (pkg_depends pkgfile))
  || negb (alpm_list_cmp_unsorted dep_not_equal (pkg_conflicts spkg) (pkg_conflicts pkgfile))
  || negb (alpm_list_cmp_unsorted dep_not_equal (pkg_replaces spkg) (pkg_replaces pkgfile))
  || negb (alpm_list_cmp_unsorted dep_not_equal (pkg_provides spkg) (pkg_provides pkgfile))
  || negb (alpm_list_cmp_unsorted strcmp (pkg_groups spkg) (pkg_groups pkgfile)).

(** The loaded package takes over reason, validation and old version. *)
Definition take_over (spkg pkgfile : alpm_pkg_t) : alpm_pkg_t :=
  with_validation (pkg_validation spkg)
    (with_oldpkg (pkg_oldpkg spkg) (with_reason (pkg_reason spkg) pkgfile)).

(** The loop of load_packages: the new list, pm_errno, the file names of the
    packages refused, and whether a file is missing. *)
Fixpoint load_loop (errno : alpm_errno_t) (add : list alpm_pkg_t)
    : list alpm_pkg_t * alpm_errno_t * list (option cstr) * bool :=
  match add with
  | [] => ([], errno, [], false)
  | spkg :: add' =>
      if is_file spkg
      then let '(l, e, bad, miss) := load_loop errno add' in (spkg :: l, e, bad, miss)
      else if negb (match pkg_filename spkg with Some f => in_cache f | None => false end)
      then (add, errno, [], true)
      else
        match te_load te spkg with
        | inr pkgfile =>
            let '(l, e, bad, miss) := load_loop errno add' in
            if check_pkg_matches_db spkg pkgfile
            then (spkg :: l, e, pkg_filename spkg :: bad, miss)
            else (take_over spkg pkgfile :: l, e, bad, miss)
        | inl err =>
            let '(l, e, bad, miss) := load_loop err add' in
            (spkg :: l, e, pkg_filename spkg :: bad, miss)
        end
  end.

Definition load_packages (h : alpm_handle_t) : alpm_handle_t * Z * trans_data :=
  let '(add, errno, bad, miss) := load_loop (h_pm_errno h) (trans_add h) in
  let h := set_errno errno (upd_trans (with_add add) h) in
  if miss then let '(h, rc) := ret_err ALPM_ERR_PKG_NOT_FOUND h in (h, rc, DataInvalid bad)
  else match bad with
       | [] => (h, 0, NoData)
       | _ => (if bool_decide (errno = ALPM_ERR_OK) then set_errno ALPM_ERR_PKG_INVALID h
               else h, -1, DataInvalid bad)
       end.

Definition alpm_sync_load (h : alpm_handle_t) : alpm_handle_t * Z * trans_data :=
  let '(h, rc) := download_files h in
  if rc =? -1 then (h, -1, NoData)
  else if negb (te_keyring te) then (h, -1, NoData)
  else
    let '(h, rc) := check_validity h in
    if negb (rc =? 0) then (h, -1, NoData)
    else if has_flag (trans_flags h) ALPM_TRANS_FLAG_DOWNLOADONLY then (h, 0, NoData)
    else let '(h, rc, data) := load_packages h in
         if negb (rc =? 0) then (h, -1, data) else (h, 0, NoData).

(** ** _alpm_sync_check *)

(** The tree as the conflict check sees it; no path is deeper than the tree has
    entries. *)
Definition view (fs : fsys) : filesystem :=
  mk_fs (λ path, match fs !! path with
                 | Some NDir => Some true
                 | Some (NFile _) => Some false
                 | None => None
                 end) (readdir fs).

Definition alpm_sync_check (h : alpm_handle_t) (fs : fsys) : alpm_handle_t * Z * trans_data :=
  let dbonly := has_flag (trans_flags h) ALPM_TRANS_FLAG_DBONLY in
  let '(conflicts, skip) :=
    if negb dbonly
    then alpm_db_find_fileconflicts env (view fs) (handle_root h) h (S (size fs)) (trans_add h)
           (trans_remove h) (match h_trans h with Some t => t_skip_remove t | None => [] end)
    else ([], match h_trans h with Some t => t_skip_remove t | None => [] end) in
  let h := upd_trans (λ t, mk_trans (t_flags t) (t_state t) (t_unresolvable t) (t_add t)
                             (t_remove t) skip) h in
  match conflicts with
  | _ :: _ => let '(h, rc) := ret_err ALPM_ERR_FILE_CONFLICTS h in (h, rc, DataFiles conflicts)
  | [] =>
      if negb (o_checkspace (h_options h) =? 0) && negb dbonly
      then match te_diskspace te with
           | Some e => let '(h, rc) := ret_err e h in (h, rc, NoData)
           | None => (h, 0, NoData)
           end
      else (h, 0, NoData)
  end.

(** ** alpm_trans_commit *)

(** What happens once the checks and the pre-transaction hooks are through. *)
Definition commit_packages (h : alpm_handle_t) (fs : fsys) : option (alpm_handle_t * fsys * Z) :=
  let h := upd_trans (with_state STATE_COMMITTING) h in
  '(h, fs, rc) ← match trans_add h with
                 | [] => alpm_remove_packages ce true h fs
                 | _ => alpm_sync_commit ce h fs
                 end;
  if rc =? -1 then Some (h, fs, -1)
  else
    let fs := if negb (interrupted h) && negb (has_flag (trans_flags h) ALPM_TRANS_FLAG_NOHOOKS)
              then te_post_hook te h fs else fs in
    Some (upd_trans (with_state STATE_COMMITTED) h, fs, 0).

Definition alpm_trans_commit (h : alpm_handle_t) (fs : fsys)
    : option (alpm_handle_t * fsys * Z * trans_data) :=
  let h := check_handle h in
  let fail e := let '(h, rc) := ret_err e h in Some (h, fs, rc, NoData) in
  match h_trans h with
  | None => fail ALPM_ERR_TRANS_NULL
  | Some t =>
      if negb (bool_decide (t_state t = STATE_PREPARED)) then fail ALPM_ERR_TRANS_NOT_PREPARED
      else if has_flag (t_flags t) ALPM_TRANS_FLAG_NOLOCK then fail ALPM_ERR_TRANS_NOT_LOCKED
      else
        match t_add t, t_remove t with
        | [], [] => Some (h, fs, 0, NoData)
        | _, _ =>
            let '(h, rc, data, stop) :=
              match t_add t with
              | [] => (h, 0, NoData, false)
              | _ =>
                  let '(h, rc, data) := alpm_sync_load h in
                  if negb (rc =? 0) then (h, -1, data, true)
                  else if has_flag (t_flags t) ALPM_TRANS_FLAG_DOWNLOADONLY
                  then (h, 0, data, true)
                  else let '(h, rc, data) := alpm_sync_check h fs in
                       if negb (rc =? 0) then (h, -1, data, true) else (h, 0, NoData, false)
              end in
            if (stop : bool) then Some (h, fs, rc, data)
            else
              let '(fs, ok) := if negb (has_flag (t_flags t) ALPM_TRANS_FLAG_NOHOOKS)
                               then te_pre_hook te h fs else (fs, true) in
              if negb ok
              then let '(h, rc) := ret_err ALPM_ERR_TRANS_HOOK_FAILED h in Some (h, fs, rc, NoData)
              else '(h, fs, rc) ← commit_packages h fs; Some (h, fs, rc, NoData)
        end
  end.
End trans.
