(* ===== verification/Args.v ===== *)
(** * Command line

    src/dulge/dulge.c and needs_root of util.c: the two passes over the command
    line, the options of every operation, the combinations that are refused, and
    the privileges that are needed. getopt_long is a parameter: what it returns is a
    list of option codes with their arguments; what it leaves are the targets, which
    the options do not depend on.
    Messages are left out; [None] is the use of a NULL pointer. *)
From S2P Require Import Prelude CString AlpmList Util Package PkgHash Handle Sync FileOps Commit Trans Conf.
Local Open Scope Z_scope.

(** ** Option codes *)
Definition OP_LONG_FLAG_MIN := 1000.
Definition OP_NOCONFIRM := 1001.
Definition OP_CONFIRM := 1002.
Definition OP_CONFIG := 1003.
Definition OP_IGNORE := 1004.
Definition OP_DEBUG := 1005.
Definition OP_NOPROGRESSBAR := 1006.
Definition OP_NOSCRIPTLET := 1007.
Definition OP_ASK := 1008.
Definition OP_CACHEDIR := 1009.
Definition OP_HOOKDIR := 1010.
Definition OP_ASDEPS := 1011.
Definition OP_LOGFILE := 1012.
Definition OP_IGNOREGROUP := 1013.
Definition OP_NEEDED := 1014.
Definition OP_ASEXPLICIT := 1015.
Definition OP_ARCH := 1016.
Definition OP_PRINTFORMAT := 1017.
Definition OP_GPGDIR := 1018.
Definition OP_DBONLY := 1019.
Definition OP_FORCE := 1020.
Definition OP_OVERWRITE_FILES := 1021.
Definition OP_COLOR := 1022.
Definition OP_DBPATH := 1023.
Definition OP_CASCADE := 1024.
Definition OP_CHANGELOG := 1025.
Definition OP_CLEAN := 1026.
Definition OP_NODEPS := 1027.
Definition OP_DEPS := 1028.
Definition OP_EXPLICIT := 1029.
Definition OP_GROUPS := 1030.
Definition OP_HELP := 1031.
Definition OP_INFO := 1032.
Definition OP_CHECK := 1033.
Definition OP_LIST := 1034.
Definition OP_FOREIGN := 1035.
Definition OP_NATIVE := 1036.
Definition OP_NOSAVE := 1037.
Definition OP_OWNS := 1038.
Definition OP_FILE := 1039.
Definition OP_PRINT := 1040.
Definition OP_QUIET := 1041.
Definition OP_ROOT := 1042.
Definition OP_SYSROOT := 1043.
Definition OP_RECURSIVE := 1044.
Definition OP_SEARCH := 1045.
Definition OP_REGEX := 1046.
Definition OP_MACHINEREADABLE := 1047.
Definition OP_UNREQUIRED := 1048.
Definition OP_UPGRADES := 1049.
Definition OP_SYSUPGRADE := 1050.
Definition OP_UNNEEDED := 1051.
Definition OP_VERBOSE := 1052.
Definition OP_DOWNLOADONLY := 1053.
Definition OP_REFRESH := 1054.
Definition OP_ASSUMEINSTALLED := 1055.
Definition OP_DISABLEDLTIMEOUT := 1056.
Definition OP_DISABLESANDBOX := 1057.
Definition OP_DISABLESANDBOXFILESYSTEM := 1058.
Definition OP_DISABLESANDBOXSYSCALLS := 1059.

Definition PM_OP_MAIN := 1.
Definition PM_OP_REMOVE := 2.
Definition PM_OP_UPGRADE := 3.
Definition PM_OP_QUERY := 4.
Definition PM_OP_SYNC := 5.
Definition PM_OP_DEPTEST := 6.
Definition PM_OP_DATABASE := 7.

Definition PKG_LOCALITY_NATIVE := 1.
Definition PKG_LOCALITY_FOREIGN := 2.
Definition ALPM_LOG_ERROR := 1.
Definition ALPM_LOG_WARNING := Z.shiftl 1 1.
Definition ALPM_LOG_DEBUG := Z.shiftl 1 2.
Definition ALPM_LOG_FUNCTION := Z.shiftl 1 3.

(** A short option is the code of its letter. *)
Definition is_opt (opt long : Z) (short : ascii) : bool := (opt =? long) || (opt =? uchr short).

(** ** The configuration

    The members of type unsigned short that only the command line sets, by
    name. *)
Inductive member :=
  | quiet | verbose | version | help | noconfirm | logmask | print
  | op_q_isfile | op_q_info | op_q_list | op_q_unrequired | op_q_deps | op_q_explicit | op_q_owns
  | op_q_search | op_q_changelog | op_q_upgrade | op_q_check | op_q_locality
  | op_s_clean | op_s_downloadonly | op_s_info | op_s_sync | op_s_search | op_s_upgrade
  | op_f_regex | op_f_machinereadable | group | noask.
#[export] Instance member_eq_dec : EqDecision member.
Proof. solve_decision. Defined.

Record args_t := mk_args {
  a_conf : config_t;
  a_num : member → Z;
  a_flags : Z;
  a_ask : Z;
  a_print_format : option cstr;
  a_configfile : cstr
}.

Definition upd_conf (f : config_t → config_t) (a : args_t) : args_t :=
  mk_args (f (a_conf a)) (a_num a) (a_flags a) (a_ask a) (a_print_format a) (a_configfile a).
Definition set_num (m : member) (v : Z) (a : args_t) : args_t :=
  mk_args (a_conf a) (λ m', if decide (m' = m) then v else a_num a m') (a_flags a) (a_ask a) (a_print_format a) (a_configfile a).
Definition add_flag (f : Z) (a : args_t) : args_t :=
  mk_args (a_conf a) (a_num a) (Z.lor (a_flags a) f) (a_ask a) (a_print_format a) (a_configfile a).
Definition set_ask (v : Z) (a : args_t) : args_t :=
  mk_args (a_conf a) (a_num a) (a_flags a) v (a_print_format a) (a_configfile a).
Definition set_print_format (v : cstr) (a : args_t) : args_t :=
  mk_args (a_conf a) (a_num a) (a_flags a) (a_ask a) (Some v) (a_configfile a).
Definition set_configfile (v : cstr) (a : args_t) : args_t :=
  mk_args (a_conf a) (a_num a) (a_flags a) (a_ask a) (a_print_format a) v.

(** ++ on an unsigned short, and |=. *)
Definition bump (m : member) (a : args_t) : args_t := set_num m ((a_num a m + 1) mod 2 ^ 16) a.
Definition add_bits (m : member) (bits : Z) (a : args_t) : args_t := set_num m (Z.lor (a_num a m) bits) a.
Definition is_set (a : args_t) (m : member) : bool := negb (a_num a m =? 0).

(** What config_new sets. *)
Definition new_args (env : conf_env) (conffile : cstr) : args_t :=
  mk_args (config_new env) (λ m, if decide (m = logmask) then Z.lor ALPM_LOG_ERROR ALPM_LOG_WARNING else 0) 0 0 None conffile.

(** ** Operations *)
Definition a_op (a : args_t) : Z := cf_op (a_conf a).
Definition set_op (op : Z) (a : args_t) : args_t :=
  upd_conf (set_cf_op (if negb (a_op a =? PM_OP_MAIN) then 0 else op)) a.

(** The operation of a letter, if it is one. *)
Definition op_of (opt : Z) : option Z :=
  if opt =? uchr "D" then Some PM_OP_DATABASE
  else if opt =? uchr "F" then Some PM_OP_FILES
  else if opt =? uchr "Q" then Some PM_OP_QUERY
  else if opt =? uchr "R" then Some PM_OP_REMOVE
  else if opt =? uchr "S" then Some PM_OP_SYNC
  else if opt =? uchr "T" then Some PM_OP_DEPTEST
  else if opt =? uchr "U" then Some PM_OP_UPGRADE
  else None.

Definition parsearg_op (opt : Z) (dryrun : bool) (a : args_t) : args_t * Z :=
  match op_of opt with
  | Some op => (if dryrun then a else set_op op a, 0)
  | None =>
      if opt =? uchr "V" then (if dryrun then a else set_num version 1 a, 0)
      else if opt =? uchr "h" then (if dryrun then a else set_num help 1 a, 0)
      else (a, 1)
  end.

(** ** Options of all operations *)
Definition parsearg_util_addlist (optarg : cstr) (list : list cstr) : Datatypes.list cstr := list ++ strtok "," optarg.

(** An option whose argument is a path that has to exist. *)
Definition with_path (env : conf_env) (optarg : cstr) (f : cstr → config_t → config_t) (a : args_t) : args_t * Z :=
  match ce_realpath env optarg with
  | Some path => (upd_conf (f path) a, 0)
  | None => (a, 2)
  end.

Definition UINT_MAX := 2 ^ 32 - 1.

Definition parse_ask (optarg : option cstr) (a : args_t) : args_t * Z :=
  match optarg with
  | None => (a, 2)
  | Some optarg =>
      match parse_number optarg with
      | None => (a, 2)
      | Some ask => if UINT_MAX <? ask then (a, 2) else (set_ask (wrap32 ask) (set_num noask 1 a), 0)
      end
  end.

Definition parse_color (env : conf_env) (optarg : cstr) (a : args_t) : args_t * Z :=
  if streq (str "never") optarg then (upd_conf (set_cf_color PM_COLOR_OFF) a, 0)
  else if streq (str "auto") optarg
  then (upd_conf (set_cf_color (if ce_isatty env then PM_COLOR_ON else PM_COLOR_OFF)) a, 0)
  else if streq (str "always") optarg then (upd_conf (set_cf_color PM_COLOR_ON) a, 0)
  else (a, 2).

Definition parse_debug (optarg : option cstr) (a : args_t) : args_t * Z :=
  let finish a := (upd_conf (set_cf_noprogressbar 1) (add_bits logmask ALPM_LOG_DEBUG a), 0) in
  match optarg with
  | None => finish a
  | Some optarg =>
      match parse_number optarg with
      | None => (a, 2)
      | Some debug => if debug =? 2 then finish (add_bits logmask ALPM_LOG_FUNCTION a)
                      else if debug =? 1 then finish a
                      else (a, 2)
      end
  end.

Definition parsearg_global (env : conf_env) (opt : Z) (optarg : option cstr) (a : args_t) : option (args_t * Z) :=
  let lists := cf_lists (a_conf a) in
  if opt =? OP_ARCH then arg ← optarg; Some (upd_conf (λ c, config_add_architecture env c arg) a, 0)
  else if opt =? OP_ASK then Some (parse_ask optarg a)
  else if opt =? OP_CACHEDIR then
    arg ← optarg; Some (with_path env arg (λ p, set_cf_cachedirs (cf_cachedirs lists ++ [p])) a)
  else if opt =? OP_COLOR then arg ← optarg; Some (parse_color env arg a)
  else if opt =? OP_CONFIG then arg ← optarg; Some (set_configfile (take PATH_MAX arg) a, 0)
  else if opt =? OP_DEBUG then Some (parse_debug optarg a)
  else if opt =? OP_GPGDIR then arg ← optarg; Some (with_path env arg (λ p, set_cf_gpgdir (Some p)) a)
  else if opt =? OP_HOOKDIR then
    arg ← optarg; Some (with_path env arg (λ p, set_cf_hookdirs (cf_hookdirs lists ++ [p])) a)
  else if opt =? OP_LOGFILE then arg ← optarg; Some (upd_conf (set_cf_logfile (Some (take PATH_MAX arg))) a, 0)
  else if opt =? OP_NOCONFIRM then Some (set_num noconfirm 1 a, 0)
  else if opt =? OP_CONFIRM then Some (set_num noconfirm 0 a, 0)
  else if is_opt opt OP_DBPATH "b" then arg ← optarg; Some (with_path env arg (λ p, set_cf_dbpath (Some p)) a)
  else if is_opt opt OP_ROOT "r" then arg ← optarg; Some (with_path env arg (λ p, set_cf_rootdir (Some p)) a)
  else if opt =? OP_SYSROOT then arg ← optarg; Some (with_path env arg (λ p, set_cf_sysroot (Some p)) a)
  else if opt =? OP_DISABLEDLTIMEOUT then Some (upd_conf (set_cf_disable_dl_timeout 1) a, 0)
  else if opt =? OP_DISABLESANDBOX
  then Some (upd_conf (λ c, set_cf_disable_sandbox_syscalls 1 (set_cf_disable_sandbox_filesystem 1 c)) a, 0)
  else if opt =? OP_DISABLESANDBOXFILESYSTEM then Some (upd_conf (set_cf_disable_sandbox_filesystem 1) a, 0)
  else if opt =? OP_DISABLESANDBOXSYSCALLS then Some (upd_conf (set_cf_disable_sandbox_syscalls 1) a, 0)
  else if is_opt opt OP_VERBOSE "v" then Some (bump verbose a, 0)
  else Some (a, 1).

(** ** Options of one operation *)
Definition parsearg_database (opt : Z) (a : args_t) : args_t * Z :=
  if opt =? OP_ASDEPS then (add_flag ALPM_TRANS_FLAG_ALLDEPS a, 0)
  else if opt =? OP_ASEXPLICIT then (add_flag ALPM_TRANS_FLAG_ALLEXPLICIT a, 0)
  else if is_opt opt OP_CHECK "k" then (bump op_q_check a, 0)
  else if is_opt opt OP_QUIET "q" then (set_num quiet 1 a, 0)
  else (a, 1).

Definition parsearg_query (opt : Z) (a : args_t) : args_t * Z :=
  if is_opt opt OP_CHANGELOG "c" then (set_num op_q_changelog 1 a, 0)
  else if is_opt opt OP_DEPS "d" then (set_num op_q_deps 1 a, 0)
  else if is_opt opt OP_EXPLICIT "e" then (set_num op_q_explicit 1 a, 0)
  else if is_opt opt OP_GROUPS "g" then (bump group a, 0)
  else if is_opt opt OP_INFO "i" then (bump op_q_info a, 0)
  else if is_opt opt OP_CHECK "k" then (bump op_q_check a, 0)
  else if is_opt opt OP_LIST "l" then (set_num op_q_list 1 a, 0)
  else if is_opt opt OP_FOREIGN "m" then (add_bits op_q_locality PKG_LOCALITY_FOREIGN a, 0)
  else if is_opt opt OP_NATIVE "n" then (add_bits op_q_locality PKG_LOCALITY_NATIVE a, 0)
  else if is_opt opt OP_OWNS "o" then (set_num op_q_owns 1 a, 0)
  else if is_opt opt OP_FILE "p" then (set_num op_q_isfile 1 a, 0)
  else if is_opt opt OP_QUIET "q" then (set_num quiet 1 a, 0)
  else if is_opt opt OP_SEARCH "s" then (set_num op_q_search 1 a, 0)
  else if is_opt opt OP_UNREQUIRED "t" then (bump op_q_unrequired a, 0)
  else if is_opt opt OP_UPGRADES "u" then (set_num op_q_upgrade 1 a, 0)
  else (a, 1).

Definition parsearg_trans (opt : Z) (optarg : option cstr) (a : args_t) : option (args_t * Z) :=
  if is_opt opt OP_NODEPS "d" then
    Some (add_flag (if has_flag (a_flags a) ALPM_TRANS_FLAG_NODEPVERSION then ALPM_TRANS_FLAG_NODEPS
                    else ALPM_TRANS_FLAG_NODEPVERSION) a, 0)
  else if opt =? OP_DBONLY then
    Some (add_flag ALPM_TRANS_FLAG_NOHOOKS (add_flag ALPM_TRANS_FLAG_NOSCRIPTLET (add_flag ALPM_TRANS_FLAG_DBONLY a)), 0)
  else if opt =? OP_NOPROGRESSBAR then Some (upd_conf (set_cf_noprogressbar 1) a, 0)
  else if opt =? OP_NOSCRIPTLET then Some (add_flag ALPM_TRANS_FLAG_NOSCRIPTLET a, 0)
  else if is_opt opt OP_PRINT "p" then Some (set_num print 1 a, 0)
  else if opt =? OP_PRINTFORMAT then arg ← optarg; Some (set_print_format arg (set_num print 1 a), 0)
  else if opt =? OP_ASSUMEINSTALLED then
    arg ← optarg;
    Some (upd_conf (λ c, set_cf_assumeinstalled (parsearg_util_addlist arg (cf_assumeinstalled (cf_lists c))) c) a, 0)
  else Some (a, 1).

Definition parsearg_remove (opt : Z) (optarg : option cstr) (a : args_t) : option (args_t * Z) :=
  '(a, result) ← parsearg_trans opt optarg a;
  Some (if result =? 0 then (a, 0)
        else if is_opt opt OP_CASCADE "c" then (add_flag ALPM_TRANS_FLAG_CASCADE a, 0)
        else if is_opt opt OP_NOSAVE "n" then (add_flag ALPM_TRANS_FLAG_NOSAVE a, 0)
        else if is_opt opt OP_RECURSIVE "s" then
          (add_flag (if has_flag (a_flags a) ALPM_TRANS_FLAG_RECURSE then ALPM_TRANS_FLAG_RECURSEALL
                     else ALPM_TRANS_FLAG_RECURSE) a, 0)
        else if is_opt opt OP_UNNEEDED "u" then (add_flag ALPM_TRANS_FLAG_UNNEEDED a, 0)
        else (a, 1)).

Definition parsearg_upgrade (opt : Z) (optarg : option cstr) (a : args_t) : option (args_t * Z) :=
  '(a, result) ← parsearg_trans opt optarg a;
  if result =? 0 then Some (a, 0)
  else if opt =? OP_OVERWRITE_FILES then
    arg ← optarg;
    Some (upd_conf (λ c, set_cf_overwrite_files (parsearg_util_addlist arg (cf_overwrite_files (cf_lists c))) c) a, 0)
  else if opt =? OP_ASDEPS then Some (add_flag ALPM_TRANS_FLAG_ALLDEPS a, 0)
  else if opt =? OP_ASEXPLICIT then Some (add_flag ALPM_TRANS_FLAG_ALLEXPLICIT a, 0)
  else if opt =? OP_NEEDED then Some (add_flag ALPM_TRANS_FLAG_NEEDED a, 0)
  else if opt =? OP_IGNORE then
    arg ← optarg;
    Some (upd_conf (λ c, set_cf_ignorepkg (parsearg_util_addlist arg (cf_ignorepkg (cf_lists c))) c) a, 0)
  else if opt =? OP_IGNOREGROUP then
    arg ← optarg;
    Some (upd_conf (λ c, set_cf_ignoregrp (parsearg_util_addlist arg (cf_ignoregrp (cf_lists c))) c) a, 0)
  else if is_opt opt OP_DOWNLOADONLY "w" then
    Some (add_flag ALPM_TRANS_FLAG_NOCONFLICTS (add_flag ALPM_TRANS_FLAG_DOWNLOADONLY (set_num op_s_downloadonly 1 a)), 0)
  else Some (a, 1).

Definition parsearg_files (opt : Z) (optarg : option cstr) (a : args_t) : option (args_t * Z) :=
  '(a, result) ← parsearg_trans opt optarg a;
  Some (if result =? 0 then (a, 0)
        else if is_opt opt OP_LIST "l" then (set_num op_q_list 1 a, 0)
        else if is_opt opt OP_REFRESH "y" then (bump op_s_sync a, 0)
        else if is_opt opt OP_REGEX "x" then (set_num op_f_regex 1 a, 0)
        else if opt =? OP_MACHINEREADABLE then (set_num op_f_machinereadable 1 a, 0)
        else if is_opt opt OP_QUIET "q" then (set_num quiet 1 a, 0)
        else (a, 1)).

Definition parsearg_sync (opt : Z) (optarg : option cstr) (a : args_t) : option (args_t * Z) :=
  '(a, result) ← parsearg_upgrade opt optarg a;
  Some (if result =? 0 then (a, 0)
        else if is_opt opt OP_CLEAN "c" then (bump op_s_clean a, 0)
        else if is_opt opt OP_GROUPS "g" then (bump group a, 0)
        else if is_opt opt OP_INFO "i" then (bump op_s_info a, 0)
        else if is_opt opt OP_LIST "l" then (set_num op_q_list 1 a, 0)
        else if is_opt opt OP_QUIET "q" then (set_num quiet 1 a, 0)
        else if is_opt opt OP_SEARCH "s" then (set_num op_s_search 1 a, 0)
        else if is_opt opt OP_SYSUPGRADE "u" then (bump op_s_upgrade a, 0)
        else if is_opt opt OP_REFRESH "y" then (bump op_s_sync a, 0)
        else (a, 1)).

(** ** Refused combinations

    True when invalid_opt ends the program. *)
Definition any_of (a : args_t) (ms : list member) : bool := existsb (is_set a) ms.

Definition checkargs_database (a : args_t) : bool :=
  let deps := has_flag (a_flags a) ALPM_TRANS_FLAG_ALLDEPS in
  let explicit := has_flag (a_flags a) ALPM_TRANS_FLAG_ALLEXPLICIT in
  deps && explicit || is_set a op_q_check && (deps || explicit).

Definition checkargs_query_display_opts (a : args_t) : bool :=
  any_of a [op_q_changelog; op_q_check; op_q_info; op_q_list].

Definition checkargs_query_filter_opts (a : args_t) : bool :=
  any_of a [op_q_deps; op_q_explicit; op_q_upgrade; op_q_unrequired]
  || has_flag (a_num a op_q_locality) PKG_LOCALITY_NATIVE || has_flag (a_num a op_q_locality) PKG_LOCALITY_FOREIGN.

Definition checkargs_query (a : args_t) : bool :=
  (if is_set a op_q_isfile then any_of a [group; op_q_search; op_q_owns]
   else if is_set a op_q_search
   then any_of a [group; op_q_owns] || checkargs_query_display_opts a || checkargs_query_filter_opts a
   else if is_set a op_q_owns
   then any_of a [group] || checkargs_query_display_opts a || checkargs_query_filter_opts a
   else if is_set a group then checkargs_query_display_opts a
   else false)
  || is_set a op_q_deps && is_set a op_q_explicit
  || has_flag (a_num a op_q_locality) PKG_LOCALITY_NATIVE && has_flag (a_num a op_q_locality) PKG_LOCALITY_FOREIGN.

Definition checkargs_trans (a : args_t) : bool :=
  is_set a print &&
  (has_flag (a_flags a) ALPM_TRANS_FLAG_DBONLY || has_flag (a_flags a) ALPM_TRANS_FLAG_NOSCRIPTLET).

Definition checkargs_remove (a : args_t) : bool :=
  checkargs_trans a ||
  has_flag (a_flags a) ALPM_TRANS_FLAG_NOSAVE && (is_set a print || has_flag (a_flags a) ALPM_TRANS_FLAG_DBONLY).

Definition checkargs_upgrade (a : args_t) : bool :=
  checkargs_trans a ||
  has_flag (a_flags a) ALPM_TRANS_FLAG_ALLDEPS && has_flag (a_flags a) ALPM_TRANS_FLAG_ALLEXPLICIT.

Definition checkargs_files (a : args_t) : bool := is_set a op_q_search && is_set a op_q_list.

Definition checkargs_sync (a : args_t) : bool :=
  checkargs_upgrade a ||
  (if is_set a op_s_clean
   then any_of a [group; op_s_info; op_q_list; op_s_sync; op_s_search; op_s_upgrade; op_s_downloadonly]
   else if is_set a op_s_info then any_of a [group; op_q_list; op_s_search; op_s_upgrade; op_s_downloadonly]
   else if is_set a op_s_search then any_of a [group; op_q_list; op_s_upgrade; op_s_downloadonly]
   else if is_set a op_q_list then any_of a [group; op_s_upgrade; op_s_downloadonly]
   else if is_set a group then any_of a [op_s_upgrade; op_s_downloadonly]
   else false).

(** ** parseargs *)

(** How it ends: with the configuration, with a return value, or with exit. *)
Inductive outcome := Parsed (a : args_t) | Returned (ret : Z) | Exited (code : Z).

(** The first pass; false when an option is unknown. *)
Fixpoint parse_operations (opts : list (Z * option cstr)) (a : args_t) : args_t * bool :=
  match opts with
  | [] => (a, true)
  | (opt, _) :: opts =>
      if opt =? 0 then parse_operations opts a
      else if opt =? uchr "?" then (a, false)
      else parse_operations opts (parsearg_op opt false a).1
  end.

(** An option by operation, with the global ones as a fallback. *)
Definition parse_option (env : conf_env) (opt : Z) (optarg : option cstr) (a : args_t) : option (args_t * Z) :=
  '(a, result) ← (if a_op a =? PM_OP_DATABASE then Some (parsearg_database opt a)
                  else if a_op a =? PM_OP_QUERY then Some (parsearg_query opt a)
                  else if a_op a =? PM_OP_REMOVE then parsearg_remove opt optarg a
                  else if a_op a =? PM_OP_SYNC then parsearg_sync opt optarg a
                  else if a_op a =? PM_OP_UPGRADE then parsearg_upgrade opt optarg a
                  else if a_op a =? PM_OP_FILES then parsearg_files opt optarg a
                  else Some (a, 1));
  if result =? 0 then Some (a, 0) else parsearg_global env opt optarg a.

(** The second pass. *)
Fixpoint parse_all (env : conf_env) (opts : list (Z * option cstr)) (a : args_t) : option (args_t * bool) :=
  match opts with
  | [] => Some (a, true)
  | (opt, optarg) :: opts =>
      if opt =? 0 then parse_all env opts a
      else if opt =? uchr "?" then Some (a, false)
      else if (parsearg_op opt true a).2 =? 0 then parse_all env opts a
      else
        '(a, result) ← parse_option env opt optarg a;
        if negb (result =? 0) then Some (a, false) else parse_all env opts a
  end.

Definition checkargs (a : args_t) : bool :=
  if a_op a =? PM_OP_DATABASE then checkargs_database a
  else if a_op a =? PM_OP_SYNC then checkargs_sync a
  else if a_op a =? PM_OP_QUERY then checkargs_query a
  else if a_op a =? PM_OP_REMOVE then checkargs_remove a
  else if a_op a =? PM_OP_UPGRADE then checkargs_upgrade a
  else if a_op a =? PM_OP_FILES then checkargs_files a
  else false.

Definition parseargs (env : conf_env) (opts : list (Z * option cstr)) (a : args_t) : option outcome :=
  let '(a, known) := parse_operations opts a in
  if negb known then Some (Returned 1)
  else if a_op a =? 0 then Some (Returned 1)
  else if is_set a help then Some (Exited 0)
  else if is_set a version then Some (Exited 0)
  else
    '(a, valid) ← parse_all env opts a;
    Some (if negb valid then Returned 1 else if checkargs a then Exited 1 else Parsed a).

(** ** Privileges *)
Definition needs_root (a : args_t) : bool :=
  if a_op a =? PM_OP_DATABASE then negb (is_set a op_q_check)
  else if (a_op a =? PM_OP_UPGRADE) || (a_op a =? PM_OP_REMOVE) then negb (is_set a print)
  else if a_op a =? PM_OP_SYNC
  then any_of a [op_s_clean; op_s_sync] || negb (any_of a [group; op_s_info; op_q_list; op_s_search; print])
  else if a_op a =? PM_OP_FILES then is_set a op_s_sync
  else false.

(** What main sets after the configuration file was read. *)
Definition finish_args (a : args_t) : args_t :=
  let a := if is_set a noask then set_num noconfirm 1 a else a in
  if is_set a print && negb (is_set a op_s_clean)
  then
    let a := set_num noconfirm 1 a in
    let a := add_flag ALPM_TRANS_FLAG_NOLOCK (add_flag ALPM_TRANS_FLAG_NOCONFLICTS a) in
    set_num logmask (Z.land (a_num a logmask) (Z.lnot ALPM_LOG_WARNING)) a
  else a.

(** ** Facts: what an option leaves alone *)
Lemma is_opt_true opt long short : is_opt opt long short = true → opt = long ∨ opt = uchr short.
Proof. unfold is_opt. intros [?%Z.eqb_eq|?%Z.eqb_eq]%orb_true_iff; auto. Qed.

(** An option of the second pass changes neither the operation nor, but for the
    given ones, the flags. *)
Definition keeps_op (a a' : args_t) : Prop := a_op a' = a_op a.

Lemma with_path_op env arg f a a' r :
  (∀ p c, cf_op (f p c) = cf_op c) → with_path env arg f a = (a', r) → keeps_op a a' ∧ a_flags a' = a_flags a.
Proof. unfold with_path. intros Hf. case_match; intros [= <- _]; [|done]. split; [apply Hf|done]. Qed.

Lemma values_op env optarg arg a a' r :
  parse_ask optarg a = (a', r) ∨ parse_color env arg a = (a', r) ∨ parse_debug optarg a = (a', r) →
  keeps_op a a' ∧ a_flags a' = a_flags a.
Proof.
  unfold parse_ask, parse_color, parse_debug. intros [H|[H|H]]; repeat case_match; by injection H as <- _.
Qed.

Lemma global_op env opt optarg a a' r :
  parsearg_global env opt optarg a = Some (a', r) → keeps_op a a' ∧ a_flags a' = a_flags a.
Proof.
  unfold parsearg_global.
  repeat match goal with
  | |- context [if ?b then _ else _] => destruct b
  | |- context [optarg ≫= _] => destruct optarg; cbn [mbind option_bind]
  end; try done; intros H; apply (inj Some) in H;
  first [by injection H as <- _ | by eapply with_path_op in H 
    | by eapply (values_op env _ []); eauto | by eapply (values_op env None); eauto].
Qed.

(** The flags that an option adds when [flags] are set. *)
Definition option_flags (op opt flags : Z) : Z :=
  if is_opt opt OP_NODEPS "d" then
    if has_flag flags ALPM_TRANS_FLAG_NODEPVERSION then ALPM_TRANS_FLAG_NODEPS else ALPM_TRANS_FLAG_NODEPVERSION
  else if opt =? OP_DBONLY then Z.lor ALPM_TRANS_FLAG_DBONLY (Z.lor ALPM_TRANS_FLAG_NOSCRIPTLET ALPM_TRANS_FLAG_NOHOOKS)
  else if opt =? OP_NOSCRIPTLET then ALPM_TRANS_FLAG_NOSCRIPTLET
  else if op =? PM_OP_REMOVE then
    if is_opt opt OP_CASCADE "c" then ALPM_TRANS_FLAG_CASCADE
    else if is_opt opt OP_NOSAVE "n" then ALPM_TRANS_FLAG_NOSAVE
    else if is_opt opt OP_RECURSIVE "s" then
      if has_flag flags ALPM_TRANS_FLAG_RECURSE then ALPM_TRANS_FLAG_RECURSEALL else ALPM_TRANS_FLAG_RECURSE
    else if is_opt opt OP_UNNEEDED "u" then ALPM_TRANS_FLAG_UNNEEDED
    else 0
  else
    if opt =? OP_ASDEPS then ALPM_TRANS_FLAG_ALLDEPS
    else if opt =? OP_ASEXPLICIT then ALPM_TRANS_FLAG_ALLEXPLICIT
    else if opt =? OP_NEEDED then ALPM_TRANS_FLAG_NEEDED
    else if is_opt opt OP_DOWNLOADONLY "w" then Z.lor ALPM_TRANS_FLAG_DOWNLOADONLY ALPM_TRANS_FLAG_NOCONFLICTS
    else 0.

Definition trans_op (op : Z) : Prop := op = PM_OP_REMOVE ∨ op = PM_OP_SYNC ∨ op = PM_OP_UPGRADE.


Lemma no_flags a a' op opt :
  keeps_op a a' ∧ a_flags a' = a_flags a → option_flags op opt (a_flags a) = 0 →
  keeps_op a a' ∧ a_flags a' = Z.lor (a_flags a) (option_flags op opt (a_flags a)).
Proof. intros [H1 H2] ->. by rewrite Z.lor_0_r. Qed.

(** Decide the tests of an option code, one after the other; in each case the code
    is known, and the other tests are computed. *)
Ltac eval_tests := repeat (match goal with
  | |- context [is_opt ?x ?l ?s] =>
      let v := eval vm_compute in (is_opt x l s) in
      match v with true => idtac | false => idtac end; change (is_opt x l s) with v
  | |- context [?x =? ?y] =>
      let v := eval vm_compute in (x =? y) in match v with true => idtac | false => idtac end; change (x =? y) with v
  end; cbn beta iota).
Ltac by_code opt :=
  repeat match goal with
  | |- context [is_opt opt ?l ?s] => let E := fresh in destruct (is_opt opt l s) eqn:E; [apply is_opt_true in E as [-> | ->]; eval_tests|]
  | |- context [opt =? ?c] => destruct (Z.eqb_spec opt c) as [-> |]; [eval_tests|]
  end; cbn [mbind option_bind].
Ltac take_option := cbn [mbind option_bind]; eval_tests;
  let H := fresh in intros H; first [discriminate H | apply (inj Some) in H; injection H as <-;
  split; [done|]; cbn [a_flags add_flag set_num upd_conf set_print_format bump]; rewrite ?Z.lor_0_r, ?Z.lor_assoc; done].

(** The case of a global option. *)
Ltac take_global := eval_tests; intros [? ?]%global_op; by rewrite ?Z.lor_0_r.
Ltac take_all opt optarg := by_code opt; first [solve [take_option] | destruct optarg; solve [take_option] | solve [take_global]].

Lemma parse_option_flags env opt optarg a a' :
  trans_op (a_op a) → parse_option env opt optarg a = Some (a', 0) →
  keeps_op a a' ∧ a_flags a' = Z.lor (a_flags a) (option_flags (a_op a) opt (a_flags a)).
Proof.
  intros [Hop|[Hop|Hop]]; unfold parse_option; rewrite Hop;
    unfold parsearg_remove, parsearg_sync, parsearg_upgrade, parsearg_trans, option_flags; eval_tests.
  - take_all opt optarg.
  - take_all opt optarg.
  - take_all opt optarg.
Qed.

(** ** Reference: the flags of a transaction

    How often an option is given, and the flags that follow from that, wherever
    the options stand. *)
Definition occ (p : Z → bool) (opts : list (Z * option cstr)) : nat := length (List.filter (λ o, p o.1) opts).

Definition flag_table (op : Z) (opts : list (Z * option cstr)) : list (Z * bool) :=
  let n long short := occ (λ o, is_opt o long short) opts in
  let l long := occ (λ o, o =? long) opts in
  let removing := op =? PM_OP_REMOVE in
  [(ALPM_TRANS_FLAG_NODEPVERSION, 1 <=? n OP_NODEPS "d"%char); (ALPM_TRANS_FLAG_NODEPS, 2 <=? n OP_NODEPS "d"%char);
   (ALPM_TRANS_FLAG_DBONLY, 1 <=? l OP_DBONLY); (ALPM_TRANS_FLAG_NOHOOKS, 1 <=? l OP_DBONLY);
   (ALPM_TRANS_FLAG_NOSCRIPTLET, 1 <=? l OP_DBONLY + l OP_NOSCRIPTLET);
   (ALPM_TRANS_FLAG_CASCADE, removing && (1 <=? n OP_CASCADE "c"%char)); (ALPM_TRANS_FLAG_NOSAVE, removing && (1 <=? n OP_NOSAVE "n"%char));
   (ALPM_TRANS_FLAG_RECURSE, removing && (1 <=? n OP_RECURSIVE "s"%char));
   (ALPM_TRANS_FLAG_RECURSEALL, removing && (2 <=? n OP_RECURSIVE "s"%char));
   (ALPM_TRANS_FLAG_UNNEEDED, removing && (1 <=? n OP_UNNEEDED "u"%char));
   (ALPM_TRANS_FLAG_ALLDEPS, negb removing && (1 <=? l OP_ASDEPS)); (ALPM_TRANS_FLAG_ALLEXPLICIT, negb removing && (1 <=? l OP_ASEXPLICIT));
   (ALPM_TRANS_FLAG_NEEDED, negb removing && (1 <=? l OP_NEEDED));
   (ALPM_TRANS_FLAG_DOWNLOADONLY, negb removing && (1 <=? n OP_DOWNLOADONLY "w"%char));
   (ALPM_TRANS_FLAG_NOCONFLICTS, negb removing && (1 <=? n OP_DOWNLOADONLY "w"%char))]%nat.

Definition flags_match (flags : Z) (table : list (Z * bool)) : Prop := Forall (λ e, has_flag flags e.1 = e.2) table.

Lemma has_flag_lor a b f : has_flag (Z.lor a b) f = has_flag a f || has_flag b f.
Proof.
  unfold has_flag. rewrite Z.land_lor_distr_l. rewrite <-negb_andb. f_equal.
  apply eq_true_iff_eq. rewrite andb_true_iff, !Z.eqb_eq. apply Z.lor_eq_0_iff.
Qed.

Lemma occ_snoc p opts o : occ p (opts ++ [o]) = (occ p opts + if p o.1 then 1 else 0)%nat.
Proof. unfold occ. rewrite List.filter_app, length_app. cbn. by destruct (p o.1). Qed.

Ltac eval_flags := repeat match goal with
  | |- context [has_flag ?x ?y] =>
      let v := eval vm_compute in (has_flag x y) in match v with true => idtac | false => idtac end; change (has_flag x y) with v
  end.

Ltac close_flag := rewrite ?Nat.add_0_r; eval_flags; rewrite ?orb_false_r; try done;
  repeat match goal with |- context [(?k <=? ?x)%nat] => destruct (Nat.leb_spec k x) end; cbn [andb negb]; eval_flags;
  cbn [andb orb negb]; first [done | lia].

(** One more option. *)
Lemma flags_step op pre o flags :
  flags_match flags (flag_table op pre) → flags_match (Z.lor flags (option_flags op o.1 flags)) (flag_table op (pre ++ [o])).
Proof.
  destruct o as [opt arg]. unfold flags_match, flag_table. rewrite !occ_snoc. cbn [fst]. intros H.
  repeat (apply Forall_cons in H as [? H]). clear H. cbn [fst snd] in *. unfold option_flags.
  repeat match goal with |- context [if has_flag flags ?F then _ else _] =>
    match goal with H : has_flag flags F = _ |- _ => rewrite H end end.
  destruct (op =? PM_OP_REMOVE); cbn [andb negb] in *; by_code opt;
    repeat (apply Forall_cons; split); try apply Forall_nil_2; cbn [fst snd]; rewrite has_flag_lor;
    match goal with H : has_flag flags ?F = _ |- context [has_flag flags ?F] => rewrite H; clear end; close_flag.
Qed.

(** An operation of the first pass is not a flag. *)
Lemma op_neutral opt a op flags : (parsearg_op opt true a).2 = 0 → option_flags op opt flags = 0.
Proof.
  unfold parsearg_op, op_of, option_flags.
  repeat match goal with |- context [if opt =? uchr ?c then _ else _] => destruct (Z.eqb_spec opt (uchr c)) as [-> |] end;
    eval_tests; try done; by destruct (op =? PM_OP_REMOVE).
Qed.

Lemma parse_all_flags env opts : ∀ pre a a',
  trans_op (a_op a) → flags_match (a_flags a) (flag_table (a_op a) pre) → parse_all env opts a = Some (a', true) →
  a_op a' = a_op a ∧ flags_match (a_flags a') (flag_table (a_op a) (pre ++ opts)).
Proof.
  induction opts as [|[opt arg] opts IH]; intros pre a a' Hop Hm; cbn [parse_all].
  { intros [= <-]. by rewrite app_nil_r. }
  assert (∀ fl, option_flags (a_op a) opt (a_flags a) = fl → fl = 0 → parse_all env opts a = Some (a', true) →
    a_op a' = a_op a ∧ flags_match (a_flags a') (flag_table (a_op a) (pre ++ (opt, arg) :: opts))) as Hskip.
  { intros fl E -> H. replace (pre ++ (opt, arg) :: opts) with ((pre ++ [(opt, arg)]) ++ opts) by by rewrite <-app_assoc.
    apply IH; [done| |done]. pose proof (flags_step (a_op a) pre (opt, arg) (a_flags a) Hm) as Hs. cbn [fst] in Hs.
    by rewrite E, Z.lor_0_r in Hs. }
  destruct (Z.eqb_spec opt 0) as [-> |]; [apply (Hskip _ eq_refl); unfold option_flags; eval_tests; by destruct (_ =? _)|].
  destruct (opt =? uchr "?"); [done|].
  destruct ((parsearg_op opt true a).2 =? 0) eqn:Ed.
  { apply (Hskip _ eq_refl). by eapply op_neutral, Z.eqb_eq. }
  destruct (parse_option env opt arg a) as [[a1 r]|] eqn:Eo; [|done]. cbn [mbind option_bind].
  destruct (Z.eqb_spec r 0) as [-> |]; [|done]. cbn [negb]. intros H.
  apply parse_option_flags in Eo as [Ek Ef]; [|done].
  replace (pre ++ (opt, arg) :: opts) with ((pre ++ [(opt, arg)]) ++ opts) by by rewrite <-app_assoc.
  unfold keeps_op in Ek. rewrite <-Ek. apply IH; [by rewrite Ek| |done]. rewrite Ek, Ef. apply (flags_step _ _ (opt, arg)). done.
Qed.


(** The first pass. *)
Lemma op_of_main opt op : op_of opt = Some op → op ≠ PM_OP_MAIN ∧ op ≠ 0.
Proof. unfold op_of. repeat case_if; intros [= <-]; done. Qed.

Lemma first_pass opts : ∀ a a',
  parse_operations opts a = (a', true) →
  a_flags a' = a_flags a ∧ a_num a' op_s_clean = a_num a op_s_clean ∧
  a_op a' = fold_left (λ cur op, if cur =? PM_OP_MAIN then op else 0) (omap op_of (map fst opts)) (a_op a).
Proof.
  induction opts as [|[opt arg] opts IH]; intros a a'; cbn [parse_operations]; [by intros [= <-]|].
  cbn [map omap list_omap fst]. destruct (Z.eqb_spec opt 0) as [-> |]; [apply IH|].
  destruct (opt =? uchr "?"); [done|]. intros H%IH. revert H. unfold parsearg_op.
  destruct (op_of opt) as [op|] eqn:Eo; cbn [fst].
  - cbn [fold_left]. intros (H1 & H2 & H3). split_and!; [done|done|]. rewrite H3. f_equal. unfold set_op, a_op. cbn.
    by destruct (cf_op (a_conf a) =? PM_OP_MAIN).
  - by repeat case_if.
Qed.

Lemma single_op ops : ops ≠ [] → Forall (λ op, op ≠ PM_OP_MAIN) ops →
  let r := fold_left (λ cur op, if cur =? PM_OP_MAIN then op else 0) ops PM_OP_MAIN in r ≠ 0 → ops = [r].
Proof.
  assert (∀ l, fold_left (λ cur op, if cur =? PM_OP_MAIN then op else 0) l 0 = 0) as H0 by (intros l; by induction l).
  destruct ops as [|op [|op2 ops]]; [done|done|]. intros _ [H1 _]%Forall_cons r Hr. exfalso. apply Hr. unfold r.
  cbn [fold_left]. change (PM_OP_MAIN =? PM_OP_MAIN) with true. cbn beta iota.
  destruct (Z.eqb_spec op PM_OP_MAIN); [done|]. apply H0.
Qed.

Lemma is_set_other a m m' v : m' ≠ m → is_set (set_num m v a) m' = is_set a m'.
Proof. intros Hm. unfold is_set, set_num. cbn. by rewrite decide_False. Qed.

(** The second pass keeps the operation, and only -S and its options clean. *)
Definition keeps_main (a a' : args_t) : Prop := keeps_op a a' ∧ a_num a' op_s_clean = a_num a op_s_clean.

Ltac each_option optarg := repeat match goal with
  | |- context [if ?b then _ else _] => destruct b
  | |- context [optarg ≫= _] => destruct optarg; cbn [mbind option_bind]
  end; first [done | let H := fresh in intros H; first [apply (inj Some) in H | idtac]; by injection H as <- _].

Lemma trans_main opt optarg a a' r : parsearg_trans opt optarg a = Some (a', r) → keeps_main a a'.
Proof. unfold parsearg_trans. each_option optarg. Qed.

Lemma small_main opt a a' r :
  parsearg_database opt a = (a', r) ∨ parsearg_query opt a = (a', r) → keeps_main a a'.
Proof. unfold parsearg_database, parsearg_query. intros [H|H]; revert H; each_option opt. Qed.

Lemma upgrade_main opt optarg a a' r : parsearg_upgrade opt optarg a = Some (a', r) → keeps_main a a'.
Proof.
  unfold parsearg_upgrade. destruct (parsearg_trans opt optarg a) as [[a1 r1]|] eqn:E; [|done]. cbn [mbind option_bind].
  apply trans_main in E as [E1 E2]. unfold keeps_main, keeps_op. rewrite <-E1, <-E2. clear. each_option optarg.
Qed.

Lemma with_path_main env arg f a a' r :
  (∀ p c, cf_op (f p c) = cf_op c) → with_path env arg f a = (a', r) → keeps_main a a'.
Proof. unfold with_path. intros Hf. case_match; intros [= <- _]; [|done]. split; [apply Hf|done]. Qed.

Lemma values_main env optarg arg a a' r :
  parse_ask optarg a = (a', r) ∨ parse_color env arg a = (a', r) ∨ parse_debug optarg a = (a', r) → keeps_main a a'.
Proof. unfold parse_ask, parse_color, parse_debug. intros [H|[H|H]]; repeat case_match; by injection H as <- _. Qed.

Lemma global_main env opt optarg a a' r : parsearg_global env opt optarg a = Some (a', r) → keeps_main a a'.
Proof.
  unfold parsearg_global.
  repeat match goal with
  | |- context [if ?b then _ else _] => destruct b
  | |- context [optarg ≫= _] => destruct optarg; cbn [mbind option_bind]
  end; try done; intros H; apply (inj Some) in H;
  first [by injection H as <- _ | by eapply with_path_main in H
    | by eapply (values_main env _ []); eauto | by eapply (values_main env None); eauto].
Qed.

Lemma option_main env opt optarg a a' r :
  parse_option env opt optarg a = Some (a', r) →
  keeps_op a a' ∧ (a_op a ≠ PM_OP_SYNC → a_num a' op_s_clean = a_num a op_s_clean).
Proof.
  unfold parse_option. intros H.
  match type of H with mbind _ ?m = _ => destruct m as [[a1 r1]|] eqn:E; [|done] end. cbn [mbind option_bind] in H.
  assert (keeps_op a a1 ∧ (a_op a ≠ PM_OP_SYNC → a_num a1 op_s_clean = a_num a op_s_clean)) as [H1 H2].
  { repeat match type of E with (if ?b then _ else _) = _ => destruct b eqn:?; [bool_prop|] end.
    - injection E as E. destruct (small_main opt a a1 r1); auto.
    - injection E as E. destruct (small_main opt a a1 r1); auto.
    - revert E. unfold parsearg_remove. destruct (parsearg_trans opt optarg a) as [[a2 r2]|] eqn:E2; [|done].
      apply trans_main in E2 as [E3 E4]. cbn [mbind option_bind]. unfold keeps_op. rewrite <-E3, <-E4. clear. each_option optarg.
    - revert E. unfold parsearg_sync. destruct (parsearg_upgrade opt optarg a) as [[a2 r2]|] eqn:E2; [|done].
      apply upgrade_main in E2 as [E3 E4]. cbn [mbind option_bind]. intros E. split; [|done]. unfold keeps_op. rewrite <-E3.
      revert E. clear. each_option optarg.
    - apply upgrade_main in E as []. by split.
    - revert E. unfold parsearg_files. destruct (parsearg_trans opt optarg a) as [[a2 r2]|] eqn:E2; [|done].
      apply trans_main in E2 as [E3 E4]. cbn [mbind option_bind]. unfold keeps_op. rewrite <-E3, <-E4. clear. each_option optarg.
    - by injection E as <- _. }
  destruct (r1 =? 0); [by injection H as <- _|]. apply global_main in H as [H3 H4]. unfold keeps_op in *.
  rewrite H3, H4. by split.
Qed.

Lemma parse_all_main env opts : ∀ a a' v,
  parse_all env opts a = Some (a', v) →
  keeps_op a a' ∧ (a_op a ≠ PM_OP_SYNC → a_num a' op_s_clean = a_num a op_s_clean).
Proof.
  induction opts as [|[opt arg] opts IH]; intros a a' v; cbn [parse_all]; [by intros [= <- _]|].
  destruct (opt =? 0); [apply IH|]. destruct (opt =? uchr "?"); [by intros [= <- _]|].
  destruct (_ =? 0); [apply IH|]. destruct (parse_option env opt arg a) as [[a1 r]|] eqn:E; [|done]. cbn [mbind option_bind].
  apply option_main in E as [E1 E2]. unfold keeps_op in *.
  destruct (negb _); [by intros [= <- _]|]. intros [H1 H2]%IH. rewrite H1, E1 in *. split; [done|]. intros Hn. rewrite H2; auto.
Qed.

(** What an accepted command line went through. *)
Lemma parsed env conffile opts a :
  parseargs env opts (new_args env conffile) = Some (Parsed a) →
  ∃ a1, parse_operations opts (new_args env conffile) = (a1, true) ∧ a_op a1 ≠ 0 ∧
        parse_all env opts a1 = Some (a, true) ∧ checkargs a = false.
Proof.
  unfold parseargs. destruct (parse_operations opts _) as [a1 known] eqn:E1. destruct known; [|done]. cbn [negb].
  destruct (Z.eqb_spec (a_op a1) 0); [done|]. destruct (is_set a1 help); [done|]. destruct (is_set a1 version); [done|].
  destruct (parse_all env opts a1) as [[a2 valid]|] eqn:E2; [|done]. cbn [mbind option_bind].
  destruct valid; [|done]. cbn [negb]. destruct (checkargs a2) eqn:Ec; [done|]. intros [= <-]. by exists a1.
Qed.

(** ** Theorems *)

(** C32. A command line that is accepted for a transaction names one operation, and
    the flags of the transaction follow from how often each option is given, in
    whatever order: -d ignores versions and -dd all dependencies, -s removes
    dependencies and -ss also those installed explicitly, and so on. *)
Theorem transaction_flags_correct (env : conf_env) (conffile : cstr) (opts : list (Z * option cstr)) (a : args_t) :
  parseargs env opts (new_args env conffile) = Some (Parsed a) → trans_op (a_op a) →
  omap op_of (map fst opts) = [a_op a] ∧ flags_match (a_flags a) (flag_table (a_op a) opts).
Proof.
  intros (a1 & E1 & Hn0 & E2 & _)%parsed Hop. apply first_pass in E1 as (Hf & _ & Ho).
  destruct (parse_all_main _ _ _ _ _ E2) as [Hk _]. unfold keeps_op in Hk. rewrite Hk in Hop |- *. split.
  - rewrite Ho. rewrite Ho in Hn0. apply single_op; [|apply Forall_forall|done].
    + intros E. rewrite E in Ho. cbn in Ho. rewrite Ho in Hop. by destruct Hop as [?|[?|?]].
    + intros op (x & _ & H)%list_elem_of_omap. by apply op_of_main in H as [? _].
  - apply (parse_all_flags env opts [] a1 a); [done| |done]. rewrite Hf. unfold flags_match, flag_table. cbn [occ List.filter length].
    destruct (_ =? _); by repeat constructor.
Qed.

Definition ex_remove : list (Z * option cstr) :=
  [(uchr "R", None); (uchr "d", None); (OP_RECURSIVE, None); (uchr "s", None); (OP_DBPATH, Some (str "/db"))].

Lemma transaction_flags_correct_witness :
  ∃ a, parseargs ex_conf_env ex_remove (new_args ex_conf_env []) = Some (Parsed a) ∧
  has_flag (a_flags a) ALPM_TRANS_FLAG_RECURSEALL = true ∧ has_flag (a_flags a) ALPM_TRANS_FLAG_NODEPS = false.
Proof.
  eexists. split; [vm_compute; reflexivity|].
  match goal with |- has_flag (a_flags ?x) _ = _ ∧ _ =>
    destruct (transaction_flags_correct ex_conf_env [] ex_remove x) as [_ H]; [vm_compute; reflexivity|by left|] end.
  unfold flags_match in H. rewrite Forall_forall in H. split.
  - apply (H (ALPM_TRANS_FLAG_RECURSEALL, true)). apply list_elem_of_In. vm_compute. tauto.
  - apply (H (ALPM_TRANS_FLAG_NODEPS, false)). apply list_elem_of_In. vm_compute. tauto.
Defined.

(** C31. Without the rights of root no transaction is committed: the operations of
    -R, -U, and of -S unless it only displays, that are allowed to other users only
    print, and the flags that main sets for printing make alpm_trans_commit fail
    before anything is changed. *)
Theorem unprivileged_cannot_commit (env : conf_env) (conffile : cstr) (opts : list (Z * option cstr)) (a : args_t)
    (te : trans_env) (h : alpm_handle_t) (fs : fsys) (t : alpm_trans_t) :
  parseargs env opts (new_args env conffile) = Some (Parsed a) → needs_root a = false →
  trans_op (a_op a) → (a_op a = PM_OP_SYNC → any_of a [group; op_s_info; op_q_list; op_s_search] = false) →
  h_trans h = Some t → t_flags t = a_flags (finish_args a) →
  ∃ h' data, alpm_trans_commit te h fs = Some (h', fs, -1, data) ∧ h_db_local h' = h_db_local h.
Proof.
  intros (a1 & E1 & _ & E2 & _)%parsed Hroot Hop Hshow Ht Hfl.
  apply first_pass in E1 as (_ & Hc & _). destruct (parse_all_main _ _ _ _ _ E2) as [Hk Hclean]. unfold keeps_op in Hk.
  assert (is_set a print = true ∧ is_set a op_s_clean = false) as [Hp Hcl].
  { unfold needs_root in Hroot. unfold is_set at 2. destruct Hop as [Hop|[Hop|Hop]]; rewrite Hop in *; cbn in Hroot.
    - rewrite Hclean, Hc by (rewrite <-Hk; done). split; [by destruct (is_set a print)|done].
    - cbn in Hshow. specialize (Hshow eq_refl). destruct (is_set a group), (is_set a op_s_info), (is_set a op_q_list), (is_set a op_s_search);
        try done. destruct (is_set a op_s_clean) eqn:E; [done|]. destruct (is_set a op_s_sync); [done|].
      unfold is_set in E. rewrite E. split; [by destruct (is_set a print)|done].
    - rewrite Hclean, Hc by (rewrite <-Hk; done). split; [by destruct (is_set a print)|done]. }
  assert (has_flag (a_flags (finish_args a)) ALPM_TRANS_FLAG_NOLOCK = true) as Hno.
  { unfold finish_args. set (a2 := if is_set a noask then _ else _).
    assert (is_set a2 print && negb (is_set a2 op_s_clean) = true) as ->.
    { unfold a2. destruct (is_set a noask); [rewrite !is_set_other by done|]; by rewrite Hp, Hcl. }
    cbn [a_flags set_num add_flag]. rewrite !has_flag_lor. by rewrite orb_true_r. }
  unfold alpm_trans_commit. cbn [h_trans check_handle set_errno]. rewrite Ht, Hfl, Hno.
  destruct (negb _); eexists _, _; by split.
Qed.

Definition ex_print : list (Z * option cstr) := [(uchr "S", None); (OP_PRINT, None); (uchr "u", None)].

Definition ex_printed : args_t :=
  match parseargs ex_conf_env ex_print (new_args ex_conf_env []) with
  | Some (Parsed a) => a
  | _ => new_args ex_conf_env []
  end.

Definition ex_printing_env : trans_env :=
  mk_trans_env ex_ce (Some 7) true true (λ _, Some 0) true true (λ _, true) true (λ _, inr 1)
    inr None (λ _ fs, (fs, true)) (λ _ fs, fs).

(** A prepared transaction with the flags of [ex_print]. *)
Definition ex_printing : alpm_trans_t := mk_trans (a_flags (finish_args ex_printed)) STATE_PREPARED [] [ex_postfix] [] [].

Lemma unprivileged_cannot_commit_witness :
  parseargs ex_conf_env ex_print (new_args ex_conf_env []) = Some (Parsed ex_printed) ∧
  ∃ h' data, alpm_trans_commit ex_printing_env (set_trans (Some ex_printing) ex_committing) ∅ = Some (h', ∅, -1, data) ∧
             h_db_local h' = h_db_local (set_trans (Some ex_printing) ex_committing).
Proof.
  split; [vm_compute; reflexivity|].
  apply (unprivileged_cannot_commit ex_conf_env [] ex_print ex_printed ex_printing_env
           (set_trans (Some ex_printing) ex_committing) ∅ ex_printing).
  - vm_compute. reflexivity.
  - vm_compute. reflexivity.
  - right. left. vm_compute. reflexivity.
  - intros _. vm_compute. reflexivity.
  - reflexivity.
  - reflexivity.
Defined.

(** checkargs_files tests the option of another operation, so that -F takes
    --regex together with --list. *)
Example regex_and_list_accepted :
  (parseargs ex_conf_env [(uchr "F", None); (OP_REGEX, None); (OP_LIST, None)] (new_args ex_conf_env []) ≫=
   λ o, match o with Parsed a => Some (is_set a op_f_regex, is_set a op_q_list) | _ => None end) = Some (true, true).
Proof. vm_compute. reflexivity. Qed.

(** --ask takes a negative number: only the upper bound is tested, and the number
    is cut to 32 bits. *)
Example negative_ask :
  let '(a, ret) := parse_ask (Some (str "-1")) (new_args ex_conf_env []) in (a_ask a, ret) = (UINT_MAX, 0).
Proof. vm_compute. reflexivity. Qed.
