(* ===== verification/Protocol.v ===== *)
(** * The protocol of a transaction

    The calls a front end makes on a handle as a step relation, what each of
    them leaves alone, and the theorems: the lock is held exactly while a
    transaction that asked for it exists and alpm_unlock was not called, and only
    the commit of a prepared transaction, or setting the reason of a package,
    changes the system. *)
From S2P Require Import Prelude CString AlpmList Util Package PkgSet PkgHash Handle Deps SortDeps.
From S2P Require Import ResolveDeps FileList Conflict Remove Db Sync FileOps LocalDb LocalDir Commit Trans.
Local Open Scope Z_scope.

(** ** What the calls leave alone *)

Definition busy (h : alpm_handle_t) : Prop := t_state <$> h_trans h ≠ Some STATE_IDLE.

(** The lock, the options and the flags of the transaction are the same, it does
    not become idle, and no address is given back. *)
Record held (h h' : alpm_handle_t) : Prop := {
  hd_lockfd : h_lockfd h' = h_lockfd h;
  hd_options : h_options h' = h_options h;
  hd_flags : t_flags <$> h_trans h' = t_flags <$> h_trans h;
  hd_busy : busy h → busy h';
  hd_assume : h_assumeinstalled h' = h_assumeinstalled h;
  hd_hookdirs : h_hookdirs h' = h_hookdirs h;
  hd_next : (h_next h <= h_next h')%nat
}.

(** So are the local database and the state of the transaction. *)
Record kept (h h' : alpm_handle_t) : Prop := {
  k_held : held h h';
  k_local : h_db_local h' = h_db_local h;
  k_state : t_state <$> h_trans h' = t_state <$> h_trans h
}.

#[export] Instance held_preorder : PreOrder held.
Proof.
  split.
  - by intros h.
  - intros h1 h2 h3 [] []. split; [congruence..|auto|congruence|congruence|lia].
Qed.

#[export] Instance kept_preorder : PreOrder kept.
Proof.
  split.
  - by intros h.
  - intros h1 h2 h3 [] []. split; [by etrans|congruence..].
Qed.

Lemma kept_errno h e : kept h (set_errno e h).
Proof. by split. Qed.

Lemma kept_next h n : (h_next h <= n)%nat → kept h (set_next n h).
Proof. by split. Qed.

Lemma kept_upd f h :
  (∀ t, t_flags (f t) = t_flags t ∧ t_state (f t) = t_state t) → kept h (upd_trans f h).
Proof.
  intros Hf. split; [split; try done|done|]; unfold busy, upd_trans; simpl;
    (destruct (h_trans h) as [t|]; simpl; [|done]); destruct (Hf t) as [E1 E2]; by rewrite ?E1, ?E2.
Qed.

Lemma held_state s h : s ≠ STATE_IDLE → held h (upd_trans (with_state s) h).
Proof.
  intros Hs. split; try done; unfold busy, upd_trans; simpl;
    (destruct (h_trans h) as [t|]; simpl; [|done]); [done|congruence].
Qed.

Ltac kept_step :=
  first [ assumption | reflexivity | (apply kept_upd; intros []; by split)
        | (etrans; [|apply kept_upd; intros []; by split])
        | (etrans; [|apply kept_errno]) | (etrans; [|apply kept_next; simpl; lia]) ].
Ltac keeps := repeat kept_step.

Lemma kept_fold {A} (f : alpm_handle_t → A → alpm_handle_t) l h :
  (∀ h x, kept h (f h x)) → kept h (fold_left f l h).
Proof.
  intros Hf. revert h. induction l as [|x l IH]; intros h; simpl; [done|]. etrans; [apply Hf|apply IH].
Qed.

Lemma dup_pkg_kept h p : kept h (dup_pkg h p).2.
Proof. apply kept_next. lia. Qed.

Lemma cascade_one_kept h m : kept h (cascade_one h m).
Proof.
  unfold cascade_one. destruct (alpm_db_get_pkgfromcache _ _) as [info|]; [|done].
  destruct (is_some _); [done|]. unfold dup_pkg. keeps.
Qed.

Lemma keep_one_kept h m : kept h (keep_one h m).
Proof.
  unfold keep_one. destruct (miss_causingpkg m); [|done]. destruct (alpm_pkg_find _ _); [keeps|done].
Qed.

Lemma cascade_kept fuel h lp h' : remove_prepare_cascade fuel h lp = Some h' → kept h h'.
Proof.
  revert h lp. induction fuel as [|fuel IH]; intros h [|m lp]; cbn [remove_prepare_cascade];
    try (by intros [= <-]).
  intros H%IH. etrans; [|exact H]. unfold check_handle. keeps.
  apply (kept_fold cascade_one (m :: lp)), cascade_one_kept.
Qed.

Lemma keep_needed_kept fuel h lp h' : remove_prepare_keep_needed fuel h lp = Some h' → kept h h'.
Proof.
  revert h lp. induction fuel as [|fuel IH]; intros h [|m lp]; cbn [remove_prepare_keep_needed];
    try (by intros [= <-]).
  intros H%IH. etrans; [|exact H]. unfold check_handle. keeps.
  apply (kept_fold keep_one (m :: lp)), keep_one_kept.
Qed.

Lemma recurse_remove_kept h : kept h (recurse_remove h).
Proof. unfold recurse_remove. keeps. Qed.

Lemma remove_finish_kept h : kept h (rp_handle (remove_finish h)).
Proof. unfold remove_finish. simpl. destruct (_ && _); [apply recurse_remove_kept|done]. Qed.

Lemma remove_prepare_kept h r : alpm_remove_prepare h = Some r → kept h (rp_handle r).
Proof.
  unfold alpm_remove_prepare.
  set (h1 := if _ && _ then recurse_remove h else h).
  assert (kept h h1) as H1 by (unfold h1; destruct (_ && _); [apply recurse_remove_kept|done]).
  assert (kept h (check_handle h1)) as H2 by (unfold check_handle; keeps).
  clearbody h1.
  destruct (negb (has_flag _ ALPM_TRANS_FLAG_NODEPS)); [|intros [= <-]; etrans; [exact H1|apply remove_finish_kept]].
  destruct (removal_check h1) as [|m lp].
  { intros [= <-]. etrans; [exact H2|apply remove_finish_kept]. }
  destruct (has_flag _ ALPM_TRANS_FLAG_CASCADE); [|destruct (has_flag _ ALPM_TRANS_FLAG_UNNEEDED)].
  - destruct (remove_prepare_cascade _ _ _) as [h'|] eqn:E; [|done]. intros [= <-].
    apply cascade_kept in E. etrans; [exact H2|]. etrans; [exact E|apply remove_finish_kept].
  - destruct (remove_prepare_keep_needed _ _ _) as [h'|] eqn:E; [|done]. intros [= <-].
    apply keep_needed_kept in E. etrans; [exact H2|]. etrans; [exact E|apply remove_finish_kept].
  - intros [= <-]. cbn. keeps.
Qed.

(** A step of the preparation keeps the handle, whether it fails or goes on. *)
Definition step_kept {A} (h : alpm_handle_t) (m : step A) (get : A → alpm_handle_t) : Prop :=
  match m with
  | None => True
  | Some (inl r) => kept h (sr_handle r)
  | Some (inr a) => kept h (get a)
  end.

Lemma step_kept_bind {A B} h (m : step A) (f : A → step B) get get' :
  step_kept h m get → (∀ a, kept h (get a) → step_kept h (f a) get') →
  step_kept h (andthen m f) get'.
Proof. destruct m as [[r|a]|]; simpl; auto. Qed.

Lemma step_kept_trans {A} h h' (m : step A) get :
  kept h h' → step_kept h' m get → step_kept h m get.
Proof. intros H. destruct m as [[r|a]|]; simpl; [..|done]; intros ?; by etrans. Qed.

Lemma sync_resolve_kept env h : step_kept h (sync_resolve env h) fst.
Proof.
  unfold sync_resolve.
  destruct (resolve_targets _ _ _ _ _ _ _ _ _ _) as [[[res unres] data]|]; [|done].
  apply step_kept_bind with (get := fst).
  - destruct unres; [by simpl|]. destruct (q_remove_pkgs _ _); simpl; keeps.
  - intros [h' data'] H. simpl in H. destruct (same_filenames res) as [[]|]; simpl; keeps.
Qed.

Lemma settle_inner_kept deps h data : step_kept h (settle_inner deps h data) id.
Proof.
  revert h. induction deps as [|c deps IH]; intros h; [by simpl|]. cbn [settle_inner].
  destruct (alpm_pkg_find _ _) as [s1|]; [|apply IH].
  destruct (alpm_pkg_find (trans_add h) (pkg_name (c_package2 c))) as [s2|]; [|apply IH]. cbn zeta.
  repeat case_match; simpl; try (eapply step_kept_trans; [|apply IH]); keeps.
Qed.

Lemma settle_outer_kept env deps h data : step_kept h (settle_outer env deps h data) id.
Proof.
  revert h. induction deps as [|c deps IH]; intros h; [by simpl|]. cbn [settle_outer].
  destruct (_ || _); [apply IH|]. destruct (q_conflict_pkg _ _ _); [|simpl; keeps].
  destruct (alpm_pkg_find _ _); [|done]. destruct (alpm_db_get_pkgfromcache _ _); [|done].
  eapply step_kept_trans; [|apply IH]. keeps.
Qed.

Lemma build_removals_kept h : kept h (build_removals h).
Proof.
  apply kept_fold. intros h' p. unfold elect_removal. destruct (is_some _); [done|].
  unfold dup_pkg. keeps.
Qed.

Lemma finish_targets_kept cached h l add : kept h (finish_targets cached h l add).1.1.
Proof.
  revert h l. induction add as [|p add IH]; intros h l; [by simpl|]. cbn [finish_targets].
  destruct (alpm_db_get_pkg _ _ _) as [h1 lpkg] eqn:E1.
  assert (kept h h1) as H1.
  { unfold alpm_db_get_pkg in E1. repeat case_match; simplify_eq; unfold check_handle; keeps. }
  destruct (compute_download_size _ _ _) as [[h2 p'] rc] eqn:E2.
  assert (kept h h2) as H2.
  { unfold compute_download_size in E2. repeat case_match; simplify_eq; keeps. }
  destruct (rc <? 0); [done|]. destruct lpkg; [unfold dup_pkg|]; (etrans; [|apply IH]); keeps.
Qed.

Lemma sync_steps_kept env cached h : step_kept h (sync_steps env cached h) sr_handle.
Proof.
  unfold sync_steps. apply step_kept_bind with (get := fst).
  { destruct (negb _); [apply sync_resolve_kept|by simpl]. }
  intros [h1 data] H1. apply step_kept_bind with (get := id).
  { destruct (negb _); [|by simpl]. unfold sync_conflicts. eapply step_kept_trans; [exact H1|].
    apply step_kept_bind with (get := id); [apply settle_inner_kept|]. intros h2 H2.
    eapply step_kept_trans; [exact H2|apply settle_outer_kept]. }
  intros h2 H2. pose proof (build_removals_kept h2) as H3.
  assert (kept h (build_removals h2)) as H4 by (by etrans). clear H3.
  apply step_kept_bind with (get := id).
  { destruct (negb _); [|by simpl]. destruct (alpm_checkdeps _ _ _ _ _); simpl; unfold check_handle; keeps. }
  intros h3 H5. simpl. unfold sync_finish.
  pose proof (finish_targets_kept cached h3 [] (trans_add h3)) as H6.
  destruct (finish_targets _ _ _ _) as [[h4 add] rc]. simpl in *.
  etrans; [exact H5|]. keeps.
Qed.

Lemma sync_prepare_kept env cached h r :
  alpm_sync_prepare env cached h = Some r → kept h (sr_handle r).
Proof.
  unfold alpm_sync_prepare. destruct (check_dbs _ _); [intros [= <-]; simpl; keeps|].
  pose proof (sync_steps_kept env cached h) as H.
  by destruct (sync_steps env cached h) as [[r'|r']|]; simpl in H; [intros [= <-]..|].
Qed.

(** ** Adding targets *)
Lemma add_pkg_kept h p : kept h (alpm_add_pkg h p).1.
Proof. unfold alpm_add_pkg, ret_err, check_handle. repeat case_match; simpl; keeps. Qed.

Lemma remove_pkg_kept h p : kept h (alpm_remove_pkg h p).1.
Proof. unfold alpm_remove_pkg, ret_err, check_handle, dup_pkg. repeat case_match; simpl; keeps. Qed.

Lemma sysupgrade_kept env h b : kept h (alpm_sync_sysupgrade env h b).1.
Proof. unfold alpm_sync_sysupgrade, ret_err, check_handle. repeat case_match; simpl; keeps. Qed.

(** ** Preparing *)
Lemma kept_phase h h' :
  kept h h' → is_Some (h_trans h) → is_Some (h_trans h').
Proof. intros [[_ _ H] _ _]. by destruct (h_trans h), (h_trans h'). Qed.

Lemma prepare_finish_spec h h' :
  prepare_finish h = Some h' →
  held h h' ∧ h_db_local h' = h_db_local h ∧
  (is_Some (h_trans h) → t_state <$> h_trans h' = Some STATE_PREPARED).
Proof.
  unfold prepare_finish.
  set (m := if negb _ then sort_targets h else Some h).
  assert (∀ h1, m = Some h1 → kept h h1) as Hm.
  { intros h1. unfold m. destruct (negb _); [|by intros [= <-]]. unfold sort_targets.
    destruct (alpm_sortbydeps _ _ _ _) as [add|]; [|done]. cbn.
    destruct (alpm_sortbydeps _ _ _ true) as [rem|]; [|done]. cbn. intros [= <-]. keeps. }
  destruct m as [h1|]; [|done]. intros [= <-]. pose proof (Hm h1 eq_refl) as H.
  split_and!.
  - etrans; [apply H|]. by apply held_state.
  - apply H.
  - intros Ht. destruct (kept_phase _ _ H Ht) as [t Et]. unfold upd_trans. simpl. by rewrite Et.
Qed.

(** ** Loading and checking *)
Lemma download_files_held te h :
  held h (download_files te h).1 ∧ h_db_local (download_files te h).1 = h_db_local h ∧
  (t_state <$> h_trans (download_files te h).1 = t_state <$> h_trans h ∨
   t_state <$> h_trans (download_files te h).1 = (λ _, STATE_DOWNLOADING) <$> h_trans h).
Proof.
  set (h1 := upd_trans (with_state STATE_DOWNLOADING) h).
  assert (held h h1) as H1 by by apply held_state.
  assert (t_state <$> h_trans h1 = (λ _, STATE_DOWNLOADING) <$> h_trans h) as H2
    by (unfold h1, upd_trans; simpl; by destruct (h_trans h)).
  assert (∀ h, kept h (download_finish h)) as H3 by (intros ?; unfold download_finish; keeps).
  unfold download_files. fold h1.
  destruct (negb (te_tmpdir te)); [destruct (H3 h); auto|].
  assert (∀ h', kept h1 h' → held h h' ∧ h_db_local h' = h_db_local h ∧
    (t_state <$> h_trans h' = t_state <$> h_trans h ∨
     t_state <$> h_trans h' = (λ _, STATE_DOWNLOADING) <$> h_trans h)) as H4.
  { intros h' [K1 K2 K3]. split_and!; [by etrans|done|right; by rewrite K3]. }
  repeat case_match; cbn [fst]; apply H4; (etrans; [|apply H3]); keeps.
Qed.

Lemma check_validity_kept te h : kept h (check_validity te h).1.
Proof.
  unfold check_validity. destruct (validate_targets _ _ _) as [[[add e] bad] miss].
  unfold ret_err. repeat case_match; simpl; keeps.
Qed.

Lemma load_packages_kept te h : kept h (load_packages te h).1.1.
Proof.
  unfold load_packages. destruct (load_loop _ _ _) as [[[add e] bad] miss].
  unfold ret_err. repeat case_match; simpl; keeps.
Qed.

(** A handle on which only the state of the transaction may have changed, to one
    of the states of a commit that has not touched the system. *)
Record loading (h h' : alpm_handle_t) : Prop := {
  ld_held : held h h';
  ld_local : h_db_local h' = h_db_local h;
  ld_state : t_state <$> h_trans h' = t_state <$> h_trans h ∨
             t_state <$> h_trans h' = (λ _, STATE_DOWNLOADING) <$> h_trans h
}.

Lemma loading_kept h h1 h2 : loading h h1 → kept h1 h2 → loading h h2.
Proof. intros [] []. split; [by etrans|congruence|]. rewrite k_state0. done. Qed.

Lemma sync_load_loading te h : loading h (alpm_sync_load te h).1.1.
Proof.
  unfold alpm_sync_load. destruct (download_files_held te h) as (K1 & K2 & K3).
  destruct (download_files te h) as [h1 rc]. cbn [fst] in *.
  assert (loading h h1) as H1 by by split.
  destruct (rc =? -1); [done|]. destruct (negb _); [done|].
  pose proof (check_validity_kept te h1) as H2. destruct (check_validity te h1) as [h2 rc2].
  cbn [fst] in *. assert (loading h h2) as H3 by by eapply loading_kept.
  destruct (negb _); [done|]. destruct (has_flag _ _); [done|].
  pose proof (load_packages_kept te h2) as H4. destruct (load_packages te h2) as [[h3 rc3] d].
  cbn [fst] in *. destruct (negb _); by eapply loading_kept.
Qed.

Lemma sync_check_kept te h fs : kept h (alpm_sync_check te h fs).1.1.
Proof.
  unfold alpm_sync_check. destruct (if negb _ then _ else _) as [conflicts skip].
  unfold ret_err. repeat case_match; simpl; keeps.
Qed.

(** ** The commit *)
Lemma remove_single_held ce h old new fs h' fs' :
  alpm_remove_single_package ce h old new fs = Some (h', fs') →
  held h h' ∧ t_state <$> h_trans h' = t_state <$> h_trans h.
Proof.
  unfold alpm_remove_single_package, remove_package_files. intros H.
  repeat (case_match; simplify_eq/=); done.
Qed.

Lemma signal_held ce p h : held h (signal ce p h).
Proof. unfold signal. destruct (ce_signal _ _); [by apply held_state|done]. Qed.

Lemma remove_loop_held ce b targets h fs h' fs' rc :
  remove_loop ce b targets h fs = Some (h', fs', rc) → held h h'.
Proof.
  revert h fs. induction targets as [|p l IH]; intros h fs; simpl; [by intros [= <- _ _]|].
  destruct (interrupted h); [by intros [= <- _ _]|].
  destruct (alpm_remove_single_package _ _ _ _ _) as [[h1 fs1]|] eqn:E; [|done].
  intros H%IH. etrans; [apply (remove_single_held _ _ _ _ _ _ _ E)|].
  etrans; [apply signal_held|exact H].
Qed.

(** The same lock and state. *)
Definition stays (h h' : alpm_handle_t) : Prop :=
  held h h' ∧ t_state <$> h_trans h' = t_state <$> h_trans h.

Lemma stays_trans h1 h2 h3 : stays h1 h2 → stays h2 h3 → stays h1 h3.
Proof. intros [A1 A2] [B1 B2]. split; [by etrans|congruence]. Qed.

Lemma stays_errno h h' e : stays h h' → stays h (set_errno e h').
Proof. intros [[] ?]. done. Qed.

Lemma commit_single_stays ce h p fs h' fs' rc :
  commit_single_pkg ce h p fs = Some (h', fs', rc) → stays h h'.
Proof.
  unfold commit_single_pkg.
  set (m := match (if is_some _ then pkg_oldpkg p else None) with Some o => _ | None => _ end).
  assert (∀ h1 fs1, m = Some (h1, fs1) → stays h h1) as Hm.
  { intros h1 fs1. unfold m. destruct (if is_some _ then _ else _); [|by intros [= <- _]].
    apply remove_single_held. }
  destruct m as [[h1 fs1]|]; [|done]. specialize (Hm _ _ eq_refl).
  destruct (alpm_local_db_prepare _ _ _ _) as [fs2 prepared]; destruct (prepared =? 0); cbn [negb]; [|intros [= <- _ _]; by apply stays_errno].
  destruct (ce_archive _ _) as [entries|]; [|intros [= <- _ _]; by apply stays_errno].
  destruct (negb _); [by intros [= <- _ _]|].
  destruct (extract_entries _ _ _ _ _ _ _) as [[fs3 p'] n].
  destruct (alpm_local_db_write _ _ _ _ _ _) as [fs4 written]; destruct (written =? 0); cbn [negb]; [|intros [= <- _ _]; by apply stays_errno].
  destruct (alpm_db_add_pkgincache _ _ _) as [[h2 db] n2] eqn:E.
  intros [= <- _ _]. eapply stays_trans; [exact Hm|].
  unfold alpm_db_add_pkgincache in E.
  repeat case_match; simplify_eq/=; (split; [split|]); simpl; try done; lia.
Qed.

Lemma upgrade_loop_held ce targets h fs ret h' fs' rc :
  upgrade_loop ce targets h fs ret = Some (h', fs', rc) → held h h'.
Proof.
  revert h fs ret. induction targets as [|p l IH]; intros h fs ret; simpl; [by intros [= <- _ _]|].
  destruct (interrupted h); [by intros [= <- _ _]|].
  destruct (commit_single_pkg _ _ _ _) as [[[h1 fs1] rc1]|] eqn:E; [|done].
  apply commit_single_stays in E as [E _]. pose proof (signal_held ce p h1) as Hs.
  destruct (rc1 =? 0); intros H%IH; (etrans; [exact E|]); (etrans; [exact Hs|]); [done|].
  etrans; [by apply (held_state STATE_INTERRUPTED)|].
  by destruct H.
Qed.

Lemma sync_commit_held ce h fs h' fs' rc :
  alpm_sync_commit ce h fs = Some (h', fs', rc) → held h h'.
Proof.
  unfold alpm_sync_commit.
  set (m := match trans_remove h with [] => _ | _ => _ end).
  assert (∀ h1 fs1 rc1, m = Some (h1, fs1, rc1) → held h h1) as Hm.
  { intros h1 fs1 rc1. unfold m. destruct (trans_remove h); [by intros [= <- _ _]|].
    apply remove_loop_held. }
  destruct m as [[[h1 fs1] rc1]|]; [|done]. specialize (Hm _ _ _ eq_refl).
  destruct (rc1 =? -1); [by intros [= <- _ _]|]. unfold alpm_upgrade_packages.
  destruct (trans_add h1); [by intros [= <- _ _]|]. intros H%upgrade_loop_held. by etrans.
Qed.

Lemma commit_packages_held te h fs h' fs' rc :
  commit_packages te h fs = Some (h', fs', rc) → held h h'.
Proof.
  unfold commit_packages. set (h1 := upd_trans _ h).
  assert (held h h1) as H1 by by apply held_state.
  destruct (match trans_add h1 with [] => _ | _ => _ end) as [[[h2 fs2] rc2]|] eqn:E; [|done].
  assert (held h h2) as H2.
  { etrans; [exact H1|]. destruct (trans_add h1); [by eapply remove_loop_held|by eapply sync_commit_held]. }
  cbn. destruct (rc2 =? -1); intros [= <- _ _]; [done|].
  etrans; [exact H2|]. by apply held_state.
Qed.

(** ** The calls of a front end *)
Inductive api_call :=
  | CInit (flags : Z)
  | CAdd (pkg : option alpm_pkg_t)
  | CRemove (pkg : option alpm_pkg_t)
  | CSysupgrade (enable_downgrade : bool)
  | CPrepare
  | CCommit
  | CInterrupt
  | CRelease
  | CUnlock
  | CSetReason (name : cstr) (reason : alpm_pkgreason_t).

(** The packages of the cache are shared by the list and the table: what is
    written to the one at an address is seen through both. *)
Definition at_address (pkg q : alpm_pkg_t) : alpm_pkg_t :=
  if (pkg_addr q =? pkg_addr pkg)%nat then pkg else q.

Definition cache_store (pkg : alpm_pkg_t) (db : alpm_db_t) : alpm_db_t :=
  match db_pkgcache db with
  | None => db
  | Some hash =>
      db_set_caches (Some (mk_pkghash (map (option_map (at_address pkg)) (hash_table hash))
                             (map (at_address pkg) (hash_list hash))
                             (buckets hash) (entries hash) (limit hash)))
        (db_grpcache db) (db_status db) db
  end.

(** change_install_reason for one target: the package of the local database and
    alpm_pkg_set_reason on it. *)
Definition set_reason_of (te : trans_env) (h : alpm_handle_t) (name : cstr)
    (reason : alpm_pkgreason_t) (fs : fsys) : option (alpm_handle_t * fsys * Z) :=
  match alpm_db_get_pkg h (h_db_local h) (Some name) with
  | (h, None) => Some (h, fs, -1)
  | (h, Some pkg) =>
      '(h, pkg, fs, rc) ← alpm_pkg_set_reason (ce_sys (te_commit te)) (local_path h) h pkg reason fs;
      Some (set_db_local (cache_store pkg (h_db_local h)) h, fs, rc)
  end.

(** A call on the handle and the file system, with its return code; [None] is
    undefined behaviour. *)
Definition run_call (te : trans_env) (c : api_call) (h : alpm_handle_t) (fs : fsys)
    : option (alpm_handle_t * fsys * Z) :=
  let ret '(h, rc) := Some (h, fs, rc) in
  match c with
  | CInit flags => ret (alpm_trans_init te h flags)
  | CAdd pkg => ret (alpm_add_pkg h pkg)
  | CRemove pkg => ret (alpm_remove_pkg h pkg)
  | CSysupgrade b => ret (alpm_sync_sysupgrade (ce_env (te_commit te)) h b)
  | CPrepare => '(h, rc, _) ← alpm_trans_prepare te h; Some (h, fs, rc)
  | CCommit => '(h, fs, rc, _) ← alpm_trans_commit te h fs; Some (h, fs, rc)
  | CInterrupt => ret (alpm_trans_interrupt h)
  | CRelease => ret (alpm_trans_release te h)
  | CUnlock => ret (alpm_unlock te h)
  | CSetReason name reason => set_reason_of te h name reason fs
  end.

(** Whether alpm_unlock was called since the transaction of [h'] was started. *)
Definition unlocked_after (c : api_call) (u : bool) (h' : alpm_handle_t) : bool :=
  is_some (h_trans h') && match c with CUnlock => true | _ => u end.

(** The sequences of calls from a fresh handle, with the above; the environment
    may answer differently every time. *)
Inductive reachable (h0 : alpm_handle_t) (fs0 : fsys) : bool → alpm_handle_t → fsys → Prop :=
  | reach_start : reachable h0 fs0 false h0 fs0
  | reach_call te c u h fs h' fs' rc :
      reachable h0 fs0 u h fs → run_call te c h fs = Some (h', fs', rc) →
      reachable h0 fs0 (unlocked_after c u h') h' fs'.

(** The abstract protocol: flags and state of the transaction before and after a
    call with its return code. *)
Definition phase (h : alpm_handle_t) : option (Z * alpm_transstate_t) :=
  (λ t, (t_flags t, t_state t)) <$> h_trans h.

Definition steady (c : api_call) : bool :=
  match c with
  | CAdd _ | CRemove _ | CSysupgrade _ | CUnlock | CSetReason _ _ => true
  | _ => false
  end.

Inductive protocol : api_call → Z → option (Z * alpm_transstate_t) →
    option (Z * alpm_transstate_t) → Prop :=
  | p_steady c rc p : steady c = true → protocol c rc p p
  | p_failed c rc p : rc ≠ 0 → protocol c rc p p
  | p_init flags : protocol (CInit flags) 0 None (Some (flags, STATE_INITIALIZED))
  | p_prepare f s :
      s = STATE_PREPARED ∨ s = STATE_INITIALIZED (* no targets *) →
      protocol CPrepare 0 (Some (f, STATE_INITIALIZED)) (Some (f, s))
  | p_commit f s :
      has_flag f ALPM_TRANS_FLAG_NOLOCK = false →
      s = STATE_COMMITTED ∨ s = STATE_PREPARED (* no targets *) ∨
      has_flag f ALPM_TRANS_FLAG_DOWNLOADONLY = true ∧ s = STATE_DOWNLOADING →
      protocol CCommit 0 (Some (f, STATE_PREPARED)) (Some (f, s))
  | p_commit_failed f s rc :
      rc ≠ 0 → s ≠ STATE_IDLE → has_flag f ALPM_TRANS_FLAG_NOLOCK = false →
      protocol CCommit rc (Some (f, STATE_PREPARED)) (Some (f, s))
  | p_interrupt f s :
      s = STATE_COMMITTING ∨ s = STATE_INTERRUPTED →
      protocol CInterrupt 0 (Some (f, s)) (Some (f, STATE_INTERRUPTED))
  | p_release f s : s ≠ STATE_IDLE → protocol CRelease 0 (Some (f, s)) None.

(** A transaction that asked for the lock. *)
Definition locking (h : alpm_handle_t) : Prop :=
  ∃ t, h_trans h = Some t ∧ has_flag (t_flags t) ALPM_TRANS_FLAG_NOLOCK = false.

(** The lock is held exactly while such a transaction exists and alpm_unlock was
    not called; no transaction is idle. *)
Record lock_inv (u : bool) (h : alpm_handle_t) : Prop := {
  li_file : is_Some (o_lockfile (h_options h));
  li_lock : 0 <= h_lockfd h ↔ u = false ∧ locking h;
  li_unlocked : u = true → is_Some (h_trans h);
  li_busy : busy h
}.

Lemma kept_phase_eq h h' : kept h h' → phase h' = phase h.
Proof.
  intros [[_ _ H1] _ H2]. unfold phase.
  destruct (h_trans h), (h_trans h'); simpl in *; try done. congruence.
Qed.

Lemma held_lock_inv c u h h' :
  c ≠ CUnlock → lock_inv u h → held h h' → lock_inv (unlocked_after c u h') h'.
Proof.
  intros Hc [H1 H2 H3 H4] [E1 E2 E3 E4 _ _].
  assert (unlocked_after c u h' = u) as ->.
  { transitivity (is_some (h_trans h') && u); [by destruct c|]. destruct u; [|apply andb_false_r].
    destruct (H3 eq_refl) as [t Et]. rewrite Et in E3. by destruct (h_trans h'). }
  unfold locking in *. split; [by rewrite E2| | |auto].
  - rewrite E1, H2. unfold locking.
    destruct (h_trans h) as [t|], (h_trans h') as [t'|]; simpl in *; [|done..|].
    2:{ split; by intros (_ & ? & ? & _). }
    injection E3 as E3. split; intros (? & ? & [= <-] & ?); (split; [done|]); eexists; (split; [done|]); congruence.
  - intros Hu%H3. by destruct (h_trans h), (h_trans h').
Qed.

(** Only the recorded reason of one installed package, in the cache and in its
    file desc. *)
Definition reason_changed (name : cstr) (h h' : alpm_handle_t) (fs fs' : fsys) : Prop :=
  ∃ p p', alpm_db_get_pkgfromcache (h_db_local h) name = Some p ∧ identity p' = identity p ∧
    installed h' = map (at_address p') (installed h) ∧
    (∀ path, path ≠ alpm_local_db_pkgpath (local_path h) p (Some (str "desc")) → fs' !! path = fs !! path).

(** What a call may do to a handle that satisfies the invariant. *)
Record call_ok (c : api_call) (rc : Z) (u : bool) (h h' : alpm_handle_t) (fs fs' : fsys) : Prop := {
  co_inv : lock_inv (unlocked_after c u h') h';
  co_protocol : protocol c rc (phase h) (phase h');
  co_system : h_db_local h' = h_db_local h ∧ fs' = fs ∨
              (∃ name r, c = CSetReason name r ∧ reason_changed name h h' fs fs') ∨
              c = CCommit ∧ locking h ∧ t_state <$> h_trans h = Some STATE_PREPARED ∧
              (u = false → 0 <= h_lockfd h)
}.

Lemma call_kept c rc u h h' fs :
  steady c = true ∨ rc ≠ 0 → c ≠ CUnlock → lock_inv u h → kept h h' → call_ok c rc u h h' fs fs.
Proof.
  intros Hc Hn Hi Hk. split.
  - eapply held_lock_inv; [done..|apply Hk].
  - rewrite (kept_phase_eq _ _ Hk). destruct Hc; by constructor.
  - left. split; [apply Hk|done].
Qed.

Lemma init_ok te u h flags fs h' rc :
  lock_inv u h → alpm_trans_init te h flags = (h', rc) → call_ok (CInit flags) rc u h h' fs fs.
Proof.
  intros Hi. unfold alpm_trans_init, ret_err, check_handle. cbn [h_trans set_errno].
  assert (∀ e, call_ok (CInit flags) (-1) u h (set_errno e (set_errno ALPM_ERR_OK h)) fs fs) as Hk
    by (intros e; apply call_kept; [by right|done|done|keeps]).
  destruct (h_trans h) as [t|] eqn:Et; [intros [= <- <-]; apply Hk|].
  assert (u = false) as -> by (destruct u; [destruct (li_unlocked _ _ Hi eq_refl); congruence|done]).
  assert (~ 0 <= h_lockfd h) as Hl by (rewrite (li_lock _ _ Hi); unfold locking; rewrite Et; by intros (_ & ? & ? & _)).
  destruct (li_file _ _ Hi) as [lf Elf]. unfold alpm_handle_lock. cbn [h_options h_lockfd set_errno].
  rewrite Elf, (proj2 (Z.ltb_lt _ _)) by lia. cbn [negb].
  destruct (has_flag flags _) eqn:Ef; cbn.
  { intros [= <- <-]. split; [|unfold phase; simpl; rewrite Et; constructor|by left].
    split; [simpl; by rewrite Elf| |done|done]. split; [by intros ?|].
    intros (_ & ? & [= <-] & ?). simpl in *. congruence. }
  destruct (te_makepath te); cbn; [|intros [= <- <-]; apply Hk].
  assert (∀ fd e, fd < 0 → call_ok (CInit flags) (-1) false h (set_errno e (set_lockfd fd
    (set_errno ALPM_ERR_OK h))) fs fs) as Hf.
  { intros fd e Hfd. split; [|unfold phase; simpl; by constructor|by left].
    split; [simpl; by rewrite Elf| |unfold unlocked_after; simpl; by rewrite Et|apply Hi].
    unfold locking. simpl. rewrite Et. split; [lia|]. by intros (_ & ? & ? & _). }
  destruct (te_open_lock te) as [fd|]; cbn; [|intros [= <- <-]; by apply Hf].
  destruct (0 <=? fd) eqn:Efd; cbn; intros [= <- <-]; [|apply Hf; lia].
  split; [|unfold phase; simpl; rewrite Et; constructor|by left].
  split; [simpl; by rewrite Elf| |done|done]. simpl. split; [|lia]. intros _. split; [done|].
  unfold locking. simpl. eauto.
Qed.

Lemma release_ok te u h fs h' rc :
  lock_inv u h → alpm_trans_release te h = (h', rc) → call_ok CRelease rc u h h' fs fs.
Proof.
  intros Hi. unfold alpm_trans_release, ret_err, check_handle. cbn [h_trans set_errno].
  assert (∀ e, call_ok CRelease (-1) u h (set_errno e (set_errno ALPM_ERR_OK h)) fs fs) as Hk
    by (intros e; apply call_kept; [by right|done|done|keeps]).
  destruct (h_trans h) as [t|] eqn:Et; [|intros [= <- <-]; apply Hk].
  destruct (bool_decide _) eqn:Eb; [intros [= <- <-]; apply Hk|].
  apply bool_decide_eq_false in Eb. intros [= <- <-].
  destruct (li_file _ _ Hi) as [lf Elf].
  assert (∀ h', h_db_local h' = h_db_local h → h_trans h' = None → h_options h' = h_options h →
    h_lockfd h' < 0 → call_ok CRelease 0 u h h' fs fs) as Hok.
  { intros h' E1 E2 E3 E4. split.
    - unfold unlocked_after. rewrite E2. split; [by rewrite E3, Elf| |done|unfold busy; by rewrite E2].
      split; [lia|]. unfold locking. rewrite E2. by intros (_ & ? & ? & _).
    - unfold phase. rewrite Et, E2. by constructor.
    - by left. }
  unfold alpm_unlock. cbn [h_options h_lockfd set_trans set_errno]. rewrite Elf.
  destruct (has_flag _ _) eqn:Ef; cbn [negb].
  { apply Hok; [done..|]. simpl. apply Z.nle_gt. rewrite (li_lock _ _ Hi). unfold locking. rewrite Et.
    intros (_ & ? & [= <-] & ?). congruence. }
  destruct (0 <=? h_lockfd h) eqn:El; cbn [negb fst]; [|apply Hok; [done..|simpl; lia]].
  destruct (negb _); by apply Hok.
Qed.

Lemma unlock_ok te u h fs h' rc :
  lock_inv u h → alpm_unlock te h = (h', rc) → call_ok CUnlock rc u h h' fs fs.
Proof.
  intros Hi. destruct (li_file _ _ Hi) as [lf Elf].
  assert (∀ h', h_db_local h' = h_db_local h → h_trans h' = h_trans h → h_options h' = h_options h →
    h_lockfd h' < 0 → call_ok CUnlock rc u h h' fs fs) as Hok.
  { intros h1 E1 E2 E3 E4. split.
    - unfold unlocked_after. rewrite andb_true_r.
      split; [by rewrite E3, Elf| | |unfold busy; rewrite E2; apply Hi].
      + split; [lia|]. unfold locking. intros (Hu & t & Et & _). by rewrite Et in Hu.
      + by rewrite is_some_true.
    - unfold phase. rewrite E2. by constructor.
    - by left. }
  unfold alpm_unlock, ret_err. rewrite Elf. destruct (0 <=? h_lockfd h) eqn:El; cbn [negb].
  - destruct (negb _); intros [= <- <-]; by apply Hok.
  - intros [= <- <-]. apply Hok; [done..|lia].
Qed.

Lemma interrupt_ok u h fs h' rc :
  lock_inv u h → alpm_trans_interrupt h = (h', rc) → call_ok CInterrupt rc u h h' fs fs.
Proof.
  intros Hi. unfold alpm_trans_interrupt, ret_err, check_handle. cbn [h_trans set_errno].
  assert (∀ e, call_ok CInterrupt (-1) u h (set_errno e (set_errno ALPM_ERR_OK h)) fs fs) as Hk
    by (intros e; apply call_kept; [by right|done|done|keeps]).
  destruct (h_trans h) as [t|] eqn:Et; [|intros [= <- <-]; apply Hk].
  destruct (_ || _) eqn:Eb; cbn [negb fst]; intros [= <- <-]; [|apply Hk].
  assert (held h (upd_trans (with_state STATE_INTERRUPTED) (set_errno ALPM_ERR_OK h))) as Hh.
  { etrans; [apply kept_errno|]. by apply held_state. }
  split; [by eapply held_lock_inv| |by left]. unfold phase, upd_trans. simpl. rewrite Et. simpl.
  constructor. apply orb_true_iff in Eb as [Eb|Eb]; apply bool_decide_eq_true in Eb; auto.
Qed.

(** ** Setting the reason of a package *)
Lemma lazy_load_identity dbpath fs level p q :
  lazy_load dbpath fs level p = Some q → identity q = identity p.
Proof.
  unfold lazy_load. destruct (has_flag _ level); cbn [negb]; [by intros [= ->]|].
  destruct (decide (Z.land (pkg_infolevel p) level = level)) as [E|E].
  { unfold local_db_read. rewrite (proj2 (Z.eqb_eq _ _) E). by intros [= ->]. }
  destruct (has_flag (pkg_infolevel p) INFRQ_ERROR) eqn:Ee.
  { unfold local_db_read. rewrite (proj2 (Z.eqb_neq _ _) E), Ee. by intros [= ->]. }
  destruct (local_db_read_stage dbpath fs p level E Ee) as (q' & ok & Hid & _ & ->).
  destruct ok; by intros [= <-].
Qed.

Lemma write_desc_frame sys dbpath db p fs fs' rc :
  alpm_local_db_write sys dbpath db p INFRQ_DESC fs = (fs', rc) →
  ∀ path, path ≠ alpm_local_db_pkgpath dbpath p (Some (str "desc")) → fs' !! path = fs !! path.
Proof.
  unfold alpm_local_db_write, write_file. cbn [has_flag].
  change (has_flag INFRQ_DESC INFRQ_DESC) with true. change (has_flag INFRQ_DESC INFRQ_FILES) with false.
  intros H path Hp. repeat (case_match; simplify_eq/=; try done); by rewrite lookup_insert_ne.
Qed.

Lemma pkg_set_reason_spec sys dbpath h p r fs h' p' fs' rc :
  alpm_pkg_set_reason sys dbpath h p r fs = Some (h', p', fs', rc) →
  kept h h' ∧ identity p' = identity p ∧
  (∀ path, path ≠ alpm_local_db_pkgpath dbpath p (Some (str "desc")) → fs' !! path = fs !! path).
Proof.
  unfold alpm_pkg_set_reason.
  assert (∀ e, kept h (set_errno e (check_handle h))) as Hk by (intros e; unfold check_handle; keeps).
  destruct (pkg_origin p); try (intros [= <- <- <- _]; split_and!; [apply kept_errno|done..]).
  destruct (negb _); [intros [= <- <- <- _]; split_and!; [apply kept_errno|done..]|].
  unfold cache_get_reason, cache_get. destruct (lazy_load _ _ _ _) as [q|] eqn:E; [|done]. cbn.
  apply lazy_load_identity in E. assert (kept h (check_handle h)) as Hc by (unfold check_handle; keeps).
  destruct (bool_decide _); [intros [= <- <- <- _]; by split_and!|].
  destruct (alpm_local_db_write _ _ _ _ _ _) as [fs1 rc1] eqn:Ew.
  assert (alpm_local_db_pkgpath dbpath (set_reason q r) (Some (str "desc")) =
          alpm_local_db_pkgpath dbpath p (Some (str "desc"))) as Ep.
  { unfold alpm_local_db_pkgpath, identity in *. simpl. congruence. }
  pose proof (write_desc_frame _ _ _ _ _ _ _ Ew) as Hf. rewrite Ep in Hf.
  destruct (negb _); intros [= <- <- <- _]; split_and!; done || (unfold identity in *; by simpl).
Qed.

Lemma set_reason_ok te u h name r fs h' fs' rc :
  lock_inv u h → set_reason_of te h name r fs = Some (h', fs', rc) →
  call_ok (CSetReason name r) rc u h h' fs fs'.
Proof.
  intros Hi. unfold set_reason_of, alpm_db_get_pkg.
  assert (∀ e, call_ok (CSetReason name r) (-1) u h (set_errno e h) fs fs) as Hk
    by (intros e; apply call_kept; [by right|done|done|apply kept_errno]).
  destruct name as [|c n]; [intros [= <- <- <-]; apply Hk|].
  destruct (alpm_db_get_pkgfromcache _ _) as [p|] eqn:Ep; [|intros [= <- <- <-]; apply Hk].
  destruct (alpm_pkg_set_reason _ _ _ _ _ _) as [[[[h1 p1] fs1] rc1]|] eqn:E; [|done].
  cbn [mbind option_bind]. intros [= <- <- <-]. apply pkg_set_reason_spec in E as (K & Hid & Hf).
  assert (kept h h1) as Hh by (etrans; [|exact K]; unfold check_handle; keeps). clear K.
  pose proof Hh as [[] E2 _]. split.
  - eapply held_lock_inv; [done..|]. by split.
  - change (phase (set_db_local _ h1)) with (phase h1). rewrite (kept_phase_eq _ _ Hh). by constructor.
  - right. left. exists (c :: n), r. split; [done|]. exists p, p1. split_and!; [done..| |exact Hf].
    unfold installed, alpm_db_get_pkgcache, alpm_db_get_pkgcache_hash, cache_store. simpl. rewrite E2.
    destruct (db_pkgcache (h_db_local h)) eqn:Ec; simpl; rewrite ?Ec; by destruct (negb _).
Qed.

Lemma prepare_ok te u h fs h' rc data :
  lock_inv u h → alpm_trans_prepare te h = Some (h', rc, data) → call_ok CPrepare rc u h h' fs fs.
Proof.
  intros Hi. unfold alpm_trans_prepare, ret_err. set (h1 := check_handle h).
  assert (kept h h1) as H1 by (unfold h1, check_handle; keeps).
  assert (∀ h2, kept h1 h2 → call_ok CPrepare (-1) u h h2 fs fs) as Hk
    by (intros h2 H2; apply call_kept; [by right|done|done|by etrans]).
  change (h_trans h1) with (h_trans h).
  destruct (h_trans h) as [t|] eqn:Et; [|intros [= <- <- _]; apply Hk; keeps].
  destruct (bool_decide _) eqn:Es; cbn [negb]; [|intros [= <- <- _]; apply Hk; keeps].
  apply bool_decide_eq_true in Es.
  destruct (match t_add t, t_remove t with [], [] => true | _, _ => false end) eqn:En.
  { destruct (t_add t), (t_remove t); try done. intros [= <- <- _].
    split; [eapply held_lock_inv; [done..|apply H1]| |by left].
    rewrite (kept_phase_eq _ _ H1). unfold phase. rewrite Et. simpl. rewrite Es. apply p_prepare. auto. }
  assert (∀ (A : Type) (x y : A), match t_add t, t_remove t with [], [] => x | _, _ => y end = y)
    as -> by (intros; by destruct (t_add t), (t_remove t)).
  destruct (check_arch h1 (t_add t)); [|intros [= <- <- _]; apply Hk; keeps].
  set (m := match t_add t with [] => _ | _ => _ end).
  assert (∀ h2 rc2 d2, m = Some (h2, rc2, d2) → kept h1 h2) as Hm.
  { intros h2 rc2 d2. unfold m. destruct (t_add t).
    - destruct (alpm_remove_prepare h1) as [r|] eqn:E; [|done]. cbn. intros [= <- _ _].
      by apply remove_prepare_kept.
    - destruct (alpm_sync_prepare _ _ h1) as [r|] eqn:E; [|done]. cbn. intros [= <- _ _].
      by eapply sync_prepare_kept. }
  destruct m as [[[h2 rc2] d2]|]; [|done]. specialize (Hm _ _ _ eq_refl). cbn.
  destruct (rc2 =? -1); [intros [= <- <- _]; by apply Hk|].
  destruct (prepare_finish h2) as [h3|] eqn:E3; [|done]. cbn. intros [= <- <- _].
  apply prepare_finish_spec in E3 as (F1 & F2 & F3).
  assert (kept h h2) as K by (by etrans). pose proof K as [K1 K2 K3].
  assert (held h h3) as Hh by (by etrans).
  split; [by eapply held_lock_inv| |left; split; [congruence|done]].
  pose proof (hd_flags _ _ Hh) as Hfl. unfold phase. rewrite Et in *. simpl in *.
  specialize (F3 (kept_phase _ _ K ltac:(by rewrite Et))).
  destruct (h_trans h3) as [t3|]; [|done]. simpl in *. injection Hfl as ->. injection F3 as ->.
  rewrite Es. apply p_prepare. auto.
Qed.

(** What precedes the work of a commit: loading and checking the packages. *)
Definition commit_load (te : trans_env) (t : alpm_trans_t) (h : alpm_handle_t) (fs : fsys)
    : alpm_handle_t * Z * trans_data * bool :=
  match t_add t with
  | [] => (h, 0, NoData, false)
  | _ =>
      let '(h, rc, data) := alpm_sync_load te h in
      if negb (rc =? 0) then (h, -1, data, true)
      else if has_flag (t_flags t) ALPM_TRANS_FLAG_DOWNLOADONLY then (h, 0, data, true)
      else let '(h, rc, data) := alpm_sync_check te h fs in
           if negb (rc =? 0) then (h, -1, data, true) else (h, 0, NoData, false)
  end.

Lemma commit_load_spec te t h fs h' rc data stop :
  commit_load te t h fs = (h', rc, data, stop) →
  held h h' ∧ (stop = true → rc ≠ 0 ∨ rc = 0 ∧ has_flag (t_flags t) ALPM_TRANS_FLAG_DOWNLOADONLY = true ∧
    loading h h').
Proof.
  unfold commit_load. destruct (t_add t); [by intros [= <- _ _ <-]|].
  pose proof (sync_load_loading te h) as L. destruct (alpm_sync_load te h) as [[h2 rc2] d2].
  cbn [fst] in L. pose proof (ld_held _ _ L) as Hh.
  destruct (negb _); [intros [= <- <- _ _]; split; [done|by left]|].
  destruct (has_flag _ _) eqn:Ef; [intros [= <- <- _ _]; split; [done|by right]|].
  pose proof (sync_check_kept te h2 fs) as [C _ _].
  destruct (alpm_sync_check te h2 fs) as [[h3 rc3] d3]. cbn [fst] in C.
  destruct (negb _); intros [= <- <- _ <-]; (split; [by etrans|]); [by left|done].
Qed.

Lemma commit_packages_state te h fs h' fs' rc :
  is_Some (h_trans h) → commit_packages te h fs = Some (h', fs', rc) →
  rc = -1 ∨ rc = 0 ∧ t_state <$> h_trans h' = Some STATE_COMMITTED.
Proof.
  intros Ht. unfold commit_packages. set (h1 := upd_trans _ h).
  assert (held h h1) as H1 by by apply held_state.
  destruct (match trans_add h1 with [] => _ | _ => _ end) as [[[h2 fs2] rc2]|] eqn:E; [|done].
  assert (held h h2) as H2.
  { etrans; [exact H1|]. destruct (trans_add h1); [by eapply remove_loop_held|by eapply sync_commit_held]. }
  cbn. destruct (rc2 =? -1); intros [= <- _ <-]; [by left|right]. split; [done|].
  pose proof (hd_flags _ _ H2) as Hf. destruct Ht as [t Et]. rewrite Et in Hf.
  unfold upd_trans. simpl. by destruct (h_trans h2).
Qed.

(** A commit of a prepared transaction, by the state it leaves. *)
Lemma commit_call u h fs h' fs' rc t :
  lock_inv u h → h_trans h = Some t → t_state t = STATE_PREPARED →
  has_flag (t_flags t) ALPM_TRANS_FLAG_NOLOCK = false → held h h' →
  (rc = 0 → t_state <$> h_trans h' = Some STATE_COMMITTED ∨ t_state <$> h_trans h' = Some STATE_PREPARED ∨
    has_flag (t_flags t) ALPM_TRANS_FLAG_DOWNLOADONLY = true ∧
    t_state <$> h_trans h' = Some STATE_DOWNLOADING) →
  call_ok CCommit rc u h h' fs fs'.
Proof.
  intros Hi Et Es Ef Hh Hs. assert (lock_inv (unlocked_after CCommit u h') h') as Hi'
    by by eapply held_lock_inv.
  pose proof (hd_flags _ _ Hh) as Hfl. pose proof (li_busy _ _ Hi') as Hb.
  assert (locking h) as Hl by (by exists t). split; [done| |].
  - unfold phase, busy in *. rewrite Et in *. simpl in *. destruct (h_trans h') as [t'|]; [|done].
    simpl in *. injection Hfl as ->. rewrite Es. destruct (decide (rc = 0)) as [->|Hrc].
    + apply p_commit; [done|]. destruct (Hs eq_refl) as [H|[H|[? H]]]; injection H as ->; auto.
    + apply p_commit_failed; [done|congruence|done].
  - right. right. rewrite Et. simpl. rewrite Es. split_and!; [done..|].
    intros ->. by apply (li_lock _ _ Hi).
Qed.

Lemma commit_ok te u h fs h' fs' rc data :
  lock_inv u h → alpm_trans_commit te h fs = Some (h', fs', rc, data) → call_ok CCommit rc u h h' fs fs'.
Proof.
  intros Hi. unfold alpm_trans_commit, ret_err. set (h1 := check_handle h).
  assert (kept h h1) as H1 by (unfold h1, check_handle; keeps).
  assert (∀ e, call_ok CCommit (-1) u h (set_errno e h1) fs fs) as Hk
    by (intros e; apply call_kept; [by right|done|done|keeps]).
  change (h_trans h1) with (h_trans h).
  destruct (h_trans h) as [t|] eqn:Et; [|intros [= <- <- <- _]; apply Hk].
  destruct (bool_decide _) eqn:Es; cbn [negb]; [|intros [= <- <- <- _]; apply Hk].
  apply bool_decide_eq_true in Es.
  destruct (has_flag (t_flags t) ALPM_TRANS_FLAG_NOLOCK) eqn:Ef; [intros [= <- <- <- _]; apply Hk|].
  pose proof (λ fs' h' rc, commit_call u h fs h' fs' rc t Hi Et Es Ef) as Hc.
  assert (h_trans h1 = Some t) as Et1 by done. clearbody h1.
  destruct (match t_add t, t_remove t with [], [] => true | _, _ => false end) eqn:En.
  { destruct (t_add t), (t_remove t); try done. intros [= <- <- <- _]. apply Hc; [apply H1|].
    intros _. right. left. rewrite Et1. simpl. by rewrite Es. }
  assert (∀ (A : Type) (x y : A), match t_add t, t_remove t with [], [] => x | _, _ => y end = y)
    as -> by (intros; by destruct (t_add t), (t_remove t)).
  fold (commit_load te t h1 fs).
  destruct (commit_load te t h1 fs) as [[[h2 rc2] d2] stop] eqn:Em.
  apply commit_load_spec in Em as [Hm Hstop]. assert (held h h2) as Hh by (etrans; [apply H1|done]).
  destruct stop.
  { intros [= <- <- <- _]. apply Hc; [done|]. intros ->.
    destruct (Hstop eq_refl) as [?|(_ & Hd & [_ _ Hs])]; [done|].
    rewrite Et1 in Hs. simpl in Hs. rewrite Es in Hs. destruct Hs; auto. }
  destruct (if negb _ then te_pre_hook te h2 fs else (fs, true)) as [fs2 []]; cbn [negb].
  2:{ intros [= <- <- <- _]. apply Hc; [|done]. etrans; [exact Hh|apply kept_errno]. }
  destruct (commit_packages te h2 fs2) as [[[h3 fs3] rc3]|] eqn:E; [|done]. cbn.
  intros [= <- <- <- _]. apply Hc; [etrans; [exact Hh|by eapply commit_packages_held]|].
  intros ->. assert (is_Some (h_trans h2)) as Ht2.
  { pose proof (hd_flags _ _ Hm) as Hf. rewrite Et1 in Hf. by destruct (h_trans h2). }
  destruct (commit_packages_state _ _ _ _ _ _ Ht2 E) as [|[_ Hs]]; [done|by left].
Qed.

Lemma run_call_ok te c u h fs h' fs' rc :
  lock_inv u h → run_call te c h fs = Some (h', fs', rc) → call_ok c rc u h h' fs fs'.
Proof.
  intros Hi. destruct c; simpl.
  - destruct (alpm_trans_init te h flags) eqn:E. intros [= <- <- <-]. by eapply init_ok.
  - pose proof (add_pkg_kept h pkg) as H. destruct (alpm_add_pkg h pkg).
    intros [= <- <- <-]. apply call_kept; auto.
  - pose proof (remove_pkg_kept h pkg) as H. destruct (alpm_remove_pkg h pkg).
    intros [= <- <- <-]. apply call_kept; auto.
  - pose proof (sysupgrade_kept (ce_env (te_commit te)) h enable_downgrade) as H.
    destruct (alpm_sync_sysupgrade _ _ _). intros [= <- <- <-]. apply call_kept; auto.
  - destruct (alpm_trans_prepare te h) as [[[h1 rc1] d]|] eqn:E; [|done]. intros [= <- <- <-].
    by eapply prepare_ok.
  - destruct (alpm_trans_commit te h fs) as [[[[h1 fs1] rc1] d]|] eqn:E; [|done].
    intros [= <- <- <-]. by eapply commit_ok.
  - destruct (alpm_trans_interrupt h) eqn:E. intros [= <- <- <-]. by eapply interrupt_ok.
  - destruct (alpm_trans_release te h) eqn:E. intros [= <- <- <-]. by eapply release_ok.
  - destruct (alpm_unlock te h) eqn:E. intros [= <- <- <-]. by eapply unlock_ok.
  - by apply set_reason_ok.
Qed.

(** The handle of a front end that has started no transaction. *)
Definition fresh_handle (h : alpm_handle_t) : Prop :=
  h_trans h = None ∧ h_lockfd h < 0 ∧ is_Some (o_lockfile (h_options h)).

Lemma fresh_inv h : fresh_handle h → lock_inv false h.
Proof.
  intros (E1 & E2 & E3). unfold locking. split; [done| |done|unfold busy; by rewrite E1].
  unfold locking. rewrite E1. split; [lia|]. by intros (_ & ? & ? & _).
Qed.

Lemma reachable_inv h0 fs0 u h fs : fresh_handle h0 → reachable h0 fs0 u h fs → lock_inv u h.
Proof.
  intros H0. induction 1 as [|te c u h fs h' fs' rc _ IH Hc]; [by apply fresh_inv|].
  by destruct (run_call_ok _ _ _ _ _ _ _ _ IH Hc).
Qed.


(** ** A session *)
Definition ex_te : trans_env :=
  let ce := mk_commit_env agreeing ex_os (λ _ _ fs, fs) (λ _, Some []) true (λ fs, fs) 0 (λ _, false) in
  mk_trans_env ce (Some 7) true true (λ _, Some 0) true true (λ _, true) true (λ _, inr 1)
    (λ p, if pkg_name_hash p =? alpm_hash_sdbm (pkg_name p) then inr p else inl ALPM_ERR_PKG_INVALID)
    None (λ _ fs, (fs, true)) (λ _ fs, fs).

Definition with_server (url : cstr) (db : alpm_db_t) : alpm_db_t :=
  mk_db (db_treename db) (db_pkgcache db) (db_grpcache db) (db_cache_servers db)
    (url :: db_servers db) (db_status db) (db_siglevel db) (db_usage db).

Definition ex_idle : alpm_handle_t :=
  let h := ex_mail 0 in
  set_trans None (set_dbs_sync (map (with_server (str "https://mirror/")) (h_dbs_sync h)) h).

(** The calls one after the other; [None] when one of them fails. *)
Fixpoint run_calls (te : trans_env) (cs : list api_call) (h : alpm_handle_t) (fs : fsys)
    : option (alpm_handle_t * fsys) :=
  match cs with
  | [] => Some (h, fs)
  | c :: cs' =>
      '(h, fs, rc) ← run_call te c h fs;
      if rc =? 0 then run_calls te cs' h fs else None
  end.

Definition is_unlock (c : api_call) : bool := match c with CUnlock => true | _ => false end.

Lemma run_calls_reachable te cs h0 fs0 u h fs h' fs' :
  reachable h0 fs0 u h fs → run_calls te cs h fs = Some (h', fs') →
  forallb (λ c, negb (is_unlock c)) cs = true → u = false → reachable h0 fs0 false h' fs'.
Proof.
  revert u h fs. induction cs as [|c cs IH]; intros u h fs Hr; simpl.
  { intros [= <- <-] _ ->. done. }
  destruct (run_call te c h fs) as [[[h1 fs1] rc]|] eqn:E; [|done]. simpl.
  destruct (rc =? 0); [|done]. intros H [Hc Hcs]%andb_true_iff ->.
  eapply (IH (unlocked_after c false h1)); [by eapply reach_call|done..|].
  unfold unlocked_after. destruct c; try done; apply andb_false_r.
Qed.

Definition ex_session : list api_call := [CInit 0; CAdd (Some ex_postfix); CPrepare; CCommit; CRelease].

Example session_example :
  match run_calls ex_te ex_session ex_idle ex_db_fs with
  | Some (h', _) => h_lockfd h' = -1 ∧ h_trans h' = None ∧
                    map pkg_name (installed h') = [str "libdb"; str "postfix"]
  | None => False
  end.
Proof. by vm_compute. Qed.

(** The state after the first calls. *)
Definition ex_at (n : nat) : alpm_handle_t * fsys :=
  match run_calls ex_te (take n ex_session) ex_idle ex_db_fs with
  | Some s => s
  | None => (ex_idle, ex_db_fs)
  end.

Lemma ex_prepared_run :
  run_calls ex_te (take 3 ex_session) ex_idle ex_db_fs = Some ((ex_at 3).1, (ex_at 3).2).
Proof.
  assert (is_some (run_calls ex_te (take 3 ex_session) ex_idle ex_db_fs) = true) as H
    by (vm_compute; reflexivity).
  unfold ex_at. by destruct (run_calls _ _ _ _) as [[h fs]|].
Qed.

(** alpm_trans_commit asks for the lock by the flags of the transaction only:
    after alpm_unlock, as in sighandler.c, the packages are installed without it. *)
Example commit_after_unlock :
  match run_calls ex_te [CInit 0; CAdd (Some ex_postfix); CPrepare; CUnlock; CCommit] ex_idle ex_db_fs with
  | Some (h', _) => h_lockfd h' = -1 ∧ t_state <$> h_trans h' = Some STATE_COMMITTED ∧
                    map pkg_name (installed h') = [str "libdb"; str "postfix"]
  | None => False
  end.
Proof. by vm_compute. Qed.

(** The reason of a package that was just installed. *)
Example set_reason_example :
  match run_calls ex_te [CInit 0; CAdd (Some ex_postfix); CPrepare; CCommit;
                         CSetReason (str "postfix") ALPM_PKG_REASON_DEPEND; CRelease] ex_idle ex_db_fs with
  | Some (h', _) => map (λ p, (pkg_name p, pkg_reason p)) (installed h') =
                    [(str "libdb", ALPM_PKG_REASON_DEPEND); (str "postfix", ALPM_PKG_REASON_DEPEND)]
  | None => False
  end.
Proof. by vm_compute. Qed.

(** The commit of the prepared session, and what it leaves. *)
Definition commits (r : option (alpm_handle_t * fsys * Z)) : bool :=
  match r with
  | Some (h', _, rc) => (rc =? 0) && bool_decide (phase h' = Some (0, STATE_COMMITTED))
  | None => false
  end.

Lemma ex_commit_run :
  ∃ h' fs', run_call ex_te CCommit (ex_at 3).1 (ex_at 3).2 = Some (h', fs', 0) ∧
    phase h' = Some (0, STATE_COMMITTED).
Proof.
  assert (commits (run_call ex_te CCommit (ex_at 3).1 (ex_at 3).2) = true) as H
    by (vm_compute; reflexivity).
  destruct (run_call _ _ _ _) as [[[h' fs'] rc]|]; [|discriminate H]. simpl in H.
  apply andb_true_iff in H as [->%Z.eqb_eq H]. exists h', fs'.
  split; [reflexivity|]. exact (bool_decide_eq_true_1 _ H).
Qed.

Lemma ex_prepared_phase : phase (ex_at 3).1 = Some (0, STATE_PREPARED).
Proof. vm_compute. reflexivity. Qed.


(** ** The loaded packages *)
Lemma dep_not_equal_0 d e :
  dep_not_equal d e = 0 →
  dep_name e = dep_name d ∧ dep_name_hash e = dep_name_hash d ∧ dep_mod e = dep_mod d ∧
  dep_version e = dep_version d.
Proof.
  unfold dep_not_equal. intros H. destruct (_ || _) eqn:E; [done|]. clear H.
  apply orb_false_iff in E as [[[E1 E2]%orb_false_iff E3]%orb_false_iff E4].
  apply negb_false_iff, Z.eqb_eq in E1. apply negb_false_iff, streq_true in E2.
  apply negb_false_iff, bool_decide_eq_true in E3. split_and!; [done..|].
  destruct (dep_version d), (dep_version e); try done. apply negb_false_iff, streq_true in E4. by subst.
Qed.
