(* ===== verification/TransHooks.v ===== *)
(** * Hooks in a transaction

    alpm_trans_commit (lib/libalpm/trans.c) with the hooks of hook.c in the place
    of the two hook functions of [trans_env]: hooks that cannot be read, or that
    fail before the transaction, stop it before anything is changed. *)
From S2P Require Import Prelude CString AlpmList Util Package PkgHash Handle Deps FileList Db Sync FileOps.
From S2P Require Import ChildIO Hook Commit Trans Protocol.
Local Open Scope Z_scope.

Section hooks.
Context (fnmatch : cstr → cstr → bool) (files : hook_files).
Context (exec : fsys → option cstr → list cstr → option (list cstr) → fsys * chroot_sys).

(** The files of the system are what the commands change. A run of the hooks that
    is not defined counts as failed. *)
Definition hook_run (when : Z) (h : alpm_handle_t) (fs : fsys) : fsys * bool :=
  match alpm_hook_run fnmatch files (chroot_runner exec) fs h when fs with
  | Some (fs', ret) => (fs', ret =? 0)
  | None => (fs, false)
  end.

Definition hook_env (te : trans_env) : trans_env :=
  mk_trans_env (te_commit te) (te_open_lock te) (te_unlink_lock te) (te_makepath te) (te_cached te)
    (te_tmpdir te) (te_downloadspace te) (te_download te) (te_keyring te) (te_validate te) (te_load te)
    (te_diskspace te) (hook_run ALPM_HOOK_PRE_TRANSACTION)
    (λ h fs, (hook_run ALPM_HOOK_POST_TRANSACTION h fs).1).

(** ** Facts *)

(** Hook files that cannot be used: no hook runs before the transaction, in
    whatever world, and the result is -1. *)
Lemma unusable_run {W} (run : W → option cstr → list cstr → option (list cstr) → W * Z) h fs w :
  hooks_defined files fs (h_hookdirs h) → hooks_unusable files fs (h_hookdirs h) →
  alpm_hook_run fnmatch files run fs h ALPM_HOOK_PRE_TRANSACTION w = Some (w, -1).
Proof.
  intros Hd Hu. destruct (read_hookdirs_total files fs (reverse (h_hookdirs h)) ([], 0)) as [[hooks ret] Hr].
  { intros d n data Hin. apply Hd. by apply elem_of_reverse. }
  unfold alpm_hook_run. rewrite Hr. apply read_all_hooks in Hr as (_ & _ & [[-> _]|[_ ?]]); done.
Qed.

Lemma hook_run_unusable h fs :
  hooks_defined files fs (h_hookdirs h) → hooks_unusable files fs (h_hookdirs h) →
  hook_run ALPM_HOOK_PRE_TRANSACTION h fs = (fs, false).
Proof. intros Hd Hu. unfold hook_run. by rewrite unusable_run. Qed.
End hooks.

(** What may end a commit before the hooks. *)
Definition nothing_to_do (h : alpm_handle_t) : Prop :=
  trans_add h = [] ∧ trans_remove h = [] ∨ has_flag (trans_flags h) ALPM_TRANS_FLAG_DOWNLOADONLY = true.

Lemma commit_load_outcome (te : trans_env) (t : alpm_trans_t) (h : alpm_handle_t) (fs : fsys) h' rc data stop :
  commit_load te t h fs = (h', rc, data, stop) →
  held h h' ∧ h_db_local h' = h_db_local h ∧
  (stop = true → rc = -1 ∨ rc = 0 ∧ has_flag (t_flags t) ALPM_TRANS_FLAG_DOWNLOADONLY = true).
Proof.
  unfold commit_load. destruct (t_add t); [by intros [= <- <- <- <-]|].
  pose proof (sync_load_loading te h) as [L1 L2 _].
  destruct (alpm_sync_load te h) as [[h2 rc2] d2]. cbn [fst] in *.
  destruct (negb _); [intros [= <- <- <- <-]; auto|].
  destruct (has_flag _ _) eqn:Ed; [intros [= <- <- <- <-]; auto|].
  pose proof (sync_check_kept te h2 fs) as [C1 C2 _].
  destruct (alpm_sync_check te h2 fs) as [[h3 rc3] d3]. cbn [fst] in *.
  assert (held h h3 ∧ h_db_local h3 = h_db_local h) as [? ?] by (split; [by etrans|congruence]).
  destruct (negb _); intros [= <- <- <- <-]; auto.
Qed.

Lemma commit_stopped (te : trans_env) (h : alpm_handle_t) (fs : fsys) :
  has_flag (trans_flags h) ALPM_TRANS_FLAG_NOHOOKS = false →
  (∀ h2, h_hookdirs h2 = h_hookdirs h → te_pre_hook te h2 fs = (fs, false)) →
  ∃ h' rc data, alpm_trans_commit te h fs = Some (h', fs, rc, data) ∧
  h_db_local h' = h_db_local h ∧ (rc = -1 ∨ rc = 0 ∧ nothing_to_do h).
Proof.
  intros Hn Hpre. unfold alpm_trans_commit, ret_err. set (h0 := check_handle h).
  change (h_trans h0) with (h_trans h). unfold nothing_to_do, trans_add, trans_remove, trans_flags in *.
  destruct (h_trans h) as [t|] eqn:Et; [|eauto 7].
  destruct (negb (bool_decide _)); [eauto 7|]. destruct (has_flag (t_flags t) ALPM_TRANS_FLAG_NOLOCK); [eauto 7|].
  fold (commit_load te t h0 fs). rewrite Hn. cbn [negb].
  destruct (commit_load te t h0 fs) as [[[h2 rc] data] stop] eqn:Ec.
  pose proof (commit_load_outcome _ _ _ _ _ _ _ _ Ec) as (H1 & H2 & H3).
  assert (∃ h' rc' data', (if stop then Some (h2, fs, rc, data)
    else let '(fs, ok) := te_pre_hook te h2 fs in
         if negb ok then Some (set_errno ALPM_ERR_TRANS_HOOK_FAILED h2, fs, -1, NoData)
         else '(h, fs, rc) ← commit_packages te h2 fs; Some (h, fs, rc, NoData)) = Some (h', fs, rc', data') ∧
    h_db_local h' = h_db_local h ∧
    (rc' = -1 ∨ rc' = 0 ∧ has_flag (t_flags t) ALPM_TRANS_FLAG_DOWNLOADONLY = true)) as Hrest.
  { destruct stop; [exists h2, rc, data; split; [done|]; split; [done|by apply H3]|].
    rewrite Hpre by by rewrite (hd_hookdirs _ _ H1). cbn. eauto 7. }
  destruct Hrest as (h' & rc' & data' & Hr & Hl & Hrc).
  destruct (t_add t) eqn:Ea, (t_remove t) eqn:Er; 
    [exists h0, 0, NoData; split; [done|split; [done|auto]]|..]; exists h', rc', data'; tauto.
Qed.

(** ** Theorems *)

(** C24. A hook directory that cannot be opened or read, or a hook file that is not
    valid and that no later directory overrides, stops every commit, of any
    transaction that runs hooks, before it changes anything: no file and no entry of
    the local database changes, and the commit fails, unless there was nothing to
    do but downloading. No command runs: the hooks are run with the hook
    directories of the handle, and in whatever world the commands work, it stays as
    it is. (No option line of a hook file lacks its value.) *)
Theorem invalid_hook_stops_commit (fnmatch : cstr → cstr → bool) (files : hook_files)
    (exec : fsys → option cstr → list cstr → option (list cstr) → fsys * chroot_sys) (te : trans_env)
    (h : alpm_handle_t) (fs : fsys) :
  has_flag (trans_flags h) ALPM_TRANS_FLAG_NOHOOKS = false →
  hooks_defined files fs (h_hookdirs h) → hooks_unusable files fs (h_hookdirs h) →
  (∃ h' rc data, alpm_trans_commit (hook_env fnmatch files exec te) h fs = Some (h', fs, rc, data) ∧
   h_db_local h' = h_db_local h ∧ (rc = -1 ∨ rc = 0 ∧ nothing_to_do h)) ∧
  (∀ W (run : W → option cstr → list cstr → option (list cstr) → W * Z) (w : W) h2,
   h_hookdirs h2 = h_hookdirs h →
   alpm_hook_run fnmatch files run fs h2 ALPM_HOOK_PRE_TRANSACTION w = Some (w, -1)).
Proof.
  intros Hn Hd Hu. split.
  - apply commit_stopped; [done|]. intros h2 Hh. apply hook_run_unusable; by rewrite Hh.
  - intros W run w h2 Hh. apply unusable_run; by rewrite Hh.
Qed.

(** ** Example *)
Definition ex_bad_hook_fs : fsys :=
  list_to_map [(str "/hooks", NDir); (str "/hooks/x.hook", NFile (str "[Trigger]"))].

Definition ex_exec (fs : fsys) (_ : option cstr) (_ : list cstr) (_ : option (list cstr))
    : fsys * chroot_sys :=
  (fs, mk_chroot_sys true true true true [] (Exited 0)).

Definition ex_removing : alpm_handle_t :=
  set_hookdirs [str "/hooks/"]
    (set_trans (Some (mk_trans 0 STATE_PREPARED [] [] [ex_exim] []))
      (set_db_local (list_db (str "local") DB_STATUS_LOCAL [ex_exim]) empty_handle)).

(** x.hook has an empty trigger. *)
Lemma ex_bad_hooks :
  hooks_defined ex_files ex_bad_hook_fs [str "/hooks/"] ∧ hooks_unusable ex_files ex_bad_hook_fs [str "/hooks/"].
Proof.
  split.
  - intros dir name data _ _ Hf. revert Hf. generalize (dir ++ name). intros path Hf.
    apply elem_of_list_to_map_2 in Hf.
    apply elem_of_cons in Hf as [Hf|Hf]; [apply pair_equal_spec in Hf as [-> Hf]; discriminate Hf|].
    apply elem_of_cons in Hf as [Hf|Hf]; [|by apply elem_of_nil in Hf].
    apply pair_equal_spec in Hf as [-> Hf]. injection Hf as ->. eexists. split; [vm_compute; reflexivity|done].
  - exists [], (str "/hooks/"), []. split; [reflexivity|]. right. split; [reflexivity|].
    exists (str "x.hook"). split.
    { assert (listed ex_files ex_bad_hook_fs (str "/hooks/") = [str "x.hook"]) as -> by (vm_compute; reflexivity).
      apply list_elem_of_singleton. reflexivity. }
    right. split_and!.
    + apply Nat.ltb_lt. vm_compute. reflexivity.
    + reflexivity.
    + intros (d & Hd & _). by apply elem_of_nil in Hd.
    + right. exists (str "[Trigger]"). split; vm_compute; reflexivity.
Qed.

Lemma invalid_hook_stops_commit_witness :
  ∃ h' rc data, alpm_trans_commit (hook_env ex_glob ex_files ex_exec ex_te)
    ex_removing ex_bad_hook_fs = Some (h', ex_bad_hook_fs, rc, data) ∧
  h_db_local h' = h_db_local ex_removing ∧ (rc = -1 ∨ rc = 0 ∧ nothing_to_do ex_removing).
Proof.
  apply (invalid_hook_stops_commit ex_glob ex_files ex_exec ex_te ex_removing ex_bad_hook_fs).
  - reflexivity.
  - exact (proj1 ex_bad_hooks).
  - exact (proj2 ex_bad_hooks).
Defined.
