(* ===== verification/EndToEnd.v ===== *)
(** * A whole transaction

    Prepare and commit of a transaction with targets, put together: the plan
    that the preparation has checked survives the sorting of the targets, the
    exchange of the database entries for the loaded package files and the
    commit, so the installed packages stay consistent. *)
From S2P Require Import Prelude CString AlpmList Util Package PkgHash Handle Deps SortDeps.
From S2P Require Import ResolveDeps FileList Conflict Remove Db Sync FileOps Commit Trans Protocol.
Local Open Scope Z_scope.

(** ** Consistent sets of packages *)
Definition consistent (l : list alpm_pkg_t) (assume : list alpm_depend_t) : Prop :=
  (∀ p d, p ∈ l → d ∈ pkg_depends p → sat l assume d) ∧
  (∀ p q, p ∈ l → q ∈ l → ¬ conflicts_with p q).

(** Dependencies that differ only in their description. *)
Record alike_dep (d e : alpm_depend_t) : Prop := {
  al_name : dep_name e = dep_name d;
  al_hash : dep_name_hash e = dep_name_hash d;
  al_mod : dep_mod e = dep_mod d;
  al_version : dep_version e = dep_version d
}.

#[export] Instance alike_dep_equivalence : Equivalence alike_dep.
Proof.
  split.
  - by split.
  - intros d e []. by split.
  - intros d e f [] []. split; congruence.
Qed.

(** Lists of dependencies with the same members up to [alike_dep]. *)
Definition matching (l l' : list alpm_depend_t) : Prop :=
  (∀ d, d ∈ l → ∃ e, e ∈ l' ∧ alike_dep d e) ∧ (∀ e, e ∈ l' → ∃ d, d ∈ l ∧ alike_dep d e).

#[export] Instance matching_equivalence : Equivalence matching.
Proof.
  split.
  - intros l. split; intros d Hd; by exists d.
  - intros l l' [H1 H2]. split; intros d Hd.
    + destruct (H2 d Hd) as (e & ? & ?). exists e. by split.
    + destruct (H1 d Hd) as (e & ? & ?). exists e. by split.
  - intros l1 l2 l3 [A1 A2] [B1 B2]. split; intros d Hd.
    + destruct (A1 d Hd) as (e & He & ?). destruct (B1 e He) as (f & ? & ?). exists f. split; [done|by etrans].
    + destruct (B2 d Hd) as (e & He & ?). destruct (A2 e He) as (f & ? & ?). exists f. split; [done|by etrans].
Qed.

(** Packages that the dependency and conflict checks cannot tell apart. *)
Record agrees (p q : alpm_pkg_t) : Prop := {
  ag_name : pkg_name q = pkg_name p;
  ag_hash : pkg_name_hash q = pkg_name_hash p;
  ag_version : pkg_version q = pkg_version p;
  ag_depends : matching (pkg_depends p) (pkg_depends q);
  ag_provides : matching (pkg_provides p) (pkg_provides q);
  ag_conflicts : matching (pkg_conflicts p) (pkg_conflicts q)
}.

#[export] Instance agrees_preorder : PreOrder agrees.
Proof.
  split.
  - by split.
  - intros p q r [] []. split; (congruence || by etrans).
Qed.

Lemma same_deps_agrees p q : same_deps p q → agrees p q.
Proof. intros [E1 E2 E3 E4 E5 E6 _]. split; rewrite ?E4, ?E5, ?E6; done. Qed.

Lemma alike_provides d e l : alike_dep d e → alpm_depcmp_provides e l = alpm_depcmp_provides d l.
Proof.
  intros [E1 E2 E3 E4]. unfold alpm_depcmp_provides. induction l as [|x l IH]; simpl; [done|].
  rewrite IH. f_equal. unfold provision_satisfies. by rewrite E1, E2, E3, E4.
Qed.

Lemma alike_depcmp p d e : alike_dep d e → alpm_depcmp p e = alpm_depcmp p d.
Proof.
  intros Ha. unfold alpm_depcmp, alpm_depcmp_literal. rewrite (alike_provides d e _ Ha).
  by destruct Ha as [-> -> -> ->].
Qed.

Lemma alike_provision d x y : alike_dep x y → provision_satisfies d y = provision_satisfies d x.
Proof. intros [E1 E2 E3 E4]. unfold provision_satisfies. by rewrite E1, E2, E3, E4. Qed.

Lemma agrees_depcmp p q d : agrees p q → alpm_depcmp q d = alpm_depcmp p d.
Proof.
  intros [E1 E2 E3 _ [P1 P2] _]. unfold alpm_depcmp, alpm_depcmp_literal. rewrite E1, E2, E3. f_equal.
  unfold alpm_depcmp_provides. apply eq_true_iff_eq. rewrite !existsb_exists. split.
  - intros (y & Hy & Hs). destruct (P2 y) as (x & Hx & Ha); [by apply list_elem_of_In|].
    exists x. split; [by apply list_elem_of_In|]. by rewrite <-(alike_provision d x y).
  - intros (x & Hx & Hs). destruct (P1 x) as (y & Hy & Ha); [by apply list_elem_of_In|].
    exists y. split; [by apply list_elem_of_In|]. by rewrite (alike_provision d x y).
Qed.

Lemma agrees_conflicts p q p' q' :
  agrees p p' → agrees q q' → conflicts_with p' q' → conflicts_with p q.
Proof.
  intros Hp Hq (Hn & c & Hc & Hd). split; [by rewrite <-(ag_name _ _ Hp), <-(ag_name _ _ Hq)|].
  destruct (proj2 (ag_conflicts _ _ Hp) c Hc) as (b & Hb & Ha). exists b. split; [done|].
  by rewrite <-(agrees_depcmp _ _ b Hq), <-(alike_depcmp q' b c).
Qed.

(** The packages of [l'] are those of [l], up to [agrees]. *)
Definition image (l l' : list alpm_pkg_t) : Prop :=
  (∀ p, p ∈ l → ∃ q, q ∈ l' ∧ agrees p q) ∧ (∀ q, q ∈ l' → ∃ p, p ∈ l ∧ agrees p q).

#[export] Instance image_preorder : PreOrder image.
Proof.
  split.
  - intros l. split; intros p Hp; by exists p.
  - intros l1 l2 l3 [A1 A2] [B1 B2]. split; intros p Hp.
    + destruct (A1 p Hp) as (q & Hq & ?). destruct (B1 q Hq) as (r & ? & ?).
      exists r. split; [done|by etrans].
    + destruct (B2 p Hp) as (q & Hq & ?). destruct (A2 q Hq) as (r & ? & ?).
      exists r. split; [done|by etrans].
Qed.

Lemma consistent_image l l' assume : image l l' → consistent l assume → consistent l' assume.
Proof.
  intros [I1 I2] [C1 C2]. split.
  - intros q e Hq He. destruct (I2 q Hq) as (p & Hp & Ha).
    destruct (proj2 (ag_depends _ _ Ha) e He) as (d & Hd & Hde).
    destruct (C1 p d Hp Hd) as [(x & Hx & Hs)|Hs].
    + left. destruct (I1 x Hx) as (y & Hy & Hxy). exists y. split; [done|].
      by rewrite (alike_depcmp y d e Hde), (agrees_depcmp x y).
    + right. by rewrite (alike_provides d e).
  - intros p' q' Hp' Hq' Hc. destruct (I2 p' Hp') as (p & Hp & Hpp).
    destruct (I2 q' Hq') as (q & Hq & Hqq). apply (C2 p q Hp Hq). by eapply agrees_conflicts.
Qed.

(** The plan the preparation accepts is consistent. *)
Lemma plan_consistent h :
  hashes_ok (trans_remove h) → hashes_ok (trans_add h) → no_dep_version h = false →
  deps_hold h → peaceful (λ n, n ∈ map pkg_name (trans_remove h)) h →
  consistent (installed h) (h_assumeinstalled h) →
  consistent (system_after h) (h_assumeinstalled h).
Proof.
  intros Hr Ha Hv [D1 D2] [P1 P2] [C1 C2]. rewrite Hv in D1, D2. split.
  - intros p d [Hp|(Hp & N1 & N2)]%elem_of_system_after Hd; [by apply (D1 p d)| |done|done].
    apply (D2 p d); [done| |done|by apply (C1 p)]. unfold is_modified.
    apply orb_false_iff. rewrite <-!not_true_iff_false, !is_some_true, !pkg_find_is_Some by done. done.
  - intros p q [Hp|(Hp & N1 & N2)]%elem_of_system_after [Hq|(Hq & M1 & M2)]%elem_of_system_after Hc;
      try done.
    + by apply (P1 p q).
    + apply M1. apply (P2 p q); [done..|by left].
    + apply N1. apply (P2 q p); [done..|by right].
    + by apply (C2 p q).
Qed.

(** Systems with the same installed packages and removals, and agreeing targets. *)
Lemma system_image h h' :
  hashes_ok (trans_remove h) → hashes_ok (trans_add h) → hashes_ok (trans_add h') →
  installed h' = installed h → trans_remove h' ≡ₚ trans_remove h →
  image (trans_add h) (trans_add h') → image (system_after h) (system_after h').
Proof.
  intros Hr Ha Ha' Ei Er [I1 I2].
  assert (hashes_ok (trans_remove h')) as Hr' by (unfold hashes_ok; by rewrite Er).
  assert (∀ n, n ∈ map pkg_name (trans_remove h') ↔ n ∈ map pkg_name (trans_remove h)) as Hrn
    by (intros n; by rewrite Er).
  assert (∀ n, n ∈ map pkg_name (trans_add h') ↔ n ∈ map pkg_name (trans_add h)) as Han.
  { intros n. split; intros (p & -> & Hp)%list_elem_of_fmap.
    - destruct (I2 p Hp) as (q & Hq & E). rewrite (ag_name _ _ E). by apply list_elem_of_fmap_2.
    - destruct (I1 p Hp) as (q & Hq & E). rewrite <-(ag_name _ _ E). by apply list_elem_of_fmap_2. }
  split; intros p; rewrite elem_of_system_after by done; (intros [Hp|(Hp & N1 & N2)];
    [destruct (I1 p Hp) as (q & Hq & E) || destruct (I2 p Hp) as (q & Hq & E)|]).
  - exists q. split; [|done]. apply elem_of_system_after; [done..|by left].
  - exists p. split; [|done]. apply elem_of_system_after; [done..|right].
    rewrite Ei, Hrn, Han. done.
  - exists q. split; [|done]. apply elem_of_system_after; [done..|by left].
  - exists p. split; [|done]. apply elem_of_system_after; [done..|right].
    rewrite <-Ei, <-Hrn, <-Han. done.
Qed.

(** ** The removals of a prepared transaction *)
Lemma Forall_sublist {A} (P : A → Prop) l l' : l `sublist_of` l' → Forall P l' → Forall P l.
Proof. rewrite !Forall_forall. intros Hs H x Hx. by eapply H, elem_of_sublist. Qed.

Section removals.
Context (L : list alpm_pkg_t).

(** [r] is a copy of a package of [L], at an address of its own. *)
Definition copy_of (next : nat) (r : alpm_pkg_t) : Prop :=
  ∃ l a, l ∈ L ∧ r = alpm_pkg_dup a l ∧ (a < next)%nat ∧ a ∉ map pkg_addr L.

Record removals (h : alpm_handle_t) : Prop := {
  rm_trans : is_Some (h_trans h);
  rm_elected : Forall (λ q, Forall (λ r, r ∈ L) (pkg_removes q)) (trans_add h);
  rm_copies : Forall (copy_of (h_next h)) (trans_remove h);
  rm_nodup : NoDup (map pkg_addr (trans_remove h));
  rm_bound : Forall (λ l, (pkg_addr l < h_next h)%nat) L
}.

Lemma copy_mono n m r : (n <= m)%nat → copy_of n r → copy_of m r.
Proof. intros Hnm (l & a & ? & ? & ? & ?). exists l, a. split_and!; [done..|lia|done]. Qed.

(** Steps that change only the targets. *)
Lemma removals_add h f :
  removals h → (∀ t, t_remove (f t) = t_remove t) →
  (∀ t, h_trans h = Some t → Forall (λ q, Forall (λ r, r ∈ L) (pkg_removes q)) (t_add (f t))) →
  removals (upd_trans f h).
Proof.
  intros [[t Et] R1 R2 R3 R4] Hr Ha. unfold trans_add, trans_remove in *. rewrite Et in *.
  split; unfold trans_add, trans_remove, upd_trans; simpl; rewrite ?Et; simpl; rewrite ?Hr; try done.
  by apply Ha.
Qed.

Lemma removals_grow h n : removals h → (h_next h <= n)%nat → removals (set_next n h).
Proof.
  intros [R0 R1 R2 R3 R4] Hn. split; [done|done| |done|].
  - eapply Forall_impl; [exact R2|]. intros r. by apply copy_mono.
  - eapply Forall_impl; [exact R4|]. simpl. lia.
Qed.

Lemma removals_errno h e : removals h → removals (set_errno e h).
Proof. by intros []. Qed.

Lemma elect_removal_removals h r : removals h → r ∈ L → removals (elect_removal h r).
Proof.
  intros Hr Hin. unfold elect_removal. destruct (is_some _); [done|]. unfold dup_pkg.
  pose proof (removals_grow h (S (h_next h)) Hr ltac:(lia)) as [[t Et] R1 R2 R3 R4].
  pose proof (rm_bound _ Hr) as Hb. pose proof (rm_copies _ Hr) as Hc.
  unfold trans_add, trans_remove in *. simpl in Et. cbn in R1, R2, R3. rewrite Et in *.
  split; unfold trans_add, trans_remove, upd_trans; simpl; rewrite ?Et; simpl; try done.
  - apply Forall_app. split; [done|]. constructor; [|constructor].
    exists r, (h_next h). split_and!; [done|done|lia|]. intros (l & E & Hl)%list_elem_of_fmap.
    rewrite Forall_forall in Hb. specialize (Hb l Hl). simpl in Hb. lia.
  - rewrite map_app. apply NoDup_app. split_and!; [done| |apply NoDup_singleton].
    intros a (q & -> & Hq)%list_elem_of_fmap Hx%list_elem_of_singleton. simpl in Hx.
    rewrite Forall_forall in Hc. destruct (Hc q Hq) as (l & a & _ & -> & Ha & _). simpl in Hx. lia.
Qed.

Lemma build_removals_removals h : removals h → removals (build_removals h).
Proof.
  intros Hr. unfold build_removals.
  assert (Forall (λ r, r ∈ L) (flat_map pkg_removes (trans_add h))) as Hl.
  { apply Forall_forall. intros r (q & Hq & Hrq)%elem_of_flat_map.
    pose proof (rm_elected _ Hr) as He. rewrite Forall_forall in He. specialize (He q Hq).
    rewrite Forall_forall in He. by apply He. }
  revert Hl. generalize (flat_map pkg_removes (trans_add h)). intros l Hl. revert h Hr.
  induction Hl as [|r l Hrl Hl IH]; intros h Hr; simpl; [done|].
  by apply IH, elect_removal_removals.
Qed.

Definition on_go {A} (m : step A) (Q : A → Prop) : Prop :=
  match m with Some (inr a) => Q a | _ => True end.

Lemma on_go_bind {A B} (m : step A) (f : A → step B) P Q :
  on_go m P → (∀ a, P a → on_go (f a) Q) → on_go (andthen m f) Q.
Proof. destruct m as [[r|a]|]; simpl; auto. Qed.

Lemma settle_inner_removals deps h data : removals h → on_go (settle_inner deps h data) removals.
Proof.
  revert h. induction deps as [|c deps IH]; intros h Hr; simpl; [done|].
  repeat case_match; try done; apply IH; try done;
    (apply removals_add; [done|done|]; intros t Et; simpl; pose proof (rm_elected _ Hr) as He;
     unfold trans_add in He; rewrite Et in He; eapply Forall_sublist; [|done]; apply list_remove_sublist).
Qed.

Lemma settle_outer_removals env deps h data :
  PkgCache (h_db_local h) → installed h = L → removals h →
  on_go (settle_outer env deps h data) removals.
Proof.
  revert h. induction deps as [|c deps IH]; intros h Hc Hi Hr; simpl; [done|].
  destruct (_ || _); [by apply IH|]. destruct (q_conflict_pkg _ _ _); [|done].
  destruct (alpm_pkg_find _ _) as [sync|]; [|done].
  destruct (alpm_db_get_pkgfromcache _ _) as [local|] eqn:El; [|done].
  apply cache_lookup_Some in El as [Hl _]; [|done]. fold (installed h) in Hl. rewrite Hi in Hl.
  apply IH; [done|done|]. apply removals_add; [done|done|]. intros t Et. simpl.
  pose proof (rm_elected _ Hr) as He. unfold trans_add in He. rewrite Et in He.
  unfold upd_ptr. apply Forall_forall. intros q (p & -> & Hp)%list_elem_of_fmap.
  rewrite Forall_forall in He. specialize (He p Hp). destruct (ptr_eq _ _); [|done].
  simpl. apply Forall_app. split; [done|]. by constructor.
Qed.
Lemma sync_resolve_removals env h :
  sync_pre h → (∀ p, offered h p → Forall (λ r, r ∈ L) (pkg_removes p)) → removals h →
  on_go (sync_resolve env h) (λ '(h', _), removals h').
Proof.
  intros Hpre Hoff Hr. unfold sync_resolve. cbv zeta. set (rem := _ ++ _). set (lp := alpm_list_diff _ _ _).
  destruct (resolve_targets_spec env h Hpre lp rem (trans_add h) [] [] []) as
    (R & U & D & -> & [HG _] & _); [done|by split; constructor|].
  apply on_go_bind with (P := λ '(h1, _), removals h1).
  { destruct U; [by simpl|]. destruct (q_remove_pkgs _ _); [|done]. by apply removals_errno. }
  intros [h1 data] H1. destruct (same_filenames R) as [[]|]; [done| |done]. simpl.
  apply removals_add; [done|done|]. intros t _. simpl. apply Forall_forall.
  intros q (p & -> & Hp)%list_elem_of_fmap. rewrite Forall_forall in HG.
  destruct (HG p Hp) as (_ & _ & Ho). pose proof (Hoff p Ho). by destruct (is_some _).
Qed.

Lemma finish_targets_removals cached h done_ add h' add' rc :
  removals h → Forall (λ q, Forall (λ r, r ∈ L) (pkg_removes q)) (done_ ++ add) →
  finish_targets cached h done_ add = (h', add', rc) →
  removals h' ∧ Forall (λ q, Forall (λ r, r ∈ L) (pkg_removes q)) add'.
Proof.
  revert h done_. induction add as [|p add IH]; intros h done_ Hr Ha; cbn [finish_targets].
  { rewrite app_nil_r in Ha. by intros [= <- <- _]. }
  destruct (alpm_db_get_pkg _ _ _) as [h1 lpkg] eqn:E1.
  assert (removals h1) as H1.
  { unfold alpm_db_get_pkg, check_handle in E1. repeat case_match; simplify_eq; by apply removals_errno. }
  destruct (compute_download_size _ _ _) as [[h2 p'] rc2] eqn:E2.
  assert (removals h2 ∧ pkg_removes p' = pkg_removes p) as [H2 Ep].
  { unfold compute_download_size in E2. repeat case_match; simplify_eq; (split; [|done]);
      try done; by apply removals_errno. }
  apply Forall_app in Ha as [Hd Ha]. inversion Ha as [|? ? Hp Ha']; subst.
  assert (∀ q, pkg_removes q = pkg_removes p →
    Forall (λ q, Forall (λ r, r ∈ L) (pkg_removes q)) ((done_ ++ [q]) ++ add)) as Hn.
  { intros q Eq. rewrite !Forall_app, Forall_singleton. rewrite Eq. done. }
  destruct (rc2 <? 0).
  { intros [= <- <- _]. split; [done|]. change (p' :: add) with ([p'] ++ add). rewrite app_assoc. by apply Hn. }
  destruct lpkg as [lpkg|]; [|apply IH; [done|by apply Hn]]. unfold dup_pkg.
  apply IH; [apply removals_grow; [done|lia]|]. by apply Hn.
Qed.

Lemma sync_steps_removals env cached h :
  sync_pre h → installed h = L → (∀ p, offered h p → Forall (λ r, r ∈ L) (pkg_removes p)) →
  removals h → on_go (sync_steps env cached h) (λ r, removals (sr_handle r)).
Proof.
  intros Hpre Hi Hoff Hr.
  assert (∀ h', kept h h' → PkgCache (h_db_local h') ∧ installed h' = L) as Hk.
  { intros h' [_ E _]. unfold installed. rewrite E. split; [apply Hpre|done]. }
  unfold sync_steps. apply on_go_bind with (P := λ '(h1, _), removals h1 ∧ kept h h1).
  { destruct (negb _); [|by simpl]. pose proof (sync_resolve_removals env h Hpre Hoff Hr) as H1.
    pose proof (sync_resolve_kept env h) as H2.
    destruct (sync_resolve env h) as [[r|[h1 data]]|]; simpl in *; done. }
  intros [h1 data] [H1 K1]. apply on_go_bind with (P := removals).
  { destruct (negb _); [|by simpl]. unfold sync_conflicts.
    apply on_go_bind with (P := λ h2, removals h2 ∧ kept h h2).
    - pose proof (settle_inner_removals (alpm_innerconflicts (trans_add h1)) h1 data H1) as H2.
      pose proof (settle_inner_kept (alpm_innerconflicts (trans_add h1)) h1 data) as H3.
      destruct (settle_inner _ _ _) as [[r|h2]|]; simpl in *; [done| |done]. split; [done|by etrans].
    - intros h2 [H2 K2]. apply settle_outer_removals; [by apply Hk..|done]. }
  intros h2 H2. apply build_removals_removals in H2. apply on_go_bind with (P := removals).
  { destruct (negb _); [|by simpl]. destruct (alpm_checkdeps _ _ _ _ _); [|done]. by apply removals_errno. }
  intros h3 H3. simpl. unfold sync_finish.
  destruct (finish_targets cached h3 [] (trans_add h3)) as [[h4 add] rc] eqn:E.
  apply finish_targets_removals in E as [H4 Ha]; [|done|apply H3].
  apply removals_add; [done|done|]. by intros t _.
Qed.

Lemma sync_prepare_removals env cached h r :
  sync_pre h → installed h = L → (∀ p, offered h p → Forall (λ r, r ∈ L) (pkg_removes p)) →
  removals h → alpm_sync_prepare env cached h = Some r → sr_ret r = 0 → removals (sr_handle r).
Proof.
  intros Hpre Hi Hoff Hr. unfold alpm_sync_prepare. destruct (check_dbs _ _); [by intros [= <-]|].
  pose proof (sync_steps_removals env cached h Hpre Hi Hoff Hr) as H.
  pose proof (sync_steps_spec env cached h Hpre) as H'.
  destruct (sync_steps env cached h) as [[r'|r']|]; simpl in *; [|by intros [= <-]|done].
  intros [= <-] E. destruct H' as [E' _]. congruence.
Qed.
End removals.

(** ** What a transaction starts from *)

(** The assumptions: the databases are loaded and consistent, the packages on
    offer are objects of their own, and the removals already chosen are copies of
    installed packages. *)
Record transaction_pre (h : alpm_handle_t) : Prop := {
  tp_sync : sync_pre h;
  tp_ready : db_ready h;
  tp_pkgs : Forall (λ p, pkg_name p ≠ [] ∧ digests_ok p) (installed h);
  tp_elected : ∀ p, offered h p → Forall (λ r, r ∈ installed h) (pkg_removes p);
  tp_apart : ∀ p, offered h p → pkg_addr p ∉ map pkg_addr (installed h);
  tp_addrs : ∀ p q, offered h p → offered h q → pkg_addr p = pkg_addr q → p = q;
  tp_removals : removals (installed h) h;
  tp_size : Z.of_nat (length (installed h) + resolve_depth h) < 414055
}.

Definition checked (flags : Z) : Prop :=
  has_flag flags ALPM_TRANS_FLAG_NODEPS = false ∧
  has_flag flags ALPM_TRANS_FLAG_NODEPVERSION = false ∧
  has_flag flags ALPM_TRANS_FLAG_NOCONFLICTS = false.

Lemma pre_errno h e : transaction_pre h → transaction_pre (set_errno e h).
Proof.
  intros [[] [] H3 H4 H5 H6 [] H8]. split; [by split|by split|exact H3|exact H4|exact H5|exact H6|by split|exact H8].
Qed.

(** What the preparation hands to the commit. *)
Record plan (h h1 : alpm_handle_t) : Prop := {
  pl_held : held h h1;
  pl_local : h_db_local h1 = h_db_local h;
  pl_hashes : hashes_ok (trans_add h1);
  pl_names : NoDup (map pkg_name (trans_add h1));
  pl_old : Forall (old_known h) (trans_add h1);
  pl_copies : Forall (copy_of (installed h) (h_next h1)) (trans_remove h1);
  pl_consistent : consistent (system_after h1) (h_assumeinstalled h1);
  pl_size : (length (trans_add h1) <= resolve_depth h)%nat
}.

Section preparation.
Context (h : alpm_handle_t) (Hpre : transaction_pre h).

Lemma pre_cache : PkgCache (h_db_local h).
Proof. apply Hpre. Qed.

Lemma dup_digests a l : digests_ok l → digests_ok (alpm_pkg_dup a l).
Proof.
  unfold digests_ok. cbn. rewrite !Forall_forall. intros Hd b (b' & -> & Hb)%list_elem_of_fmap.
  by apply (Hd b').
Qed.

Lemma copy_good n r : copy_of (installed h) n r → pkg_hash_ok r ∧ digests_ok r.
Proof.
  intros (l & a & Hl & -> & _). split.
  - pose proof (@cache_hashes _ pre_cache) as Hh. unfold hashes_ok in Hh. rewrite Forall_forall in Hh.
    exact (Hh l Hl).
  - pose proof (tp_pkgs _ Hpre) as Hp. rewrite Forall_forall in Hp. destruct (Hp l Hl) as [_ Hd].
    by apply dup_digests.
Qed.

Lemma copies_hashes n l : Forall (copy_of (installed h) n) l → hashes_ok l.
Proof. intros Hl. eapply Forall_impl; [exact Hl|]. intros r Hr. by apply (copy_good n). Qed.

(** The targets can be sorted, and so can the removals. *)
Lemma targets_sortable h1 :
  (∀ q, q ∈ trans_add h1 → ∃ p, offered h p ∧ same_obj p q) →
  NoDup (map pkg_name (trans_add h1)) → sort_input (installed h) (trans_add h1).
Proof.
  intros Ho Hnd.
  assert (∀ q1 q2, q1 ∈ trans_add h1 → q2 ∈ trans_add h1 → pkg_addr q1 = pkg_addr q2 → q1 = q2) as Hinj.
  { intros q1 q2 H1 H2 E. destruct (Ho q1 H1) as (p1 & O1 & [S1 A1]). destruct (Ho q2 H2) as (p2 & O2 & [S2 A2]).
    assert (p1 = p2) as -> by (apply (tp_addrs _ Hpre); [done|done|congruence]).
    eapply NoDup_map_inj; [exact Hnd|done|done|]. by rewrite (sd_name _ _ S1), (sd_name _ _ S2). }
  assert (∀ q l, q ∈ trans_add h1 → l ∈ installed h → pkg_addr q = pkg_addr l → False) as Hapart.
  { intros q l Hq Hl E. destruct (Ho q Hq) as (p & Op & [_ Ap]). apply (tp_apart _ Hpre p Op).
    rewrite <-Ap, E. by apply list_elem_of_fmap_2. }
  split.
  - apply NoDup_fmap_2_strong; [|by eapply NoDup_fmap_1]. exact Hinj.
  - apply pre_cache.
  - intros p q [Hp|Hp]%elem_of_app [Hq|Hq]%elem_of_app E; [by apply Hinj|by destruct (Hapart p q)|by destruct (Hapart q p)|].
    eapply NoDup_map_inj; [apply (@cache_addrs _ pre_cache)|done|done|done].
Qed.

Lemma removals_sortable n l :
  Forall (copy_of (installed h) n) l → NoDup (map pkg_addr l) → sort_input (installed h) l.
Proof.
  intros Hc Hnd. rewrite Forall_forall in Hc. split; [done|apply pre_cache|].
  assert (∀ q p, q ∈ l → p ∈ installed h → pkg_addr q = pkg_addr p → False) as Hapart.
  { intros q p Hq Hp E. destruct (Hc q Hq) as (x & a & _ & -> & _ & Ha). apply Ha. cbn in E. rewrite E.
    by apply list_elem_of_fmap_2. }
  intros p q [Hp|Hp]%elem_of_app [Hq|Hq]%elem_of_app E; [|by destruct (Hapart p q)|by destruct (Hapart q p)|].
  - by eapply (NoDup_map_inj pkg_addr).
  - eapply NoDup_map_inj; [apply (@cache_addrs _ pre_cache)|done|done|done].
Qed.
(** The sorted transaction carries the same plan. *)
Lemma prepare_finish_plan h1 :
  checked (trans_flags h) → kept h h1 → prepared h h1 → Forall (old_known h) (trans_add h1) →
  removals (installed h) h1 → consistent (system_after h1) (h_assumeinstalled h1) →
  ∃ h2, prepare_finish h1 = Some h2 ∧ plan h h2.
Proof.
  intros (Hf & _) Hk Hp Ho Hr Hc. pose proof (pr_same _ _ Hp) as Hs.
  pose proof (k_local _ _ Hk) as El. pose proof (rm_trans _ _ Hr) as [t Et].
  unfold prepare_finish. rewrite (ss_flags _ _ Hs), Hf. cbn [negb].
  destruct (sortbydeps_spec (installed h) (trans_add h1) (trans_remove h1) false) as (add & Ea & Pa);
    [apply targets_sortable; apply Hp|].
  destruct (sortbydeps_spec (installed h) (trans_remove h1) [] true) as (rem & Er & Pr);
    [eapply removals_sortable; apply Hr|].
  unfold sort_targets. rewrite El. fold (installed h). rewrite Ea. cbn -[alpm_sortbydeps].
  rewrite El. fold (installed h).
  assert (trans_remove (upd_trans (with_add add) h1) = trans_remove h1) as ->
    by (unfold trans_remove, upd_trans; simpl; by rewrite Et).
  rewrite Er. cbn. eexists. split; [done|].
  set (h2 := upd_trans (with_state STATE_PREPARED) _).
  assert (trans_add h2 = add ∧ trans_remove h2 = rem) as [Ea2 Er2]
    by (unfold h2, trans_add, trans_remove, upd_trans; simpl; rewrite Et; done).
  assert (kept h1 (upd_trans (with_remove rem) (upd_trans (with_add add) h1))) as K2 by keeps.
  assert (held h h2) as Hh.
  { etrans; [apply Hk|]. etrans; [apply K2|]. by apply held_state. }
  assert (hashes_ok (trans_add h2)) as Hh2 by (unfold hashes_ok; rewrite Ea2, Pa; apply Hp).
  split; [done|exact El|done| | | | |].
  - rewrite Ea2, Pa. apply Hp.
  - by rewrite Ea2, Pa.
  - rewrite Er2, Pr. apply Hr.
  - change (h_assumeinstalled h2) with (h_assumeinstalled h1). eapply consistent_image; [|exact Hc].
    apply system_image; [by eapply copies_hashes, Hr|apply Hp|done|done|by rewrite Er2|].
    rewrite Ea2. split; intros p Hin; exists p; (split; [|done]); by rewrite Pa in *.
  - rewrite Ea2, (Permutation_length Pa). rewrite <-(length_map pkg_name (trans_add h1)).
    unfold resolve_depth. rewrite <-length_app, <-(length_map pkg_name (_ ++ _)).
    apply NoDup_incl_length; [apply NoDup_ListNoDup, Hp|].
    intros n Hn%list_elem_of_In. apply list_elem_of_In.
    apply list_elem_of_fmap in Hn as (q & -> & Hq). destruct (pr_offered _ _ Hp q Hq) as (o & Oo & [So _]).
    rewrite (sd_name _ _ So). by apply (offered_known h (tp_sync _ Hpre)).
Qed.
End preparation.

Lemma prepare_plan te h :
  transaction_pre h → checked (trans_flags h) → trans_add h ≠ [] →
  consistent (installed h) (h_assumeinstalled h) →
  ∃ h1 rc data, alpm_trans_prepare te h = Some (h1, rc, data) ∧ (rc = 0 → plan h h1).
Proof.
  intros Hpre Hf Hne Hc. unfold alpm_trans_prepare, ret_err. set (h0 := check_handle h).
  change (h_trans h0) with (h_trans h).
  destruct (h_trans h) as [t|] eqn:Et; [|by eexists _, _, _].
  destruct (negb _); [by eexists _, _, _|].
  assert (trans_add h = t_add t) as Ea by (unfold trans_add; by rewrite Et). rewrite Ea in Hne.
  destruct (t_add t) as [|p0 l0]; [done|].
  destruct (check_arch h0 (p0 :: l0)); [|by eexists _, _, _].
  assert (transaction_pre h0) as Hpre0 by by apply pre_errno.
  destruct (sync_prepare_spec (ce_env (te_commit te)) (te_cached te) h0 (tp_sync _ Hpre0)) as (r & Er & Hcase).
  rewrite Er. cbn.
  destruct Hcase as [[Hx _]|(Hx & Hp & Ho & Hd & Hpc)]; rewrite Hx; cbn; [by eexists _, _, _|].
  destruct Hf as (F1 & F2 & F3). specialize (Hd F1). specialize (Hpc F3).
  pose proof (sync_prepare_kept _ _ _ _ Er) as Hk.
  pose proof (sync_prepare_removals (installed h0) _ _ h0 r (tp_sync _ Hpre0) eq_refl
    (tp_elected _ Hpre0) (tp_removals _ Hpre0) Er Hx) as Hr.
  pose proof (pr_same _ _ Hp) as Hs.
  assert (no_dep_version (sr_handle r) = false) as Hv.
  { rewrite no_dep_version_flags, (ss_flags _ _ Hs). exact F2. }
  destruct (prepare_finish_plan h0 Hpre0 (sr_handle r)) as (h2 & -> & Hpl); try done.
  - apply plan_consistent; [by eapply copies_hashes, Hr|apply Hp|done|done|done|].
    unfold installed. rewrite (ss_local _ _ Hs), (ss_assume _ _ Hs). exact Hc.
  - cbn. eexists _, _, _. split; [done|]. intros _. destruct Hpl as [[] ? ? ? ? ? ? ?]. by split.
Qed.

(** ** Loading the package files *)
Lemma Forall2_elem_l {A B} (R : A → B → Prop) l l' x :
  Forall2 R l l' → x ∈ l → ∃ y, y ∈ l' ∧ R x y.
Proof.
  intros H (i & Hi)%list_elem_of_lookup. destruct (Forall2_lookup_l _ _ _ _ _ H Hi) as (y & Hy & ?).
  exists y. split; [|done]. by eapply list_elem_of_lookup_2.
Qed.

Lemma Forall2_elem_r {A B} (R : A → B → Prop) l l' y :
  Forall2 R l l' → y ∈ l' → ∃ x, x ∈ l ∧ R x y.
Proof. intros H%Forall2_flip Hy. destruct (Forall2_elem_l _ _ _ _ H Hy) as (x & ? & ?). eauto. Qed.

(** [q] takes the place of the target [p]. *)
Record loaded (p q : alpm_pkg_t) : Prop := {
  lo_agrees : agrees p q;
  lo_old : pkg_oldpkg q = pkg_oldpkg p
}.

#[export] Instance loaded_preorder : PreOrder loaded.
Proof.
  split.
  - by split.
  - intros p q r [] []. split; [by etrans|congruence].
Qed.

Lemma loaded_refl_list l : Forall2 loaded l l.
Proof. by induction l; constructor. Qed.

Lemma loaded_hash p q : loaded p q → pkg_hash_ok p → pkg_hash_ok q.
Proof. intros [[E1 E2 _ _ _ _] _]. unfold pkg_hash_ok. by rewrite E1, E2. Qed.

Lemma loaded_hashes l l' : Forall2 loaded l l' → hashes_ok l → hashes_ok l'.
Proof.
  induction 1 as [|p q l l' Hpq _ IH]; [done|]. intros Hh. inversion Hh; subst.
  constructor; [by eapply loaded_hash|by apply IH].
Qed.

Lemma loaded_names l l' : Forall2 loaded l l' → map pkg_name l' = map pkg_name l.
Proof.
  induction 1 as [|p q l l' [Hag _] _ IH]; simpl; [done|]. by rewrite IH, (ag_name _ _ Hag).
Qed.

Lemma loaded_image l l' : Forall2 loaded l l' → image l l'.
Proof.
  intros H. split; intros p Hp.
  - destruct (Forall2_elem_l _ _ _ _ H Hp) as (q & Hq & [? _]). eauto.
  - destruct (Forall2_elem_r _ _ _ _ H Hp) as (q & Hq & [? _]). eauto.
Qed.

Lemma cmp_unsorted_matching l l' :
  alpm_list_cmp_unsorted dep_not_equal l l' = true → matching l l'.
Proof.
  intros (l'' & Hp & H)%list_cmp_unsorted_sound.
  assert (∀ d e, dep_not_equal d e = 0 → alike_dep d e) as Ha.
  { intros d e (? & ? & ? & ?)%dep_not_equal_0. by split. }
  split.
  - intros d Hd. destruct (Forall2_elem_l _ _ _ d H Hd) as (e & He & Hde).
    exists e. split; [by rewrite Hp|by apply Ha].
  - intros e He. rewrite Hp in He. destruct (Forall2_elem_r _ _ _ e H He) as (d & Hd & Hde).
    exists d. split; [done|by apply Ha].
Qed.

Lemma matches_loaded p file :
  pkg_hash_ok p → pkg_hash_ok file → check_pkg_matches_db p file = false →
  loaded p (take_over p file).
Proof.
  unfold check_pkg_matches_db. intros Hp Hf H. repeat apply orb_false_iff in H as [H ?].
  repeat match goal with E : negb _ = false |- _ => apply negb_false_iff in E end.
  rewrite !streq_true in *. split; [|done].
  split; cbn; [done| |done|by apply cmp_unsorted_matching..].
  unfold pkg_hash_ok in *. congruence.
Qed.

(** The hypothesis on _alpm_pkg_load_internal: the packages it returns carry the
    hash of their name. *)
Definition loads_hashed (te : trans_env) : Prop :=
  ∀ p file, te_load te p = inr file → pkg_hash_ok file.

Lemma validate_loaded te e add : Forall2 loaded add (validate_targets te e add).1.1.1.
Proof.
  revert e. induction add as [|p add IH]; intros e; simpl; [constructor|].
  destruct (is_file p).
  { specialize (IH e). destruct (validate_targets te e add) as [[[l e'] b] m]. by constructor. }
  destruct (negb _); [apply loaded_refl_list|]. destruct (te_validate te p) as [err|v].
  - specialize (IH err). destruct (validate_targets te err add) as [[[l e'] b] m]. by constructor.
  - specialize (IH ALPM_ERR_OK). destruct (validate_targets te ALPM_ERR_OK add) as [[[l e'] b] m].
    by constructor.
Qed.

Lemma load_loop_loaded te e add :
  loads_hashed te → hashes_ok add → Forall2 loaded add (load_loop te e add).1.1.1.
Proof.
  intros Hl. revert e. induction add as [|p add IH]; intros e Hh; simpl; [constructor|].
  inversion Hh as [|? ? Hp Hh']; subst. destruct (is_file p).
  { specialize (IH e Hh'). destruct (load_loop te e add) as [[[l e'] b] m]. by constructor. }
  destruct (negb _); [apply loaded_refl_list|]. destruct (te_load te p) as [err|file] eqn:El.
  - specialize (IH err Hh'). destruct (load_loop te err add) as [[[l e'] b] m]. by constructor.
  - specialize (IH e Hh'). destruct (load_loop te e add) as [[[l e'] b] m].
    destruct (check_pkg_matches_db p file) eqn:Em; [by constructor|].
    constructor; [|done]. apply matches_loaded; [done|by eapply Hl|done].
Qed.

(** The handle after loading: the targets are replaced, the removals are not. *)
Record fetched (h h' : alpm_handle_t) : Prop := {
  fe_add : Forall2 loaded (trans_add h) (trans_add h');
  fe_remove : trans_remove h' = trans_remove h
}.

#[export] Instance fetched_preorder : PreOrder fetched.
Proof.
  split.
  - intros h. split; [apply loaded_refl_list|done].
  - intros h1 h2 h3 [] []. split; [by etrans|congruence].
Qed.

Lemma fetched_upd f h :
  (∀ t, Forall2 loaded (t_add t) (t_add (f t)) ∧ t_remove (f t) = t_remove t) →
  fetched h (upd_trans f h).
Proof.
  intros Hf. split; unfold trans_add, trans_remove, upd_trans; simpl;
    (destruct (h_trans h) as [t|]; simpl; [by apply (Hf t)|done || constructor]).
Qed.

Lemma fetched_errno h h' e : fetched h h' → fetched h (set_errno e h').
Proof. by intros []. Qed.

Lemma fetched_with_add l h : Forall2 loaded (trans_add h) l → fetched h (upd_trans (with_add l) h).
Proof.
  unfold trans_add. intros Hl. split; unfold trans_add, trans_remove, upd_trans; simpl;
    (destruct (h_trans h) as [t|]; simpl; [done|done || constructor]).
Qed.

Lemma download_fetched te h : fetched h (download_files te h).1.
Proof.
  assert (∀ h, fetched h (download_finish h)) as Hf.
  { intros h'. apply fetched_upd. intros t. split; [|done]. simpl. induction (t_add t); by constructor. }
  assert (fetched h (upd_trans (with_state STATE_DOWNLOADING) h)) as Hd.
  { apply fetched_upd. intros t. split; [apply loaded_refl_list|done]. }
  unfold download_files.
  repeat case_match; cbn [fst]; (etrans; [|apply Hf]); try done; by apply fetched_errno.
Qed.

Lemma validity_fetched te h : fetched h (check_validity te h).1.
Proof.
  unfold check_validity, ret_err.
  pose proof (validate_loaded te (h_pm_errno h) (trans_add h)) as Hl.
  destruct (validate_targets te _ _) as [[[add e] bad] miss]. cbn [fst] in Hl.
  pose proof (fetched_with_add add h Hl) as Hf.
  repeat case_match; cbn [fst]; repeat apply fetched_errno; done.
Qed.

Lemma load_fetched te h :
  loads_hashed te → hashes_ok (trans_add h) → fetched h (load_packages te h).1.1.
Proof.
  intros Hl Hh. unfold load_packages, ret_err.
  pose proof (load_loop_loaded te (h_pm_errno h) (trans_add h) Hl Hh) as Hf.
  destruct (load_loop te _ _) as [[[add e] bad] miss]. cbn [fst] in Hf.
  pose proof (fetched_with_add add h Hf) as Hf'.
  repeat case_match; cbn [fst]; repeat apply fetched_errno; done.
Qed.

Lemma sync_load_fetched te h :
  loads_hashed te → hashes_ok (trans_add h) → fetched h (alpm_sync_load te h).1.1.
Proof.
  intros Hl Hh. unfold alpm_sync_load. pose proof (download_fetched te h) as H1.
  destruct (download_files te h) as [h1 rc1]. cbn [fst] in *.
  destruct (rc1 =? -1); [done|]. destruct (negb _); [done|].
  pose proof (validity_fetched te h1) as H2. destruct (check_validity te h1) as [h2 rc2]. cbn [fst] in *.
  assert (fetched h h2) as H3 by by etrans.
  destruct (negb _); [done|]. destruct (has_flag _ _); [done|].
  pose proof (load_fetched te h2 Hl) as H4. destruct (load_packages te h2) as [[h3 rc3] d]. cbn [fst] in *.
  assert (fetched h h3).
  { etrans; [exact H3|]. apply H4. eapply loaded_hashes; [apply H3|done]. }
  by destruct (negb _).
Qed.

Lemma sync_check_fetched te h fs : fetched h (alpm_sync_check te h fs).1.1.
Proof.
  unfold alpm_sync_check, ret_err. destruct (if negb _ then _ else _) as [conflicts skip].
  assert (fetched h (upd_trans (λ t, mk_trans (t_flags t) (t_state t) (t_unresolvable t) (t_add t)
    (t_remove t) skip) h)) as Hf.
  { apply fetched_upd. intros t. split; [apply loaded_refl_list|done]. }
  repeat case_match; cbn [fst]; repeat apply fetched_errno; done.
Qed.

(** ** The commit without signals *)
Section undisturbed.
Context (ce : commit_env) (Hsig : ∀ p, ce_signal ce p = false).

Lemma signal_none p h : signal ce p h = h.
Proof. unfold signal. by rewrite Hsig. Qed.

Lemma remove_loop_state b targets h fs h' fs' rc :
  remove_loop ce b targets h fs = Some (h', fs', rc) →
  t_state <$> h_trans h' = t_state <$> h_trans h.
Proof.
  revert h fs. induction targets as [|p l IH]; intros h fs; simpl; [by intros [= <- _ _]|].
  destruct (interrupted h); [by intros [= <- _ _]|].
  destruct (alpm_remove_single_package _ _ _ _ _) as [[h1 fs1]|] eqn:E; [|done].
  rewrite signal_none. intros ->%IH. by apply remove_single_held in E as [_ ->].
Qed.

Lemma upgrade_loop_state targets h fs ret h' fs' :
  upgrade_loop ce targets h fs ret = Some (h', fs', 0) →
  t_state <$> h_trans h' = t_state <$> h_trans h.
Proof.
  assert (∀ targets h fs h' fs', upgrade_loop ce targets h fs (-1) = Some (h', fs', 0) → False) as Hbad.
  { clear. intros targets. induction targets as [|p l IH]; intros h fs h' fs'; simpl; [done|].
    destruct (interrupted h); [done|].
    destruct (commit_single_pkg _ _ _ _) as [[[h1 fs1] rc1]|]; [|done]. destruct (rc1 =? 0); apply IH. }
  revert h fs. induction targets as [|p l IH]; intros h fs; simpl; [by intros [= <- _ _]|].
  destruct (interrupted h); [by intros [= <- _ _]|].
  destruct (commit_single_pkg _ _ _ _) as [[[h1 fs1] rc1]|] eqn:E; [|done].
  rewrite signal_none. destruct (rc1 =? 0); [|intros H; by apply Hbad in H].
  intros ->%IH. by apply commit_single_stays in E as [_ ->].
Qed.

Lemma sync_commit_state h fs h' fs' :
  alpm_sync_commit ce h fs = Some (h', fs', 0) → t_state <$> h_trans h' = t_state <$> h_trans h.
Proof.
  unfold alpm_sync_commit.
  set (m := match trans_remove h with [] => _ | _ => _ end).
  assert (∀ h1 fs1 rc1, m = Some (h1, fs1, rc1) → t_state <$> h_trans h1 = t_state <$> h_trans h) as Hm.
  { intros h1 fs1 rc1. unfold m. destruct (trans_remove h); [by intros [= <- _ _]|].
    apply remove_loop_state. }
  destruct m as [[[h1 fs1] rc1]|]; [|done]. specialize (Hm _ _ _ eq_refl).
  destruct (rc1 =? -1); [done|]. unfold alpm_upgrade_packages.
  destruct (trans_add h1) as [|p l] eqn:Ea; [by intros [= <- _]|].
  intros H. by rewrite (upgrade_loop_state _ _ _ _ _ _ H).
Qed.
Lemma upgrade_loop_rc targets h fs ret h' fs' rc :
  ret = 0 ∨ ret = -1 → upgrade_loop ce targets h fs ret = Some (h', fs', rc) → rc = 0 ∨ rc = -1.
Proof.
  revert h fs ret. induction targets as [|p l IH]; intros h fs ret Hret; simpl; [by intros [= _ _ <-]|].
  destruct (interrupted h); [by intros [= _ _ <-]|].
  destruct (commit_single_pkg _ _ _ _) as [[[h1 fs1] rc1]|]; [|done].
  destruct (rc1 =? 0); apply IH; auto.
Qed.

Lemma sync_commit_rc h fs h' fs' rc :
  alpm_sync_commit ce h fs = Some (h', fs', rc) → rc = 0 ∨ rc = -1.
Proof.
  unfold alpm_sync_commit, alpm_upgrade_packages. destruct (match trans_remove h with [] => _ | _ => _ end)
    as [[[h1 fs1] rc1]|]; [|done].
  destruct (rc1 =? -1); [intros [= _ _ <-]; by right|].
  destruct (trans_add h1); [intros [= _ _ <-]; by left|]. apply upgrade_loop_rc. by left.
Qed.

Lemma state_interrupted h h' :
  t_state <$> h_trans h' = t_state <$> h_trans h → interrupted h' = interrupted h.
Proof.
  unfold interrupted. destruct (h_trans h) as [t|], (h_trans h') as [t'|]; simpl; try done.
  by intros [= ->].
Qed.

Lemma commit_run h fs :
  db_ready h → hashes_ok (trans_add h) →
  Forall (λ p, pkg_hash_ok p ∧ digests_ok p) (trans_remove h) →
  Forall (target_ok h) (trans_add h) → NoDup (map pkg_name (trans_add h)) →
  Z.of_nat (length (installed h) + length (trans_add h)) < 414055 → interrupted h = false →
  ∃ h' fs' rc, match trans_add h with
               | [] => alpm_remove_packages ce true h fs
               | _ => alpm_sync_commit ce h fs
               end = Some (h', fs', rc) ∧
    db_ready h' ∧ (rc ≠ -1 → image (system_after h) (installed h')).
Proof.
  intros Hr Ha Hrem Hadd Hnd Hlen Hi.
  assert (hashes_ok (trans_remove h)) as Hrh
    by (eapply Forall_impl; [exact Hrem|]; by intros p [? _]).
  destruct (trans_add h) as [|p0 l0] eqn:Ea.
  - destruct (remove_loop_spec ce true (trans_remove h) h fs Hr Hrem)
      as (h' & fs' & E & Hr' & _ & Hsub & Hkeep & Hgone).
    pose proof (state_interrupted _ _ (remove_loop_state _ _ _ _ _ _ _ E)) as Ei.
    rewrite Hi in Ei. specialize (Hgone Ei).
    exists h', fs', 0. split_and!; [exact E|done|]. intros _.
    assert (∀ q, q ∈ installed h' ↔ q ∈ system_after h) as Heq.
    { intros q. rewrite elem_of_system_after by (rewrite ?Ea; done). rewrite Ea. split.
      - intros Hq. right. split_and!; [by apply Hsub|by apply Hgone|apply not_elem_of_nil].
      - intros [Hq%not_elem_of_nil|(? & ? & _)]; [done|by apply Hkeep]. }
    split; intros q Hq; exists q; (split; [by apply Heq|done]).
  - destruct (sync_commit_spec ce h fs) as (h' & fs' & rc & E & Hr' & _ & _ & Hm); try (rewrite ?Ea; done).
    exists h', fs', rc. split_and!; [done|done|]. intros Hrc.
    destruct (sync_commit_rc _ _ _ _ _ E) as [->|?]; [|done].
    destruct Hm as [M1 M2]; [done| |].
    { rewrite (state_interrupted h); [done|]. by eapply sync_commit_state. }
    split; intros q Hq.
    + destruct (M1 q Hq) as (x & Hx & Hs). exists x. split; [done|by apply same_deps_agrees].
    + destruct (M2 q Hq) as (x & Hx & Hs). exists x. split; [done|by apply same_deps_agrees].
Qed.
End undisturbed.

(** ** From the plan to the installed packages *)
Section whole.
Context (te : trans_env) (h h1 : alpm_handle_t).
Context (Hpre : transaction_pre h) (Hplan : plan h h1) (Hload : loads_hashed te).
Context (Hsig : ∀ p, ce_signal (te_commit te) p = false).

Lemma plan_installed : installed h1 = installed h.
Proof. unfold installed. by rewrite (pl_local _ _ Hplan). Qed.

Lemma plan_target h2 q :
  installed h2 = installed h → fetched h1 h2 → q ∈ trans_add h2 → target_ok h2 q.
Proof.
  intros Ei Hf Hq. destruct (Forall2_elem_r _ _ _ _ (fe_add _ _ Hf) Hq) as (p & Hp & Hpq).
  pose proof (pl_hashes _ _ Hplan) as Hh. unfold hashes_ok in Hh. rewrite Forall_forall in Hh.
  split; [by eapply loaded_hash, Hh|]. rewrite Ei.
  destruct Hpq as [Hag Hold]. rewrite Hold, (ag_name _ _ Hag).
  intros (l & El & Hl)%list_elem_of_fmap.
  pose proof (pl_old _ _ Hplan) as Ho. rewrite Forall_forall in Ho.
  pose proof (tp_pkgs _ Hpre) as Hpk. rewrite Forall_forall in Hpk. destruct (Hpk l Hl) as [Hne Hd].
  pose proof (pre_cache h Hpre) as Hc.
  destruct (Ho p Hp l) as (a & Ea).
  - rewrite (@cache_lookup _ Hc), El. apply pkg_find_unique; [apply Hc|apply Hc|exact Hl].
  - congruence.
  - rewrite Ea. eexists. split; [done|].
    pose proof (@cache_hashes _ Hc) as Hlh. unfold hashes_ok in Hlh. rewrite Forall_forall in Hlh.
    split_and!; [exact (Hlh l Hl)|by rewrite El|]. by apply dup_digests.
Qed.
(** The commit of the plan, once the packages are loaded. *)
Lemma plan_commit h2 fs :
  held h1 h2 → h_db_local h2 = h_db_local h1 → fetched h1 h2 →
  ∃ h' fs' rc, commit_packages te h2 fs = Some (h', fs', rc) ∧ db_ready h' ∧
    (rc = 0 → consistent (installed h') (h_assumeinstalled h')).
Proof.
  intros Hh El Hf. unfold commit_packages. set (h3 := upd_trans _ h2).
  assert (trans_add h3 = trans_add h2 ∧ trans_remove h3 = trans_remove h2 ∧ interrupted h3 = false)
    as (Ea & Er & Hi).
  { unfold h3, interrupted, trans_add, trans_remove, upd_trans. simpl. by destruct (h_trans h2). }
  assert (installed h3 = installed h) as Ei.
  { rewrite <-plan_installed. unfold installed. change (h_db_local h3) with (h_db_local h2). by rewrite El. }
  assert (db_ready h3) as Hr3.
  { apply (ready_frame h); [apply Hpre|etrans; [exact El|apply Hplan]|].
    pose proof (hd_next _ _ (pl_held _ _ Hplan)). pose proof (hd_next _ _ Hh). simpl. lia. }
  assert (hashes_ok (trans_add h2)) as Hh2 by (eapply loaded_hashes; [apply Hf|apply Hplan]).
  assert (fetched h1 h3) as Hf3 by (destruct Hf; split; rewrite ?Ea, ?Er; done).
  destruct (commit_run (te_commit te) Hsig h3 fs) as (h' & fs' & rc & E & Hr' & Him); try done.
  - by rewrite Ea.
  - rewrite Er, (fe_remove _ _ Hf). eapply Forall_impl; [apply Hplan|]. intros r. by apply copy_good.
  - apply Forall_forall. intros q Hq. by apply plan_target.
  - rewrite Ea, (loaded_names _ _ (fe_add _ _ Hf)). apply Hplan.
  - rewrite Ei, Ea, <-(Forall2_length _ _ _ (fe_add _ _ Hf)). pose proof (tp_size _ Hpre).
    pose proof (pl_size _ _ Hplan). lia.
  - rewrite E. cbn. set (h'' := upd_trans (with_state STATE_COMMITTED) h').
    assert (db_ready h'') as Hr'' by (by apply (ready_frame h')).
    destruct (rc =? -1) eqn:Erc; eexists _, _, _; (split; [done|]); (split; [done|]); [done|].
    intros _. apply Z.eqb_neq in Erc. specialize (Him Erc).
    pose proof (commit_packages_held te h2 fs) as Hch. unfold commit_packages in Hch. fold h3 in Hch.
    rewrite E in Hch. cbn in Hch. rewrite (proj2 (Z.eqb_neq _ _) Erc) in Hch.
    specialize (Hch _ _ _ eq_refl).
    assert (h_assumeinstalled h'' = h_assumeinstalled h1) as -> by
      (etrans; [apply (hd_assume _ _ Hch)|apply (hd_assume _ _ Hh)]).
    apply (consistent_image (system_after h1)); [|apply Hplan]. etrans; [|exact Him].
    apply system_image; [by eapply copies_hashes; [|apply Hplan]|apply Hplan|by rewrite Ea| | |].
    + rewrite Ei. symmetry. apply plan_installed.
    + by rewrite Er, (fe_remove _ _ Hf).
    + apply loaded_image, Hf3.
Qed.
Context (Hcons : consistent (installed h) (h_assumeinstalled h)).

Lemma plan_unchanged h2 :
  held h1 h2 → h_db_local h2 = h_db_local h1 →
  db_ready h2 ∧ consistent (installed h2) (h_assumeinstalled h2).
Proof.
  intros Hh El. pose proof (pl_held _ _ Hplan) as Hh1. pose proof (pl_local _ _ Hplan) as El1.
  split.
  - apply (ready_frame h); [apply Hpre|congruence|].
    pose proof (hd_next _ _ Hh1). pose proof (hd_next _ _ Hh). lia.
  - unfold installed. rewrite El, El1, (hd_assume _ _ Hh), (hd_assume _ _ Hh1). exact Hcons.
Qed.

Lemma plan_trans_commit fs :
  ∃ h2 fs2 rc data, alpm_trans_commit te h1 fs = Some (h2, fs2, rc, data) ∧ db_ready h2 ∧
    (rc = 0 → consistent (installed h2) (h_assumeinstalled h2)).
Proof.
  unfold alpm_trans_commit, ret_err. set (h0 := check_handle h1).
  assert (∀ h2 (fs2 : fsys) (rc : Z) (d : trans_data), held h1 h2 → h_db_local h2 = h_db_local h1 →
    ∃ h' fs' rc' d', Some (h2, fs2, rc, d) = Some (h', fs', rc', d') ∧ db_ready h' ∧
      (rc' = 0 → consistent (installed h') (h_assumeinstalled h'))) as Hstop.
  { intros h2 fs2 rc d Hh El. destruct (plan_unchanged h2 Hh El). eexists _, _, _, _. done. }
  assert (∀ e, held h1 (set_errno e h0)) as He by (intros e; by split).
  change (h_trans h0) with (h_trans h1). destruct (h_trans h1) as [t|] eqn:Et; [|by apply Hstop].
  destruct (negb _); [by apply Hstop|]. destruct (has_flag (t_flags t) ALPM_TRANS_FLAG_NOLOCK); [by apply Hstop|].
  assert (∀ l (A : Type) (x y : A), t_add t = l → match l, t_remove t with [], [] => x | _, _ => y end =
    if (match l, t_remove t with [], [] => true | _, _ => false end) then x else y) as Hm
    by (intros [|? ?]; by destruct (t_remove t)).
  rewrite (Hm (t_add t) _ _ _ eq_refl). clear Hm. destruct (match t_add t with [] => _ | _ => _ end); [by apply Hstop|].
  set (m := match t_add t with [] => (h0, 0, NoData, false) | _ => _ end).
  assert (held h1 m.1.1.1 ∧ h_db_local m.1.1.1 = h_db_local h1 ∧ fetched h1 m.1.1.1) as (M1 & M2 & M3).
  { assert (hashes_ok (trans_add h0)) as Hh0 by apply Hplan.
    unfold m. destruct (t_add t); [by split_and!|].
    pose proof (sync_load_loading te h0) as [L1 L2 _]. pose proof (sync_load_fetched te h0 Hload Hh0) as L3.
    destruct (alpm_sync_load te h0) as [[h2 rc2] d2]. cbn [fst] in *.
    assert (held h1 h2 ∧ fetched h1 h2) as [? ?] by (split; [by destruct L1|by destruct L3]).
    destruct (negb _); [done|]. destruct (has_flag _ ALPM_TRANS_FLAG_DOWNLOADONLY); [done|].
    pose proof (sync_check_kept te h2 fs) as [C1 C2 _]. pose proof (sync_check_fetched te h2 fs) as C3.
    destruct (alpm_sync_check te h2 fs) as [[h3 rc3] d3]. cbn [fst] in *.
    destruct (negb _); cbn [fst]; (split_and!; [by etrans|etrans; [exact C2|exact L2]|by etrans]). }
  destruct m as [[[h2 rc2] d2] []]; cbn [fst] in *; [by apply Hstop|].
  destruct (if negb _ then te_pre_hook te h2 fs else (fs, true)) as [fs2 []]; cbn [negb].
  2:{ apply Hstop; [|done]. etrans; [exact M1|apply kept_errno]. }
  destruct (plan_commit h2 fs2 M1 M2 M3) as (h' & fs' & rc & E & Hr & Hc). rewrite E. cbn.
  eexists _, _, _, _. done.
Qed.
End whole.

(** C1. A transaction keeps the system consistent. Take a system in which every
    dependency of an installed package is satisfied and no two installed packages
    conflict, and a transaction with targets and without the flags that switch
    the checks off. Preparing it returns, with an error or with a plan; committing
    the plan returns, and the package cache is sound whatever failed; when the
    commit succeeds, every dependency of an installed package is satisfied and
    no two installed packages conflict. The packages that are installed come
    from files that may differ from the database entries the plan was made for;
    the comparison of both when they are loaded is what makes this hold. *)
Theorem transaction_preserves_consistency te te' h fs :
  transaction_pre h → checked (trans_flags h) → trans_add h ≠ [] →
  loads_hashed te' → (∀ p, ce_signal (te_commit te') p = false) →
  consistent (installed h) (h_assumeinstalled h) →
  ∃ h1 rc1 data1, alpm_trans_prepare te h = Some (h1, rc1, data1) ∧
    (rc1 = 0 → ∃ h2 fs2 rc2 data2, alpm_trans_commit te' h1 fs = Some (h2, fs2, rc2, data2) ∧
       db_ready h2 ∧ (rc2 = 0 → consistent (installed h2) (h_assumeinstalled h2))).
Proof.
  intros Hpre Hf Hne Hl Hs Hc.
  destruct (prepare_plan te h Hpre Hf Hne Hc) as (h1 & rc1 & d1 & E & Hp).
  exists h1, rc1, d1. split; [done|]. intros E1.
  by apply (plan_trans_commit te' h h1 Hpre (Hp E1) Hl Hs Hc).
Qed.

(** The transaction of the session in Protocol. *)
Definition ex_start : alpm_handle_t :=
  let h := ex_mail 0 in
  set_dbs_sync (map (with_server (str "https://mirror/")) (h_dbs_sync h)) h.

Lemma ex_start_installed : installed ex_start = [ex_exim].
Proof. reflexivity. Qed.

Lemma ex_start_offered p : offered ex_start p → p = ex_postfix ∨ p = ex_libdb.
Proof.
  intros [Hp|(db & Hdb & _ & Hp)].
  - apply list_elem_of_singleton in Hp as ->. by left.
  - apply list_elem_of_singleton in Hdb as ->. change (p ∈ [ex_postfix; ex_libdb]) in Hp.
    rewrite elem_of_cons, list_elem_of_singleton in Hp. tauto.
Qed.

Lemma ex_start_pre : transaction_pre ex_start.
Proof.
  assert (db_ready ex_start) as Hr.
  { split.
    - split; [|vm_compute; reflexivity|vm_compute; reflexivity|vm_compute; discriminate].
      apply (list_db_inv (str "local") DB_STATUS_LOCAL [ex_exim]);
        [by repeat constructor|apply NoDup_singleton|apply NoDup_singleton].
    - split; [lia|]. vm_compute. repeat constructor.
    - apply is_some_true. vm_compute. reflexivity.
    - vm_compute. reflexivity. }
  split; [|done| | | | | |].
  - destruct (ex_mail_pre 0) as [S1 S2 S3 S4 S5 S6]. split; [exact S1| |exact S3|exact S4|exact S5|].
    + inversion S2 as [|? ? H _]; subst. constructor; [|constructor]. destruct H as [H1 H2 H3 H4].
      split; [exact H1|exact H2|exact H3|exact H4].
    + intros p [->| ->]%ex_start_offered; by eexists.
  - rewrite ex_start_installed. constructor; [|constructor]. split; [done|constructor].
  - intros p [->| ->]%ex_start_offered; constructor.
  - intros p [->| ->]%ex_start_offered; rewrite ex_start_installed; by intros H%list_elem_of_singleton.
  - intros p q [->| ->]%ex_start_offered [->| ->]%ex_start_offered; done.
  - split; [by eexists|by repeat constructor|constructor|constructor|].
    rewrite ex_start_installed. constructor; [vm_compute; lia|constructor].
  - vm_compute. reflexivity.
Qed.

Lemma transaction_preserves_consistency_witness :
  ∃ h1 rc1 data1, alpm_trans_prepare ex_te ex_start = Some (h1, rc1, data1) ∧
    (rc1 = 0 → ∃ h2 fs2 rc2 data2, alpm_trans_commit ex_te h1 ∅ = Some (h2, fs2, rc2, data2) ∧
       db_ready h2 ∧ (rc2 = 0 → consistent (installed h2) (h_assumeinstalled h2))).
Proof.
  apply (transaction_preserves_consistency ex_te ex_te ex_start ∅ ex_start_pre).
  - by repeat split.
  - discriminate.
  - intros p file. simpl. destruct (_ =? _) eqn:E; [|done]. intros [= <-]. by apply Z.eqb_eq in E.
  - done.
  - rewrite ex_start_installed. split.
    + intros p d ->%list_elem_of_singleton Hd%not_elem_of_nil. done.
    + intros p q ->%list_elem_of_singleton ->%list_elem_of_singleton [Hn _]. done.
Defined.
